(* ===== verification/_CoqProject ===== *)
-Q . S2P
Prelude.v
Counting.v
Gate.v
MemLimit.v
MemLimitSpec.v
Vma.v
Mm.v
MmSpec.v
Brk.v
BrkSpec.v
Mmap.v
MmapSpec.v
MergeSpec.v
MmapCalls.v
Original.v
Layout.v
LayoutSpec.v
Race.v
Stack.v
Cred.v
CredSpec.v
Rlimit.v
UsageStats.v
Sysinfo.v
Track.v
File.v
ReadWrite.v
Copy.v
ReadWriteSpec.v
Bytes.v
PosixSpec.v
CopySpec.v
PathCalls.v
PathSpec.v
Open.v
OpenSpec.v
Task.v
TaskSpec.v
Uts.v
UtsSpec.v
Rusage.v
Prctl.v
PrctlSpec.v
Fork.v
ForkSpec.v
CMem.v
BootArgs.v
BootConfig.v
BootArgsSpec.v
BootConfigSpec.v
BootInit.v
BootInitSpec.v
DupMm.v
DupMmSpec.v
Stacks.v
StacksSpec.v
AllLocks.v
AllLocksSpec.v
Special.v
SpecialSpec.v
RMap.v
RMapSpec.v
RMapOps.v
TaskRefs.v
Vfork.v
VforkSpec.v
TaskRefsSpec.v
TaskLife.v
TaskLifeSpec.v
StackUp.v
