(* ===== verification/Prelude.v ===== *)
(** * A verification development of three kernel projects

    The repository holds the files that three course projects changed in, or added to,
    a Linux 6.8 kernel for x86-64.

    - Proyecto1 ([Proyecto1/kernel-linux]) adds a memory snapshot call and call counters
      ([kernel/sys.c], [kernel/usac/syscall1.c] to [syscall3.c], hooks in
      [fs/read_write.c], [fs/open.c] and [kernel/fork.c]), a [/proc] module, and its own
      copy of the start-up code ([custom/main.c]).
    - Proyecto2 ([Proyecto2/p2-kernel-linux/kernel/usac]) adds per-process and global
      memory statistics and [tamalloc], which maps zeroed memory without reserving it.
    - Proyecto3 ([Proyecto3/project3]) adds a memory limiter, a list of processes with a
      limit each ([kernel/usac/project3/crudmemlimit.c]), and asks it in [brk] and
      [mmap] ([mm/mmap.c]; the unchanged file is [files/originalmmap.c]).

    The files that only carry a hook are kernel files of thousands of lines; what they do
    around the hook is modelled too, since the hooks and the projects rely on it.

    ** Files

    Shared:
    - [Prelude]: machine integers and their wrap-around, pages, error numbers, the error
      monad, user memory, tactics and the hint databases.
    - [Bytes], [CMem]: byte strings as files and user buffers hold them; blocks of memory
      with C strings in them.
    - [Counting]: the number of entries of a map with a property, for reference counts.
    - [Gate]: the interface [MemGate] between the limiter and [mm/mmap.c]: the limit of an
      id, whether the lookup of an id finds its own task, and the answer; the kernel without
      a limiter is the instance [open_gate].

    The limiter and memory ([crudmemlimit.c], [mm/mmap.c]):
    - [MemLimit], [MemLimitSpec]: list, mutex and heap blocks; the calls refine a finite
      map from process ids to limits, and the limiter discharges [MemGate]
      ([limiter_gate]).
    - [Vma]: [struct vm_area_struct]; the interface [VmaTree] to the maple tree, realised
      by ordered lists; the pages of an address space as a process sees them ([view],
      [same_pages]).
    - [Mm], [MmSpec]: [mm_struct], accounting, [__split_vma] and the munmap path; the
      invariant [mm_wf].
    - [Brk], [BrkSpec]: merging tests, [get_unmapped_area], [do_brk_flags], [brk] with the
      hook, [vm_brk_flags].
    - [Mmap], [MmapSpec], [MergeSpec], [MmapCalls]: [vma_expand], [vma_merge], [vma_modify],
      [mmap_region], [do_mmap], [ksys_mmap_pgoff] with the hook.
    - [Original]: [brk] and [mmap] of [files/originalmmap.c].
    - [Layout], [LayoutSpec]: [unmapped_area], [unmapped_area_topdown] and the generic area
      choosers, over the gap search of the tree ([GapTree]).
    - [Race]: the threads of one process, each with its id, interleaved at the hook of
      [ksys_mmap_pgoff].
    - [Stack], [StackUp]: [acct_stack_growth], [expand_downwards], [expand_upwards],
      [expand_stack], in the two configurations.
    - [Special], [SpecialSpec]: [insert_vm_struct], special mappings, [vma_shrink],
      [copy_vma], [find_mergeable_anon_vma], write notification, [remap_file_pages],
      [old_mmap], the reserves.
    - [RMap], [RMapSpec], [RMapOps]: the reverse maps: [vma_prepare], [vma_complete] and their
      callers, over the interval trees ([IntervalTree]) and [mm/rmap.c] ([AnonRmap],
      [AnonFault]).
    - [AllLocks], [AllLocksSpec]: [mm_take_all_locks] and [mm_drop_all_locks].

    Processes ([kernel/fork.c], [mm/mmap.c]):
    - [Fork], [ForkSpec]: [copy_process] with its error ladder, [kernel_clone] and its
      callers, [clone3], [unshare].
    - [DupMm], [DupMmSpec]: [dup_mm], [dup_mmap], [mm_init], and back through [__mmput],
      [exit_mmap] and [remove_vma].
    - [Stacks], [StacksSpec]: [dup_task_struct], kernel stacks with the cache of each CPU,
      the limit on threads.
    - [Vfork], [VforkSpec]: parent and child of a [vfork] as two threads: [kernel_clone] with
      [wait_for_vfork_done], [mm_release] with [complete_vfork_done].
    - [TaskRefs], [TaskRefsSpec]: [mmput], [get_task_mm], [mm_access], [get_task_exe_file],
      [copy_seccomp], pidfds.
    - [TaskLife], [TaskLifeSpec]: signals, handlers and task structures by their counts,
      [mmdrop_async] and its worker, CPUs with a borrowed address space.

    Files ([fs/read_write.c], [fs/open.c]):
    - [File], [ReadWrite], [Copy], with [ReadWriteSpec], [PosixSpec], [CopySpec]: seeking,
      [read] and [write] with their positioned and vectored forms, [sendfile] and
      [copy_file_range].
    - [PathCalls], [PathSpec]: truncation, [fallocate], access tests, directories, modes
      and owners.
    - [Open], [OpenSpec]: the flags and resolve checks, [do_dentry_open], descriptors,
      [close] and its ranges.

    System calls on the calling process ([kernel/sys.c]):
    - [Cred], [CredSpec]: the set*id and get*id calls.
    - [Rlimit]: [do_prlimit] and the resource limit calls.
    - [Task], [TaskSpec]: priorities, process groups and sessions.
    - [Uts], [UtsSpec]: host and domain name, [uname].
    - [Rusage]: [getrusage], [times], [umask], [getcpu].
    - [Prctl], [PrctlSpec]: [prctl], the layout of an address space included.
    - [Sysinfo]: [do_sysinfo] and the snapshot call.

    The added calls:
    - [UsageStats]: [pidstats.c], [pidstatsv2.c], [globalstats.c], [tamalloc.c].
    - [Track]: the call counters ([syscall2.c] and its hooks), the I/O statistics call
      ([syscall3.c]) and the [/proc] module.

    Start-up ([custom/main.c]):
    - [BootArgs], [BootArgsSpec]: the handlers of boot parameters and the arguments and
      environment of the first program.
    - [BootConfig], [BootConfigSpec]: the bootconfig behind a ramdisk and the command
      lines made of it.
    - [BootInit], [BootInitSpec]: initcalls, the console, the search for a first program
      and the two threads of [rest_init] as a step relation.

    ** How the code is modelled

    A C function is a Rocq function of the same name over the part of the kernel state it
    touches: it takes the state and returns the result and the new state, with every
    guard and early return of the source; error codes are the negative integers the code
    returns.  An [unsigned long] is an integer of [Z] and every operation that can wrap
    wraps ([+u], [-u], [<<u]).  Kernel code that is not in the repository (memory
    allocation, security hooks, capabilities, the architecture, the maple tree) is an
    argument: a field of an environment record ([vm_env], [brk_env], [map_env],
    [layout_env], [stack_env], [cred_env], [rlimit_env], [dup_env], [lock_env], ...) or an
    interface with laws ([VmaTree], [GapTree]); a theorem that needs a documented property
    of it names that property ([brk_env_ok], [map_env_ok], [layout_ok],
    [vm_mmap_contract], [SyncOk], [capability_rules]).  An allocation failure is one of the answers of the environment,
    so every error path can run.  Reference counts, locks and allocations that a claim is
    about are counted in the state ([held], [users], [taken], [charged]), and a label of
    an error ladder is a definition of its own, so that a step that is missing in the
    ladder shows.  [BUG] and uses of memory that C does not define are [None] (or the
    error side of the boot monad, or a flag of the state: [bug] of an open file's state,
    [bad] of the reverse maps), and the theorems show that they are not reached.
    Concurrency is a step relation: [Race], [Stacks], [BootInit], [Vfork],
    [TaskLifeSpec].

    Loops.  A loop over a list is a structural recursion.  The others take fuel; running
    out is [None], and the theorems show that it does not happen with
    [munmap_fuel] (the number of areas and two: a round removes an area from those ahead,
    and a split adds one), [search_fuel] (the number of areas and one: a retry skips an
    area for good), [loop_fuel] of the vectored calls (the segments left and one),
    [retry_fuel], 2, of calls that are tried again once after a stale handle, the
    two passes of [getrusage] (the second is taken under the lock), and the depth of the
    process tree in the subreaper walk.  [unit_fuel] is 31 because the unit of [do_sysinfo]
    is a power of two of 32 bits.

    ** What is proved

    - The limiter: the calls, reading included, are map operations, release the mutex on
      every path and leak no node; the admission test compares the usage with the limit, and
      refuses a request whose id the lookup does not find.
    - Address spaces: [munmap], [brk], [mmap_region], [vma_merge] in its eight cases, special
      mappings and stack growth do to the pages of a process exactly what was asked, keep
      the areas sorted, disjoint and counted, and on an error leave the pages as they were
      (or, after a failed [mmap], without the range it replaced); a mapping at an address
      of the kernel's choice disturbs no page; taking all locks takes each once; the reverse
      maps hold each area exactly where its fields say.
    - The limit: no history of [brk] calls exceeds it, no history of [mmap] calls exceeds
      it by a page, whatever drivers make of flags and offsets; the modified calls are the
      original ones except for refusals.  The hook in [mmap] is outside the lock and asks
      for the id of the calling thread: [n] listed threads stay below [n] limits and a page
      each, two threads can exceed one limit, and a thread that is not listed has none.
    - Processes: a [copy_process] that fails gives back everything, one that succeeds shares
      what its flags say; copying an address space is all or nothing and the child is well
      formed; every kernel stack has one owner and is charged once, however forks, exits
      and callbacks interleave; the handshake of [vfork] touches no freed memory, wakes the
      parent only when the child has left, and always ends; an address space is torn
      down once, after its last user; tasks, signals and handlers are freed with their last
      reference and never used after it, and no CPU keeps a freed address space.
    - Files: the calls refine POSIX reads and writes on byte strings, keep the books of
      references, locks and freeze protection on every path, and end; opening is all or
      nothing.
    - Identities and resource limits: a process without the capabilities in its sets gains no
      id it did not have and raises no hard limit, over any history of calls; sessions stay separate; [prctl]
      keeps the layout valid.
    - Start-up: the arguments and environment of the first program are those of an abstract
      specification, no handler leaves its buffers, early and other initcalls run in order
      with and without a blacklist, and the two threads reach the first program from every
      reachable state.
    - Statistics: what the statistics calls report, in terms of the counters they read,
      with their bounds, wrap-around and error paths; counters count the hooked calls that
      come one after the other, and a query reports them.

    ** What is not modelled

    Page tables, page contents and page protections are not part of the modelled state, nor
    are the debug checks [check_mm] and [mt_validate], tracing and log lines.  Of [kernel/fork.c]:
    the slab caches, robust futexes, the per-CPU process counters and the timer fields of a
    new task; [copy_process] takes the answers of [copy_mm] and [dup_task_struct] as its
    environment, and these two are verified by themselves ([DupMm], [Stacks]).  Of
    [mm/mmap.c]: the pages across [remap_file_pages] (its tests and calls are in [Special]).
    Of [custom/main.c]: the calls into other subsystems between the steps modelled.
    [files/originalmmap.c] is only modelled where it differs from [mm/mmap.c].  Headers,
    system call tables, Makefiles, test programs and the generated module file carry no
    logic of the projects. *)
From Stdlib Require Export ZArith Lia Bool.
From stdpp Require Export base tactics numbers list gmap relations sorting.

Declare Scope kernel_scope.
Delimit Scope kernel_scope with K.
#[global] Open Scope Z_scope.

Create HintDb kernel discriminated.
Create Rewrite HintDb kernel.

(** ** Machine integers *)

(** Wrap-around at the widths the C sources use: [unsigned long]/[size_t]/[u64],
    [unsigned int]/[u32], [int] and [long]. *)
Definition u64 (x : Z) : Z := x mod 2 ^ 64.
Definition u32 (x : Z) : Z := x mod 2 ^ 32.
Definition i32 (x : Z) : Z := (x + 2 ^ 31) mod 2 ^ 32 - 2 ^ 31.
Definition i64 (x : Z) : Z := (x + 2 ^ 63) mod 2 ^ 64 - 2 ^ 63.
Definition is_u64 (x : Z) : Prop := 0 <= x < 2 ^ 64.
Definition is_u32 (x : Z) : Prop := 0 <= x < 2 ^ 32.
Definition is_i32 (x : Z) : Prop := - 2 ^ 31 <= x < 2 ^ 31.
Definition ULONG_MAX : Z := 2 ^ 64 - 1.

#[global] Arguments u64 : simpl never.
#[global] Arguments u32 : simpl never.
#[global] Arguments i32 : simpl never.
#[global] Arguments i64 : simpl never.
#[global] Arguments Z.pow : simpl never.
#[global] Arguments Z.shiftl : simpl never.
#[global] Arguments Z.shiftr : simpl never.
#[global] Arguments Z.land : simpl never.
#[global] Arguments Z.lor : simpl never.

Notation "x +u y" := (u64 (x + y)) (at level 50, left associativity) : kernel_scope.
Notation "x -u y" := (u64 (x - y)) (at level 50, left associativity) : kernel_scope.
Notation "x *u y" := (u64 (x * y)) (at level 40, left associativity) : kernel_scope.
Notation "x <<u n" := (u64 (Z.shiftl x n)) (at level 45, left associativity) : kernel_scope.
Notation "x >>u n" := (Z.shiftr x n) (at level 45, left associativity) : kernel_scope.
#[global] Open Scope kernel_scope.

(** [word_lia] is [lia] with the wrap-around functions opened as Euclidean
    divisions. *)
Ltac word_unfold :=
  unfold u64, u32, i32, i64, is_u64, is_u32, is_i32, ULONG_MAX in *.
Ltac word_lia := word_unfold; Z.to_euclidean_division_equations; lia.

(** Splits on every [if]/[match] of the context and clears the impossible
    branches. *)
Ltac run_cases :=
  repeat (case_match; simplify_eq/=); try done.

(** Opens boolean conjunctions that are known to hold, down to the atoms. *)
Ltac split_bools :=
  repeat match goal with
  | H : _ && _ = true |- _ => apply andb_true_iff in H; destruct H
  | H : _ || _ = false |- _ => apply orb_false_iff in H; destruct H
  | H : negb _ = true |- _ => apply negb_true_iff in H
  | H : negb _ = false |- _ => apply negb_false_iff in H
  end.

Lemma u64_range x : 0 <= u64 x < 2 ^ 64.
Proof. apply Z.mod_pos_bound. lia. Qed.

Lemma u64_is_u64 x : is_u64 (u64 x).
Proof. apply u64_range. Qed.

Lemma u32_range x : 0 <= u32 x < 2 ^ 32.
Proof. apply Z.mod_pos_bound. lia. Qed.

Lemma i32_range x : is_i32 (i32 x).
Proof.
  unfold is_i32, i32. pose proof (Z.mod_pos_bound (x + 2 ^ 31) (2 ^ 32)). lia.
Qed.

Lemma u64_small x : 0 <= x < 2 ^ 64 -> u64 x = x.
Proof. apply Z.mod_small. Qed.

Lemma u32_small x : 0 <= x < 2 ^ 32 -> u32 x = x.
Proof. apply Z.mod_small. Qed.

Lemma i32_small x : is_i32 x -> i32 x = x.
Proof. unfold is_i32, i32. intros. rewrite Z.mod_small; lia. Qed.

Lemma i64_small x : - 2 ^ 63 <= x < 2 ^ 63 -> i64 x = x.
Proof. unfold i64. intros. rewrite Z.mod_small; lia. Qed.

Lemma u64_idemp x : u64 (u64 x) = u64 x.
Proof. apply u64_small, u64_range. Qed.

(** A negative value whose magnitude fits wraps to its two's complement. *)
Lemma u64_neg x : - 2 ^ 64 <= x < 0 -> u64 x = x + 2 ^ 64.
Proof. word_lia. Qed.

(** Wrapping only lowers a nonnegative value. *)
Lemma u64_le x : 0 <= x -> u64 x <= x.
Proof. intros. apply Z.mod_le; lia. Qed.

(** Addition of a wrapped difference is the wrapped difference. *)
Lemma u64_add_sub_l a b c : u64 (a + u64 (b - c)) = u64 (a + (b - c)).
Proof. unfold u64. apply Zplus_mod_idemp_r. Qed.

Lemma u64_add_l a b : u64 (u64 a + b) = u64 (a + b).
Proof. unfold u64. apply Zplus_mod_idemp_l. Qed.

Lemma u64_add_r a b : u64 (a + u64 b) = u64 (a + b).
Proof. unfold u64. apply Zplus_mod_idemp_r. Qed.

Lemma u64_sub_l a b : u64 (u64 a - b) = u64 (a - b).
Proof. unfold u64. apply Zminus_mod_idemp_l. Qed.

#[export] Hint Resolve u64_range u64_is_u64 u32_range i32_range : kernel.
#[export] Hint Rewrite u64_idemp u64_add_l u64_add_r u64_sub_l : kernel.

(** ** Platform constants

    The x86-64 page geometry, and the error numbers of the Linux ABI. *)
Definition PAGE_SHIFT : Z := 12.
Definition PAGE_SIZE : Z := 4096.
Definition PAGE_MASK : Z := 2 ^ 64 - PAGE_SIZE.

Definition EPERM : Z := 1.
Definition ESRCH : Z := 3.
Definition EINTR : Z := 4.
Definition EBADF : Z := 9.
Definition EAGAIN : Z := 11.
Definition ENOMEM : Z := 12.
Definition EACCES : Z := 13.
Definition EFAULT : Z := 14.
Definition EEXIST : Z := 17.
Definition ENODEV : Z := 19.
Definition EINVAL : Z := 22.
Definition ETXTBSY : Z := 26.
Definition EOVERFLOW : Z := 75.
Definition EOPNOTSUPP : Z := 95.
Definition MAX_ERRNO : Z := 4095.

(** [PAGE_ALIGN(x)]: round up to a page in 64 bits, so that the last page of the
    address space rounds up to [0]. *)
Definition PAGE_ALIGN (x : Z) : Z := Z.land (x +u (PAGE_SIZE - 1)) PAGE_MASK.

(** [offset_in_page(x)], [IS_ERR_VALUE(x)] (an [unsigned long] in the last 4095
    values) and the conversion of an [int] error to [unsigned long]. *)
Definition offset_in_page (x : Z) : Z := Z.land x (PAGE_SIZE - 1).
Definition IS_ERR_VALUE (x : Z) : bool := u64 (- MAX_ERRNO) <=? x.

(** [flag_set w f]: C's [(w & f) != 0]. *)
Definition flag_set (w f : Z) : bool := negb (Z.land w f =? 0).

(** A single bit of a word. *)
Lemma land_bit a n : 0 <= n -> Z.land a (2 ^ n) = if Z.testbit a n then 2 ^ n else 0.
Proof.
  intros Hn. apply Z.bits_inj'. intros j Hj. rewrite Z.land_spec, Z.pow2_bits_eqb by done.
  destruct (Z.eqb_spec n j) as [->|Hne].
  - rewrite andb_true_r. destruct (Z.testbit a j); [by rewrite Z.pow2_bits_true|by rewrite Z.testbit_0_l].
  - rewrite andb_false_r. destruct (Z.testbit a n); [by rewrite Z.pow2_bits_false|by rewrite Z.testbit_0_l].
Qed.

Lemma PAGE_MASK_land x : 0 <= x < 2 ^ 64 -> Z.land x PAGE_MASK = PAGE_SIZE * (x / PAGE_SIZE).
Proof.
  intros Hx. change PAGE_SIZE with (2 ^ 12) at 1 2.
  rewrite Z.mul_comm, <- Z.shiftl_mul_pow2, <- Z.shiftr_div_pow2 by lia.
  rewrite <- Z.ldiff_ones_r by lia.
  apply Z.bits_inj'. intros n Hn. rewrite Z.land_spec, Z.ldiff_spec.
  destruct (Z.ltb_spec n 64) as [Hn64|Hn64].
  - replace (Z.testbit PAGE_MASK n) with (negb (Z.testbit (Z.ones 12) n)); [done|].
    rewrite Z.testbit_ones_nonneg by lia.
    change PAGE_MASK with (Z.shiftl (Z.ones 52) 12).
    rewrite Z.shiftl_spec by lia.
    destruct (Z.ltb_spec n 12) as [Hn12|Hn12].
    + rewrite Z.testbit_neg_r by lia. done.
    + rewrite Z.testbit_ones_nonneg by lia. symmetry. apply Z.ltb_lt. lia.
  - rewrite (Z.bits_above_log2 x n); [done|lia|].
    destruct (Z.eq_dec x 0) as [->|Hx0]; [simpl; lia|].
    apply Z.log2_lt_pow2; [lia|].
    apply Z.lt_le_trans with (2 ^ 64); [lia|]. apply Z.pow_le_mono_r; lia.
Qed.

Lemma PAGE_ALIGN_eq x :
  0 <= x <= 2 ^ 64 - PAGE_SIZE ->
  PAGE_ALIGN x = PAGE_SIZE * ((x + (PAGE_SIZE - 1)) / PAGE_SIZE).
Proof.
  unfold PAGE_ALIGN, PAGE_SIZE. intros Hx.
  rewrite u64_small by lia. apply PAGE_MASK_land. lia.
Qed.

Lemma PAGE_ALIGN_bounds x :
  0 <= x <= 2 ^ 64 - PAGE_SIZE ->
  x <= PAGE_ALIGN x < x + PAGE_SIZE /\ PAGE_ALIGN x mod PAGE_SIZE = 0.
Proof.
  intros Hx. rewrite PAGE_ALIGN_eq by done. unfold PAGE_SIZE in *.
  Z.to_euclidean_division_equations; lia.
Qed.

Lemma PAGE_ALIGN_wraps x :
  2 ^ 64 - PAGE_SIZE < x < 2 ^ 64 -> PAGE_ALIGN x = 0.
Proof.
  intros Hx. unfold PAGE_ALIGN, PAGE_SIZE in *.
  rewrite PAGE_MASK_land by apply u64_range.
  replace (u64 (x + (4096 - 1))) with (x + (4096 - 1) - 2 ^ 64) by word_lia.
  unfold PAGE_SIZE. Z.to_euclidean_division_equations; lia.
Qed.

Lemma PAGE_ALIGN_aligned x : PAGE_ALIGN x mod PAGE_SIZE = 0.
Proof.
  unfold PAGE_ALIGN. rewrite PAGE_MASK_land by apply u64_range.
  rewrite Z.mul_comm. apply Z.mod_mul. done.
Qed.

Lemma PAGE_ALIGN_is_u64 x : is_u64 (PAGE_ALIGN x).
Proof.
  unfold PAGE_ALIGN, is_u64. rewrite PAGE_MASK_land by apply u64_range.
  pose proof (u64_range (x + (PAGE_SIZE - 1))) as Hr.
  revert Hr. generalize (u64 (x + (PAGE_SIZE - 1))). unfold PAGE_SIZE.
  intros y Hy. Z.to_euclidean_division_equations; lia.
Qed.

#[export] Hint Resolve PAGE_ALIGN_aligned PAGE_ALIGN_is_u64 : kernel.

(** ** Error values

    A computation that may leave by an error path: [inl] carries the code. *)
Definition err_bind {E A B} (m : E + A) (f : A -> E + B) : E + B :=
  match m with inl e => inl e | inr a => f a end.

Notation "'let!' x := a 'in' b" := (err_bind a (fun x => b))
  (at level 200, x pattern, a at level 100, b at level 200) : kernel_scope.

(** [check b e]: leave with [e] unless [b]. *)
Definition check (b : bool) (e : Z) : Z + unit := if b then inr tt else inl e.

Lemma err_bind_inr {E A B} (m : E + A) (f : A -> E + B) b :
  err_bind m f = inr b <-> exists a, m = inr a /\ f a = inr b.
Proof. destruct m; cbn; naive_solver. Qed.

Lemma err_bind_inl {E A B} (m : E + A) (f : A -> E + B) e :
  err_bind m f = inl e <-> m = inl e \/ exists a, m = inr a /\ f a = inl e.
Proof. destruct m; cbn; naive_solver. Qed.

Lemma check_inr b e u : check b e = inr u <-> b = true.
Proof. destruct b, u; cbn; naive_solver. Qed.

(** ** User memory

    [copy_to_user]/[put_user] and [copy_from_user]/[get_user] are architecture
    code.  A run of a handler is given the outcome of every access: the number of
    bytes of [n] at address [p] that could not be copied, [0] when the access
    succeeds. *)
Record uaccess := Uaccess {
  copy_to_user : Z -> Z -> Z;     (* address, bytes -> bytes not copied *)
  copy_from_user : Z -> Z -> Z
}.

(** A user space in which every access succeeds, and one in which none does. *)
Definition ua_ok : uaccess := Uaccess (fun _ _ => 0) (fun _ _ => 0).
Definition ua_bad : uaccess := Uaccess (fun _ n => n) (fun _ n => n).
