(* ===== verification/Counting.v ===== *)
(** * Counting the entries of a map

    Reference counts are compared with the number of objects that hold a reference. *)
From S2P Require Import Prelude.

Definition b2z (b : bool) : Z := if b then 1 else 0.
Definition count {V} (P : Z -> V -> bool) (A : gmap Z V) : Z :=
  Z.of_nat (size (filter (fun p => P p.1 p.2 = true) A)).

Lemma count_ext {V} (P Q : Z -> V -> bool) A : (forall i a, A !! i = Some a -> P i a = Q i a) -> count P A = count Q A.
Proof.
  intros Hpq. unfold count. do 2 f_equal. apply map_filter_ext. intros i a Hi. cbn. by rewrite (Hpq i a Hi).
Qed.

Lemma count_insert {V} (P : Z -> V -> bool) A i a : A !! i = None -> count P (<[i := a]> A) = count P A + b2z (P i a).
Proof.
  intros Hi. unfold count, b2z. rewrite map_filter_insert. cbn. destruct (decide (P i a = true)) as [->|Hn].
  - rewrite map_size_insert_None; [lia|]. apply map_lookup_filter_None. by left.
  - destruct (P i a); [done|]. rewrite delete_id by done. lia.
Qed.

(** The count with one entry set apart. *)
Lemma count_delete {V} (P : Z -> V -> bool) A i a : A !! i = Some a -> count P A = count P (delete i A) + b2z (P i a).
Proof. intros Hi. rewrite <- count_insert by apply lookup_delete_eq. by rewrite insert_delete_id. Qed.

Lemma count_change {V} (P Q : Z -> V -> bool) A i a :
  A !! i = Some a -> (forall j b, j <> i -> A !! j = Some b -> P j b = Q j b) ->
  count Q A = count P A + b2z (Q i a) - b2z (P i a).
Proof.
  intros Hi Hpq. rewrite (count_delete P A i a), (count_delete Q A i a) by done.
  rewrite (count_ext P Q (delete i A)); [lia|]. intros j b [Hj Hb]%lookup_delete_Some. by apply Hpq.
Qed.

Lemma count_update {V} (P : Z -> V -> bool) A i a a' : A !! i = Some a -> P i a' = P i a -> count P (<[i := a']> A) = count P A.
Proof.
  intros Hi Heq. rewrite (count_delete P A i a), (count_delete P (<[i := a']> A) i a') by (done || apply lookup_insert_eq).
  by rewrite delete_insert_eq, Heq.
Qed.

Lemma count_empty {V} (P : Z -> V -> bool) : count P ∅ = 0.
Proof. unfold count. by rewrite map_filter_empty, map_size_empty. Qed.

Lemma count_singleton {V} (P : Z -> V -> bool) i a : count P {[i := a]} = b2z (P i a).
Proof. change ({[i := a]} : gmap Z V) with (<[i := a]> (∅ : gmap Z V)). rewrite count_insert, count_empty by done. lia. Qed.

Lemma count_nonneg {V} (P : Z -> V -> bool) A : 0 <= count P A.
Proof. unfold count. lia. Qed.

(** An entry that is counted makes the count positive, and the only one counted leaves none. *)
Lemma count_pos {V} (P : Z -> V -> bool) A i a : A !! i = Some a -> P i a = true -> 0 < count P A.
Proof. intros Hi HP. rewrite (count_delete P A i a Hi), HP. pose proof (count_nonneg P (delete i A)). cbn. lia. Qed.

Lemma count_pos_inv {V} (P : Z -> V -> bool) A : 0 < count P A -> exists i a, A !! i = Some a /\ P i a = true.
Proof.
  unfold count. intros H0. destruct (map_eq_dec_empty (filter (fun ia => P ia.1 ia.2 = true) A)) as [He|Hne].
  { rewrite He, map_size_empty in H0. lia. }
  apply map_choose in Hne as (i & a & Hi). apply map_lookup_filter_Some in Hi as [Hi HP]. by exists i, a.
Qed.

Lemma count_zero {V} (P : Z -> V -> bool) A i a : count P A = 0 -> A !! i = Some a -> P i a = false.
Proof. intros H0 Hi. destruct (P i a) eqn:HP; [|done]. pose proof (count_pos P A i a Hi HP). lia. Qed.

(** One entry replaced by another, or with the property changed at that entry. *)
Lemma count_replace {V} (P Q : Z -> V -> bool) A i a a' :
  A !! i = Some a -> (forall j b, j <> i -> A !! j = Some b -> P j b = Q j b) ->
  count Q (<[i := a']> A) = count P A + b2z (Q i a') - b2z (P i a).
Proof.
  intros Hi Hpq. rewrite (count_delete P A i a Hi), (count_delete Q (<[i := a']> A) i a') by apply lookup_insert_eq.
  rewrite delete_insert_eq, (count_ext P Q (delete i A)); [lia|]. intros j b [Hj Hb]%lookup_delete_Some. by apply Hpq.
Qed.
