(* ===== verification/Gate.v ===== *)
(** * The interface between the memory limiter and the address-space operations

    [mm/mmap.c] calls one function of the limiter, [is_request_accepted], before it
    grows an address space.  [MemGate] states what those callers may rely on; the
    limiter discharges it in [MemLimitSpec], and the unmodified kernel
    ([files/originalmmap.c], which has no such call) is the gate that is always open. *)
From S2P Require Import Prelude.

Class MemGate (G : Type) := {
  (** state, the id the hook passes, pages mapped by the caller, requested bytes *)
  gate_accepts : G -> Z -> Z -> Z -> bool;
  (** the limit in force on a caller with that id *)
  gate_limit : G -> Z -> option Z;
  (** whether the id, looked up again, finds the caller *)
  gate_finds : G -> Z -> bool;
  gate_enforces : forall g pid tv req limit,
    gate_limit g pid = Some limit -> gate_accepts g pid tv req = true ->
    (tv <<u PAGE_SHIFT) +u req <= limit;
  gate_transparent : forall g pid tv req,
    gate_limit g pid = None -> gate_finds g pid = true -> gate_accepts g pid tv req = true
}.

(** The kernel before Proyecto3: nothing is limited. *)
#[export] Instance open_gate : MemGate unit.
Proof.
  refine {| gate_accepts := fun _ _ _ _ => true; gate_limit := fun _ _ => None; gate_finds := fun _ _ => true |}; done.
Defined.

Section usage.
Context {G : Type} `{MemGate G}.

(** Without wrap-around, an accepted request keeps the process within its limit. *)
Lemma gate_within g pid tv req limit :
  gate_limit g pid = Some limit -> gate_accepts g pid tv req = true ->
  0 <= tv -> 0 <= req -> tv * PAGE_SIZE + req < 2 ^ 64 ->
  tv * PAGE_SIZE + req <= limit.
Proof.
  intros Hl Ha Htv Hreq Hb. pose proof (gate_enforces _ _ _ _ _ Hl Ha) as He.
  unfold PAGE_SHIFT, PAGE_SIZE in *. rewrite Z.shiftl_mul_pow2 in He by lia.
  rewrite (u64_small (tv * 2 ^ 12)), u64_small in He by lia. lia.
Qed.
End usage.
