(* ===== verification/MemLimit.v ===== *)
(** * The memory limiter (Proyecto3, kernel/usac/project3/crudmemlimit.c)

    The list of limited processes, the mutex that protects it, the four CRUD system
    calls and the admission test [is_request_accepted] that [brk] and [mmap] call.

    The C file keeps two pieces of global state, the list head [memory_list] and
    [memory_list_mutex], and allocates its nodes on the kernel heap.  The state below
    has all three: the list in list order ([list_add] inserts at the head), whether
    the mutex is held, and the number of live heap blocks the file owns.  A handler is
    a computation in [M]: it yields [None] when it would lock a held mutex or unlock a
    free one.  The heap allocator, the task table, the capability check and user
    memory are kernel code outside the repository: they are the fields of [lim_env]. *)
From S2P Require Import Prelude.

Module MemLimit.

(** ** Data *)

Record memory_limitation := {
  lim_pid : Z;            (* pid_t *)
  lim_memory_limit : Z    (* size_t *)
}.

(** [struct memory_limit_entry]: the payload; the [list_head] is the position in the
    list of the state. *)
Record memory_limit_entry := { data : memory_limitation }.

Record lim_state := LimState {
  memory_list : list memory_limit_entry;
  memory_list_mutex : bool;     (* held? *)
  kmem_live : Z                 (* heap blocks allocated by this file and not freed *)
}.

(** What the limiter reads of another process: its address space, if it has one, and
    the number of pages mapped there. *)
Record mm_view := { total_vm : Z }.
Record task_view := { task_mm : option mm_view }.

Record lim_env := {
  find_task_by_vpid : Z -> option task_view;
  capable_sys_admin : bool;               (* capable(CAP_SYS_ADMIN) *)
  kmalloc_ok : bool;                      (* kmalloc(sizeof(entry)) returns a block *)
  kmalloc_array_ok : Z -> Z -> bool;      (* kmalloc_array(n, size) returns a block *)
  user : uaccess
}.

(** ** The state monad of the file *)

Definition M (A : Type) : Type := lim_state -> option (A * lim_state).
Definition ret {A} (x : A) : M A := fun s => Some (x, s).
Definition bind {A B} (m : M A) (k : A -> M B) : M B := fun s =>
  match m s with
  | Some (x, s') => k x s'
  | None => None
  end.
Notation "x <- m ;; k" := (bind m (fun x => k))
  (at level 100, m at next level, right associativity).
Notation "m ;; k" := (bind m (fun _ => k)) (at level 100, right associativity).

Definition mutex_lock : M unit := fun s =>
  if memory_list_mutex s then None
  else Some (tt, LimState (memory_list s) true (kmem_live s)).
Definition mutex_unlock : M unit := fun s =>
  if memory_list_mutex s then Some (tt, LimState (memory_list s) false (kmem_live s))
  else None.
(** [kmalloc]: the boolean says whether a block was returned. *)
Definition kmalloc (ok : bool) : M bool := fun s =>
  Some (ok, if ok then LimState (memory_list s) (memory_list_mutex s) (kmem_live s + 1)
            else s).
Definition kfree : M unit := fun s =>
  Some (tt, LimState (memory_list s) (memory_list_mutex s) (kmem_live s - 1)).
Definition get_list : M (list memory_limit_entry) := fun s => Some (memory_list s, s).
Definition set_list (l : list memory_limit_entry) : M unit := fun s =>
  Some (tt, LimState l (memory_list_mutex s) (kmem_live s)).
Definition list_add (x : memory_limit_entry) : M unit :=
  l <- get_list ;; set_list (x :: l).

(** ** The admission test *)

Definition has_pid (p : Z) (entry : memory_limit_entry) : bool :=
  lim_pid (data entry) =? p.

(** The loop of [is_request_accepted] over the locked list. *)
Fixpoint accept_scan (pid current_usage requested_memory : Z)
    (l : list memory_limit_entry) : M bool :=
  match l with
  | [] => mutex_unlock ;; ret true
  | entry :: rest =>
    if has_pid pid entry then
      if lim_memory_limit (data entry) <? current_usage +u requested_memory
      then mutex_unlock ;; ret false
      else mutex_unlock ;; ret true
    else accept_scan pid current_usage requested_memory rest
  end.

(** [bool is_request_accepted(pid_t pid, size_t requested_memory)]. *)
Definition is_request_accepted (e : lim_env) (pid requested_memory : Z) : M bool :=
  match find_task_by_vpid e pid with
  | None => ret false
  | Some task =>
    match task_mm task with
    | None => ret false
    | Some mm =>
      let current_usage := total_vm mm <<u PAGE_SHIFT in
      mutex_lock ;;
      l <- get_list ;;
      accept_scan pid current_usage requested_memory l
    end
  end.

(** ** The system calls *)

(** [-101], the code of "process already in the list". *)
Definition EALREADY_LISTED : Z := 101.

(** The search for an existing entry, and what follows when there is none. *)
Fixpoint add_scan (e : lim_env) (process_pid memory_limit : Z)
    (l : list memory_limit_entry) : M Z :=
  match l with
  | existing_entry :: rest =>
    if has_pid process_pid existing_entry
    then mutex_unlock ;; ret (- EALREADY_LISTED)
    else add_scan e process_pid memory_limit rest
  | [] =>
    entry <- kmalloc (kmalloc_ok e) ;;
    if negb entry then mutex_unlock ;; ret (- ENOMEM)
    else
      list_add {| data := {| lim_pid := process_pid;
                             lim_memory_limit := memory_limit |} |} ;;
      mutex_unlock ;;
      ret 0
  end.

(** [julioz_add_memory_limit(pid_t process_pid, size_t memory_limit)]: the arguments
    [a0], [a1] are the register values, converted to the declared types. *)
Definition julioz_add_memory_limit (e : lim_env) (a0 a1 : Z) : M Z :=
  let process_pid := i32 a0 in
  let memory_limit := u64 a1 in
  if (process_pid <? 0) || (memory_limit <? 0) then ret (- EINVAL) else
  if negb (capable_sys_admin e) then ret (- EPERM) else
  match find_task_by_vpid e process_pid with
  | None => ret (- ESRCH)
  | Some _ =>
    mutex_lock ;;
    l <- get_list ;;
    add_scan e process_pid memory_limit l
  end.

Fixpoint update_scan (process_pid memory_limit : Z)
    (before l : list memory_limit_entry) : M Z :=
  match l with
  | entry :: rest =>
    if has_pid process_pid entry then
      set_list (before ++
        {| data := {| lim_pid := lim_pid (data entry);
                      lim_memory_limit := memory_limit |} |} :: rest) ;;
      mutex_unlock ;;
      ret 0
    else update_scan process_pid memory_limit (before ++ [entry]) rest
  | [] => mutex_unlock ;; ret (- ESRCH)
  end.

(** [julioz_update_memory_limit(pid_t process_pid, size_t memory_limit)]: the first
    entry of the process is overwritten in place. *)
Definition julioz_update_memory_limit (e : lim_env) (a0 a1 : Z) : M Z :=
  let process_pid := i32 a0 in
  let memory_limit := u64 a1 in
  if (process_pid <? 0) || (memory_limit <? 0) then ret (- EINVAL) else
  if negb (capable_sys_admin e) then ret (- EPERM) else
  mutex_lock ;;
  l <- get_list ;;
  update_scan process_pid memory_limit [] l.

Fixpoint remove_scan (process_pid : Z) (before l : list memory_limit_entry) : M Z :=
  match l with
  | entry :: rest =>
    if has_pid process_pid entry then
      set_list (before ++ rest) ;;
      kfree ;;
      mutex_unlock ;;
      ret 0
    else remove_scan process_pid (before ++ [entry]) rest
  | [] => mutex_unlock ;; ret (- ESRCH)
  end.

(** [julioz_remove_memory_limit(pid_t process_pid)]: the first entry of the process is
    unlinked and freed. *)
Definition julioz_remove_memory_limit (e : lim_env) (a0 : Z) : M Z :=
  let process_pid := i32 a0 in
  if process_pid <? 0 then ret (- EINVAL) else
  if negb (capable_sys_admin e) then ret (- EPERM) else
  mutex_lock ;;
  l <- get_list ;;
  remove_scan process_pid [] l.

(** The kernel buffer [k_processes_buffer] and [count] after the copying loop of
    [julioz_get_memory_limits]. *)
Fixpoint fill_buffer (max_entries count : Z) (buf : list memory_limitation)
    (l : list memory_limit_entry) : Z * list memory_limitation :=
  match l with
  | [] => (count, buf)
  | entry :: rest =>
    if max_entries <=? u64 count then (count, buf)
    else fill_buffer max_entries (i32 (count + 1)) (buf ++ [data entry]) rest
  end.

(** [sizeof(struct memory_limitation)]: a [pid_t], padding and a [size_t]. *)
Definition sizeof_memory_limitation : Z := 16.

(** What the call returns and what it wrote to the two user pointers. *)
Record get_result := GetResult {
  g_ret : Z;
  g_buffer : option (list memory_limitation);    (* at u_processes_buffer *)
  g_returned : option Z                          (* at processes_returned *)
}.

(** [julioz_get_memory_limits(buffer, max_entries, processes_returned)]. *)
Definition julioz_get_memory_limits (e : lim_env) (u_processes_buffer a1 processes_returned : Z)
    : M get_result :=
  let max_entries := u64 a1 in
  k_processes_buffer <- kmalloc (kmalloc_array_ok e max_entries sizeof_memory_limitation) ;;
  if negb k_processes_buffer then ret (GetResult (- ENOMEM) None None) else
  mutex_lock ;;
  l <- get_list ;;
  let '(count, buf) := fill_buffer max_entries 0 [] l in
  mutex_unlock ;;
  if negb (copy_to_user (user e) u_processes_buffer (count *u sizeof_memory_limitation) =? 0)
  then kfree ;; ret (GetResult (- EFAULT) None None)
  else if negb (copy_to_user (user e) processes_returned 4 =? 0)
  then kfree ;; ret (GetResult (- EFAULT) (Some buf) None)
  else kfree ;; ret (GetResult 0 (Some buf) (Some count)).

End MemLimit.
