(* ===== verification/MemLimitSpec.v ===== *)
(** * What the memory limiter promises

    The list with its mutex and heap blocks implements a finite map from process ids
    to limits: the CRUD calls refine map operations, every path releases the mutex and
    no path leaks or double-frees a node, reading returns the map, and the admission
    test is the comparison of the mapped limit with the process's usage.  The last
    section packages the admission test as the interface [MemGate] that the
    address-space operations are proved against. *)
From S2P Require Import Prelude Gate MemLimit.
Import MemLimit.

Module LimitSpec.

(** ** Abstract state and operations *)

(** The map the list stands for: the first entry of a process counts. *)
Definition limits (l : list memory_limit_entry) : gmap Z Z :=
  list_to_map ((fun en => (lim_pid (data en), lim_memory_limit (data en))) <$> l).

#[global] Arguments limits : simpl never.

Definition pids (l : list memory_limit_entry) : list Z := (fun en => lim_pid (data en)) <$> l.

(** The four calls: create, read, update, delete. *)
Inductive crud :=
  | Add (pid limit : Z)
  | Get (ubuf max_entries uret : Z)
  | Update (pid limit : Z)
  | Remove (pid : Z).

Inductive reply := Code (r : Z) | Read (res : get_result).

Definition run_crud (e : lim_env) (op : crud) : M reply :=
  match op with
  | Add p m => r <- julioz_add_memory_limit e p m ;; ret (Code r)
  | Get ubuf n uret => r <- julioz_get_memory_limits e ubuf n uret ;; ret (Read r)
  | Update p m => r <- julioz_update_memory_limit e p m ;; ret (Code r)
  | Remove p => r <- julioz_remove_memory_limit e p ;; ret (Code r)
  end.

(** The guards of the calls that change the list. *)
Definition guarded (e : lim_env) (p : Z) (m : gmap Z Z) (k : Z * gmap Z Z) : Z * gmap Z Z :=
  if p <? 0 then (- EINVAL, m) else if negb (capable_sys_admin e) then (- EPERM, m) else k.

(** The pairs a list of records stands for. *)
Definition entries_of (l : list memory_limitation) : list (Z * Z) := (fun d => (lim_pid d, lim_memory_limit d)) <$> l.

(** What reading may answer: nothing without memory or with a bad buffer, otherwise the first
    records of some enumeration of the map, as many as fit, and their number where that can
    be written. *)
Definition get_answer (e : lim_env) (ubuf n uret : Z) (m : gmap Z Z) (res : get_result) : Prop :=
  let k := Z.min (u64 n) (Z.of_nat (size m)) in
  if negb (kmalloc_array_ok e (u64 n) sizeof_memory_limitation) then res = GetResult (- ENOMEM) None None
  else if negb (copy_to_user (user e) ubuf (k *u sizeof_memory_limitation) =? 0) then res = GetResult (- EFAULT) None None
  else exists l, NoDup (lim_pid <$> l) /\ list_to_map (entries_of l) = m /\
    res = if copy_to_user (user e) uret 4 =? 0
          then GetResult 0 (Some (take (Z.to_nat k) l)) (Some k)
          else GetResult (- EFAULT) (Some (take (Z.to_nat k) l)) None.

(** The same operations on a finite map.  A limit is stored as the [size_t] it is passed as. *)
Definition map_crud (e : lim_env) (op : crud) (m : gmap Z Z) (a : reply) (m' : gmap Z Z) : Prop :=
  match op with
  | Get ubuf n uret => m' = m /\ exists res, a = Read res /\ get_answer e ubuf n uret m res
  | Add p limit => exists r, a = Code r /\ (r, m') = guarded e (i32 p) m
      match find_task_by_vpid e (i32 p), m !! i32 p with
      | None, _ => (- ESRCH, m)
      | Some _, Some _ => (- EALREADY_LISTED, m)
      | Some _, None => if kmalloc_ok e then (0, <[i32 p := u64 limit]> m) else (- ENOMEM, m)
      end
  | Update p limit => exists r, a = Code r /\ (r, m') = guarded e (i32 p) m
      match m !! i32 p with Some _ => (0, <[i32 p := u64 limit]> m) | None => (- ESRCH, m) end
  | Remove p => exists r, a = Code r /\ (r, m') = guarded e (i32 p) m
      match m !! i32 p with Some _ => (0, delete (i32 p) m) | None => (- ESRCH, m) end
  end.

(** The state invariant: the mutex is free between calls, no process is listed twice,
    ids are nonnegative, limits are [size_t] values and the heap holds exactly the
    nodes of the list. *)
Record lim_wf (s : lim_state) : Prop := {
  wf_unlocked : memory_list_mutex s = false;
  wf_nodup : NoDup (pids (memory_list s));
  wf_range : Forall (fun en => 0 <= lim_pid (data en) /\ is_u64 (lim_memory_limit (data en)))
               (memory_list s);
  wf_heap : kmem_live s = Z.of_nat (length (memory_list s))
}.

Definition lim_init : lim_state := LimState [] false 0.

Lemma lim_init_wf : lim_wf lim_init.
Proof. split; simpl; auto; constructor. Qed.

(** ** The map of a list *)

Lemma limits_cons en l :
  limits (en :: l) = <[lim_pid (data en) := lim_memory_limit (data en)]> (limits l).
Proof. done. Qed.

Lemma limits_none l p : limits l !! p = None <-> p ∉ pids l.
Proof.
  unfold limits, pids. rewrite <- not_elem_of_list_to_map, <- list_fmap_compose. done.
Qed.

Lemma limits_app_ne l1 l2 p :
  p ∉ pids l1 -> limits (l1 ++ l2) !! p = limits l2 !! p.
Proof.
  induction l1 as [|en l1 IH]; simpl; [done|].
  rewrite not_elem_of_cons. intros [Hne Hin].
  rewrite limits_cons, lookup_insert_ne by done. auto.
Qed.

Lemma limits_insert_middle l1 l2 p v :
  p ∉ pids l1 ->
  limits (l1 ++ {| data := {| lim_pid := p; lim_memory_limit := v |} |} :: l2) =
  <[p := v]> (limits (l1 ++ l2)).
Proof.
  induction l1 as [|en l1 IH]; simpl; [done|].
  rewrite not_elem_of_cons. intros [Hne Hin].
  rewrite !limits_cons, IH by done. by rewrite insert_insert_ne by done.
Qed.

Lemma has_pid_true p en : has_pid p en = true <-> lim_pid (data en) = p.
Proof. apply Z.eqb_eq. Qed.

Lemma has_pid_false p en : has_pid p en = false <-> lim_pid (data en) <> p.
Proof. apply Z.eqb_neq. Qed.

(** A list with an entry of [p] splits at the first one. *)
Lemma split_at_pid p l :
  p ∈ pids l -> exists l1 v l2,
    l = l1 ++ {| data := {| lim_pid := p; lim_memory_limit := v |} |} :: l2 /\ p ∉ pids l1.
Proof.
  induction l as [|en l IH]; intros Hin; [by apply elem_of_nil in Hin|].
  destruct (decide (lim_pid (data en) = p)) as [Heq|Hne].
  - exists [], (lim_memory_limit (data en)), l. split; [|apply not_elem_of_nil].
    destruct en as [[??]]; simpl in *; subst; done.
  - destruct IH as (l1 & v & l2 & -> & Hnin).
    { apply elem_of_cons in Hin as [Hin|Hin]; [by subst|done]. }
    exists (en :: l1), v, l2. split; [done|]. apply not_elem_of_cons. done.
Qed.

Lemma pids_app l1 l2 : pids (l1 ++ l2) = pids l1 ++ pids l2.
Proof. apply fmap_app. Qed.

(** ** The loops *)

Section loops.
Context (e : lim_env) (p m : Z) (s : lim_state).
Hypothesis (Hlock : memory_list_mutex s = true).

Lemma unlock_run {A} (x : A) s0 :
  memory_list_mutex s0 = true ->
  (mutex_unlock ;; ret x) s0 = Some (x, LimState (memory_list s0) false (kmem_live s0)).
Proof. intros H. unfold bind, mutex_unlock, ret. by rewrite H. Qed.

Lemma add_scan_found l :
  p ∈ pids l ->
  add_scan e p m l s = Some (- EALREADY_LISTED, LimState (memory_list s) false (kmem_live s)).
Proof.
  induction l as [|en l IH]; intros Hin; [by apply elem_of_nil in Hin|]. simpl.
  destruct (has_pid p en) eqn:Hp; [by apply unlock_run|].
  apply has_pid_false in Hp. apply elem_of_cons in Hin as [Hin|Hin]; [congruence|auto].
Qed.

Lemma add_scan_fresh l :
  p ∉ pids l ->
  add_scan e p m l s =
    if kmalloc_ok e
    then Some (0, LimState ({| data := {| lim_pid := p; lim_memory_limit := m |} |}
                              :: memory_list s) false (kmem_live s + 1))
    else Some (- ENOMEM, LimState (memory_list s) false (kmem_live s)).
Proof.
  induction l as [|en l IH]; intros Hin; simpl.
  - unfold bind, kmalloc, list_add, get_list, set_list, mutex_unlock, ret.
    destruct (kmalloc_ok e); simpl; by rewrite Hlock.
  - apply not_elem_of_cons in Hin as [Hne Hin].
    destruct (has_pid p en) eqn:Hp; [apply has_pid_true in Hp; congruence|auto].
Qed.

Lemma update_scan_found b l1 v l2 :
  p ∉ pids l1 ->
  update_scan p m b (l1 ++ {| data := {| lim_pid := p; lim_memory_limit := v |} |} :: l2) s =
    Some (0, LimState ((b ++ l1) ++
      {| data := {| lim_pid := p; lim_memory_limit := m |} |} :: l2) false (kmem_live s)).
Proof.
  revert b. induction l1 as [|en l1 IH]; intros b Hin; simpl.
  - unfold has_pid, bind, set_list, mutex_unlock, ret. simpl.
    rewrite Z.eqb_refl, Hlock, app_nil_r. done.
  - apply not_elem_of_cons in Hin as [Hne Hin].
    rewrite (proj2 (has_pid_false p en)) by done.
    rewrite IH by done. by rewrite <- !app_assoc.
Qed.

Lemma update_scan_missing b l :
  p ∉ pids l ->
  update_scan p m b l s = Some (- ESRCH, LimState (memory_list s) false (kmem_live s)).
Proof.
  revert b. induction l as [|en l IH]; intros b Hin; [by apply unlock_run|]. simpl.
  apply not_elem_of_cons in Hin as [Hne Hin].
  rewrite (proj2 (has_pid_false p en)) by done. auto.
Qed.

Lemma remove_scan_found b l1 v l2 :
  p ∉ pids l1 ->
  remove_scan p b (l1 ++ {| data := {| lim_pid := p; lim_memory_limit := v |} |} :: l2) s =
    Some (0, LimState ((b ++ l1) ++ l2) false (kmem_live s - 1)).
Proof.
  revert b. induction l1 as [|en l1 IH]; intros b Hin; simpl.
  - unfold has_pid, bind, set_list, kfree, mutex_unlock, ret. simpl.
    rewrite Z.eqb_refl, Hlock, app_nil_r. done.
  - apply not_elem_of_cons in Hin as [Hne Hin].
    rewrite (proj2 (has_pid_false p en)) by done.
    rewrite IH by done. by rewrite <- !app_assoc.
Qed.

Lemma remove_scan_missing b l :
  p ∉ pids l ->
  remove_scan p b l s = Some (- ESRCH, LimState (memory_list s) false (kmem_live s)).
Proof.
  revert b. induction l as [|en l IH]; intros b Hin; [by apply unlock_run|]. simpl.
  apply not_elem_of_cons in Hin as [Hne Hin].
  rewrite (proj2 (has_pid_false p en)) by done. auto.
Qed.

(** The admission loop compares with the mapped limit. *)
Lemma accept_scan_spec usage req l :
  accept_scan p usage req l s =
    Some (match limits l !! p with
          | Some limit => negb (limit <? usage +u req)
          | None => true
          end, LimState (memory_list s) false (kmem_live s)).
Proof.
  induction l as [|en l IH]; simpl.
  - by rewrite unlock_run.
  - rewrite limits_cons. destruct (has_pid p en) eqn:Hp.
    + apply has_pid_true in Hp as <-. rewrite lookup_insert_eq.
      destruct (_ <? _); by rewrite unlock_run.
    + apply has_pid_false in Hp. by rewrite lookup_insert_ne.
Qed.
End loops.

(** ** The invariant under the three list updates *)

Lemma wf_locked_cons s en :
  lim_wf s -> lim_pid (data en) ∉ pids (memory_list s) ->
  0 <= lim_pid (data en) -> is_u64 (lim_memory_limit (data en)) ->
  lim_wf (LimState (en :: memory_list s) false (kmem_live s + 1)).
Proof.
  intros [Hm Hn Hr Hh] Hnin Hp Hv. split; simpl; [done| | |lia].
  - apply NoDup_cons. done.
  - constructor; done.
Qed.

Lemma wf_replace s l1 p v v' l2 :
  lim_wf s -> is_u64 v' ->
  memory_list s = l1 ++ {| data := {| lim_pid := p; lim_memory_limit := v |} |} :: l2 ->
  lim_wf (LimState (l1 ++ {| data := {| lim_pid := p; lim_memory_limit := v' |} |} :: l2)
            false (kmem_live s)).
Proof.
  intros [Hm Hn Hr Hh] Hv' Hl. rewrite Hl in *. split; simpl; [done| | |].
  - rewrite pids_app in *. done.
  - rewrite Forall_app, Forall_cons in *. naive_solver.
  - rewrite Hh, !length_app. done.
Qed.

Lemma wf_remove s l1 p v l2 :
  lim_wf s ->
  memory_list s = l1 ++ {| data := {| lim_pid := p; lim_memory_limit := v |} |} :: l2 ->
  lim_wf (LimState (l1 ++ l2) false (kmem_live s - 1)) /\
  limits (l1 ++ l2) = delete p (limits (memory_list s)).
Proof.
  intros [Hm Hn Hr Hh] Hl. rewrite Hl in *.
  assert (Hp : (p ∉ pids l1) /\ (p ∉ pids l2) /\ NoDup (pids (l1 ++ l2))).
  { rewrite pids_app in *. simpl in Hn. rewrite NoDup_app, NoDup_cons in *.
    setoid_rewrite not_elem_of_cons in Hn. naive_solver. }
  destruct Hp as (Hp1 & Hp2 & Hn').
  split; [split; simpl; [done|done| |]|].
  - rewrite Forall_app, Forall_cons in *. naive_solver.
  - rewrite length_app in *. simpl in Hh. lia.
  - rewrite limits_insert_middle, delete_insert_id by
      (first [done | apply limits_none; rewrite pids_app, not_elem_of_app; done]). done.
Qed.

(** ** Refinement *)

(** The state inside the critical section. *)
Definition locked (s : lim_state) : lim_state := LimState (memory_list s) true (kmem_live s).

Lemma critical_run {A} (k : list memory_limit_entry -> M A) s :
  lim_wf s -> (bind mutex_lock (fun _ => bind get_list k)) s = k (memory_list s) (locked s).
Proof. intros [Hm _ _ _]. unfold bind, mutex_lock, get_list. by rewrite Hm. Qed.

Lemma unlock_locked s :
  lim_wf s -> LimState (memory_list (locked s)) false (kmem_live (locked s)) = s.
Proof. intros [Hm _ _ _]. destruct s; simpl in *. by rewrite Hm. Qed.

(** The guards that the three calls share, in the order the code tests them. *)
Ltac guards p v :=
  try (replace (u64 v <? 0) with false
         by (symmetry; apply Z.ltb_ge, (proj1 (u64_range v))); rewrite orb_false_r);
  unfold guarded; destruct (i32 p <? 0) eqn:Hp; [eexists _, _; by split_and!|];
  destruct (capable_sys_admin _); simpl; [|eexists _, _; by split_and!];
  apply Z.ltb_ge in Hp.

(** ** Reading the list *)

Lemma fill_buffer_spec n count buf l :
  0 <= n -> 0 <= count -> count + Z.of_nat (length l) < 2 ^ 31 ->
  fill_buffer n count buf l =
    (count + Z.min (Z.max 0 (n - count)) (Z.of_nat (length l)),
     buf ++ take (Z.to_nat (n - count)) (data <$> l)).
Proof.
  revert count buf. induction l as [|en l IH]; intros count buf Hn Hc Hlen; simpl.
  - rewrite take_nil, app_nil_r. f_equal. lia.
  - simpl in Hlen. rewrite u64_small by lia.
    destruct (n <=? count) eqn:Hle.
    + apply Z.leb_le in Hle. replace (Z.to_nat (n - count)) with 0%nat by lia.
      rewrite app_nil_r. f_equal. lia.
    + apply Z.leb_gt in Hle. rewrite i32_small by (unfold is_i32; lia).
      rewrite IH by lia. f_equal; [lia|].
      replace (Z.to_nat (n - count)) with (S (Z.to_nat (n - (count + 1)))) by lia.
      by rewrite <- app_assoc.
Qed.

Lemma limits_data l1 l2 : data <$> l1 = data <$> l2 -> limits l1 = limits l2.
Proof.
  intros H. unfold limits. f_equal.
  change (fun en => (lim_pid (data en), lim_memory_limit (data en)))
    with ((fun d => (lim_pid d, lim_memory_limit d)) ∘ data).
  by rewrite !list_fmap_compose, H.
Qed.

(** Reading answers from the map. *)
Lemma get_run e ubuf a1 uret s :
  lim_wf s -> Z.of_nat (length (memory_list s)) < 2 ^ 31 ->
  exists res, julioz_get_memory_limits e ubuf a1 uret s = Some (res, s) /\
    get_answer e ubuf a1 uret (limits (memory_list s)) res.
Proof.
  intros [Hm Hnd _ _] Hlen. destruct s as [l lk h]; simpl in *; subst lk.
  assert (Hsz : size (limits l) = length l).
  { unfold limits. rewrite map_size_list_to_map; [apply length_fmap|]. by rewrite <- list_fmap_compose. }
  pose proof (u64_range a1). unfold julioz_get_memory_limits, get_answer. rewrite Hsz.
  unfold bind, kmalloc. destruct (kmalloc_array_ok e (u64 a1) _); simpl; [|by eauto].
  rewrite fill_buffer_spec by lia. simpl. rewrite Z.sub_0_r, Z.max_r by lia.
  destruct (copy_to_user (user e) ubuf _ =? 0) eqn:Hc1; simpl;
    [destruct (copy_to_user (user e) uret 4 =? 0) eqn:Hc2; simpl|];
    (eexists; split; [unfold ret; repeat f_equal; lia|]); [..|done]; exists (data <$> l).
  all: split; [by rewrite <- list_fmap_compose|]; split; [unfold entries_of, limits; by rewrite <- list_fmap_compose|].
  all: rewrite Z2Nat.inj_min, Nat2Z.id, <- take_take; repeat f_equal; rewrite take_ge; [done|by rewrite length_fmap].
Qed.

(** [julioz_get_memory_limits] never changes the limits, releases the mutex and
    frees its kernel buffer on every path; when the buffer can be allocated and both
    user pointers can be written it returns 0 with the [min max_entries (length list)]
    most recently added entries and their number. *)
Theorem get_memory_limits_spec e ubuf a1 uret s :
  lim_wf s -> Z.of_nat (length (memory_list s)) < 2 ^ 31 ->
  exists res, julioz_get_memory_limits e ubuf a1 uret s = Some (res, s) /\
    (kmalloc_array_ok e (u64 a1) 16 = false -> res = GetResult (- ENOMEM) None None) /\
    (kmalloc_array_ok e (u64 a1) 16 = true ->
     (forall n, copy_to_user (user e) ubuf n = 0) ->
     copy_to_user (user e) uret 4 = 0 ->
     res = GetResult 0 (Some (take (Z.to_nat (u64 a1)) (data <$> memory_list s)))
             (Some (Z.min (u64 a1) (Z.of_nat (length (memory_list s)))))) /\
    (g_ret res = 0 \/ g_ret res = - EFAULT \/ g_ret res = - ENOMEM).
Proof.
  intros [Hm _ _ _] Hlen. destruct s as [l lk h]; simpl in *; subst lk.
  pose proof (u64_range a1). unfold julioz_get_memory_limits, sizeof_memory_limitation.
  unfold bind, kmalloc. destruct (kmalloc_array_ok e (u64 a1) 16); simpl;
    [|eexists; split; [done|]; naive_solver].
  rewrite fill_buffer_spec by lia. simpl.
  rewrite Z.sub_0_r, Z.max_r by lia.
  destruct (copy_to_user (user e) ubuf _ =? 0) eqn:Hc1; simpl;
    [destruct (copy_to_user (user e) uret 4 =? 0) eqn:Hc2; simpl|];
    eexists; (split; [unfold ret; repeat f_equal; lia|]);
    (split; [done|]); (split; [|naive_solver]).
  - done.
  - intros _ _ H4. rewrite H4 in Hc2. done.
  - intros _ Hz. rewrite Hz in Hc1. done.
Qed.

(** ** Refinement *)

(** The ids of listed processes: no process has the id 0. *)
Definition ids_positive (s : lim_state) : Prop := Forall (fun p => 0 < p < 2 ^ 31) (pids (memory_list s)).

(** So an [int] can count them. *)
Lemma listed_count s : lim_wf s -> ids_positive s -> Z.of_nat (length (memory_list s)) < 2 ^ 31.
Proof.
  intros Hwf Hp. pose proof (wf_nodup s Hwf) as Hnd. unfold ids_positive in Hp.
  assert (pids (memory_list s) ⊆+ seqZ 1 (2 ^ 31 - 1)) as Hsub.
  { apply NoDup_submseteq; [done|]. intros p Hin. rewrite Forall_forall in Hp. specialize (Hp p Hin). apply elem_of_seqZ. lia. }
  apply submseteq_length in Hsub. unfold pids in Hsub. rewrite length_fmap, length_seqZ in Hsub. lia.
Qed.

Section refine.
Context (e : lim_env) (s : lim_state) (Hwf : lim_wf s) (Hids : ids_positive s) (H0 : find_task_by_vpid e 0 = None).

Definition simulates (op : crud) : Prop := exists a s',
  run_crud e op s = Some (a, s') /\ lim_wf s' /\ ids_positive s' /\
  map_crud e op (limits (memory_list s)) a (limits (memory_list s')).

(** A call that returns a code. *)
Lemma code_run (f : M Z) r s' : f s = Some (r, s') -> (x <- f ;; ret (Code x)) s = Some (Code r, s').
Proof using. intros Hf. unfold bind, ret. by rewrite Hf. Qed.

Lemma add_refines p v : simulates (Add p v).
Proof using Hwf Hids H0.
  unfold simulates. cbn [run_crud map_crud].
  cut (exists r s', julioz_add_memory_limit e p v s = Some (r, s') /\ lim_wf s' /\ ids_positive s' /\
    (r, limits (memory_list s')) = guarded e (i32 p) (limits (memory_list s))
      match find_task_by_vpid e (i32 p), limits (memory_list s) !! i32 p with
      | None, _ => (- ESRCH, limits (memory_list s))
      | Some _, Some _ => (- EALREADY_LISTED, limits (memory_list s))
      | Some _, None => if kmalloc_ok e then (0, <[i32 p := u64 v]> (limits (memory_list s))) else (- ENOMEM, limits (memory_list s))
      end).
  { intros (r & s' & Hr & Hw & Hi & Hm). exists (Code r), s'. split_and!; [by apply code_run|done|done|]. eauto. }
  unfold julioz_add_memory_limit. guards p v.
  destruct (find_task_by_vpid e (i32 p)) eqn:Ht; [|by eauto 10].
  rewrite critical_run by done.
  destruct (limits (memory_list s) !! i32 p) eqn:Hl.
  - assert (Hin : i32 p ∈ pids (memory_list s)).
    { destruct (decide (i32 p ∈ pids (memory_list s))) as [|Hn]; [done|].
      apply limits_none in Hn. congruence. }
    rewrite add_scan_found, unlock_locked by done. eauto 10.
  - apply limits_none in Hl. rewrite add_scan_fresh by done.
    destruct (kmalloc_ok e); [|rewrite unlock_locked by done; eauto 10].
    eexists _, _. split; [done|]. split_and!; [apply (wf_locked_cons s); simpl; auto with kernel| |done].
    constructor; [|done]. cbn. pose proof (i32_range p) as Hr. unfold is_i32 in Hr. assert (i32 p <> 0) by congruence. lia.
Qed.

Lemma update_refines p v : simulates (Update p v).
Proof using Hwf Hids.
  unfold simulates. cbn [run_crud map_crud].
  cut (exists r s', julioz_update_memory_limit e p v s = Some (r, s') /\ lim_wf s' /\ ids_positive s' /\
    (r, limits (memory_list s')) = guarded e (i32 p) (limits (memory_list s))
      match limits (memory_list s) !! i32 p with
      | Some _ => (0, <[i32 p := u64 v]> (limits (memory_list s))) | None => (- ESRCH, limits (memory_list s)) end).
  { intros (r & s' & Hr & Hw & Hi & Hm). exists (Code r), s'. split_and!; [by apply code_run|done|done|]. eauto. }
  unfold julioz_update_memory_limit. guards p v. rewrite critical_run by done.
  destruct (decide (i32 p ∈ pids (memory_list s))) as [Hin|Hn].
  - destruct (split_at_pid _ _ Hin) as (l1 & w & l2 & Heq & Hnin). unfold ids_positive in Hids.
    rewrite Heq in Hids |- *. rewrite update_scan_found by done. eexists _, _. split; [done|].
    split_and!; [apply (wf_replace s _ _ w); auto with kernel| |].
    + unfold ids_positive in *. cbn. rewrite pids_app in Hids |- *. done.
    + simpl. rewrite !limits_insert_middle by done. rewrite lookup_insert_eq. by rewrite insert_insert_eq.
  - rewrite update_scan_missing, unlock_locked by done.
    apply limits_none in Hn. rewrite Hn. eauto 10.
Qed.

Lemma remove_refines p : simulates (Remove p).
Proof using Hwf Hids.
  unfold simulates. cbn [run_crud map_crud].
  cut (exists r s', julioz_remove_memory_limit e p s = Some (r, s') /\ lim_wf s' /\ ids_positive s' /\
    (r, limits (memory_list s')) = guarded e (i32 p) (limits (memory_list s))
      match limits (memory_list s) !! i32 p with
      | Some _ => (0, delete (i32 p) (limits (memory_list s))) | None => (- ESRCH, limits (memory_list s)) end).
  { intros (r & s' & Hr & Hw & Hi & Hm). exists (Code r), s'. split_and!; [by apply code_run|done|done|]. eauto. }
  unfold julioz_remove_memory_limit. guards p p. rewrite critical_run by done.
  destruct (decide (i32 p ∈ pids (memory_list s))) as [Hin|Hn].
  - destruct (split_at_pid _ _ Hin) as (l1 & w & l2 & Heq & Hnin).
    destruct (wf_remove _ _ _ _ _ Hwf Heq) as [Hwf' Hdel]. unfold ids_positive in Hids.
    rewrite Heq in Hdel, Hids |- *. rewrite remove_scan_found by done.
    eexists _, _. split; [done|]. split_and!; [done| |].
    + unfold ids_positive. cbn. rewrite pids_app in Hids |- *. apply Forall_app in Hids as [? [_ ?]%Forall_cons]. by apply Forall_app.
    + simpl. rewrite Hdel. by rewrite limits_insert_middle, lookup_insert_eq.
  - rewrite remove_scan_missing, unlock_locked by done.
    apply limits_none in Hn. rewrite Hn. eauto 10.
Qed.

Lemma get_refines ubuf n uret : simulates (Get ubuf n uret).
Proof using Hwf Hids.
  destruct (get_run e ubuf n uret s Hwf (listed_count s Hwf Hids)) as (res & Hr & Ha).
  exists (Read res), s. cbn [run_crud map_crud]. split_and!; [by unfold bind, ret; rewrite Hr|done|done|done|]. eauto.
Qed.

Lemma crud_simulates op : simulates op.
Proof using Hwf Hids H0. destruct op; auto using add_refines, get_refines, update_refines, remove_refines. Qed.
End refine.

(** A whole history of calls, each with its own environment (the caller's privileges,
    the process table, the allocator and user memory may change between calls). *)
Fixpoint run_history (h : list (lim_env * crud)) (s : lim_state) : option (list reply * lim_state) :=
  match h with
  | [] => Some ([], s)
  | (e, op) :: h =>
    match run_crud e op s with
    | None => None
    | Some (r, s') =>
      match run_history h s' with
      | None => None
      | Some (rs, s'') => Some (r :: rs, s'')
      end
    end
  end.

Inductive map_history : list (lim_env * crud) -> gmap Z Z -> list reply -> gmap Z Z -> Prop :=
  | mh_nil m : map_history [] m [] m
  | mh_cons e op h m a m' rs m'' :
      map_crud e op m a m' -> map_history h m' rs m'' -> map_history ((e, op) :: h) m (a :: rs) m''.

Lemma history_refines h s :
  lim_wf s -> ids_positive s -> Forall (fun x => find_task_by_vpid x.1 0 = None) h ->
  exists rs s', run_history h s = Some (rs, s') /\ lim_wf s' /\
    map_history h (limits (memory_list s)) rs (limits (memory_list s')).
Proof.
  revert s. induction h as [|[e op] h IH]; intros s Hwf Hids Hh; simpl; [eauto using mh_nil|].
  apply Forall_cons in Hh as [H0 Hh].
  destruct (crud_simulates e s Hwf Hids H0 op) as (r & s' & Hrun & Hwf' & Hids' & Hmap).
  destruct (IH s' Hwf' Hids' Hh) as (rs & s'' & Hrun' & Hwf'' & Hmap').
  rewrite Hrun, Hrun'. eexists _, _. split_and!; [done|done|]. by eapply mh_cons.
Qed.

(** C12.  From the empty list, any history of the four calls, reading included, runs to the end
    and answers as the same history on a finite map from process ids to limits does: the
    codes, and for a read the records of the map, as many as fit, with their number.  It ends
    with the mutex free, no process listed twice, and one heap block per entry.  (No process
    has the id 0; a limit is the [size_t] that was passed, so that a negative one is stored as
    a huge one.) *)
Theorem history_refines_map h :
  Forall (fun x => find_task_by_vpid x.1 0 = None) h ->
  exists rs s, run_history h lim_init = Some (rs, s) /\ lim_wf s /\
    map_history h ∅ rs (limits (memory_list s)).
Proof. apply (history_refines h lim_init lim_init_wf). constructor. Qed.

(** ** Admission *)

(** The decision of the admission test. *)
Definition decision (e : lim_env) (pid req : Z) (m : gmap Z Z) : bool :=
  match find_task_by_vpid e pid with
  | None => false
  | Some t =>
    match task_mm t with
    | None => false
    | Some mm =>
      match m !! pid with
      | None => true
      | Some limit => (total_vm mm <<u PAGE_SHIFT) +u req <=? limit
      end
    end
  end.

Lemma accepts_run e pid req s :
  lim_wf s ->
  is_request_accepted e pid req s = Some (decision e pid req (limits (memory_list s)), s).
Proof.
  intros Hwf. unfold is_request_accepted, decision.
  destruct (find_task_by_vpid e pid) as [[[mm|]]|]; try done. cbn [task_mm].
  rewrite critical_run, accept_scan_spec, unlock_locked by done.
  destruct (limits _ !! pid); [|done]. by rewrite Z.ltb_antisym, negb_involutive.
Qed.

(** C13.  [is_request_accepted] leaves the state alone and accepts a request exactly
    when the process is found, has an address space, and has no limit or one that its
    usage plus the request, added in 64 bits, does not exceed. *)
Theorem is_request_accepted_spec e pid req s :
  lim_wf s ->
  exists b, is_request_accepted e pid req s = Some (b, s) /\
    (b = true <-> exists t mm, find_task_by_vpid e pid = Some t /\ task_mm t = Some mm /\
       forall limit, limits (memory_list s) !! pid = Some limit ->
         u64 (total_vm mm * PAGE_SIZE + req) <= limit).
Proof.
  intros Hwf. exists (decision e pid req (limits (memory_list s))).
  split; [by apply accepts_run|]. unfold decision, PAGE_SHIFT, PAGE_SIZE.
  destruct (find_task_by_vpid e pid) as [[[mm|]]|]; [|naive_solver..].
  cbn [task_mm]. rewrite Z.shiftl_mul_pow2, u64_add_l by lia.
  destruct (limits _ !! pid) as [limit|]; [|naive_solver].
  rewrite Z.leb_le. split; [|naive_solver].
  intros Hle. exists {| task_mm := Some mm |}, mm. naive_solver.
Qed.

(** ** The limiter as a gate *)

(** What [find_task_by_vpid(current->pid)] finds: the id is the global one and the lookup is in
    the namespace of the caller, so it can find the caller, another task (with the pages of
    its address space, if it has one) or nobody. *)
Inductive lookup := Self | Another (mapped : option Z) | Nobody.

(** A limiter between two calls, and the namespace of its callers. *)
Record limiter := Limiter { lim_st : lim_state; lim_ok : lim_wf lim_st; lim_lookup : Z -> lookup }.

(** The kernel as [is_request_accepted(current->pid, ..)] sees it from a caller with [tv]
    mapped pages. *)
Definition current_env (look : Z -> lookup) (tv : Z) : lim_env := {|
  find_task_by_vpid := fun p =>
    match look p with
    | Self => Some {| task_mm := Some {| total_vm := tv |} |}
    | Another mapped => Some {| task_mm := Build_mm_view <$> mapped |}
    | Nobody => None
    end;
  capable_sys_admin := false;
  kmalloc_ok := true;
  kmalloc_array_ok := fun _ _ => true;
  user := ua_ok
|}.

Definition limiter_accepts (g : limiter) (pid tv req : Z) : bool :=
  match is_request_accepted (current_env (lim_lookup g) tv) pid req (lim_st g) with
  | Some (b, _) => b
  | None => false
  end.

Lemma limiter_accepts_eq g pid tv req :
  limiter_accepts g pid tv req =
    match lim_lookup g pid with
    | Nobody | Another None => false
    | Self => match limits (memory_list (lim_st g)) !! pid with
              | None => true | Some limit => (tv <<u PAGE_SHIFT) +u req <=? limit end
    | Another (Some tv') => match limits (memory_list (lim_st g)) !! pid with
              | None => true | Some limit => (tv' <<u PAGE_SHIFT) +u req <=? limit end
    end.
Proof.
  destruct g as [s Hs look]. unfold limiter_accepts. rewrite accepts_run by done.
  unfold decision, current_env. cbn [find_task_by_vpid task_mm total_vm lim_st lim_lookup].
  by destruct (look pid) as [|[]|].
Qed.

(** The limit of an id is in force on the caller unless the lookup finds another task, whose
    usage is then compared. *)
Definition limit_in_force (g : limiter) (pid : Z) : option Z :=
  match lim_lookup g pid with Another _ => None | _ => limits (memory_list (lim_st g)) !! pid end.

#[export] Instance limiter_gate : MemGate limiter.
Proof.
  refine {| gate_accepts := limiter_accepts; gate_limit := limit_in_force;
            gate_finds := fun g pid => match lim_lookup g pid with Self => true | _ => false end |}.
  - intros g pid tv req limit. unfold limit_in_force. rewrite limiter_accepts_eq.
    destruct (lim_lookup g pid) as [|o|]; [|done|done]. intros ->. apply Z.leb_le.
  - intros g pid tv req. unfold limit_in_force. rewrite limiter_accepts_eq.
    destruct (lim_lookup g pid) as [|o|]; [|done|done]. by intros ->.
Defined.

(** A caller whose id is not found in its namespace is refused, limit or not. *)
Lemma unknown_id_refused g pid tv req : lim_lookup g pid = Nobody -> limiter_accepts g pid tv req = false.
Proof. intros Hn. by rewrite limiter_accepts_eq, Hn. Qed.

(** ** Limits of the checks *)

(** The guard against a negative limit has no effect: the limit is a [size_t], so a
    privileged caller who passes [-n] for an unlisted process gets the limit
    [2^64 - n], not [-EINVAL]. *)
Theorem negative_limit_is_stored e p n s :
  lim_wf s -> 0 <= i32 p -> 0 < n < 2 ^ 64 ->
  capable_sys_admin e = true -> kmalloc_ok e = true ->
  is_Some (find_task_by_vpid e (i32 p)) -> i32 p ∉ pids (memory_list s) ->
  exists s', julioz_add_memory_limit e p (- n) s = Some (0, s') /\
    limits (memory_list s') !! i32 p = Some (2 ^ 64 - n).
Proof.
  intros Hwf Hp Hn Hcap Hmem [t Ht] Hnin.
  unfold julioz_add_memory_limit.
  rewrite (proj2 (Z.ltb_ge _ _) Hp), (proj2 (Z.ltb_ge _ _) (proj1 (u64_range (- n)))), Hcap, Ht. cbn [orb negb].
  rewrite critical_run, add_scan_fresh, Hmem by done. eexists. split; [done|]. cbn [memory_list].
  rewrite limits_cons. cbn. rewrite lookup_insert_eq, u64_neg by lia. f_equal. lia.
Qed.

(** The sum of usage and request wraps: a request larger than any limit is
    accepted whenever the wrapped sum is small. *)
Theorem huge_request_accepted g pid tv req limit :
  lim_lookup g pid = Self -> gate_limit g pid = Some limit -> 0 < tv < 2 ^ 52 -> 0 <= limit ->
  req = 2 ^ 64 - tv * PAGE_SIZE ->
  limiter_accepts g pid tv req = true.
Proof.
  intros Hs Hl Htv Hlim ->. cbn [gate_limit limiter_gate] in Hl. unfold limit_in_force in Hl. rewrite Hs in Hl.
  rewrite limiter_accepts_eq, Hs, Hl. unfold PAGE_SHIFT, PAGE_SIZE.
  rewrite Z.shiftl_mul_pow2 by lia. rewrite (u64_small (tv * 2 ^ 12)) by lia.
  replace (tv * 2 ^ 12 + (2 ^ 64 - tv * 4096)) with (2 ^ 64) by lia.
  apply Z.leb_le. done.
Qed.

(** ** Witnesses *)

(** One privileged caller, processes 5 and 7 alive with 10 mapped pages each. *)
Definition env0 : lim_env := {|
  find_task_by_vpid := fun p =>
    if (p =? 5) || (p =? 7) then Some {| task_mm := Some {| total_vm := 10 |} |} else None;
  capable_sys_admin := true;
  kmalloc_ok := true;
  kmalloc_array_ok := fun n _ => n <? 2 ^ 20;
  user := ua_ok
|}.

Definition listed57 : lim_state :=
  LimState [ {| data := {| lim_pid := 7; lim_memory_limit := 50000 |} |};
             {| data := {| lim_pid := 5; lim_memory_limit := 40000 |} |} ] false 2.

Lemma listed57_wf : lim_wf listed57.
Proof.
  split; [done| |repeat constructor; simpl; unfold is_u64; lia|done].
  apply NoDup_cons; split; [set_solver|]. apply NoDup_singleton.
Defined.

(** Two processes are limited, the list is read, one limit is changed and the other removed. *)
Definition history0 : list (lim_env * crud) :=
  (fun op => (env0, op)) <$> [Add 5 40000; Add 7 50000; Get 4096 1 8192; Update 7 60000; Remove 5; Get 4096 8 8192].

Lemma history_refines_map_witness :
  exists rs s, run_history history0 lim_init = Some (rs, s) /\ lim_wf s /\
    map_history history0 ∅ rs (limits (memory_list s)) /\ rs !! 2%nat =
      Some (Read (GetResult 0 (Some [ {| lim_pid := 7; lim_memory_limit := 50000 |} ]) (Some 1))).
Proof.
  destruct (history_refines_map history0) as (rs & s & Hr & Hw & Hm); [by repeat constructor|].
  exists rs, s. split; [exact Hr|]. split; [exact Hw|]. split; [exact Hm|].
  vm_compute in Hr. injection Hr as <- _. reflexivity.
Defined.

Lemma get_memory_limits_spec_witness :
  exists res, julioz_get_memory_limits env0 4096 1 8192 listed57 = Some (res, listed57) /\
    res = GetResult 0 (Some [ {| lim_pid := 7; lim_memory_limit := 50000 |} ]) (Some 1).
Proof.
  destruct (get_memory_limits_spec env0 4096 1 8192 listed57 listed57_wf) as (res & Hr & _ & Hok & _);
    [done|].
  exists res. split; [exact Hr|]. apply Hok; done.
Defined.

Lemma is_request_accepted_spec_witness :
  exists b, is_request_accepted env0 7 100 listed57 = Some (b, listed57) /\ b = true.
Proof.
  destruct (is_request_accepted_spec env0 7 100 listed57 listed57_wf) as (b & Hb & Hiff).
  exists b. split; [exact Hb|]. apply Hiff.
  exists {| task_mm := Some {| total_vm := 10 |} |}, {| total_vm := 10 |}.
  split; [done|]. split; [done|]. intros limit Hl. vm_compute in Hl. injection Hl as <-.
  vm_compute. done.
Defined.

Lemma negative_limit_is_stored_witness :
  exists s', julioz_add_memory_limit env0 5 (-1) lim_init = Some (0, s') /\
    limits (memory_list s') !! i32 5 = Some (2 ^ 64 - 1).
Proof.
  apply (negative_limit_is_stored env0 5 1 lim_init lim_init_wf);
    first [ by eexists | apply not_elem_of_nil | vm_compute; split; done | vm_compute; done ].
Defined.

Lemma huge_request_accepted_witness :
  limiter_accepts (Limiter listed57 listed57_wf (fun _ => Self)) 5 10 (2 ^ 64 - 40960) = true.
Proof.
  apply (huge_request_accepted (Limiter listed57 listed57_wf (fun _ => Self)) 5 10 _ 40000); done.
Defined.

End LimitSpec.
