(* ===== verification/Vma.v ===== *)
(** * Areas of an address space and the tree that holds them

    [struct vm_area_struct], the maple tree of an [mm_struct] as an interface, and the
    page-level view of an address space: what is mapped at an address, whatever areas
    describe it.  [mm/mmap.c] only touches the tree through the operations of
    [VmaTree]; the tree itself ([lib/maple_tree.c]) is outside the repository. *)
From S2P Require Import Prelude.

(** [vm_id] is the address of the structure: two areas are the same object when it is
    equal.  [anon_singular] is [list_is_singular(&vma->anon_vma_chain)]; [vm_ops] is [None]
    for an anonymous area. *)
Record vma := Vma {
  vm_id : Z; vm_start : Z; vm_end : Z; vm_flags : Z; vm_pgoff : Z;
  vm_file : option Z; vm_ops : option Z; anon_vma : option Z; anon_singular : bool;
  vm_policy : option Z; vm_uffd : option Z; anon_name : option Z
}.

#[export] Instance vma_eq_dec : EqDecision vma.
Proof. solve_decision. Defined.

(** Assignments to the fields of a structure. *)
Definition set_range (lo hi pgoff : Z) (v : vma) : vma :=
  Vma (vm_id v) lo hi (vm_flags v) pgoff (vm_file v) (vm_ops v) (anon_vma v)
      (anon_singular v) (vm_policy v) (vm_uffd v) (anon_name v).
Definition set_start (lo : Z) (v : vma) : vma := set_range lo (vm_end v) (vm_pgoff v) v.
Definition set_end (hi : Z) (v : vma) : vma := set_range (vm_start v) hi (vm_pgoff v) v.
Definition set_pgoff (p : Z) (v : vma) : vma := set_range (vm_start v) (vm_end v) p v.
Definition set_flags (f : Z) (v : vma) : vma :=
  Vma (vm_id v) (vm_start v) (vm_end v) f (vm_pgoff v) (vm_file v) (vm_ops v) (anon_vma v)
      (anon_singular v) (vm_policy v) (vm_uffd v) (anon_name v).
Definition set_anon_vma (a : option Z) (v : vma) : vma :=
  Vma (vm_id v) (vm_start v) (vm_end v) (vm_flags v) (vm_pgoff v) (vm_file v) (vm_ops v) a
      (anon_singular v) (vm_policy v) (vm_uffd v) (anon_name v).
(** [vm_area_dup]: the same contents at another address. *)
Definition set_id (i : Z) (v : vma) : vma :=
  Vma i (vm_start v) (vm_end v) (vm_flags v) (vm_pgoff v) (vm_file v) (vm_ops v) (anon_vma v)
      (anon_singular v) (vm_policy v) (vm_uffd v) (anon_name v).

Definition vma_pages (v : vma) : Z := (vm_end v -u vm_start v) >>u PAGE_SHIFT.

(** ** Well-formed areas and lists of areas *)

Definition TASK_SIZE : Z := 2 ^ 47 - PAGE_SIZE.

Record vma_ok (v : vma) : Prop := {
  ok_low : 0 <= vm_start v;
  ok_range : vm_start v < vm_end v;
  ok_high : vm_end v <= TASK_SIZE;
  ok_start : vm_start v mod PAGE_SIZE = 0;
  ok_end : vm_end v mod PAGE_SIZE = 0
}.

Definition before (x y : vma) : Prop := vm_end x <= vm_start y.
Definition areas_ok (l : list vma) : Prop := StronglySorted before l /\ Forall vma_ok l.

Lemma areas_ok_app l k :
  areas_ok (l ++ k) <->
  areas_ok l /\ areas_ok k /\ (forall x y, x ∈ l -> y ∈ k -> before x y).
Proof. unfold areas_ok. rewrite StronglySorted_app, Forall_app. naive_solver. Qed.

Lemma areas_ok_cons v l :
  areas_ok (v :: l) <-> vma_ok v /\ areas_ok l /\ (forall y, y ∈ l -> before v y).
Proof. unfold areas_ok. rewrite StronglySorted_cons, !Forall_cons, !Forall_forall. naive_solver. Qed.

Lemma areas_ok_nil : areas_ok [].
Proof. split; constructor. Qed.

(** ** The tree

    [vmas t] are the stored areas in address order.  A store or an erase covers a range
    that cuts no area in two: the callers adjust or split areas first. *)
Definition whole (lo hi : Z) (l : list vma) : Prop :=
  Forall (fun x => vm_end x <= lo \/ hi <= vm_start x \/ (lo <= vm_start x /\ vm_end x <= hi)) l.

Definition store_area (v : vma) (l : list vma) : list vma :=
  filter (fun x => vm_end x <= vm_start v) l ++ v :: filter (fun x => vm_end v <= vm_start x) l.

Definition erase_area (lo hi : Z) (l : list vma) : list vma :=
  filter (fun x => vm_end x <= lo \/ hi <= vm_start x) l.

(** Assignment through a pointer to a stored area. *)
Definition write_area (i : Z) (f : vma -> vma) (l : list vma) : list vma :=
  (fun x => if vm_id x =? i then f x else x) <$> l.

Definition first_area (lo hi : Z) (l : list vma) : option vma :=
  head (filter (fun x => lo < vm_end x /\ vm_start x <= hi) l).

Definition last_area (hi : Z) (l : list vma) : option vma :=
  last (filter (fun x => vm_end x <= hi) l).

Class VmaTree (T : Type) := {
  vmas : T -> list vma;
  (** [mt_find], [vma_find]: the first area that meets [[lo, hi]] *)
  mt_find : T -> Z -> Z -> option vma;
  (** [mas_prev]: the last area that ends at or below an address *)
  mas_prev : T -> Z -> option vma;
  (** [vma_iter_store], [vma_iter_clear_gfp] *)
  mt_store : vma -> T -> T;
  mt_erase : Z -> Z -> T -> T;
  vma_write : Z -> (vma -> vma) -> T -> T;
  mt_find_spec : forall t lo hi, mt_find t lo hi = first_area lo hi (vmas t);
  mas_prev_spec : forall t hi, mas_prev t hi = last_area hi (vmas t);
  mt_store_spec : forall v t, whole (vm_start v) (vm_end v) (vmas t) ->
    vmas (mt_store v t) = store_area v (vmas t);
  mt_erase_spec : forall lo hi t, whole lo hi (vmas t) ->
    vmas (mt_erase lo hi t) = erase_area lo hi (vmas t);
  vma_write_spec : forall i f t, vmas (vma_write i f t) = write_area i f (vmas t)
}.

(** The interface is realised by the ordered list itself. *)
#[export] Instance list_tree : VmaTree (list vma).
Proof.
  refine {| vmas := fun t => t; mt_find := fun t lo hi => first_area lo hi t;
    mas_prev := fun t hi => last_area hi t; mt_store := store_area; mt_erase := erase_area;
    vma_write := write_area |}; done.
Defined.

(** ** Lemmas on area lists *)

Lemma filter_all {A} (P : A -> Prop) `{forall x, Decision (P x)} l :
  Forall P l -> filter P l = l.
Proof. induction 1; [done|]. rewrite filter_cons_True by done. congruence. Qed.

Lemma filter_none {A} (P : A -> Prop) `{forall x, Decision (P x)} l :
  Forall (fun x => ~ P x) l -> filter P l = [].
Proof. induction 1; [done|]. by rewrite filter_cons_False. Qed.

Lemma before_ok_all l : Forall vma_ok l -> Forall (fun x => vm_start x < vm_end x) l.
Proof. intros Hl. eapply Forall_impl; [done|]. by intros x []. Qed.

(** If the list with [v] in its place is sorted, storing [v] puts it there, over
    whatever areas [mid] its range covers. *)
Lemma store_between v l mid k :
  areas_ok (l ++ v :: k) ->
  Forall (fun x => vm_start v <= vm_start x /\ vm_start x < vm_end x <= vm_end v) mid ->
  store_area v (l ++ mid ++ k) = l ++ v :: k /\
  whole (vm_start v) (vm_end v) (l ++ mid ++ k).
Proof.
  intros (Hl & ([_ Hv _ _ _] & Hk & Hvk)%areas_ok_cons & Hlv)%areas_ok_app Hmid.
  destruct Hl as [_ Hl%before_ok_all], Hk as [_ Hk%before_ok_all].
  assert (Hl' : Forall (fun x => before x v) l) by (apply Forall_forall; set_solver).
  assert (Hk' : Forall (fun x => before v x) k) by (by apply Forall_forall).
  unfold before in *. split.
  - unfold store_area. rewrite !filter_app. rewrite (filter_all _ l) by done.
    rewrite (filter_none (fun x => vm_end x <= vm_start v) mid), (filter_none _ k),
      (filter_none _ l), (filter_none _ mid), (filter_all _ k); [by rewrite app_nil_r|..]; try done.
    all: rewrite ?Forall_forall in *; intros x Hx;
      repeat match goal with H : forall y, y ∈ _ -> _ |- _ => specialize (H x) end;
      intuition lia.
  - unfold whole. rewrite !Forall_app.
    split_and!; eapply Forall_impl; try done; cbn; intros; lia.
Qed.

Lemma store_gap v l k :
  areas_ok (l ++ v :: k) ->
  store_area v (l ++ k) = l ++ v :: k /\ whole (vm_start v) (vm_end v) (l ++ k).
Proof. intros Hok. by apply (store_between v l [] k). Qed.

(** Erasing the areas [mid] that lie in a range and are all that meets it. *)
Lemma erase_between lo hi l mid k :
  Forall (fun x => vm_end x <= lo) l -> Forall (fun x => hi <= vm_start x) k ->
  Forall (fun x => lo <= vm_start x /\ vm_start x < vm_end x <= hi) mid ->
  erase_area lo hi (l ++ mid ++ k) = l ++ k /\ whole lo hi (l ++ mid ++ k).
Proof.
  intros Hl Hk Hm. split.
  - unfold erase_area. rewrite !filter_app.
    rewrite (filter_all _ l), (filter_none _ mid), (filter_all _ k); [done|..];
      eapply Forall_impl; try done; cbn; intros; lia.
  - unfold whole. rewrite !Forall_app.
    split_and!; eapply Forall_impl; try done; cbn; intros; lia.
Qed.

(** A write through the pointer to one of the areas, ids being distinct. *)
Lemma write_one v f l k :
  NoDup (vm_id <$> (l ++ v :: k)) ->
  write_area (vm_id v) f (l ++ v :: k) = l ++ f v :: k.
Proof.
  intros Hnd. unfold write_area. rewrite fmap_app, fmap_cons, Z.eqb_refl.
  rewrite fmap_app, fmap_cons in Hnd. apply NoDup_app in Hnd as (_ & Hl & Hk).
  apply NoDup_cons in Hk as [Hk _].
  assert (Hid : forall m : list vma, vm_id v ∉ (vm_id <$> m) ->
            (fun x : vma => if vm_id x =? vm_id v then f x else x) <$> m = m).
  { intros m Hm. induction m as [|y m IH]; [done|]. cbn in Hm |- *.
    apply not_elem_of_cons in Hm as [Hy Hm]. rewrite IH by done.
    by rewrite (proj2 (Z.eqb_neq _ _)). }
  rewrite !Hid; [done|done|]. intros Hin. apply (Hl _ Hin). apply list_elem_of_here.
Qed.

(** The areas below, meeting, and above a range, in a sorted list. *)
Lemma split_at lo hi l :
  areas_ok l -> lo <= hi ->
  exists a b c, l = a ++ b ++ c /\
    Forall (fun x => vm_end x <= lo) a /\
    Forall (fun x => lo < vm_end x /\ vm_start x < hi) b /\
    Forall (fun x => hi <= vm_start x) c /\
    (forall x, x ∈ c -> lo < vm_end x).
Proof.
  intros Hok Hlh. induction l as [|v l IH]; [exists [], [], []; cbn; split_and!; set_solver|].
  apply areas_ok_cons in Hok as (Hv & Hl & Hb). pose proof (ok_range v Hv) as Hr.
  destruct (IH Hl) as (a & b & c & -> & Ha & Hb' & Hc & Hc').
  destruct (decide (vm_end v <= lo)) as [Hlow|Hlow].
  { exists (v :: a), b, c. split_and!; [done| |done..]. by constructor. }
  assert (a = []) as ->.
  { destruct a as [|y a]; [done|]. apply Forall_cons in Ha as [Hy _].
    assert (before v y) by (apply Hb; set_solver). unfold before in *.
    destruct Hl as [_ Hl]. apply Forall_app in Hl as [Hl _]. apply Forall_cons in Hl as [Hl _].
    pose proof (ok_range y Hl). lia. }
  destruct (decide (vm_start v < hi)) as [Hm|Hm].
  { exists [], (v :: b), c. split_and!; [done|constructor| |done..].
    constructor; [lia|done]. }
  exists [], [], (v :: b ++ c). split_and!; [done|constructor|constructor| |].
  - constructor; [lia|]. apply Forall_forall. intros y Hy.
    assert (before v y) by (apply Hb; done). unfold before in *. lia.
  - intros y Hy. apply elem_of_cons in Hy as [->|Hy]; [lia|].
    assert (before v y) by (apply Hb; done). unfold before in *.
    destruct Hl as [_ Hl]. rewrite Forall_forall in Hl. pose proof (ok_range y (Hl y Hy)). lia.
Qed.

(** ** The page-level view *)

Definition VM_SOFTDIRTY : Z := 0x08000000.

(** What a page of an area maps: its flags (the soft-dirty mark apart), file and the
    page offset. *)
Definition page := (Z * option Z * Z)%type.

Definition page_of (v : vma) (a : Z) : page :=
  (Z.ldiff (vm_flags v) VM_SOFTDIRTY, vm_file v,
   vm_pgoff v +u (a / PAGE_SIZE - vm_start v / PAGE_SIZE)).

Definition covers (v : vma) (a : Z) : Prop := vm_start v <= a < vm_end v.

Definition view (l : list vma) (a : Z) : option page :=
  match filter (fun v => covers v a) l with
  | [] => None
  | v :: _ => Some (page_of v a)
  end.

Lemma view_nil a : view [] a = None.
Proof. done. Qed.

Lemma view_cons v l a :
  view (v :: l) a = if decide (covers v a) then Some (page_of v a) else view l a.
Proof. unfold view. rewrite filter_cons. by destruct (decide _). Qed.

Lemma view_app l k a :
  view (l ++ k) a = match view l a with Some p => Some p | None => view k a end.
Proof. unfold view. rewrite filter_app. by destruct (filter _ l). Qed.

Lemma view_none l a : (forall x, x ∈ l -> ~ covers x a) -> view l a = None.
Proof. intros Hl. unfold view. rewrite filter_none; [done|]. by apply Forall_forall. Qed.

Lemma view_some_covers l a p : view l a = Some p -> exists v, v ∈ l /\ covers v a.
Proof.
  unfold view. destruct (filter _ l) as [|v k] eqn:Hf; [done|]. intros _.
  assert (Hin : v ∈ filter (fun v => covers v a) l) by (rewrite Hf; set_solver).
  apply list_elem_of_filter in Hin as [? ?]. eauto.
Qed.

(** Two lists of areas describe the same mappings. *)
Definition same_pages (l k : list vma) : Prop := forall a, view l a = view k a.

#[export] Instance same_pages_equiv : Equivalence same_pages.
Proof.
  split; [done|by intros l k H a|intros l k m H1 H2 a; by rewrite H1, H2].
Qed.

#[export] Instance app_same_pages : Proper (same_pages ==> same_pages ==> same_pages) (@app vma).
Proof. intros l l' Hl k k' Hk a. by rewrite !view_app, Hl, Hk. Qed.

#[export] Instance cons_same_pages v : Proper (same_pages ==> same_pages) (cons v).
Proof. intros l l' Hl a. by rewrite !view_cons, Hl. Qed.

#[export] Instance view_proper : Proper (same_pages ==> eq ==> eq) view.
Proof. intros l l' Hl a _ <-. apply Hl. Qed.

(** Number of pages of a list of areas. *)
Definition pages (l : list vma) : Z := foldr (fun v n => vma_pages v + n) 0 l.

Lemma pages_app l k : pages (l ++ k) = pages l + pages k.
Proof. induction l as [|v l IH]; cbn; [done|]. fold (pages (l ++ k)) (pages l). lia. Qed.

Lemma pages_cons v l : pages (v :: l) = vma_pages v + pages l.
Proof. done. Qed.

Lemma vma_pages_ok v : vma_ok v -> vma_pages v = (vm_end v - vm_start v) / PAGE_SIZE.
Proof.
  intros [Hlo Hr Hhi _ _]. unfold vma_pages, PAGE_SHIFT, TASK_SIZE, PAGE_SIZE in *.
  rewrite u64_small by lia. by rewrite Z.shiftr_div_pow2 by lia.
Qed.

(** Cutting an area at a page boundary strictly inside it. *)
Lemma cut_pages v a :
  vma_ok v -> a mod PAGE_SIZE = 0 -> vm_start v < a < vm_end v ->
  (a - vm_start v) / PAGE_SIZE + (vm_end v - a) / PAGE_SIZE = (vm_end v - vm_start v) / PAGE_SIZE.
Proof.
  intros [Hlo Hr Hhi Hs He] Ha Hin. unfold PAGE_SIZE in *.
  Z.to_euclidean_division_equations; lia.
Qed.
