(* ===== verification/Mm.v ===== *)
(** * Address spaces: accounting, splitting and unmapping ([mm/mmap.c])

    The [mm_struct] of Proyecto3's [mm/mmap.c], its accounting helpers, [__split_vma] and
    the munmap path.  Allocation, the anonymous-memory and policy code, userfaultfd, the
    LSM and the resource limits are outside the repository and are fields of [vm_env];
    page tables, reverse-map trees, statistics hooks and debug checks carry no state of
    this model. *)
From S2P Require Import Prelude Vma.

Module Mm.

Definition VM_READ : Z := 1.
Definition VM_WRITE : Z := 2.
Definition VM_EXEC : Z := 4.
Definition VM_SHARED : Z := 8.
Definition VM_MAYREAD : Z := 0x10.
Definition VM_MAYWRITE : Z := 0x20.
Definition VM_MAYEXEC : Z := 0x40.
Definition VM_MAYSHARE : Z := 0x80.
Definition VM_GROWSDOWN : Z := 0x100.
Definition VM_PFNMAP : Z := 0x400.
Definition VM_LOCKED : Z := 0x2000.
Definition VM_IO : Z := 0x4000.
Definition VM_DONTEXPAND : Z := 0x40000.
Definition VM_LOCKONFAULT : Z := 0x80000.
Definition VM_ACCOUNT : Z := 0x100000.
Definition VM_NORESERVE : Z := 0x200000.
Definition VM_MIXEDMAP : Z := 0x10000000.
Definition VM_SPECIAL : Z := Z.lor (Z.lor VM_IO VM_DONTEXPAND) (Z.lor VM_PFNMAP VM_MIXEDMAP).
Definition VM_LOCKED_MASK : Z := Z.lor VM_LOCKED VM_LOCKONFAULT.

(** The page counters of an [mm_struct]. *)
Record counters := Counters {
  total_vm : Z; locked_vm : Z; data_vm : Z; exec_vm : Z; stack_vm : Z
}.

Inductive lock_state := Unlocked | ReadLocked | WriteLocked.

(** [committed] is the system-wide commitment [vm_committed_as] that the charges and
    refunds of this code move; [next_id] is the next address of the area allocator. *)
Record mm_struct (T : Type) := MmStruct {
  mm_mt : T; map_count : Z; ctr : counters;
  brk : Z; start_brk : Z; start_data : Z; end_data : Z; def_flags : Z; mmap_base : Z;
  mmap_lock : lock_state; committed : Z; next_id : Z
}.
#[global] Arguments MmStruct {T}.
#[global] Arguments mm_mt {T}. #[global] Arguments map_count {T}. #[global] Arguments ctr {T}.
#[global] Arguments brk {T}. #[global] Arguments start_brk {T}.
#[global] Arguments start_data {T}. #[global] Arguments end_data {T}.
#[global] Arguments def_flags {T}. #[global] Arguments mmap_base {T}.
#[global] Arguments mmap_lock {T}. #[global] Arguments committed {T}.
#[global] Arguments next_id {T}.

(** Assignments to the fields that change. *)
Definition set_areas {T} (t : T) (count id : Z) (m : mm_struct T) : mm_struct T :=
  MmStruct t count (ctr m) (brk m) (start_brk m) (start_data m) (end_data m) (def_flags m)
           (mmap_base m) (mmap_lock m) (committed m) id.
Definition set_ctr {T} (c : counters) (m : mm_struct T) : mm_struct T :=
  MmStruct (mm_mt m) (map_count m) c (brk m) (start_brk m) (start_data m) (end_data m)
           (def_flags m) (mmap_base m) (mmap_lock m) (committed m) (next_id m).
Definition set_brk {T} (b : Z) (m : mm_struct T) : mm_struct T :=
  MmStruct (mm_mt m) (map_count m) (ctr m) b (start_brk m) (start_data m) (end_data m)
           (def_flags m) (mmap_base m) (mmap_lock m) (committed m) (next_id m).
Definition set_lock {T} (l : lock_state) (m : mm_struct T) : mm_struct T :=
  MmStruct (mm_mt m) (map_count m) (ctr m) (brk m) (start_brk m) (start_data m) (end_data m)
           (def_flags m) (mmap_base m) l (committed m) (next_id m).
Definition set_committed {T} (c : Z) (m : mm_struct T) : mm_struct T :=
  MmStruct (mm_mt m) (map_count m) (ctr m) (brk m) (start_brk m) (start_data m) (end_data m)
           (def_flags m) (mmap_base m) (mmap_lock m) c (next_id m).

Definition add_total (n : Z) (c : counters) : counters :=
  Counters (total_vm c +u n) (locked_vm c) (data_vm c) (exec_vm c) (stack_vm c).
Definition add_locked (n : Z) (c : counters) : counters :=
  Counters (total_vm c) (locked_vm c +u n) (data_vm c) (exec_vm c) (stack_vm c).
Definition add_data (n : Z) (c : counters) : counters :=
  Counters (total_vm c) (locked_vm c) (data_vm c +u n) (exec_vm c) (stack_vm c).
Definition add_exec (n : Z) (c : counters) : counters :=
  Counters (total_vm c) (locked_vm c) (data_vm c) (exec_vm c +u n) (stack_vm c).
Definition add_stack (n : Z) (c : counters) : counters :=
  Counters (total_vm c) (locked_vm c) (data_vm c) (exec_vm c) (stack_vm c +u n).

(** The answers of the rest of the kernel. *)
Record vm_env := {
  is_exec_mapping : Z -> bool; is_stack_mapping : Z -> bool; is_data_mapping : Z -> bool;
  rlimit_as : Z; rlimit_data : Z; rlimit_data_max : Z; rlimit_memlock : Z; rlimit_stack : Z;
  ignore_rlimit_data : bool; capable_ipc_lock : bool;
  sysctl_max_map_count : Z;
  may_split : vma -> Z -> Z;             (* 0 when the area has no such operation *)
  vm_area_dup_ok : vma -> Z -> bool;
  iter_prealloc_ok : vma -> bool;        (* room in the tree for a store *)
  vma_dup_policy : vma -> Z; anon_vma_clone : vma -> Z;
  detach_store : Z -> Z;                 (* result of collecting the n-th area *)
  userfaultfd_unmap_prep : vma -> Z -> Z -> Z;
  iter_clear : Z -> Z -> Z;
  lock_killed : bool;                    (* mmap_write_lock_killable was interrupted *)
  enough_memory : Z -> bool              (* security_vm_enough_memory_mm *)
}.

Section ops.
Context {T : Type} `{VmaTree T} (e : vm_env).
Implicit Types m : mm_struct T.

(** ** Accounting *)

Definition may_expand_vm m (fl npages : Z) : bool :=
  if (rlimit_as e >>u PAGE_SHIFT) <? total_vm (ctr m) +u npages then false
  else if is_data_mapping e fl
          && ((rlimit_data e >>u PAGE_SHIFT) <? data_vm (ctr m) +u npages)
  then
    if (rlimit_data e =? 0)
       && (data_vm (ctr m) +u npages <=? (rlimit_data_max e >>u PAGE_SHIFT)) then true
    else ignore_rlimit_data e
  else true.

Definition vm_stat_account (fl npages : Z) (c : counters) : counters :=
  let c := add_total npages c in
  if is_exec_mapping e fl then add_exec npages c
  else if is_stack_mapping e fl then add_stack npages c
  else if is_data_mapping e fl then add_data npages c
  else c.

Definition mlock_future_ok m (fl bytes : Z) : bool :=
  if negb (flag_set fl VM_LOCKED) || capable_ipc_lock e then true
  else
    let locked_pages := (bytes >>u PAGE_SHIFT) +u locked_vm (ctr m) in
    let limit_pages := rlimit_memlock e >>u PAGE_SHIFT in
    locked_pages <=? limit_pages.

(** [security_vm_enough_memory_mm] charges the pages it grants. *)
Definition vm_enough_memory (npages : Z) m : bool * mm_struct T :=
  if enough_memory e npages then (true, set_committed (committed m + npages) m) else (false, m).
Definition vm_unacct_memory (npages : Z) m : mm_struct T := set_committed (committed m - npages) m.

(** ** Lookup *)

Definition find_vma_intersection m (start_addr end_addr : Z) : option vma :=
  mt_find (mm_mt m) start_addr (end_addr -u 1).
Definition find_vma m (addr : Z) : option vma := mt_find (mm_mt m) addr ULONG_MAX.
Definition find_vma_prev m (addr : Z) : option vma * option vma :=
  (mt_find (mm_mt m) addr ULONG_MAX, mas_prev (mm_mt m) addr).

(** ** Splitting *)

(** The result, the area as it is afterwards, and the address space. *)
Definition __split_vma (v : vma) (addr : Z) (new_below : bool) m : Z * vma * mm_struct T :=
  let err := may_split e v addr in
  if negb (err =? 0) then (err, v, m)
  else if negb (vm_area_dup_ok e v addr) then (- ENOMEM, v, m)
  else
    let new := set_id (next_id m) v in
    let new := if new_below then set_end addr new
               else set_pgoff (vm_pgoff new +u ((addr -u vm_start v) >>u PAGE_SHIFT))
                              (set_start addr new) in
    if negb (iter_prealloc_ok e new) then (- ENOMEM, v, m)
    else
      let err := vma_dup_policy e v in
      if negb (err =? 0) then (err, v, m)
      else
        let err := anon_vma_clone e v in
        if negb (err =? 0) then (err, v, m)
        else
          let v' := if new_below
                    then set_pgoff (vm_pgoff v +u ((addr -u vm_start new) >>u PAGE_SHIFT))
                                   (set_start addr v)
                    else set_end addr v in
          let t := vma_write (vm_id v) (fun _ => v') (mm_mt m) in
          (0, v', set_areas (mt_store new t) (map_count m + 1) (next_id m + 1) m).

Definition split_vma (v : vma) (addr : Z) (new_below : bool) m : Z * vma * mm_struct T :=
  if sysctl_max_map_count e <=? map_count m then (- ENOMEM, v, m)
  else __split_vma v addr new_below m.

(** ** Unmapping *)

(** The loop that collects the areas of the range into the side tree.  [None]: out of
    fuel; [inl]: the error that ends the call. *)
Fixpoint gather (fuel : nat) (next : vma) (start end_ count : Z) (detached : list vma) m
    : option ((Z + list vma) * mm_struct T) :=
  match fuel with
  | O => None
  | S fuel' =>
      let '(error, next, m) :=
        if end_ <? vm_end next then __split_vma next end_ false m else (0, next, m) in
      if negb (error =? 0) then Some (inl error, m)
      else
        let error := detach_store e count in
        if negb (error =? 0) then Some (inl error, m)
        else
          let detached := detached ++ [next] in
          let error := userfaultfd_unmap_prep e next start end_ in
          if negb (error =? 0) then Some (inl error, m)
          else
            match mt_find (mm_mt m) (vm_end next) (end_ -u 1) with
            | None => Some (inr detached, m)
            | Some next' => gather fuel' next' start end_ (count + 1) detached m
            end
  end.

(** [locked_vm] of the collected areas. *)
Definition locked_pages (l : list vma) : Z :=
  foldl (fun n v => if flag_set (vm_flags v) VM_LOCKED then n +u vma_pages v else n) 0 l.

(** [remove_mt]: the statistics of the collected areas, and the charge returned. *)
Definition remove_mt (l : list vma) m : mm_struct T :=
  let nr_accounted :=
    foldl (fun n v => if flag_set (vm_flags v) VM_ACCOUNT then n +u vma_pages v else n) 0 l in
  let c := foldl (fun c v => vm_stat_account (vm_flags v) (- vma_pages v) c) (ctr m) l in
  vm_unacct_memory nr_accounted (set_ctr c m).

Definition do_vmi_align_munmap (fuel : nat) (v : vma) (start end_ : Z) (unlock : bool) m
    : option (Z * mm_struct T) :=
  if (vm_start v <? start) && (end_ <? vm_end v) && (sysctl_max_map_count e <=? map_count m)
  then Some (- ENOMEM, m)
  else
    let '(error, v, m) :=
      if vm_start v <? start then __split_vma v start true m else (0, v, m) in
    if negb (error =? 0) then Some (error, m)
    else
      match gather fuel v start end_ 0 [] m with
      | None => None
      | Some (inl error, m) => Some (error, m)
      | Some (inr detached, m) =>
          let error := iter_clear e start end_ in
          if negb (error =? 0) then Some (error, m)
          else
            let count := Z.of_nat (length detached) in
            let c := ctr m in
            let m := set_areas (mt_erase start end_ (mm_mt m)) (map_count m - count) (next_id m) m in
            let m := set_ctr (add_locked (- locked_pages detached) c) m in
            let m := if unlock then set_lock ReadLocked m else m in
            let m := remove_mt detached m in
            Some (0, if unlock then set_lock Unlocked m else m)
      end.

Definition do_vmi_munmap (fuel : nat) (start len : Z) (unlock : bool) m
    : option (Z * mm_struct T) :=
  if negb (offset_in_page start =? 0) || (TASK_SIZE <? start) || (TASK_SIZE -u start <? len)
  then Some (- EINVAL, m)
  else
    let end_ := start +u PAGE_ALIGN len in
    if end_ =? start then Some (- EINVAL, m)
    else
      match mt_find (mm_mt m) start (end_ -u 1) with
      | None => Some (0, if unlock then set_lock Unlocked m else m)
      | Some v => do_vmi_align_munmap fuel v start end_ unlock m
      end.

Definition do_munmap (fuel : nat) (start len : Z) m := do_vmi_munmap fuel start len false m.

Definition __vm_munmap (fuel : nat) (start len : Z) (unlock : bool) m : option (Z * mm_struct T) :=
  if lock_killed e then Some (- EINTR, m)
  else
    match do_vmi_munmap fuel start len unlock (set_lock WriteLocked m) with
    | None => None
    | Some (ret, m) =>
        Some (ret, if negb (ret =? 0) || negb unlock then set_lock Unlocked m else m)
    end.

Definition vm_munmap (fuel : nat) (start len : Z) m := __vm_munmap fuel start len false m.

(** [untagged_addr] of the architecture is an argument. *)
Definition sys_munmap (untagged_addr : Z -> Z) (fuel : nat) (addr len : Z) m :=
  __vm_munmap fuel (untagged_addr addr) len true m.

(** [do_vma_munmap]: the entry used by [brk]. *)
Definition do_vma_munmap (fuel : nat) (v : vma) (start end_ : Z) (unlock : bool) m :=
  do_vmi_align_munmap fuel v start end_ unlock m.

End ops.

(** Enough fuel for the collecting loop: one round per area, and one more. *)
Definition munmap_fuel {T} `{VmaTree T} (m : mm_struct T) : nat := length (vmas (mm_mt m)) + 2.

End Mm.
