(* ===== verification/MmSpec.v ===== *)
(** * Properties of splitting and unmapping

    The invariant of an address space, and what the munmap path does to the mappings a
    process sees: on success the range is gone and nothing else moves, on failure nothing
    moves at all (areas may stay cut), and the page counters stay those of the areas. *)
From S2P Require Import Prelude Vma Mm.

Module MmSpec.
Import Mm.

(** ** Pages of sorted areas *)

Lemma pages_bound l lo :
  areas_ok l -> lo mod PAGE_SIZE = 0 -> lo <= TASK_SIZE ->
  Forall (fun x => lo <= vm_start x) l -> 0 <= pages l <= (TASK_SIZE - lo) / PAGE_SIZE.
Proof.
  revert lo. induction l as [|v l IH]; intros lo Hok Hal Hlo Hge; cbn [pages foldr].
  { split; [lia|]. apply Z.div_pos; unfold PAGE_SIZE; lia. }
  fold (pages l). apply areas_ok_cons in Hok as (Hv & Hl & Hb).
  apply Forall_cons in Hge as [Hge _].
  destruct (IH (vm_end v)) as [IH1 IH2]; [done|apply Hv|apply Hv| |].
  { apply Forall_forall. intros y Hy. by apply Hb. }
  rewrite vma_pages_ok by done. destruct Hv as [H1 H2 H3 H4 H5].
  unfold TASK_SIZE, PAGE_SIZE in *. Z.to_euclidean_division_equations; lia.
Qed.

Lemma pages_range l : areas_ok l -> 0 <= pages l < 2 ^ 35.
Proof.
  intros Hok. pose proof (pages_bound l 0 Hok) as Hb. unfold TASK_SIZE, PAGE_SIZE in Hb.
  assert (0 <= pages l <= (2 ^ 47 - 4096 - 0) / 4096); [|change ((2 ^ 47 - 4096 - 0) / 4096) with (2 ^ 35 - 1) in *; lia].
  apply Hb; [done|lia|]. destruct Hok as [_ Hf]. eapply Forall_impl; [done|]. by intros x [].
Qed.

Lemma vma_pages_nonneg v : vma_ok v -> 0 <= vma_pages v.
Proof.
  intros Hv. rewrite vma_pages_ok by done. destruct Hv. apply Z.div_pos; unfold PAGE_SIZE; lia.
Qed.

(** Pages that carry a memory charge. *)
Definition accounted (l : list vma) : Z :=
  foldr (fun v n => (if flag_set (vm_flags v) VM_ACCOUNT then vma_pages v else 0) + n) 0 l.

Lemma accounted_app l k : accounted (l ++ k) = accounted l + accounted k.
Proof. induction l as [|v l IH]; cbn; [done|]. fold (accounted (l ++ k)) (accounted l). lia. Qed.

Lemma accounted_cons v l :
  accounted (v :: l) = (if flag_set (vm_flags v) VM_ACCOUNT then vma_pages v else 0) + accounted l.
Proof. done. Qed.

Lemma accounted_range l : areas_ok l -> 0 <= accounted l <= pages l.
Proof.
  intros [_ Hf]. induction Hf as [|v l Hv _ IH]; cbn; [lia|].
  fold (accounted l) (pages l). pose proof (vma_pages_nonneg v Hv). case_match; lia.
Qed.

Section spec.
Context {T : Type} `{VmaTree T}.
Implicit Types m : mm_struct T.

(** ** The invariant *)

Notation areas m := (vmas (mm_mt m)).

Record mm_wf m : Prop := {
  wf_areas : areas_ok (areas m);
  wf_ids : NoDup (vm_id <$> areas m);
  wf_fresh : Forall (fun v => vm_id v < next_id m) (areas m);
  wf_count : map_count m = Z.of_nat (length (areas m));
  wf_total : total_vm (ctr m) = pages (areas m)
}.

(** Everything but the areas, their number and the allocator is unchanged. *)
Record same_frame m m' : Prop := {
  fr_ctr : ctr m' = ctr m; fr_brk : brk m' = brk m; fr_start : start_brk m' = start_brk m;
  fr_sdata : start_data m' = start_data m; fr_edata : end_data m' = end_data m;
  fr_def : def_flags m' = def_flags m; fr_base : mmap_base m' = mmap_base m;
  fr_lock : mmap_lock m' = mmap_lock m; fr_committed : committed m' = committed m
}.

(** [m'] is [m] with some areas cut in pieces: the process sees the same pages. *)
Record resplit m m' : Prop := {
  rs_wf : mm_wf m';
  rs_frame : same_frame m m';
  rs_pages : same_pages (areas m) (areas m');
  rs_accounted : accounted (areas m') = accounted (areas m)
}.

Lemma resplit_refl m : mm_wf m -> resplit m m.
Proof. intros Hwf. by constructor. Qed.

Lemma resplit_trans m1 m2 m3 : resplit m1 m2 -> resplit m2 m3 -> resplit m1 m3.
Proof.
  intros [_ [] Hp Ha] [Hwf [] Hp' Ha']. constructor; [done|constructor; congruence| |congruence].
  by etrans.
Qed.

(** ** Splitting *)

(** The two halves of an area cut at [a]. *)
Record halves (v w1 w2 : vma) (a : Z) : Prop := {
  hv_low : vm_start w1 = vm_start v /\ vm_end w1 = a;
  hv_high : vm_start w2 = a /\ vm_end w2 = vm_end v;
  hv_flags : vm_flags w1 = vm_flags v /\ vm_flags w2 = vm_flags v;
  hv_files : vm_file w1 = vm_file v /\ vm_file w2 = vm_file v;
  hv_off1 : vm_pgoff w1 = vm_pgoff v;
  hv_off2 : vm_pgoff w2 = vm_pgoff v +u ((a - vm_start v) / PAGE_SIZE)
}.

Lemma halves_ok v w1 w2 a :
  halves v w1 w2 a -> vma_ok v -> a mod PAGE_SIZE = 0 -> vm_start v < a < vm_end v ->
  vma_ok w1 /\ vma_ok w2 /\ before w1 w2.
Proof.
  intros [[Hs1 He1] [Hs2 He2] _ _ _ _] [] Ha Hin. unfold before.
  split_and!; [constructor|constructor|]; rewrite ?Hs1, ?He1, ?Hs2, ?He2; done || lia.
Qed.

Lemma halves_view v w1 w2 a :
  halves v w1 w2 a -> vma_ok v -> a mod PAGE_SIZE = 0 -> vm_start v < a < vm_end v ->
  same_pages [v] [w1; w2].
Proof.
  intros [[Hs1 He1] [Hs2 He2] [Hf1 Hf2] [Hfi1 Hfi2] Ho1 Ho2] [] Ha Hin x.
  rewrite !view_cons, view_nil. unfold covers, page_of.
  rewrite Hs1, He1, Hs2, He2, Hf1, Hf2, Hfi1, Hfi2, Ho1, Ho2.
  repeat destruct (decide _); try lia; [done| |done].
  do 2 f_equal. rewrite u64_add_l. f_equal. unfold PAGE_SIZE in *.
  Z.to_euclidean_division_equations; lia.
Qed.

Lemma halves_pages v w1 w2 a :
  halves v w1 w2 a -> vma_ok v -> a mod PAGE_SIZE = 0 -> vm_start v < a < vm_end v ->
  vma_pages w1 + vma_pages w2 = vma_pages v.
Proof.
  intros Hh Hv Ha Hin. destruct (halves_ok _ _ _ _ Hh Hv Ha Hin) as (Hw1 & Hw2 & _).
  rewrite !vma_pages_ok by done. destruct Hh as [[-> ->] [-> ->] _ _ _ _].
  by apply cut_pages.
Qed.

(** A middle part of the list replaced by one with the same extent. *)
Lemma areas_ok_replace l mid mid' k :
  areas_ok (l ++ mid ++ k) -> areas_ok mid' ->
  (forall x, x ∈ mid' -> exists lo hi, lo ∈ mid /\ hi ∈ mid /\ vm_start lo <= vm_start x /\ vm_end x <= vm_end hi) ->
  areas_ok (l ++ mid' ++ k).
Proof.
  rewrite !areas_ok_app. intros (Hl & (Hm & Hk & Hmk) & Hlm) Hm' Hext.
  split_and!; [done|done|done| |].
  - intros x y Hx Hy. destruct (Hext x Hx) as (lo & hi & _ & Hhi & _ & He).
    specialize (Hmk hi y Hhi Hy). unfold before in *. lia.
  - intros x y Hx [Hy|Hy]%elem_of_app; [|apply Hlm; set_solver].
    destruct (Hext y Hy) as (lo & hi & Hlo & _ & Hs & _).
    assert (before x lo) by (apply Hlm; set_solver). unfold before in *. lia.
Qed.

Section run.
Context (e : vm_env).

(** A failed split changes nothing. *)
Lemma split_fails v a below m err v' m' :
  __split_vma e v a below m = (err, v', m') -> err <> 0 -> v' = v /\ m' = m.
Proof.
  unfold __split_vma. intros Hs Herr.
  repeat (case_match; simplify_eq/=; try done).
Qed.

Lemma split_shape v a below m v' m' :
  __split_vma e v a below m = (0, v', m') ->
  exists new,
    new = (let n := set_id (next_id m) v in
           if below then set_end a n
           else set_pgoff (vm_pgoff n +u ((a -u vm_start v) >>u PAGE_SHIFT)) (set_start a n)) /\
    v' = (if below then set_pgoff (vm_pgoff v +u ((a -u vm_start new) >>u PAGE_SHIFT)) (set_start a v)
          else set_end a v) /\
    m' = set_areas (mt_store new (vma_write (vm_id v) (fun _ => v') (mm_mt m)))
           (map_count m + 1) (next_id m + 1) m.
Proof.
  unfold __split_vma.
  destruct (Z.eqb_spec (may_split e v a) 0); [|cbn; intros; simplify_eq; done].
  destruct (vm_area_dup_ok e v a); [|done]. cbn [negb]. cbv zeta.
  destruct (iter_prealloc_ok e _); [|done]. cbn [negb].
  destruct (Z.eqb_spec (vma_dup_policy e v) 0); [|cbn; intros; simplify_eq; done].
  destruct (Z.eqb_spec (anon_vma_clone e v) 0); [|cbn; intros; simplify_eq; done].
  cbn [negb]. intros [= <- <-]. eexists. split_and!; [done|done|]. by destruct below.
Qed.

Lemma split_offset a s :
  0 <= s < a -> a < 2 ^ 64 -> ((a -u s) >>u PAGE_SHIFT) = (a - s) / PAGE_SIZE.
Proof.
  intros. unfold PAGE_SHIFT, PAGE_SIZE. rewrite u64_small by lia.
  by rewrite Z.shiftr_div_pow2 by lia.
Qed.

(** The list of areas with one of them cut. *)
Lemma cut_ok l v w1 w2 k a :
  areas_ok (l ++ v :: k) -> halves v w1 w2 a ->
  a mod PAGE_SIZE = 0 -> vm_start v < a < vm_end v ->
  areas_ok (l ++ w1 :: w2 :: k).
Proof.
  intros Hok Hh Ha Hin. pose proof Hok as (_ & (Hv & _)%areas_ok_cons & _)%areas_ok_app.
  destruct (halves_ok _ _ _ _ Hh Hv Ha Hin) as (Hw1 & Hw2 & Hw12).
  pose proof Hh as [[Hs1 He1] [Hs2 He2] _ _ _ _].
  apply (areas_ok_replace l [v] [w1; w2] k); [done| |].
  - rewrite !areas_ok_cons. split_and!; try done; [apply areas_ok_nil|set_solver..].
  - intros x Hx. exists v, v. split; [set_solver|]. split; [set_solver|].
    apply elem_of_cons in Hx as [->|Hx%list_elem_of_singleton]; subst; lia.
Qed.

(** Same ids and one new one. *)
Lemma ids_split (l k : list vma) (v w new : vma) (n : Z) (below : bool) :
  NoDup (vm_id <$> (l ++ v :: k)) -> Forall (fun x => vm_id x < n) (l ++ v :: k) ->
  vm_id w = vm_id v -> vm_id new = n ->
  let l' := l ++ (if below then [new; w] else [w; new]) ++ k in
  NoDup (vm_id <$> l') /\ Forall (fun x => vm_id x < n + 1) l'.
Proof.
  intros Hnd Hlt Hw Hnew. cbv zeta.
  assert (Hp : l ++ (if below then [new; w] else [w; new]) ++ k ≡ₚ new :: l ++ w :: k).
  { destruct below; cbn; solve_Permutation. }
  rewrite Hp. split.
  - cbn. apply NoDup_cons. split.
    + intros (x & Hx & Hin)%list_elem_of_fmap. rewrite Forall_forall in Hlt.
      assert (vm_id x < n); [|lia].
      apply elem_of_app in Hin as [Hin|[->|Hin]%elem_of_cons]; [|rewrite Hw|]; apply Hlt; set_solver.
    + rewrite fmap_app, fmap_cons in *. by rewrite Hw.
  - constructor; [lia|]. rewrite Forall_app, Forall_cons in *.
    destruct Hlt as (H1 & H2 & H3).
    split_and!; [| lia |]; eapply Forall_impl; try done; cbn; intros; lia.
Qed.

Lemma split_succeeds v a below m v' m' l k :
  mm_wf m -> areas m = l ++ v :: k ->
  a mod PAGE_SIZE = 0 -> vm_start v < a < vm_end v ->
  __split_vma e v a below m = (0, v', m') ->
  exists w1 w2, areas m' = l ++ w1 :: w2 :: k /\ v' = (if below then w2 else w1) /\
    halves v w1 w2 a /\ resplit m m'.
Proof.
  intros [Hok Hnd Hfresh Hcnt Htot] Hm Ha Hin Hsplit.
  apply split_shape in Hsplit as (new & Hnew & Hv' & ->). rewrite Hm in *.
  pose proof Hok as (_ & (Hv & _)%areas_ok_cons & _)%areas_ok_app.
  set (w1 := if below then new else v'). set (w2 := if below then v' else new).
  assert (Hh : halves v w1 w2 a).
  { pose proof Hv as [Hv1 _ Hv3 _ _]. unfold TASK_SIZE, PAGE_SIZE in Hv3.
    subst w1 w2. rewrite Hv', Hnew. destruct below; cbn;
      rewrite split_offset by lia; constructor; cbn; done. }
  assert (Hids : vm_id v' = vm_id v /\ vm_id new = next_id m)
    by (rewrite Hv', Hnew; by destruct below).
  destruct Hids as [Hid' Hidn].
  pose proof (cut_ok _ _ _ _ _ _ Hok Hh Ha Hin) as Hcut.
  assert (Hareas : vmas (mt_store new (vma_write (vm_id v) (fun _ => v') (mm_mt m)))
                   = l ++ w1 :: w2 :: k).
  { rewrite mt_store_spec; rewrite vma_write_spec, Hm, write_one by done; subst w1 w2; destruct below.
    - by apply store_gap.
    - rewrite cons_middle, app_assoc in Hcut.
      change (l ++ v' :: k) with (l ++ [v'] ++ k). rewrite app_assoc.
      destruct (store_gap new (l ++ [v']) k) as [-> _]; [done|]. by rewrite <- app_assoc.
    - by apply store_gap.
    - rewrite cons_middle, app_assoc in Hcut.
      change (l ++ v' :: k) with (l ++ [v'] ++ k). rewrite app_assoc. by apply store_gap. }
  exists w1, w2. split; [done|]. split; [by subst w1 w2; destruct below|]. split; [done|].
  pose proof (halves_pages _ _ _ _ Hh Hv Ha Hin) as Hpg.
  destruct (ids_split l k v v' new (next_id m) below Hnd Hfresh Hid' Hidn) as [Hnd' Hfr'].
  replace (l ++ (if below then [new; v'] else [v'; new]) ++ k) with (l ++ w1 :: w2 :: k) in *
    by (subst w1 w2; by destruct below).
  clearbody w1 w2. constructor; cbn [mm_mt set_areas].
  - constructor; cbn [mm_mt set_areas map_count next_id ctr]; rewrite Hareas; [done..| |].
    + rewrite Hcnt, !length_app. cbn. lia.
    + rewrite Htot, !pages_app, !pages_cons. lia.
  - done.
  - rewrite Hareas, Hm. change (same_pages (l ++ [v] ++ k) (l ++ [w1; w2] ++ k)).
    by rewrite (halves_view _ _ _ _ Hh Hv Ha Hin).
  - rewrite Hareas, Hm, !accounted_app, !accounted_cons.
    destruct Hh as [_ _ [-> ->] _ _ _]. destruct (flag_set (vm_flags v) VM_ACCOUNT); lia.
Qed.

(** ** Collecting a range *)

(** The area after [v], if it starts by [hi]. *)
Lemma find_next l v k hi :
  areas_ok (l ++ v :: k) ->
  first_area (vm_end v) hi (l ++ v :: k) =
  match k with
  | [] => None
  | y :: _ => if decide (vm_start y <= hi) then Some y else None
  end.
Proof.
  intros (Hl & (Hv & Hk & Hvk)%areas_ok_cons & Hlv)%areas_ok_app. unfold first_area, before in *.
  rewrite filter_app, (filter_none _ l), filter_cons_False; cycle 1.
  { lia. }
  { apply Forall_forall. intros x Hx. assert (vm_end x <= vm_start v) by (apply Hlv; set_solver).
    destruct Hv. lia. }
  destruct k as [|y k]; [done|]. pose proof Hk as (Hy & _ & Hyk)%areas_ok_cons.
  assert (vm_end v <= vm_start y) by (apply Hvk; set_solver). destruct Hy as [_ Hy _ _ _].
  rewrite filter_cons. destruct (decide (vm_start y <= hi)).
  - rewrite decide_True by lia. done.
  - rewrite decide_False by lia. rewrite filter_none; [done|].
    apply Forall_forall. intros z Hz. specialize (Hyk z Hz). unfold before in Hyk. lia.
Qed.

Definition inside (lo hi : Z) (x : vma) : Prop :=
  lo <= vm_start x /\ vm_start x < vm_end x <= hi.

(** What the loop leaves: the areas of the range in front of the rest. *)
Definition collected (start end_ : Z) (l : list vma) m (res : Z + list vma) m' : Prop :=
  resplit m m' /\
  match res with
  | inl err => err <> 0
  | inr det => exists k, areas m' = l ++ det ++ k /\
      Forall (inside start end_) det /\ Forall (fun x => end_ <= vm_start x) k
  end.

(** One round: the area is cut at the end of the range if it reaches beyond. *)
Lemma round_split next end_ m err next' m' l k :
  mm_wf m -> areas m = l ++ next :: k ->
  end_ mod PAGE_SIZE = 0 -> vm_start next < end_ ->
  (if end_ <? vm_end next then __split_vma e next end_ false m else (0, next, m)) = (err, next', m') ->
  (err <> 0 /\ m' = m) \/
  (err = 0 /\ resplit m m' /\ vm_start next' = vm_start next /\ vm_start next' < vm_end next' <= end_ /\
   exists k', areas m' = l ++ next' :: k' /\
     (k' = k \/ Forall (fun x => end_ <= vm_start x) k')).
Proof.
  intros Hwf Hm Hal Hlt. pose proof (wf_areas m Hwf) as Hok. rewrite Hm in Hok.
  pose proof Hok as (_ & (Hv & Hk & Hvk)%areas_ok_cons & _)%areas_ok_app.
  pose proof (ok_range _ Hv) as Hr.
  destruct (Z.ltb_spec end_ (vm_end next)) as [Hbig|Hsmall]; intros Hsplit.
  - destruct (Z.eq_dec err 0) as [->|Hne].
    + right. split; [done|].
      destruct (split_succeeds next end_ false m next' m' l k) as (w1 & w2 & Ha & -> & Hh & Hrs);
        [done..|].
      destruct Hh as [[Hs1 He1] [Hs2 He2] _ _ _ _].
      split; [done|]. split; [done|]. split; [lia|]. exists (w2 :: k). split; [done|]. right.
      constructor; [lia|]. apply Forall_forall. intros x Hx. specialize (Hvk x Hx).
      unfold before in *. lia.
    + left. split; [done|]. by apply split_fails in Hsplit as [_ ->].
  - injection Hsplit as <- <- <-. right. split; [done|]. split; [by apply resplit_refl|].
    split; [done|]. split; [lia|]. exists k. auto.
Qed.

Lemma gather_spec fuel next start end_ count det0 m l k :
  mm_wf m -> areas m = l ++ det0 ++ next :: k ->
  Forall (inside start end_) det0 -> start <= vm_start next < end_ ->
  end_ mod PAGE_SIZE = 0 -> 0 < end_ <= TASK_SIZE -> (length k < fuel)%nat ->
  exists res m', gather e fuel next start end_ count det0 m = Some (res, m') /\
    collected start end_ l m res m'.
Proof.
  revert next count det0 m k. induction fuel as [|fuel IH]; [lia|].
  intros next count det0 m k Hwf Hm Hdet Hnext Hal Hend Hfuel. cbn [gather].
  destruct (if end_ <? vm_end next then _ else _) as [[err next'] m'] eqn:Hround.
  apply (round_split next end_ m err next' m' (l ++ det0) k) in Hround;
    [|done|by rewrite <- app_assoc|done|lia].
  destruct Hround as [[Herr ->]|(-> & Hrs & Hs' & He' & k' & Ha' & Hk')].
  { rewrite (proj2 (Z.eqb_neq err 0)) by done. eexists _, _. split; [done|].
    split; [by apply resplit_refl|done]. }
  change (negb (0 =? 0)) with false. cbv iota.
  destruct (Z.eqb_spec (detach_store e count) 0) as [_|Hne]; cbn [negb]; cycle 1.
  { eexists _, _. split; [done|]. by split. }
  destruct (Z.eqb_spec (userfaultfd_unmap_prep e next' start end_) 0) as [_|Hne];
    cbn [negb]; cycle 1.
  { eexists _, _. split; [done|]. by split. }
  pose proof (wf_areas _ (rs_wf _ _ Hrs)) as Hok'. rewrite Ha' in Hok'.
  rewrite mt_find_spec, Ha', find_next by done.
  unfold TASK_SIZE, PAGE_SIZE in Hend. rewrite u64_small by lia.
  assert (Hdet' : Forall (inside start end_) (det0 ++ [next'])).
  { apply Forall_app. split; [done|]. constructor; [|constructor]. unfold inside. lia. }
  assert (Hstop : Forall (fun x => end_ <= vm_start x) k' ->
    collected start end_ l m (inr (det0 ++ [next'])) m').
  { intros Hk. split; [done|]. exists k'. split; [|done]. by rewrite Ha', <- !app_assoc. }
  destruct k' as [|y k''].
  { eexists _, _. split; [done|]. by apply Hstop. }
  destruct (decide (vm_start y <= end_ - 1)) as [Hy|Hy]; cycle 1.
  { eexists _, _. split; [done|]. apply Hstop. constructor; [lia|]. apply Forall_forall.
    pose proof Hok' as (_ & (_ & (Hyv & _ & Hyk)%areas_ok_cons & _)%areas_ok_cons & _)%areas_ok_app.
    intros x Hx. specialize (Hyk x Hx). unfold before in Hyk. destruct Hyv. lia. }
  destruct Hk' as [Hk'|Hk']; [|apply Forall_cons in Hk' as [Hk' _]; lia].
  destruct (IH y (count + 1) (det0 ++ [next']) m' k'') as (res & m2 & Hrun & Hrs2 & Hres).
  - apply Hrs.
  - by rewrite Ha', <- !app_assoc.
  - done.
  - pose proof Hok' as (_ & (_ & _ & Hb)%areas_ok_cons & _)%areas_ok_app.
    assert (before next' y) by (apply Hb; set_solver). unfold before in *. lia.
  - done.
  - unfold TASK_SIZE, PAGE_SIZE. lia.
  - rewrite <- Hk' in Hfuel. cbn in Hfuel. lia.
  - eexists _, _. split; [done|]. split; [by eapply resplit_trans|]. done.
Qed.

(** ** The statistics of the removed areas *)

Lemma account_total fl n c : total_vm (vm_stat_account e fl n c) = total_vm c +u n.
Proof. unfold vm_stat_account. by repeat case_match. Qed.

Lemma remove_total det c :
  Forall vma_ok det -> 0 <= pages det <= total_vm c -> total_vm c < 2 ^ 64 ->
  total_vm (foldl (fun c v => vm_stat_account e (vm_flags v) (- vma_pages v) c) c det)
    = total_vm c - pages det.
Proof.
  intros Hok. revert c. induction Hok as [|v det Hv Hdet IH]; intros c Hp Hb; cbn [foldl].
  { cbn. lia. }
  rewrite pages_cons in *. pose proof (vma_pages_nonneg v Hv).
  assert (0 <= pages det).
  { clear -Hdet. induction Hdet as [|w l Hw _ IH]; [done|]. rewrite pages_cons.
    pose proof (vma_pages_nonneg w Hw). lia. }
  assert (Ht : total_vm (vm_stat_account e (vm_flags v) (- vma_pages v) c) = total_vm c - vma_pages v).
  { rewrite account_total, u64_small; lia. }
  rewrite IH; rewrite Ht; lia.
Qed.

Lemma sum_accounted det n :
  0 <= n -> Forall vma_ok det -> n + accounted det < 2 ^ 64 ->
  foldl (fun n v => if flag_set (vm_flags v) VM_ACCOUNT then n +u vma_pages v else n) n det
    = n + accounted det.
Proof.
  intros Hn Hok. revert n Hn. induction Hok as [|v det Hv Hdet IH]; intros n Hn Hb; cbn [foldl].
  { cbn. lia. }
  rewrite accounted_cons in *. pose proof (vma_pages_nonneg v Hv).
  assert (0 <= accounted det).
  { clear -Hdet. induction Hdet as [|w l Hw _ IH]; [done|]. rewrite accounted_cons.
    pose proof (vma_pages_nonneg w Hw). case_match; lia. }
  destruct (flag_set (vm_flags v) VM_ACCOUNT); [rewrite u64_small by lia|]; rewrite IH; lia.
Qed.

(** ** Unmapping *)

(** The effect of a successful unmap of [[start, end_)]. *)
Record unmapped (start end_ : Z) (unlock : bool) m m' : Prop := {
  um_wf : mm_wf m';
  um_view a : view (areas m') a = if decide (start <= a < end_) then None else view (areas m) a;
  um_committed : committed m' = committed m - (accounted (areas m) - accounted (areas m'));
  um_less : total_vm (ctr m') <= total_vm (ctr m);
  um_brk : brk m' = brk m /\ start_brk m' = start_brk m /\ end_data m' = end_data m /\
    def_flags m' = def_flags m;
  um_lock : mmap_lock m' = if unlock then Unlocked else mmap_lock m
}.

(** The first area of the range, after its cut at the start of the range. *)
Lemma first_cut v start m err v' m' l k :
  mm_wf m -> areas m = l ++ v :: k ->
  start mod PAGE_SIZE = 0 -> start < vm_end v -> Forall (fun x => vm_end x <= start) l ->
  (if vm_start v <? start then __split_vma e v start true m else (0, v, m)) = (err, v', m') ->
  (err <> 0 /\ m' = m) \/
  (err = 0 /\ resplit m m' /\ start <= vm_start v' /\ vm_end v' = vm_end v /\
   (vm_start v' = start \/ vm_start v' = vm_start v) /\
   exists l', areas m' = l' ++ v' :: k /\ Forall (fun x => vm_end x <= start) l').
Proof.
  intros Hwf Hm Hal Hlt Hl.
  destruct (Z.ltb_spec (vm_start v) start) as [Hin|Hout]; intros Hsplit.
  - destruct (Z.eq_dec err 0) as [->|Hne].
    + right. split; [done|].
      destruct (split_succeeds v start true m v' m' l k) as (w1 & w2 & Ha & -> & Hh & Hrs);
        [done..|].
      destruct Hh as [[Hs1 He1] [Hs2 He2] _ _ _ _].
      split; [done|]. split; [lia|]. split; [done|]. split; [by left|].
      exists (l ++ [w1]). rewrite <- app_assoc. split; [done|].
      apply Forall_app. split; [done|]. constructor; [lia|constructor].
    + left. split; [done|]. by apply split_fails in Hsplit as [_ ->].
  - injection Hsplit as <- <- <-. right. split; [done|]. split; [by apply resplit_refl|].
    split; [done|]. split; [done|]. split; [by right|]. by exists l.
Qed.

(** Removing the collected areas from the list of a well-formed address space. *)
Lemma removed_view start end_ (l det k : list vma) a :
  Forall (fun x => vm_end x <= start) l -> Forall (inside start end_) det ->
  Forall (fun x => end_ <= vm_start x) k -> start < end_ ->
  view (l ++ k) a = if decide (start <= a < end_) then None else view (l ++ det ++ k) a.
Proof.
  intros Hl Hd Hk Hlt. rewrite !view_app. rewrite !Forall_forall in *.
  destruct (decide (start <= a < end_)).
  - rewrite !view_none; [done|..]; intros x Hx; unfold covers;
      [specialize (Hk x Hx)|specialize (Hl x Hx)]; cbn in *; lia.
  - rewrite (view_none det); [done|]. intros x Hx. specialize (Hd x Hx).
    unfold covers, inside in *. lia.
Qed.

Lemma removed_wf_list (l det k : list vma) (n : Z) :
  areas_ok (l ++ det ++ k) -> NoDup (vm_id <$> (l ++ det ++ k)) ->
  Forall (fun v => vm_id v < n) (l ++ det ++ k) ->
  areas_ok (l ++ k) /\ NoDup (vm_id <$> (l ++ k)) /\ Forall (fun v => vm_id v < n) (l ++ k).
Proof.
  intros Hok Hnd Hf. split_and!.
  - rewrite !areas_ok_app in *. destruct Hok as (? & (? & ? & ?) & Hlk).
    split_and!; [done..|]. intros x y Hx Hy. apply Hlk; set_solver.
  - rewrite !fmap_app, !NoDup_app in *. destruct Hnd as (? & Hdis & _ & _ & ?).
    split_and!; [done| |done]. intros x Hx Hk. apply (Hdis x Hx). set_solver.
  - rewrite !Forall_app in *. tauto.
Qed.

Lemma align_munmap_spec fuel v start end_ unlock m l k :
  mm_wf m -> areas m = l ++ v :: k -> Forall (fun x => vm_end x <= start) l ->
  start mod PAGE_SIZE = 0 -> end_ mod PAGE_SIZE = 0 -> 0 <= start < end_ -> end_ <= TASK_SIZE ->
  start < vm_end v -> vm_start v < end_ -> (length k < fuel)%nat ->
  exists r m', do_vmi_align_munmap e fuel v start end_ unlock m = Some (r, m') /\
    ((r <> 0 /\ resplit m m') \/ (r = 0 /\ unmapped start end_ unlock m m')).
Proof.
  intros Hwf Hm Hl Hs He Hse Hts Hv1 Hv2 Hfuel. unfold do_vmi_align_munmap.
  destruct (_ && _ && _).
  { eexists _, _. split; [done|]. left. split; [done|by apply resplit_refl]. }
  destruct (if vm_start v <? start then _ else _) as [[err v'] m1] eqn:Hcut.
  apply (first_cut v start m err v' m1 l k) in Hcut; [|done..].
  destruct Hcut as [[Hne ->]|(-> & Hrs1 & Hs' & He' & Hor & l' & Ha1 & Hl')].
  { rewrite (proj2 (Z.eqb_neq err 0)) by done. eexists _, _. split; [done|]. left.
    split; [done|by apply resplit_refl]. }
  change (negb (0 =? 0)) with false. cbv iota.
  destruct (gather_spec fuel v' start end_ 0 [] m1 l' k) as (res & m2 & -> & Hrs2 & Hres);
    [apply Hrs1|done|done|lia|done|lia|done|].
  pose proof (resplit_trans _ _ _ Hrs1 Hrs2) as Hrs. clear Hrs1 Hrs2.
  destruct res as [err|det].
  { eexists _, _. split; [done|]. by left. }
  destruct (Z.eqb_spec (iter_clear e start end_) 0) as [_|Hne]; cbn [negb]; cycle 1.
  { eexists _, _. split; [done|]. by left. }
  destruct Hres as (k' & Ha2 & Hdet & Hk'). eexists _, _. split; [done|]. right. split; [done|].
  destruct Hrs as [[Hok Hnd Hfr Hcnt Htot] [] Hpg Hac]. rewrite Ha2 in *.
  destruct (removed_wf_list l' det k' (next_id m2) Hok Hnd Hfr) as (Hok' & Hnd' & Hfr').
  destruct (erase_between start end_ l' det k' Hl' Hk' Hdet) as [Her Hwh].
  rewrite <- Ha2 in Hwh. pose proof (mt_erase_spec _ _ _ Hwh) as Hmt. rewrite Ha2, Her in Hmt.
  pose proof Hok as (_ & (Hdok & _)%areas_ok_app & _)%areas_ok_app.
  pose proof (pages_range _ Hok) as Hpr. pose proof (pages_range _ Hok') as Hpr'.
  pose proof (pages_range _ Hdok) as Hpd. pose proof (accounted_range _ Hdok) as Had.
  rewrite !pages_app in *. rewrite !accounted_app in *.
  assert (Hct : total_vm (foldl (fun c v => vm_stat_account e (vm_flags v) (- vma_pages v) c)
            (add_locked (- locked_pages det) (ctr m2)) det) = total_vm (ctr m2) - pages det).
  { rewrite remove_total; [done|apply Hdok|cbn; lia|cbn; lia]. }
  constructor.
  - constructor; destruct unlock; cbn; rewrite ?Hmt; try done;
      rewrite ?Hct, ?pages_app, ?Hcnt, ?length_app; lia.
  - intros a. rewrite (Hpg a).
    destruct unlock; cbn; rewrite Hmt; apply removed_view; done || lia.
  - destruct unlock; cbn; rewrite Hmt, sum_accounted, ?accounted_app; try (apply Hdok); lia.
  - destruct unlock; cbn; rewrite Hct; rewrite fr_ctr0 in *; lia.
  - destruct unlock; cbn; done.
  - destruct unlock; cbn; done.
Qed.

(** The first area of a range and what lies before it; or nothing is mapped there. *)
Lemma find_first lo hi (l : list vma) :
  areas_ok l ->
  match first_area lo hi l with
  | Some v => exists a k, l = a ++ v :: k /\ Forall (fun x => vm_end x <= lo) a /\
                lo < vm_end v /\ vm_start v <= hi
  | None => forall x, x ∈ l -> vm_end x <= lo \/ hi < vm_start x
  end.
Proof.
  unfold first_area. induction l as [|v l IH]; intros Hok; [cbn; set_solver|].
  apply areas_ok_cons in Hok as (Hv & Hl & Hb). rewrite filter_cons.
  destruct (decide (lo < vm_end v /\ vm_start v <= hi)) as [Hin|Hout]; cbn.
  { exists [], l. split_and!; [done|constructor|lia|lia]. }
  specialize (IH Hl). destruct (head _) as [w|] eqn:Hh; cbn in Hh |- *.
  - destruct IH as (a & k & -> & Ha & Hw & Hw'). exists (v :: a), k. split_and!; [done| |done..].
    constructor; [|done]. assert (before v w) by (apply Hb; set_solver).
    unfold before in *. destruct Hl as [_ Hl]. apply Forall_app in Hl as [_ Hl].
    apply Forall_cons in Hl as [[] _]. destruct Hv. lia.
  - intros x [->|Hx]%elem_of_cons; [lia|]. by apply IH.
Qed.

Lemma mm_wf_lock lk m : mm_wf m -> mm_wf (set_lock lk m).
Proof. by intros []. Qed.

(** Arguments that [munmap] accepts. *)
Definition munmap_args (start len : Z) : bool :=
  (start mod PAGE_SIZE =? 0) && (start <=? TASK_SIZE) && (0 <? len) && (len <=? TASK_SIZE - start).

Lemma offset_in_page_mod x : offset_in_page x = x mod PAGE_SIZE.
Proof. unfold offset_in_page, PAGE_SIZE. change (4096 - 1) with (Z.ones 12). by rewrite Z.land_ones by lia. Qed.

Lemma munmap_end start len :
  munmap_args start len = true -> 0 <= start -> 
  start +u PAGE_ALIGN len = start + PAGE_ALIGN len /\
  start < start + PAGE_ALIGN len <= TASK_SIZE /\ (start + PAGE_ALIGN len) mod PAGE_SIZE = 0.
Proof.
  unfold munmap_args, TASK_SIZE. intros Hargs Hs.
  destruct (PAGE_ALIGN_bounds len) as [Hb Hal]; [unfold PAGE_SIZE in *; lia|].
  unfold PAGE_SIZE in *. split; [apply u64_small; lia|].
  split; [|Z.to_euclidean_division_equations; lia].
  split; [lia|]. Z.to_euclidean_division_equations; lia.
Qed.

Lemma munmap_bad_args fuel start len unlock m :
  munmap_args start len = false -> 0 <= start < 2 ^ 64 -> 0 <= len < 2 ^ 64 ->
  do_vmi_munmap e fuel start len unlock m = Some (- EINVAL, m).
Proof.
  intros Hargs Hs Hlen. unfold do_vmi_munmap. rewrite offset_in_page_mod.
  destruct (Z.eqb_spec (start mod PAGE_SIZE) 0) as [Hal|]; [|done]. cbn [negb orb].
  destruct (Z.ltb_spec TASK_SIZE start) as [|Hts]; [done|].
  unfold TASK_SIZE, PAGE_SIZE in Hts. unfold TASK_SIZE at 1. rewrite u64_small by (unfold PAGE_SIZE; lia).
  destruct (Z.ltb_spec (2 ^ 47 - PAGE_SIZE - start) len); [done|]. cbn [orb].
  assert (len = 0) as ->.
  { unfold munmap_args, TASK_SIZE in Hargs. lia. }
  change (PAGE_ALIGN 0) with 0. rewrite u64_small by lia. by rewrite Z.add_0_r, Z.eqb_refl.
Qed.

Lemma vmi_munmap_spec fuel start len unlock m :
  mm_wf m -> munmap_args start len = true -> 0 <= start -> (munmap_fuel m <= fuel)%nat ->
  exists r m', do_vmi_munmap e fuel start len unlock m = Some (r, m') /\
    ((r <> 0 /\ resplit m m') \/ (r = 0 /\ unmapped start (start + PAGE_ALIGN len) unlock m m')).
Proof.
  intros Hwf Hargs Hs Hfuel. destruct (munmap_end start len Hargs Hs) as (He & Hr & Hal).
  unfold do_vmi_munmap. rewrite offset_in_page_mod.
  assert (start mod PAGE_SIZE = 0 /\ start <= TASK_SIZE /\ 0 < len <= TASK_SIZE - start)
    as (Hsa & Hst & Hlen) by (unfold munmap_args in Hargs; lia).
  assert (TASK_SIZE -u start = TASK_SIZE - start) as ->
    by (unfold TASK_SIZE, PAGE_SIZE in *; apply u64_small; lia).
  rewrite Hsa. rewrite (proj2 (Z.ltb_ge _ start)), (proj2 (Z.ltb_ge _ len)) by lia.
  change (negb (0 =? 0) || false || false) with false. cbv iota.
  rewrite He. rewrite (proj2 (Z.eqb_neq _ start)) by lia.
  unfold TASK_SIZE, PAGE_SIZE in Hr. rewrite (u64_small (start + PAGE_ALIGN len - 1)) by lia.
  rewrite mt_find_spec.
  pose proof (find_first start (start + PAGE_ALIGN len - 1) _ (wf_areas m Hwf)) as Hff.
  destruct (first_area _ _ _) as [v|].
  - destruct Hff as (l & k & Hm & Hl & Hv1 & Hv2).
    apply (align_munmap_spec fuel v start _ unlock m l k); try done; try lia.
    + unfold TASK_SIZE, PAGE_SIZE. lia.
    + unfold munmap_fuel in Hfuel. rewrite Hm, length_app in Hfuel. cbn in Hfuel. lia.
  - eexists _, _. split; [done|]. right. split; [done|].
    assert (Hv : forall a, view (areas m) a =
      if decide (start <= a < start + PAGE_ALIGN len) then None else view (areas m) a).
    { intros a. destruct (decide _); [|done]. apply view_none. intros x Hx.
      specialize (Hff x Hx). unfold covers. lia. }
    destruct unlock; (constructor; cbn; try done; try lia; by apply mm_wf_lock || apply Hwf).
Qed.

End run.

(** ** munmap *)

(** C5.  [munmap] on a well-formed address space always returns, with the lock
    released.  Bad arguments are [-EINVAL].  An error leaves every mapping, the page
    counters and the memory charge as they were (areas may stay cut).  Success removes
    exactly the pages of the range, page counter and charge included: the charge of
    every accounted page that went is returned, and [total_vm] is again the number of
    mapped pages. *)
Theorem munmap_correct (e : vm_env) start len unlock m :
  mm_wf m -> is_u64 start -> is_u64 len -> lock_killed e = false ->
  exists r m', __vm_munmap e (munmap_fuel m) start len unlock m = Some (r, m') /\
    mm_wf m' /\ mmap_lock m' = Unlocked /\
    (munmap_args start len = false -> r = - EINVAL) /\
    (r <> 0 -> same_pages (areas m) (areas m') /\ ctr m' = ctr m /\ committed m' = committed m) /\
    (r = 0 ->
       (forall a, view (areas m') a =
          if decide (start <= a < start + PAGE_ALIGN len) then None else view (areas m) a) /\
       committed m' = committed m - (accounted (areas m) - accounted (areas m'))).
Proof.
  intros Hwf Hs Hlen Hk. unfold __vm_munmap. rewrite Hk.
  pose proof (mm_wf_lock WriteLocked m Hwf) as Hwf'.
  destruct (munmap_args start len) eqn:Hargs.
  - destruct (vmi_munmap_spec e (munmap_fuel m) start len unlock (set_lock WriteLocked m))
      as (r & m' & -> & Hres); [done|done|apply Hs|done|].
    eexists _, _. split; [done|]. destruct Hres as [[Hne Hrs]|[-> Hum]].
    + rewrite (proj2 (Z.eqb_neq r 0)) by done. cbn [negb orb]. destruct Hrs as [Hw [] Hp Ha].
      split_and!; [by apply mm_wf_lock|done|done|done|done].
    + cbn [negb orb]. change (negb (0 =? 0)) with false. destruct Hum as [Hw Hv Hc _ _ Hlk].
      destruct unlock; cbn [orb negb]; split_and!; try done; by apply mm_wf_lock.
  - rewrite munmap_bad_args by done. eexists _, _. split; [done|].
    change (negb (- EINVAL =? 0)) with true. cbn [orb].
    split_and!; try done. by apply mm_wf_lock.
Qed.

End spec.

(** *** A concrete address space: two neighbouring private areas and a stack *)

Definition env0 : vm_env := {|
  is_exec_mapping := fun f => flag_set f VM_EXEC;
  is_stack_mapping := fun f => flag_set f VM_GROWSDOWN;
  is_data_mapping := fun f => flag_set f VM_WRITE;
  rlimit_as := ULONG_MAX; rlimit_data := ULONG_MAX; rlimit_data_max := ULONG_MAX;
  rlimit_memlock := 65536; rlimit_stack := 8388608; ignore_rlimit_data := false;
  capable_ipc_lock := false; sysctl_max_map_count := 65530;
  may_split := fun _ _ => 0; vm_area_dup_ok := fun _ _ => true; iter_prealloc_ok := fun _ => true;
  vma_dup_policy := fun _ => 0; anon_vma_clone := fun _ => 0; detach_store := fun _ => 0;
  userfaultfd_unmap_prep := fun _ _ _ => 0; iter_clear := fun _ _ => 0;
  lock_killed := false; enough_memory := fun _ => true |}.

Definition anon_area (id lo hi flags : Z) : vma :=
  Vma id lo hi flags (lo / PAGE_SIZE) None None None true None None None.

Definition mm0 : mm_struct (list vma) :=
  MmStruct [anon_area 1 65536 98304 0x100003; anon_area 2 98304 131072 1;
            anon_area 3 1048576 1056768 0x100103]
    3 (Counters 18 0 10 0 2) 32768 32768 0 0 0 8388608 Unlocked 10 4.

Lemma mm0_wf : mm_wf mm0.
Proof.
  constructor.
  - split; repeat constructor; by compute.
  - cbn. repeat (constructor; [set_solver|]). constructor.
  - repeat constructor.
  - done.
  - vm_compute. done.
Qed.

Lemma munmap_correct_witness :
  exists r m', __vm_munmap env0 (munmap_fuel mm0) 94208 8192 true mm0 = Some (r, m') /\
    mm_wf m' /\ mmap_lock m' = Unlocked /\
    (munmap_args 94208 8192 = false -> r = - EINVAL) /\
    (r <> 0 -> same_pages (vmas (mm_mt mm0)) (vmas (mm_mt m')) /\ ctr m' = ctr mm0 /\
       committed m' = committed mm0) /\
    (r = 0 ->
       (forall a, view (vmas (mm_mt m')) a =
          if decide (94208 <= a < 94208 + PAGE_ALIGN 8192) then None else view (vmas (mm_mt mm0)) a) /\
       committed m' = committed mm0 - (accounted (vmas (mm_mt mm0)) - accounted (vmas (mm_mt m')))).
Proof. apply (munmap_correct env0 94208 8192 true mm0 mm0_wf); [done|done|done]. Defined.

End MmSpec.
