(* ===== verification/Brk.v ===== *)
(** * The brk system call with the limiter's hook ([mm/mmap.c])

    Merging tests, [get_unmapped_area], [do_brk_flags], [brk] and [vm_brk_flags] of
    Proyecto3's [mm/mmap.c].  The call into the limiter goes through [MemGate]: with the
    limiter of [MemLimitSpec] this is the modified kernel, with [open_gate] the kernel of
    [files/originalmmap.c]. *)
From S2P Require Import Prelude Gate Vma Mm.

Module Brk.
Import Mm.

Definition MAP_SHARED : Z := 1.
Definition MAP_FIXED : Z := 0x10.

(** An area chooser ([get_unmapped_area] operation): file, address, length, offset,
    flags. *)
Definition chooser : Type := option Z -> Z -> Z -> Z -> Z -> Z.

(** The answers of the rest of the kernel to the calls of this file. *)
Record brk_env := {
  vm : vm_env;
  arch_mmap_check : Z -> Z -> Z -> Z;
  mm_get_unmapped_area : chooser;
  file_get_unmapped_area : Z -> option chooser;
  shmem_get_unmapped_area : chooser;
  thp_get_unmapped_area : option chooser;  (* with CONFIG_TRANSPARENT_HUGEPAGE *)
  security_mmap_addr : Z -> Z;
  vm_start_gap : vma -> Z;
  stack_guard_gap : Z;
  ops_close : Z -> bool;                 (* the operations table has a close hook *)
  check_data_rlimit : Z -> Z -> Z -> Z -> Z -> Z;
  min_brk_is_end_data : bool;            (* CONFIG_COMPAT_BRK without randomisation *)
  vm_area_alloc_ok : bool;
  iter_store_ok : vma -> bool;           (* vma_iter_store_gfp has memory *)
  VM_DATA_DEFAULT_FLAGS : Z
}.

Section ops.
Context {T : Type} `{VmaTree T} (e : brk_env).
Implicit Types m : mm_struct T.

(** ** Merging tests *)

Definition is_mergeable_vma (v : vma) (file : option Z) (flags : Z) (uffd name : option Z)
    (may_remove_vma : bool) : bool :=
  if negb (Z.ldiff (Z.lxor (vm_flags v) flags) VM_SOFTDIRTY =? 0) then false
  else if negb (bool_decide (vm_file v = file)) then false
  else if may_remove_vma && match vm_ops v with Some o => ops_close e o | None => false end then false
  else if negb (bool_decide (vm_uffd v = uffd)) then false
  else if negb (bool_decide (anon_name v = name)) then false
  else true.

Definition is_mergeable_anon_vma (a1 a2 : option Z) (v : option vma) : bool :=
  if (negb (bool_decide (is_Some a1)) || negb (bool_decide (is_Some a2)))
     && match v with None => true | Some v => anon_singular v end
  then true
  else bool_decide (a1 = a2).

Definition can_vma_merge_before (v : vma) (flags : Z) (anon file : option Z) (pgoff : Z)
    (uffd name : option Z) : bool :=
  is_mergeable_vma v file flags uffd name true && is_mergeable_anon_vma anon (anon_vma v) (Some v)
  && (vm_pgoff v =? pgoff).

Definition can_vma_merge_after (v : vma) (flags : Z) (anon file : option Z) (pgoff : Z)
    (uffd name : option Z) : bool :=
  is_mergeable_vma v file flags uffd name false && is_mergeable_anon_vma anon (anon_vma v) (Some v)
  && (vm_pgoff v +u vma_pages v =? pgoff).

(** ** Choosing an address *)

(** The chooser in force. *)
Definition get_area (file : option Z) (flags : Z) : chooser :=
  match file with
  | Some f =>
      match file_get_unmapped_area e f with Some c => c | None => mm_get_unmapped_area e end
  | None =>
      if flag_set flags MAP_SHARED then shmem_get_unmapped_area e
      else match thp_get_unmapped_area e with Some c => c | None => mm_get_unmapped_area e end
  end.

(** [unsigned long] result: an address, or an error as its two's complement. *)
Definition get_unmapped_area (file : option Z) (addr len pgoff flags : Z) : Z :=
  let error := u64 (arch_mmap_check e addr len flags) in
  if negb (error =? 0) then error
  else if TASK_SIZE <? len then u64 (- ENOMEM)
  else
    let pgoff := match file with None => 0 | Some _ => pgoff end in
    let addr := get_area file flags file addr len pgoff flags in
    if IS_ERR_VALUE addr then addr
    else if TASK_SIZE -u len <? addr then u64 (- ENOMEM)
    else if negb (offset_in_page addr =? 0) then u64 (- EINVAL)
    else
      let error := u64 (security_mmap_addr e addr) in
      if negb (error =? 0) then error else addr.

(** The [int] result of [check_brk_limits]. *)
Definition check_brk_limits (addr len : Z) m : Z :=
  let mapped_addr := get_unmapped_area None addr len 0 MAP_FIXED in
  if IS_ERR_VALUE mapped_addr then i32 mapped_addr
  else if mlock_future_ok (vm e) m (def_flags m) len then 0 else - EAGAIN.

(** ** Growing the heap *)

Definition set_softdirty (v : vma) : vma := set_flags (Z.lor (vm_flags v) VM_SOFTDIRTY) v.

(** The counters after [len] bytes of heap were added. *)
Definition brk_account (len flags : Z) m : mm_struct T :=
  let n := len >>u PAGE_SHIFT in
  let c := add_data n (add_total n (ctr m)) in
  set_ctr (if flag_set flags VM_LOCKED then add_locked n c else c) m.

Definition do_brk_flags (v : option vma) (addr len flags : Z) m : Z * mm_struct T :=
  let flags := Z.lor flags (Z.lor (Z.lor (VM_DATA_DEFAULT_FLAGS e) VM_ACCOUNT) (def_flags m)) in
  let npages := len >>u PAGE_SHIFT in
  if negb (may_expand_vm (vm e) m flags npages) then (- ENOMEM, m)
  else if sysctl_max_map_count (vm e) <? map_count m then (- ENOMEM, m)
  else
    let '(granted, m) := vm_enough_memory (vm e) npages m in
    if negb granted then (- ENOMEM, m)
    else
      let unacct_fail := (- ENOMEM, vm_unacct_memory npages m) in
      let merge :=
        match v with
        | Some v =>
            if (vm_end v =? addr) && negb (bool_decide (is_Some (vm_policy v)))
               && can_vma_merge_after v flags None None (addr >>u PAGE_SHIFT) None None
            then Some v else None
        | None => None
        end in
      match merge with
      | Some v =>
          if negb (iter_prealloc_ok (vm e) v) then unacct_fail
          else
            let v' := set_softdirty (set_end (addr +u len) v) in
            let t := mt_store v' (vma_write (vm_id v) (fun _ => v') (mm_mt m)) in
            (0, brk_account len flags (set_areas t (map_count m) (next_id m) m))
      | None =>
          if negb (vm_area_alloc_ok e) then unacct_fail
          else
            let v := Vma (next_id m) addr (addr +u len) flags (addr >>u PAGE_SHIFT)
                         None None None false None None None in
            if negb (iter_store_ok e v) then unacct_fail
            else
              let t := mt_store (set_softdirty v) (mm_mt m) in
              (0, brk_account len flags (set_areas t (map_count m + 1) (next_id m + 1) m))
      end.

(** [vma_prev_limit]: the area before an address, if it reaches above [min]. *)
Definition vma_prev_limit m (addr min : Z) : option vma :=
  match mas_prev (mm_mt m) addr with
  | Some v => if min <? vm_end v then Some v else None
  | None => None
  end.

(** ** brk *)

Context {G : Type} `{MemGate G} (g : G) (pid : Z).

(** Label [out]: the old break is restored and returned. *)
Definition brk_out (origbrk : Z) m : Z * mm_struct T :=
  (origbrk, set_lock Unlocked (set_brk origbrk m)).

Definition sys_brk (fuel : nat) (b : Z) m : option (Z * mm_struct T) :=
  if lock_killed (vm e) then Some (- EINTR, m)
  else
    let m := set_lock WriteLocked m in
    let origbrk := brk m in
    let min_brk := if min_brk_is_end_data e then end_data m else start_brk m in
    if b <? min_brk then Some (brk_out origbrk m)
    else if negb (check_data_rlimit e (rlimit_data (vm e)) b (start_brk m) (end_data m) (start_data m)
                  =? 0)
    then Some (brk_out origbrk m)
    else
      let newbrk := PAGE_ALIGN b in
      let oldbrk := PAGE_ALIGN (brk m) in
      if negb (gate_accepts g pid (total_vm (ctr m)) (newbrk -u oldbrk))
      then Some (brk_out origbrk m)
      else if oldbrk =? newbrk then Some (b, set_lock Unlocked (set_brk b m))
      else if b <=? brk m then
        match mt_find (mm_mt m) newbrk (oldbrk -u 1) with
        | None => Some (brk_out origbrk m)
        | Some brkvma =>
            if oldbrk <=? vm_start brkvma then Some (brk_out origbrk m)
            else
              match do_vma_munmap (vm e) fuel brkvma newbrk oldbrk true (set_brk b m) with
              | None => None
              | Some (err, m) =>
                  if negb (err =? 0) then Some (brk_out origbrk m) else Some (b, m)
              end
        end
      else if negb (check_brk_limits oldbrk (newbrk -u oldbrk) m =? 0)
      then Some (brk_out origbrk m)
      else
        let next := mt_find (mm_mt m) oldbrk (newbrk +u PAGE_SIZE +u stack_guard_gap e -u 1) in
        if match next with
           | Some next => vm_start_gap e next <? newbrk +u PAGE_SIZE
           | None => false
           end
        then Some (brk_out origbrk m)
        else
          let brkvma := vma_prev_limit m oldbrk (start_brk m) in
          let '(err, m) := do_brk_flags brkvma oldbrk (newbrk -u oldbrk) 0 m in
          if err <? 0 then Some (brk_out origbrk m)
          else Some (b, set_lock Unlocked (set_brk b m)).

(** [vm_brk_flags]: used by the program loader, without the hook. *)
Definition vm_brk_flags (fuel : nat) (addr request flags : Z) m : option (Z * mm_struct T) :=
  let len := PAGE_ALIGN request in
  if len <? request then Some (- ENOMEM, m)
  else if len =? 0 then Some (0, m)
  else if negb (Z.ldiff flags VM_EXEC =? 0) then Some (- EINVAL, m)
  else if lock_killed (vm e) then Some (- EINTR, m)
  else
    let m := set_lock WriteLocked m in
    let ret := check_brk_limits addr len m in
    if negb (ret =? 0) then Some (ret, set_lock Unlocked m)
    else
      match do_vmi_munmap (vm e) fuel addr len false m with
      | None => None
      | Some (ret, m) =>
          if negb (ret =? 0) then Some (ret, set_lock Unlocked m)
          else
            let v := mas_prev (mm_mt m) addr in
            let '(ret, m) := do_brk_flags v addr len flags m in
            Some (ret, set_lock Unlocked m)
      end.

End ops.
End Brk.
