(* ===== verification/BrkSpec.v ===== *)
(** * Properties of brk under the limiter

    [brk] moves the break and exactly the pages between the two breaks, or refuses and
    changes nothing the process sees; no sequence of [brk] calls takes a limited process
    above its limit, and for a process without a limit the call is the original one.
    The hook also runs when the heap shrinks. *)
From S2P Require Import Prelude Gate MemLimitSpec Vma Mm MmSpec Brk.

Module BrkSpec.
Import Mm MmSpec Brk.

(** ** Flags and pages of an extended area *)

Lemma ldiff_lor_same a b : Z.ldiff (Z.lor a b) b = Z.ldiff a b.
Proof.
  apply Z.bits_inj'. intros n Hn. rewrite !Z.ldiff_spec, Z.lor_spec.
  by destruct (Z.testbit a n), (Z.testbit b n).
Qed.

Lemma lxor_ldiff_eq a b c : Z.ldiff (Z.lxor a b) c = 0 -> Z.ldiff a c = Z.ldiff b c.
Proof.
  intros Hz. apply Z.bits_inj'. intros n Hn.
  assert (Hb : Z.testbit (Z.ldiff (Z.lxor a b) c) n = false) by (rewrite Hz; apply Z.bits_0).
  rewrite !Z.ldiff_spec, Z.lxor_spec in *.
  by destruct (Z.testbit a n), (Z.testbit b n), (Z.testbit c n).
Qed.

Lemma mergeable_flags e v file flags uffd name rm :
  is_mergeable_vma e v file flags uffd name rm = true ->
  Z.ldiff (vm_flags v) VM_SOFTDIRTY = Z.ldiff flags VM_SOFTDIRTY /\ vm_file v = file.
Proof.
  unfold is_mergeable_vma. destruct (Z.eqb_spec (Z.ldiff (Z.lxor (vm_flags v) flags) VM_SOFTDIRTY) 0)
    as [Hz|]; [|done]. cbn [negb].
  destruct (bool_decide (vm_file v = file)) eqn:Hf; [|done]. intros _.
  apply bool_decide_eq_true in Hf. split; [by apply lxor_ldiff_eq|done].
Qed.

(** The pages of an anonymous area that starts at its own page offset. *)
Definition heap_page (flags a : Z) : page := (Z.ldiff flags VM_SOFTDIRTY, None, a / PAGE_SIZE).

Lemma shift_page a : a >>u PAGE_SHIFT = a / PAGE_SIZE.
Proof. unfold PAGE_SHIFT, PAGE_SIZE. by rewrite Z.shiftr_div_pow2 by lia. Qed.

(** An area that [can_vma_merge_after] accepts, extended to [hi]. *)
Lemma extended_page e v flags hi a :
  can_vma_merge_after e v flags None None (vm_end v / PAGE_SIZE) None None = true ->
  vma_ok v -> 0 <= a < hi -> hi <= TASK_SIZE ->
  page_of (set_softdirty (set_end hi v)) a =
  if decide (a < vm_end v) then page_of v a else heap_page flags a.
Proof.
  unfold can_vma_merge_after. intros Hcan Hv Ha Hhi. split_bools.
  apply mergeable_flags in H as [Hfl Hfi]. apply Z.eqb_eq in H0.
  rewrite vma_pages_ok in H0 by done. destruct Hv as [H1' H2' H3' H4' H5'].
  unfold page_of, heap_page. cbn. rewrite ldiff_lor_same.
  destruct (decide (a < vm_end v)); [done|]. rewrite Hfl, Hfi. f_equal.
  unfold TASK_SIZE, PAGE_SIZE in *. word_unfold. Z.to_euclidean_division_equations; lia.
Qed.

Section spec.
Context {T : Type} `{VmaTree T} (e : brk_env).
Implicit Types m : mm_struct T.
Notation areas m := (vmas (mm_mt m)).

(** ** Growing the heap *)

(** The effect of adding [[addr, addr + len)] as private memory. *)
Record grown (addr len flags : Z) m m' : Prop := {
  gr_wf : mm_wf m';
  gr_view a : view (areas m') a =
    if decide (addr <= a < addr + len) then Some (heap_page flags a) else view (areas m) a;
  gr_total : total_vm (ctr m') = total_vm (ctr m) + len / PAGE_SIZE;
  gr_committed : committed m' = committed m + len / PAGE_SIZE;
  gr_brk : brk m' = brk m /\ start_brk m' = start_brk m /\ end_data m' = end_data m /\
    def_flags m' = def_flags m;
  gr_lock : mmap_lock m' = mmap_lock m
}.

(** The place of a new range between the areas below and above it. *)
Record gap_at (addr len : Z) (l k : list vma) m : Prop := {
  gap_areas : areas m = l ++ k;
  gap_low : Forall (fun x => vm_end x <= addr) l;
  gap_high : Forall (fun x => addr + len <= vm_start x) k;
  gap_addr : 0 <= addr /\ addr mod PAGE_SIZE = 0;
  gap_len : 0 < len /\ len mod PAGE_SIZE = 0;
  gap_top : addr + len <= TASK_SIZE
}.

Lemma gap_view addr len l k m v a :
  gap_at addr len l k m -> vm_start v = addr -> vm_end v = addr + len ->
  view (l ++ v :: k) a =
    if decide (addr <= a < addr + len) then Some (page_of v a) else view (l ++ k) a.
Proof.
  intros [_ Hl Hk _ _ _] Hs He. rewrite !view_app, view_cons. unfold covers. rewrite Hs, He.
  destruct (decide (addr <= a < addr + len)); [|done].
  rewrite view_none; [done|]. intros x Hx. rewrite Forall_forall in Hl.
  specialize (Hl x Hx). unfold covers. cbn in Hl. lia.
Qed.

Lemma gap_ok addr len l k m v :
  mm_wf m -> gap_at addr len l k m -> vm_start v = addr -> vm_end v = addr + len ->
  vma_ok v /\ areas_ok (l ++ v :: k).
Proof.
  intros Hwf [Hm Hl Hk [Ha Haa] [Hlen Hla] Htop] Hs He.
  assert (Hv : vma_ok v).
  { unfold PAGE_SIZE in *. constructor; rewrite ?Hs, ?He; unfold PAGE_SIZE; try lia.
    Z.to_euclidean_division_equations; lia. }
  split; [done|]. pose proof (wf_areas m Hwf) as Hok. rewrite Hm in Hok.
  apply areas_ok_app in Hok as (Hokl & Hokk & Hlk). rewrite Forall_forall in Hl, Hk.
  rewrite areas_ok_app, areas_ok_cons. unfold before.
  split_and!; try done; [intros y Hy; specialize (Hk y Hy); cbn in Hk; lia|].
  intros x y Hx [->|Hy]%elem_of_cons; [specialize (Hl x Hx); cbn in Hl; lia|by apply Hlk].
Qed.

Lemma brk_account_total len flags m :
  total_vm (ctr (brk_account len flags m)) = total_vm (ctr m) +u (len >>u PAGE_SHIFT).
Proof. unfold brk_account. by destruct (flag_set flags VM_LOCKED). Qed.

Lemma total_after m len :
  mm_wf m -> 0 <= len <= TASK_SIZE ->
  total_vm (ctr m) +u (len >>u PAGE_SHIFT) = total_vm (ctr m) + len / PAGE_SIZE.
Proof.
  intros Hwf Hlen. rewrite shift_page, (wf_total m Hwf).
  pose proof (pages_range _ (wf_areas m Hwf)). unfold TASK_SIZE, PAGE_SIZE in *.
  apply u64_small. Z.to_euclidean_division_equations; lia.
Qed.

(** A fresh area in the gap. *)
Lemma grow_fresh addr len flags l k m v :
  mm_wf m -> gap_at addr len l k m ->
  vm_id v = next_id m -> vm_start v = addr -> vm_end v = addr + len ->
  (forall a, addr <= a < addr + len -> page_of v a = heap_page flags a) ->
  grown addr len flags m
    (brk_account len flags
       (set_areas (mt_store v (mm_mt m)) (map_count m + 1) (next_id m + 1)
          (set_committed (committed m + (len >>u PAGE_SHIFT)) m))).
Proof.
  intros Hwf Hgap Hid Hs He Hpg. destruct (gap_ok _ _ _ _ _ v Hwf Hgap Hs He) as [Hv Hok].
  destruct (store_gap v l k Hok) as [Hst Hwh].
  pose proof (gap_areas _ _ _ _ _ Hgap) as Hm. rewrite <- Hm in Hwh.
  pose proof (mt_store_spec v (mm_mt m) Hwh) as Hmt. rewrite Hm, Hst in Hmt.
  assert (Hlen : 0 <= len <= TASK_SIZE) by (destruct Hgap; lia).
  pose proof (total_after m len Hwf Hlen) as Htot. destruct Hwf as [Hok0 Hnd Hfr Hcnt Ht].
  rewrite Hm in *. assert (Hnew : vma_pages v = len / PAGE_SIZE).
  { rewrite vma_pages_ok by done. rewrite Hs, He. f_equal. lia. }
  constructor; rewrite ?brk_account_total; cbn.
  - constructor; rewrite ?brk_account_total; cbn; rewrite Hmt.
    + done.
    + rewrite fmap_app, fmap_cons. rewrite <- Permutation_middle. apply NoDup_cons.
      split; [|by rewrite <- fmap_app]. rewrite <- fmap_app, Hid.
      intros (x & Hx & Hin)%list_elem_of_fmap. rewrite Forall_forall in Hfr.
      specialize (Hfr x Hin). cbn in Hfr. lia.
    + rewrite Forall_app, Forall_cons in *. destruct Hfr as [Hf1 Hf2].
      split_and!; [|lia|]; eapply Forall_impl; try done; cbn; intros; lia.
    + rewrite Hcnt, !length_app. cbn. lia.
    + rewrite Htot, Ht, !pages_app, pages_cons. lia.
  - intros a. rewrite Hmt, Hm, (gap_view _ _ _ _ _ _ a Hgap Hs He).
    destruct (decide _); [|done]. by rewrite Hpg.
  - done.
  - by rewrite shift_page.
  - done.
  - done.
Qed.

(** The area below the gap extended over it. *)
Lemma grow_extend addr len flags l v k m :
  mm_wf m -> gap_at addr len (l ++ [v]) k m -> vm_end v = addr ->
  can_vma_merge_after e v flags None None (addr / PAGE_SIZE) None None = true ->
  let v' := set_softdirty (set_end (addr + len) v) in
  grown addr len flags m
    (brk_account len flags
       (set_areas (mt_store v' (vma_write (vm_id v) (fun _ => v') (mm_mt m)))
          (map_count m) (next_id m)
          (set_committed (committed m + (len >>u PAGE_SHIFT)) m))).
Proof.
  intros Hwf Hgap Hend Hcan. cbv zeta. set (v' := set_softdirty _).
  pose proof Hgap as [Hm Hl Hk [Ha Haa] [Hlen Hla] Htop].
  rewrite <- app_assoc in Hm. change ([v] ++ k) with (v :: k) in Hm.
  pose proof (wf_areas m Hwf) as Hok0. rewrite Hm in Hok0.
  pose proof Hok0 as (Hlok & (Hv & Hkok & Hvk)%areas_ok_cons & Hlv)%areas_ok_app.
  assert (Hv' : vma_ok v').
  { destruct Hv. constructor; cbn; try done; try lia.
    unfold PAGE_SIZE in *. Z.to_euclidean_division_equations; lia. }
  assert (Hok : areas_ok (l ++ v' :: k)).
  { rewrite areas_ok_app, areas_ok_cons. rewrite Forall_forall in Hk.
    split_and!; try done.
    intros x y Hx [->|Hy]%elem_of_cons; [apply (Hlv x v Hx); set_solver|apply (Hlv x y Hx); set_solver]. }
  pose proof (total_after m len Hwf) as Htot. destruct Hwf as [_ Hnd Hfr Hcnt Ht].
  rewrite Hm in Hnd, Hfr, Hcnt, Ht.
  assert (Hmt : vmas (mt_store v' (vma_write (vm_id v) (fun _ => v') (mm_mt m))) = l ++ v' :: k).
  { assert (Hcov : Forall (fun x => vm_start v' <= vm_start x /\ vm_start x < vm_end x <= vm_end v') [v']).
    { constructor; [|constructor]. destruct Hv'. lia. }
    destruct (store_between v' l [v'] k Hok Hcov) as [Hst Hwh].
    rewrite mt_store_spec; rewrite vma_write_spec, Hm, write_one by done; done. }
  assert (Hpg : vma_pages v' = vma_pages v + len / PAGE_SIZE).
  { rewrite !vma_pages_ok by done. cbn. destruct Hv. unfold PAGE_SIZE in *.
    Z.to_euclidean_division_equations; lia. }
  constructor; rewrite ?brk_account_total; cbn.
  - constructor; rewrite ?brk_account_total; cbn; rewrite Hmt.
    + done.
    + rewrite fmap_app, fmap_cons in *. done.
    + rewrite Forall_app, Forall_cons in *. done.
    + rewrite Hcnt, !length_app. done.
    + rewrite Htot by lia. rewrite Ht, !pages_app, !pages_cons. lia.
  - intros a. rewrite Hmt, Hm, !view_app, !view_cons.
    rewrite <- Hend in Hcan. unfold covers. cbn [v' set_softdirty set_flags set_end set_range vm_start vm_end].
    destruct (decide (vm_start v <= a < addr + len)) as [Hin|Hout].
    + rewrite view_none; cycle 1.
      { intros x Hx. assert (before x v) by (apply (Hlv x v Hx); set_solver).
        unfold before, covers in *. lia. }
      unfold v'. rewrite (extended_page e v flags (addr + len) a Hcan Hv); [|destruct Hv; lia|done].
      repeat destruct (decide _); try lia; done.
    + destruct Hv. repeat destruct (decide _); try lia; done.
  - apply Htot. lia.
  - by rewrite shift_page.
  - done.
  - done.
Qed.

Lemma uncharge_id n m : vm_unacct_memory n (set_committed (committed m + n) m) = m.
Proof. destruct m. unfold vm_unacct_memory, set_committed. cbn. f_equal. lia. Qed.

(** The flags of the heap. *)
Definition heap_flags (flags : Z) m : Z :=
  Z.lor flags (Z.lor (Z.lor (VM_DATA_DEFAULT_FLAGS e) VM_ACCOUNT) (def_flags m)).

(** Either nothing changes (the charge is returned) or the heap grows. *)
Lemma do_brk_flags_spec v addr len flags m l k :
  mm_wf m -> gap_at addr len l k m ->
  (forall w, v = Some w -> exists l0, l = l0 ++ [w]) ->
  let '(r, m') := do_brk_flags e v addr len flags m in
  (r = - ENOMEM /\ m' = m) \/
  (r = 0 /\ may_expand_vm (vm e) m (heap_flags flags m) (len / PAGE_SIZE) = true /\
   grown addr len (heap_flags flags m) m m').
Proof.
  intros Hwf Hgap Hprev. unfold do_brk_flags. fold (heap_flags flags m).
  rewrite shift_page. destruct (may_expand_vm _ _ _ _); [|by left]. cbn [negb].
  destruct (_ <? map_count m); [by left|].
  unfold vm_enough_memory. destruct (enough_memory (vm e) _); [|by left]. cbn [negb].
  assert (Hsum : addr +u len = addr + len).
  { apply u64_small. destruct Hgap. unfold TASK_SIZE, PAGE_SIZE in *. lia. }
  rewrite Hsum, !shift_page.
  destruct (match v with Some _ => _ | None => _ end) as [w|] eqn:Hmerge.
  - destruct v as [w'|]; [|done]. destruct (_ && _) eqn:Hcond; [|done]. injection Hmerge as ->.
    split_bools. destruct (negb _); [left; by rewrite uncharge_id|]. right.
    split; [done|]. split; [done|]. destruct (Hprev w eq_refl) as [l0 ->].
    pose proof (grow_extend addr len (heap_flags flags m) l0 w k m Hwf Hgap) as Hg.
    cbv zeta in Hg. rewrite shift_page in Hg. apply Hg; [by apply Z.eqb_eq|done].
  - destruct (negb (vm_area_alloc_ok e)); [left; by rewrite uncharge_id|].
    destruct (negb _); [left; by rewrite uncharge_id|]. right. split; [done|]. split; [done|].
    rewrite <- (shift_page len). apply (grow_fresh addr len (heap_flags flags m) l k m); try done.
    intros a Ha. unfold page_of, heap_page. cbn. rewrite ldiff_lor_same. f_equal.
    destruct Hgap as [_ _ _ [? ?] _ ?]. unfold TASK_SIZE, PAGE_SIZE in *.
    rewrite u64_small; Z.to_euclidean_division_equations; lia.
Qed.

(** ** The surroundings brk relies on *)

Definition errno (x : Z) : Prop := - MAX_ERRNO <= x <= 0.

(** Documented behaviour of the functions brk calls: error codes are error codes, a fixed
    request is granted at its address or refused, and the guard gap lies below an area. *)
Record brk_env_ok : Prop := {
  bo_arch a len fl : errno (arch_mmap_check e a len fl);
  bo_security a : errno (security_mmap_addr e a);
  bo_fixed a len :
    let r := get_area e None MAP_FIXED None a len 0 MAP_FIXED in
    r = a \/ (IS_ERR_VALUE r = true /\ r < 2 ^ 64);
  bo_gap v : vm_start_gap e v <= vm_start v;
  bo_guard : 0 <= stack_guard_gap e < 2 ^ 62
}.

Lemma err_value x : errno x -> u64 x <> 0 -> IS_ERR_VALUE (u64 x) = true.
Proof. unfold errno, IS_ERR_VALUE, MAX_ERRNO. intros Hx Hne. word_lia. Qed.

Lemma err_ENOMEM : IS_ERR_VALUE (u64 (- ENOMEM)) = true.
Proof. done. Qed.
Lemma err_EINVAL : IS_ERR_VALUE (u64 (- EINVAL)) = true.
Proof. done. Qed.

(** A fixed request is refused with an error value, or fits below [TASK_SIZE]. *)
Lemma get_unmapped_fixed (Hok : brk_env_ok) addr len :
  0 <= addr < 2 ^ 63 -> 0 <= len < 2 ^ 64 ->
  let r := get_unmapped_area e None addr len 0 MAP_FIXED in
  (IS_ERR_VALUE r = true /\ r < 2 ^ 64) \/ (r = addr /\ addr + len <= TASK_SIZE).
Proof.
  intros Ha Hlen. cbv zeta. unfold get_unmapped_area.
  destruct (Z.eqb_spec (u64 (arch_mmap_check e addr len MAP_FIXED)) 0); cbn [negb]; cycle 1.
  { left. split; [apply err_value; [apply Hok|done]|apply u64_range]. }
  destruct (Z.ltb_spec TASK_SIZE len) as [|Hts]; [left; split; [apply err_ENOMEM|apply u64_range]|].
  destruct (bo_fixed Hok addr len) as [Hf|[Hf Hf']]; cbv zeta in *; cycle 1.
  { rewrite Hf. by left. }
  rewrite Hf. destruct (IS_ERR_VALUE addr) eqn:He; [left; split; [done|lia]|].
  assert (TASK_SIZE -u len = TASK_SIZE - len) as ->
    by (unfold TASK_SIZE, PAGE_SIZE in *; apply u64_small; lia).
  destruct (Z.ltb_spec (TASK_SIZE - len) addr); [left; split; [apply err_ENOMEM|apply u64_range]|].
  destruct (negb _); [left; split; [apply err_EINVAL|apply u64_range]|].
  destruct (Z.eqb_spec (u64 (security_mmap_addr e addr)) 0); cbn [negb]; [right; lia|].
  left. split; [apply err_value; [apply Hok|done]|apply u64_range].
Qed.

Lemma check_brk_limits_ok (Hok : brk_env_ok) addr len m :
  0 <= addr < 2 ^ 63 -> 0 <= len < 2 ^ 64 -> check_brk_limits e addr len m = 0 ->
  addr + len <= TASK_SIZE.
Proof.
  intros Ha Hlen. unfold check_brk_limits.
  destruct (get_unmapped_fixed Hok addr len Ha Hlen) as [[He Hr]|[_ Hr]]; cbv zeta in *; [|done].
  rewrite He. intros Hz. exfalso. revert He Hr Hz. generalize (get_unmapped_area e None addr len 0 MAP_FIXED).
  unfold IS_ERR_VALUE, MAX_ERRNO. intros r. word_lia.
Qed.

(** ** brk *)

Context {G : Type} `{MemGate G} (g : G) (pid : Z).

Definition min_brk m : Z := if min_brk_is_end_data e then end_data m else start_brk m.

Record brk_wf m : Prop := {
  bw_mm : mm_wf m;
  bw_min : 0 < min_brk m;
  bw_brk : 0 < brk m <= TASK_SIZE
}.

(** The call refused the request: the process sees what it saw. *)
Record brk_refused m m' : Prop := {
  rf_wf : mm_wf m';
  rf_brk : brk m' = brk m;
  rf_lock : mmap_lock m' = Unlocked;
  rf_pages : same_pages (areas m) (areas m');
  rf_ctr : ctr m' = ctr m;
  rf_committed : committed m' = committed m;
  rf_min : min_brk m' = min_brk m
}.

(** The break moved to [b]. *)
Record brk_moved (b : Z) m m' : Prop := {
  mv_gate : gate_accepts g pid (total_vm (ctr m)) (PAGE_ALIGN b -u PAGE_ALIGN (brk m)) = true;
  mv_wf : mm_wf m';
  mv_brk : brk m' = b /\ 0 < b <= TASK_SIZE;
  mv_lock : mmap_lock m' = Unlocked;
  mv_view a : view (areas m') a =
    if decide (PAGE_ALIGN b <= a < PAGE_ALIGN (brk m)) then None
    else if decide (PAGE_ALIGN (brk m) <= a < PAGE_ALIGN b)
         then Some (heap_page (heap_flags 0 m) a)
    else view (areas m) a;
  mv_total :
    if PAGE_ALIGN (brk m) <? PAGE_ALIGN b
    then total_vm (ctr m') = total_vm (ctr m) + (PAGE_ALIGN b - PAGE_ALIGN (brk m)) / PAGE_SIZE
    else total_vm (ctr m') <= total_vm (ctr m);
  mv_min : min_brk m' = min_brk m
}.

Lemma out_refused m m1 :
  mm_wf m -> resplit (set_lock WriteLocked m) m1 \/ resplit (set_brk (brk m1) (set_lock WriteLocked m)) m1 ->
  brk_refused m (snd (brk_out (brk m) m1)).
Proof.
  intros Hwf Hrs.
  assert (mm_wf m1 /\ ctr m1 = ctr m /\ committed m1 = committed m /\ same_pages (areas m) (areas m1)
          /\ start_brk m1 = start_brk m /\ end_data m1 = end_data m) as (Hw & Hc & Hcm & Hp & Hsb & Hed).
  { by destruct Hrs as [[? [] ? ?]|[? [] ? ?]]. }
  constructor; cbn; try done; [by destruct Hw|]. unfold min_brk. cbn. by rewrite Hsb, Hed.
Qed.

Lemma refused_now m : mm_wf m -> brk_refused m (snd (brk_out (brk m) (set_lock WriteLocked m))).
Proof. intros Hwf. apply out_refused; [done|]. left. by apply resplit_refl, mm_wf_lock. Qed.

Lemma align_le x y : 0 <= x <= y -> y <= TASK_SIZE -> PAGE_ALIGN x <= PAGE_ALIGN y <= TASK_SIZE.
Proof.
  intros Hx Hy. unfold TASK_SIZE in *.
  rewrite !PAGE_ALIGN_eq by (unfold PAGE_SIZE in *; lia).
  unfold PAGE_SIZE in *. Z.to_euclidean_division_equations; lia.
Qed.

(** Shrinking. *)
Lemma brk_shrink_spec b m v :
  brk_wf m -> 0 < b <= brk m -> PAGE_ALIGN b <> PAGE_ALIGN (brk m) ->
  gate_accepts g pid (total_vm (ctr m)) (PAGE_ALIGN b -u PAGE_ALIGN (brk m)) = true ->
  first_area (PAGE_ALIGN b) (PAGE_ALIGN (brk m) - 1) (areas m) = Some v ->
  exists r m1,
    do_vma_munmap (vm e) (munmap_fuel m) v (PAGE_ALIGN b) (PAGE_ALIGN (brk m)) true
      (set_brk b (set_lock WriteLocked m)) = Some (r, m1) /\
    ((r <> 0 /\ brk_refused m (snd (brk_out (brk m) m1))) \/ (r = 0 /\ brk_moved b m m1)).
Proof.
  intros [Hwf Hmin Hbrk] Hb Hne Hgate Hfind.
  pose proof (align_le b (brk m) ltac:(lia) ltac:(lia)) as [Hle Htop].
  assert (0 <= PAGE_ALIGN b) by apply PAGE_ALIGN_is_u64.
  pose proof (find_first (PAGE_ALIGN b) (PAGE_ALIGN (brk m) - 1) _ (wf_areas m Hwf)) as Hff.
  rewrite Hfind in Hff. destruct Hff as (l & k & Hm & Hl & Hv1 & Hv2).
  assert (Hwf' : mm_wf (set_brk b (set_lock WriteLocked m))) by (by destruct Hwf).
  destruct (align_munmap_spec (vm e) (munmap_fuel m) v (PAGE_ALIGN b) (PAGE_ALIGN (brk m)) true
    (set_brk b (set_lock WriteLocked m)) l k) as (r & m1 & Hrun & Hres);
    [done|done|done|apply PAGE_ALIGN_aligned|apply PAGE_ALIGN_aligned|lia|done|done|lia| |].
  { unfold munmap_fuel. rewrite Hm, length_app. cbn. lia. }
  exists r, m1. split; [done|]. destruct Hres as [[Hr Hrs]|[-> Hum]].
  - left. split; [done|]. apply out_refused; [done|]. right.
    by replace (brk m1) with b by (symmetry; apply (fr_brk _ _ (rs_frame _ _ Hrs))).
  - right. split; [done|]. destruct Hum as [Hw Hv _ Hless (Hb1 & Hsb & Hed & _) Hlk].
    constructor; try done.
    + cbn in Hb1. rewrite Hb1. unfold TASK_SIZE in *. lia.
    + intros a. rewrite Hv. destruct (decide (PAGE_ALIGN b <= a < PAGE_ALIGN (brk m))); [done|].
      by rewrite decide_False by lia.
    + by rewrite (proj2 (Z.ltb_ge _ _)) by lia.
    + unfold min_brk. by rewrite Hsb, Hed.
Qed.

(** The heap below a break that may grow: nothing lies in the way. *)
Lemma brk_gap (Hok : brk_env_ok) oldbrk newbrk m :
  mm_wf m -> 0 <= oldbrk < newbrk -> newbrk <= TASK_SIZE ->
  oldbrk mod PAGE_SIZE = 0 -> newbrk mod PAGE_SIZE = 0 ->
  match mt_find (mm_mt m) oldbrk (newbrk +u PAGE_SIZE +u stack_guard_gap e -u 1) with
  | Some next => vm_start_gap e next <? newbrk +u PAGE_SIZE
  | None => false
  end = false ->
  exists l k, gap_at oldbrk (newbrk - oldbrk) l k m /\
    (forall w, vma_prev_limit m oldbrk (start_brk m) = Some w -> exists l0, l = l0 ++ [w]).
Proof.
  intros Hwf Hr Htop Ho Hn. pose proof (bo_guard Hok) as Hg. unfold TASK_SIZE in Htop.
  rewrite mt_find_spec.
  assert (newbrk +u PAGE_SIZE = newbrk + PAGE_SIZE) as -> by (apply u64_small; unfold PAGE_SIZE in *; lia).
  rewrite (u64_small (newbrk + PAGE_SIZE + _)), (u64_small (_ - 1)) by (unfold PAGE_SIZE in *; lia).
  set (hi := newbrk + PAGE_SIZE + stack_guard_gap e - 1).
  pose proof (find_first oldbrk hi _ (wf_areas m Hwf)) as Hff. intros Hclear.
  destruct (split_at oldbrk newbrk (areas m) (wf_areas m Hwf)) as (l & mid & k & Hm & Hl & Hmid & Hk & Hk'); [lia|].
  assert (mid = []) as ->.
  { destruct mid as [|x mid]; [done|]. exfalso. apply Forall_cons in Hmid as [[Hx1 Hx2] _].
    destruct (first_area oldbrk hi (areas m)) as [v|].
    - destruct Hff as (a & c & Hac & Ha & Hv1 & _). apply Z.ltb_ge in Hclear.
      pose proof (bo_gap Hok v). assert (Hvx : vm_start v <= vm_start x); [|unfold PAGE_SIZE in *; lia].
      pose proof (wf_areas m Hwf) as Hao. rewrite Hac in Hao.
      apply areas_ok_app in Hao as (_ & (Hvok & _ & Hb)%areas_ok_cons & _).
      assert (Hin : x ∈ a ++ v :: c) by (rewrite <- Hac, Hm; set_solver).
      apply elem_of_app in Hin as [Hin|[->|Hin]%elem_of_cons]; [|done|].
      + rewrite Forall_forall in Ha. specialize (Ha x Hin). cbn in Ha. lia.
      + specialize (Hb x Hin). unfold before in Hb. destruct Hvok. lia.
    - assert (Hin : x ∈ areas m) by (rewrite Hm; set_solver). specialize (Hff x Hin).
      subst hi. unfold PAGE_SIZE in *. lia. }
  cbn in Hm. exists l, k. split.
  - constructor; try done; try lia.
    + eapply Forall_impl; [done|]. cbn. intros; lia.
    + split; [lia|]. unfold PAGE_SIZE in *. Z.to_euclidean_division_equations; lia.
    + unfold TASK_SIZE. lia.
  - intros w. unfold vma_prev_limit. rewrite mas_prev_spec. unfold last_area.
    assert (Hkn : Forall (fun x => ~ vm_end x <= oldbrk) k)
      by (apply Forall_forall; intros x Hx; specialize (Hk' x Hx); lia).
    rewrite Hm, filter_app, (filter_all _ l Hl), (filter_none _ k Hkn), app_nil_r.
    destruct (last l) as [w'|] eqn:Hlast; [|done]. destruct (_ <? _); [|done].
    intros [= ->]. apply last_Some in Hlast as [l0 ->]. by exists l0.
Qed.

(** A break that wraps to page 0 or beyond the address space cannot be reached. *)
Lemma align_reach b m :
  brk_wf m -> is_u64 b -> brk m < b ->
  PAGE_ALIGN (brk m) + (PAGE_ALIGN b -u PAGE_ALIGN (brk m)) <= TASK_SIZE ->
  b <= TASK_SIZE /\ PAGE_ALIGN (brk m) <= PAGE_ALIGN b <= TASK_SIZE /\
  PAGE_ALIGN b -u PAGE_ALIGN (brk m) = PAGE_ALIGN b - PAGE_ALIGN (brk m).
Proof.
  intros [_ _ Hb0] Hb Hlt Hreach. unfold is_u64 in Hb.
  destruct (PAGE_ALIGN_bounds (brk m)) as [Hold _]; [unfold TASK_SIZE, PAGE_SIZE in *; lia|].
  destruct (Z.le_gt_cases b (2 ^ 64 - PAGE_SIZE)) as [Hs|Hbig].
  - destruct (PAGE_ALIGN_bounds b) as [Hnew _]; [lia|].
    assert (Hmono : PAGE_ALIGN (brk m) <= PAGE_ALIGN b).
    { rewrite !PAGE_ALIGN_eq by (unfold TASK_SIZE, PAGE_SIZE in *; lia).
      unfold PAGE_SIZE in *. Z.to_euclidean_division_equations; lia. }
    pose proof (PAGE_ALIGN_is_u64 b) as [_ Hu]. pose proof (PAGE_ALIGN_is_u64 (brk m)) as [Hu' _].
    rewrite u64_small in * by lia. lia.
  - exfalso. revert Hreach. rewrite (PAGE_ALIGN_wraps b) by lia.
    unfold TASK_SIZE, PAGE_SIZE in *. rewrite u64_neg by lia. lia.
Qed.

(** Growing. *)
Lemma brk_grow_spec (Hok : brk_env_ok) b m :
  let m0 := set_lock WriteLocked m in
  let newbrk := PAGE_ALIGN b in
  let oldbrk := PAGE_ALIGN (brk m) in
  brk_wf m -> is_u64 b -> brk m < b -> oldbrk <> newbrk ->
  gate_accepts g pid (total_vm (ctr m)) (newbrk -u oldbrk) = true ->
  check_brk_limits e oldbrk (newbrk -u oldbrk) m0 = 0 ->
  match mt_find (mm_mt m0) oldbrk (newbrk +u PAGE_SIZE +u stack_guard_gap e -u 1) with
  | Some next => vm_start_gap e next <? newbrk +u PAGE_SIZE
  | None => false
  end = false ->
  let '(r, m1) := do_brk_flags e (vma_prev_limit m0 oldbrk (start_brk m0)) oldbrk (newbrk -u oldbrk) 0 m0 in
  (r < 0 /\ brk_refused m (snd (brk_out (brk m) m1))) \/
  (r = 0 /\ brk_moved b m (set_lock Unlocked (set_brk b m1))).
Proof.
  cbv zeta. intros Hwf Hu Hlt Hne Hgate Hlim Hnext. pose proof Hwf as [Hmm Hmin Hb0].
  pose proof (mm_wf_lock WriteLocked m Hmm) as Hmm'.
  assert (Hold : 0 <= PAGE_ALIGN (brk m) < 2 ^ 63).
  { destruct (PAGE_ALIGN_bounds (brk m)) as [Hold _]; unfold TASK_SIZE, PAGE_SIZE in *; lia. }
  apply (check_brk_limits_ok Hok) in Hlim; [|done|apply u64_range].
  destruct (align_reach b m Hwf Hu Hlt Hlim) as (Hbt & Hrange & Hlen). rewrite Hlen.
  destruct (brk_gap Hok (PAGE_ALIGN (brk m)) (PAGE_ALIGN b) (set_lock WriteLocked m))
    as (l & k & Hgap & Hprev); [done|lia|lia|apply PAGE_ALIGN_aligned..|done|].
  pose proof (do_brk_flags_spec _ _ _ 0 _ _ _ Hmm' Hgap Hprev) as Hspec.
  destruct (do_brk_flags _ _ _ _ _ _) as [r m1].
  destruct Hspec as [[-> ->]|(-> & _ & Hgr)]; [left|right].
  - split; [done|]. by apply refused_now.
  - split; [done|]. destruct Hgr as [Hw Hv Ht Hc (Hb1 & Hsb & Hed & _) Hlk].
    constructor; cbn; try done.
    + by destruct Hw.
    + split; [done|]. unfold TASK_SIZE in *. lia.
    + intros a. rewrite Hv. rewrite (decide_False (P := PAGE_ALIGN b <= a < PAGE_ALIGN (brk m))) by lia.
      rewrite Zplus_minus. done.
    + by rewrite (proj2 (Z.ltb_lt _ _)) by lia.
    + unfold min_brk. cbn. by rewrite Hsb, Hed.
Qed.

Lemma align_same b m :
  brk_wf m -> is_u64 b -> PAGE_ALIGN (brk m) = PAGE_ALIGN b -> b <= TASK_SIZE.
Proof.
  intros [_ _ Hb0] Hb Heq. unfold is_u64 in Hb.
  destruct (PAGE_ALIGN_bounds (brk m)) as [Hold _]; [unfold TASK_SIZE, PAGE_SIZE in *; lia|].
  pose proof (align_le (brk m) (brk m) ltac:(lia) ltac:(lia)) as [_ Htop].
  destruct (Z.le_gt_cases b (2 ^ 64 - PAGE_SIZE)) as [Hs|Hbig].
  - destruct (PAGE_ALIGN_bounds b) as [Hnew _]; lia.
  - rewrite (PAGE_ALIGN_wraps b) in Heq by lia. lia.
Qed.

Lemma sys_brk_outcome (Hok : brk_env_ok) b m :
  brk_wf m -> is_u64 b -> lock_killed (vm e) = false ->
  exists r m', sys_brk e g pid (munmap_fuel m) b m = Some (r, m') /\
    ((r = brk m /\ brk_refused m m') \/ (r = b /\ brk_moved b m m')).
Proof.
  intros Hwf Hb Hkill. pose proof Hwf as [Hmm Hmin Hb0]. unfold sys_brk. rewrite Hkill.
  assert (Hout : forall m1, brk_refused m (snd (brk_out (brk m) m1)) ->
    exists r m', Some (brk_out (brk m) m1) = Some (r, m') /\
      ((r = brk m /\ brk_refused m m') \/ (r = b /\ brk_moved b m m'))).
  { intros m1 Hr. eexists _, _. split; [done|]. by left. }
  cbv zeta. cbn [brk ctr set_lock start_brk end_data start_data mm_mt].
  fold (min_brk m). destruct (Z.ltb_spec b (min_brk m)); [by apply Hout, refused_now|].
  destruct (negb _); [by apply Hout, refused_now|].
  destruct (gate_accepts g pid _ _) eqn:Hgate; cbn [negb]; [|by apply Hout, refused_now].
  destruct (Z.eqb_spec (PAGE_ALIGN (brk m)) (PAGE_ALIGN b)) as [Heq|Hne].
  { eexists _, _. split; [done|]. right. split; [done|].
    constructor; cbn; try done; [by destruct Hmm| | |].
    - split; [done|]. split; [lia|]. by apply (align_same b m).
    - intros a. rewrite Heq. by rewrite !decide_False by lia.
    - by rewrite Heq, Z.ltb_irrefl. }
  destruct (Z.leb_spec b (brk m)) as [Hle|Hgt].
  - rewrite mt_find_spec. destruct (first_area _ _ _) as [v|] eqn:Hff; [|by apply Hout, refused_now].
    destruct (_ <=? vm_start v); [by apply Hout, refused_now|].
    assert (0 < PAGE_ALIGN (brk m) < 2 ^ 64).
    { destruct (PAGE_ALIGN_bounds (brk m)) as [Hold _]; unfold TASK_SIZE, PAGE_SIZE in *; lia. }
    rewrite u64_small in Hff by lia.
    destruct (brk_shrink_spec b m v Hwf) as (r & m1 & -> & Hres); [lia|done|done|done|].
    destruct Hres as [[Hr Href]|[-> Hmv]].
    + rewrite (proj2 (Z.eqb_neq r 0)) by done. by apply Hout.
    + change (negb (0 =? 0)) with false. cbv iota. eexists _, _. split; [done|]. by right.
  - destruct (Z.eqb_spec (check_brk_limits e (PAGE_ALIGN (brk m)) (PAGE_ALIGN b -u PAGE_ALIGN (brk m))
      (set_lock WriteLocked m)) 0) as [Hlim|]; cbn [negb]; [|by apply Hout, refused_now].
    destruct (match mt_find _ _ _ with Some _ => _ | None => _ end) eqn:Hnext;
      [by apply Hout, refused_now|].
    pose proof (brk_grow_spec Hok b m Hwf Hb Hgt Hne Hgate Hlim Hnext) as Hspec. cbv zeta in Hspec.
    cbn [start_brk set_lock] in Hspec.
    destruct (do_brk_flags _ _ _ _ _ _) as [r m1]. destruct Hspec as [[Hr Href]|[-> Hmv]].
    + rewrite (proj2 (Z.ltb_lt r 0)) by done. by apply Hout.
    + eexists _, _. split; [done|]. by right.
Qed.

(** A call that moved the break up leaves the process within its limit. *)
Lemma moved_within_limit b m m' limit :
  brk_wf m -> brk_moved b m m' -> gate_limit g pid = Some limit ->
  PAGE_ALIGN (brk m) < PAGE_ALIGN b -> total_vm (ctr m') * PAGE_SIZE <= limit.
Proof.
  intros [Hmm _ Hb0] [Hgate Hw [Hb Hbt] _ _ Ht _] Hlim Hup.
  rewrite (proj2 (Z.ltb_lt _ _)) in Ht by done. rewrite Ht.
  pose proof (pages_range _ (wf_areas m Hmm)) as Hp. rewrite <- (wf_total m Hmm) in Hp.
  assert (Hbr : PAGE_ALIGN b <= TASK_SIZE) by (apply (align_le b b); lia).
  pose proof (PAGE_ALIGN_is_u64 (brk m)) as [Hu _].
  pose proof (PAGE_ALIGN_aligned b) as Ha1. pose proof (PAGE_ALIGN_aligned (brk m)) as Ha2.
  rewrite u64_small in Hgate by (unfold TASK_SIZE, PAGE_SIZE in *; lia).
  pose proof (gate_within g pid _ _ limit Hlim Hgate) as Hwithin.
  unfold TASK_SIZE, PAGE_SIZE in *. Z.to_euclidean_division_equations; lia.
Qed.

End spec.

(** A sequence of calls; each gets the fuel its address space needs. *)
Fixpoint run_brks {T} `{VmaTree T} {G} `{MemGate G} (e : brk_env) (g : G) (pid : Z) (bs : list Z)
    (m : mm_struct T) : option (mm_struct T) :=
  match bs with
  | [] => Some m
  | b :: bs' =>
      match sys_brk e g pid (munmap_fuel m) b m with
      | Some (_, m') => run_brks e g pid bs' m'
      | None => None
      end
  end.

Section history.
Context {T : Type} `{VmaTree T} (e : brk_env) {G : Type} `{MemGate G} (g : G) (pid : Z).

Lemma refused_brk_wf (m m' : mm_struct T) : brk_wf e m -> brk_refused e m m' -> brk_wf e m'.
Proof. intros [] []. constructor; [done|congruence|congruence]. Qed.

Lemma moved_brk_wf b (m m' : mm_struct T) : brk_wf e m -> brk_moved e g pid b m m' -> brk_wf e m'.
Proof. intros [] [? ? [? ?]]. constructor; [done|congruence|congruence]. Qed.

Lemma outcome_within limit b r (m m' : mm_struct T) :
  brk_wf e m -> gate_limit g pid = Some limit -> total_vm (ctr m) * PAGE_SIZE <= limit ->
  (r = brk m /\ brk_refused e m m') \/ (r = b /\ brk_moved e g pid b m m') ->
  brk_wf e m' /\ total_vm (ctr m') * PAGE_SIZE <= limit.
Proof.
  intros Hwf Hlim Hin [[_ Hrf]|[_ Hmv]].
  - split; [by eapply refused_brk_wf|]. by rewrite (rf_ctr _ _ _ Hrf).
  - split; [by eapply moved_brk_wf|].
    destruct (Z.lt_ge_cases (PAGE_ALIGN (brk m)) (PAGE_ALIGN b)) as [Hup|Hdown].
    + by eapply moved_within_limit.
    + pose proof (mv_total _ _ _ _ _ _ Hmv) as Ht. rewrite (proj2 (Z.ltb_ge _ _)) in Ht by done.
      unfold PAGE_SIZE in *. lia.
Qed.
End history.

Section claims.
Context {T : Type} `{VmaTree T} {G : Type} `{MemGate G}.

(** C3.  [brk] returns on every request to a well-formed address space, with the lock
    released and the invariant restored, and returns the break now in force.  Either the
    request was refused and the process sees the same pages, counters and charge; or the
    limiter accepted it, the break is the requested one, the pages between the two breaks
    are exactly gone or freshly mapped, and [total_vm] moved by their number. *)
Theorem brk_correct (e : brk_env) (g : G) pid b (m : mm_struct T) :
  brk_env_ok e -> brk_wf e m -> is_u64 b -> lock_killed (vm e) = false ->
  exists r m', sys_brk e g pid (munmap_fuel m) b m = Some (r, m') /\
    ((r = brk m /\ brk_refused e m m') \/ (r = b /\ brk_moved e g pid b m m')).
Proof. intros. by apply sys_brk_outcome. Qed.

(** C1.  The limit of Proyecto3 holds across any sequence of [brk] calls: a process within
    its limit stays within it, whatever breaks it asks for, and every call returns. *)
Theorem brk_history_within_limit (e : brk_env) (g : G) pid limit bs (m : mm_struct T) :
  brk_env_ok e -> brk_wf e m -> lock_killed (vm e) = false -> Forall is_u64 bs ->
  gate_limit g pid = Some limit -> total_vm (ctr m) * PAGE_SIZE <= limit ->
  exists m', run_brks e g pid bs m = Some m' /\ brk_wf e m' /\
    total_vm (ctr m') * PAGE_SIZE <= limit.
Proof.
  intros Hok Hwf Hkill Hbs Hlim Hin. revert m Hwf Hin.
  induction Hbs as [|b bs Hb _ IH]; intros m Hwf Hin; cbn [run_brks]; [by exists m|].
  destruct (sys_brk_outcome e g pid Hok b m) as (r & m1 & -> & Hout); [done..|].
  destruct (outcome_within e g pid limit b r m m1) as [Hwf1 Hin1]; [done..|]. by apply IH.
Qed.

(** C7.  Shrinking is not always allowed: a process that would still be above its limit
    after giving memory back is refused, because the wrapped difference of the breaks
    goes through the admission test before the branch that frees memory. *)
Theorem brk_shrink_refused (e : brk_env) (g : G) pid fuel b limit (m : mm_struct T) :
  lock_killed (vm e) = false -> mm_wf m ->
  0 < b <= brk m -> brk m <= TASK_SIZE -> gate_limit g pid = Some limit ->
  let freed := PAGE_ALIGN (brk m) - PAGE_ALIGN b in
  0 < freed <= total_vm (ctr m) * PAGE_SIZE -> limit < total_vm (ctr m) * PAGE_SIZE - freed ->
  sys_brk e g pid fuel b m = Some (brk m, set_lock Unlocked (set_brk (brk m) m)).
Proof.
  cbv zeta. intros Hkill Hwf Hb Htop Hlim Hfreed Hover. unfold sys_brk. rewrite Hkill.
  cbv zeta. cbn [brk ctr set_lock start_brk end_data start_data mm_mt].
  assert (gate_accepts g pid (total_vm (ctr m)) (PAGE_ALIGN b -u PAGE_ALIGN (brk m)) = false) as ->.
  { destruct (gate_accepts _ _ _ _) eqn:Ha; [|done].
    pose proof (gate_enforces _ _ _ _ _ Hlim Ha) as Hle. exfalso.
    pose proof (pages_range _ (wf_areas m Hwf)) as Hp. rewrite <- (wf_total m Hwf) in Hp.
    unfold PAGE_SHIFT in Hle. rewrite Z.shiftl_mul_pow2, u64_add_r in Hle by lia.
    unfold PAGE_SIZE in *. rewrite (u64_small (_ * 2 ^ 12)), u64_small in Hle by lia. lia. }
  cbn [negb]. destruct (_ <? _); [done|]. by destruct (negb _).
Qed.

End claims.

(** *** A limited process with a nine-page heap *)

Definition brk_env0 : brk_env := {|
  vm := MmSpec.env0; arch_mmap_check := fun _ _ _ => 0;
  mm_get_unmapped_area := fun _ a _ _ _ => a; file_get_unmapped_area := fun _ => None;
  shmem_get_unmapped_area := fun _ a _ _ _ => a; thp_get_unmapped_area := None;
  security_mmap_addr := fun _ => 0; vm_start_gap := vm_start; stack_guard_gap := 1048576;
  ops_close := fun _ => false; check_data_rlimit := fun _ _ _ _ _ => 0;
  min_brk_is_end_data := false; vm_area_alloc_ok := true; iter_store_ok := fun _ => true;
  VM_DATA_DEFAULT_FLAGS := 0x73 |}.

Lemma brk_env0_ok : brk_env_ok brk_env0.
Proof. constructor; cbn; intros; try done. by left. Qed.

Definition heap_mm (brk0 : Z) : mm_struct (list vma) :=
  MmStruct [anon_area 1 65536 102400 0x100073] 1 (Counters 9 0 9 0 0)
    brk0 65536 0 0 0 8388608 Unlocked 9 2.

Lemma heap_mm_wf brk0 : 0 < brk0 <= TASK_SIZE -> brk_wf brk_env0 (heap_mm brk0).
Proof.
  intros Hb. constructor; [|done|done]. constructor; cbn; try done.
  - split; repeat constructor; by compute.
  - apply NoDup_singleton.
  - repeat constructor.
Qed.

#[local] Existing Instance LimitSpec.limiter_gate.

(** Process 7 is limited to 50000 bytes. *)
Definition limited : LimitSpec.limiter := LimitSpec.Limiter LimitSpec.listed57 LimitSpec.listed57_wf (fun _ => LimitSpec.Self).

Lemma brk_correct_witness :
  exists r m', sys_brk brk_env0 limited 7 (munmap_fuel (heap_mm 102400)) 110000 (heap_mm 102400)
      = Some (r, m') /\
    ((r = 102400 /\ brk_refused brk_env0 (heap_mm 102400) m') \/
     (r = 110000 /\ brk_moved brk_env0 limited 7 110000 (heap_mm 102400) m')).
Proof.
  apply (brk_correct brk_env0 limited 7 110000 (heap_mm 102400) brk_env0_ok);
    [by apply heap_mm_wf|done|done].
Defined.

Lemma brk_history_within_limit_witness :
  exists m', run_brks brk_env0 limited 7 [110000; 200000; 90000; 2 ^ 64 - 1] (heap_mm 102400) = Some m' /\
    brk_wf brk_env0 m' /\ total_vm (ctr m') * PAGE_SIZE <= 50000.
Proof.
  apply (brk_history_within_limit brk_env0 limited 7 50000 _ (heap_mm 102400) brk_env0_ok);
    [by apply heap_mm_wf|done| |done|done].
  repeat constructor; done.
Defined.

Definition crowded : mm_struct (list vma) :=
  MmStruct [anon_area 1 65536 131072 0x100073] 1 (Counters 16 0 16 0 0)
    131072 65536 0 0 0 8388608 Unlocked 16 2.

Lemma crowded_wf : mm_wf crowded.
Proof.
  constructor; cbn; try done.
  - split; repeat constructor; by compute.
  - apply NoDup_singleton.
  - repeat constructor.
Qed.

Lemma brk_shrink_refused_witness :
  sys_brk brk_env0 limited 7 5 126976 crowded = Some (131072, set_lock Unlocked (set_brk 131072 crowded)).
Proof.
  apply (brk_shrink_refused brk_env0 limited 7 5 126976 50000 crowded); try done; try exact crowded_wf.
Defined.

End BrkSpec.
