(* ===== verification/Mmap.v ===== *)
(** * Mapping memory ([mm/mmap.c])

    [vma_expand], [vma_merge], [mmap_region], [do_mmap] and the entry point
    [ksys_mmap_pgoff] with the limiter's hook.  Files are identified by a number; what
    the code asks of a file, of its driver and of the rest of the kernel is in
    [map_env].  File reference counts, write-denial counts and reverse maps are not part
    of the state. *)
From S2P Require Import Prelude Gate Vma Mm Brk.

Module Mmap.
Import Mm Brk.

Definition PROT_READ : Z := 1.
Definition PROT_WRITE : Z := 2.
Definition PROT_EXEC : Z := 4.
Definition MAP_PRIVATE : Z := 2.
Definition MAP_SHARED_VALIDATE : Z := 3.
Definition MAP_TYPE : Z := 0xf.
Definition MAP_ANONYMOUS : Z := 0x20.
Definition MAP_LOCKED : Z := 0x2000.
Definition MAP_NORESERVE : Z := 0x4000.
Definition MAP_POPULATE : Z := 0x8000.
Definition MAP_NONBLOCK : Z := 0x10000.
Definition MAP_HUGETLB : Z := 0x40000.
Definition MAP_FIXED_NOREPLACE : Z := 0x100000.
Definition VM_GROWS : Z := VM_GROWSDOWN.    (* VM_GROWSUP is 0 on this architecture *)

(** The kinds of inode [file_mmap_size_max] tells apart. *)
Inductive inode_kind := RegularFile | BlockDevice | Socket | OtherInode.

Record map_env := {
  be : brk_env;
  is_file_hugepages : Z -> bool;
  path_noexec : Z -> bool;
  fmode_read : Z -> bool; fmode_write : Z -> bool; fmode_unsigned_offset : Z -> bool;
  inode_of : Z -> inode_kind;
  is_append : Z -> bool; is_swapfile : Z -> bool;
  has_mmap : Z -> bool; mmap_supported_flags : Z -> Z;
  read_implies_exec : bool;              (* current->personality *)
  execute_only_pkey : Z;
  calc_vm_prot_bits : Z -> Z -> Z; calc_vm_flag_bits : Z -> Z;
  can_do_mlock : bool; overcommit_never : bool;
  mmap_min_addr : Z; LEGACY_MAP_MASK : Z; MAX_LFS_FILESIZE : Z;
  call_mmap : Z -> vma -> Z * vma;       (* the driver: error, and the area it leaves *)
  mapping_map_writable : Z -> Z;
  shmem_zero_setup : vma -> Z * vma;
  map_deny_write_exec : vma -> bool; arch_validate_flags : Z -> bool;
  never_mlocked : vma -> bool;           (* DAX, hugetlb or the gate area *)
  anon_clone : vma -> vma -> Z           (* anon_vma_clone(dst, src) *)
}.

Section ops.
Context {T : Type} `{VmaTree T} (e : map_env).
Implicit Types m : mm_struct T.
Let vme := vm (be e).

(** ** Expanding and merging *)

(** [dup_anon_vma]: the error, and the destination. *)
Definition dup_anon_vma (dst src : vma) : Z * vma :=
  match anon_vma src, anon_vma dst with
  | Some a, None =>
      let dst := set_anon_vma (Some a) dst in
      let ret := anon_clone e dst src in
      (ret, dst)
  | _, _ => (0, dst)
  end.

(** The result, the expanded area, and the address space. *)
Definition vma_expand (v : vma) (start end_ pgoff : Z) (next : option vma) m
    : Z * vma * mm_struct T :=
  let remove_next := match next with
                     | Some n => negb (vm_id v =? vm_id n) && (end_ =? vm_end n)
                     | None => false
                     end in
  let '(ret, v1) := match next with
                    | Some n => if remove_next then dup_anon_vma v n else (0, v)
                    | None => (0, v)
                    end in
  if negb (ret =? 0) then (ret, v, m)
  else if negb (iter_prealloc_ok vme v1) then (- ENOMEM, v, m)
  else
    let v' := set_range start end_ pgoff v1 in
    let t := mt_store v' (vma_write (vm_id v) (fun _ => v') (mm_mt m)) in
    (0, v', set_areas t (map_count m - (if remove_next then 1 else 0)) (next_id m) m).

(** What [vma_merge] decided: the area to give the range [lo, hi) and offset, the area
    whose start moves by [adj_start], the number of areas that disappear, the result. *)
Record merge_plan := {
  pl_vma : vma; pl_start : Z; pl_end : Z; pl_pgoff : Z;
  pl_adjust : option vma; pl_adj_start : Z; pl_removed : Z; pl_result_is_next : bool;
  pl_err : Z
}.

(** Both neighbours: cases 1 and 6 of the source. *)
Definition merge_both (p n : vma) (curr : option vma) : merge_plan :=
  let '(err, p') := dup_anon_vma p n in
  let '(err, p') := match curr, anon_vma n with
                    | Some c, None => dup_anon_vma p' c
                    | _, _ => (err, p')
                    end in
  Build_merge_plan p' (vm_start p) (vm_end n) (vm_pgoff p) None 0
                   (match curr with Some _ => 2 | None => 1 end) false err.

(** The area before: case 2, and with an area at the range cases 7 and 5. *)
Definition merge_into_prev (p : vma) (curr : option vma) (end_ : Z) : merge_plan :=
  match curr with
  | None => Build_merge_plan p (vm_start p) end_ (vm_pgoff p) None 0 0 false 0
  | Some c =>
      if end_ =? vm_end c then
        let closes := match vm_ops c with Some o => ops_close (be e) o | None => false end in
        let '(err, p') := if closes then (- EINVAL, p) else dup_anon_vma p c in
        Build_merge_plan p' (vm_start p) end_ (vm_pgoff p) None 0 1 false err
      else
        let '(err, p') := dup_anon_vma p c in
        Build_merge_plan p' (vm_start p) end_ (vm_pgoff p) (Some c) (end_ - vm_start c) 0 false err
  end.

(** The area after: case 4 when the range is the end of [prev], else cases 3 and 8. *)
Definition merge_into_next (prev : option vma) (n : vma) (curr : option vma) (addr pglen : Z)
    : merge_plan :=
  let at_next :=
    match curr with
    | None => Build_merge_plan n addr (vm_end n) (vm_pgoff n -u pglen) None 0 0 true 0
    | Some c =>
        let '(err, n') := dup_anon_vma n c in
        Build_merge_plan n' addr (vm_end n) (vm_pgoff c) None 0 1 true err
    end in
  match prev with
  | Some p =>
      if addr <? vm_end p then
        let '(err, n') := dup_anon_vma n p in
        Build_merge_plan p (vm_start p) addr (vm_pgoff p) (Some n') (- (vm_end p - addr)) 0 true err
      else at_next
  | None => at_next
  end.

Definition vma_merge_plan (prev curr next : option vma) (merge_prev merge_next : bool)
    (addr end_ pglen : Z) : option merge_plan :=
  match prev, next with
  | Some p, Some n =>
      if merge_prev && merge_next && is_mergeable_anon_vma (anon_vma p) (anon_vma n) None
      then Some (merge_both p n curr)
      else if merge_prev then Some (merge_into_prev p curr end_)
      else if merge_next then Some (merge_into_next prev n curr addr pglen)
      else None
  | Some p, None => if merge_prev then Some (merge_into_prev p curr end_) else None
  | None, Some n => if merge_next then Some (merge_into_next None n curr addr pglen) else None
  | None, None => None
  end.

(** Carrying out a plan: the areas' fields, then the stores. *)
Definition apply_merge_plan (p : merge_plan) m : vma * mm_struct T :=
  let v := pl_vma p in
  let expanded := (pl_start p <? vm_start v) || (vm_end v <? pl_end p) in
  let v' := set_range (pl_start p) (pl_end p) (pl_pgoff p) v in
  let t := vma_write (vm_id v) (fun _ => v') (mm_mt m) in
  let '(adj', t) :=
    match pl_adjust p with
    | Some a =>
        let a' := set_pgoff (vm_pgoff a +u Z.shiftr (pl_adj_start p) PAGE_SHIFT)
                            (set_start (vm_start a +u pl_adj_start p) a) in
        (Some a', vma_write (vm_id a) (fun _ => a') t)
    | None => (None, t)
    end in
  let t := if expanded then mt_store v' t else t in
  let t := if pl_adj_start p <? 0 then match adj' with Some a' => mt_store a' t | None => t end else t in
  let res := if pl_result_is_next p
             then match adj' with Some a' => a' | None => v' end else v' in
  (res, set_areas t (map_count m - pl_removed p) (next_id m) m).

Definition vma_merge (prev : option vma) (addr end_ flags : Z) (anon file : option Z) (pgoff : Z)
    (policy uffd name : option Z) m : option vma * mm_struct T :=
  if flag_set flags VM_SPECIAL then (None, m)
  else
    let pglen := (end_ -u addr) >>u PAGE_SHIFT in
    let curr := find_vma_intersection m (match prev with Some p => vm_end p | None => 0 end) end_ in
    let next := match curr with
                | None => mt_find (mm_mt m) end_ end_
                | Some c => if end_ =? vm_end c then mt_find (mm_mt m) end_ end_ else None
                end in
    let merge_prev := match prev with
      | Some p => (addr =? vm_end p) && bool_decide (vm_policy p = policy)
                  && can_vma_merge_after (be e) p flags anon file pgoff uffd name
      | None => false
      end in
    let merge_next := match next with
      | Some n => bool_decide (policy = vm_policy n)
                  && can_vma_merge_before (be e) n flags anon file (pgoff +u pglen) uffd name
      | None => false
      end in
    match vma_merge_plan prev curr next merge_prev merge_next addr end_ pglen with
    | None => (None, m)
    | Some p =>
        if negb (pl_err p =? 0) then (None, m)
        else if negb (iter_prealloc_ok vme (pl_vma p)) then (None, m)
        else let '(res, m') := apply_merge_plan p m in (Some res, m')
    end.

Definition vma_merge_new_vma (prev : option vma) (v : vma) (start end_ pgoff : Z) m :=
  vma_merge prev start end_ (vm_flags v) (anon_vma v) (vm_file v) pgoff (vm_policy v) (vm_uffd v)
            (anon_name v) m.

Definition vma_merge_extend (v : vma) (delta : Z) m :=
  vma_merge (Some v) (vm_end v) (vm_end v +u delta) (vm_flags v) (anon_vma v) (vm_file v)
            (vm_pgoff v +u vma_pages v) (vm_policy v) (vm_uffd v) (anon_name v) m.

(** [vma_modify]: the area that now covers the range, or the error of a split. *)
Definition vma_modify (prev : option vma) (v : vma) (start end_ flags : Z)
    (policy uffd name : option Z) m : (Z + vma) * mm_struct T :=
  let pgoff := vm_pgoff v +u ((start -u vm_start v) >>u PAGE_SHIFT) in
  match vma_merge prev start end_ flags (anon_vma v) (vm_file v) pgoff policy uffd name m with
  | (Some merged, m) => (inr merged, m)
  | (None, m) =>
      let '(err, v, m) :=
        if vm_start v <? start then split_vma vme v start true m else (0, v, m) in
      if negb (err =? 0) then (inl err, m)
      else
        let '(err, v, m) :=
          if end_ <? vm_end v then split_vma vme v end_ false m else (0, v, m) in
        if negb (err =? 0) then (inl err, m) else (inr v, m)
  end.

(** ** Mapping a region *)

(** The areas [for_each_vma_range] visits. *)
Definition range_areas m (lo hi : Z) : list vma :=
  filter (fun x => lo < vm_end x /\ vm_start x < hi) (vmas (mm_mt m)).

Definition count_vma_pages_range m (addr end_ : Z) : Z :=
  foldl (fun n v => n +u ((Z.min end_ (vm_end v) -u Z.max addr (vm_start v)) >>u PAGE_SHIFT)) 0
        (range_areas m addr end_).

Definition accountable_mapping (file : option Z) (flags : Z) : bool :=
  match file with
  | Some f => if is_file_hugepages e f then false
              else Z.land flags (Z.lor (Z.lor VM_NORESERVE VM_SHARED) VM_WRITE) =? VM_WRITE
  | None => Z.land flags (Z.lor (Z.lor VM_NORESERVE VM_SHARED) VM_WRITE) =? VM_WRITE
  end.

Definition vma_is_shared_maywrite (v : vma) : bool :=
  Z.land (vm_flags v) (Z.lor VM_SHARED VM_MAYWRITE) =? Z.lor VM_SHARED VM_MAYWRITE.

Definition no_policy (v : vma) : bool := negb (bool_decide (is_Some (vm_policy v))).

(** The neighbour to expand: the area, the new range and the new offset. *)
Definition merge_target (prev next : option vma) (addr end_ flags : Z) (file : option Z)
    (pgoff pglen : Z) : option (vma * Z * Z * Z) :=
  let nx := match next with
    | Some n =>
        if (vm_start n =? end_) && no_policy n
           && can_vma_merge_before (be e) n flags None file (pgoff +u pglen) None None
        then Some n else None
    | None => None
    end in
  let merge_end := match nx with Some n => vm_end n | None => end_ end in
  match prev with
  | Some p =>
      if (vm_end p =? addr) && no_policy p
         && match nx with
            | Some n => can_vma_merge_after (be e) p flags (anon_vma n) file pgoff (vm_uffd n) None
            | None => can_vma_merge_after (be e) p flags None file pgoff None None
            end
      then Some (p, vm_start p, merge_end, vm_pgoff p)
      else match nx with Some n => Some (n, addr, merge_end, vm_pgoff n -u pglen) | None => None end
  | None => match nx with Some n => Some (n, addr, merge_end, vm_pgoff n -u pglen) | None => None end
  end.

(** Label [cannot_expand]: a new area.  The error, or the area now in the tree and the
    flags to account with. *)
Definition mmap_new (file : option Z) (addr end_ flags pgoff : Z) (prev : option vma) m
    : (Z + vma * Z) * mm_struct T :=
  if negb (vm_area_alloc_ok (be e)) then (inl (- ENOMEM), m)
  else
    let v := Vma (next_id m) addr end_ flags pgoff file None None false None None None in
    let insert v flags :=
      if map_deny_write_exec e v then (inl (- EACCES), m)
      else if negb (arch_validate_flags e (vm_flags v)) then (inl (- EINVAL), m)
      else if negb (iter_prealloc_ok vme v) then (inl (- ENOMEM), m)
      else (inr (v, flags),
            set_areas (mt_store v (mm_mt m)) (map_count m + 1) (next_id m + 1) m) in
    match file with
    | Some f =>
        let '(error, v) := call_mmap e f v in
        if negb (error =? 0) then (inl error, m)
        else
          let error := if vma_is_shared_maywrite v then mapping_map_writable e f else 0 in
          if negb (error =? 0) then (inl error, m)
          else if negb (addr =? vm_start v) then (inl (- EINVAL), m)
          else if negb (flags =? vm_flags v) && bool_decide (is_Some prev) then
            match vma_merge_new_vma prev v (vm_start v) (vm_end v) (vm_pgoff v) m with
            | (Some merged, m') => (inr (merged, vm_flags merged), m')
            | (None, _) => insert v (vm_flags v)
            end
          else insert v (vm_flags v)
    | None =>
        if flag_set flags VM_SHARED then
          let '(error, v) := shmem_zero_setup e v in
          if negb (error =? 0) then (inl error, m) else insert v flags
        else insert v flags
    end.

(** From label [expanded]: statistics, locking and the soft-dirty mark. *)
Definition mmap_account (v : vma) (flags npages : Z) m : mm_struct T :=
  let c := vm_stat_account vme flags npages (ctr m) in
  let unlockable := flag_set flags VM_SPECIAL || never_mlocked e v in
  let locked := flag_set flags VM_LOCKED in
  let c := if locked && negb unlockable then add_locked npages c else c in
  let fl := if locked && unlockable then Z.ldiff (vm_flags v) VM_LOCKED_MASK else vm_flags v in
  let t := vma_write (vm_id v) (set_flags (Z.lor fl VM_SOFTDIRTY)) (mm_mt m) in
  set_ctr c (set_areas t (map_count m) (next_id m) m).

(** The address, or an error as an [unsigned long]. *)
Definition mmap_region (fuel : nat) (file : option Z) (addr len flags pgoff : Z) m
    : option (Z * mm_struct T) :=
  let pglen := len >>u PAGE_SHIFT in
  let end_ := addr +u len in
  if negb (may_expand_vm vme m flags pglen)
     && negb (may_expand_vm vme m flags (pglen -u count_vma_pages_range m addr end_))
  then Some (u64 (- ENOMEM), m)
  else
    match do_vmi_munmap vme fuel addr len false m with
    | None => None
    | Some (err, m) =>
        if negb (err =? 0) then Some (u64 (- ENOMEM), m)
        else
          let accountable := accountable_mapping file flags in
          let '(granted, m) := if accountable then vm_enough_memory vme pglen m else (true, m) in
          if negb granted then Some (u64 (- ENOMEM), m)
          else
            let flags := if accountable then Z.lor flags VM_ACCOUNT else flags in
            let charged := if accountable then pglen else 0 in
            let next := mt_find (mm_mt m) addr ULONG_MAX in
            let prev := mas_prev (mm_mt m) addr in
            let expanded :=
              if flag_set flags VM_SPECIAL then None
              else
                match merge_target prev next addr end_ flags file pgoff pglen with
                | None => None
                | Some (v, lo, hi, off) =>
                    match vma_expand v lo hi off next m with
                    | (0, v, m) => Some (v, m)
                    | _ => None
                    end
                end in
            match expanded with
            | Some (v, m) => Some (addr, mmap_account v flags pglen m)
            | None =>
                match mmap_new file addr end_ flags pgoff prev m with
                | (inl error, m) => Some (u64 error, vm_unacct_memory charged m)
                | (inr (v, flags), m) => Some (addr, mmap_account v flags pglen m)
                end
            end
    end.

(** ** do_mmap *)

Definition round_hint_to_min (hint : Z) : Z :=
  let hint := Z.land hint PAGE_MASK in
  if negb (hint =? 0) && (hint <? mmap_min_addr e) then PAGE_ALIGN (mmap_min_addr e) else hint.

Definition file_mmap_size_max (f : Z) : Z :=
  match inode_of e f with
  | RegularFile | BlockDevice | Socket => MAX_LFS_FILESIZE e
  | OtherInode => if fmode_unsigned_offset e f then 0 else ULONG_MAX
  end.

Definition file_mmap_ok (f pgoff len : Z) : bool :=
  let maxsize := file_mmap_size_max f in
  if negb (maxsize =? 0) && (maxsize <? len) then false
  else
    let maxsize := maxsize -u len in
    if (maxsize >>u PAGE_SHIFT) <? pgoff then false else true.

(** Case [MAP_PRIVATE] of a file mapping, which the shared cases fall through to. *)
Definition file_private (f vmf : Z) : Z + Z :=
  if negb (fmode_read e f) then inl (- EACCES)
  else
    let! vmf := (if path_noexec e f
                 then if flag_set vmf VM_EXEC then inl (- EPERM) else inr (Z.ldiff vmf VM_MAYEXEC)
                 else inr vmf) in
    if negb (has_mmap e f) then inl (- ENODEV)
    else if flag_set vmf VM_GROWS then inl (- EINVAL)
    else inr vmf.

(** The [switch] on the mapping type of a file mapping: the flags that stay in force
    and the area's flags, or the error. *)
Definition file_flags (f prot flags vmf : Z) : Z + (Z * Z) :=
  let flags_mask := Z.lor (LEGACY_MAP_MASK e) (mmap_supported_flags e f) in
  let shared flags :=
    if negb (Z.ldiff flags flags_mask =? 0) then inl (- EOPNOTSUPP)
    else if flag_set prot PROT_WRITE && negb (fmode_write e f) then inl (- EACCES)
    else if flag_set prot PROT_WRITE && is_swapfile e f then inl (- ETXTBSY)
    else if is_append e f && fmode_write e f then inl (- EACCES)
    else
      let vmf := Z.lor vmf (Z.lor VM_SHARED VM_MAYSHARE) in
      let vmf := if fmode_write e f then vmf else Z.ldiff vmf (Z.lor VM_MAYWRITE VM_SHARED) in
      let! vmf := file_private f vmf in inr (flags, vmf) in
  let type := Z.land flags MAP_TYPE in
  if type =? MAP_SHARED then shared (Z.land flags (LEGACY_MAP_MASK e))
  else if type =? MAP_SHARED_VALIDATE then shared flags
  else if type =? MAP_PRIVATE then let! vmf := file_private f vmf in inr (flags, vmf)
  else inl (- EINVAL).

(** The same for anonymous memory: the page offset and the area's flags. *)
Definition anon_flags (addr flags vmf : Z) : Z + (Z * Z) :=
  let type := Z.land flags MAP_TYPE in
  if type =? MAP_SHARED then
    if flag_set vmf VM_GROWS then inl (- EINVAL)
    else inr (0, Z.lor vmf (Z.lor VM_SHARED VM_MAYSHARE))
  else if type =? MAP_PRIVATE then inr (addr >>u PAGE_SHIFT, vmf)
  else inl (- EINVAL).

(** Everything [do_mmap] decides before it calls [mmap_region]: the address, the aligned
    length, the flags in force, the area's flags and the page offset. *)
Definition mmap_request (file : option Z) (addr len prot flags vmf pgoff : Z) m
    : Z + (Z * Z * Z * Z * Z) :=
  if len =? 0 then inl (- EINVAL)
  else
    let prot :=
      if flag_set prot PROT_READ && read_implies_exec e
         && negb match file with Some f => path_noexec e f | None => false end
      then Z.lor prot PROT_EXEC else prot in
    let flags := if flag_set flags MAP_FIXED_NOREPLACE then Z.lor flags MAP_FIXED else flags in
    let addr := if flag_set flags MAP_FIXED then addr else round_hint_to_min addr in
    let len := PAGE_ALIGN len in
    if len =? 0 then inl (- ENOMEM)
    else if (pgoff +u (len >>u PAGE_SHIFT)) <? pgoff then inl (- EOVERFLOW)
    else if sysctl_max_map_count vme <? map_count m then inl (- ENOMEM)
    else
      let addr := get_unmapped_area (be e) file addr len pgoff flags in
      if IS_ERR_VALUE addr then inl (i64 addr)
      else if flag_set flags MAP_FIXED_NOREPLACE
              && bool_decide (is_Some (find_vma_intersection m addr (addr +u len)))
      then inl (- EEXIST)
      else
        let pkey := if prot =? PROT_EXEC
                    then if execute_only_pkey e <? 0 then 0 else execute_only_pkey e else 0 in
        let vmf := Z.lor vmf (Z.lor (calc_vm_prot_bits e prot pkey)
                     (Z.lor (calc_vm_flag_bits e flags)
                       (Z.lor (def_flags m) (Z.lor VM_MAYREAD (Z.lor VM_MAYWRITE VM_MAYEXEC))))) in
        if flag_set flags MAP_LOCKED && negb (can_do_mlock e) then inl (- EPERM)
        else if negb (mlock_future_ok vme m vmf len) then inl (- EAGAIN)
        else
          let! typed :=
            match file with
            | Some f =>
                if negb (file_mmap_ok f pgoff len) then inl (- EOVERFLOW)
                else let! r := file_flags f prot flags vmf in inr (fst r, snd r, pgoff)
            | None => let! r := anon_flags addr flags vmf in inr (flags, snd r, fst r)
            end in
          let '(flags, vmf, pgoff) := typed in
          let vmf :=
            if flag_set flags MAP_NORESERVE then
              let vmf := if negb (overcommit_never e) then Z.lor vmf VM_NORESERVE else vmf in
              match file with
              | Some f => if is_file_hugepages e f then Z.lor vmf VM_NORESERVE else vmf
              | None => vmf
              end
            else vmf in
          inr (addr, len, flags, vmf, pgoff).

(** The address or error, the bytes to populate, and the address space. *)
Definition do_mmap (fuel : nat) (file : option Z) (addr len prot flags vmf pgoff : Z) m
    : option (Z * Z * mm_struct T) :=
  match mmap_request file addr len prot flags vmf pgoff m with
  | inl err => Some (u64 err, 0, m)
  | inr (addr, len, flags, vmf, pgoff) =>
      match mmap_region fuel file addr len vmf pgoff m with
      | None => None
      | Some (addr, m) =>
          let populate :=
            if negb (IS_ERR_VALUE addr)
               && (flag_set vmf VM_LOCKED
                   || (Z.land flags (Z.lor MAP_POPULATE MAP_NONBLOCK) =? MAP_POPULATE))
            then len else 0 in
          Some (addr, populate, m)
      end
  end.

(** ** The system call *)

Context {G : Type} `{MemGate G} (g : G) (pid : Z).

Definition MAP_HUGE_SHIFT : Z := 26.
Definition MAP_HUGE_MASK : Z := 0x3f.

Definition ALIGN (x a : Z) : Z := Z.land (x +u (a - 1)) (u64 (- a)).

(** [fget], the huge-page sizes and set-up, and [vm_mmap_pgoff] ([mm/util.c]) are
    arguments. *)
Record mmap_calls := {
  fget : Z -> option Z;
  file_huge_size : Z -> Z;
  hstate_sizelog : Z -> option Z;
  hugetlb_file_setup : Z -> Z -> Z + Z;      (* length, size log -> error or file *)
  vm_mmap_pgoff : option Z -> Z -> Z -> Z -> Z -> Z -> mm_struct T -> option (Z * mm_struct T)
}.

(** The file and length the request is about, or the result that ends the call. *)
Definition mmap_target (c : mmap_calls) (len flags fd : Z) : Z + (option Z * Z) :=
  if negb (flag_set flags MAP_ANONYMOUS) then
    match fget c fd with
    | None => inl (- EBADF)
    | Some f =>
        if is_file_hugepages e f then inr (Some f, ALIGN len (file_huge_size c f))
        else if flag_set flags MAP_HUGETLB then inl (- EINVAL)
        else inr (Some f, len)
    end
  else if flag_set flags MAP_HUGETLB then
    let log := Z.land (flags >>u MAP_HUGE_SHIFT) MAP_HUGE_MASK in
    match hstate_sizelog c log with
    | None => inl (- EINVAL)
    | Some sz =>
        let len := ALIGN len sz in
        match hugetlb_file_setup c len log with
        | inl err => inl err
        | inr f => inr (Some f, len)
        end
    end
  else inr (None, len).

Definition ksys_mmap_pgoff (c : mmap_calls) (addr len prot flags fd pgoff : Z) m
    : option (Z * mm_struct T) :=
  match mmap_target c len flags fd with
  | inl err => Some (u64 err, m)
  | inr (file, len) =>
      if negb (gate_accepts g pid (total_vm (ctr m)) len) then Some (u64 (- ENOMEM), m)
      else vm_mmap_pgoff c file addr len prot flags pgoff m
  end.

End ops.
End Mmap.
