(* ===== verification/MmapSpec.v ===== *)
(** * Properties of mapping memory under the limiter

    The pieces of [mmap_region]: areas that continue a request, extending a neighbour or
    joining two of them, and the accounting. The whole call, its errors and its histories
    under the limiter are in [MmapCalls]. *)
From S2P Require Import Prelude Gate MemLimitSpec Vma Mm MmSpec Brk BrkSpec Mmap.

Module MmapSpec.
Import Mm MmSpec Brk BrkSpec Mmap.

(** ** Areas that continue a request *)

(** The page a request with page offset [pgoff] at [addr] puts at [a]. *)
Definition req_page (flags : Z) (file : option Z) (pgoff addr a : Z) : page :=
  (Z.ldiff flags VM_SOFTDIRTY, file, u64 (pgoff + (a / PAGE_SIZE - addr / PAGE_SIZE))).

(** An area whose pages are those the request would have at the same addresses. *)
Record fits (flags : Z) (file : option Z) (pgoff addr : Z) (v : vma) : Prop := {
  fit_flags : Z.ldiff (vm_flags v) VM_SOFTDIRTY = Z.ldiff flags VM_SOFTDIRTY;
  fit_file : vm_file v = file;
  fit_off : u64 (vm_pgoff v - vm_start v / PAGE_SIZE) = u64 (pgoff - addr / PAGE_SIZE)
}.

Lemma fits_page flags file pgoff addr v a :
  fits flags file pgoff addr v -> page_of v a = req_page flags file pgoff addr a.
Proof.
  intros [Hfl Hfi Hoff]. unfold page_of, req_page. rewrite Hfl, Hfi. f_equal.
  replace (vm_pgoff v + (a / PAGE_SIZE - vm_start v / PAGE_SIZE))
    with (vm_pgoff v - vm_start v / PAGE_SIZE + a / PAGE_SIZE) by lia.
  replace (pgoff + (a / PAGE_SIZE - addr / PAGE_SIZE))
    with (pgoff - addr / PAGE_SIZE + a / PAGE_SIZE) by lia.
  by rewrite <- u64_add_l, Hoff, u64_add_l.
Qed.

Lemma fits_after e p flags file pgoff addr anon uffd name :
  can_vma_merge_after e p flags anon file pgoff uffd name = true ->
  vma_ok p -> vm_end p = addr -> fits flags file pgoff addr p.
Proof.
  unfold can_vma_merge_after. intros Hcan Hp Hend. split_bools.
  apply mergeable_flags in H as [Hfl Hfi]. constructor; [done|done|].
  apply Z.eqb_eq in H0. rewrite vma_pages_ok in H0 by done. rewrite <- H0, <- Hend.
  rewrite u64_sub_l. f_equal. destruct Hp. unfold PAGE_SIZE in *.
  Z.to_euclidean_division_equations; lia.
Qed.

Lemma fits_before e n flags file pgoff addr len anon uffd name :
  can_vma_merge_before e n flags anon file (pgoff +u (len / PAGE_SIZE)) uffd name = true ->
  vm_start n = addr + len -> len mod PAGE_SIZE = 0 -> fits flags file pgoff addr n.
Proof.
  unfold can_vma_merge_before. intros Hcan Hs Hlen. split_bools.
  apply mergeable_flags in H as [Hfl Hfi]. constructor; [done|done|].
  apply Z.eqb_eq in H0. rewrite H0, Hs, u64_sub_l. f_equal.
  unfold PAGE_SIZE in *. Z.to_euclidean_division_equations; lia.
Qed.

(** ** Replacing neighbours by one area *)

(** [v'] takes the place of the areas [old] and of the range between or beside them. *)
Record fills (addr len : Z) (old : list vma) (v' : vma) : Prop := {
  fl_cover a : covers v' a <-> addr <= a < addr + len \/ exists x, x ∈ old /\ covers x a;
  fl_inside : Forall (fun x => vm_start v' <= vm_start x /\ vm_end x <= vm_end v') old;
  fl_pages : vma_pages v' = pages old + len / PAGE_SIZE
}.

Lemma fills_view addr len flags file pgoff l old k v' a :
  fills addr len old v' -> areas_ok (l ++ v' :: k) ->
  Forall (fits flags file pgoff addr) old -> fits flags file pgoff addr v' ->
  view (l ++ v' :: k) a =
    if decide (addr <= a < addr + len) then Some (req_page flags file pgoff addr a)
    else view (l ++ old ++ k) a.
Proof.
  intros [Hcov _ _] Hok Hfo Hfv. rewrite !view_app, view_cons.
  apply areas_ok_app in Hok as (_ & _ & Hlv). destruct (decide (covers v' a)) as [Hin|Hout].
  - rewrite (view_none l); cycle 1.
    { intros x Hx. assert (before x v') by (apply (Hlv x v' Hx); set_solver).
      unfold before, covers in *. lia. }
    rewrite (fits_page _ _ _ _ _ a Hfv). destruct (decide _) as [|Hg]; [done|].
    apply Hcov in Hin as [Hin|(x & Hx & Hxa)]; [done|].
    assert (Hv : view old a = Some (req_page flags file pgoff addr a)); [|by rewrite Hv].
    clear Hlv Hcov. induction Hfo as [|y old Hy _ IH]; [set_solver|]. rewrite view_cons.
    destruct (decide (covers y a)); [by rewrite (fits_page _ _ _ _ _ a Hy)|].
    apply elem_of_cons in Hx as [->|Hx]; [done|by apply IH].
  - rewrite decide_False; cycle 1.
    { intros Hg. apply Hout, Hcov. by left. }
    rewrite (view_none old); [done|]. intros x Hx Hxa. apply Hout, Hcov. right. eauto.
Qed.

Section spec.
Context {T : Type} `{VmaTree T} (e : map_env).
Implicit Types m : mm_struct T.
Notation areas m := (vmas (mm_mt m)).

(** The state between placing the area and accounting for it. *)
Record placed (addr len flags : Z) (file : option Z) (pgoff : Z) (v : vma) m m' : Prop := {
  pc_areas : areas_ok (areas m');
  pc_ids : NoDup (vm_id <$> areas m');
  pc_fresh : Forall (fun x => vm_id x < next_id m') (areas m');
  pc_count : map_count m' = Z.of_nat (length (areas m'));
  pc_pages : pages (areas m') = pages (areas m) + len / PAGE_SIZE;
  pc_view a : view (areas m') a =
    if decide (addr <= a < addr + len) then Some (req_page flags file pgoff addr a)
    else view (areas m) a;
  pc_in : v ∈ areas m';
  pc_frame : same_frame m m'
}.

(** The tree after an area was written through its pointer and stored over the areas
    [old], one of which it was. *)
Lemma store_over v v' l old k m :
  mm_wf m -> areas m = l ++ old ++ k -> v ∈ old -> areas_ok (l ++ v' :: k) ->
  Forall (fun x => vm_start v' <= vm_start x /\ vm_end x <= vm_end v') old ->
  vmas (mt_store v' (vma_write (vm_id v) (fun _ => v') (mm_mt m))) = l ++ v' :: k.
Proof.
  intros [Hok Hnd _ _ _] Hm Hv Hok' Hins. rewrite Hm in *.
  pose proof Hok as (_ & (Hoo & _ & _)%areas_ok_app & _)%areas_ok_app.
  set (old' := write_area (vm_id v) (fun _ => v') old).
  assert (Hw : write_area (vm_id v) (fun _ => v') (l ++ old ++ k) = l ++ old' ++ k).
  { apply list_elem_of_split in Hv as (o1 & o2 & ->). subst old'.
    rewrite <- !app_assoc. cbn. rewrite (app_assoc l o1), write_one.
    - rewrite write_one; [by rewrite <- !app_assoc|].
      rewrite !fmap_app in Hnd. apply NoDup_app in Hnd as (_ & _ & Hnd).
      apply NoDup_app in Hnd as (Hnd & _ & _). by rewrite fmap_app.
    - by rewrite <- !app_assoc in *. }
  assert (Hcov : Forall (fun x => vm_start v' <= vm_start x /\ vm_start x < vm_end x <= vm_end v') old').
  { subst old'. unfold write_area. apply Forall_fmap, Forall_forall. intros x Hx. cbn.
    destruct (vm_id x =? vm_id v).
    - apply areas_ok_app in Hok' as (_ & ([] & _ & _)%areas_ok_cons & _). lia.
    - rewrite Forall_forall in Hins. destruct Hoo as [_ Hoo]. rewrite Forall_forall in Hoo.
      destruct (Hoo x Hx). specialize (Hins x Hx). cbn in Hins. lia. }
  destruct (store_between v' l old' k Hok' Hcov) as [Hst Hwh].
  rewrite mt_store_spec; rewrite vma_write_spec, Hm, Hw; done.
Qed.

(** Storing an area that replaces the neighbours [old], one of which it is. *)
Lemma place_over v v' l old k addr len flags file pgoff m n :
  mm_wf m -> areas m = l ++ old ++ k -> v ∈ old -> vm_id v' = vm_id v ->
  areas_ok (l ++ v' :: k) -> fills addr len old v' ->
  Forall (fits flags file pgoff addr) old -> fits flags file pgoff addr v' ->
  n = Z.of_nat (length old) - 1 ->
  placed addr len flags file pgoff v' m
    (set_areas (mt_store v' (vma_write (vm_id v) (fun _ => v') (mm_mt m)))
       (map_count m - n) (next_id m) m).
Proof.
  intros Hwf Hm Hv Hid Hok' Hfill Hfo Hfv ->.
  pose proof (store_over v v' l old k m Hwf Hm Hv Hok' (fl_inside _ _ _ _ Hfill)) as Hmt.
  destruct Hwf as [Hok Hnd Hfr Hcnt Htot]. rewrite Hm in *.
  apply list_elem_of_split in Hv as (o1 & o2 & Ho).
  constructor; cbn; rewrite ?Hmt.
  - done.
  - rewrite fmap_app, fmap_cons, Hid. rewrite Ho, !fmap_app, fmap_cons in Hnd.
    eapply sublist_NoDup; [exact Hnd|]. apply sublist_app; [done|].
    rewrite <- app_assoc. apply sublist_inserts_l. cbn. apply sublist_skip.
    by apply sublist_inserts_l.
  - rewrite Forall_app, Forall_cons. rewrite !Forall_app, Ho, Forall_app, Forall_cons in Hfr.
    destruct Hfr as (? & (? & ? & ?) & ?). rewrite Hid. done.
  - rewrite Hcnt, !length_app. cbn. lia.
  - rewrite Hm, !pages_app, pages_cons, (fl_pages _ _ _ _ Hfill). lia.
  - intros a. rewrite Hm. by apply fills_view.
  - set_solver.
  - done.
Qed.

(** Two neighbours of the gap. *)
Lemma gap_neighbours addr len l k m :
  mm_wf m -> gap_at addr len l k m ->
  mt_find (mm_mt m) addr ULONG_MAX = head k /\ mas_prev (mm_mt m) addr = last l.
Proof.
  intros Hwf [Hm Hl Hk Ha Hlen Htop]. rewrite mt_find_spec, mas_prev_spec, Hm.
  unfold first_area, last_area. rewrite !filter_app.
  pose proof (wf_areas m Hwf) as Hok. rewrite Hm in Hok.
  apply areas_ok_app in Hok as (_ & [_ Hkok] & _).
  rewrite (filter_none _ l), (filter_all _ k), (filter_all _ l Hl), (filter_none _ k), app_nil_r;
    [done|..]; apply Forall_forall; intros x Hx; rewrite ?Forall_forall in *.
  - specialize (Hk x Hx). destruct (Hkok x Hx). cbn in Hk. lia.
  - specialize (Hk x Hx). destruct (Hkok x Hx). cbn in Hk.
    unfold ULONG_MAX, TASK_SIZE, PAGE_SIZE in *. lia.
  - specialize (Hl x Hx). cbn in Hl. lia.
Qed.

(** The area [v] of the list grown to [[lo, hi)], kept flags and file. *)
Lemma grown_fits flags file pgoff addr v v' :
  fits flags file pgoff addr v -> vm_flags v' = vm_flags v -> vm_file v' = vm_file v ->
  u64 (vm_pgoff v' - vm_start v' / PAGE_SIZE) = u64 (vm_pgoff v - vm_start v / PAGE_SIZE) ->
  fits flags file pgoff addr v'.
Proof. intros [H1 H2 H3] Hf Hi Ho. constructor; congruence. Qed.

Lemma dup_anon_keeps v n r v1 :
  dup_anon_vma e v n = (r, v1) ->
  vm_id v1 = vm_id v /\ vm_flags v1 = vm_flags v /\ vm_file v1 = vm_file v.
Proof. unfold dup_anon_vma. intros Hd. repeat case_match; simplify_eq; done. Qed.

Lemma expand_shape v lo hi off next m v' m' :
  vma_expand e v lo hi off next m = (0, v', m') ->
  let remove := match next with Some n => negb (vm_id v =? vm_id n) && (hi =? vm_end n) | None => false end in
  vm_id v' = vm_id v /\ vm_flags v' = vm_flags v /\ vm_file v' = vm_file v /\
  vm_start v' = lo /\ vm_end v' = hi /\ vm_pgoff v' = off /\
  m' = set_areas (mt_store v' (vma_write (vm_id v) (fun _ => v') (mm_mt m)))
         (map_count m - (if remove then 1 else 0)) (next_id m) m.
Proof.
  unfold vma_expand. cbv zeta.
  set (remove := match next with
                 | Some n => negb (vm_id v =? vm_id n) && (hi =? vm_end n) | None => false end).
  destruct (match next with Some n => if remove then dup_anon_vma e v n else (0, v) | None => (0, v) end)
    as [r v1] eqn:Hd.
  assert (Hk : vm_id v1 = vm_id v /\ vm_flags v1 = vm_flags v /\ vm_file v1 = vm_file v).
  { clearbody remove. destruct next as [n|]; [destruct remove|].
    - by eapply dup_anon_keeps.
    - by injection Hd as <- <-.
    - by injection Hd as <- <-. }
  destruct (Z.eqb_spec r 0) as [->|]; cbn [negb]; [|intros; simplify_eq; done].
  destruct (negb _); [done|]. intros [= <- <-]. cbn. destruct Hk as (? & ? & ?). done.
Qed.

(** The neighbour chosen for expansion. *)
Lemma merge_target_cases prev next addr end_ flags file pgoff pglen v lo hi off :
  merge_target e prev next addr end_ flags file pgoff pglen = Some (v, lo, hi, off) ->
  let after p := exists anon uffd, can_vma_merge_after (be e) p flags anon file pgoff uffd None = true in
  let before n := can_vma_merge_before (be e) n flags None file (pgoff +u pglen) None None = true in
  (prev = Some v /\ vm_end v = addr /\ after v /\ lo = vm_start v /\ hi = end_ /\ off = vm_pgoff v) \/
  (next = Some v /\ vm_start v = end_ /\ before v /\ lo = addr /\ hi = vm_end v /\
     off = vm_pgoff v -u pglen) \/
  (exists n, prev = Some v /\ next = Some n /\ vm_end v = addr /\ vm_start n = end_ /\
     after v /\ before n /\ lo = vm_start v /\ hi = vm_end n /\ off = vm_pgoff v).
Proof.
  unfold merge_target. cbv zeta.
  intros Heq. destruct next as [n|], prev as [p|]; repeat case_match; simplify_eq;
    split_bools; rewrite ?Z.eqb_eq in *; simplify_eq;
    first [ solve [left; split_and!; eauto] | solve [right; left; split_and!; eauto]
          | solve [right; right; eexists; split_and!; eauto] ].
Qed.

Section cases.
Context (addr len flags : Z) (file : option Z) (pgoff : Z).

(** The area before, extended upwards. *)
Lemma place_after l p k m v' :
  mm_wf m -> gap_at addr len (l ++ [p]) k m -> vm_end p = addr ->
  fits flags file pgoff addr p ->
  vm_id v' = vm_id p -> vm_flags v' = vm_flags p -> vm_file v' = vm_file p ->
  vm_start v' = vm_start p -> vm_end v' = addr + len -> vm_pgoff v' = vm_pgoff p ->
  placed addr len flags file pgoff v' m
    (set_areas (mt_store v' (vma_write (vm_id p) (fun _ => v') (mm_mt m)))
       (map_count m - 0) (next_id m) m).
Proof.
  intros Hwf [Hm Hl Hk [Ha Haa] [Hlen Hla] Htop] Hend Hfit Hid Hfl Hfi Hs He Ho.
  pose proof (wf_areas m Hwf) as Hok. rewrite Hm, <- app_assoc in Hok.
  pose proof Hok as (Hlok & (Hp & Hkok & Hpk)%areas_ok_cons & Hlp)%areas_ok_app.
  assert (Hv' : vma_ok v').
  { destruct Hp. unfold PAGE_SIZE in *. constructor; rewrite ?Hs, ?He; unfold PAGE_SIZE; try lia.
    Z.to_euclidean_division_equations; lia. }
  apply (place_over p v' l [p] k); try done; try set_solver.
  - by rewrite <- app_assoc in Hm.
  - rewrite areas_ok_app, areas_ok_cons. rewrite Forall_forall in Hk. unfold before.
    split_and!; try done; [intros y Hy; rewrite He; by apply Hk|].
    intros x y Hx [->|Hy]%elem_of_cons; [rewrite Hs; apply (Hlp x p Hx); set_solver|].
    apply (Hlp x y Hx). set_solver.
  - constructor.
    + intros a. unfold covers. rewrite Hs, He. setoid_rewrite list_elem_of_singleton. destruct Hp. split.
      * intros Hin. destruct (Z.lt_ge_cases a addr); [right; exists p; split; [done|lia]|left; lia].
      * intros [Hin|(x & -> & Hx)]; lia.
    + constructor; [|done]. rewrite Hs, He. lia.
    + cbn [pages foldr]. rewrite !vma_pages_ok by done. rewrite Hs, He, <- Hend.
      destruct Hp. unfold PAGE_SIZE in *. Z.to_euclidean_division_equations; lia.
  - eapply grown_fits; [done|done|done|]. by rewrite Hs, Ho.
Qed.

(** The area after, extended downwards. *)
Lemma place_before l n k m v' :
  mm_wf m -> gap_at addr len l (n :: k) m -> vm_start n = addr + len ->
  fits flags file pgoff addr n ->
  vm_id v' = vm_id n -> vm_flags v' = vm_flags n -> vm_file v' = vm_file n ->
  vm_start v' = addr -> vm_end v' = vm_end n -> vm_pgoff v' = vm_pgoff n -u (len / PAGE_SIZE) ->
  placed addr len flags file pgoff v' m
    (set_areas (mt_store v' (vma_write (vm_id n) (fun _ => v') (mm_mt m)))
       (map_count m - 0) (next_id m) m).
Proof.
  intros Hwf [Hm Hl Hk [Ha Haa] [Hlen Hla] Htop] Hst Hfit Hid Hfl Hfi Hs He Ho.
  pose proof (wf_areas m Hwf) as Hok. rewrite Hm in Hok.
  pose proof Hok as (Hlok & (Hn & Hkok & Hnk)%areas_ok_cons & Hln)%areas_ok_app.
  assert (Hv' : vma_ok v').
  { destruct Hn. constructor; rewrite ?Hs, ?He; done || lia. }
  apply (place_over n v' l [n] k); try done; try set_solver.
  - rewrite areas_ok_app, areas_ok_cons. rewrite Forall_forall in Hl. unfold before.
    split_and!; try done; [intros y Hy; rewrite He; by apply Hnk|].
    intros x y Hx [->|Hy]%elem_of_cons; [rewrite Hs; by apply Hl|]. apply (Hln x y Hx). set_solver.
  - constructor.
    + intros a. unfold covers. rewrite Hs, He. setoid_rewrite list_elem_of_singleton. destruct Hn. split.
      * intros Hin. destruct (Z.lt_ge_cases a (addr + len)); [left; lia|right; exists n; split; [done|lia]].
      * intros [Hin|(x & -> & Hx)]; lia.
    + constructor; [|done]. rewrite Hs, He. lia.
    + cbn [pages foldr]. rewrite !vma_pages_ok by done. rewrite Hs, He, Hst.
      destruct Hn. unfold PAGE_SIZE in *. Z.to_euclidean_division_equations; lia.
  - eapply grown_fits; [done|done|done|]. rewrite Hs, Ho, Hst, u64_sub_l. f_equal.
    unfold PAGE_SIZE in *. Z.to_euclidean_division_equations; lia.
Qed.

(** Both neighbours and the range between them as one area. *)
Lemma place_joined l p n k m v' :
  mm_wf m -> gap_at addr len (l ++ [p]) (n :: k) m -> vm_end p = addr -> vm_start n = addr + len ->
  fits flags file pgoff addr p -> fits flags file pgoff addr n ->
  vm_id v' = vm_id p -> vm_flags v' = vm_flags p -> vm_file v' = vm_file p ->
  vm_start v' = vm_start p -> vm_end v' = vm_end n -> vm_pgoff v' = vm_pgoff p ->
  placed addr len flags file pgoff v' m
    (set_areas (mt_store v' (vma_write (vm_id p) (fun _ => v') (mm_mt m)))
       (map_count m - 1) (next_id m) m).
Proof.
  intros Hwf [Hm Hl Hk [Ha Haa] [Hlen Hla] Htop] Hend Hst Hfp Hfn Hid Hfl Hfi Hs He Ho.
  pose proof (wf_areas m Hwf) as Hok. rewrite Hm, <- app_assoc in Hok.
  pose proof Hok as (Hlok & (Hp & (Hn & Hkok & Hnk)%areas_ok_cons & Hpn)%areas_ok_cons & Hlp)%areas_ok_app.
  assert (Hv' : vma_ok v').
  { destruct Hp, Hn. constructor; rewrite ?Hs, ?He; done || lia. }
  apply (place_over p v' l [p; n] k); try done; try set_solver.
  - by rewrite <- app_assoc in Hm.
  - rewrite areas_ok_app, areas_ok_cons. unfold before.
    split_and!; try done; [intros y Hy; rewrite He; by apply Hnk|].
    intros x y Hx [->|Hy]%elem_of_cons; [rewrite Hs; apply (Hlp x p Hx); set_solver|].
    apply (Hlp x y Hx). set_solver.
  - constructor.
    + intros a. unfold covers. rewrite Hs, He. destruct Hp, Hn. split.
      * intros Hin. destruct (Z.lt_ge_cases a addr); [right; exists p; split; [set_solver|lia]|].
        destruct (Z.lt_ge_cases a (addr + len)); [left; lia|right; exists n; split; [set_solver|lia]].
      * intros [Hin|(x & [-> | ->%list_elem_of_singleton]%elem_of_cons & Hx)]; lia.
    + repeat constructor; rewrite ?Hs, ?He; destruct Hp, Hn; lia.
    + cbn [pages foldr]. rewrite !vma_pages_ok by done. rewrite Hs, He, Hst, Hend.
      destruct Hp, Hn. unfold PAGE_SIZE in *. Z.to_euclidean_division_equations; lia.
  - eapply grown_fits; [exact Hfp|done|done|]. by rewrite Hs, Ho.
Qed.

(** A new area in the gap. *)
Lemma place_new l k m v :
  mm_wf m -> gap_at addr len l k m -> vm_id v = next_id m ->
  vm_start v = addr -> vm_end v = addr + len -> vm_pgoff v = pgoff ->
  Z.ldiff (vm_flags v) VM_SOFTDIRTY = Z.ldiff flags VM_SOFTDIRTY -> vm_file v = file ->
  placed addr len flags file pgoff v m
    (set_areas (mt_store v (mm_mt m)) (map_count m + 1) (next_id m + 1) m).
Proof.
  intros Hwf Hgap Hid Hs He Ho Hfl Hfi. destruct (gap_ok _ _ _ _ _ v Hwf Hgap Hs He) as [Hv Hok].
  destruct (store_gap v l k Hok) as [Hst Hwh]. pose proof (gap_areas _ _ _ _ _ Hgap) as Hm.
  rewrite <- Hm in Hwh. pose proof (mt_store_spec v (mm_mt m) Hwh) as Hmt. rewrite Hm, Hst in Hmt.
  destruct Hwf as [Hok0 Hnd Hfr Hcnt Ht]. rewrite Hm in *.
  constructor; cbn; rewrite ?Hmt.
  - done.
  - rewrite fmap_app, fmap_cons, <- Permutation_middle, <- fmap_app, Hid. apply NoDup_cons.
    split; [|done]. intros (x & Hx & Hin)%list_elem_of_fmap. rewrite Forall_forall in Hfr.
    specialize (Hfr x Hin). cbn in Hfr. lia.
  - rewrite Forall_app, Forall_cons in *. destruct Hfr as [Hf1 Hf2].
    split_and!; [|lia|]; eapply Forall_impl; try done; cbn; intros; lia.
  - rewrite Hcnt, !length_app. cbn. lia.
  - rewrite Hm, !pages_app, pages_cons, vma_pages_ok by done. rewrite Hs, He.
    replace (addr + len - addr) with len by lia. lia.
  - intros a. rewrite Hm, (gap_view _ _ _ _ _ _ a Hgap Hs He). destruct (decide _); [|done].
    rewrite (fits_page flags file pgoff addr v a); [done|]. constructor; [done|done|]. by rewrite Hs, Ho.
  - set_solver.
  - done.
Qed.
End cases.

(** Expanding the chosen neighbour. *)
Lemma expand_placed addr len flags file pgoff l k m v lo hi off v' m' :
  mm_wf m -> gap_at addr len l k m ->
  merge_target e (last l) (head k) addr (addr + len) flags file pgoff (len / PAGE_SIZE)
    = Some (v, lo, hi, off) ->
  vma_expand e v lo hi off (head k) m = (0, v', m') ->
  placed addr len flags file pgoff v' m m'.
Proof.
  intros Hwf Hgap Htarget Hexp. pose proof Hgap as [Hm Hl Hk [Ha Haa] [Hlen Hla] Htop].
  pose proof (wf_areas m Hwf) as Hok. rewrite Hm in Hok.
  apply areas_ok_app in Hok as ([_ Hlok] & [_ Hkok] & Hlk). rewrite Forall_forall in Hlok, Hkok.
  apply merge_target_cases in Htarget. cbv zeta in Htarget.
  apply expand_shape in Hexp as (Hid & Hfl & Hfi & Hs & He & Ho & ->).
  destruct Htarget as [(Hp & Hend & (anon & uffd & Hcan) & -> & -> & ->)|
                      [(Hn & Hst & Hcan & -> & -> & ->)|
                       (n & Hp & Hn & Hend & Hst & (anon & uffd & Hcan) & Hbef & -> & -> & ->)]].
  - pose proof Hp as [l0 ->]%last_Some.
    assert (Hpok : vma_ok v) by (apply Hlok; set_solver).
    replace (match head k with Some n => _ | None => _ end) with false; cycle 1.
    { destruct k as [|n k]; [done|]. cbn. apply Forall_cons in Hk as [Hk _].
      assert (vma_ok n) as [] by (apply Hkok; set_solver). lia. }
    apply (place_after _ _ _ _ _ l0 v k); try done. by eapply fits_after.
  - destruct k as [|n k]; [done|]. injection Hn as ->. cbn [head].
    rewrite Z.eqb_refl. cbn [negb andb].
    apply (place_before _ _ _ _ _ l v k); try done. by eapply fits_before.
  - pose proof Hp as [l0 ->]%last_Some. destruct k as [|n' k]; [done|]. injection Hn as ->.
    assert (Hpok : vma_ok v) by (apply Hlok; set_solver). cbn [head].
    assert (Hne : vm_id v <> vm_id n).
    { intros Heq. pose proof (wf_ids m Hwf) as Hnd. rewrite Hm, fmap_app in Hnd.
      apply NoDup_app in Hnd as (_ & Hdis & _). apply (Hdis (vm_id v)).
      - apply list_elem_of_fmap. exists v. split; [done|]. set_solver.
      - rewrite Heq. cbn. set_solver. }
    rewrite (proj2 (Z.eqb_neq _ _) Hne), Z.eqb_refl. cbn [negb andb].
    apply (place_joined _ _ _ _ _ l0 v n k); try done; [by eapply fits_after|by eapply fits_before].
Qed.

(** ** Accounting for the new pages *)

Lemma write_flags_areas (l : list vma) i f :
  areas_ok l -> areas_ok (write_area i (set_flags f) l) /\
  vm_id <$> write_area i (set_flags f) l = vm_id <$> l /\
  pages (write_area i (set_flags f) l) = pages l /\
  length (write_area i (set_flags f) l) = length l.
Proof.
  intros Hok. split_and!.
  - unfold write_area. induction l as [|v l IH]; [done|].
    apply areas_ok_cons in Hok as (Hv & Hl & Hb). cbn. apply areas_ok_cons.
    split_and!; [|by apply IH|].
    + destruct (vm_id v =? i); [|done]. by destruct Hv.
    + intros y (x & -> & Hx)%list_elem_of_fmap. specialize (Hb x Hx). unfold before in *.
      by destruct (vm_id v =? i), (vm_id x =? i).
  - unfold write_area. rewrite <- list_fmap_compose. apply list_fmap_ext. intros ? x _. cbn.
    by destruct (vm_id x =? i).
  - unfold write_area. clear Hok. induction l as [|v l IH]; [done|]. cbn.
    fold (pages l). rewrite <- IH. by destruct (vm_id v =? i).
  - unfold write_area. apply length_fmap.
Qed.

Lemma account_ctr v flags n m :
  total_vm (ctr (mmap_account e v flags n m)) = total_vm (ctr m) +u n.
Proof.
  unfold mmap_account. cbv zeta. cbn. rewrite <- (account_total (vm (be e)) flags n (ctr m)).
  by destruct (_ && negb _).
Qed.

Lemma account_wf addr len flags file pgoff v fl m m' :
  mm_wf m -> placed addr len flags file pgoff v m m' -> 0 <= len <= TASK_SIZE ->
  let m2 := mmap_account e v fl (len / PAGE_SIZE) m' in
  mm_wf m2 /\ total_vm (ctr m2) = total_vm (ctr m) + len / PAGE_SIZE /\
  committed m2 = committed m /\ mmap_lock m2 = mmap_lock m.
Proof.
  intros Hwf [Hok Hnd Hfr Hcnt Hpg Hv Hin [Hctr _ _ _ _ _ _ Hlk Hcm]] Hlen. cbv zeta.
  set (f := Z.lor (if flag_set fl VM_LOCKED && (flag_set fl VM_SPECIAL || never_mlocked e v)
                   then Z.ldiff (vm_flags v) VM_LOCKED_MASK else vm_flags v) VM_SOFTDIRTY).
  destruct (write_flags_areas (areas m') (vm_id v) f Hok) as (Hok2 & Hid2 & Hpg2 & Hlen2).
  assert (Htot : total_vm (ctr m) +u (len / PAGE_SIZE) = total_vm (ctr m) + len / PAGE_SIZE).
  { rewrite <- shift_page. rewrite (total_after m len Hwf Hlen). by rewrite shift_page. }
  rewrite account_ctr, Hctr. split; [|done].
  constructor; rewrite ?account_ctr; cbn; rewrite ?vma_write_spec; fold f.
  - done.
  - by rewrite Hid2.
  - apply Forall_forall. intros x Hx.
    assert (Hxi : vm_id x ∈ vm_id <$> write_area (vm_id v) (set_flags f) (areas m')).
    { apply list_elem_of_fmap. eauto. }
    rewrite Hid2 in Hxi. apply list_elem_of_fmap in Hxi as (y & -> & Hy).
    rewrite Forall_forall in Hfr. by apply Hfr.
  - by rewrite Hcnt, Hlen2.
  - rewrite Hctr, Htot, (wf_total m Hwf), Hpg2, Hpg. done.
Qed.

Lemma write_same_view (l : list vma) v :
  NoDup (vm_id <$> l) -> v ∈ l ->
  same_pages l (write_area (vm_id v) (set_flags (Z.lor (vm_flags v) VM_SOFTDIRTY)) l).
Proof.
  intros Hnd Hin. apply list_elem_of_split in Hin as (l1 & l2 & ->).
  rewrite write_one by done. apply app_same_pages; [done|]. intros a. rewrite !view_cons.
  unfold covers, page_of. cbn. by rewrite ldiff_lor_same.
Qed.

(** ** Gaps and charges *)

(** A range with nothing mapped is a gap of the list. *)
Lemma unmapped_gap addr len m :
  mm_wf m -> 0 <= addr -> addr mod PAGE_SIZE = 0 -> 0 < len -> len mod PAGE_SIZE = 0 ->
  addr + len <= TASK_SIZE -> (forall a, addr <= a < addr + len -> view (areas m) a = None) ->
  exists l k, gap_at addr len l k m.
Proof.
  intros Hwf Ha Haa Hl Hla Htop Hv.
  destruct (split_at addr (addr + len) (areas m) (wf_areas m Hwf)) as (l & mid & k & Hm & Hlo & Hmid & Hk & _);
    [lia|].
  assert (mid = []) as ->.
  { destruct mid as [|x mid]; [done|]. exfalso. apply Forall_cons in Hmid as [[Hx1 Hx2] _].
    assert (Hx : x ∈ areas m) by (rewrite Hm; set_solver).
    pose proof (wf_areas m Hwf) as [_ Hok]. rewrite Forall_forall in Hok. destruct (Hok x Hx).
    specialize (Hv (Z.max addr (vm_start x)) ltac:(lia)). unfold view in Hv.
    destruct (filter _ (areas m)) as [|y ys] eqn:Hf; [|done].
    apply (filter_nil_not_elem_of _ _ x) in Hf; [done|]. unfold covers. lia. }
  exists l, k. constructor; done || lia.
Qed.

Lemma gap_committed addr len l k c m :
  gap_at addr len l k m -> gap_at addr len l k (set_committed c m).
Proof. by intros []. Qed.

Lemma wf_committed c m : mm_wf m -> mm_wf (set_committed c m).
Proof. by intros []. Qed.

Lemma locked_account flags : flag_set (Z.lor flags VM_ACCOUNT) VM_LOCKED = flag_set flags VM_LOCKED.
Proof. unfold flag_set. rewrite Z.land_lor_distr_l. change (Z.land VM_ACCOUNT VM_LOCKED) with 0. by rewrite Z.lor_0_r. Qed.

Lemma shared_account flags : flag_set (Z.lor flags VM_ACCOUNT) VM_SHARED = flag_set flags VM_SHARED.
Proof. unfold flag_set. rewrite Z.land_lor_distr_l. change (Z.land VM_ACCOUNT VM_SHARED) with 0. by rewrite Z.lor_0_r. Qed.

(** Charging the range to the overcommit accounting leaves areas, counters and lock. *)
Lemma charge_kept (acc : bool) e' n m1 granted m2 addr len l k :
  (if acc then vm_enough_memory e' n m1 else (true, m1)) = (granted, m2) -> mm_wf m1 -> gap_at addr len l k m1 ->
  (m2 = m1 \/ exists c, m2 = set_committed c m1) /\ mm_wf m2 /\ areas m2 = areas m1 /\ ctr m2 = ctr m1 /\ mmap_lock m2 = mmap_lock m1 /\ gap_at addr len l k m2.
Proof.
  intros Hch Hwf Hgap. assert (m2 = m1 \/ exists c, m2 = set_committed c m1) as Hm.
  { unfold vm_enough_memory in Hch. destruct acc; [destruct (enough_memory _ _)|]; injection Hch as <- <-; eauto. }
  split; [done|]. destruct Hm as [->|[c ->]]; split_and!; try done; [by apply wf_committed|by apply gap_committed].
Qed.

End spec.

(** *** A concrete process *)

(** A chooser that answers the hint. *)
Definition brk_env1 : brk_env := {|
  vm := MmSpec.env0; arch_mmap_check := fun _ _ _ => 0;
  mm_get_unmapped_area := fun _ a _ _ _ => u64 a; file_get_unmapped_area := fun _ => None;
  shmem_get_unmapped_area := fun _ a _ _ _ => u64 a; thp_get_unmapped_area := None;
  security_mmap_addr := fun _ => 0; vm_start_gap := vm_start; stack_guard_gap := 1048576;
  ops_close := fun _ => false; check_data_rlimit := fun _ _ _ _ _ => 0;
  min_brk_is_end_data := false; vm_area_alloc_ok := true; iter_store_ok := fun _ => true;
  VM_DATA_DEFAULT_FLAGS := 0x73 |}.

Definition map_env0 : map_env := {|
  be := brk_env1; is_file_hugepages := fun _ => false; path_noexec := fun _ => false;
  fmode_read := fun _ => true; fmode_write := fun _ => true; fmode_unsigned_offset := fun _ => false;
  inode_of := fun _ => RegularFile; is_append := fun _ => false; is_swapfile := fun _ => false;
  has_mmap := fun _ => true; mmap_supported_flags := fun _ => 0; read_implies_exec := false;
  execute_only_pkey := 0; calc_vm_prot_bits := fun prot _ => prot; calc_vm_flag_bits := fun _ => 0;
  can_do_mlock := true; overcommit_never := false; mmap_min_addr := 65536;
  LEGACY_MAP_MASK := 0xfffff; MAX_LFS_FILESIZE := 2 ^ 63 - 1;
  call_mmap := fun _ v => (0, v); mapping_map_writable := fun _ => 0;
  shmem_zero_setup := fun v => (0, v); map_deny_write_exec := fun _ => false;
  arch_validate_flags := fun _ => true; never_mlocked := fun _ => false;
  anon_clone := fun _ _ => 0 |}.

Lemma heap_mm_ok : mm_wf (heap_mm 102400).
Proof. apply (heap_mm_wf 102400). done. Qed.

End MmapSpec.
