(* ===== verification/MergeSpec.v ===== *)
(** * Correctness of [vma_merge]

    Whatever of its eight cases applies, a merge gives the range the pages asked for and
    leaves every other page as it was, and the areas stay ordered, disjoint, distinct
    and counted. *)
From S2P Require Import Prelude Vma Mm MmSpec Brk BrkSpec Mmap MmapSpec.

Module MergeSpec.
Import Mm MmSpec Brk BrkSpec Mmap MmapSpec.

(** ** Pages along one line of offsets *)

(** [v] has at each address the page [w] would have there. *)
Definition same_line (v w : vma) : Prop := fits (vm_flags w) (vm_file w) (vm_pgoff w) (vm_start w) v.

Lemma line_page v w a : same_line v w -> page_of v a = page_of w a.
Proof. intros Hl. by rewrite (fits_page _ _ _ _ _ a Hl). Qed.

Lemma line_fits flags file pgoff addr v w :
  same_line v w -> fits flags file pgoff addr w -> fits flags file pgoff addr v.
Proof. intros [H1 H2 H3] [G1 G2 G3]. split; congruence. Qed.

Section spec.
Context {T : Type} `{VmaTree T} (e : map_env).
Implicit Types m : mm_struct T.
Notation areas m := (vmas (mm_mt m)).

(** ** Replacing a run of areas *)

(** The outcome of a merge: [g] pages more are mapped. *)
Record merged (g addr len flags : Z) (file : option Z) (pgoff : Z) (v : vma) m m' : Prop := {
  mg_areas : areas_ok (areas m');
  mg_ids : NoDup (vm_id <$> areas m');
  mg_fresh : Forall (fun x => vm_id x < next_id m') (areas m');
  mg_count : map_count m' = Z.of_nat (length (areas m'));
  mg_pages : pages (areas m') = pages (areas m) + g;
  mg_view a : view (areas m') a =
    if decide (addr <= a < addr + len) then Some (req_page flags file pgoff addr a)
    else view (areas m) a;
  mg_in : v ∈ areas m';
  mg_range : vm_start v <= addr /\ addr + len <= vm_end v;
  mg_frame : same_frame m m'
}.

Lemma retile l old new k m t n g addr len flags file pgoff v :
  mm_wf m -> areas m = l ++ old ++ k -> vmas t = l ++ new ++ k -> areas_ok (l ++ new ++ k) ->
  sublist (vm_id <$> new) (vm_id <$> old) ->
  n = Z.of_nat (length old) - Z.of_nat (length new) -> pages new = pages old + g ->
  (forall a, view new a =
     if decide (addr <= a < addr + len) then Some (req_page flags file pgoff addr a) else view old a) ->
  v ∈ new -> vm_start v <= addr /\ addr + len <= vm_end v ->
  merged g addr len flags file pgoff v m (set_areas t (map_count m - n) (next_id m) m).
Proof.
  intros [Hok Hnd Hfr Hcnt Htot] Hm Ht Hok' Hids -> Hpg Hview Hv Hr. rewrite Hm in *.
  assert (Hidall : sublist (vm_id <$> (l ++ new ++ k)) (vm_id <$> (l ++ old ++ k))).
  { rewrite !fmap_app. by repeat apply sublist_app. }
  split; cbn; rewrite ?Ht; try done.
  - by eapply sublist_NoDup.
  - apply Forall_forall. intros x Hx. rewrite Forall_forall in Hfr.
    assert (Hin : vm_id x ∈ vm_id <$> (l ++ old ++ k)).
    { eapply elem_of_sublist; [|exact Hidall]. by apply list_elem_of_fmap_2. }
    apply list_elem_of_fmap in Hin as (y & -> & Hy). by apply Hfr.
  - rewrite Hcnt, !length_app. lia.
  - rewrite Hm, !pages_app. lia.
  - intros a. rewrite Hm, !view_app, Hview. destruct (decide _) as [Ha|Ha]; [|done].
    rewrite view_none; [done|]. intros x Hx. apply areas_ok_app in Hok' as (_ & _ & Hlk).
    assert (Hb : before x v) by (apply Hlk; set_solver). unfold before, covers in *. lia.
  - set_solver.
Qed.

Lemma placed_merged addr len flags file pgoff v m m' :
  placed addr len flags file pgoff v m m' -> vm_start v <= addr /\ addr + len <= vm_end v ->
  merged (len / PAGE_SIZE) addr len flags file pgoff v m m'.
Proof. intros [] Hr. by split. Qed.

(** One area takes the place of a run of areas, one of which it is. *)
Lemma merge_one l old k m v v' n g addr len flags file pgoff :
  mm_wf m -> areas m = l ++ old ++ k -> v ∈ old -> vm_id v' = vm_id v -> vma_ok v' ->
  Forall (fun x => vm_end x <= vm_start v') l -> Forall (fun x => vm_end v' <= vm_start x) k ->
  Forall (fun x => vm_start v' <= vm_start x /\ vm_end x <= vm_end v') old ->
  n = Z.of_nat (length old) - 1 -> vma_pages v' = pages old + g ->
  (forall a, view [v'] a =
     if decide (addr <= a < addr + len) then Some (req_page flags file pgoff addr a) else view old a) ->
  vm_start v' <= addr /\ addr + len <= vm_end v' ->
  merged g addr len flags file pgoff v' m
    (set_areas (mt_store v' (vma_write (vm_id v) (fun _ => v') (mm_mt m))) (map_count m - n) (next_id m) m).
Proof.
  intros Hwf Hm Hv Hid Hok Hl Hk Hins -> Hpg Hview Hr.
  pose proof (wf_areas m Hwf) as Hall. rewrite Hm in Hall.
  apply areas_ok_app in Hall as (Hokl & Hokr & Hlr). apply areas_ok_app in Hokr as (_ & Hokk & _).
  assert (Hok' : areas_ok (l ++ v' :: k)).
  { rewrite areas_ok_app, areas_ok_cons. rewrite Forall_forall in Hl, Hk. unfold before. split_and!; try done.
    intros x y Hx [->|Hy]%elem_of_cons; [by apply Hl|]. apply Hlr; [done|]. set_solver. }
  apply (retile l old [v'] k); try done.
  - by apply (store_over v v' l old k).
  - cbn. rewrite Hid. apply list_elem_of_fmap_2' with (f := vm_id) (y := vm_id v) in Hv; [|done].
    by apply singleton_sublist_l.
  - cbn [pages foldr]. lia.
  - set_solver.
Qed.

(** Two areas whose border moves. *)
Lemma merge_two l a b k m t a' b' v addr len flags file pgoff :
  mm_wf m -> areas m = l ++ [a; b] ++ k -> vm_id a' = vm_id a -> vm_id b' = vm_id b ->
  vma_ok a' -> vma_ok b' -> vm_start a' = vm_start a -> vm_end a' = vm_start b' -> vm_end b' = vm_end b ->
  vm_end a = vm_start b -> vmas t = l ++ [a'; b'] ++ k ->
  (forall x, view [a'; b'] x =
     if decide (addr <= x < addr + len) then Some (req_page flags file pgoff addr x) else view [a; b] x) ->
  v = a' \/ v = b' -> vm_start v <= addr /\ addr + len <= vm_end v ->
  merged 0 addr len flags file pgoff v m (set_areas t (map_count m) (next_id m) m).
Proof.
  intros Hwf Hm Hia Hib Ha Hb Has Hab Hbe Habe Ht Hview Hv Hr.
  pose proof (wf_areas m Hwf) as Hall. rewrite Hm in Hall.
  apply areas_ok_app in Hall as (Hokl & Hokr & Hlr).
  apply areas_ok_cons in Hokr as (Ha0 & (Hb0 & Hokk & Hbk)%areas_ok_cons & Hak).
  replace (map_count m) with (map_count m - 0) by lia.
  apply (retile l [a; b] [a'; b'] k); try done.
  - rewrite areas_ok_app. cbn [app]. rewrite !areas_ok_cons. unfold before. split_and!; try done.
    + intros y Hy. specialize (Hbk y Hy). unfold before in Hbk. lia.
    + intros y [->|Hy]%elem_of_cons; [lia|]. specialize (Hbk y Hy). unfold before in Hbk. destruct Hb. lia.
    + intros x y Hx [->|[->|Hy]%elem_of_cons]%elem_of_cons.
      * assert (before x a) by (apply Hlr; set_solver). unfold before in *. lia.
      * assert (before x a) by (apply Hlr; set_solver). unfold before in *. destruct Ha. lia.
      * apply Hlr; set_solver.
  - cbn. by rewrite Hia, Hib.
  - cbn [pages foldr]. rewrite !vma_pages_ok by done.
    destruct Ha0, Hb0, Ha, Hb. unfold PAGE_SIZE in *. Z.to_euclidean_division_equations; lia.
  - set_solver.
Qed.

(** ** Carrying out a plan *)

Lemma dup_anon_same v n r v1 :
  dup_anon_vma e v n = (r, v1) ->
  vm_id v1 = vm_id v /\ vm_flags v1 = vm_flags v /\ vm_file v1 = vm_file v /\ vm_start v1 = vm_start v /\
  vm_end v1 = vm_end v /\ vm_pgoff v1 = vm_pgoff v.
Proof. unfold dup_anon_vma. intros Hd. repeat case_match; simplify_eq; done. Qed.

Lemma apply_one p m :
  pl_adjust p = None -> pl_adj_start p = 0 ->
  pl_start p < vm_start (pl_vma p) \/ vm_end (pl_vma p) < pl_end p ->
  let v' := set_range (pl_start p) (pl_end p) (pl_pgoff p) (pl_vma p) in
  apply_merge_plan p m =
    (v', set_areas (mt_store v' (vma_write (vm_id (pl_vma p)) (fun _ => v') (mm_mt m)))
           (map_count m - pl_removed p) (next_id m) m).
Proof.
  intros Ha Hz Hx. unfold apply_merge_plan. rewrite Ha, Hz.
  assert (((pl_start p <? vm_start (pl_vma p)) || (vm_end (pl_vma p) <? pl_end p)) = true) as ->.
  { apply orb_true_iff. rewrite !Z.ltb_lt. done. }
  cbn. by destruct (pl_result_is_next p).
Qed.

(** ** Where a range may be merged *)

(** A free range, the start of an area, or the inside of one: what the callers pass, with
    the area before (or around) the range and the offset of the range.  [g] are the pages
    a merge adds. *)
Inductive merge_site (prev : option vma) (addr len pgoff : Z) m : Z -> Prop :=
  | site_gap l k : gap_at addr len l k m -> prev = last l -> merge_site prev addr len pgoff m (len / PAGE_SIZE)
  | site_area l c k : areas m = l ++ c :: k -> prev = last l -> vm_start c = addr -> addr + len <= vm_end c ->
      vm_pgoff c = pgoff -> merge_site prev addr len pgoff m 0
  | site_inside l p k : areas m = l ++ p :: k -> prev = Some p -> vm_start p < addr -> addr + len <= vm_end p ->
      pgoff = vm_pgoff p +u ((addr -u vm_start p) >>u PAGE_SHIFT) -> is_u64 (vm_pgoff p) ->
      merge_site prev addr len pgoff m 0.

Section cases.
Context (addr len flags : Z) (file : option Z) (pgoff : Z).
Hypothesis Hlen : 0 < len /\ len mod PAGE_SIZE = 0.
Hypothesis Haddr : addr mod PAGE_SIZE = 0.

Ltac tiles := intros a; rewrite ?view_cons, ?view_nil; unfold covers;
  repeat (destruct (decide _)); try lia; try done.

Lemma joined_ok v w u :
  vma_ok v -> vma_ok w -> vm_start u = vm_start v -> vm_end u = vm_end w -> vm_end v <= vm_start w -> vma_ok u.
Proof. intros [] [] Hs He Hb. split; rewrite ?Hs, ?He; done || lia. Qed.

(** Case 6. *)
Lemma case_both l p c n k m v' :
  mm_wf m -> areas m = l ++ [p; c; n] ++ k -> vm_end p = addr -> vm_start c = addr -> vm_end c = addr + len ->
  vm_start n = addr + len -> fits flags file pgoff addr p -> fits flags file pgoff addr n ->
  vm_id v' = vm_id p -> vm_flags v' = vm_flags p -> vm_file v' = vm_file p -> vm_pgoff v' = vm_pgoff p ->
  vm_start v' = vm_start p -> vm_end v' = vm_end n ->
  merged 0 addr len flags file pgoff v' m
    (set_areas (mt_store v' (vma_write (vm_id p) (fun _ => v') (mm_mt m))) (map_count m - 2) (next_id m) m).
Proof.
  intros Hwf Hm E1 E2 E3 E4 Fp Fn Hid Hfl Hfi Ho Hs He.
  pose proof (wf_areas m Hwf) as Hok. rewrite Hm in Hok. apply areas_ok_app in Hok as (_ & Hok & Hl).
  cbn [app] in Hok. apply areas_ok_cons in Hok as (Hp & (Hc & (Hn & _ & Hnk)%areas_ok_cons & _)%areas_ok_cons & _).
  assert (Hln : same_line v' p) by (split; [congruence|done|congruence]).
  assert (Fv : fits flags file pgoff addr v') by (by eapply line_fits).
  destruct Hp as [P1 P2 P3 P4 P5], Hc as [C1 C2 C3 C4 C5], Hn as [N1 N2 N3 N4 N5].
  apply (merge_one l [p; c; n] k m p v'); try done.
  - set_solver.
  - split; rewrite ?Hs, ?He; done || lia.
  - apply Forall_forall. intros x Hx. assert (before x p) by (apply Hl; set_solver). unfold before in *. lia.
  - apply Forall_forall. intros x Hx. assert (before n x) by (by apply Hnk). unfold before in *. lia.
  - repeat constructor; lia.
  - cbn [pages foldr]. rewrite !vma_pages_ok by (split; rewrite ?Hs, ?He; done || lia). rewrite Hs, He.
    unfold PAGE_SIZE in *. Z.to_euclidean_division_equations; lia.
  - tiles; f_equal; first [by apply fits_page | by apply line_page | idtac].
    rewrite (fits_page _ _ _ _ _ a Fv). by rewrite (fits_page _ _ _ _ _ a Fn).
  - lia.
Qed.

(** Case 7. *)
Lemma case_prev l p c k m v' :
  mm_wf m -> areas m = l ++ [p; c] ++ k -> vm_end p = addr -> vm_start c = addr -> vm_end c = addr + len ->
  fits flags file pgoff addr p ->
  vm_id v' = vm_id p -> vm_flags v' = vm_flags p -> vm_file v' = vm_file p -> vm_pgoff v' = vm_pgoff p ->
  vm_start v' = vm_start p -> vm_end v' = addr + len ->
  merged 0 addr len flags file pgoff v' m
    (set_areas (mt_store v' (vma_write (vm_id p) (fun _ => v') (mm_mt m))) (map_count m - 1) (next_id m) m).
Proof.
  intros Hwf Hm E1 E2 E3 Fp Hid Hfl Hfi Ho Hs He.
  pose proof (wf_areas m Hwf) as Hok. rewrite Hm in Hok. apply areas_ok_app in Hok as (_ & Hok & Hl).
  cbn [app] in Hok. apply areas_ok_cons in Hok as (Hp & (Hc & _ & Hck)%areas_ok_cons & _).
  assert (Hln : same_line v' p) by (split; [congruence|done|congruence]).
  assert (Fv : fits flags file pgoff addr v') by (by eapply line_fits).
  destruct Hp as [P1 P2 P3 P4 P5], Hc as [C1 C2 C3 C4 C5].
  apply (merge_one l [p; c] k m p v'); try done.
  - set_solver.
  - split; rewrite ?Hs, ?He, <- ?E3; done || lia.
  - apply Forall_forall. intros x Hx. assert (before x p) by (apply Hl; set_solver). unfold before in *. lia.
  - apply Forall_forall. intros x Hx. assert (before c x) by (by apply Hck). unfold before in *. lia.
  - repeat constructor; lia.
  - cbn [pages foldr]. rewrite !vma_pages_ok by (split; rewrite ?Hs, ?He, <- ?E3; done || lia). rewrite Hs, He.
    unfold PAGE_SIZE in *. Z.to_euclidean_division_equations; lia.
  - tiles; f_equal; first [by apply fits_page | by apply line_page].
  - lia.
Qed.

(** Case 8. *)
Lemma case_next l c n k m v' :
  mm_wf m -> areas m = l ++ [c; n] ++ k -> vm_start c = addr -> vm_end c = addr + len ->
  vm_start n = addr + len -> fits flags file pgoff addr n ->
  vm_id v' = vm_id n -> vm_flags v' = vm_flags n -> vm_file v' = vm_file n -> vm_pgoff v' = pgoff ->
  vm_start v' = addr -> vm_end v' = vm_end n ->
  merged 0 addr len flags file pgoff v' m
    (set_areas (mt_store v' (vma_write (vm_id n) (fun _ => v') (mm_mt m))) (map_count m - 1) (next_id m) m).
Proof.
  intros Hwf Hm E1 E2 E3 Fn Hid Hfl Hfi Ho Hs He.
  pose proof (wf_areas m Hwf) as Hok. rewrite Hm in Hok. apply areas_ok_app in Hok as (_ & Hok & Hl).
  cbn [app] in Hok. apply areas_ok_cons in Hok as (Hc & (Hn & _ & Hnk)%areas_ok_cons & _).
  assert (Fv : fits flags file pgoff addr v').
  { destruct Fn as [F1 F2 F3]. split; [congruence|congruence|]. by rewrite Ho, Hs. }
  destruct Hn as [N1 N2 N3 N4 N5], Hc as [C1 C2 C3 C4 C5].
  apply (merge_one l [c; n] k m n v'); try done.
  - set_solver.
  - split; rewrite ?Hs, ?He, <- ?E1; done || lia.
  - apply Forall_forall. intros x Hx. assert (before x c) by (apply Hl; set_solver). unfold before in *. lia.
  - apply Forall_forall. intros x Hx. assert (before n x) by (by apply Hnk). unfold before in *. lia.
  - repeat constructor; lia.
  - cbn [pages foldr]. rewrite !vma_pages_ok by (split; rewrite ?Hs, ?He, <- ?E1; done || lia). rewrite Hs, He.
    unfold PAGE_SIZE in *. Z.to_euclidean_division_equations; lia.
  - tiles; f_equal; try (by apply fits_page).
    rewrite (fits_page _ _ _ _ _ a Fv). by rewrite (fits_page _ _ _ _ _ a Fn).
  - lia.
Qed.

(** The offset of the second part of an area that was cut or extended at [b]. *)
Lemma moved_line v v' b :
  vma_ok v -> b mod PAGE_SIZE = 0 -> vm_flags v' = vm_flags v -> vm_file v' = vm_file v -> vm_start v' = b ->
  vm_pgoff v' = vm_pgoff v +u Z.shiftr (b - vm_start v) PAGE_SHIFT -> same_line v' v.
Proof.
  intros [V1 V2 V3 V4 V5] Hb Hfl Hfi Hs Ho. split; [congruence|done|].
  rewrite Ho, Hs, u64_sub_l. f_equal. unfold PAGE_SHIFT. rewrite Z.shiftr_div_pow2 by lia.
  unfold PAGE_SIZE in *. change (2 ^ 12) with 4096. Z.to_euclidean_division_equations; lia.
Qed.

(** Case 5: the area before takes the start of [c]. *)
Lemma case_take l p c k m p' c' :
  mm_wf m -> areas m = l ++ [p; c] ++ k -> vm_end p = addr -> vm_start c = addr -> addr + len < vm_end c ->
  fits flags file pgoff addr p ->
  vm_id p' = vm_id p -> vm_flags p' = vm_flags p -> vm_file p' = vm_file p -> vm_pgoff p' = vm_pgoff p ->
  vm_start p' = vm_start p -> vm_end p' = addr + len ->
  c' = set_pgoff (vm_pgoff c +u Z.shiftr (addr + len - vm_start c) PAGE_SHIFT) (set_start (addr + len) c) ->
  merged 0 addr len flags file pgoff p' m
    (set_areas (mt_store p' (vma_write (vm_id c) (fun _ => c') (vma_write (vm_id p) (fun _ => p') (mm_mt m))))
       (map_count m) (next_id m) m).
Proof.
  intros Hwf Hm E1 E2 E3 Fp Hid Hfl Hfi Ho Hs He Hc'.
  pose proof (wf_areas m Hwf) as Hok. rewrite Hm in Hok. apply areas_ok_app in Hok as (Hokl & Hok & Hl).
  cbn [app] in Hok. apply areas_ok_cons in Hok as (Hp & (Hc & Hokk & Hck)%areas_ok_cons & _).
  assert (Hln : same_line p' p) by (split; [congruence|done|congruence]).
  assert (Fv : fits flags file pgoff addr p') by (by eapply line_fits).
  assert (Hend : (addr + len) mod PAGE_SIZE = 0) by (unfold PAGE_SIZE in *; Z.to_euclidean_division_equations; lia).
  assert (Hlc : same_line c' c) by (subst c'; by apply (moved_line c _ (addr + len))).
  assert (Hsc : vm_start c' = addr + len /\ vm_end c' = vm_end c /\ vm_id c' = vm_id c) by (by subst c').
  destruct Hsc as (S1 & S2 & S3). clear Hc'. pose proof Hp as [P1 P2 P3 P4 P5]. pose proof Hc as [C1 C2 C3 C4 C5].
  assert (Hp' : vma_ok p') by (split; rewrite ?Hs, ?He; done || lia).
  assert (Hcc : vma_ok c') by (split; rewrite ?S1, ?S2; done || lia).
  assert (Hnd := wf_ids m Hwf). rewrite Hm in Hnd.
  assert (Hw : vmas (vma_write (vm_id c) (fun _ => c') (vma_write (vm_id p) (fun _ => p') (mm_mt m)))
             = l ++ [p'] ++ (c' :: k)).
  { rewrite !vma_write_spec, Hm. cbn [app]. rewrite write_one by done. rewrite cons_middle, app_assoc.
    rewrite write_one; [by rewrite <- app_assoc|]. rewrite <- app_assoc. cbn [app].
    rewrite !fmap_app, !fmap_cons, Hid in *. done. }
  assert (Hok' : areas_ok (l ++ p' :: c' :: k)).
  { rewrite areas_ok_app, !areas_ok_cons. unfold before. split_and!; try done.
    - intros y Hy. rewrite S2. by apply Hck.
    - intros y [->|Hy]%elem_of_cons; [lia|]. specialize (Hck y Hy). unfold before in Hck. lia.
    - intros x y Hx Hy. assert (before x p) by (apply Hl; set_solver). unfold before in *.
      apply elem_of_cons in Hy as [->|[->|Hy]%elem_of_cons]; [lia|lia|]. specialize (Hck y Hy). unfold before in Hck. lia. }
  apply (merge_two l p c k m _ p' c' p'); try done; try lia.
  - destruct (store_between p' l [p'] (c' :: k) Hok') as [Hst Hwh]; [constructor; [lia|done]|].
    rewrite mt_store_spec; rewrite Hw; done.
  - tiles; f_equal; first [by apply fits_page | by apply line_page].
  - by left.
Qed.

(** Case 4: the area after takes the end of [p]. *)
Lemma case_give l p n k m p' n' :
  mm_wf m -> areas m = l ++ [p; n] ++ k -> vm_start p < addr -> vm_end p = addr + len ->
  vm_start n = addr + len -> fits flags file pgoff addr n ->
  vm_id p' = vm_id p -> vm_flags p' = vm_flags p -> vm_file p' = vm_file p -> vm_pgoff p' = vm_pgoff p ->
  vm_start p' = vm_start p -> vm_end p' = addr ->
  vm_id n' = vm_id n -> vm_flags n' = vm_flags n -> vm_file n' = vm_file n -> vm_start n' = addr ->
  vm_end n' = vm_end n -> vm_pgoff n' = vm_pgoff n +u Z.shiftr (addr - vm_start n) PAGE_SHIFT ->
  merged 0 addr len flags file pgoff n' m
    (set_areas (mt_store n' (vma_write (vm_id n) (fun _ => n') (vma_write (vm_id p) (fun _ => p') (mm_mt m))))
       (map_count m) (next_id m) m).
Proof.
  intros Hwf Hm E1 E2 E3 Fn Hid Hfl Hfi Ho Hs He Nid Nfl Nfi Ns Ne No.
  pose proof (wf_areas m Hwf) as Hok. rewrite Hm in Hok. apply areas_ok_app in Hok as (Hokl & Hok & Hl).
  cbn [app] in Hok. apply areas_ok_cons in Hok as (Hp & (Hn & Hokk & Hnk)%areas_ok_cons & _).
  assert (Hlp : same_line p' p) by (split; [congruence|done|congruence]).
  assert (Hln : same_line n' n) by (by apply (moved_line n _ addr)).
  assert (Fv : fits flags file pgoff addr n') by (by eapply line_fits).
  pose proof Hp as [P1 P2 P3 P4 P5]. pose proof Hn as [N1 N2 N3 N4 N5].
  assert (Hp' : vma_ok p') by (split; rewrite ?Hs, ?He; done || lia).
  assert (Hn' : vma_ok n') by (split; rewrite ?Ns, ?Ne; done || lia).
  assert (Hnd := wf_ids m Hwf). rewrite Hm in Hnd.
  assert (Hw : vmas (vma_write (vm_id n) (fun _ => n') (vma_write (vm_id p) (fun _ => p') (mm_mt m)))
             = (l ++ [p']) ++ [n'] ++ k).
  { rewrite !vma_write_spec, Hm. cbn [app]. rewrite write_one by done. rewrite cons_middle, app_assoc.
    rewrite write_one; [done|]. rewrite <- app_assoc. cbn [app]. rewrite !fmap_app, !fmap_cons, Hid in *. done. }
  assert (Hok' : areas_ok ((l ++ [p']) ++ n' :: k)).
  { rewrite <- app_assoc. cbn [app]. rewrite areas_ok_app, !areas_ok_cons. unfold before. split_and!; try done.
    - intros y Hy. rewrite Ne. by apply Hnk.
    - intros y [->|Hy]%elem_of_cons; [lia|]. specialize (Hnk y Hy). unfold before in Hnk. lia.
    - intros x y Hx Hy. assert (before x p) by (apply Hl; set_solver). unfold before in *.
      apply elem_of_cons in Hy as [->|[->|Hy]%elem_of_cons]; [lia|lia|]. specialize (Hnk y Hy). unfold before in Hnk. lia. }
  apply (merge_two l p n k m _ p' n' n'); try done; try lia.
  - destruct (store_between n' (l ++ [p']) [n'] k Hok') as [Hst Hwh]; [constructor; [lia|done]|].
    rewrite mt_store_spec; rewrite Hw; [|done]. rewrite Hst. by rewrite <- app_assoc.
  - tiles; f_equal; try (by apply fits_page); try (by apply line_page).
  - by right.
Qed.
End cases.

(** ** What the lookups find *)

Lemma first_met lo hi (l : list vma) v k :
  Forall (fun x => vm_end x <= lo \/ hi < vm_start x) l -> lo < vm_end v -> vm_start v <= hi ->
  first_area lo hi (l ++ v :: k) = Some v.
Proof.
  intros Hl H1 H2. unfold first_area. rewrite filter_app, filter_none; [by rewrite filter_cons_True|].
  eapply Forall_impl; [exact Hl|]. cbn. lia.
Qed.

Lemma find_none lo hi (l : list vma) :
  Forall (fun x => vm_end x <= lo \/ hi < vm_start x) l -> first_area lo hi l = None.
Proof. intros Hl. unfold first_area. rewrite filter_none; [done|]. eapply Forall_impl; [exact Hl|]. cbn. lia. Qed.

Definition end_of (prev : option vma) : Z := match prev with Some p => vm_end p | None => 0 end.

Lemma end_of_last (l : list vma) : areas_ok l -> Forall (fun x => vm_end x <= end_of (last l)) l.
Proof.
  intros Hok. destruct l as [|p l] using rev_ind; [done|]. rewrite last_snoc. cbn [end_of].
  apply areas_ok_app in Hok as (_ & (Hp & _ & _)%areas_ok_cons & Hb). apply Forall_app. split; [|by constructor].
  apply Forall_forall. intros x Hx. assert (before x p) by (apply Hb; set_solver). destruct Hp. unfold before in *. lia.
Qed.

(** The area at [b], when everything before ends there at the latest and [k] starts there at
    the earliest. *)
Lemma find_at (l k : list vma) b n :
  areas_ok k -> Forall (fun x => vm_end x <= b) l -> Forall (fun x => b <= vm_start x) k ->
  first_area b b (l ++ k) = Some n -> exists k', k = n :: k' /\ vm_start n = b.
Proof.
  intros Hok Hl Hk Hf. unfold first_area in Hf. rewrite filter_app, filter_none in Hf; cycle 1.
  { eapply Forall_impl; [exact Hl|]. cbn. lia. }
  cbn [app] in Hf. destruct k as [|x k]; [done|]. apply Forall_cons in Hk as [Hx Hk].
  apply areas_ok_cons in Hok as (Hxok & Hkok & Hb). rewrite filter_cons in Hf. case_decide as Hd.
  - injection Hf as <-. exists k. split; [done|lia].
  - rewrite filter_none in Hf; [done|]. apply Forall_forall. intros y Hy. specialize (Hb y Hy). unfold before in Hb.
    destruct Hxok. lia.
Qed.

(** ** The plan *)

Lemma merge_shape prev addr end_ flags anon file pgoff policy uffd name m r m' :
  vma_merge e prev addr end_ flags anon file pgoff policy uffd name m = (r, m') ->
  let pglen := (end_ -u addr) >>u PAGE_SHIFT in
  let curr := find_vma_intersection m (end_of prev) end_ in
  let next := match curr with
              | None => mt_find (mm_mt m) end_ end_
              | Some c => if end_ =? vm_end c then mt_find (mm_mt m) end_ end_ else None
              end in
  (r = None /\ m' = m) \/
  exists pl v, r = Some v /\ apply_merge_plan pl m = (v, m') /\ pl_err pl = 0 /\
    let after p := vm_end p = addr /\ can_vma_merge_after (be e) p flags anon file pgoff uffd name = true in
    let before n := can_vma_merge_before (be e) n flags anon file (pgoff +u pglen) uffd name = true in
    ((exists p n, prev = Some p /\ next = Some n /\ after p /\ before n /\ pl = merge_both e p n curr) \/
     (exists p, prev = Some p /\ after p /\ pl = merge_into_prev e p curr end_) \/
     (exists n, next = Some n /\ before n /\ pl = merge_into_next e prev n curr addr pglen)).
Proof.
  cbv zeta. unfold vma_merge, end_of. destruct (flag_set flags VM_SPECIAL); [intros [= <- <-]; by left|].
  set (curr := find_vma_intersection _ _ _). set (next := match curr with None => _ | Some c => _ end).
  set (pglen := (end_ -u addr) >>u PAGE_SHIFT).
  set (mp := match prev with Some p => _ | None => false end).
  set (mn := match next with Some n => _ | None => false end).
  assert (Hmp : mp = true -> exists p, prev = Some p /\ vm_end p = addr /\
            can_vma_merge_after (be e) p flags anon file pgoff uffd name = true).
  { unfold mp. destruct prev as [p|]; [|done]. rewrite !andb_true_iff, Z.eqb_eq. intros ((H1 & _) & H2). by exists p. }
  assert (Hmn : mn = true -> exists n, next = Some n /\
            can_vma_merge_before (be e) n flags anon file (pgoff +u pglen) uffd name = true).
  { unfold mn. destruct next as [n|]; [|done]. rewrite andb_true_iff. intros (_ & H2). by exists n. }
  destruct (vma_merge_plan e prev curr next mp mn addr end_ pglen) as [pl|] eqn:Hpl; [|intros [= <- <-]; by left].
  destruct (Z.eqb_spec (pl_err pl) 0) as [Herr|]; cbn [negb]; [|intros [= <- <-]; by left].
  destruct (iter_prealloc_ok _ (pl_vma pl)); cbn [negb]; [|intros [= <- <-]; by left].
  destruct (apply_merge_plan pl m) as [v m2] eqn:Hap. intros [= <- <-]. right. exists pl, v.
  split; [done|]. split; [done|]. split; [done|]. unfold vma_merge_plan in Hpl. clearbody mp mn.
  destruct prev as [p|], next as [n|]; [| | |done].
  - destruct (mp && mn && _) eqn:Hb.
    + injection Hpl as <-. apply andb_true_iff in Hb as [[-> ->]%andb_true_iff _].
      destruct (Hmp eq_refl) as (p0 & [= <-] & ?), (Hmn eq_refl) as (n0 & [= <-] & ?). left. by exists p, n.
    + destruct mp.
      * injection Hpl as <-. destruct (Hmp eq_refl) as (p0 & [= <-] & ?). right; left. by exists p.
      * destruct mn; [|done]. injection Hpl as <-. destruct (Hmn eq_refl) as (n0 & [= <-] & ?). right; right. by exists n.
  - destruct mp; [|done]. injection Hpl as <-. destruct (Hmp eq_refl) as (p0 & [= <-] & ?). right; left. by exists p.
  - destruct mn; [|done]. injection Hpl as <-. destruct (Hmn eq_refl) as (n0 & [= <-] & ?). right; right. by exists n.
Qed.

(** ** The cases of the source *)

Lemma both_fields p n curr :
  pl_err (merge_both e p n curr) = 0 ->
  let pl := merge_both e p n curr in
  vm_id (pl_vma pl) = vm_id p /\ vm_flags (pl_vma pl) = vm_flags p /\ vm_file (pl_vma pl) = vm_file p /\
  vm_start (pl_vma pl) = vm_start p /\ vm_end (pl_vma pl) = vm_end p /\
  pl_start pl = vm_start p /\ pl_end pl = vm_end n /\ pl_pgoff pl = vm_pgoff p /\ pl_adjust pl = None /\
  pl_adj_start pl = 0 /\ pl_removed pl = match curr with Some _ => 2 | None => 1 end.
Proof.
  cbv zeta. unfold merge_both. destruct (dup_anon_vma e p n) as [r1 p1] eqn:H1.
  apply dup_anon_same in H1 as (A1 & A2 & A3 & A4 & A5 & A6). intros _.
  destruct curr as [c|]; [|by cbn]. destruct (anon_vma n); [by cbn|].
  destruct (dup_anon_vma e p1 c) as [r2 p2] eqn:H2. apply dup_anon_same in H2 as (B1 & B2 & B3 & B4 & B5 & B6).
  cbn. split_and!; congruence.
Qed.

Lemma merge_pglen addr len :
  0 <= addr -> 0 < len -> addr + len <= TASK_SIZE -> (addr + len -u addr) >>u PAGE_SHIFT = len / PAGE_SIZE.
Proof.
  intros H1 H2 H3. rewrite shift_page. f_equal. rewrite u64_small; unfold TASK_SIZE, PAGE_SIZE in *; lia.
Qed.

Context (addr len flags : Z) (anon file : option Z) (pgoff : Z) (policy uffd name : option Z).
Context (Hlen : 0 < len /\ len mod PAGE_SIZE = 0) (Haddr : 0 <= addr /\ addr mod PAGE_SIZE = 0)
  (Htop : addr + len <= TASK_SIZE).

(** The range is free: cases 1, 2 and 3. *)
Lemma merge_gap l k m r m' :
  mm_wf m -> gap_at addr len l k m ->
  vma_merge e (last l) addr (addr + len) flags anon file pgoff policy uffd name m = (r, m') ->
  match r with
  | None => m' = m
  | Some v => merged (len / PAGE_SIZE) addr len flags file pgoff v m m'
  end.
Proof.
  intros Hwf Hgap Hmg. pose proof (merge_shape _ _ _ _ _ _ _ _ _ _ _ _ _ Hmg) as Hs. cbv zeta in Hs.
  rewrite merge_pglen in Hs by lia. pose proof Hgap as [Hm Hl Hk _ _ _].
  pose proof (wf_areas m Hwf) as Hok. rewrite Hm in Hok. apply areas_ok_app in Hok as (Hokl & Hokk & _).
  assert (Hcurr : find_vma_intersection m (end_of (last l)) (addr + len) = None).
  { unfold find_vma_intersection. rewrite mt_find_spec, Hm, u64_small by (unfold TASK_SIZE, PAGE_SIZE in *; lia).
    apply find_none, Forall_app. split; [eapply Forall_impl; [apply (end_of_last l Hokl)|]; cbn; lia|].
    eapply Forall_impl; [exact Hk|]. cbn. lia. }
  rewrite Hcurr in Hs. rewrite mt_find_spec, Hm in Hs.
  assert (Hnext : forall n, first_area (addr + len) (addr + len) (l ++ k) = Some n ->
            exists k', k = n :: k' /\ vm_start n = addr + len).
  { intros n. apply find_at; [done| |done]. eapply Forall_impl; [exact Hl|]. cbn. lia. }
  assert (Hprev : forall p, last l = Some p -> vm_end p <= addr /\ vma_ok p /\ exists l', l = l' ++ [p]).
  { intros p Hp. apply last_Some in Hp as [l' ->]. apply Forall_app in Hl as [_ Hl%Forall_cons].
    apply areas_ok_app in Hokl as (_ & (Hpo & _ & _)%areas_ok_cons & _). split; [apply Hl|]. split; [done|]. by exists l'. }
  destruct Hs as [[-> ->]|(pl & v & -> & Hap & Herr & Hc)]; [done|].
  destruct Hc as [(p & n & Hp & Hn & [Hpe Hca] & Hcb & ->)|[(p & Hp & [Hpe Hca] & ->)|(n & Hn & Hcb & ->)]].
  - destruct (Hprev p Hp) as (_ & Hpo & l' & ->). destruct (Hnext n Hn) as (k' & -> & Hns).
    destruct (both_fields p n None Herr) as (B1 & B2 & B3 & B4 & B5 & B6 & B7 & B8 & B9 & B10 & B11).
    assert (Hno : vma_ok n) by (by apply areas_ok_cons in Hokk as (? & _ & _)). destruct Hno.
    rewrite apply_one in Hap by (try done; rewrite B4, B5, B6, B7; lia). injection Hap as <- <-.
    apply placed_merged; [|cbn; rewrite B6, B7; destruct Hpo; lia]. rewrite B1, B11.
    apply (place_joined addr len flags file pgoff l' p n k'); try done.
    + by eapply fits_after.
    + eapply fits_before; [exact Hcb|done|by destruct Hlen].
  - destruct (Hprev p Hp) as (_ & Hpo & l' & ->). unfold merge_into_prev in Hap.
    rewrite apply_one in Hap by (try done; cbn; lia). injection Hap as <- <-. cbn [pl_vma pl_removed].
    apply placed_merged; [|cbn; destruct Hpo; lia].
    apply (place_after addr len flags file pgoff l' p k); try done. by eapply fits_after.
  - destruct (Hnext n Hn) as (k' & -> & Hns).
    assert (Hno : vma_ok n) by (by apply areas_ok_cons in Hokk as (? & _ & _)).
    assert (Hpl : merge_into_next e (last l) n None addr (len / PAGE_SIZE)
      = Build_merge_plan n addr (vm_end n) (vm_pgoff n -u (len / PAGE_SIZE)) None 0 0 true 0).
    { unfold merge_into_next. destruct (last l) as [p|] eqn:Hp; [|done]. destruct (Hprev p eq_refl) as (Hpe & _).
      by rewrite (proj2 (Z.ltb_ge _ _)). }
    rewrite Hpl in Hap. rewrite apply_one in Hap by (try done; cbn; lia). injection Hap as <- <-. cbn [pl_vma pl_removed].
    apply placed_merged; [|cbn; destruct Hno; lia].
    apply (place_before addr len flags file pgoff l n k'); try done.
    eapply fits_before; [exact Hcb|done|by destruct Hlen].
Qed.

(** The area before takes all of the area, or its first pages: cases 6 and 5. *)
Lemma area_into_prev l p c k m v m' :
  mm_wf m -> areas m = l ++ [p; c] ++ k -> vma_ok p -> vma_ok c -> vm_end p = addr -> vm_start c = addr -> addr + len <= vm_end c ->
  fits flags file pgoff addr p -> pl_err (merge_into_prev e p (Some c) (addr + len)) = 0 ->
  apply_merge_plan (merge_into_prev e p (Some c) (addr + len)) m = (v, m') ->
  merged 0 addr len flags file pgoff v m m'.
Proof.
  intros Hwf Hm [P1 P2 P3 P4 P5] [C1 C2 C3 C4 C5] Hpe Hcs Hce Hfp Herr Hap. unfold merge_into_prev in Hap, Herr.
  destruct (Z.eqb_spec (addr + len) (vm_end c)) as [He|Hne].
  - destruct (if match vm_ops c with Some o => _ | None => false end then _ else _) as [r1 p1] eqn:Hd.
    cbn in Herr. subst r1.
    assert (Hdd : dup_anon_vma e p c = (0, p1)) by (destruct (match vm_ops c with Some _ => _ | None => _ end); done).
    apply dup_anon_same in Hdd as (A1 & A2 & A3 & A4 & A5 & A6).
    rewrite apply_one in Hap by (try done; cbn; lia). injection Hap as <- <-. cbn [pl_vma pl_removed].
    rewrite A1. by apply (case_prev addr len flags file pgoff Hlen (proj2 Haddr) l p c k).
  - destruct (dup_anon_vma e p c) as [r1 p1] eqn:Hd. apply dup_anon_same in Hd as (A1 & A2 & A3 & A4 & A5 & A6).
    unfold apply_merge_plan in Hap. cbn [pl_vma pl_start pl_end pl_pgoff pl_adjust pl_adj_start pl_removed pl_result_is_next] in Hap.
    rewrite A4, A5, Z.ltb_irrefl, (proj2 (Z.ltb_lt (vm_end p) (addr + len))) in Hap by lia.
    rewrite (proj2 (Z.ltb_ge (addr + len - vm_start c) 0)) in Hap by lia. cbn [orb] in Hap. injection Hap as <- <-.
    rewrite Z.sub_0_r, A1.
    replace (vm_start c +u (addr + len - vm_start c)) with (addr + len)
      by (rewrite u64_small; unfold TASK_SIZE, PAGE_SIZE in *; lia).
    apply (case_take addr len flags file pgoff Hlen (proj2 Haddr) l p c k); try done. lia.
Qed.

(** The area after takes all of it: case 8. *)
Lemma area_into_next l c n k m v m' :
  mm_wf m -> areas m = l ++ [c; n] ++ k -> vma_ok n -> (forall p, last l = Some p -> vm_end p <= addr) ->
  vm_start c = addr -> vm_end c = addr + len -> vm_pgoff c = pgoff -> vm_start n = addr + len -> fits flags file pgoff addr n ->
  apply_merge_plan (merge_into_next e (last l) n (Some c) addr (len / PAGE_SIZE)) m = (v, m') ->
  merged 0 addr len flags file pgoff v m m'.
Proof.
  intros Hwf Hm [N1 N2 N3 N4 N5] Hprev Hcs Hce' Hco Hns Hfn Hap.
  assert (Hpl : exists r1 n1, dup_anon_vma e n c = (r1, n1) /\
    merge_into_next e (last l) n (Some c) addr (len / PAGE_SIZE)
    = Build_merge_plan n1 addr (vm_end n) (vm_pgoff c) None 0 1 true r1).
  { unfold merge_into_next. destruct (dup_anon_vma e n c) as [r1 n1]. exists r1, n1. split; [done|].
    destruct (last l) as [p|] eqn:Hp; [|done]. specialize (Hprev p eq_refl).
    by rewrite (proj2 (Z.ltb_ge _ _)). }
  destruct Hpl as (r1 & n1 & Hd & Hpl). apply dup_anon_same in Hd as (A1 & A2 & A3 & A4 & A5 & A6).
  rewrite Hpl in Hap. rewrite apply_one in Hap by (try done; cbn; lia). injection Hap as <- <-. cbn [pl_vma pl_removed].
  rewrite A1. apply (case_next addr len flags file pgoff Hlen (proj2 Haddr) l c n k); try done.
Qed.

(** The range is the start of an area: cases 5 to 8. *)
Lemma merge_area l c k m r m' :
  mm_wf m -> areas m = l ++ c :: k -> vm_start c = addr -> addr + len <= vm_end c -> vm_pgoff c = pgoff ->
  vma_merge e (last l) addr (addr + len) flags anon file pgoff policy uffd name m = (r, m') ->
  match r with None => m' = m | Some v => merged 0 addr len flags file pgoff v m m' end.
Proof.
  intros Hwf Hm Hcs Hce Hco Hmg. pose proof (merge_shape _ _ _ _ _ _ _ _ _ _ _ _ _ Hmg) as Hs. cbv zeta in Hs.
  rewrite merge_pglen in Hs by lia.
  pose proof (wf_areas m Hwf) as Hok. rewrite Hm in Hok.
  apply areas_ok_app in Hok as (Hokl & (Hc & Hokk & Hck)%areas_ok_cons & Hlc). pose proof Hc as [C1 C2 C3 C4 C5].
  assert (Hl : Forall (fun x => vm_end x <= addr) l).
  { apply Forall_forall. intros x Hx. rewrite <- Hcs. apply (Hlc x c Hx). set_solver. }
  assert (Hprev : forall p, last l = Some p -> vm_end p <= addr /\ vma_ok p /\ exists l', l = l' ++ [p]).
  { intros p Hp. apply last_Some in Hp as [l' ->]. apply Forall_app in Hl as [_ Hl%Forall_cons].
    apply areas_ok_app in Hokl as (_ & (Hpo & _ & _)%areas_ok_cons & _). split; [apply Hl|]. split; [done|]. by exists l'. }
  assert (Hcurr : find_vma_intersection m (end_of (last l)) (addr + len) = Some c).
  { unfold find_vma_intersection. rewrite mt_find_spec, Hm, u64_small by (unfold TASK_SIZE, PAGE_SIZE in *; lia).
    apply first_met; [eapply Forall_impl; [apply (end_of_last l Hokl)|]; cbn; lia| |lia].
    unfold end_of. destruct (last l) as [p|] eqn:Hp; [destruct (Hprev p eq_refl); lia|lia]. }
  rewrite Hcurr in Hs.
  assert (Hnext : forall n, (if addr + len =? vm_end c then mt_find (mm_mt m) (addr + len) (addr + len) else None) = Some n ->
            vm_end c = addr + len /\ vm_start n = addr + len /\ exists k', k = n :: k').
  { intros n Hn. destruct (Z.eqb_spec (addr + len) (vm_end c)) as [He|]; [|done]. split; [done|].
    rewrite mt_find_spec, Hm in Hn. change (c :: k) with ([c] ++ k) in Hn. rewrite app_assoc in Hn.
    apply find_at in Hn as (k' & -> & ?); [split; [done|by exists k']|done| |].
    - apply Forall_app. split; [|by constructor; [lia|]]. eapply Forall_impl; [exact Hl|]. cbn. lia.
    - apply Forall_forall. intros y Hy. specialize (Hck y Hy). unfold before in Hck. lia. }
  destruct Hs as [[-> ->]|(pl & v & -> & Hap & Herr & Hca)]; [done|].
  destruct Hca as [(p & n & Hp & Hn & [Hpe Hca] & Hcb & ->)|[(p & Hp & [Hpe Hca] & ->)|(n & Hn & Hcb & ->)]].
  - destruct (Hprev p Hp) as (_ & Hpo & l' & ->). destruct (Hnext n Hn) as (Hce' & Hns & k' & ->).
    destruct (both_fields p n (Some c) Herr) as (B1 & B2 & B3 & B4 & B5 & B6 & B7 & B8 & B9 & B10 & B11).
    assert (Hno : vma_ok n) by (by apply areas_ok_cons in Hokk as (? & _ & _)). destruct Hno.
    rewrite apply_one in Hap by (try done; rewrite B4, B5, B6, B7; lia). injection Hap as <- <-.
    rewrite B1, B11. rewrite <- app_assoc in Hm.
    apply (case_both addr len flags file pgoff Hlen (proj2 Haddr) l' p c n k'); try done.
    + by eapply fits_after.
    + eapply fits_before; [exact Hcb|done|by destruct Hlen].
  - destruct (Hprev p Hp) as (_ & Hpo & l' & ->). rewrite <- app_assoc in Hm.
    apply (area_into_prev l' p c k m v m'); try done. by eapply fits_after.
  - destruct (Hnext n Hn) as (Hce' & Hns & k' & ->). apply areas_ok_cons in Hokk as (Hno & _ & _).
    apply (area_into_next l c n k' m v m'); try done; [by intros p []%Hprev|].
    eapply fits_before; [exact Hcb|done|by destruct Hlen].
Qed.

(** The range lies inside the area before its end: case 4, or no merge. *)
Lemma merge_inside l p k m r m' :
  mm_wf m -> areas m = l ++ p :: k -> vm_start p < addr -> addr + len <= vm_end p ->
  pgoff = vm_pgoff p +u ((addr -u vm_start p) >>u PAGE_SHIFT) -> is_u64 (vm_pgoff p) ->
  vma_merge e (Some p) addr (addr + len) flags anon file pgoff policy uffd name m = (r, m') ->
  match r with None => m' = m | Some v => merged 0 addr len flags file pgoff v m m' end.
Proof.
  intros Hwf Hm Hps Hpe Hpo Hpu Hmg. pose proof (merge_shape _ _ _ _ _ _ _ _ _ _ _ _ _ Hmg) as Hs. cbv zeta in Hs.
  rewrite merge_pglen in Hs by lia.
  pose proof (wf_areas m Hwf) as Hok. rewrite Hm in Hok.
  apply areas_ok_app in Hok as (Hokl & (Hp & Hokk & Hpk)%areas_ok_cons & Hlp). pose proof Hp as [P1 P2 P3 P4 P5].
  assert (Hl : Forall (fun x => vm_end x <= vm_start p) l).
  { apply Forall_forall. intros x Hx. apply (Hlp x p Hx). set_solver. }
  assert (Hk : Forall (fun x => vm_end p <= vm_start x) k).
  { apply Forall_forall. intros x Hx. by apply Hpk. }
  assert (Hcurr : find_vma_intersection m (end_of (Some p)) (addr + len) = None).
  { unfold find_vma_intersection. rewrite mt_find_spec, Hm, u64_small by (unfold TASK_SIZE, PAGE_SIZE in *; lia).
    cbn [end_of]. apply find_none, Forall_app. split; [|constructor; [lia|]]; (eapply Forall_impl; [eassumption|]); cbn; lia. }
  rewrite Hcurr in Hs. rewrite mt_find_spec, Hm in Hs.
  destruct Hs as [[-> ->]|(pl & v & -> & Hap & Herr & Hca)]; [done|].
  destruct Hca as [(p0 & n & [= <-] & Hn & [Hpe' _] & _ & _)|[(p0 & [= <-] & [Hpe' _] & _)|(n & Hn & Hcb & ->)]]; [lia|lia|].
  assert (Hnx : vm_end p = addr + len /\ vm_start n = addr + len /\ exists k', k = n :: k').
  { destruct (decide (vm_end p = addr + len)) as [He|Hne].
    - split; [done|]. change (p :: k) with ([p] ++ k) in Hn. rewrite app_assoc in Hn.
      apply find_at in Hn as (k' & -> & ?); [split; [done|by exists k']|done| |].
      + apply Forall_app. split; [|by constructor; [lia|]]. eapply Forall_impl; [exact Hl|]. cbn. lia.
      + eapply Forall_impl; [exact Hk|]. cbn. lia.
    - exfalso. rewrite first_met in Hn; [|eapply Forall_impl; [exact Hl|]; cbn; lia|lia|lia]. injection Hn as <-.
      unfold can_vma_merge_before in Hcb. apply andb_true_iff in Hcb as [_ Hcb]. apply Z.eqb_eq in Hcb.
      rewrite Hpo, shift_page, (u64_small (addr - vm_start p)) in Hcb by (unfold TASK_SIZE, PAGE_SIZE in *; lia).
      rewrite u64_add_l in Hcb. unfold is_u64, u64 in *. unfold TASK_SIZE, PAGE_SIZE in *.
      Z.to_euclidean_division_equations; lia. }
  destruct Hnx as (He & Hns & k' & ->).
  assert (Hno : vma_ok n) by (by apply areas_ok_cons in Hokk as (? & _ & _)). pose proof Hno as [N1 N2 N3 N4 N5].
  unfold merge_into_next in Hap, Herr. rewrite (proj2 (Z.ltb_lt addr (vm_end p))) in Hap, Herr by lia.
  destruct (dup_anon_vma e n p) as [r1 n1] eqn:Hd. apply dup_anon_same in Hd as (A1 & A2 & A3 & A4 & A5 & A6).
  unfold apply_merge_plan in Hap. cbn [pl_vma pl_start pl_end pl_pgoff pl_adjust pl_adj_start pl_removed pl_result_is_next] in Hap.
  rewrite Z.ltb_irrefl, (proj2 (Z.ltb_ge (vm_end p) addr)) in Hap by lia.
  rewrite (proj2 (Z.ltb_lt (- (vm_end p - addr)) 0)) in Hap by lia. cbn [orb] in Hap. injection Hap as <- <-.
  rewrite Z.sub_0_r, A1.
  apply (case_give addr len flags file pgoff Hlen (proj2 Haddr) l p n k'); try done.
  - eapply fits_before; [exact Hcb|done|by destruct Hlen].
  - cbn. rewrite A4, Hns, He. rewrite u64_small; unfold TASK_SIZE, PAGE_SIZE in *; lia.
  - cbn. rewrite A6, Hns, He. f_equal. f_equal. f_equal. lia.
Qed.

Lemma vma_merge_spec g prev m r m' :
  mm_wf m -> merge_site prev addr len pgoff m g ->
  vma_merge e prev addr (addr + len) flags anon file pgoff policy uffd name m = (r, m') ->
  match r with None => m' = m | Some v => merged g addr len flags file pgoff v m m' end.
Proof.
  intros Hwf [l k Hgap ->|l c k Hm -> Hs He Ho|l p k Hm -> Hs He Ho Hu] Hmg.
  - by eapply merge_gap.
  - by eapply merge_area.
  - by eapply merge_inside.
Qed.
End spec.

(** ** The claims *)

Section claims.
Context {T : Type} `{VmaTree T} (e : map_env).
Notation areas m := (vmas (mm_mt m)).

(** C8. [vma_merge] on any range its callers pass (free, at the start of an area, or inside
    one): when it merges, in whichever of its eight cases, the range has exactly the pages
    asked for (flags, file, consecutive offsets) and every other page is as before; the
    areas stay ordered, disjoint, aligned, with distinct structures and counted by
    [map_count], the area returned holds the range, and the mapped pages grow by the
    range when it was free and not at all otherwise; when it does not merge, nothing has
    changed. *)
Theorem vma_merge_correct prev addr len flags anon file pgoff policy uffd name g (m : mm_struct T) r m' :
  mm_wf m -> 0 <= addr -> addr mod PAGE_SIZE = 0 -> 0 < len -> len mod PAGE_SIZE = 0 ->
  addr + len <= TASK_SIZE -> merge_site prev addr len pgoff m g ->
  vma_merge e prev addr (addr + len) flags anon file pgoff policy uffd name m = (r, m') ->
  match r with None => m' = m | Some v => merged g addr len flags file pgoff v m m' end.
Proof. intros Hwf Ha Haa Hl Hla Htop. by apply vma_merge_spec. Qed.

(** The area before the range, or around its start, as the callers of [vma_modify] pass
    it. *)
Definition modify_prev (l : list vma) (v : vma) (start : Z) : option vma :=
  if vm_start v <? start then Some v else last l.

(** One [split_vma]: the areas are cut or nothing happened. *)
Lemma split_step v a below (m : mm_struct T) err v' m' l k :
  mm_wf m -> areas m = l ++ v :: k -> a mod PAGE_SIZE = 0 -> vm_start v < a < vm_end v ->
  split_vma (vm (be e)) v a below m = (err, v', m') ->
  (err <> 0 /\ m' = m) \/
  (err = 0 /\ resplit m m' /\ exists w1 w2, areas m' = l ++ w1 :: w2 :: k /\ v' = (if below then w2 else w1) /\
     halves v w1 w2 a).
Proof.
  intros Hwf Hm Ha Hin. unfold split_vma. destruct (_ <=? map_count m); [intros [= <- <- <-]; by left|].
  destruct (Z.eq_dec err 0) as [->|Hne]; intros Hs.
  - right. split; [done|]. destruct (split_succeeds _ v a below m v' m' l k Hwf Hm Ha Hin Hs) as (w1 & w2 & H1 & H2 & H3 & H4).
    split; [done|]. by exists w1, w2.
  - left. by destruct (split_fails _ _ _ _ _ _ _ _ Hs Hne).
Qed.

(** [vma_modify] prepares the range [[start, end_)] of an area for a change: it returns an
    area of exactly this range after cutting others, which the process does not notice,
    or merges it with its neighbours as if it had changed already; on an error the
    process sees the same pages. *)
Theorem vma_modify_correct l v k start end_ flags policy uffd name (m : mm_struct T) r m' :
  mm_wf m -> areas m = l ++ v :: k -> is_u64 (vm_pgoff v) ->
  start mod PAGE_SIZE = 0 -> end_ mod PAGE_SIZE = 0 -> vm_start v <= start < end_ -> end_ <= vm_end v ->
  vma_modify e (modify_prev l v start) v start end_ flags policy uffd name m = (r, m') ->
  match r with
  | inl err => err <> 0 /\ resplit m m'
  | inr w =>
      (resplit m m' /\ w ∈ areas m' /\ vm_start w = start /\ vm_end w = end_) \/
      merged 0 start (end_ - start) flags (vm_file v)
        (vm_pgoff v +u ((start -u vm_start v) >>u PAGE_SHIFT)) w m m'
  end.
Proof.
  intros Hwf Hm Hpu Hsa Hea Hs He. unfold vma_modify. set (pgoff := vm_pgoff v +u _).
  pose proof (wf_areas m Hwf) as Hok. rewrite Hm in Hok.
  apply areas_ok_app in Hok as (_ & (Hv & _ & _)%areas_ok_cons & _). pose proof Hv as [V1 V2 V3 V4 V5].
  set (len := end_ - start). assert (Hend : end_ = start + len) by (unfold len; lia).
  assert (Hla : len mod PAGE_SIZE = 0) by (unfold len, PAGE_SIZE in *; Z.to_euclidean_division_equations; lia).
  assert (Hsite : merge_site (modify_prev l v start) start len pgoff m 0).
  { unfold modify_prev. destruct (Z.ltb_spec (vm_start v) start).
    - by eapply (site_inside _ _ _ _ _ l v k); try done; [lia].
    - assert (vm_start v = start) by lia. eapply (site_area _ _ _ _ _ l v k); try done; [lia|].
      unfold pgoff. replace (start -u vm_start v) with 0 by (rewrite u64_small; lia).
      change (0 >>u PAGE_SHIFT) with 0. rewrite Z.add_0_r. symmetry. by apply u64_small. }
  destruct (vma_merge _ _ _ _ _ _ _ _ _ _ _ m) as [mr m1] eqn:Hmg. rewrite Hend in Hmg.
  assert (Hlen : 0 < len) by lia. assert (Hs0 : 0 <= start) by lia. assert (Htop : start + len <= TASK_SIZE) by lia.
  pose proof (vma_merge_spec e start len flags (anon_vma v) (vm_file v) pgoff policy uffd name
    (conj Hlen Hla) (conj Hs0 Hsa) Htop 0 _ m mr m1 Hwf Hsite Hmg) as Hout.
  destruct mr as [w|]; [intros [= <- <-]; by right|]. subst m1.
  destruct (if vm_start v <? start then _ else _) as [[err1 v1] m1] eqn:Hs1.
  assert (Hfirst : (err1 <> 0 /\ m1 = m) \/ (err1 = 0 /\ resplit m m1 /\ exists l1, areas m1 = l1 ++ v1 :: k /\
            vm_start v1 = start /\ vm_end v1 = vm_end v)).
  { destruct (Z.ltb_spec (vm_start v) start).
    - destruct (split_step v start true m err1 v1 m1 l k Hwf Hm Hsa ltac:(lia) Hs1)
        as [?|(-> & Hr & w1 & w2 & H1 & -> & Hh)]; [by left|]. right. split; [done|]. split; [done|].
      exists (l ++ [w1]). rewrite <- app_assoc. split; [done|]. by destruct Hh.
    - injection Hs1 as <- <- <-. right. split; [done|]. split; [by apply resplit_refl|]. exists l.
      split; [done|]. split; [lia|done]. }
  destruct Hfirst as [[Hne ->]|(-> & Hr1 & l1 & Hm1 & E1 & E2)].
  { rewrite (proj2 (Z.eqb_neq err1 0)) by done. cbn [negb]. intros [= <- <-]. split; [done|]. by apply resplit_refl. }
  change (negb (0 =? 0)) with false. cbv iota.
  destruct (if end_ <? vm_end v1 then _ else _) as [[err2 v2] m2] eqn:Hs2.
  pose proof (rs_wf _ _ Hr1) as Hwf1.
  destruct (Z.ltb_spec end_ (vm_end v1)).
  - destruct (split_step v1 end_ false m1 err2 v2 m2 l1 k Hwf1 Hm1 Hea ltac:(lia) Hs2)
      as [[Hne ->]|(-> & Hr2 & w1 & w2 & H1 & -> & Hh)].
    + rewrite (proj2 (Z.eqb_neq err2 0)) by done. cbn [negb]. by intros [= <- <-].
    + change (negb (0 =? 0)) with false. cbv iota. intros [= <- <-]. left. split; [by eapply resplit_trans|].
      split; [rewrite H1; set_solver|]. destruct Hh as [[? ?] _ _ _ _ _]; split; congruence.
  - injection Hs2 as <- <- <-. change (negb (0 =? 0)) with false. cbv iota. intros [= <- <-]. left.
    split; [done|]. split; [rewrite Hm1; set_solver|]. split; [done|lia].
Qed.
End claims.
End MergeSpec.

(** ** A page of the second area of a small process takes the flags of the first *)

Module MergeDemo.
Import Mm MmSpec Brk BrkSpec Mmap MmapSpec MergeSpec.

Definition lower : vma := anon_area 1 65536 98304 0x100003.
Definition after_merge := vma_merge map_env0 (Some lower) 98304 (98304 + 4096) 0x100003 None None 24 None None None mm0.

Lemma vma_merge_correct_witness :
  (fst <$> [after_merge]) = [Some (anon_area 1 65536 102400 0x100003)] /\
  match after_merge.1 with
  | None => after_merge.2 = mm0
  | Some v => merged 0 98304 4096 0x100003 None 24 v mm0 after_merge.2
  end.
Proof.
  split; [vm_compute; reflexivity|].
  apply (vma_merge_correct map_env0 (Some lower) 98304 4096 0x100003 None None 24 None None None 0 mm0
           after_merge.1 after_merge.2 mm0_wf); try (by vm_compute).
  apply (site_area _ _ _ _ _ [lower] (anon_area 2 98304 131072 1) [anon_area 3 1048576 1056768 0x100103]);
    by vm_compute.
Defined.
End MergeDemo.
