(* ===== verification/MmapCalls.v ===== *)
(** * The mmap calls ([mm/mmap.c])

    What [mmap_region], [do_mmap] and [ksys_mmap_pgoff] do to an address space, whatever the
    driver of a mapped file makes of its area, and the limit across sequences of calls. *)
From S2P Require Import Prelude Gate MemLimit MemLimitSpec Vma Mm MmSpec Brk BrkSpec Mmap MmapSpec MergeSpec.

Module MmapCalls.
Import Mm MmSpec Brk BrkSpec Mmap MmapSpec MergeSpec.

Section spec.
Context {T : Type} `{VmaTree T} (e : map_env).
Implicit Types m : mm_struct T.
Notation areas m := (vmas (mm_mt m)).

(** ** Drivers *)

(** A driver answers an error code and leaves the structure at its range; flags, offset, file and
    operations are its own business. *)
Definition steady_driver (f : vma -> Z * vma) : Prop := forall v r v',
  f v = (r, v') -> errno r /\
  (r = 0 -> vm_id v' = vm_id v /\ vm_start v' = vm_start v /\ vm_end v' = vm_end v).

(** The area a request asks for, before its driver sees it. *)
Definition asked (addr len flags : Z) (file : option Z) (pgoff : Z) (v : vma) : Prop :=
  vm_start v = addr /\ vm_end v = addr + len /\ vm_file v = file /\ vm_pgoff v = pgoff /\
  (vm_flags v = flags \/ vm_flags v = Z.lor flags VM_ACCOUNT).

(** The flags, file and offset a request is mapped with: those asked for, or what the driver of
    the file, or the shared-memory file system, made of the area. *)
Inductive mapped_as (addr len flags : Z) (file : option Z) (pgoff : Z) : Z -> option Z -> Z -> Prop :=
  | as_asked fl : fl = flags \/ fl = Z.lor flags VM_ACCOUNT -> mapped_as addr len flags file pgoff fl file pgoff
  | as_driver f v v' : file = Some f -> asked addr len flags file pgoff v -> call_mmap e f v = (0, v') ->
      mapped_as addr len flags file pgoff (vm_flags v') (vm_file v') (vm_pgoff v')
  | as_shmem v v' : file = None -> flag_set flags VM_SHARED = true -> asked addr len flags file pgoff v ->
      shmem_zero_setup e v = (0, v') ->
      mapped_as addr len flags file pgoff (vm_flags v') (vm_file v') (vm_pgoff v').

(** Inserting an area into the gap. *)
Lemma insert_placed addr len l k v (fl : Z) m :
  mm_wf m -> gap_at addr len l k m -> vm_id v = next_id m -> vm_start v = addr -> vm_end v = addr + len ->
  match (if map_deny_write_exec e v then (inl (- EACCES), m)
         else if negb (arch_validate_flags e (vm_flags v)) then (inl (- EINVAL), m)
         else if negb (iter_prealloc_ok (vm (be e)) v) then (inl (- ENOMEM), m)
         else (inr (v, fl), set_areas (mt_store v (mm_mt m)) (map_count m + 1) (next_id m + 1) m))
  with
  | (inl err, m') => m' = m /\ errno err /\ err <> 0
  | (inr (w, fl'), m') => fl' = fl /\ w = v /\ placed addr len (vm_flags v) (vm_file v) (vm_pgoff v) v m m'
  end.
Proof.
  intros Hwf Hgap Hid Hs He. destruct (map_deny_write_exec _ _); [done|]. destruct (negb _); [done|].
  destruct (negb _); [done|]. split; [done|]. split; [done|]. by apply (place_new _ _ _ _ _ l k).
Qed.

(** The area of a merge has the flags asked for, but for the soft-dirty mark. *)
Lemma merged_locked g addr len flags file pgoff w m m' :
  merged g addr len flags file pgoff w m m' -> 0 < len -> flag_set (vm_flags w) VM_LOCKED = flag_set flags VM_LOCKED.
Proof.
  intros [Hok _ _ _ _ Hv Hin [Hr1 Hr2] _] Hl. specialize (Hv addr). rewrite decide_True in Hv by lia.
  assert (view (areas m') addr = Some (page_of w addr)) as Hw.
  { apply list_elem_of_split in Hin as (a & b & Hm). rewrite Hm in Hok |- *. apply areas_ok_app in Hok as (_ & _ & Hb).
    rewrite view_app, view_none, view_cons, decide_True; [done|unfold covers; lia|].
    intros x Hx. specialize (Hb x w Hx ltac:(by left)). unfold before, covers in *. lia. }
  rewrite Hw in Hv. injection Hv as Hfl _ _. unfold flag_set. f_equal. f_equal.
  apply (f_equal (fun z => Z.land z VM_LOCKED)) in Hfl. revert Hfl. rewrite !Z.ldiff_land, <- !Z.land_assoc.
  by change (Z.land (Z.lnot VM_SOFTDIRTY) VM_LOCKED) with VM_LOCKED.
Qed.

(** Label [cannot_expand]: an error changes nothing; otherwise the pages are placed, in an area of
    their own or merged with the neighbours after the driver changed the flags. *)
Lemma new_placed addr len flags fl file pgoff l k m :
  mm_wf m -> gap_at addr len l k m -> fl = flags \/ fl = Z.lor flags VM_ACCOUNT ->
  (forall f, steady_driver (call_mmap e f)) -> steady_driver (shmem_zero_setup e) ->
  (forall f, errno (mapping_map_writable e f)) ->
  match mmap_new e file addr (addr + len) fl pgoff (last l) m with
  | (inl err, m') => m' = m /\ errno err /\ err <> 0
  | (inr (v, fa), m') => exists fl' file' pgoff', mapped_as addr len flags file pgoff fl' file' pgoff' /\
      flag_set fa VM_LOCKED = flag_set (match file with Some _ => fl' | None => flags end) VM_LOCKED /\
      placed addr len fl' file' pgoff' v m m'
  end.
Proof.
  intros Hwf Hgap Hfl Hdrv Hshm Hmw. unfold mmap_new. destruct (negb (vm_area_alloc_ok _)); [done|].
  cbv zeta. set (v0 := Vma _ _ _ _ _ _ _ _ _ _ _ _).
  assert (Hask : asked addr len flags file pgoff v0) by done.
  destruct file as [f|].
  - destruct (call_mmap e f v0) as [r v] eqn:Hcall. destruct (Hdrv f v0 r v Hcall) as [Her Hst].
    destruct (Z.eqb_spec r 0) as [->|]; cbn [negb]; [|done]. destruct (Hst eq_refl) as (Hid & Hs & He). cbn in Hid, Hs, He.
    destruct (Z.eqb_spec (if vma_is_shared_maywrite v then mapping_map_writable e f else 0) 0) as [Hz|Hnz]; cbn [negb];
      [|split_and!; [done| |done]; by destruct (vma_is_shared_maywrite v); [apply Hmw|]].
    destruct (negb (addr =? vm_start v)); [done|].
    pose proof (insert_placed addr len l k v (vm_flags v) m Hwf Hgap Hid Hs He) as Hins.
    assert (Hput : match (if map_deny_write_exec e v then (inl (- EACCES), m)
         else if negb (arch_validate_flags e (vm_flags v)) then (inl (- EINVAL), m)
         else if negb (iter_prealloc_ok (vm (be e)) v) then (inl (- ENOMEM), m)
         else (inr (v, vm_flags v), set_areas (mt_store v (mm_mt m)) (map_count m + 1) (next_id m + 1) m))
      with
      | (inl err, m') => m' = m /\ errno err /\ err <> 0
      | (inr (w, fa), m') => exists fl' file' pgoff', mapped_as addr len flags (Some f) pgoff fl' file' pgoff' /\
          flag_set fa VM_LOCKED = flag_set fl' VM_LOCKED /\ placed addr len fl' file' pgoff' w m m'
      end).
    { destruct (if map_deny_write_exec e v then _ else _) as [[err|[w fl']] m']; [done|].
      destruct Hins as (-> & -> & Hpl). eexists _, _, _. split; [by eapply as_driver|done]. }
    destruct (negb (fl =? vm_flags v) && bool_decide (is_Some (last l))); [|exact Hput].
    unfold vma_merge_new_vma. rewrite Hs, He.
    destruct (vma_merge _ _ _ _ _ _ _ _ _ _ _ m) as [[w|] m'] eqn:Hmg; [|exact Hput].
    pose proof Hgap as [_ _ _ Hga Hgl Hgt].
    pose proof (merge_gap e addr len (vm_flags v) (anon_vma v) (vm_file v) (vm_pgoff v) (vm_policy v) (vm_uffd v) (anon_name v)
      Hgl Hga Hgt l k m (Some w) m' Hwf Hgap Hmg) as Hm. pose proof Hm as [].
    exists (vm_flags v), (vm_file v), (vm_pgoff v). split; [by eapply as_driver|]. split; [|by split].
    eapply merged_locked; [exact Hm|apply Hgl].
  - destruct (flag_set fl VM_SHARED) eqn:Hsh.
    + destruct (shmem_zero_setup e v0) as [r v] eqn:Hcall. destruct (Hshm v0 r v Hcall) as [Her Hst].
      destruct (Z.eqb_spec r 0) as [->|]; cbn [negb]; [|done]. destruct (Hst eq_refl) as (Hid & Hs & He).
      pose proof (insert_placed addr len l k v fl m Hwf Hgap Hid Hs He) as Hins.
      destruct (if map_deny_write_exec e v then _ else _) as [[err|[w fl']] m']; [done|].
      destruct Hins as (-> & -> & Hpl). eexists _, _, _.
      split_and!; [|by destruct Hfl as [->| ->]; rewrite ?locked_account|done].
      apply (as_shmem _ _ _ _ _ v0 v); [done| |done|done].
      by destruct Hfl as [->| ->]; rewrite ?shared_account in Hsh.
    + pose proof (insert_placed addr len l k v0 fl m Hwf Hgap eq_refl eq_refl eq_refl) as Hins.
      destruct (if map_deny_write_exec e v0 then _ else _) as [[err|[w fl']] m']; [done|].
      destruct Hins as (-> & -> & Hpl). eexists _, _, _.
      split_and!; [by apply as_asked|by destruct Hfl as [->| ->]; rewrite ?locked_account|done].
Qed.

(** ** What accounting does to the pages *)

(** A page without the marks of [mlock]. *)
Definition lockless (p : page) : page := (Z.ldiff p.1.1 VM_LOCKED_MASK, p.1.2, p.2).

Lemma lockless_flags fl : Z.ldiff (Z.ldiff (Z.lor (Z.ldiff fl VM_LOCKED_MASK) VM_SOFTDIRTY) VM_SOFTDIRTY) VM_LOCKED_MASK
  = Z.ldiff (Z.ldiff fl VM_SOFTDIRTY) VM_LOCKED_MASK.
Proof.
  apply Z.bits_inj'. intros n Hn. rewrite !Z.ldiff_spec, Z.lor_spec, Z.ldiff_spec.
  by destruct (Z.testbit fl n), (Z.testbit VM_LOCKED_MASK n), (Z.testbit VM_SOFTDIRTY n).
Qed.

(** Accounting only touches the marks of [mlock], and not even those of a request without. *)
Lemma account_view addr len flags file pgoff v fa n m m' :
  placed addr len flags file pgoff v m m' ->
  (forall a, lockless <$> view (areas (mmap_account e v fa n m')) a = lockless <$> view (areas m') a) /\
  (flag_set fa VM_LOCKED = false -> same_pages (areas m') (areas (mmap_account e v fa n m'))).
Proof.
  intros [_ Hnd _ _ _ _ Hin _]. unfold mmap_account. cbn. rewrite vma_write_spec. split.
  - intros a. apply list_elem_of_split in Hin as (l1 & l2 & Hm). rewrite Hm in Hnd |- *. rewrite write_one by done.
    rewrite !view_app, !view_cons. destruct (view l1 a); [done|]. unfold covers. cbn [vm_start vm_end set_flags].
    destruct (decide _); [|done]. match goal with |- context [set_flags ?f v] => set (f' := f) end.
    assert (Z.ldiff (Z.ldiff f' VM_SOFTDIRTY) VM_LOCKED_MASK = Z.ldiff (Z.ldiff (vm_flags v) VM_SOFTDIRTY) VM_LOCKED_MASK) as Hf.
    { subst f'. destruct (_ && _); [apply lockless_flags|by rewrite ldiff_lor_same]. }
    unfold page_of, lockless. cbn. by rewrite Hf.
  - intros ->. cbn. by apply write_same_view.
Qed.

(** ** mmap_region *)

(** What [mmap_region] leaves, by its result. *)
Record region_outcome (addr len flags : Z) (file : option Z) (pgoff : Z) m (r : Z) m' : Prop := {
  ro_wf : mm_wf m';
  ro_lock : mmap_lock m' = mmap_lock m;
  ro_total : total_vm (ctr m') <= total_vm (ctr m) + len / PAGE_SIZE;
  ro_pages :
    (IS_ERR_VALUE r = true /\
     (same_pages (areas m) (areas m') \/
      forall a, view (areas m') a = if decide (addr <= a < addr + len) then None else view (areas m) a)) \/
    (r = addr /\ exists fl file' pgoff', mapped_as addr len flags file pgoff fl file' pgoff' /\
       let want a := if decide (addr <= a < addr + len) then Some (req_page fl file' pgoff' addr a)
                     else view (areas m) a in
       (forall a, lockless <$> view (areas m') a = lockless <$> want a) /\
       (flag_set (match file with Some _ => fl | None => flags end) VM_LOCKED = false ->
        forall a, view (areas m') a = want a))
}.

(** The area is placed: what remains is to account for it. *)
Lemma placed_outcome addr len flags fl fa file file' pgoff pgoff' v m m1 m2 m3 :
  unmapped addr (addr + len) false m m1 -> 0 <= len <= TASK_SIZE ->
  m2 = m1 \/ (exists c, m2 = set_committed c m1) ->
  mapped_as addr len flags file pgoff fl file' pgoff' ->
  flag_set fa VM_LOCKED = flag_set (match file with Some _ => fl | None => flags end) VM_LOCKED ->
  placed addr len fl file' pgoff' v m2 m3 ->
  region_outcome addr len flags file pgoff m addr (mmap_account e v fa (len / PAGE_SIZE) m3).
Proof.
  intros Hum Hlen Hm2 Has Hfa Hpl.
  assert (mm_wf m2 /\ total_vm (ctr m2) = total_vm (ctr m1) /\ areas m2 = areas m1 /\
          mmap_lock m2 = mmap_lock m1) as (Hwf2 & Ht2 & Ha2 & Hlk2).
  { destruct Hum. destruct Hm2 as [->|[c ->]]; split_and!; try done. by apply wf_committed. }
  pose proof (account_wf e _ _ _ _ _ _ fa _ _ Hwf2 Hpl Hlen) as (Hwf3 & Htot & _ & Hlk). cbv zeta in *.
  destruct (account_view _ _ _ _ _ _ fa (len / PAGE_SIZE) _ _ Hpl) as [Hv1 Hv2].
  destruct Hum as [_ Hv _ Hless _ Hlk1].
  assert (Hw : forall a, view (areas m3) a = if decide (addr <= a < addr + len) then Some (req_page fl file' pgoff' addr a) else view (areas m) a).
  { intros a. rewrite (pc_view _ _ _ _ _ _ _ _ Hpl a), Ha2, Hv. by destruct (decide _). }
  constructor; [done|congruence|lia|]. right. split; [done|]. exists fl, file', pgoff'. split; [done|]. split.
  - intros a. by rewrite Hv1, Hw.
  - intros Hnl a. rewrite <- (Hv2 ltac:(congruence) a). apply Hw.
Qed.

Lemma errno_err x : errno x -> x <> 0 -> IS_ERR_VALUE (u64 x) = true.
Proof. intros Hx Hne. apply err_value; [done|]. unfold errno, MAX_ERRNO in Hx. word_lia. Qed.

Lemma mmap_region_spec fuel file addr len flags pgoff m :
  mm_wf m -> (munmap_fuel m <= fuel)%nat ->
  0 <= addr -> addr mod PAGE_SIZE = 0 -> 0 < len -> len mod PAGE_SIZE = 0 -> addr + len <= TASK_SIZE ->
  (forall f, steady_driver (call_mmap e f)) -> steady_driver (shmem_zero_setup e) -> (forall f, errno (mapping_map_writable e f)) ->
  exists r m', mmap_region e fuel file addr len flags pgoff m = Some (r, m') /\
    region_outcome addr len flags file pgoff m r m'.
Proof.
  intros Hwf Hfuel Ha Haa Hl Hla Htop Hdrv Hshm Hmw. unfold mmap_region. cbv zeta.
  assert (Hlen : 0 <= len <= TASK_SIZE) by lia.
  assert (0 <= len / PAGE_SIZE) by (apply Z.div_pos; unfold PAGE_SIZE; lia).
  assert (Hkeep : forall err m', errno err -> err <> 0 -> mm_wf m' -> mmap_lock m' = mmap_lock m -> ctr m' = ctr m ->
    same_pages (areas m) (areas m') -> exists r m'', Some (u64 err, m') = Some (r, m'') /\
      region_outcome addr len flags file pgoff m r m'').
  { intros err m' He Hne Hw Hlk Hc Hp. eexists _, _. split; [done|]. constructor; [done|done|rewrite Hc; lia|].
    left. split; [by apply errno_err|by left]. }
  destruct (negb _ && negb _); [by apply Hkeep|].
  destruct (vmi_munmap_spec (vm (be e)) fuel addr len false m Hwf) as (r1 & m1 & -> & Hres);
    [unfold munmap_args; lia|done|done|].
  replace (PAGE_ALIGN len) with len in Hres; cycle 1.
  { rewrite PAGE_ALIGN_eq by (unfold TASK_SIZE, PAGE_SIZE in *; lia).
    unfold PAGE_SIZE in *. Z.to_euclidean_division_equations; lia. }
  destruct Hres as [[Hne Hrs]|[-> Hum]].
  { rewrite (proj2 (Z.eqb_neq r1 0)) by done. cbn [negb]. destruct Hrs as [Hw [] Hp _]. by apply Hkeep. }
  change (negb (0 =? 0)) with false. cbv iota.
  rewrite shift_page. assert (Hsum : addr +u len = addr + len)
    by (apply u64_small; unfold TASK_SIZE, PAGE_SIZE in *; lia). rewrite Hsum.
  assert (Hdrop : forall err m', errno err -> err <> 0 -> mm_wf m' -> areas m' = areas m1 -> ctr m' = ctr m1 ->
    mmap_lock m' = mmap_lock m1 -> exists r m'', Some (u64 err, m') = Some (r, m'') /\
      region_outcome addr len flags file pgoff m r m'').
  { intros err m' He Hne Hw Har Hc Hlk. eexists _, _. split; [done|]. destruct Hum.
    constructor; [done|congruence|rewrite Hc; lia|]. left. split; [by apply errno_err|]. right. by rewrite Har. }
  destruct (unmapped_gap addr len m1) as (l & k & Hgap); [apply Hum|done..| |].
  { intros a Hin. by rewrite (um_view _ _ _ _ _ Hum), decide_True. }
  set (acc := accountable_mapping e file flags).
  destruct (if acc then vm_enough_memory _ _ m1 else (true, m1)) as [granted m2] eqn:Hch.
  destruct (charge_kept acc _ _ m1 granted m2 addr len l k Hch) as (Hm2 & Hwf2 & Ha2 & Hc2 & Hlk2 & Hgap2); [apply Hum|done|].
  destruct granted; cbn [negb]; [|by apply Hdrop]. clear Hch.
  set (fl := if acc then Z.lor flags VM_ACCOUNT else flags).
  assert (Hfl : fl = flags \/ fl = Z.lor flags VM_ACCOUNT) by (subst fl; destruct acc; auto).
  destruct (gap_neighbours _ _ _ _ _ Hwf2 Hgap2) as [-> ->].
  destruct (if flag_set fl VM_SPECIAL then None else _) as [[v m3]|] eqn:Hexp.
  - destruct (flag_set fl VM_SPECIAL); [done|].
    destruct (merge_target _ _ _ _ _ _ _ _ _) as [[[[w lo] hi] off]|] eqn:Htg; [|done].
    destruct (vma_expand _ _ _ _ _ _ _) as [[[|z|z] w'] m3'] eqn:Hve; [|done..].
    injection Hexp as -> ->. eexists _, _. split; [done|].
    eapply (placed_outcome _ _ _ fl fl file file); [done|done|done|by apply as_asked| |by eapply expand_placed].
    destruct file; [done|]. by destruct Hfl as [->| ->]; rewrite ?locked_account.
  - pose proof (new_placed addr len flags fl file pgoff l k m2 Hwf2 Hgap2 Hfl Hdrv Hshm Hmw) as Hnew.
    destruct (mmap_new _ _ _ _ _ _ _ _) as [[err|[v fa]] m3].
    + destruct Hnew as (-> & He & Hne). apply Hdrop; cbn; [done|done|by apply wf_committed|done..].
    + destruct Hnew as (fl' & file' & pgoff' & Has & Hfa & Hpl). eexists _, _. split; [done|].
      by eapply (placed_outcome _ _ _ fl' fa file file' _ pgoff').
Qed.

(** ** do_mmap *)

(** Documented behaviour of the functions around a mapping: error codes are error codes,
    choosers return an [unsigned long], drivers leave the range of an area alone. *)
Record map_env_ok : Prop := {
  mo_arch a len fl : errno (arch_mmap_check (be e) a len fl);
  mo_security a : errno (security_mmap_addr (be e) a);
  mo_area file fl a len pgoff fl' : is_u64 (get_area (be e) file fl file a len pgoff fl');
  mo_driver f : steady_driver (call_mmap e f);
  mo_shmem : steady_driver (shmem_zero_setup e);
  mo_writable f : errno (mapping_map_writable e f)
}.

Lemma get_unmapped_ok (Hok : map_env_ok) file addr len pgoff fl :
  0 <= len < 2 ^ 64 ->
  let r := get_unmapped_area (be e) file addr len pgoff fl in
  IS_ERR_VALUE r = false -> 0 <= r /\ r mod PAGE_SIZE = 0 /\ r + len <= TASK_SIZE.
Proof.
  intros Hlen. cbv zeta. unfold get_unmapped_area.
  destruct (Z.eqb_spec (u64 (arch_mmap_check (be e) addr len fl)) 0); cbn [negb]; cycle 1.
  { rewrite err_value; [done|apply Hok|done]. }
  destruct (Z.ltb_spec TASK_SIZE len) as [|Hts]; [by rewrite err_ENOMEM|].
  pose proof (mo_area Hok file fl addr len (match file with Some _ => pgoff | None => 0 end) fl) as Hu.
  set (r := get_area _ _ _ _ _ _ _ _) in *. unfold is_u64 in Hu.
  destruct (IS_ERR_VALUE r) eqn:He; [congruence|].
  assert (TASK_SIZE -u len = TASK_SIZE - len) as ->
    by (unfold TASK_SIZE, PAGE_SIZE in *; apply u64_small; lia).
  destruct (Z.ltb_spec (TASK_SIZE - len) r); [by rewrite err_ENOMEM|].
  rewrite offset_in_page_mod. destruct (Z.eqb_spec (r mod PAGE_SIZE) 0); cbn [negb]; [|by rewrite err_EINVAL].
  destruct (Z.eqb_spec (u64 (security_mmap_addr (be e) r)) 0); cbn [negb]; [lia|].
  rewrite err_value; [done|apply Hok|done].
Qed.

(** A request that reaches [mmap_region]. *)
Lemma mmap_request_ok file addr len prot flags vmf pgoff m a' l' fl' vmf' pg' :
  mmap_request e file addr len prot flags vmf pgoff m = inr (a', l', fl', vmf', pg') ->
  l' = PAGE_ALIGN len /\ l' <> 0 /\ IS_ERR_VALUE a' = false /\
  exists a0 fl0, a' = get_unmapped_area (be e) file a0 l' pgoff fl0.
Proof.
  unfold mmap_request. cbv zeta. intros Hreq.
  destruct (len =? 0); [done|].
  destruct (Z.eqb_spec (PAGE_ALIGN len) 0) as [|Hnz]; [done|].
  destruct (_ <? pgoff); [done|]. destruct (_ <? map_count m); [done|].
  destruct (IS_ERR_VALUE _) eqn:He; [done|].
  destruct (_ && bool_decide _); [done|]. destruct (_ && negb (can_do_mlock e)); [done|].
  destruct (negb (mlock_future_ok _ _ _ _)); [done|].
  apply err_bind_inr in Hreq as ([[f v] p] & _ & Hreq).
  injection Hreq as <- <- <- <- <-. split_and!; [done|done|done|]. eauto.
Qed.

Lemma do_mmap_outcome (Hok : map_env_ok) file addr len prot flags vmf pgoff m :
  mm_wf m -> 0 <= len < 2 ^ 64 ->
  exists r pop m', do_mmap e (munmap_fuel m) file addr len prot flags vmf pgoff m = Some (r, pop, m') /\
    (m' = m \/
     exists a vmf' pg', 0 <= a /\ a + PAGE_ALIGN len <= TASK_SIZE /\ 0 < PAGE_ALIGN len /\
       region_outcome a (PAGE_ALIGN len) vmf' file pg' m r m').
Proof.
  intros Hwf Hlen. unfold do_mmap.
  destruct (mmap_request _ _ _ _ _ _ _ _ _) as [err|[[[[a l] fl] vmf'] pg']] eqn:Hreq.
  { eexists _, _, _. split; [done|]. by left. }
  apply mmap_request_ok in Hreq as (-> & Hnz & He & a0 & fl0 & Ha).
  pose proof (PAGE_ALIGN_is_u64 len) as [Hl0 Hl1].
  destruct (get_unmapped_ok Hok file a0 (PAGE_ALIGN len) pgoff fl0) as (H1 & H2 & H3); [lia|by rewrite <- Ha|].
  rewrite <- Ha in H1, H2, H3.
  destruct (mmap_region_spec (munmap_fuel m) file a (PAGE_ALIGN len) vmf' pg' m)
    as (r & m' & -> & Hout); try done; [lia|apply PAGE_ALIGN_aligned|apply Hok..|].
  eexists _, _, _. split; [done|]. right. exists a, vmf', pg'. split_and!; done || lia.
Qed.

(** ** The system call *)

Context {G : Type} `{MemGate G} (g : G) (pid : Z).

(** [vm_mmap_pgoff] refuses without touching the address space, or runs [do_mmap] under
    the lock. *)
Definition vm_mmap_contract (c : @mmap_calls T) : Prop := forall file addr len prot flags pgoff m,
  (exists err, vm_mmap_pgoff c file addr len prot flags pgoff m = Some (u64 err, m)) \/
  (exists r pop m',
     do_mmap e (munmap_fuel m) file addr len prot flags 0 pgoff (set_lock WriteLocked m) = Some (r, pop, m') /\
     vm_mmap_pgoff c file addr len prot flags pgoff m = Some (r, set_lock Unlocked m')).

Lemma ALIGN_range x a : 0 <= ALIGN x a < 2 ^ 64.
Proof.
  unfold ALIGN. pose proof (u64_range (x + (a - 1))) as Hr. revert Hr.
  generalize (u64 (x + (a - 1))) (u64 (- a)). intros y z Hy.
  assert (0 <= Z.land y z <= y); [|lia]. apply Z.ldiff_le; [lia|].
  apply Z.bits_inj'. intros n Hn. rewrite Z.ldiff_spec, Z.land_spec, Z.bits_0.
  by destruct (Z.testbit y n), (Z.testbit z n).
Qed.

Lemma mmap_target_len (c : @mmap_calls T) len flags fd file len' :
  0 <= len < 2 ^ 64 -> mmap_target e c len flags fd = inr (file, len') -> 0 <= len' < 2 ^ 64.
Proof.
  intros Hlen. unfold mmap_target. intros Ht.
  repeat (case_match; simplify_eq/=); try done; apply ALIGN_range.
Qed.

(** An accepted length that reaches the address space keeps within a page of the limit. *)
Lemma accepted_within limit len m total' :
  mm_wf m -> gate_limit g pid = Some limit ->
  gate_accepts g pid (total_vm (ctr m)) len = true -> 0 <= len < 2 ^ 64 ->
  0 < PAGE_ALIGN len <= TASK_SIZE -> total' <= total_vm (ctr m) + PAGE_ALIGN len / PAGE_SIZE ->
  total' * PAGE_SIZE < limit + PAGE_SIZE.
Proof.
  intros Hwf Hlim Hacc Hlen Hal Htot.
  pose proof (pages_range _ (wf_areas m Hwf)) as Hp. rewrite <- (wf_total m Hwf) in Hp.
  destruct (Z.le_gt_cases len (2 ^ 64 - PAGE_SIZE)) as [Hs|Hb]; cycle 1.
  { rewrite PAGE_ALIGN_wraps in Hal by lia. lia. }
  destruct (PAGE_ALIGN_bounds len) as [Hb Hmod]; [lia|].
  pose proof (gate_within g pid _ _ limit Hlim Hacc) as Hw.
  unfold TASK_SIZE, PAGE_SIZE in *. Z.to_euclidean_division_equations; lia.
Qed.

Lemma mmap_outcome_within (Hok : map_env_ok) (c : @mmap_calls T) limit addr len prot flags fd pgoff m :
  vm_mmap_contract c -> mm_wf m -> is_u64 len -> gate_limit g pid = Some limit ->
  total_vm (ctr m) * PAGE_SIZE < limit + PAGE_SIZE ->
  exists r m', ksys_mmap_pgoff e g pid c addr len prot flags fd pgoff m = Some (r, m') /\
    mm_wf m' /\ total_vm (ctr m') * PAGE_SIZE < limit + PAGE_SIZE.
Proof.
  intros Hc Hwf Hlen Hlim Hin. unfold ksys_mmap_pgoff.
  destruct (mmap_target e c len flags fd) as [err|[file len']] eqn:Ht; [by eexists _, _|].
  apply mmap_target_len in Ht; [|done].
  destruct (gate_accepts _ _ _ _) eqn:Hacc; cbn [negb]; [|by eexists _, _].
  destruct (Hc file addr len' prot flags pgoff m) as [[err ->]|(r & pop & m' & Hdo & ->)]; [by eexists _, _|].
  pose proof (mm_wf_lock WriteLocked m Hwf) as Hwf'.
  destruct (do_mmap_outcome Hok file addr len' prot flags 0 pgoff (set_lock WriteLocked m))
    as (r' & pop' & m'' & Hdo' & Hout); [done|done|].
  change (munmap_fuel (set_lock WriteLocked m)) with (munmap_fuel m) in Hdo'.
  rewrite Hdo in Hdo'. injection Hdo' as <- <- <-. eexists _, _. split; [done|].
  destruct Hout as [->|(a & vmf & pg & Ha & Htop & Hpos & Hro)].
  - split; [by apply mm_wf_lock|done].
  - split; [apply mm_wf_lock; apply Hro|].
    eapply (accepted_within limit len' m); try done; [lia|apply Hro].
Qed.

End spec.

(** A sequence of [mmap] calls of one process. *)
Record mmap_args := { ma_addr : Z; ma_len : Z; ma_prot : Z; ma_flags : Z; ma_fd : Z; ma_pgoff : Z }.

Fixpoint run_mmaps {T} `{VmaTree T} {G} `{MemGate G} (e : map_env) (g : G) (pid : Z)
    (c : @mmap_calls T) (calls : list mmap_args) (m : mm_struct T) : option (mm_struct T) :=
  match calls with
  | [] => Some m
  | a :: calls' =>
      match ksys_mmap_pgoff e g pid c (ma_addr a) (ma_len a) (ma_prot a) (ma_flags a) (ma_fd a)
              (ma_pgoff a) m with
      | Some (_, m') => run_mmaps e g pid c calls' m'
      | None => None
      end
  end.

Section claims.
Context {T : Type} `{VmaTree T} {G : Type} `{MemGate G}.
Notation areas m := (vmas (mm_mt m)).

(** C4.  [mmap_region] returns on every page-aligned range of the user address space and
    restores the invariant.  It answers the address, and then the range holds exactly the
    requested pages (flags, file and consecutive offsets, or what the driver of the file made
    of them), whether a neighbour was extended, two were joined, an area was made or merged
    after its driver changed it, and every other page is as before (where memory is to be
    locked, up to the marks of [mlock]); or it answers an error value, and then the process
    sees its old pages, or its old pages less the range.  [total_vm] grows by at most the
    pages of the range. *)
Theorem mmap_region_correct (e : map_env) file addr len flags pgoff (m : mm_struct T) :
  map_env_ok e -> mm_wf m -> 0 <= addr -> addr mod PAGE_SIZE = 0 ->
  0 < len -> len mod PAGE_SIZE = 0 -> addr + len <= TASK_SIZE ->
  exists r m', mmap_region e (munmap_fuel m) file addr len flags pgoff m = Some (r, m') /\
    region_outcome e addr len flags file pgoff m r m'.
Proof. intros Hok **. apply (mmap_region_spec e); done || apply Hok. Qed.

(** C2.  No sequence of [mmap] calls takes a limited process a whole page above its limit,
    whatever the drivers of the mapped files do to flags, offsets and files: the admission test
    counts the bytes asked for, the mapping counts whole pages. *)
Theorem mmap_history_within_limit (e : map_env) (g : G) pid (c : @mmap_calls T) limit calls m :
  map_env_ok e -> vm_mmap_contract e c -> mm_wf m -> Forall (fun a => is_u64 (ma_len a)) calls ->
  gate_limit g pid = Some limit -> total_vm (ctr m) * PAGE_SIZE <= limit ->
  exists m', run_mmaps e g pid c calls m = Some m' /\ mm_wf m' /\
    total_vm (ctr m') * PAGE_SIZE < limit + PAGE_SIZE.
Proof.
  intros Hok Hc Hwf Hcalls Hlim Hin.
  assert (Hin' : total_vm (ctr m) * PAGE_SIZE < limit + PAGE_SIZE) by (unfold PAGE_SIZE in *; lia).
  clear Hin. revert m Hwf Hin'. induction Hcalls as [|a calls Ha _ IH]; intros m Hwf Hin.
  { by exists m. }
  cbn [run_mmaps].
  destruct (mmap_outcome_within e g pid Hok c limit (ma_addr a) (ma_len a) (ma_prot a) (ma_flags a)
    (ma_fd a) (ma_pgoff a) m) as (r & m' & -> & Hwf' & Hin'); [done..|]. by apply IH.
Qed.

(** A request of an ordinary anonymous mapping that would take the process above its
    limit is refused with [-ENOMEM] and changes nothing. *)
Theorem mmap_over_limit_refused (e : map_env) (g : G) pid (c : @mmap_calls T) limit addr len prot
    flags fd pgoff m :
  flag_set flags MAP_ANONYMOUS = true -> flag_set flags MAP_HUGETLB = false ->
  gate_limit g pid = Some limit -> mm_wf m -> 0 <= len < 2 ^ 63 ->
  limit < total_vm (ctr m) * PAGE_SIZE + len ->
  ksys_mmap_pgoff e g pid c addr len prot flags fd pgoff m = Some (u64 (- ENOMEM), m).
Proof.
  intros Han Hhuge Hlim Hwf Hlen Hover. unfold ksys_mmap_pgoff, mmap_target.
  rewrite Han, Hhuge. cbn [negb]. destruct (gate_accepts _ _ _ _) eqn:Ha; [|done].
  pose proof (pages_range _ (wf_areas m Hwf)) as Hp. rewrite <- (wf_total m Hwf) in Hp.
  pose proof (gate_within g pid _ _ limit Hlim Ha) as Hw. unfold PAGE_SIZE in *. lia.
Qed.

End claims.

Lemma map_env0_ok : map_env_ok map_env0.
Proof.
  constructor; try done.
  - intros [f|] fl a len pgoff fl'; unfold get_area; cbn; [apply u64_is_u64|].
    destruct (flag_set fl MAP_SHARED); apply u64_is_u64.
  - by intros f v r v' [= <- <-].
  - by intros v r v' [= <- <-].
Qed.

Definition calls0 : @mmap_calls (list vma) := {|
  fget := fun fd => if fd =? 3 then Some 3 else None; file_huge_size := fun _ => 2097152;
  hstate_sizelog := fun _ => None; hugetlb_file_setup := fun _ _ => inl (- ENOMEM);
  vm_mmap_pgoff := fun file addr len prot flags pgoff m =>
    match do_mmap map_env0 (munmap_fuel m) file addr len prot flags 0 pgoff (set_lock WriteLocked m) with
    | Some (r, _, m') => Some (r, set_lock Unlocked m')
    | None => Some (u64 (- ENOMEM), m)
    end |}.

Lemma calls0_ok : vm_mmap_contract map_env0 calls0.
Proof.
  intros file addr len prot flags pgoff m. unfold calls0. cbn [vm_mmap_pgoff].
  destruct (do_mmap _ _ _ _ _ _ _ _ _ _) as [[[r pop] m']|]; [right|left]; eauto.
Qed.

#[local] Existing Instance LimitSpec.limiter_gate.

(** Two pages right above the heap: its area is extended. *)
Lemma mmap_region_correct_witness :
  exists r m', mmap_region map_env0 (munmap_fuel (heap_mm 102400)) None 102400 8192 0x73 25 (heap_mm 102400)
      = Some (r, m') /\
    region_outcome map_env0 102400 8192 0x73 None 25 (heap_mm 102400) r m'.
Proof.
  apply (mmap_region_correct map_env0 None 102400 8192 0x73 25 (heap_mm 102400) map_env0_ok heap_mm_ok); done.
Defined.

Definition anon_request (addr len : Z) : mmap_args :=
  {| ma_addr := addr; ma_len := len; ma_prot := 3; ma_flags := 0x22; ma_fd := 0; ma_pgoff := 0 |}.

Lemma mmap_history_within_limit_witness :
  exists m', run_mmaps map_env0 limited 7 calls0 [anon_request 200704 5000; anon_request 300000 5000]
      (heap_mm 102400) = Some m' /\ mm_wf m' /\
    total_vm (ctr m') * PAGE_SIZE < 50000 + PAGE_SIZE.
Proof.
  apply (mmap_history_within_limit map_env0 limited 7 calls0 50000 _ (heap_mm 102400)
    map_env0_ok calls0_ok heap_mm_ok); [|done|done].
  repeat constructor; done.
Defined.

Lemma mmap_over_limit_refused_witness :
  ksys_mmap_pgoff map_env0 limited 7 calls0 0 20000 3 0x22 0 0 (heap_mm 102400)
    = Some (u64 (- ENOMEM), heap_mm 102400).
Proof.
  apply (mmap_over_limit_refused map_env0 limited 7 calls0 50000 0 20000 3 0x22 0 0 (heap_mm 102400));
    [done|done|done|exact heap_mm_ok|done|done].
Defined.

End MmapCalls.
