(* ===== verification/Original.v ===== *)
(** * The kernel before Proyecto3 ([files/originalmmap.c])

    [brk] and [mmap] without the limiter's hook, the only two functions in which
    [mm/mmap.c] differs from [files/originalmmap.c], and what the hooks change. *)
From S2P Require Import Prelude Gate MemLimit MemLimitSpec Vma Mm MmSpec Brk BrkSpec Mmap MmapSpec MmapCalls.

Module Original.
Import Mm Brk.

Section brk.
Context {T : Type} `{VmaTree T} (e : brk_env).

Definition sys_brk (fuel : nat) (b : Z) (m : mm_struct T) : option (Z * mm_struct T) :=
  if lock_killed (vm e) then Some (- EINTR, m)
  else
    let m := set_lock WriteLocked m in
    let origbrk := brk m in
    let min_brk := if min_brk_is_end_data e then end_data m else start_brk m in
    if b <? min_brk then Some (brk_out origbrk m)
    else if negb (check_data_rlimit e (rlimit_data (vm e)) b (start_brk m) (end_data m) (start_data m)
                  =? 0)
    then Some (brk_out origbrk m)
    else
      let newbrk := PAGE_ALIGN b in
      let oldbrk := PAGE_ALIGN (brk m) in
      if oldbrk =? newbrk then Some (b, set_lock Unlocked (set_brk b m))
      else if b <=? brk m then
        match mt_find (mm_mt m) newbrk (oldbrk -u 1) with
        | None => Some (brk_out origbrk m)
        | Some brkvma =>
            if oldbrk <=? vm_start brkvma then Some (brk_out origbrk m)
            else
              match do_vma_munmap (vm e) fuel brkvma newbrk oldbrk true (set_brk b m) with
              | None => None
              | Some (err, m) =>
                  if negb (err =? 0) then Some (brk_out origbrk m) else Some (b, m)
              end
        end
      else if negb (check_brk_limits e oldbrk (newbrk -u oldbrk) m =? 0)
      then Some (brk_out origbrk m)
      else
        let next := mt_find (mm_mt m) oldbrk (newbrk +u PAGE_SIZE +u stack_guard_gap e -u 1) in
        if match next with
           | Some next => vm_start_gap e next <? newbrk +u PAGE_SIZE
           | None => false
           end
        then Some (brk_out origbrk m)
        else
          let brkvma := vma_prev_limit m oldbrk (start_brk m) in
          let '(err, m) := do_brk_flags e brkvma oldbrk (newbrk -u oldbrk) 0 m in
          if err <? 0 then Some (brk_out origbrk m)
          else Some (b, set_lock Unlocked (set_brk b m)).
End brk.

Section mmap.
Import Mmap.
Context {T : Type} `{VmaTree T} (e : map_env).

Definition ksys_mmap_pgoff (c : mmap_calls) (addr len prot flags fd pgoff : Z) (m : mm_struct T)
    : option (Z * mm_struct T) :=
  match mmap_target e c len flags fd with
  | inl err => Some (u64 err, m)
  | inr (file, len) => vm_mmap_pgoff c file addr len prot flags pgoff m
  end.
End mmap.

(** ** What the hooks change *)

Section hooks.
Context {T : Type} `{VmaTree T} {G : Type} `{MemGate G} (g : G) (pid : Z).

Lemma brk_hook (e : brk_env) fuel b (m : mm_struct T) :
  Brk.sys_brk e g pid fuel b m =
    if gate_accepts g pid (total_vm (ctr m)) (PAGE_ALIGN b -u PAGE_ALIGN (brk m))
    then sys_brk e fuel b m
    else if lock_killed (vm e) then Some (- EINTR, m)
    else Some (brk_out (brk m) (set_lock WriteLocked m)).
Proof.
  unfold Brk.sys_brk, sys_brk. cbv zeta.
  change (total_vm (ctr (set_lock WriteLocked m))) with (total_vm (ctr m)).
  change (brk (set_lock WriteLocked m)) with (brk m).
  destruct (gate_accepts _ _ _ _), (lock_killed _); try done.
  destruct (_ <? _); [done|]. by destruct (negb _).
Qed.

Lemma mmap_hook (e : Mmap.map_env) c addr len prot flags fd pgoff (m : mm_struct T) :
  Mmap.ksys_mmap_pgoff e g pid c addr len prot flags fd pgoff m =
    match Mmap.mmap_target e c len flags fd with
    | inr (_, len') =>
        if gate_accepts g pid (total_vm (ctr m)) len'
        then ksys_mmap_pgoff e c addr len prot flags fd pgoff m else Some (u64 (- ENOMEM), m)
    | inl _ => ksys_mmap_pgoff e c addr len prot flags fd pgoff m
    end.
Proof.
  unfold Mmap.ksys_mmap_pgoff, ksys_mmap_pgoff. destruct (Mmap.mmap_target e c len flags fd) as [|[f l]];
    [done|]. by destruct (gate_accepts _ _ _ _).
Qed.

(** C6. The hooks only refuse: the modified [brk] and [mmap] are the original ones,
    results and address space alike, whenever the limiter accepts the request, and
    otherwise leave the address space as it was ([brk] returns the old break, [mmap]
    [-ENOMEM]).  A caller without a limit in force whose own id the limiter's lookup finds has the
    original kernel's calls. *)
Theorem hooks_only_refuse (be : brk_env) (me : Mmap.map_env) (c : Mmap.mmap_calls)
    (fuel : nat) (b addr len prot flags fd pgoff : Z) (m : mm_struct T) :
  Brk.sys_brk be g pid fuel b m =
    (if gate_accepts g pid (total_vm (ctr m)) (PAGE_ALIGN b -u PAGE_ALIGN (brk m))
     then sys_brk be fuel b m
     else if lock_killed (vm be) then Some (- EINTR, m)
     else Some (brk_out (brk m) (set_lock WriteLocked m))) /\
  Mmap.ksys_mmap_pgoff me g pid c addr len prot flags fd pgoff m =
    match Mmap.mmap_target me c len flags fd with
    | inr (_, len') =>
        if gate_accepts g pid (total_vm (ctr m)) len'
        then ksys_mmap_pgoff me c addr len prot flags fd pgoff m else Some (u64 (- ENOMEM), m)
    | inl _ => ksys_mmap_pgoff me c addr len prot flags fd pgoff m
    end /\
  (gate_limit g pid = None -> gate_finds g pid = true ->
     Brk.sys_brk be g pid fuel b m = sys_brk be fuel b m /\
     Mmap.ksys_mmap_pgoff me g pid c addr len prot flags fd pgoff m =
       ksys_mmap_pgoff me c addr len prot flags fd pgoff m).
Proof.
  split; [apply brk_hook|]. split; [apply mmap_hook|]. intros Hn Hf. rewrite brk_hook, mmap_hook.
  rewrite (gate_transparent g pid _ _ Hn Hf). split; [done|].
  destruct (Mmap.mmap_target me c len flags fd) as [|[f l]]; [done|].
  by rewrite (gate_transparent g pid _ _ Hn Hf).
Qed.
End hooks.

#[local] Existing Instance LimitSpec.limiter_gate.

(** Process 8 has no limit; process 7 does, and is refused 20000 more bytes. *)
Lemma hooks_only_refuse_witness :
  let m := BrkSpec.heap_mm 102400 in
  Brk.sys_brk BrkSpec.brk_env0 BrkSpec.limited 8 5 110000 m = sys_brk BrkSpec.brk_env0 5 110000 m /\
  Mmap.ksys_mmap_pgoff MmapSpec.map_env0 BrkSpec.limited 7 MmapCalls.calls0 0 20000 3 0x22 0 0 m
    = Some (u64 (- ENOMEM), m).
Proof.
  split.
  - apply (hooks_only_refuse BrkSpec.limited 8 BrkSpec.brk_env0 MmapSpec.map_env0 MmapCalls.calls0
      5 110000 0 0 0 0 0 0 (BrkSpec.heap_mm 102400)); done.
  - exact (proj1 (proj2 (hooks_only_refuse BrkSpec.limited 7 BrkSpec.brk_env0 MmapSpec.map_env0
      MmapCalls.calls0 5 0 0 20000 3 0x22 0 0 (BrkSpec.heap_mm 102400)))).
Defined.
End Original.
