(* ===== verification/Layout.v ===== *)
(** * Choosing an address for a mapping ([mm/mmap.c])

    The searches for a free range, bottom-up and top-down, and the generic area choosers
    built on them.  The gap search of the maple tree is outside the repository and is the
    interface [GapTree]. *)
From S2P Require Import Prelude Vma Mm Brk.

(** No area meets the [size] bytes at [i]. *)
Definition free_range (l : list vma) (i size : Z) : Prop :=
  Forall (fun v => vm_end v <= i \/ i + size <= vm_start v) l.

#[export] Instance free_range_dec l i size : Decision (free_range l i size).
Proof. apply _. Defined.

(** [mas_empty_area] and [mas_empty_area_rev]: the lowest and the highest start of a free
    range of the given size within [[lo, hi]]; [None] when there is none. *)
Class GapTree (T : Type) `{VmaTree T} := {
  mas_empty_area : T -> Z -> Z -> Z -> option Z;
  mas_empty_area_rev : T -> Z -> Z -> Z -> option Z;
  empty_area_sound : forall t lo hi size i, mas_empty_area t lo hi size = Some i ->
    lo <= i /\ i + size - 1 <= hi /\ free_range (vmas t) i size;
  empty_area_lowest : forall t lo hi size j, areas_ok (vmas t) -> 0 < size ->
    lo <= j -> j + size - 1 <= hi -> free_range (vmas t) j size ->
    exists i, mas_empty_area t lo hi size = Some i /\ i <= j;
  empty_area_rev_sound : forall t lo hi size i, mas_empty_area_rev t lo hi size = Some i ->
    lo <= i /\ i + size - 1 <= hi /\ free_range (vmas t) i size;
  empty_area_rev_highest : forall t lo hi size j, areas_ok (vmas t) -> 0 < size ->
    lo <= j -> j + size - 1 <= hi -> free_range (vmas t) j size ->
    exists i, mas_empty_area_rev t lo hi size = Some i /\ j <= i
}.

Module Layout.
Import Mm Brk.

(** [struct vm_unmapped_area_info]. *)
Record vm_unmapped_area_info := {
  ua_topdown : bool;                     (* VM_UNMAPPED_AREA_TOPDOWN *)
  ua_length : Z; low_limit : Z; high_limit : Z; align_mask : Z; align_offset : Z
}.

Record layout_env := {
  min_addr : Z;                          (* mmap_min_addr *)
  start_gap : vma -> Z;                  (* vm_start_gap: the start, less the guard gap *)
  end_gap : vma -> Z;                    (* vm_end_gap *)
  VM_STARTGAP_FLAGS : Z;
  arch_get_mmap_end : Z -> Z -> Z -> Z;
  arch_get_mmap_base : Z -> Z -> Z;
  TASK_UNMAPPED_BASE : Z
}.

Section ops.
Context {T : Type} `{GapTree T} (e : layout_env).
Implicit Types m : mm_struct T.

(** From label [retry] of [unmapped_area]. *)
Fixpoint unmapped_area_retry (fuel : nat) (info : vm_unmapped_area_info) (length low high : Z) m
    : option Z :=
  match fuel with
  | O => None
  | S fuel' =>
      match mas_empty_area (mm_mt m) low (high -u 1) length with
      | None => Some (u64 (- ENOMEM))
      | Some index =>
          let gap := index +u Z.land (align_offset info -u index) (align_mask info) in
          let check_prev :=
            match mas_prev (mm_mt m) index with
            | Some tmp =>
                if gap <? end_gap e tmp
                then unmapped_area_retry fuel' info length (end_gap e tmp) high m
                else Some gap
            | None => Some gap
            end in
          match mt_find (mm_mt m) index ULONG_MAX with
          | Some tmp =>
              if flag_set (vm_flags tmp) (VM_STARTGAP_FLAGS e) then
                if start_gap e tmp <? gap +u length -u 1
                then unmapped_area_retry fuel' info length (vm_end tmp) high m
                else Some gap
              else check_prev
          | None => check_prev
          end
      end
  end.

Definition unmapped_area (fuel : nat) (info : vm_unmapped_area_info) m : option Z :=
  let length := ua_length info +u align_mask info in
  if length <? ua_length info then Some (u64 (- ENOMEM))
  else
    let low := if low_limit info <? min_addr e then min_addr e else low_limit info in
    unmapped_area_retry fuel info length low (high_limit info) m.

(** From label [retry] of [unmapped_area_topdown]. *)
Fixpoint unmapped_area_topdown_retry (fuel : nat) (info : vm_unmapped_area_info)
    (length low high : Z) m : option Z :=
  match fuel with
  | O => None
  | S fuel' =>
      match mas_empty_area_rev (mm_mt m) low (high -u 1) length with
      | None => Some (u64 (- ENOMEM))
      | Some index =>
          let gap_end := index +u length -u 1 in
          let gap := gap_end +u 1 -u ua_length info in
          let gap := gap -u Z.land (gap -u align_offset info) (align_mask info) in
          let check_prev :=
            match mas_prev (mm_mt m) index with
            | Some tmp =>
                if gap <? end_gap e tmp
                then unmapped_area_topdown_retry fuel' info length low (vm_start tmp) m
                else Some gap
            | None => Some gap
            end in
          match mt_find (mm_mt m) index ULONG_MAX with
          | Some tmp =>
              if flag_set (vm_flags tmp) (VM_STARTGAP_FLAGS e) then
                if start_gap e tmp <=? gap_end
                then unmapped_area_topdown_retry fuel' info length low (start_gap e tmp) m
                else Some gap
              else check_prev
          | None => check_prev
          end
      end
  end.

Definition unmapped_area_topdown (fuel : nat) (info : vm_unmapped_area_info) m : option Z :=
  let length := ua_length info +u align_mask info in
  if length <? ua_length info then Some (u64 (- ENOMEM))
  else
    let low := if low_limit info <? min_addr e then min_addr e else low_limit info in
    unmapped_area_topdown_retry fuel info length low (high_limit info) m.

Definition vm_unmapped_area (fuel : nat) (info : vm_unmapped_area_info) m : option Z :=
  if ua_topdown info then unmapped_area_topdown fuel info m else unmapped_area fuel info m.

(** The hint, when the range there is free: the part the two choosers share. *)
Definition hint_fits (addr len mmap_end : Z) m : bool :=
  let '(vma, prev) := find_vma_prev m addr in
  (addr <=? mmap_end -u len) && (min_addr e <=? addr)
  && match vma with None => true | Some vma => addr +u len <=? start_gap e vma end
  && match prev with None => true | Some prev => end_gap e prev <=? addr end.

Definition generic_get_unmapped_area (fuel : nat) (addr len flags : Z) m : option Z :=
  let mmap_end := arch_get_mmap_end e addr len flags in
  if (mmap_end -u min_addr e) <? len then Some (u64 (- ENOMEM))
  else if flag_set flags MAP_FIXED then Some addr
  else if negb (addr =? 0) && hint_fits (PAGE_ALIGN addr) len mmap_end m
  then Some (PAGE_ALIGN addr)
  else
    vm_unmapped_area fuel
      {| ua_topdown := false; ua_length := len; low_limit := mmap_base m; high_limit := mmap_end;
         align_mask := 0; align_offset := 0 |} m.

Definition generic_get_unmapped_area_topdown (fuel : nat) (addr len flags : Z) m : option Z :=
  let mmap_end := arch_get_mmap_end e addr len flags in
  if (mmap_end -u min_addr e) <? len then Some (u64 (- ENOMEM))
  else if flag_set flags MAP_FIXED then Some addr
  else if negb (addr =? 0) && hint_fits (PAGE_ALIGN addr) len mmap_end m
  then Some (PAGE_ALIGN addr)
  else
    let addr := if addr =? 0 then 0 else PAGE_ALIGN addr in
    match vm_unmapped_area fuel
      {| ua_topdown := true; ua_length := len; low_limit := PAGE_SIZE;
         high_limit := arch_get_mmap_base e addr (mmap_base m);
         align_mask := 0; align_offset := 0 |} m with
    | None => None
    | Some addr =>
        if negb (offset_in_page addr =? 0) then
          vm_unmapped_area fuel
            {| ua_topdown := false; ua_length := len; low_limit := TASK_UNMAPPED_BASE e;
               high_limit := mmap_end; align_mask := 0; align_offset := 0 |} m
        else Some addr
    end.

End ops.
End Layout.

(** ** The gap search of an ordered list

    A free place can be pushed down until it touches an area or the lower bound, and up
    until it touches an area or the upper bound. *)
Definition valid_place (l : list vma) (lo hi size i : Z) : Prop :=
  lo <= i /\ i + size - 1 <= hi /\ free_range l i size.

#[export] Instance valid_place_dec l lo hi size i : Decision (valid_place l lo hi size i).
Proof. apply _. Defined.

Definition best (f : Z -> Z -> Z) (P : Z -> Prop) `{forall i, Decision (P i)} (l : list Z) : option Z :=
  foldr (fun i acc => if decide (P i) then Some (match acc with Some a => f i a | None => i end) else acc)
        None l.

Lemma best_sound f P `{forall i, Decision (P i)} l i :
  (forall x y, f x y = x \/ f x y = y) -> best f P l = Some i -> P i.
Proof.
  intros Hf. revert i. induction l as [|x l IH]; cbn; intros i; [done|]. fold (best f P l).
  case_decide; [|by apply IH]. destruct (best f P l) as [a|]; intros [= <-]; [|done].
  destruct (Hf x a) as [-> | ->]; auto.
Qed.

Lemma best_bound f (R : Z -> Z -> Prop) P `{forall i, Decision (P i)} l j :
  (forall x y, R (f x y) x /\ R (f x y) y) -> (forall x, R x x) -> (forall x y z, R x y -> R y z -> R x z) ->
  j ∈ l -> P j -> exists i, best f P l = Some i /\ R i j.
Proof.
  intros Hf Hr Ht Hj HP. induction l as [|x l IH]; [by apply not_elem_of_nil in Hj|]. cbn.
  fold (best f P l). apply elem_of_cons in Hj as [<- |Hj].
  - rewrite decide_True by done. destruct (best f P l) as [a|]; eexists; split; eauto. apply Hf.
  - destruct (IH Hj) as (i & Hi & Hle). rewrite Hi. case_decide; eexists; split; eauto.
    eapply Ht; [apply Hf|done].
Qed.

Lemma lowest_place (l : list vma) lo hi size j :
  valid_place l lo hi size j -> exists c, c ∈ lo :: (vm_end <$> l) /\ c <= j /\ valid_place l lo hi size c.
Proof.
  intros (Hlo & Hhi & Hfree).
  assert (exists c, c ∈ lo :: (vm_end <$> l) /\ lo <= c <= j /\
    Forall (fun w => vm_end w <= j -> vm_end w <= c) l) as (c & Hc & Hcj & Hmax).
  { clear Hfree. induction l as [|v l (c & Hc & Hcj & Hmax)]; [exists lo; split_and!; (lia || set_solver)|].
    destruct (decide (vm_end v <= j /\ c < vm_end v)) as [Hv|Hv].
    - exists (vm_end v). cbn. split_and!; [set_solver|lia|lia|]. constructor; [lia|].
      eapply Forall_impl; [done|]. cbn. intros; lia.
    - exists c. cbn. split_and!; [set_solver|lia|lia|]. constructor; [lia|done]. }
  exists c. split_and!; [done|lia|]. split_and!; [lia|lia|]. unfold free_range in *.
  rewrite Forall_forall in Hfree, Hmax |- *. intros w Hw. specialize (Hmax w Hw). destruct (Hfree w Hw); lia.
Qed.

Lemma highest_place (l : list vma) lo hi size j :
  valid_place l lo hi size j ->
  exists c, c ∈ (hi + 1 - size) :: ((fun v => vm_start v - size) <$> l) /\ j <= c /\ valid_place l lo hi size c.
Proof.
  intros (Hlo & Hhi & Hfree).
  assert (exists c, c ∈ (hi + 1 - size) :: ((fun v => vm_start v - size) <$> l) /\ j <= c <= hi + 1 - size /\
    Forall (fun w => j + size <= vm_start w -> c + size <= vm_start w) l) as (c & Hc & Hcj & Hmax).
  { clear Hfree. induction l as [|v l (c & Hc & Hcj & Hmax)];
      [exists (hi + 1 - size); split_and!; (lia || set_solver)|].
    destruct (decide (j + size <= vm_start v /\ vm_start v < c + size)) as [Hv|Hv].
    - exists (vm_start v - size). cbn. split_and!; [set_solver|lia|lia|]. constructor; [lia|].
      eapply Forall_impl; [done|]. cbn. intros; lia.
    - exists c. cbn. split_and!; [set_solver|lia|lia|]. constructor; [lia|done]. }
  exists c. split_and!; [done|lia|]. split_and!; [lia|lia|]. unfold free_range in *.
  rewrite Forall_forall in Hfree, Hmax |- *. intros w Hw. specialize (Hmax w Hw). destruct (Hfree w Hw); lia.
Qed.

#[export] Instance list_gaps : GapTree (list vma).
Proof.
  refine {|
    mas_empty_area := fun t lo hi size =>
      best Z.min (valid_place t lo hi size) (lo :: (vm_end <$> t));
    mas_empty_area_rev := fun t lo hi size =>
      best Z.max (valid_place t lo hi size) ((hi + 1 - size) :: ((fun v => vm_start v - size) <$> t)) |}.
  - intros t lo hi size i Hb. apply (best_sound Z.min (valid_place t lo hi size)) in Hb; [done|lia].
  - intros t lo hi size j _ _ Hlo Hhi Hfree. destruct (lowest_place t lo hi size j) as (c & Hc & Hle & Hv); [done|].
    destruct (best_bound Z.min Z.le (valid_place t lo hi size) (lo :: (vm_end <$> t)) c) as (i & Hi & Hic); try done; [lia..|].
    exists i. split; [done|lia].
  - intros t lo hi size i Hb. apply (best_sound Z.max (valid_place t lo hi size)) in Hb; [done|lia].
  - intros t lo hi size j _ _ Hlo Hhi Hfree. destruct (highest_place t lo hi size j) as (c & Hc & Hle & Hv); [done|].
    destruct (best_bound Z.max Z.ge (valid_place t lo hi size)
      ((hi + 1 - size) :: ((fun v => vm_start v - size) <$> t)) c) as (i & Hi & Hic); try done; [lia..|].
    exists i. split; [done|lia].
Defined.
