(* ===== verification/LayoutSpec.v ===== *)
(** * Properties of the address search

    The searches return on every input, answer a page-aligned range that meets no area
    and keeps clear of the guard gap of the next one, take the lowest such range
    (bottom-up) or one above every range clear of all guard gaps (top-down), and fail
    only when there is none. *)
From S2P Require Import Prelude Gate Vma Mm MmSpec Brk BrkSpec Mmap MmapSpec MmapCalls Layout.

Module LayoutSpec.
Import Mm MmSpec Brk BrkSpec Mmap MmapSpec MmapCalls Layout.

Lemma first_area_later lo hi a (l : list vma) v :
  first_area lo hi l = Some v -> lo <= a -> a < vm_end v -> first_area a hi l = Some v.
Proof.
  intros Hf Hlo Ha. induction l as [|x l IH]; [done|]. unfold first_area in *.
  rewrite filter_cons in Hf |- *. case_decide as H1.
  - cbn in Hf. injection Hf as ->. by rewrite decide_True by lia.
  - rewrite decide_False by lia. by apply IH.
Qed.

Lemma first_area_in lo hi (l : list vma) v :
  first_area lo hi l = Some v -> v ∈ l /\ lo < vm_end v /\ vm_start v <= hi.
Proof.
  unfold first_area. intros Hf. apply head_Some_elem_of, list_elem_of_filter in Hf. naive_solver.
Qed.

Lemma first_area_least lo (l : list vma) v w :
  areas_ok l -> first_area lo ULONG_MAX l = Some v -> w ∈ l -> lo < vm_end w ->
  w = v \/ before v w.
Proof.
  intros Hok Hf Hw Hlo. induction l as [|x l IH]; [done|].
  apply areas_ok_cons in Hok as (Hx & Hl & Hb). unfold first_area in *.
  rewrite filter_cons in Hf. case_decide as H1.
  - cbn in Hf. injection Hf as ->. apply elem_of_cons in Hw as [-> |Hw]; [by left|right; auto].
  - apply elem_of_cons in Hw as [-> |Hw]; [|by apply IH].
    destruct Hx. unfold ULONG_MAX, TASK_SIZE, PAGE_SIZE in *. lia.
Qed.

Lemma first_area_none lo (l : list vma) :
  areas_ok l -> first_area lo ULONG_MAX l = None -> forall w, w ∈ l -> vm_end w <= lo.
Proof.
  intros [_ Hok] Hf w Hw. rewrite Forall_forall in Hok. destruct (Hok w Hw).
  destruct (Z.le_gt_cases (vm_end w) lo) as [|Hlt]; [done|].
  unfold first_area in Hf. assert (Hin : w ∈ filter (fun x => lo < vm_end x /\ vm_start x <= ULONG_MAX) l).
  { apply list_elem_of_filter. unfold ULONG_MAX, TASK_SIZE, PAGE_SIZE in *. split; [lia|done]. }
  destruct (filter _ l); [by apply not_elem_of_nil in Hin|done].
Qed.

(** ** What is searched for *)

Section spec.
Context {T : Type} `{GapTree T} (e : layout_env).
Implicit Types m : mm_struct T.
Notation areas m := (vmas (mm_mt m)).

(** What this code relies on: a guard gap lies right below its area and only the flagged
    areas have one; nothing grows upwards on this architecture. *)
Record layout_ok : Prop := {
  lo_gap : forall v, vma_ok v -> 0 <= start_gap e v <= vm_start v;
  lo_gap_al : forall v, vma_ok v -> start_gap e v mod PAGE_SIZE = 0;
  lo_flag : forall v, flag_set (vm_flags v) (VM_STARTGAP_FLAGS e) = false -> start_gap e v = vm_start v;
  lo_end : forall v, end_gap e v = vm_end v;
  lo_min : 0 < min_addr e /\ min_addr e mod PAGE_SIZE = 0
}.

(** The range is free and keeps clear of the guard gap of the next area. *)
Definition fits (l : list vma) (lo hi len a : Z) : Prop :=
  lo <= a /\ a + len <= hi /\ free_range l a len /\
  match first_area a ULONG_MAX l with Some v => a + len <= start_gap e v | None => True end.

(** The range is clear of every area and of every guard gap. *)
Definition clear_of_gaps (l : list vma) (lo hi len a : Z) : Prop :=
  lo <= a /\ a + len <= hi /\ Forall (fun v => vm_end v <= a \/ a + len <= start_gap e v) l.

(** The next area of a free range lies beyond it. *)
Lemma free_next (l : list vma) i len v :
  free_range l i len -> 0 < len -> first_area i ULONG_MAX l = Some v -> i + len <= vm_start v.
Proof.
  intros Hfree Hlen (Hv & Hi & _)%first_area_in. unfold free_range in Hfree.
  rewrite Forall_forall in Hfree. destruct (Hfree v Hv); lia.
Qed.

(** A free place whose next area, if it has a guard gap at all, has it beyond the place. *)
Lemma free_fits (Hok : layout_ok) m lo hi len i :
  areas_ok (areas m) -> 0 < len -> lo <= i -> i + len <= hi -> free_range (areas m) i len ->
  (forall tmp, first_area i ULONG_MAX (areas m) = Some tmp ->
     flag_set (vm_flags tmp) (VM_STARTGAP_FLAGS e) = true -> i + len <= start_gap e tmp) ->
  fits (areas m) lo hi len i.
Proof.
  intros Ha Hlen Hlo Hhi Hfree Hnext. split_and!; [done..|].
  destruct (first_area _ _ _) as [tmp|] eqn:Hnx; [|done].
  destruct (flag_set (vm_flags tmp) (VM_STARTGAP_FLAGS e)) eqn:Hflag; [by apply Hnext|].
  rewrite (lo_flag Hok _ Hflag). by apply (free_next (areas m)).
Qed.

Lemma clear_fits (Hok : layout_ok) (l : list vma) lo hi len a :
  areas_ok l -> 0 < len -> clear_of_gaps l lo hi len a -> fits l lo hi len a.
Proof.
  intros [Hs Hl] Hlen (Hlo & Hhi & Hc). rewrite Forall_forall in Hc, Hl. split_and!; [done|done| |].
  - apply Forall_forall. intros v Hv. destruct (Hc v Hv) as [?|?]; [by left|right].
    destruct (lo_gap Hok v (Hl v Hv)). lia.
  - destruct (first_area _ _ _) as [v|] eqn:Hf; [|done].
    apply first_area_in in Hf as (Hv & Ha & _). destruct (Hc v Hv); [lia|done].
Qed.

(** The number of areas a search can still skip. *)
Definition ending_above (l : list vma) (lo : Z) : nat := length (filter (fun v => lo < vm_end v) l).
Definition starting_below (l : list vma) (hi : Z) : nat := length (filter (fun v => start_gap e v < hi) l).

Lemma skip_fewer (P Q : vma -> Prop) `{forall x, Decision (P x)} `{forall x, Decision (Q x)} l v :
  (forall x, Q x -> P x) -> v ∈ l -> P v -> ~ Q v ->
  (length (filter Q l) < length (filter P l))%nat.
Proof.
  intros Himp Hv HP HQ. assert (Hle : forall k : list vma, (length (filter Q k) <= length (filter P k))%nat).
  { induction k as [|x k IH]; [done|]. rewrite !filter_cons.
    do 2 case_decide; cbn; try lia. exfalso; auto. }
  induction l as [|x l IH]; [by apply not_elem_of_nil in Hv|]. rewrite !filter_cons.
  apply elem_of_cons in Hv as [<- |Hv].
  - rewrite (decide_False (P := Q v)), (decide_True (P := P v)) by done. cbn. pose proof (Hle l). lia.
  - specialize (IH Hv). do 2 case_decide; cbn; try lia. exfalso; auto.
Qed.

(** ** Bottom-up *)

Lemma found_low_aligned m low hi len i :
  areas_ok (areas m) -> 0 < len -> low mod PAGE_SIZE = 0 ->
  mas_empty_area (mm_mt m) low hi len = Some i -> i mod PAGE_SIZE = 0.
Proof.
  intros Hok Hlen Hlow Hf. destruct (empty_area_sound _ _ _ _ _ Hf) as (Hlo & Hhi & Hfree).
  destruct (decide (i mod PAGE_SIZE = 0)) as [|Hn]; [done|].
  assert (low <> i) by (by intros ->).
  destruct (empty_area_lowest (mm_mt m) low hi len (i - 1)) as (i' & Hi' & Hle); [done|done|lia|lia| |].
  - unfold free_range in *. destruct Hok as [_ Hok]. rewrite Forall_forall in Hfree, Hok |- *.
    intros v Hv. destruct (Hfree v Hv) as [Hend|Hst]; [left|right; lia].
    destruct (Hok v Hv) as [_ _ _ _ He]. assert (vm_end v <> i) by (by intros <-). lia.
  - rewrite Hf in Hi'. injection Hi' as ->. lia.
Qed.

(** The outcome of a search that takes the lowest place. *)
Definition lowest_fit (l : list vma) (lo hi len r : Z) : Prop :=
  (r = u64 (- ENOMEM) /\ forall a, ~ fits l lo hi len a) \/
  (fits l lo hi len r /\ r mod PAGE_SIZE = 0 /\ forall a, fits l lo hi len a -> r <= a).

Lemma next_ok m i tmp :
  areas_ok (areas m) -> first_area i ULONG_MAX (areas m) = Some tmp ->
  tmp ∈ areas m /\ i < vm_end tmp /\ vma_ok tmp.
Proof.
  intros [_ Ha] (Hin & Hend & _)%first_area_in. rewrite Forall_forall in Ha. auto.
Qed.

(** Nothing fits before the end of an area whose guard gap is in the way. *)
Lemma nothing_before (l : list vma) i len lo hi tmp a :
  first_area i ULONG_MAX l = Some tmp -> start_gap e tmp < i + len ->
  i <= a -> fits l lo hi len a -> vm_end tmp <= a.
Proof.
  intros Hf Hsg Hia (_ & _ & _ & Hg). destruct (Z.le_gt_cases (vm_end tmp) a) as [|Hlt]; [done|].
  rewrite (first_area_later i ULONG_MAX a l tmp Hf Hia Hlt) in Hg. lia.
Qed.

(** The area before a free place never reaches into it, so that test never retries. *)
Lemma prev_clear (Hok : layout_ok) m i (r : vma -> option Z) :
  match mas_prev (mm_mt m) i with
  | Some tmp => if i <? end_gap e tmp then r tmp else Some i
  | None => Some i
  end = Some i.
Proof.
  rewrite mas_prev_spec. destruct (last_area _ _) as [tmp|] eqn:Hl; [|done].
  unfold last_area in Hl. apply last_Some_elem_of, list_elem_of_filter in Hl as [Hl _].
  rewrite (lo_end Hok). by rewrite (proj2 (Z.ltb_ge _ _)) by lia.
Qed.

Lemma unmapped_area_retry_spec (Hok : layout_ok) fuel info len low high m :
  areas_ok (areas m) -> align_mask info = 0 -> 0 < len -> len mod PAGE_SIZE = 0 ->
  0 <= low -> low mod PAGE_SIZE = 0 -> 0 < high <= TASK_SIZE ->
  (ending_above (areas m) low < fuel)%nat ->
  exists r, unmapped_area_retry e fuel info len low high m = Some r /\ lowest_fit (areas m) low high len r.
Proof.
  intros Ha Hmask Hlen Hlal. revert low. induction fuel as [|fuel IH]; intros low Hlow Hal Hhigh Hfuel; [lia|].
  cbn [unmapped_area_retry]. rewrite (u64_small (high - 1)) by (unfold TASK_SIZE, PAGE_SIZE in *; lia).
  assert (Hleast : forall a, fits (areas m) low high len a ->
    exists i, mas_empty_area (mm_mt m) low (high - 1) len = Some i /\ i <= a).
  { intros a (H1 & H2 & H3 & _). apply empty_area_lowest; [done|done|lia|lia|done]. }
  destruct (mas_empty_area _ _ _ _) as [i|] eqn:Hf; cycle 1.
  { eexists. split; [done|]. left. split; [done|]. intros a Hfit. by destruct (Hleast a Hfit) as (? & ? & _). }
  destruct (empty_area_sound _ _ _ _ _ Hf) as (Hi & Hhi & Hfree).
  pose proof (found_low_aligned m low (high - 1) len i Ha Hlen Hal Hf) as Hial.
  rewrite Hmask, Z.land_0_r, Z.add_0_r. cbv zeta.
  rewrite (u64_small i) by (unfold TASK_SIZE, PAGE_SIZE in *; lia).
  assert (Hfirst : forall a, fits (areas m) low high len a -> i <= a).
  { intros a Hfit. by destruct (Hleast a Hfit) as (? & [= <-] & ?). }
  assert (Hdone : (forall tmp, first_area i ULONG_MAX (areas m) = Some tmp ->
      flag_set (vm_flags tmp) (VM_STARTGAP_FLAGS e) = true -> i + len <= start_gap e tmp) ->
    exists r, Some i = Some r /\ lowest_fit (areas m) low high len r).
  { intros Hnext. exists i. split; [done|]. right. split_and!; [|done..]. apply (free_fits Hok); try done; lia. }
  rewrite (prev_clear Hok), mt_find_spec.
  destruct (first_area i ULONG_MAX (areas m)) as [tmp|] eqn:Hnx; [|by apply Hdone].
  destruct (flag_set _ _) eqn:Hflag; [|apply Hdone; congruence].
  pose proof (next_ok m i tmp Ha Hnx) as (Htin & Htend & Htok).
  rewrite (u64_small (i + len)), u64_small by (unfold TASK_SIZE, PAGE_SIZE in *; lia).
  destruct (Z.ltb_spec (start_gap e tmp) (i + len - 1)) as [Hsg|Hsg]; cycle 1.
  { apply Hdone. intros ? [= <-] _. pose proof (lo_gap_al Hok tmp Htok).
    unfold PAGE_SIZE in *. Z.to_euclidean_division_equations; lia. }
  assert (Hsame : forall a, fits (areas m) low high len a <-> fits (areas m) (vm_end tmp) high len a).
  { intros a. split; intros Hfit; pose proof Hfit as (F1 & F2 & F3 & F4); split_and!; try done; [|lia].
    eapply (nothing_before _ i len low high); try done; [lia|auto]. }
  destruct (IH (vm_end tmp)) as (r & Hr & Hres); [destruct Htok; lia|apply Htok|done| |].
  { enough (ending_above (areas m) (vm_end tmp) < ending_above (areas m) low)%nat by lia.
    apply (skip_fewer _ _ _ tmp); [intros; lia|done|lia|lia]. }
  exists r. split; [done|].
  destruct Hres as [[-> Hno]|(Hfit & Hmod & Hmin)]; [left|right].
  - split; [done|]. intros a Hfit%Hsame. by apply (Hno a).
  - split_and!; [by apply Hsame|done|]. intros a Hfa%Hsame. auto.
Qed.

(** ** Top-down *)

Lemma found_high_aligned m low high len i :
  areas_ok (areas m) -> 0 < len -> len mod PAGE_SIZE = 0 -> high mod PAGE_SIZE = 0 ->
  mas_empty_area_rev (mm_mt m) low (high - 1) len = Some i -> i mod PAGE_SIZE = 0.
Proof.
  intros Hok Hlen Hlal Hhal Hf. destruct (empty_area_rev_sound _ _ _ _ _ Hf) as (Hlo & Hhi & Hfree).
  destruct (decide (i mod PAGE_SIZE = 0)) as [|Hn]; [done|].
  assert (Hoff : forall x, x mod PAGE_SIZE = 0 -> i + len <> x).
  { intros x Hx Heq. apply Hn. replace i with (x - len) by lia.
    unfold PAGE_SIZE in *. Z.to_euclidean_division_equations; lia. }
  pose proof (Hoff high Hhal).
  destruct (empty_area_rev_highest (mm_mt m) low (high - 1) len (i + 1)) as (i' & Hi' & Hle);
    [done|done|lia|lia| |].
  - unfold free_range in *. destruct Hok as [_ Hok]. rewrite Forall_forall in Hfree, Hok |- *.
    intros v Hv. destruct (Hfree v Hv) as [Hend|Hst]; [left; lia|right].
    destruct (Hok v Hv) as [_ _ _ Hs _]. pose proof (Hoff _ Hs). lia.
  - rewrite Hf in Hi'. injection Hi' as ->. lia.
Qed.

(** The outcome of a search from the top. *)
Definition highest_clear (l : list vma) (lo hi len r : Z) : Prop :=
  (r = u64 (- ENOMEM) /\ forall a, ~ clear_of_gaps l lo hi len a) \/
  (fits l lo hi len r /\ r mod PAGE_SIZE = 0 /\ forall a, clear_of_gaps l lo hi len a -> a <= r).

Lemma clear_free (Hok : layout_ok) (l : list vma) lo hi len a :
  areas_ok l -> 0 < len -> clear_of_gaps l lo hi len a -> free_range l a len.
Proof. intros Hl Hlen Hc. by apply (clear_fits Hok) in Hc as (_ & _ & ? & _). Qed.

(** Without an alignment mask the start computed from the end of the gap is the start. *)
Lemma gap_of_end i len off :
  0 <= i < 2 ^ 64 ->
  let gap := i +u len -u 1 +u 1 -u len in gap -u Z.land (gap -u off) 0 = i.
Proof. intros Hi gap. rewrite Z.land_0_r, Z.sub_0_r. subst gap. word_lia. Qed.

Lemma unmapped_area_topdown_retry_spec (Hok : layout_ok) fuel info len low high m :
  areas_ok (areas m) -> Forall (fun v => 0 < start_gap e v) (areas m) ->
  align_mask info = 0 -> ua_length info = len -> 0 < len -> len mod PAGE_SIZE = 0 -> 0 <= low ->
  0 < high <= TASK_SIZE -> high mod PAGE_SIZE = 0 -> (starting_below (areas m) high < fuel)%nat ->
  exists r, unmapped_area_topdown_retry e fuel info len low high m = Some r /\
    highest_clear (areas m) low high len r.
Proof.
  intros Ha Hpos Hmask Hlength Hlen Hlal Hlow. revert high.
  induction fuel as [|fuel IH]; intros high Hhigh Hal Hfuel; [lia|].
  cbn [unmapped_area_topdown_retry].
  rewrite (u64_small (high - 1)) by (unfold TASK_SIZE, PAGE_SIZE in *; lia).
  assert (Hleast : forall a, clear_of_gaps (areas m) low high len a ->
    exists i, mas_empty_area_rev (mm_mt m) low (high - 1) len = Some i /\ a <= i).
  { intros a Hc. pose proof (clear_free Hok _ _ _ _ _ Ha Hlen Hc). destruct Hc as (G1 & G2 & _).
    apply empty_area_rev_highest; [done|done|lia|lia|done]. }
  destruct (mas_empty_area_rev _ _ _ _) as [i|] eqn:Hf; cycle 1.
  { eexists. split; [done|]. left. split; [done|]. intros a Hfit. by destruct (Hleast a Hfit) as (? & ? & _). }
  destruct (empty_area_rev_sound _ _ _ _ _ Hf) as (Hi & Hhi & Hfree).
  pose proof (found_high_aligned m low high len i Ha Hlen Hlal Hal Hf) as Hial.
  assert (Hlast : forall a, clear_of_gaps (areas m) low high len a -> a <= i).
  { intros a Hc. by destruct (Hleast a Hc) as (? & [= <-] & ?). }
  rewrite Hmask, Hlength. cbv zeta. rewrite gap_of_end by (unfold TASK_SIZE, PAGE_SIZE in *; lia).
  rewrite (u64_small (i + len)), (u64_small (i + len - 1)) by (unfold TASK_SIZE, PAGE_SIZE in *; lia).
  assert (Hdone : (forall tmp, first_area i ULONG_MAX (areas m) = Some tmp ->
      flag_set (vm_flags tmp) (VM_STARTGAP_FLAGS e) = true -> i + len <= start_gap e tmp) ->
    exists r, Some i = Some r /\ highest_clear (areas m) low high len r).
  { intros Hnext. exists i. split; [done|]. right. split_and!; [|done..]. apply (free_fits Hok); try done; lia. }
  rewrite (prev_clear Hok), mt_find_spec.
  destruct (first_area i ULONG_MAX (areas m)) as [tmp|] eqn:Hnx; [|by apply Hdone].
  destruct (flag_set _ _) eqn:Hflag; [|apply Hdone; congruence].
  pose proof (next_ok m i tmp Ha Hnx) as (Htin & Htend & Htok).
  destruct (Z.leb_spec (start_gap e tmp) (i + len - 1)) as [Hsg|Hsg]; cycle 1.
  { apply Hdone. intros ? [= <-] _. lia. }
  destruct (IH (start_gap e tmp)) as (r & Hr & Hres); [|by apply (lo_gap_al Hok)| |].
  { rewrite Forall_forall in Hpos. pose proof (Hpos tmp Htin). lia. }
  { enough (starting_below (areas m) (start_gap e tmp) < starting_below (areas m) high)%nat by lia.
    apply (skip_fewer _ _ _ tmp); [intros; lia|done|lia|lia]. }
  exists r. split; [done|].
  assert (Hsame : forall a, clear_of_gaps (areas m) low high len a ->
    clear_of_gaps (areas m) low (start_gap e tmp) len a).
  { intros a Hc. pose proof (Hlast a Hc). destruct Hc as (F1 & F2 & F3). split_and!; try done.
    rewrite Forall_forall in F3. destruct (F3 tmp Htin); lia. }
  destruct Hres as [[-> Hno]|((F1 & F2 & F3) & Hmod & Hmax)]; [left|right].
  - split; [done|]. intros a Hc%Hsame. by apply (Hno a).
  - split_and!; [split_and!; [done|lia|apply F3..]|done|auto].
Qed.

(** ** The choosers *)

(** Enough fuel: a search skips each area at most once. *)
Definition search_fuel m : nat := S (length (areas m)).

Lemma ending_above_fuel m lo : (ending_above (areas m) lo < search_fuel m)%nat.
Proof. unfold ending_above, search_fuel. pose proof (length_filter (fun v => lo < vm_end v) (areas m)). lia. Qed.

Lemma starting_below_fuel m hi : (starting_below (areas m) hi < search_fuel m)%nat.
Proof. unfold starting_below, search_fuel. pose proof (length_filter (fun v => start_gap e v < hi) (areas m)). lia. Qed.

Definition above_min (lo : Z) : Z := Z.max lo (min_addr e).

Lemma low_choice lo : (if lo <? min_addr e then min_addr e else lo) = above_min lo.
Proof. unfold above_min. destruct (Z.ltb_spec lo (min_addr e)); lia. Qed.

Lemma above_min_aligned (Hok : layout_ok) lo :
  lo mod PAGE_SIZE = 0 -> 0 <= above_min lo /\ above_min lo mod PAGE_SIZE = 0.
Proof.
  intros Hlo. destruct (lo_min Hok). unfold above_min. split; [lia|].
  by destruct (Z.max_spec lo (min_addr e)) as [[_ ->]|[_ ->]].
Qed.

Lemma unmapped_area_spec (Hok : layout_ok) len lo high m :
  areas_ok (areas m) -> 0 < len < 2 ^ 64 -> len mod PAGE_SIZE = 0 -> lo mod PAGE_SIZE = 0 ->
  0 < high <= TASK_SIZE ->
  exists r, vm_unmapped_area e (search_fuel m)
      {| ua_topdown := false; ua_length := len; low_limit := lo; high_limit := high;
         align_mask := 0; align_offset := 0 |} m = Some r /\
    lowest_fit (areas m) (above_min lo) high len r.
Proof.
  intros Ha Hlen Hal Hlo Hhigh. unfold vm_unmapped_area, unmapped_area.
  cbn [ua_topdown ua_length align_mask low_limit high_limit].
  rewrite Z.add_0_r, u64_small, Z.ltb_irrefl, low_choice by lia.
  destruct (above_min_aligned Hok lo Hlo).
  apply (unmapped_area_retry_spec Hok); try done; [lia|apply ending_above_fuel].
Qed.

Lemma unmapped_area_topdown_spec (Hok : layout_ok) len lo high m :
  areas_ok (areas m) -> Forall (fun v => 0 < start_gap e v) (areas m) ->
  0 < len < 2 ^ 64 -> len mod PAGE_SIZE = 0 -> lo mod PAGE_SIZE = 0 ->
  0 < high <= TASK_SIZE -> high mod PAGE_SIZE = 0 ->
  exists r, vm_unmapped_area e (search_fuel m)
      {| ua_topdown := true; ua_length := len; low_limit := lo; high_limit := high;
         align_mask := 0; align_offset := 0 |} m = Some r /\
    highest_clear (areas m) (above_min lo) high len r.
Proof.
  intros Ha Hpos Hlen Hal Hlo Hhigh Hhal. unfold vm_unmapped_area, unmapped_area_topdown.
  cbn [ua_topdown ua_length align_mask low_limit high_limit].
  rewrite Z.add_0_r, u64_small, Z.ltb_irrefl, low_choice by lia.
  destruct (above_min_aligned Hok lo Hlo).
  apply (unmapped_area_topdown_retry_spec Hok); try done; [lia|apply starting_below_fuel].
Qed.

(** A hint that passes the test is a free place. *)
Lemma hint_fits_ok (Hok : layout_ok) m a len mmap_end :
  areas_ok (areas m) -> 0 <= a -> 0 < len <= mmap_end -> mmap_end <= TASK_SIZE ->
  hint_fits e a len mmap_end m = true -> fits (areas m) (min_addr e) mmap_end len a.
Proof.
  intros Ha Ha0 Hlen Hend. unfold hint_fits, find_vma_prev. rewrite mt_find_spec.
  rewrite (u64_small (mmap_end - len)) by (unfold TASK_SIZE, PAGE_SIZE in *; lia).
  intros Hh. split_bools. unfold fits.
  assert (Hsum : a +u len = a + len) by (apply u64_small; unfold TASK_SIZE, PAGE_SIZE in *; lia).
  rewrite Hsum in *. assert (Hnext : match first_area a ULONG_MAX (areas m) with
    | Some v => a + len <= start_gap e v | None => True end) by (destruct (first_area _ _ _); [lia|done]).
  split_and!; [lia|lia| |done]. apply Forall_forall. intros w Hw.
  destruct (Z.le_gt_cases (vm_end w) a) as [|Hgt]; [by left|right].
  destruct (first_area a ULONG_MAX (areas m)) as [v|] eqn:Hf.
  - destruct (first_area_least _ _ _ w Ha Hf Hw ltac:(lia)) as [-> |Hb];
      pose proof (next_ok m a v Ha Hf) as (_ & _ & Hv); pose proof (lo_gap Hok v Hv); [lia|].
    unfold before in Hb. destruct Hv. lia.
  - pose proof (first_area_none _ _ Ha Hf w Hw). lia.
Qed.

(** The bounds the architecture answers with. *)
Record window_ok (m : mm_struct T) (addr len flags : Z) : Prop := {
  wi_len : 0 < len < 2 ^ 64 /\ len mod PAGE_SIZE = 0;
  wi_end : min_addr e <= arch_get_mmap_end e addr len flags <= TASK_SIZE;
  wi_base : forall a, 0 < arch_get_mmap_base e a (mmap_base m) <= arch_get_mmap_end e addr len flags /\
              arch_get_mmap_base e a (mmap_base m) mod PAGE_SIZE = 0;
  wi_low : TASK_UNMAPPED_BASE e mod PAGE_SIZE = 0 /\ mmap_base m mod PAGE_SIZE = 0
}.

Lemma too_long m addr len flags :
  layout_ok -> window_ok m addr len flags ->
  (arch_get_mmap_end e addr len flags -u min_addr e <? len) =
  (arch_get_mmap_end e addr len flags - min_addr e <? len).
Proof.
  intros Hok [_ Hend _ _]. destruct (lo_min Hok).
  rewrite u64_small; [done|unfold TASK_SIZE, PAGE_SIZE in *; lia].
Qed.

Lemma no_fit_long l lo hi len a : hi - min_addr e < len -> ~ fits l (above_min lo) hi len a.
Proof. unfold fits, above_min. lia. Qed.

Lemma fits_wider l lo lo' hi hi' len a : lo' <= lo -> hi <= hi' -> fits l lo hi len a -> fits l lo' hi' len a.
Proof. unfold fits. intuition lia. Qed.

Lemma error_offset : offset_in_page (u64 (- ENOMEM)) =? 0 = false.
Proof. done. Qed.

Lemma aligned_offset r : r mod PAGE_SIZE = 0 -> offset_in_page r =? 0 = true.
Proof. intros Hr. by rewrite offset_in_page_mod, Hr. Qed.

(** What a chooser answers when it may pick the address. *)
Definition chosen (m : mm_struct T) (addr len flags r : Z) : Prop :=
  fits (areas m) (min_addr e) (arch_get_mmap_end e addr len flags) len r /\ r mod PAGE_SIZE = 0.

Lemma hint_chosen (Hok : layout_ok) m addr len flags :
  areas_ok (areas m) -> window_ok m addr len flags ->
  len <= arch_get_mmap_end e addr len flags - min_addr e ->
  hint_fits e (PAGE_ALIGN addr) len (arch_get_mmap_end e addr len flags) m = true ->
  chosen m addr len flags (PAGE_ALIGN addr).
Proof.
  intros Ha Hwin Hlen Hh. destruct Hwin, (lo_min Hok). split; [|apply PAGE_ALIGN_aligned].
  pose proof (PAGE_ALIGN_is_u64 addr) as []. apply (hint_fits_ok Hok); try done; lia.
Qed.

Lemma bottom_up_outcome (Hok : layout_ok) m addr len flags :
  areas_ok (areas m) -> window_ok m addr len flags -> flag_set flags MAP_FIXED = false ->
  exists r, generic_get_unmapped_area e (search_fuel m) addr len flags m = Some r /\
    ((r = u64 (- ENOMEM) /\
      forall a, ~ fits (areas m) (above_min (mmap_base m)) (arch_get_mmap_end e addr len flags) len a) \/
     (chosen m addr len flags r /\
      (r = PAGE_ALIGN addr \/
       forall a, fits (areas m) (above_min (mmap_base m)) (arch_get_mmap_end e addr len flags) len a -> r <= a))).
Proof.
  intros Ha Hwin Hfl. unfold generic_get_unmapped_area. cbv zeta.
  rewrite (too_long m) by done. destruct (Z.ltb_spec (arch_get_mmap_end e addr len flags - min_addr e) len).
  { eexists. split; [done|]. left. split; [done|]. intros a. by apply no_fit_long. }
  rewrite Hfl. destruct (negb (addr =? 0) && _) eqn:Hh.
  { eexists. split; [done|]. split_bools. right. split; [by apply hint_chosen|by left]. }
  destruct (lo_min Hok). pose proof Hwin as [[] [] _ []].
  destruct (unmapped_area_spec Hok len (mmap_base m) (arch_get_mmap_end e addr len flags) m)
    as (r & -> & Hr); try done; [lia|].
  exists r. split; [done|]. destruct Hr as [?|(Hfit & Hal & Hmin)]; [by left|right].
  split; [split; [|done]|by right]. eapply fits_wider; [| |done]; unfold above_min; lia.
Qed.

Lemma top_down_outcome (Hok : layout_ok) m addr len flags :
  areas_ok (areas m) -> Forall (fun v => 0 < start_gap e v) (areas m) ->
  window_ok m addr len flags -> flag_set flags MAP_FIXED = false ->
  exists r, generic_get_unmapped_area_topdown e (search_fuel m) addr len flags m = Some r /\
    (chosen m addr len flags r \/
     (r = u64 (- ENOMEM) /\ forall a,
        ~ fits (areas m) (above_min (TASK_UNMAPPED_BASE e)) (arch_get_mmap_end e addr len flags) len a /\
        ~ clear_of_gaps (areas m) (above_min PAGE_SIZE)
            (arch_get_mmap_base e (if addr =? 0 then 0 else PAGE_ALIGN addr) (mmap_base m)) len a)).
Proof.
  intros Ha Hpos Hwin Hfl. unfold generic_get_unmapped_area_topdown. cbv zeta.
  set (base := arch_get_mmap_base e (if addr =? 0 then 0 else PAGE_ALIGN addr) (mmap_base m)).
  pose proof Hwin as [[] [] Hbase []]. specialize (Hbase (if addr =? 0 then 0 else PAGE_ALIGN addr)) as [Hb Hbal].
  fold base in Hb, Hbal. destruct (lo_min Hok).
  rewrite (too_long m) by done. destruct (Z.ltb_spec (arch_get_mmap_end e addr len flags - min_addr e) len).
  { eexists. split; [done|]. right. split; [done|]. intros a. split; [by apply no_fit_long|].
    intros (? & ? & _). unfold above_min in *. lia. }
  rewrite Hfl. destruct (negb (addr =? 0) && _) eqn:Hh.
  { eexists. split; [done|]. split_bools. left. by apply hint_chosen. }
  destruct (unmapped_area_topdown_spec Hok len PAGE_SIZE base m) as (r & -> & Hr); try done; [lia|].
  destruct Hr as [[-> Hno]|(Hfit & Hal & _)].
  - rewrite error_offset. cbn [negb].
    destruct (unmapped_area_spec Hok len (TASK_UNMAPPED_BASE e) (arch_get_mmap_end e addr len flags) m)
      as (r & -> & Hr); try done; [lia|].
    exists r. split; [done|]. destruct Hr as [[-> Hno']|(Hfit & Hal & _)]; [by right|left].
    split; [|done]. eapply fits_wider; [| |done]; unfold above_min; lia.
  - rewrite aligned_offset by done. exists r. split; [done|]. left. split; [|done].
    eapply fits_wider; [| |done]; unfold above_min; lia.
Qed.

End spec.

(** ** A mapping at an address of the kernel's choice *)

Section mmap.
Context {T : Type} `{GapTree T} (e : map_env) (le : layout_env).
Implicit Types m : mm_struct T.
Notation areas m := (vmas (mm_mt m)).

(** The kernel places ordinary anonymous memory with the top-down search of [m]; the
    result is an [unsigned long]. *)
Record chooses_in m : Prop := {
  ch_thp : thp_get_unmapped_area (be e) = None;
  ch_mm : forall file a len pgoff fl r,
    generic_get_unmapped_area_topdown le (search_fuel m) a len fl m = Some r ->
    mm_get_unmapped_area (be e) file a len pgoff fl = u64 r
}.

(** The address a request without [MAP_FIXED] is placed at. *)
Lemma request_address file addr len prot flags vmf pgoff m a' l' fl' vmf' pg' :
  flag_set flags MAP_FIXED = false -> flag_set flags MAP_FIXED_NOREPLACE = false ->
  mmap_request e file addr len prot flags vmf pgoff m = inr (a', l', fl', vmf', pg') ->
  a' = get_unmapped_area (be e) file (round_hint_to_min e addr) l' pgoff flags.
Proof.
  intros Hfx Hnr. unfold mmap_request. cbv zeta. rewrite Hnr, Hfx. intros Hreq.
  destruct (len =? 0); [done|]. destruct (PAGE_ALIGN len =? 0); [done|].
  destruct (_ <? pgoff); [done|]. destruct (_ <? map_count m); [done|].
  destruct (IS_ERR_VALUE _) eqn:He; [done|].
  destruct (_ && bool_decide _); [done|]. destruct (_ && negb (can_do_mlock e)); [done|].
  destruct (negb (mlock_future_ok _ _ _ _)); [done|].
  apply err_bind_inr in Hreq as ([[f v] p] & _ & Hreq). by injection Hreq as <- <- <- <- <-.
Qed.

(** An answer that is no error is the chooser's. *)
Lemma unmapped_is_chosen (Hok : map_env_ok e) file addr len pgoff flags :
  let r := get_unmapped_area (be e) file addr len pgoff flags in
  IS_ERR_VALUE r = false ->
  r = get_area (be e) file flags file addr len (match file with Some _ => pgoff | None => 0 end) flags.
Proof.
  cbv zeta. unfold get_unmapped_area.
  destruct (Z.eqb_spec (u64 (arch_mmap_check (be e) addr len flags)) 0); cbn [negb]; cycle 1.
  { rewrite err_value; [done|apply Hok|done]. }
  destruct (TASK_SIZE <? len); [by rewrite err_ENOMEM|].
  destruct (IS_ERR_VALUE (get_area _ _ _ _ _ _ _ _)); [done|].
  destruct (_ <? get_area _ _ _ _ _ _ _ _); [by rewrite err_ENOMEM|].
  destruct (offset_in_page _ =? 0); cbn [negb]; [|by rewrite err_EINVAL].
  match goal with |- context [security_mmap_addr ?b ?x] => set (s := security_mmap_addr b x) end.
  destruct (Z.eqb_spec (u64 s) 0); cbn [negb]; [done|].
  rewrite err_value; [done|apply Hok|done].
Qed.

Lemma free_unseen (l : list vma) lo hi len a x :
  fits le l lo hi len a -> a <= x < a + len -> view l x = None.
Proof.
  intros (_ & _ & Hfree & _) Hx. apply view_none. intros v Hv. unfold free_range in Hfree.
  rewrite Forall_forall in Hfree. unfold covers. destruct (Hfree v Hv); lia.
Qed.

(** Whatever [mmap_region] does in a free range, the mapped pages stay, up to the marks of [mlock]
    where the request is to be locked. *)
Lemma region_keeps addr len flags pgoff m r m' :
  region_outcome e addr len flags None pgoff m r m' ->
  (forall x, addr <= x < addr + len -> view (areas m) x = None) ->
  forall x p, view (areas m) x = Some p ->
    exists p', view (areas m') x = Some p' /\ lockless p' = lockless p /\ (flag_set flags VM_LOCKED = false -> p' = p).
Proof.
  intros [_ _ _ Hp] Hfree x p Hx.
  assert (~ addr <= x < addr + len) by (intros Hin; by rewrite Hfree in Hx).
  destruct Hp as [[_ [Hsame|Hless]]|(_ & fl & f & pg & _ & Hv & Hv')].
  - exists p. by rewrite <- Hsame.
  - exists p. by rewrite Hless, decide_False.
  - specialize (Hv x). rewrite decide_False, Hx in Hv by done. apply fmap_Some in Hv as (p' & Hp' & Heq).
    exists p'. split_and!; [done|done|]. intros Hnl. specialize (Hv' Hnl x). rewrite decide_False, Hx, Hp' in Hv' by done. congruence.
Qed.

End mmap.

Section claims.
Context {T : Type} `{GapTree T}.
Implicit Types m : mm_struct T.
Notation areas m := (vmas (mm_mt m)).

(** The top-down chooser returns on every request it may place: a page-aligned range
    of the window that meets no area and stays below the guard gap of the next one, or
    [-ENOMEM], and then nothing fits in the fallback window and nothing clear of all
    guard gaps in the top-down window. *)
Theorem topdown_choice_correct (e : layout_env) m addr len flags :
  layout_ok e -> mm_wf m -> Forall (fun v => 0 < start_gap e v) (areas m) ->
  window_ok e m addr len flags -> flag_set flags MAP_FIXED = false ->
  exists r, generic_get_unmapped_area_topdown e (search_fuel m) addr len flags m = Some r /\
    (chosen e m addr len flags r \/
     (r = u64 (- ENOMEM) /\ forall a,
        ~ fits e (areas m) (above_min e (TASK_UNMAPPED_BASE e)) (arch_get_mmap_end e addr len flags) len a /\
        ~ clear_of_gaps e (areas m) (above_min e PAGE_SIZE)
            (arch_get_mmap_base e (if addr =? 0 then 0 else PAGE_ALIGN addr) (mmap_base m)) len a)).
Proof. intros Hok [Ha _ _ _ _] Hpos Hwin Hfl. by apply top_down_outcome. Qed.

(** The bottom-up chooser answers the hint when it fits, else the lowest range at or
    above [mmap_base] that fits; it fails exactly when none does. *)
Theorem bottomup_choice_lowest (e : layout_env) m addr len flags :
  layout_ok e -> mm_wf m -> window_ok e m addr len flags -> flag_set flags MAP_FIXED = false ->
  exists r, generic_get_unmapped_area e (search_fuel m) addr len flags m = Some r /\
    ((r = u64 (- ENOMEM) /\
      forall a, ~ fits e (areas m) (above_min e (mmap_base m)) (arch_get_mmap_end e addr len flags) len a) \/
     (chosen e m addr len flags r /\
      (r = PAGE_ALIGN addr \/
       forall a, fits e (areas m) (above_min e (mmap_base m)) (arch_get_mmap_end e addr len flags) len a -> r <= a))).
Proof. intros Hok [Ha _ _ _ _] Hwin Hfl. by apply bottom_up_outcome. Qed.

(** C9.  An anonymous private [mmap] without [MAP_FIXED], where the address is chosen by the generic
    top-down chooser, always returns and never disturbs memory: every page mapped before the
    call is mapped after it with the same flags, file and offset, whether the call succeeds
    or fails (a request to be locked can clear the [mlock] marks of an area it extends).  The
    window of the chooser is page-aligned and inside the address space, and no guard gap
    reaches down to address 0. *)
Theorem mmap_never_clobbers (e : map_env) (le : layout_env) m addr len prot flags pgoff :
  map_env_ok e -> layout_ok le -> mm_wf m -> Forall (fun v => 0 < start_gap le v) (areas m) ->
  chooses_in e le m -> is_u64 len ->
  (0 < PAGE_ALIGN len -> window_ok le m (round_hint_to_min e addr) (PAGE_ALIGN len) flags) ->
  flag_set flags MAP_FIXED = false -> flag_set flags MAP_FIXED_NOREPLACE = false ->
  flag_set flags MAP_SHARED = false ->
  exists r pop m', do_mmap e (munmap_fuel m) None addr len prot flags 0 pgoff m = Some (r, pop, m') /\
    mm_wf m' /\ forall x p, view (areas m) x = Some p ->
      exists p', view (areas m') x = Some p' /\ lockless p' = lockless p /\
        ((forall a l fl vmf pg, mmap_request e None addr len prot flags 0 pgoff m = inr (a, l, fl, vmf, pg) ->
           flag_set vmf VM_LOCKED = false) -> p' = p).
Proof.
  intros Hok Hlok Hwf Hpos [Hthp Hmm] Hlen Hwin0 Hfx Hnr Hsh. unfold do_mmap.
  destruct (mmap_request _ _ _ _ _ _ _ _ _) as [err|[[[[a l] fl] vmf] pg]] eqn:Hreq.
  { eexists _, _, _. split; [done|]. split; [done|]. intros x p Hx. by exists p. }
  pose proof (request_address e None addr len prot flags 0 pgoff m a l fl vmf pg Hfx Hnr Hreq) as Haddr.
  apply mmap_request_ok in Hreq as (-> & Hnz & He & _).
  pose proof (PAGE_ALIGN_is_u64 len) as [Hl0 Hl1]. assert (Hwin := Hwin0 ltac:(lia)).
  destruct (get_unmapped_ok e Hok None (round_hint_to_min e addr) (PAGE_ALIGN len) pgoff flags)
    as (G1 & G2 & G3); [lia|by rewrite <- Haddr|]. rewrite <- Haddr in G1, G2, G3.
  destruct (mmap_region_spec e (munmap_fuel m) None a (PAGE_ALIGN len) vmf pg m)
    as (r & m' & -> & Hout); try done; [lia|apply PAGE_ALIGN_aligned|apply Hok..|].
  eexists _, _, _. split; [done|]. split; [apply Hout|]. intros y p Hy.
  destruct (region_keeps e a (PAGE_ALIGN len) vmf pg m r m' Hout) with (x := y) (p := p) as (p' & Hp' & Hl & Hex);
    [|done|exists p'; split_and!; [done|done|]; intros Hnl; by apply Hex, (Hnl _ _ _ _ _ eq_refl)].
  intros x Hx.
  destruct (top_down_outcome le Hlok m (round_hint_to_min e addr) (PAGE_ALIGN len) flags)
    as (c & Hc & Hch); [apply Hwf|done..|].
  assert (a = u64 c) as ->.
  { rewrite Haddr in He |- *. rewrite (unmapped_is_chosen e Hok) by done.
    unfold get_area. rewrite Hsh, Hthp. by apply Hmm. }
  destruct Hch as [[Hfit _]|[-> _]]; [|by rewrite u64_idemp, err_ENOMEM in He].
  destruct Hwin as [_ [_ Htop] _ _], (lo_min le Hlok). pose proof Hfit as (? & ? & _).
  rewrite u64_small in Hx by (unfold TASK_SIZE, PAGE_SIZE in *; lia). by eapply free_unseen.
Qed.

End claims.

(** *** A process with a heap and a stack that keeps a megabyte clear below it *)

Definition layout0 : layout_env := {|
  min_addr := 65536;
  start_gap := fun v => if flag_set (vm_flags v) VM_GROWSDOWN
                        then Z.max 0 (vm_start v - 1048576) else vm_start v;
  end_gap := vm_end; VM_STARTGAP_FLAGS := VM_GROWSDOWN;
  arch_get_mmap_end := fun _ _ _ => TASK_SIZE; arch_get_mmap_base := fun _ b => b;
  TASK_UNMAPPED_BASE := 0x2aaaaaaab000 |}.

Lemma layout0_ok : layout_ok layout0.
Proof.
  constructor; [intros v []|intros v []|intros v|done|done]; cbn [start_gap VM_STARTGAP_FLAGS layout0].
  - destruct (flag_set _ _); lia.
  - destruct (flag_set _ _); [|done]. destruct (Z.max_spec 0 (vm_start v - 1048576)) as [[_ ->]|[_ ->]]; [|done].
    unfold PAGE_SIZE in *. Z.to_euclidean_division_equations; lia.
  - by intros ->.
Qed.

Definition stack_mm : mm_struct (list vma) :=
  MmStruct [anon_area 1 65536 102400 0x100073; anon_area 2 4194304 4202496 0x100173] 2
    (Counters 11 0 9 0 2) 102400 65536 0 0 0 4194304 Unlocked 11 3.

Lemma stack_mm_wf : mm_wf stack_mm.
Proof.
  constructor; cbn; try done.
  - split; repeat constructor; by compute.
  - repeat (constructor; [set_solver|]). constructor.
  - repeat constructor.
Qed.

Lemma stack_gaps : Forall (fun v => 0 < start_gap layout0 v) (vmas (mm_mt stack_mm)).
Proof. repeat constructor; by vm_compute. Qed.

Lemma window0 addr len flags :
  0 < len < 2 ^ 64 -> len mod PAGE_SIZE = 0 -> window_ok layout0 stack_mm addr len flags.
Proof. intros. by constructor. Qed.

(** The search skips the guard gap and ends right below it. *)
Example topdown_below_guard :
  generic_get_unmapped_area_topdown layout0 (search_fuel stack_mm) 0 8192 0x22 stack_mm = Some 3137536.
Proof. vm_compute. done. Qed.

(** Bottom-up it has to go above the stack. *)
Example bottomup_above_stack :
  generic_get_unmapped_area layout0 (search_fuel stack_mm) 0 8192 0x22 stack_mm = Some 4202496.
Proof. vm_compute. done. Qed.

Lemma topdown_choice_correct_witness :
  exists r, generic_get_unmapped_area_topdown layout0 (search_fuel stack_mm) 0 8192 0x22 stack_mm = Some r /\
    (chosen layout0 stack_mm 0 8192 0x22 r \/
     (r = u64 (- ENOMEM) /\ forall a,
        ~ fits layout0 (vmas (mm_mt stack_mm)) (above_min layout0 (TASK_UNMAPPED_BASE layout0)) TASK_SIZE 8192 a /\
        ~ clear_of_gaps layout0 (vmas (mm_mt stack_mm)) (above_min layout0 PAGE_SIZE) 4194304 8192 a)).
Proof.
  apply (topdown_choice_correct layout0 stack_mm 0 8192 0x22 layout0_ok stack_mm_wf stack_gaps); [|done].
  by apply window0.
Defined.

Lemma bottomup_choice_lowest_witness :
  exists r, generic_get_unmapped_area layout0 (search_fuel stack_mm) 0 8192 0x22 stack_mm = Some r /\
    ((r = u64 (- ENOMEM) /\
      forall a, ~ fits layout0 (vmas (mm_mt stack_mm)) (above_min layout0 4194304) TASK_SIZE 8192 a) \/
     (chosen layout0 stack_mm 0 8192 0x22 r /\
      (r = PAGE_ALIGN 0 \/
       forall a, fits layout0 (vmas (mm_mt stack_mm)) (above_min layout0 4194304) TASK_SIZE 8192 a -> r <= a))).
Proof.
  apply (bottomup_choice_lowest layout0 stack_mm 0 8192 0x22 layout0_ok stack_mm_wf); [|done].
  by apply window0.
Defined.

Definition choosing_env : map_env :=
  let c : chooser := fun _ a len _ fl =>
    u64 (default 0 (generic_get_unmapped_area_topdown layout0 (search_fuel stack_mm) a len fl stack_mm)) in
  let b := be map_env0 in
  {| be := {| vm := vm b; arch_mmap_check := arch_mmap_check b; mm_get_unmapped_area := c;
       file_get_unmapped_area := fun _ => None; shmem_get_unmapped_area := c;
       thp_get_unmapped_area := None; security_mmap_addr := security_mmap_addr b;
       vm_start_gap := start_gap layout0; stack_guard_gap := 1048576; ops_close := ops_close b;
       check_data_rlimit := check_data_rlimit b; min_brk_is_end_data := false; vm_area_alloc_ok := true;
       iter_store_ok := iter_store_ok b; VM_DATA_DEFAULT_FLAGS := 0x73 |};
     is_file_hugepages := is_file_hugepages map_env0; path_noexec := path_noexec map_env0;
     fmode_read := fmode_read map_env0; fmode_write := fmode_write map_env0;
     fmode_unsigned_offset := fmode_unsigned_offset map_env0; inode_of := inode_of map_env0;
     is_append := is_append map_env0; is_swapfile := is_swapfile map_env0; has_mmap := has_mmap map_env0;
     mmap_supported_flags := mmap_supported_flags map_env0; read_implies_exec := false;
     execute_only_pkey := 0; calc_vm_prot_bits := calc_vm_prot_bits map_env0;
     calc_vm_flag_bits := calc_vm_flag_bits map_env0; can_do_mlock := true; overcommit_never := false;
     mmap_min_addr := 65536; LEGACY_MAP_MASK := 0xfffff; MAX_LFS_FILESIZE := 2 ^ 63 - 1;
     call_mmap := call_mmap map_env0; mapping_map_writable := mapping_map_writable map_env0;
     shmem_zero_setup := shmem_zero_setup map_env0; map_deny_write_exec := map_deny_write_exec map_env0;
     arch_validate_flags := arch_validate_flags map_env0; never_mlocked := never_mlocked map_env0;
     anon_clone := anon_clone map_env0 |}.

Lemma choosing_env_ok : map_env_ok choosing_env.
Proof.
  constructor; try done.
  - intros [f|] fl a len pgoff fl'; unfold get_area; cbn; [apply u64_is_u64|].
    destruct (flag_set fl MAP_SHARED); apply u64_is_u64.
  - apply map_env0_ok.
  - apply map_env0_ok.
Qed.

Lemma choosing_in : chooses_in choosing_env layout0 stack_mm.
Proof. constructor; [done|]. intros file a len pgoff fl r Hr. cbn. by rewrite Hr. Qed.

Lemma mmap_never_clobbers_witness :
  exists r pop m', do_mmap choosing_env (munmap_fuel stack_mm) None 0 5000 3 0x22 0 0 stack_mm = Some (r, pop, m') /\
    mm_wf m' /\ forall x p, view (vmas (mm_mt stack_mm)) x = Some p -> view (vmas (mm_mt m')) x = Some p.
Proof.
  destruct (mmap_never_clobbers choosing_env layout0 stack_mm 0 5000 3 0x22 0 choosing_env_ok layout0_ok
    stack_mm_wf stack_gaps choosing_in) as (r & pop & m' & Hd & Hw & Hv); [done| |done|done|done|].
  - intros _. by apply window0.
  - exists r, pop, m'. split; [exact Hd|]. split; [exact Hw|]. intros x p Hx. destruct (Hv x p Hx) as (p' & Hp' & _ & Heq).
    rewrite Hp'. f_equal. apply Heq. vm_compute. by intros a l fl vmf pg [= <- <- <- <- <-].
Defined.

End LayoutSpec.
