(* ===== verification/Race.v ===== *)
(** * Threads of one process and the limiter's hook in mmap ([mm/mmap.c])

    [ksys_mmap_pgoff] asks the limiter before [vm_mmap_pgoff] takes the lock of the
    address space, so the answer can be stale when the mapping is made.  The call is split
    at that point into two steps, and the threads of a process interleave them.  The hook passes
    [current->pid], which is the id of the calling thread: a thread is held to the limit of its
    own id.  If all [n] threads have limits, the process stays below [n] times the largest (and
    a page each), and two threads can take it above the limit; a thread that is not listed
    is not held to anything. *)
From S2P Require Import Prelude Gate MemLimit MemLimitSpec Vma Mm MmSpec Brk BrkSpec Mmap MmapSpec MmapCalls.

Module Race.
Import Mm MmSpec Brk BrkSpec Mmap MmapSpec MmapCalls.

(** A request the limiter has accepted and the kernel has not yet carried out. *)
Record request := {
  rq_file : option Z; rq_addr : Z; rq_len : Z; rq_prot : Z; rq_flags : Z; rq_pgoff : Z
}.

Section race.
Context {T : Type} `{VmaTree T} {G : Type} `{MemGate G}.
Context (e : map_env) (g : G) (c : @mmap_calls T).
Implicit Types m : mm_struct T.
Notation areas m := (vmas (mm_mt m)).

(** The call of thread [tid] up to and including the hook: its error, or the accepted request. *)
Definition mmap_admit (tid : Z) (a : mmap_args) m : Z + request :=
  match mmap_target e c (ma_len a) (ma_flags a) (ma_fd a) with
  | inl err => inl (u64 err)
  | inr (file, len) =>
      if negb (gate_accepts g tid (total_vm (ctr m)) len) then inl (u64 (- ENOMEM))
      else inr {| rq_file := file; rq_addr := ma_addr a; rq_len := len; rq_prot := ma_prot a;
                  rq_flags := ma_flags a; rq_pgoff := ma_pgoff a |}
  end.

(** The rest of the call. *)
Definition mmap_commit (q : request) m : option (Z * mm_struct T) :=
  vm_mmap_pgoff c (rq_file q) (rq_addr q) (rq_len q) (rq_prot q) (rq_flags q) (rq_pgoff q) m.

(** The address space the threads share, and the request each thread is in the middle of. *)
Record proc := Proc { p_mm : mm_struct T; p_pending : list (Z * request) }.

(** One step of a process with these threads: a thread that is not in the middle of a call
    gets a request past the hook, a thread carries out its request, a thread unmaps. *)
Inductive step (threads : list Z) : proc -> proc -> Prop :=
  | step_admit m pend tid a q :
      tid ∈ threads -> tid ∉ pend.*1 -> is_u64 (ma_len a) -> mmap_admit tid a m = inr q ->
      step threads (Proc m pend) (Proc m (pend ++ [(tid, q)]))
  | step_commit m l tid q k r m' :
      mmap_commit q m = Some (r, m') -> step threads (Proc m (l ++ (tid, q) :: k)) (Proc m' (l ++ k))
  | step_munmap m pend start len r m' :
      is_u64 start -> is_u64 len ->
      __vm_munmap (vm (be e)) (munmap_fuel m) start len true m = Some (r, m') ->
      step threads (Proc m pend) (Proc m' pend).

(** Alone, a thread does what [ksys_mmap_pgoff] does. *)
Lemma admit_commit tid a m :
  ksys_mmap_pgoff e g tid c (ma_addr a) (ma_len a) (ma_prot a) (ma_flags a) (ma_fd a) (ma_pgoff a) m =
  match mmap_admit tid a m with inl err => Some (err, m) | inr q => mmap_commit q m end.
Proof.
  unfold ksys_mmap_pgoff, mmap_admit. destruct (mmap_target _ _ _ _ _) as [err|[file len]]; [done|].
  by destruct (negb _).
Qed.

(** The bytes a pending request can still add. *)
Definition weight (q : request) : Z :=
  if PAGE_ALIGN (rq_len q) <=? TASK_SIZE then PAGE_ALIGN (rq_len q) else 0.

Definition weights (l : list (Z * request)) : Z := foldr (fun q n => weight q.2 + n) 0 l.

Lemma weights_app l k : weights (l ++ k) = weights l + weights k.
Proof. induction l as [|q l IH]; cbn; [done|]. fold (weights l) (weights (l ++ k)). lia. Qed.

Lemma weights_bound b l : Forall (fun q => weight q.2 <= b) l -> weights l <= Z.of_nat (length l) * b.
Proof. induction 1; cbn; [lia|]. fold (weights l). lia. Qed.

Lemma weight_nonneg q : 0 <= weight q.
Proof. unfold weight. pose proof (PAGE_ALIGN_is_u64 (rq_len q)) as []. destruct (_ <=? _); lia. Qed.

Section invariant.
Context (Hok : map_env_ok e) (Hc : vm_mmap_contract e c) (limit : Z) (threads : list Z).
Context (Hlim : forall tid, tid ∈ threads -> exists l, gate_limit g tid = Some l /\ l <= limit) (Hpos : 0 <= limit).

(** An accepted request fits, by the usage the limiter saw. *)
Lemma admitted_weight tid a m q :
  tid ∈ threads -> mm_wf m -> is_u64 (ma_len a) -> mmap_admit tid a m = inr q ->
  is_u64 (rq_len q) /\ weight q <= limit + PAGE_SIZE /\
  (weight q = 0 \/ total_vm (ctr m) * PAGE_SIZE + weight q < limit + PAGE_SIZE).
Proof.
  intros Hin Hwf Hlen. destruct (Hlim tid Hin) as (lim & Hl & Hle). unfold mmap_admit.
  destruct (mmap_target _ _ _ _ _) as [err|[file len]] eqn:Ht; [done|].
  apply mmap_target_len in Ht; [|done].
  destruct (gate_accepts _ _ _ _) eqn:Hacc; cbn [negb]; [|done]. intros [= <-].
  split; [done|]. unfold weight. cbn [rq_len]. pose proof (PAGE_ALIGN_is_u64 len) as [Hp _].
  pose proof (pages_range _ (wf_areas m Hwf)) as Hpg. rewrite <- (wf_total m Hwf) in Hpg.
  destruct (Z.leb_spec (PAGE_ALIGN len) TASK_SIZE); [|unfold PAGE_SIZE in *; lia].
  destruct (Z.eq_dec (PAGE_ALIGN len) 0) as [->|Hnz]; [unfold PAGE_SIZE in *; lia|].
  pose proof (accepted_within g tid lim len m (total_vm (ctr m) + PAGE_ALIGN len / PAGE_SIZE)
    Hwf Hl Hacc) as Hw. pose proof (PAGE_ALIGN_aligned len).
  unfold PAGE_SIZE in *. Z.to_euclidean_division_equations; lia.
Qed.

(** Carrying out a request maps at most its weight. *)
Lemma commit_weight q m :
  mm_wf m -> is_u64 (rq_len q) -> exists r m', mmap_commit q m = Some (r, m') /\ mm_wf m' /\
    total_vm (ctr m') * PAGE_SIZE <= total_vm (ctr m) * PAGE_SIZE + weight q.
Proof.
  intros Hwf Hlen. unfold mmap_commit. pose proof (weight_nonneg q) as Hnn.
  destruct (Hc (rq_file q) (rq_addr q) (rq_len q) (rq_prot q) (rq_flags q) (rq_pgoff q) m)
    as [[err Hr]|(r & pop & m' & Hdo & Hr)]; rewrite Hr.
  { exists (u64 err), m. split_and!; [done|done|lia]. }
  destruct (do_mmap_outcome e Hok (rq_file q) (rq_addr q) (rq_len q) (rq_prot q) (rq_flags q) 0 (rq_pgoff q)
    (set_lock WriteLocked m)) as (r' & pop' & m'' & Hdo' & Hout); [by apply mm_wf_lock|done|].
  change (munmap_fuel (set_lock WriteLocked m)) with (munmap_fuel m) in Hdo'.
  rewrite Hdo in Hdo'. injection Hdo' as <- <- <-. eexists _, _. split; [done|].
  destruct Hout as [->|(a & vmf & pg & Ha & Htop & Hp & [Hw _ Ht _])].
  - split; [by do 2 apply mm_wf_lock|]. cbn. lia.
  - split; [by apply mm_wf_lock|]. cbn in Ht |- *. unfold weight.
    rewrite (proj2 (Z.leb_le _ _)) by lia. pose proof (PAGE_ALIGN_aligned (rq_len q)).
    unfold PAGE_SIZE in *. Z.to_euclidean_division_equations; lia.
Qed.

Lemma munmap_shrinks m start len r m' :
  mm_wf m -> is_u64 start -> is_u64 len ->
  __vm_munmap (vm (be e)) (munmap_fuel m) start len true m = Some (r, m') ->
  mm_wf m' /\ total_vm (ctr m') <= total_vm (ctr m).
Proof.
  intros Hwf Hs Hlen. unfold __vm_munmap. destruct (lock_killed _); [by intros [= _ <-]|].
  destruct (munmap_args start len) eqn:Hargs.
  - destruct (vmi_munmap_spec (vm (be e)) (munmap_fuel m) start len true (set_lock WriteLocked m))
      as (r1 & m1 & -> & Hres); [by apply mm_wf_lock|done|apply Hs|done|].
    intros [= _ <-]. assert (mm_wf m1 /\ total_vm (ctr m1) <= total_vm (ctr m)) as [Hw Ht].
    { destruct Hres as [[_ [Hw [Hct] _ _]]|[_ [Hw _ _ Hless _ _]]]; split; try done. rewrite Hct. done. }
    destruct (_ || _); split; try done. by apply mm_wf_lock.
  - rewrite munmap_bad_args by done. intros [= _ <-]. change (negb (- EINVAL =? 0)) with true. cbn [orb].
    split; [by repeat apply mm_wf_lock|]. cbn. lia.
Qed.

Notation n := (Z.of_nat (length threads)).

Record bounded (p : proc) : Prop := {
  bd_wf : mm_wf (p_mm p);
  bd_threads : NoDup (p_pending p).*1 /\ (p_pending p).*1 ⊆ threads;
  bd_pending : Forall (fun q => is_u64 (rq_len q.2) /\ weight q.2 <= limit + PAGE_SIZE) (p_pending p);
  bd_total : total_vm (ctr (p_mm p)) * PAGE_SIZE + weights (p_pending p) < n * (limit + PAGE_SIZE)
}.

(** Each thread has at most one request pending. *)
Lemma pending_threads (pend : list (Z * request)) tid :
  NoDup pend.*1 -> pend.*1 ⊆ threads -> tid ∈ threads -> tid ∉ pend.*1 -> Z.of_nat (length pend) + 1 <= n.
Proof.
  intros Hnd Hsub Hin Hnin. assert (tid :: pend.*1 ⊆+ threads) as Hs.
  { apply NoDup_submseteq; [by constructor|]. intros x [->|Hx]%elem_of_cons; [done|by apply Hsub]. }
  apply submseteq_length in Hs. cbn in Hs. rewrite length_fmap in Hs. lia.
Qed.

Lemma step_bounded p p' : bounded p -> step threads p p' -> bounded p'.
Proof.
  intros [Hwf [Hnd Hsub] Hp Ht] Hs. destruct Hs as [m pend tid a q Hin Hnin Hlen Hq|m l tid q k r m' Hq|m pend start len r m' Hst Hlen Hu];
    cbn [p_mm p_pending] in *.
  - destruct (admitted_weight tid a m q Hin Hwf Hlen Hq) as (Hl & Hw & Hfit).
    pose proof (pending_threads pend tid Hnd Hsub Hin Hnin) as Hn.
    constructor; cbn [p_mm p_pending]; [done| |by apply Forall_app_2; [|constructor]|].
    + rewrite fmap_app. cbn. split; [apply NoDup_app; split_and!; [done| |apply NoDup_singleton]|].
      * by intros x Hx ->%list_elem_of_singleton.
      * intros x [Hx| ->%list_elem_of_singleton]%elem_of_app; [by apply Hsub|done].
    + rewrite weights_app. cbn. assert (weights pend <= Z.of_nat (length pend) * (limit + PAGE_SIZE)).
      { apply weights_bound. eapply Forall_impl; [done|]. by intros x [_ ?]. }
      unfold PAGE_SIZE in *. nia.
  - apply Forall_app in Hp as [Hpl [Hpq Hpk]%Forall_cons].
    destruct (commit_weight q m Hwf) as (r' & m'' & Hq' & Hw' & Ht'); [apply Hpq|].
    rewrite Hq in Hq'. injection Hq' as <- <-.
    rewrite weights_app in Ht. cbn in Ht. fold (weights k) in Ht. rewrite fmap_app in Hnd, Hsub. cbn in Hnd, Hsub.
    constructor; cbn [p_mm p_pending]; [done| |by apply Forall_app|rewrite weights_app; lia].
    rewrite fmap_app. split; [|set_solver]. apply NoDup_app in Hnd as (H1 & H2 & [_ H3]%NoDup_cons).
    apply NoDup_app. split_and!; [done| |done]. intros x Hx Hx'. apply (H2 x Hx). by right.
  - destruct (munmap_shrinks m start len r m') as [Hw Hle]; try done.
    constructor; cbn [p_mm p_pending]; try done. unfold PAGE_SIZE in *. lia.
Qed.

Lemma reach_bounded p p' : bounded p -> rtc (step threads) p p' -> bounded p'.
Proof. intros Hb. induction 1; eauto using step_bounded. Qed.

End invariant.
End race.

Section claims.
Context {T : Type} `{VmaTree T} {G : Type} `{MemGate G}.

(** C10.  The hook asks for the id of the calling thread.  If every thread of a process has a
    limit, none above [limit], then however their mmap and munmap calls interleave, the
    process stays below as many times [limit] and a page as it has threads, its address
    space stays well formed and every accepted request can be carried out. *)
Theorem threads_stay_bounded (e : map_env) (g : G) (c : @mmap_calls T) limit threads m p :
  map_env_ok e -> vm_mmap_contract e c -> threads <> [] ->
  (forall tid, tid ∈ threads -> exists l, gate_limit g tid = Some l /\ l <= limit) ->
  mm_wf m -> total_vm (ctr m) * PAGE_SIZE <= limit ->
  rtc (step e g c threads) (Proc m []) p ->
  mm_wf (p_mm p) /\ total_vm (ctr (p_mm p)) * PAGE_SIZE < Z.of_nat (length threads) * (limit + PAGE_SIZE) /\
  Forall (fun q => is_Some (mmap_commit c q.2 (p_mm p))) (p_pending p).
Proof.
  intros Hok Hc Hn Hlim Hwf Hin Hreach.
  assert (Hpos : 0 <= limit).
  { pose proof (pages_range _ (wf_areas m Hwf)) as Hp. rewrite <- (wf_total m Hwf) in Hp.
    unfold PAGE_SIZE in *. lia. }
  eapply (reach_bounded e g c Hok Hc limit threads Hlim Hpos) in Hreach as [Hw _ Hp Ht]; cycle 1.
  { constructor; cbn [p_mm p_pending]; [done|split; [constructor|set_solver]|constructor|]. cbn.
    destruct threads; [done|]. cbn [length]. unfold PAGE_SIZE in *. nia. }
  split_and!; [done| |].
  - assert (0 <= weights (p_pending p)); [|lia].
    clear. induction (p_pending p) as [|q l IH]; cbn; [done|]. fold (weights l). pose proof (weight_nonneg q.2). lia.
  - eapply Forall_impl; [done|]. intros q [Hl _]. cbn.
    destruct (commit_weight e c Hok Hc q.2 (p_mm p) Hw Hl) as (r & m' & -> & _). eauto.
Qed.

End claims.

#[local] Existing Instance LimitSpec.limiter_gate.

(** *** A process with the threads 7 and 8 *)

Definition listed78 : MemLimit.lim_state :=
  MemLimit.LimState [ {| MemLimit.data := {| MemLimit.lim_pid := 7; MemLimit.lim_memory_limit := 50000 |} |};
             {| MemLimit.data := {| MemLimit.lim_pid := 8; MemLimit.lim_memory_limit := 50000 |} |} ] false 2.

Lemma listed78_wf : LimitSpec.lim_wf listed78.
Proof.
  split; [done| |repeat constructor; simpl; unfold is_u64; lia|done].
  apply NoDup_cons; split; [set_solver|]. apply NoDup_singleton.
Qed.

Definition limited78 : LimitSpec.limiter := LimitSpec.Limiter listed78 listed78_wf (fun _ => LimitSpec.Self).

Definition request_of (addr len : Z) : request :=
  {| rq_file := None; rq_addr := addr; rq_len := len; rq_prot := 3; rq_flags := 0x22; rq_pgoff := 0 |}.

Definition after (o : option (Z * mm_struct (list vma))) : mm_struct (list vma) :=
  match o with Some (_, m) => m | None => heap_mm 102400 end.

Definition raced : mm_struct (list vma) :=
  after (mmap_commit calls0 (request_of 303104 12288)
    (after (mmap_commit calls0 (request_of 200704 12288) (heap_mm 102400)))).

Lemma raced_reachable :
  rtc (step map_env0 limited78 calls0 [7; 8]) (Proc (heap_mm 102400) []) (Proc raced []).
Proof.
  eapply rtc_l; [apply (step_admit _ _ _ _ _ _ 7 (anon_request 200704 12288)); [set_solver|set_solver|done|reflexivity]|].
  eapply rtc_l; [apply (step_admit _ _ _ _ _ _ 8 (anon_request 303104 12288)); [set_solver|set_solver|done|reflexivity]|].
  eapply rtc_l; [eapply (step_commit _ _ _ _ _ [] _ _ [_]); vm_compute; reflexivity|].
  eapply rtc_l; [eapply (step_commit _ _ _ _ _ [] _ _ []); vm_compute; reflexivity|].
  apply rtc_refl.
Qed.

Lemma heap_within : total_vm (ctr (heap_mm 102400)) * PAGE_SIZE <= 50000.
Proof. by vm_compute. Qed.

(** The limit does not hold for a process with two threads, both of them listed: both requests
    pass the hook before either is carried out, and the process ends more than a page above
    its limit of 50000 bytes. *)
Theorem two_threads_exceed_limit :
  exists p, rtc (step map_env0 limited78 calls0 [7; 8]) (Proc (heap_mm 102400) []) p /\
    gate_limit limited78 7 = Some 50000 /\ total_vm (ctr (heap_mm 102400)) * PAGE_SIZE <= 50000 /\
    50000 + PAGE_SIZE < total_vm (ctr (p_mm p)) * PAGE_SIZE.
Proof.
  exists (Proc raced []). split_and!; [exact raced_reachable|done|exact heap_within|by vm_compute].
Qed.

(** A limit on the id of a process does not hold its other threads: thread 8 of a process whose
    leader 7 is limited to 50000 bytes maps a megabyte, one call after the other. *)
Definition escaped : mm_struct (list vma) := after (mmap_commit calls0 (request_of 200704 1048576) (heap_mm 102400)).

Theorem unlisted_thread_escapes :
  exists p, rtc (step map_env0 limited calls0 [7; 8]) (Proc (heap_mm 102400) []) p /\
    gate_limit limited 7 = Some 50000 /\ gate_limit limited 8 = None /\ 1048576 < total_vm (ctr (p_mm p)) * PAGE_SIZE.
Proof.
  exists (Proc escaped []). split_and!; [|done|done|by vm_compute].
  eapply rtc_l; [apply (step_admit _ _ _ _ _ _ 8 (anon_request 200704 1048576)); [set_solver|set_solver|done|reflexivity]|].
  eapply rtc_l; [eapply (step_commit _ _ _ _ _ [] _ _ []); vm_compute; reflexivity|].
  apply rtc_refl.
Qed.

Lemma threads_stay_bounded_witness :
  let p := Proc raced [] in
  mm_wf (p_mm p) /\ total_vm (ctr (p_mm p)) * PAGE_SIZE < Z.of_nat 2 * (50000 + PAGE_SIZE) /\
  Forall (fun q => is_Some (mmap_commit calls0 q.2 (p_mm p))) (p_pending p).
Proof.
  apply (threads_stay_bounded map_env0 limited78 calls0 50000 [7; 8] (heap_mm 102400) (Proc raced [])
    map_env0_ok calls0_ok); [done| |exact heap_mm_ok|exact heap_within|exact raced_reachable].
  intros tid [-> |[-> |Hn]%elem_of_cons]%elem_of_cons; [exists 50000; done|exists 50000; done|by apply elem_of_nil in Hn].
Defined.

End Race.
