(* ===== verification/Stack.v ===== *)
(** * Growing the stack ([mm/mmap.c])

    [acct_stack_growth], [expand_downwards], [find_extend_vma_locked] and [expand_stack],
    for an architecture whose stacks grow down, and what a page fault below a stack
    does to the address space.  This path does not ask the limiter. *)
From S2P Require Import Prelude Gate Vma Mm MmSpec Brk BrkSpec Mmap MmapSpec.

Module Stack.
Import Mm.

Definition VM_ACCESS_FLAGS : Z := Z.lor VM_READ (Z.lor VM_WRITE VM_EXEC).

Record stack_env := {
  svm : vm_env;
  min_addr : Z;                          (* mmap_min_addr *)
  FIRST_USER_ADDRESS : Z;
  guard_gap : Z;                         (* stack_guard_gap *)
  is_hugepage_only_range : Z -> Z -> bool;
  anon_vma_prepare : vma -> option Z     (* the anon_vma the area has then; None: no memory *)
}.

Section ops.
Context {T : Type} `{VmaTree T} (e : stack_env).
Implicit Types m : mm_struct T.

(** The result, and the address space with the charge of an accepted growth. *)
Definition acct_stack_growth (v : vma) (size grow : Z) m : Z * mm_struct T :=
  if negb (may_expand_vm (svm e) m (vm_flags v) grow) then (- ENOMEM, m)
  else if rlimit_stack (svm e) <? size then (- ENOMEM, m)
  else if negb (mlock_future_ok (svm e) m (vm_flags v) (grow <<u PAGE_SHIFT)) then (- ENOMEM, m)
  else if is_hugepage_only_range e (vm_end v -u size) size then (- EFAULT, m)
  else
    let '(granted, m) := vm_enough_memory (svm e) grow m in
    if negb granted then (- ENOMEM, m) else (0, m).

(** The result, the area as it is afterwards, and the address space. *)
Definition expand_downwards (v : vma) (address : Z) m : Z * vma * mm_struct T :=
  if negb (flag_set (vm_flags v) VM_GROWSDOWN) then (- EFAULT, v, m)
  else
    let address := Z.land address PAGE_MASK in
    if (address <? min_addr e) || (address <? FIRST_USER_ADDRESS e) then (- EPERM, v, m)
    else if match mas_prev (mm_mt m) (vm_start v) with
            | Some prev => negb (flag_set (vm_flags prev) VM_GROWSDOWN)
                           && flag_set (vm_flags prev) VM_ACCESS_FLAGS
                           && (address -u vm_end prev <? guard_gap e)
            | None => false
            end
    then (- ENOMEM, v, m)
    else if negb (iter_prealloc_ok (svm e) v) then (- ENOMEM, v, m)
    else
      match anon_vma_prepare e v with
      | None => (- ENOMEM, v, m)
      | Some a =>
          let v := set_anon_vma (Some a) v in
          let m := set_areas (vma_write (vm_id v) (set_anon_vma (Some a)) (mm_mt m))
                             (map_count m) (next_id m) m in
          if address <? vm_start v then
            let size := vm_end v -u address in
            let grow := (vm_start v -u address) >>u PAGE_SHIFT in
            if grow <=? vm_pgoff v then
              let '(error, m) := acct_stack_growth v size grow m in
              if negb (error =? 0) then (error, v, m)
              else
                let c := if flag_set (vm_flags v) VM_LOCKED then add_locked grow (ctr m) else ctr m in
                let c := vm_stat_account (svm e) (vm_flags v) grow c in
                let v' := set_range address (vm_end v) (vm_pgoff v -u grow) v in
                let t := mt_store v' (vma_write (vm_id v) (fun _ => v') (mm_mt m)) in
                (0, v', set_ctr c (set_areas t (map_count m) (next_id m) m))
            else (- ENOMEM, v, m)
          else (0, v, m)
      end.

Definition expand_stack_locked := expand_downwards.

(** The area that now holds the address, if there is one. *)
Definition find_extend_vma_locked (addr : Z) m : option vma * mm_struct T :=
  let addr := Z.land addr PAGE_MASK in
  match find_vma m addr with
  | None => (None, m)
  | Some v =>
      if vm_start v <=? addr then (Some v, m)
      else
        let '(err, v, m) := expand_stack_locked v addr m in
        if negb (err =? 0) then (None, m) else (Some v, m)
  end.

(** [expand_stack]: called with the lock held for reading, which it keeps only when it
    finds or makes an area.  No area grows up on this architecture, so the test of the
    area below always fails. *)
Definition expand_stack (addr : Z) m : option vma * mm_struct T :=
  let m := set_lock Unlocked m in
  if lock_killed (svm e) then (None, m)
  else
    let m := set_lock WriteLocked m in
    match fst (find_vma_prev m addr) with
    | Some v =>
        if vm_start v <=? addr then (Some v, set_lock ReadLocked m)
        else
          let '(err, v, m) := expand_downwards v addr m in
          if err =? 0 then (Some v, set_lock ReadLocked m) else (None, set_lock Unlocked m)
    | None => (None, set_lock Unlocked m)
    end.

End ops.

Import MmSpec BrkSpec MmapSpec.

(** ** Properties *)

(** Rewriting the anonymous-memory anchor of an area moves nothing. *)
Lemma write_anon_areas (l : list vma) i a :
  areas_ok l ->
  let l' := write_area i (set_anon_vma a) l in
  areas_ok l' /\ vm_id <$> l' = vm_id <$> l /\ pages l' = pages l /\ same_pages l l' /\
  accounted l' = accounted l /\ length l' = length l.
Proof.
  intros Hok. cbv zeta. unfold write_area. split_and!.
  - induction l as [|v l IH]; [done|]. apply areas_ok_cons in Hok as (Hv & Hl & Hb). cbn.
    apply areas_ok_cons. split_and!; [|by apply IH|].
    + destruct (vm_id v =? i); [|done]. by destruct Hv.
    + intros y (x & -> & Hx)%list_elem_of_fmap. specialize (Hb x Hx). unfold before in *.
      by destruct (vm_id v =? i), (vm_id x =? i).
  - rewrite <- list_fmap_compose. apply list_fmap_ext. intros ? x _. cbn. by destruct (vm_id x =? i).
  - clear Hok. induction l as [|v l IH]; [done|]. cbn. fold (pages l). rewrite <- IH.
    by destruct (vm_id v =? i).
  - clear Hok. intros x. induction l as [|v l IH]; [done|]. cbn. rewrite !view_cons, IH.
    unfold covers, page_of. by destruct (vm_id v =? i).
  - clear Hok. induction l as [|v l IH]; [done|]. cbn. fold (accounted l). rewrite <- IH.
    by destruct (vm_id v =? i).
  - apply length_fmap.
Qed.

Section spec.
Context {T : Type} `{VmaTree T} (e : stack_env).
Implicit Types m : mm_struct T.
Notation areas m := (vmas (mm_mt m)).

Definition anchor (v : vma) (a : Z) m : mm_struct T :=
  set_areas (vma_write (vm_id v) (set_anon_vma (Some a)) (mm_mt m)) (map_count m) (next_id m) m.

Lemma anchor_resplit v a m : mm_wf m -> resplit m (anchor v a m).
Proof.
  intros [Hok Hnd Hfr Hcnt Htot].
  destruct (write_anon_areas (areas m) (vm_id v) (Some a) Hok) as (Hok' & Hid & Hpg & Hsame & Hacc & Hlen).
  constructor; [constructor|done|..]; cbn; rewrite ?vma_write_spec; try congruence; try done.
  rewrite <- (Forall_fmap vm_id (fun i => i < next_id m)) in Hfr |- *. by rewrite Hid.
Qed.

Lemma anchor_areas v a m l k :
  mm_wf m -> areas m = l ++ v :: k -> areas (anchor v a m) = l ++ set_anon_vma (Some a) v :: k.
Proof.
  intros Hwf Hm. cbn. rewrite vma_write_spec, Hm. apply write_one. rewrite <- Hm. apply Hwf.
Qed.

Definition page_start (addr : Z) : Z := Z.land addr PAGE_MASK.

Lemma page_start_bounds addr :
  is_u64 addr -> 0 <= page_start addr <= addr /\ addr < page_start addr + PAGE_SIZE /\
  page_start addr mod PAGE_SIZE = 0.
Proof.
  intros Ha. unfold page_start. rewrite PAGE_MASK_land by done. unfold is_u64, PAGE_SIZE in *.
  Z.to_euclidean_division_equations; lia.
Qed.

(** The stack [v] has become [v'], which starts at the page [lo]. *)
Record grown_down (lo : Z) (v v' : vma) m m' : Prop := {
  gd_wf : mm_wf m';
  gd_stack : flag_set (vm_flags v) VM_GROWSDOWN = true;
  gd_shape : vm_start v' = lo /\ vm_end v' = vm_end v /\ vm_flags v' = vm_flags v /\ vm_file v' = vm_file v;
  gd_in : v' ∈ areas m';
  gd_view a : view (areas m') a =
    if decide (lo <= a < vm_start v) then Some (page_of v' a) else view (areas m) a;
  gd_total : total_vm (ctr m') = total_vm (ctr m) + (vm_start v - lo) / PAGE_SIZE;
  gd_committed : committed m' = committed m + (vm_start v - lo) / PAGE_SIZE;
  gd_limit : vm_end v - lo <= rlimit_stack (svm e);
  gd_guard x : last_area (vm_start v) (areas m) = Some x ->
    flag_set (vm_flags x) VM_GROWSDOWN = false -> flag_set (vm_flags x) VM_ACCESS_FLAGS = true ->
    vm_end x + guard_gap e <= lo;
  gd_lock : mmap_lock m' = mmap_lock m
}.

(** A growth is refused without a trace, or charged. *)
Lemma acct_cases v size grow m err m' :
  acct_stack_growth e v size grow m = (err, m') ->
  (err <> 0 /\ m' = m) \/
  (err = 0 /\ m' = set_committed (committed m + grow) m /\ size <= rlimit_stack (svm e)).
Proof.
  unfold acct_stack_growth, vm_enough_memory.
  destruct (negb _); [intros [= <- <-]; by left|].
  destruct (Z.ltb_spec (rlimit_stack (svm e)) size); [intros [= <- <-]; by left|].
  destruct (negb _); [intros [= <- <-]; by left|].
  destruct (is_hugepage_only_range _ _ _); [intros [= <- <-]; by left|].
  destruct (enough_memory _ _); intros [= <- <-]; [by right|by left].
Qed.

(** The area below a free page, as the tree finds it. *)
Lemma prev_of_first m l v k addr :
  mm_wf m -> areas m = l ++ v :: k -> Forall (fun x => vm_end x <= addr) l -> addr < vm_start v ->
  forall x, last_area (vm_start v) (areas m) = Some x -> vm_end x <= addr /\ vma_ok x.
Proof.
  intros Hwf Hm Hl Hlt x Hx. unfold last_area in Hx. apply last_Some_elem_of, list_elem_of_filter in Hx as [Hx Hin].
  pose proof (wf_areas m Hwf) as Hok. split; [|by destruct Hok as [_ Hok]; rewrite Forall_forall in Hok; apply Hok].
  rewrite Hm in Hok, Hin. apply areas_ok_app in Hok as (_ & (Hv & [_ Hk] & Hb)%areas_ok_cons & _).
  rewrite Forall_forall in Hl, Hk.
  apply elem_of_app in Hin as [Hin|[-> |Hin]%elem_of_cons]; [by apply Hl|destruct Hv; lia|].
  destruct (Hk x Hin). specialize (Hb x Hin). unfold before in Hb. destruct Hv. lia.
Qed.

(** The new extent of the stack stored in the tree. *)
Lemma grow_placed m l v k lo v' :
  mm_wf m -> areas m = l ++ v :: k -> Forall (fun x => vm_end x <= lo) l ->
  0 <= lo < vm_start v -> lo mod PAGE_SIZE = 0 ->
  v' = set_range lo (vm_end v) (vm_pgoff v -u ((vm_start v - lo) / PAGE_SIZE)) v ->
  placed lo (vm_start v - lo) (vm_flags v) (vm_file v) (vm_pgoff v -u ((vm_start v - lo) / PAGE_SIZE)) v' m
    (set_areas (mt_store v' (vma_write (vm_id v) (fun _ => v') (mm_mt m))) (map_count m) (next_id m) m).
Proof.
  intros Hwf Hm Hl Hlo Hal ->. pose proof (wf_areas m Hwf) as Hok. rewrite Hm in Hok.
  apply areas_ok_app in Hok as (_ & (Hv & _ & Hb)%areas_ok_cons & _). destruct Hv.
  rewrite <- (Z.sub_0_r (map_count m)). apply place_before with (l := l) (k := k); cbn; try done; try lia.
  - constructor; try done; try lia.
    + constructor; [lia|]. apply Forall_forall. intros y Hy. specialize (Hb y Hy). unfold before in Hb. lia.
    + split; [lia|]. unfold PAGE_SIZE in *. Z.to_euclidean_division_equations; lia.
  - constructor; [done|done|]. rewrite u64_sub_l. f_equal.
    unfold PAGE_SIZE in *. Z.to_euclidean_division_equations; lia.
Qed.

(** The pages placed in the charged address space, once accounted for. *)
Lemma account_grown m m1 m3 v v' lo pg c :
  mm_wf m -> resplit m m1 -> 0 <= lo < vm_start v -> lo mod PAGE_SIZE = 0 -> vma_ok v ->
  let grow := (vm_start v - lo) / PAGE_SIZE in
  placed lo (vm_start v - lo) (vm_flags v) (vm_file v) pg v' (set_committed (committed m1 + grow) m1) m3 ->
  v' = set_range lo (vm_end v) pg (set_anon_vma (anon_vma v') v) ->
  total_vm c = total_vm (ctr m1) +u grow ->
  flag_set (vm_flags v) VM_GROWSDOWN = true -> vm_end v - lo <= rlimit_stack (svm e) ->
  (forall x, last_area (vm_start v) (areas m) = Some x ->
    flag_set (vm_flags x) VM_GROWSDOWN = false -> flag_set (vm_flags x) VM_ACCESS_FLAGS = true ->
    vm_end x + guard_gap e <= lo) ->
  grown_down lo v v' m (set_ctr c m3).
Proof.
  intros Hwf [Hwf1 Hfr Hsame _] Hlo Hal Hv grow [Hok Hnd Hfresh Hcnt Hpg Hview Hin [Hc3 _ _ _ _ _ _ Hlk3 Hcm3]]
    Hv' Htot Hgd Hlim Hguard.
  assert (Htot' : total_vm c = total_vm (ctr m) + grow).
  { rewrite Htot, (fr_ctr _ _ Hfr). subst grow. rewrite <- shift_page at 1.
    apply total_after; [done|]. destruct Hv. lia. }
  assert (Hpages : pages (areas m1) = pages (areas m)).
  { rewrite <- (wf_total m Hwf), <- (wf_total m1 Hwf1). by rewrite (fr_ctr _ _ Hfr). }
  constructor; try done.
  - constructor; cbn; try done. cbn in Hpg. rewrite Hpg, Hpages, Htot', (wf_total m Hwf). done.
  - rewrite Hv'. done.
  - intros a. cbn in Hview |- *. rewrite Hview, <- Hsame.
    replace (lo + (vm_start v - lo)) with (vm_start v) by lia.
    destruct (decide _); [|done]. f_equal. rewrite Hv'. done.
  - cbn in Hcm3 |- *. rewrite Hcm3, (fr_committed _ _ Hfr). done.
  - cbn in Hlk3 |- *. rewrite Hlk3. apply Hfr.
Qed.

Lemma aligned_below_page x address :
  is_u64 address -> x mod PAGE_SIZE = 0 -> x <= address -> x <= page_start address.
Proof.
  intros Ha Hx Hle. destruct (page_start_bounds address Ha) as (_ & Hb & Hal).
  revert Hb Hal. generalize (page_start address). intros p Hb Hal.
  unfold PAGE_SIZE in *. Z.to_euclidean_division_equations; lia.
Qed.

Lemma expand_shape_spec v address m l k err v' m' :
  mm_wf m -> is_u64 address -> areas m = l ++ v :: k -> Forall (fun x => vm_end x <= address) l ->
  address < vm_start v -> expand_downwards e v address m = (err, v', m') ->
  (err <> 0 /\ resplit m m') \/ (err = 0 /\ grown_down (page_start address) v v' m m').
Proof.
  intros Hwf Ha Hm Hl Hlt. unfold expand_downwards. fold (page_start address).
  destruct (page_start_bounds address Ha) as ([Hlo0 Hlo1] & Hlo2 & Hal). set (lo := page_start address) in *.
  pose proof (wf_areas m Hwf) as Hok. rewrite Hm in Hok.
  apply areas_ok_app in Hok as ([_ Hlok] & (Hv & _ & _)%areas_ok_cons & _).
  pose proof (resplit_refl m Hwf) as Hrefl.
  destruct (flag_set (vm_flags v) VM_GROWSDOWN) eqn:Hgd; cbn [negb]; [|intros [= <- <- <-]; by left].
  destruct (_ || _); [intros [= <- <- <-]; by left|].
  rewrite mas_prev_spec. destruct (match last_area _ _ with Some _ => _ | None => _ end) eqn:Hprev;
    [intros [= <- <- <-]; by left|].
  destruct (negb (iter_prealloc_ok _ _)); [intros [= <- <- <-]; by left|].
  destruct (anon_vma_prepare e v) as [a|]; [|intros [= <- <- <-]; by left].
  cbv zeta. fold (anchor v a m).
  change (vm_id (set_anon_vma (Some a) v)) with (vm_id v). fold (anchor v a m).
  set (v1 := set_anon_vma (Some a) v) in *. set (m1 := anchor v a m) in *.
  pose proof (anchor_resplit v a m Hwf) as Hrs. fold m1 in Hrs.
  change (vm_start v1) with (vm_start v). change (vm_end v1) with (vm_end v).
  change (vm_flags v1) with (vm_flags v). change (vm_pgoff v1) with (vm_pgoff v).
  rewrite (proj2 (Z.ltb_lt lo (vm_start v))) by lia.
  assert (vm_end v -u lo = vm_end v - lo /\ vm_start v -u lo = vm_start v - lo) as [-> ->].
  { destruct Hv. unfold TASK_SIZE, PAGE_SIZE in *. split; apply u64_small; lia. }
  rewrite shift_page. set (grow := (vm_start v - lo) / PAGE_SIZE).
  destruct (grow <=? vm_pgoff v); [|intros [= <- <- <-]; by left].
  destruct (acct_stack_growth _ _ _ _ _) as [err0 m2] eqn:Hacct.
  apply acct_cases in Hacct as [[Hne ->]|(-> & -> & Hlimit)].
  { rewrite (proj2 (Z.eqb_neq err0 0)) by done. intros [= <- <- <-]. by left. }
  change (negb (0 =? 0)) with false. cbv iota. intros [= <- <- <-]. right. split; [done|].
  eapply (account_grown m m1 _ v); try done; [lia|..].
  - apply (grow_placed (set_committed (committed m1 + grow) m1) l v1 k lo); try done; [|cbn| |cbn; lia].
    + by apply wf_committed, Hrs.
    + by apply anchor_areas.
    + apply Forall_forall. intros x Hx. rewrite Forall_forall in Hl, Hlok. specialize (Hl x Hx).
      destruct (Hlok x Hx). by apply aligned_below_page.
  - cbn. rewrite account_total. by destruct (flag_set (vm_flags v) VM_LOCKED).
  - intros x Hx Hng Hacc. rewrite Hx, Hng, Hacc in Hprev. cbn [negb andb] in Hprev.
    destruct (prev_of_first m l v k address Hwf Hm Hl Hlt x Hx) as [Hend Hxal].
    pose proof (aligned_below_page (vm_end x) address Ha (ok_end x Hxal) Hend) as Hle. fold lo in Hle.
    destruct Hxal, Hv. rewrite u64_small in Hprev by (unfold TASK_SIZE, PAGE_SIZE in *; lia). lia.
Qed.

(** C11.  A page fault at any address returns from [expand_stack] with the read lock held
    and the area that holds the address, or with no lock and no area.  In the first case
    nothing changed, or the stack above the address grew down to the page of the address:
    exactly those pages are new, with the stack's flags and file, they are counted and
    charged, the stack is within its resource limit, and an accessible ordinary area
    below keeps the guard gap.  In the second case the process sees the same pages,
    counters and charge. *)
Theorem expand_stack_correct addr m :
  mm_wf m -> is_u64 addr ->
  match expand_stack e addr m with
  | (Some v, m') => mmap_lock m' = ReadLocked /\ mm_wf m' /\ v ∈ areas m' /\ covers v addr /\
      (m' = set_lock ReadLocked m \/
       exists old m1, m' = set_lock ReadLocked m1 /\ first_area addr ULONG_MAX (areas m) = Some old /\
         grown_down (page_start addr) old v (set_lock WriteLocked m) m1)
  | (None, m') => mmap_lock m' = Unlocked /\ mm_wf m' /\ same_pages (areas m) (areas m') /\
      ctr m' = ctr m /\ committed m' = committed m
  end.
Proof.
  intros Hwf Ha. unfold expand_stack. pose proof (mm_wf_lock WriteLocked m Hwf) as Hwf'.
  destruct (lock_killed _); [split_and!; try done; by apply mm_wf_lock|]. cbn [find_vma_prev fst].
  unfold find_vma_prev. cbn [fst mm_mt set_lock]. rewrite mt_find_spec.
  pose proof (find_first addr ULONG_MAX (areas m) (wf_areas m Hwf)) as Hff.
  destruct (first_area addr ULONG_MAX (areas m)) as [v|] eqn:Hf; [|split_and!; try done; by apply mm_wf_lock].
  destruct Hff as (l & k & Hm & Hl & Hend & _).
  destruct (Z.leb_spec (vm_start v) addr) as [Hin|Hout].
  { split_and!; try done; [by apply mm_wf_lock|cbn; rewrite Hm; set_solver|by left]. }
  destruct (expand_downwards _ _ _ _) as [[err v'] m'] eqn:Hexp.
  apply (expand_shape_spec _ _ _ l k) in Hexp; try done.
  destruct Hexp as [[Hne [Hw [] Hp _]]|[-> Hg]].
  - rewrite (proj2 (Z.eqb_neq err 0)) by done. split_and!; try done. by apply mm_wf_lock.
  - change (0 =? 0) with true. cbv iota. pose proof Hg as [Hw _ (Hs & He & _) Hvin _ _ _ _ _ _].
    split_and!; try done; [by apply mm_wf_lock| |right; eauto].
    destruct (page_start_bounds addr Ha). unfold covers. rewrite Hs, He. lia.
Qed.

End spec.

(** *** A stack of two pages with a heap far below *)

Definition stack_env0 : stack_env := {|
  svm := MmSpec.env0; min_addr := 65536; FIRST_USER_ADDRESS := 0; guard_gap := 1048576;
  is_hugepage_only_range := fun _ _ => false;
  anon_vma_prepare := fun v => match anon_vma v with Some a => Some a | None => Some 9 end |}.

Definition faulting_mm : mm_struct (list vma) :=
  MmStruct [anon_area 1 65536 102400 0x100073; anon_area 2 4194304 4202496 0x100173] 2
    (Counters 11 0 9 0 2) 102400 65536 0 0 0 4194304 ReadLocked 11 3.

Lemma faulting_mm_wf : mm_wf faulting_mm.
Proof.
  constructor; cbn; try done.
  - split; repeat constructor; by compute.
  - repeat (constructor; [set_solver|]). constructor.
  - repeat constructor.
Qed.

(** A fault a page below the stack adds a page; one inside the guard gap of the heap is
    refused. *)
Example fault_below_stack :
  total_vm (ctr (snd (expand_stack stack_env0 4190300 faulting_mm))) = 12 /\
  fst (expand_stack stack_env0 131072 faulting_mm) = None.
Proof. by vm_compute. Qed.

Lemma expand_stack_correct_witness :
  match expand_stack stack_env0 4190300 faulting_mm with
  | (Some v, m') => mmap_lock m' = ReadLocked /\ mm_wf m' /\ v ∈ vmas (mm_mt m') /\ covers v 4190300 /\
      (m' = set_lock ReadLocked faulting_mm \/
       exists old m1, m' = set_lock ReadLocked m1 /\
         first_area 4190300 ULONG_MAX (vmas (mm_mt faulting_mm)) = Some old /\
         grown_down stack_env0 (page_start 4190300) old v (set_lock WriteLocked faulting_mm) m1)
  | (None, m') => mmap_lock m' = Unlocked /\ mm_wf m' /\
      same_pages (vmas (mm_mt faulting_mm)) (vmas (mm_mt m')) /\
      ctr m' = ctr faulting_mm /\ committed m' = committed faulting_mm
  end.
Proof. exact (expand_stack_correct stack_env0 4190300 faulting_mm faulting_mm_wf (u64_is_u64 4190300)). Defined.

End Stack.
