(* ===== verification/Cred.v ===== *)
(** * User and group identities ([kernel/sys.c])

    The set*id family.  Each call prepares a copy of the caller's credentials, edits it
    after permission checks, and either commits it or aborts it.  Identity mappings,
    capabilities, the security hooks, the user table and the process-count limit are
    kernel code outside the repository: fields of [cred_env]. *)
From S2P Require Import Prelude.

Module Cred.

(** [struct cred]: the kernel ids, the [user_struct] and [ucounts] it refers to, and its
    capability sets, which only the security hooks write here. *)
Record cred := Cred {
  uid : Z; gid : Z; suid : Z; sgid : Z; euid : Z; egid : Z; fsuid : Z; fsgid : Z;
  user : Z; ucounts : Z; caps : Z
}.

Definition set_uid v c := Cred v (gid c) (suid c) (sgid c) (euid c) (egid c) (fsuid c) (fsgid c) (user c) (ucounts c) (caps c).
Definition set_gid v c := Cred (uid c) v (suid c) (sgid c) (euid c) (egid c) (fsuid c) (fsgid c) (user c) (ucounts c) (caps c).
Definition set_suid v c := Cred (uid c) (gid c) v (sgid c) (euid c) (egid c) (fsuid c) (fsgid c) (user c) (ucounts c) (caps c).
Definition set_sgid v c := Cred (uid c) (gid c) (suid c) v (euid c) (egid c) (fsuid c) (fsgid c) (user c) (ucounts c) (caps c).
Definition set_euid v c := Cred (uid c) (gid c) (suid c) (sgid c) v (egid c) (fsuid c) (fsgid c) (user c) (ucounts c) (caps c).
Definition set_egid v c := Cred (uid c) (gid c) (suid c) (sgid c) (euid c) v (fsuid c) (fsgid c) (user c) (ucounts c) (caps c).
Definition set_fsuid v c := Cred (uid c) (gid c) (suid c) (sgid c) (euid c) (egid c) v (fsgid c) (user c) (ucounts c) (caps c).
Definition set_fsgid v c := Cred (uid c) (gid c) (suid c) (sgid c) (euid c) (egid c) (fsuid c) v (user c) (ucounts c) (caps c).
Definition with_user v c := Cred (uid c) (gid c) (suid c) (sgid c) (euid c) (egid c) (fsuid c) (fsgid c) v (ucounts c) (caps c).
Definition with_ucounts v c := Cred (uid c) (gid c) (suid c) (sgid c) (euid c) (egid c) (fsuid c) (fsgid c) (user c) v (caps c).
Definition with_caps v c := Cred (uid c) (gid c) (suid c) (sgid c) (euid c) (egid c) (fsuid c) (fsgid c) (user c) (ucounts c) v.

(** [(uid_t) -1], "leave unchanged" in an argument and the invalid kernel id. *)
Definition NOID : Z := 2 ^ 32 - 1.
Definition id_valid (k : Z) : bool := negb (k =? NOID).

Definition CAP_SETGID : Z := 6.
Definition CAP_SETUID : Z := 7.
Definition LSM_SETID_ID : Z := 1.
Definition LSM_SETID_RE : Z := 2.
Definition LSM_SETID_RES : Z := 4.
Definition LSM_SETID_FS : Z := 8.
Definition PF_NPROC_EXCEEDED : Z := 4096.
Definition INIT_USER : Z := 0.

Record cred_env := {
  make_kuid : Z -> Z;                      (* in the caller's user namespace *)
  make_kgid : Z -> Z;
  from_kuid_munged : Z -> Z;
  from_kgid_munged : Z -> Z;
  prepare_ok : bool;                       (* prepare_creds has memory *)
  ns_capable_setid : cred -> Z -> bool;
  alloc_uid : Z -> option Z;
  security_task_fix_setuid : cred -> cred -> Z -> Z * Z;   (* result, new capability sets *)
  security_task_fix_setgid : cred -> cred -> Z -> Z * Z;
  set_cred_ucounts : cred -> Z * Z;        (* result, the ucounts found *)
  is_rlimit_overlimit : Z -> bool;
  ua : uaccess
}.

(** The task as these calls see it: [flags] is its process-limit flag (the note that a
    privilege was used, which [ns_capable_setid] keeps there, is left out); [prepared] counts the credential copies that were
    prepared and neither committed nor aborted. *)
Record task := Task { current_cred : cred; flags : Z; prepared : Z }.

Section calls.
Context (e : cred_env).

Definition commit_creds (new : cred) (fl : Z) (t : task) : Z * task :=
  (0, Task new fl (prepared t - 1)).
Definition abort_creds (t : task) : task := Task (current_cred t) (flags t) (prepared t - 1).

(** The shape all calls share: prepare, edit, then commit or (label [error]) abort.
    [edit] yields the new credentials and task flags, or the error code. *)
Definition with_new_creds (t : task) (edit : cred -> Z + (cred * Z)) : Z * task :=
  if negb (prepare_ok e) then (- ENOMEM, t)
  else
    let t := Task (current_cred t) (flags t) (prepared t + 1) in
    match edit (current_cred t) with
    | inl retval => (retval, abort_creds t)
    | inr (new, fl) => commit_creds new fl t
    end.

Definition set_user (new : cred) : Z + cred :=
  match alloc_uid e (uid new) with
  | None => inl (- EAGAIN)
  | Some u => inr (with_user u new)
  end.

(** The new value of [current->flags]. *)
Definition flag_nproc_exceeded (t : task) (new : cred) : Z :=
  if ucounts new =? ucounts (current_cred t) then flags t
  else if is_rlimit_overlimit e (ucounts new) && negb (user new =? INIT_USER)
  then Z.lor (flags t) PF_NPROC_EXCEEDED
  else Z.ldiff (flags t) PF_NPROC_EXCEEDED.

(** A security hook: an error, or the credentials with the capability sets it set. *)
Definition fix_setuid (new old : cred) (lsm : Z) : Z + cred :=
  let '(r, c) := security_task_fix_setuid e new old lsm in
  if r <? 0 then inl r else inr (with_caps c new).
Definition fix_setgid (new old : cred) (lsm : Z) : Z + cred :=
  let '(r, c) := security_task_fix_setgid e new old lsm in
  if r <? 0 then inl r else inr (with_caps c new).

(** The tail of the three uid calls: hook, ucounts, process-limit flag. *)
Definition finish_setuid (t : task) (new : cred) (lsm : Z) : Z + (cred * Z) :=
  let! new := fix_setuid new (current_cred t) lsm in
  let '(r, uc) := set_cred_ucounts e new in
  if r <? 0 then inl r
  else let new := with_ucounts uc new in inr (new, flag_nproc_exceeded t new).

Definition finish_setgid (t : task) (new : cred) (lsm : Z) : Z + (cred * Z) :=
  let! new := fix_setgid new (current_cred t) lsm in inr (new, flags t).

Definition __sys_setregid (rgid egid' : Z) (t : task) : Z * task :=
  let krgid := make_kgid e rgid in
  let kegid := make_kgid e egid' in
  if negb (rgid =? NOID) && negb (id_valid krgid) then (- EINVAL, t)
  else if negb (egid' =? NOID) && negb (id_valid kegid) then (- EINVAL, t)
  else
    let old := current_cred t in
    with_new_creds t (fun new =>
      let! new :=
        (if rgid =? NOID then inr new
         else if (gid old =? krgid) || (egid old =? krgid) || ns_capable_setid e old CAP_SETGID
         then inr (set_gid krgid new) else inl (- EPERM)) in
      let! new :=
        (if egid' =? NOID then inr new
         else if (gid old =? kegid) || (egid old =? kegid) || (sgid old =? kegid)
                 || ns_capable_setid e old CAP_SETGID
         then inr (set_egid kegid new) else inl (- EPERM)) in
      let new := if negb (rgid =? NOID) || (negb (egid' =? NOID) && negb (kegid =? gid old))
                 then set_sgid (egid new) new else new in
      finish_setgid t (set_fsgid (egid new) new) LSM_SETID_RE).

Definition __sys_setgid (g : Z) (t : task) : Z * task :=
  let kgid := make_kgid e g in
  if negb (id_valid kgid) then (- EINVAL, t)
  else
    let old := current_cred t in
    with_new_creds t (fun new =>
      let! new :=
        (if ns_capable_setid e old CAP_SETGID
         then inr (set_gid kgid (set_egid kgid (set_sgid kgid (set_fsgid kgid new))))
         else if (kgid =? gid old) || (kgid =? sgid old)
         then inr (set_egid kgid (set_fsgid kgid new))
         else inl (- EPERM)) in
      finish_setgid t new LSM_SETID_ID).

Definition __sys_setreuid (ruid euid' : Z) (t : task) : Z * task :=
  let kruid := make_kuid e ruid in
  let keuid := make_kuid e euid' in
  if negb (ruid =? NOID) && negb (id_valid kruid) then (- EINVAL, t)
  else if negb (euid' =? NOID) && negb (id_valid keuid) then (- EINVAL, t)
  else
    let old := current_cred t in
    with_new_creds t (fun new =>
      let! new :=
        (if ruid =? NOID then inr new
         else
           let new := set_uid kruid new in
           if negb (uid old =? kruid) && negb (euid old =? kruid)
              && negb (ns_capable_setid e old CAP_SETUID)
           then inl (- EPERM) else inr new) in
      let! new :=
        (if euid' =? NOID then inr new
         else
           let new := set_euid keuid new in
           if negb (uid old =? keuid) && negb (euid old =? keuid) && negb (suid old =? keuid)
              && negb (ns_capable_setid e old CAP_SETUID)
           then inl (- EPERM) else inr new) in
      let! new := (if negb (uid new =? uid old) then set_user new else inr new) in
      let new := if negb (ruid =? NOID) || (negb (euid' =? NOID) && negb (keuid =? uid old))
                 then set_suid (euid new) new else new in
      finish_setuid t (set_fsuid (euid new) new) LSM_SETID_RE).

Definition __sys_setuid (u : Z) (t : task) : Z * task :=
  let kuid := make_kuid e u in
  if negb (id_valid kuid) then (- EINVAL, t)
  else
    let old := current_cred t in
    with_new_creds t (fun new =>
      let! new :=
        (if ns_capable_setid e old CAP_SETUID
         then
           let new := set_suid kuid (set_uid kuid new) in
           if negb (kuid =? uid old) then set_user new else inr new
         else if negb (kuid =? uid old) && negb (kuid =? suid new) then inl (- EPERM)
         else inr new) in
      finish_setuid t (set_fsuid kuid (set_euid kuid new)) LSM_SETID_ID).

(** An id that is neither "unchanged" nor one of the three current ids. *)
Definition fresh_id (v k a b c : Z) : bool :=
  negb (v =? NOID) && negb (k =? a) && negb (k =? b) && negb (k =? c).

Definition __sys_setresuid (ruid euid' suid' : Z) (t : task) : Z * task :=
  let kruid := make_kuid e ruid in
  let keuid := make_kuid e euid' in
  let ksuid := make_kuid e suid' in
  if negb (ruid =? NOID) && negb (id_valid kruid) then (- EINVAL, t)
  else if negb (euid' =? NOID) && negb (id_valid keuid) then (- EINVAL, t)
  else if negb (suid' =? NOID) && negb (id_valid ksuid) then (- EINVAL, t)
  else
    let old := current_cred t in
    if ((ruid =? NOID) || (kruid =? uid old))
       && ((euid' =? NOID) || ((keuid =? euid old) && (keuid =? fsuid old)))
       && ((suid' =? NOID) || (ksuid =? suid old))
    then (0, t)
    else
      let ruid_new := fresh_id ruid kruid (uid old) (euid old) (suid old) in
      let euid_new := fresh_id euid' keuid (uid old) (euid old) (suid old) in
      let suid_new := fresh_id suid' ksuid (uid old) (euid old) (suid old) in
      if (ruid_new || euid_new || suid_new) && negb (ns_capable_setid e old CAP_SETUID)
      then (- EPERM, t)
      else
        with_new_creds t (fun new =>
          let! new :=
            (if ruid =? NOID then inr new
             else
               let new := set_uid kruid new in
               if negb (kruid =? uid old) then set_user new else inr new) in
          let new := if euid' =? NOID then new else set_euid keuid new in
          let new := if suid' =? NOID then new else set_suid ksuid new in
          finish_setuid t (set_fsuid (euid new) new) LSM_SETID_RES).

Definition __sys_setresgid (rgid egid' sgid' : Z) (t : task) : Z * task :=
  let krgid := make_kgid e rgid in
  let kegid := make_kgid e egid' in
  let ksgid := make_kgid e sgid' in
  if negb (rgid =? NOID) && negb (id_valid krgid) then (- EINVAL, t)
  else if negb (egid' =? NOID) && negb (id_valid kegid) then (- EINVAL, t)
  else if negb (sgid' =? NOID) && negb (id_valid ksgid) then (- EINVAL, t)
  else
    let old := current_cred t in
    if ((rgid =? NOID) || (krgid =? gid old))
       && ((egid' =? NOID) || ((kegid =? egid old) && (kegid =? fsgid old)))
       && ((sgid' =? NOID) || (ksgid =? sgid old))
    then (0, t)
    else
      let rgid_new := fresh_id rgid krgid (gid old) (egid old) (sgid old) in
      let egid_new := fresh_id egid' kegid (gid old) (egid old) (sgid old) in
      let sgid_new := fresh_id sgid' ksgid (gid old) (egid old) (sgid old) in
      if (rgid_new || egid_new || sgid_new) && negb (ns_capable_setid e old CAP_SETGID)
      then (- EPERM, t)
      else
        with_new_creds t (fun new =>
          let new := if rgid =? NOID then new else set_gid krgid new in
          let new := if egid' =? NOID then new else set_egid kegid new in
          let new := if sgid' =? NOID then new else set_sgid ksgid new in
          finish_setgid t (set_fsgid (egid new) new) LSM_SETID_RES).

(** The two calls that report the previous id whatever happens. *)
Definition __sys_setfsuid (u : Z) (t : task) : Z * task :=
  let old := current_cred t in
  let old_fsuid := from_kuid_munged e (fsuid old) in
  let kuid := make_kuid e u in
  if negb (id_valid kuid) then (old_fsuid, t)
  else if negb (prepare_ok e) then (old_fsuid, t)
  else
    let t := Task old (flags t) (prepared t + 1) in
    if ((kuid =? uid old) || (kuid =? euid old) || (kuid =? suid old) || (kuid =? fsuid old)
        || ns_capable_setid e old CAP_SETUID) && negb (kuid =? fsuid old)
    then
      let new := set_fsuid kuid old in
      let '(r, c) := security_task_fix_setuid e new old LSM_SETID_FS in
      if r =? 0 then (old_fsuid, snd (commit_creds (with_caps c new) (flags t) t))
      else (old_fsuid, abort_creds t)
    else (old_fsuid, abort_creds t).

Definition __sys_setfsgid (g : Z) (t : task) : Z * task :=
  let old := current_cred t in
  let old_fsgid := from_kgid_munged e (fsgid old) in
  let kgid := make_kgid e g in
  if negb (id_valid kgid) then (old_fsgid, t)
  else if negb (prepare_ok e) then (old_fsgid, t)
  else
    let t := Task old (flags t) (prepared t + 1) in
    if ((kgid =? gid old) || (kgid =? egid old) || (kgid =? sgid old) || (kgid =? fsgid old)
        || ns_capable_setid e old CAP_SETGID) && negb (kgid =? fsgid old)
    then
      let new := set_fsgid kgid old in
      let '(r, c) := security_task_fix_setgid e new old LSM_SETID_FS in
      if r =? 0 then (old_fsgid, snd (commit_creds (with_caps c new) (flags t) t))
      else (old_fsgid, abort_creds t)
    else (old_fsgid, abort_creds t).

(** [put_user] of a 32-bit value. *)
Definition put_user32 (p : Z) : Z := if copy_to_user (ua e) p 4 =? 0 then 0 else - EFAULT.

(** The result and the values stored, each at its pointer, in order. *)
Definition put_three (v1 p1 v2 p2 v3 p3 : Z) : Z * list (Z * Z) :=
  let r1 := put_user32 p1 in
  if r1 =? 0 then
    let r2 := put_user32 p2 in
    if r2 =? 0 then
      let r3 := put_user32 p3 in
      (r3, (p1, v1) :: (p2, v2) :: if r3 =? 0 then [(p3, v3)] else [])
    else (r2, [(p1, v1)])
  else (r1, []).

Definition sys_getresuid (ruidp euidp suidp : Z) (t : task) : Z * list (Z * Z) :=
  let c := current_cred t in
  put_three (from_kuid_munged e (uid c)) ruidp (from_kuid_munged e (euid c)) euidp
            (from_kuid_munged e (suid c)) suidp.

Definition sys_getresgid (rgidp egidp sgidp : Z) (t : task) : Z * list (Z * Z) :=
  let c := current_cred t in
  put_three (from_kgid_munged e (gid c)) rgidp (from_kgid_munged e (egid c)) egidp
            (from_kgid_munged e (sgid c)) sgidp.

Definition sys_getuid (t : task) : Z := from_kuid_munged e (uid (current_cred t)).
Definition sys_geteuid (t : task) : Z := from_kuid_munged e (euid (current_cred t)).
Definition sys_getgid (t : task) : Z := from_kgid_munged e (gid (current_cred t)).
Definition sys_getegid (t : task) : Z := from_kgid_munged e (egid (current_cred t)).

End calls.
End Cred.
