(* ===== verification/CredSpec.v ===== *)
(** * Properties of the set*id calls

    Atomicity of every call, confinement of an unprivileged process to the ids it
    already holds, over any history of calls, and the functional behaviour of the calls
    that set-user-id programs rely on. *)
From S2P Require Import Prelude Cred.

Module CredSpec.
Import Cred.

Inductive call :=
| SetReGid (r e : Z) | SetGid (g : Z) | SetReUid (r e : Z) | SetUid (u : Z)
| SetResUid (r e s : Z) | SetResGid (r e s : Z) | SetFsUid (u : Z) | SetFsGid (g : Z).

Definition run_call (e : cred_env) (c : call) (t : task) : Z * task :=
  match c with
  | SetReGid a b => __sys_setregid e a b t
  | SetGid g => __sys_setgid e g t
  | SetReUid a b => __sys_setreuid e a b t
  | SetUid u => __sys_setuid e u t
  | SetResUid a b s => __sys_setresuid e a b s t
  | SetResGid a b s => __sys_setresgid e a b s t
  | SetFsUid u => __sys_setfsuid e u t
  | SetFsGid g => __sys_setfsgid e g t
  end.

(** A history: what the rest of the kernel answers may change from call to call. *)
Fixpoint run_history (h : list (cred_env * call)) (t : task) : task :=
  match h with
  | [] => t
  | (e, c) :: h' => run_history h' (snd (run_call e c t))
  end.

Definition is_fs_call (c : call) : bool :=
  match c with SetFsUid _ | SetFsGid _ => true | _ => false end.

(** ** Shared lemmas *)

Definition ids (c : cred) : list Z :=
  [uid c; gid c; suid c; sgid c; euid c; egid c; fsuid c; fsgid c].

Lemma set_user_ids e c c' : set_user e c = inr c' -> ids c' = ids c.
Proof. unfold set_user. case_match; [|done]. by intros [= <-]. Qed.

Lemma finish_setuid_ids e t new lsm c fl :
  finish_setuid e t new lsm = inr (c, fl) -> ids c = ids new.
Proof.
  unfold finish_setuid, fix_setuid. intros (d & Hd & H)%err_bind_inr.
  destruct (security_task_fix_setuid e new (current_cred t) lsm) as [r cs].
  destruct (r <? 0); [done|]. injection Hd as <-.
  destruct (set_cred_ucounts _ _) as [r' uc]. destruct (r' <? 0); [done|].
  by injection H as <- <-.
Qed.

Lemma finish_setgid_ids e t new lsm c fl :
  finish_setgid e t new lsm = inr (c, fl) -> ids c = ids new.
Proof.
  unfold finish_setgid, fix_setgid. intros (d & Hd & H)%err_bind_inr.
  destruct (security_task_fix_setgid e new (current_cred t) lsm) as [r cs].
  case_match; [done|]. injection Hd as <-. by injection H as <- <-.
Qed.

Lemma task_eta t : Task (current_cred t) (flags t) (prepared t + 1 - 1) = t.
Proof. destruct t. cbn. f_equal. lia. Qed.

(** Every use of the shared shape: nothing happens, or the edit is committed. *)
Lemma with_new_creds_cases e t edit r t' :
  with_new_creds e t edit = (r, t') ->
  (t' = t /\ (r = - ENOMEM \/ edit (current_cred t) = inl r)) \/
  (exists new fl, edit (current_cred t) = inr (new, fl) /\ r = 0 /\
     t' = Task new fl (prepared t)).
Proof.
  unfold with_new_creds, abort_creds, commit_creds. destruct (prepare_ok e); cbn.
  - destruct (edit (current_cred t)) as [err|[new fl]]; intros [= <- <-].
    + left. rewrite task_eta. auto.
    + right. exists new, fl. split_and!; [done..|]. f_equal. lia.
  - intros [= <- <-]. auto.
Qed.

(** A call either leaves the task as it was, or commits new credentials; in the second
    case the six set calls return 0. *)
Definition atomic_outcome (c : call) (t : task) (r : Z) (t' : task) : Prop :=
  t' = t \/ (prepared t' = prepared t /\ (is_fs_call c = true \/ r = 0)).

Lemma with_new_creds_atomic e c t edit r t' :
  with_new_creds e t edit = (r, t') -> atomic_outcome c t r t'.
Proof.
  intros [[-> _]|(new & fl & _ & -> & ->)]%with_new_creds_cases; [by left|right]. cbn. auto.
Qed.

#[local] Hint Resolve with_new_creds_atomic : kernel.

Lemma run_call_atomic e c t r t' : run_call e c t = (r, t') -> atomic_outcome c t r t'.
Proof.
  destruct c; cbn [run_call];
    unfold __sys_setregid, __sys_setgid, __sys_setreuid, __sys_setuid, __sys_setresuid,
      __sys_setresgid, __sys_setfsuid, __sys_setfsgid; cbv zeta; intros H;
    repeat match type of H with
    | with_new_creds _ _ _ = _ => fail 1
    | (if ?b then _ else _) = _ => destruct b
    | (let '(_, _) := ?x in _) = _ => destruct x
    end; try (injection H as <- <-; by left); eauto with kernel;
    unfold abort_creds in H; cbn in H; injection H as <- <-.
  all: first [left; apply task_eta | right; cbn; split; [lia|by left]].
Qed.

(** ** Confinement *)

(** The ids of [c] are among those [c0] holds; a file-system id may also stay. *)
Definition own_uid (c0 : cred) (x : Z) : Prop := x = uid c0 \/ x = euid c0 \/ x = suid c0.
Definition own_gid (c0 : cred) (x : Z) : Prop := x = gid c0 \/ x = egid c0 \/ x = sgid c0.

Definition uids_within (c0 c : cred) : Prop :=
  own_uid c0 (uid c) /\ own_uid c0 (euid c) /\ own_uid c0 (suid c) /\
  (own_uid c0 (fsuid c) \/ fsuid c = fsuid c0).
Definition gids_within (c0 c : cred) : Prop :=
  own_gid c0 (gid c) /\ own_gid c0 (egid c) /\ own_gid c0 (sgid c) /\
  (own_gid c0 (fsgid c) \/ fsgid c = fsgid c0).

#[export] Instance uids_within_refl : Reflexive uids_within.
Proof. intros c. unfold uids_within, own_uid. tauto. Qed.
#[export] Instance uids_within_trans : Transitive uids_within.
Proof.
  intros a b c (Hr & He & Hs & Hf) (Hr' & He' & Hs' & Hf').
  assert (Hown : forall x, own_uid b x -> own_uid a x) by (intros x [-> | [-> | ->]]; done).
  split_and!; [by apply Hown..|].
  destruct Hf' as [Hf'|Hf']; [left; by apply Hown|rewrite Hf'; done].
Qed.
#[export] Instance gids_within_refl : Reflexive gids_within.
Proof. intros c. unfold gids_within, own_gid. tauto. Qed.
#[export] Instance gids_within_trans : Transitive gids_within.
Proof.
  intros a b c (Hr & He & Hs & Hf) (Hr' & He' & Hs' & Hf').
  assert (Hown : forall x, own_gid b x -> own_gid a x) by (intros x [-> | [-> | ->]]; done).
  split_and!; [by apply Hown..|].
  destruct Hf' as [Hf'|Hf']; [left; by apply Hown|rewrite Hf'; done].
Qed.

(** Turns an equation between id lists into the eight equations. *)
Ltac ids_eqs H := unfold ids in H; cbn in H; injection H as ? ? ? ? ? ? ? ?.

(** Opens a successful edit: every bind, test and helper on its way. *)
Ltac edit_inv :=
  repeat match goal with
  | H : err_bind _ _ = inr _ |- _ => apply err_bind_inr in H as (? & ? & H)
  | H : inl _ = inr _ |- _ => discriminate H
  | H : inr _ = inr _ |- _ => injection H as H; try subst
  | H : set_user _ _ = inr _ |- _ => apply set_user_ids in H; ids_eqs H
  | H : finish_setuid _ _ _ _ = inr _ |- _ => apply finish_setuid_ids in H; ids_eqs H
  | H : finish_setgid _ _ _ _ = inr _ |- _ => apply finish_setgid_ids in H; ids_eqs H
  | H : (if ?b then _ else _) = inr _ |- _ => destruct b eqn:?
  | H : context [if ?b then _ else _] |- _ => destruct b eqn:?
  end.

Lemma edit_confined e t edit r t' (P : cred -> cred -> Prop) `{!Reflexive P} :
  with_new_creds e t edit = (r, t') ->
  (forall new fl, edit (current_cred t) = inr (new, fl) -> P (current_cred t) new) ->
  P (current_cred t) (current_cred t').
Proof.
  intros [[-> _]|(new & fl & He & -> & ->)]%with_new_creds_cases Hp; [done|].
  by apply (Hp new fl).
Qed.

(** Closes a call's confinement goal once its argument checks are passed: the edit's
    equations give every id, its tests give the permission. *)
Ltac confined :=
  match goal with
  | H : with_new_creds _ _ _ = _ |- _ =>
      apply (edit_confined _ _ _ _ _ _ H); clear H; intros ? ? ?
  end;
  rewrite ?andb_true_r, ?orb_false_r in *; edit_inv; split_bools;
  unfold uids_within, own_uid, gids_within, own_gid, fresh_id in *; cbn in *;
  split_and!; congruence || lia.

(** Skips the argument checks that leave the task alone. *)
Ltac pass_checks H :=
  repeat match type of H with
  | with_new_creds _ _ _ = _ => fail 1
  | (if ?b then _ else _) = _ => destruct b eqn:?; [by injection H as <- <-|]
  end.

Lemma fresh_own_uid c v k :
  fresh_id v k (uid c) (euid c) (suid c) = false -> (v =? NOID) = false -> own_uid c k.
Proof. unfold fresh_id, own_uid. lia. Qed.

Lemma fresh_own_gid c v k :
  fresh_id v k (gid c) (egid c) (sgid c) = false -> (v =? NOID) = false -> own_gid c k.
Proof. unfold fresh_id, own_gid. lia. Qed.

Lemma own_uid_self c : own_uid c (uid c) /\ own_uid c (euid c) /\ own_uid c (suid c).
Proof. unfold own_uid. auto. Qed.

Lemma own_gid_self c : own_gid c (gid c) /\ own_gid c (egid c) /\ own_gid c (sgid c).
Proof. unfold own_gid. auto. Qed.

Ltac own_id :=
  solve [eapply fresh_own_uid; eassumption | eapply fresh_own_gid; eassumption
        | apply own_uid_self | apply own_gid_self].

(** The same for the three-argument calls, whose permission test is [fresh_id]. *)
Ltac confined_res :=
  match goal with
  | H : with_new_creds _ _ _ = _ |- _ =>
      apply (edit_confined _ _ _ _ _ _ H); clear H; intros ? ? ?
  end;
  rewrite ?andb_true_r in *; split_bools; edit_inv; unfold uids_within, gids_within; cbn in *;
  repeat match goal with H : _ ?n = _ |- _ => is_var n; rewrite !H end;
  split_and!; first [own_id | left; own_id | by right].

Section confined.
Context (e : cred_env) (t : task) (r : Z) (t' : task).

Lemma setreuid_confined r1 e1 :
  ns_capable_setid e (current_cred t) CAP_SETUID = false ->
  __sys_setreuid e r1 e1 t = (r, t') -> uids_within (current_cred t) (current_cred t').
Proof.
  intros Hcap H. unfold __sys_setreuid in H. cbv zeta in H. rewrite Hcap in H.
  pass_checks H. confined.
Qed.

Lemma setuid_confined u :
  ns_capable_setid e (current_cred t) CAP_SETUID = false ->
  __sys_setuid e u t = (r, t') -> uids_within (current_cred t) (current_cred t').
Proof.
  intros Hcap H. unfold __sys_setuid in H. cbv zeta in H. rewrite Hcap in H.
  pass_checks H. confined.
Qed.

Lemma setresuid_confined r1 e1 s1 :
  ns_capable_setid e (current_cred t) CAP_SETUID = false ->
  __sys_setresuid e r1 e1 s1 t = (r, t') -> uids_within (current_cred t) (current_cred t').
Proof.
  intros Hcap H. unfold __sys_setresuid in H. cbv zeta in H. rewrite Hcap in H.
  pass_checks H. confined_res.
Qed.

Lemma setregid_confined r1 e1 :
  ns_capable_setid e (current_cred t) CAP_SETGID = false ->
  __sys_setregid e r1 e1 t = (r, t') -> gids_within (current_cred t) (current_cred t').
Proof.
  intros Hcap H. unfold __sys_setregid in H. cbv zeta in H. rewrite Hcap in H.
  pass_checks H. confined.
Qed.

Lemma setgid_confined g :
  ns_capable_setid e (current_cred t) CAP_SETGID = false ->
  __sys_setgid e g t = (r, t') -> gids_within (current_cred t) (current_cred t').
Proof.
  intros Hcap H. unfold __sys_setgid in H. cbv zeta in H. rewrite Hcap in H.
  pass_checks H. confined.
Qed.

Lemma setresgid_confined r1 e1 s1 :
  ns_capable_setid e (current_cred t) CAP_SETGID = false ->
  __sys_setresgid e r1 e1 s1 t = (r, t') -> gids_within (current_cred t) (current_cred t').
Proof.
  intros Hcap H. unfold __sys_setresgid in H. cbv zeta in H. rewrite Hcap in H.
  pass_checks H. confined_res.
Qed.

(** Calls on one kind of id leave the other kind alone. *)
Lemma uid_calls_keep_gids r1 e1 s1 :
  __sys_setreuid e r1 e1 t = (r, t') \/ __sys_setuid e r1 t = (r, t') \/
  __sys_setresuid e r1 e1 s1 t = (r, t') -> gids_within (current_cred t) (current_cred t').
Proof.
  unfold __sys_setreuid, __sys_setuid, __sys_setresuid. cbv zeta.
  intros [H|[H|H]]; pass_checks H; confined_res.
Qed.

Lemma gid_calls_keep_uids r1 e1 s1 :
  __sys_setregid e r1 e1 t = (r, t') \/ __sys_setgid e r1 t = (r, t') \/
  __sys_setresgid e r1 e1 s1 t = (r, t') -> uids_within (current_cred t) (current_cred t').
Proof.
  unfold __sys_setregid, __sys_setgid, __sys_setresgid. cbv zeta.
  intros [H|[H|H]]; pass_checks H; confined_res.
Qed.

Lemma setfsuid_confined u :
  __sys_setfsuid e u t = (r, t') ->
  gids_within (current_cred t) (current_cred t') /\
  (ns_capable_setid e (current_cred t) CAP_SETUID = false ->
   uids_within (current_cred t) (current_cred t')).
Proof.
  unfold __sys_setfsuid. cbv zeta. intros H. pass_checks H.
  destruct (_ && _) eqn:Hperm; [|injection H as <- <-; by cbn].
  destruct (security_task_fix_setuid _ _ _ _) as [rc cs].
  destruct (rc =? 0); injection H as <- <-; cbn; [|done].
  unfold gids_within, uids_within, own_gid, own_uid. cbn. split; [tauto|].
  intros Hcap. rewrite Hcap in Hperm. split_bools. split_and!; [tauto..|]. lia.
Qed.

Lemma setfsgid_confined g :
  __sys_setfsgid e g t = (r, t') ->
  uids_within (current_cred t) (current_cred t') /\
  (ns_capable_setid e (current_cred t) CAP_SETGID = false ->
   gids_within (current_cred t) (current_cred t')).
Proof.
  unfold __sys_setfsgid. cbv zeta. intros H. pass_checks H.
  destruct (_ && _) eqn:Hperm; [|injection H as <- <-; by cbn].
  destruct (security_task_fix_setgid _ _ _ _) as [rc cs].
  destruct (rc =? 0); injection H as <- <-; cbn; [|done].
  unfold gids_within, uids_within, own_gid, own_uid. cbn. split; [tauto|].
  intros Hcap. rewrite Hcap in Hperm. split_bools. split_and!; [tauto..|]. lia.
Qed.
End confined.

(** The two capabilities that matter here are denied to [c]. *)
Definition unprivileged (e : cred_env) (c : cred) : Prop :=
  ns_capable_setid e c CAP_SETUID = false /\ ns_capable_setid e c CAP_SETGID = false.

Lemma run_call_confined e c t r t' :
  unprivileged e (current_cred t) -> run_call e c t = (r, t') ->
  uids_within (current_cred t) (current_cred t') /\
  gids_within (current_cred t) (current_cred t').
Proof.
  intros [Hu Hg] H. destruct c; cbn [run_call] in H.
  - split; [eapply (gid_calls_keep_uids e t r t' _ _ 0); eauto|by eapply setregid_confined].
  - split; [eapply (gid_calls_keep_uids e t r t' _ 0 0); eauto|by eapply setgid_confined].
  - split; [by eapply setreuid_confined|eapply (uid_calls_keep_gids e t r t' _ _ 0); eauto].
  - split; [by eapply setuid_confined|eapply (uid_calls_keep_gids e t r t' _ 0 0); eauto].
  - split; [by eapply setresuid_confined|eapply (uid_calls_keep_gids e t r t' _ _ _); eauto].
  - split; [eapply (gid_calls_keep_uids e t r t' _ _ _); eauto|by eapply setresgid_confined].
  - apply setfsuid_confined in H as [? Hc]. auto.
  - apply setfsgid_confined in H as [? Hc]. auto.
Qed.

(** ** Capabilities

    [grants cs cap]: the capability [cap] is in the permitted or in the effective set of the
    capability sets [cs] of some credentials. *)
Section capabilities.
Context (grants : Z -> Z -> bool).

(** What the calls rely on: [ns_capable_setid] grants what is in the effective set, if
    anything, and the security hooks move capabilities between the sets of the new
    credentials or drop them, but never add one ([cap_task_fix_setuid]: the effective set
    is cleared, or set to the permitted one). *)
Record capability_rules (e : cred_env) : Prop := {
  cr_capable c cap : ns_capable_setid e c cap = true -> grants (caps c) cap = true;
  cr_setuid new old lsm cap :
    grants (snd (security_task_fix_setuid e new old lsm)) cap = true -> grants (caps new) cap = true;
  cr_setgid new old lsm cap :
    grants (snd (security_task_fix_setgid e new old lsm)) cap = true -> grants (caps new) cap = true
}.

(** No capability of [c] that [c0] does not have. *)
Definition caps_within (c0 c : cred) : Prop :=
  forall cap, grants (caps c) cap = true -> grants (caps c0) cap = true.

#[export] Instance caps_within_refl : Reflexive caps_within.
Proof. by intros c cap. Qed.

Lemma set_user_caps e c c' : set_user e c = inr c' -> caps c' = caps c.
Proof. unfold set_user. case_match; [|done]. by intros [= <-]. Qed.

Lemma finish_setuid_caps e t new lsm c fl :
  capability_rules e -> finish_setuid e t new lsm = inr (c, fl) -> caps_within new c.
Proof.
  intros He. unfold finish_setuid, fix_setuid. intros (d & Hd & H)%err_bind_inr cap.
  pose proof (cr_setuid e He new (current_cred t) lsm cap) as Hs.
  destruct (security_task_fix_setuid e new (current_cred t) lsm) as [r cs].
  destruct (r <? 0); [done|]. injection Hd as <-.
  destruct (set_cred_ucounts _ _) as [r' uc]. destruct (r' <? 0); [done|]. by injection H as <- <-.
Qed.

Lemma finish_setgid_caps e t new lsm c fl :
  capability_rules e -> finish_setgid e t new lsm = inr (c, fl) -> caps_within new c.
Proof.
  intros He. unfold finish_setgid, fix_setgid. intros (d & Hd & H)%err_bind_inr cap.
  pose proof (cr_setgid e He new (current_cred t) lsm cap) as Hs.
  destruct (security_task_fix_setgid e new (current_cred t) lsm) as [r cs].
  case_match; [done|]. injection Hd as <-. by injection H as <- <-.
Qed.

(** Until the hook runs the new credentials have the capability sets of the old. *)
Ltac caps_kept :=
  match goal with
  | H : with_new_creds _ _ _ = _ |- _ =>
      apply (edit_confined _ _ _ _ _ _ H); clear H; intros ? ? ?
  end;
  repeat match goal with
  | H : err_bind _ _ = inr _ |- _ => apply err_bind_inr in H as (? & ? & H)
  | H : inl _ = inr _ |- _ => discriminate H
  | H : inr _ = inr _ |- _ => injection H as H; try subst
  | H : set_user _ _ = inr _ |- _ => apply set_user_caps in H
  | H : finish_setuid _ _ _ _ = inr _ |- _ => apply finish_setuid_caps in H; [|done]
  | H : finish_setgid _ _ _ _ = inr _ |- _ => apply finish_setgid_caps in H; [|done]
  | H : (if ?b then _ else _) = inr _ |- _ => destruct b eqn:?
  | H : context [if ?b then _ else _] |- _ => destruct b eqn:?
  end;
  intros cap Hcap;
  match goal with H : caps_within _ _ |- _ => apply H in Hcap; cbn in * end;
  congruence.

Lemma run_call_caps e c t r t' :
  capability_rules e -> run_call e c t = (r, t') -> caps_within (current_cred t) (current_cred t').
Proof.
  intros He H. destruct c; cbn [run_call] in H;
    unfold __sys_setregid, __sys_setgid, __sys_setreuid, __sys_setuid, __sys_setresuid,
      __sys_setresgid, __sys_setfsuid, __sys_setfsgid in H; cbv zeta in H; pass_checks H.
  1-6: caps_kept.
  - destruct (_ && _); [|injection H as <- <-; by cbn].
    pose proof (cr_setuid e He) as Hs.
    specialize (Hs (set_fsuid (make_kuid e u) (current_cred t)) (current_cred t) LSM_SETID_FS). cbn in Hs, H.
    destruct (security_task_fix_setuid _ _ _ _) as [rc cs].
    destruct (rc =? 0); injection H as <- <-; [|by cbn]. exact Hs.
  - destruct (_ && _); [|injection H as <- <-; by cbn].
    pose proof (cr_setgid e He) as Hs.
    specialize (Hs (set_fsgid (make_kgid e g) (current_cred t)) (current_cred t) LSM_SETID_FS). cbn in Hs, H.
    destruct (security_task_fix_setgid _ _ _ _) as [rc cs].
    destruct (rc =? 0); injection H as <- <-; [|by cbn]. exact Hs.
Qed.

(** Neither capability is in the permitted or the effective set of [c]. *)
Definition lacks (c : cred) : Prop :=
  grants (caps c) CAP_SETUID = false /\ grants (caps c) CAP_SETGID = false.

Lemma lacks_within c c' : lacks c -> caps_within c c' -> lacks c'.
Proof.
  intros [Hu Hg] Hw. split; [specialize (Hw CAP_SETUID)|specialize (Hw CAP_SETGID)];
    destruct (grants (caps c') _); intuition congruence.
Qed.

Lemma lacks_unprivileged e c : capability_rules e -> lacks c -> unprivileged e c.
Proof.
  intros He [Hu Hg]. split; [pose proof (cr_capable e He c CAP_SETUID)|pose proof (cr_capable e He c CAP_SETGID)];
    destruct (ns_capable_setid e c _); intuition congruence.
Qed.

Lemma history_confined h c0 t :
  Forall (fun ec => capability_rules (fst ec)) h -> lacks (current_cred t) ->
  uids_within c0 (current_cred t) -> gids_within c0 (current_cred t) ->
  let c := current_cred (run_history h t) in uids_within c0 c /\ gids_within c0 c /\ lacks c.
Proof.
  revert t. induction h as [|[e c] h IH]; intros t Hh Hl Hu Hg; [done|].
  apply Forall_cons in Hh as [He Hh]. cbn [run_history].
  destruct (run_call e c t) as [r t'] eqn:Hrun.
  destruct (run_call_confined e c t r t') as [Hu' Hg']; [by apply lacks_unprivileged|done|].
  apply IH; [done| |by etrans..]. by eapply lacks_within, run_call_caps.
Qed.

(** C37.  A process with neither [CAP_SETUID] nor [CAP_SETGID] in its capability sets never
    gains an identity: after any history of set*id calls, whatever the security hooks, the
    user table and memory answer along the way, its real, effective and saved ids are
    among the ones it started with, its file-system ids are too or are the ones it started
    with, and it still has neither capability. *)
Theorem unprivileged_never_gains h t :
  Forall (fun ec => capability_rules (fst ec)) h -> lacks (current_cred t) ->
  let c := current_cred (run_history h t) in
  uids_within (current_cred t) c /\ gids_within (current_cred t) c /\ lacks c.
Proof. intros Hh Hl. by apply history_confined. Qed.
End capabilities.

(** Every call is atomic: it returns with no credential copy outstanding, and
    when it fails (a negative result; the two file-system calls report the previous id
    instead) the task is exactly as before. *)
Theorem set_call_atomic e c t r t' :
  run_call e c t = (r, t') ->
  prepared t' = prepared t /\ (is_fs_call c = false -> r <> 0 -> t' = t).
Proof.
  intros [->|[Hp Hr]]%run_call_atomic; [done|]. split; [done|].
  intros Hfs Hne. destruct Hr as [Hr|Hr]; congruence.
Qed.

(** ** Functional behaviour *)

(** A system in which nothing but permission can refuse a call. *)
Record cooperative (e : cred_env) : Prop := {
  coop_memory : prepare_ok e = true;
  coop_user u : is_Some (alloc_uid e u);
  coop_hook new old lsm : 0 <= fst (security_task_fix_setuid e new old lsm);
  coop_ucounts c : 0 <= fst (set_cred_ucounts e c)
}.

Lemma set_user_coop e c : cooperative e -> exists c', set_user e c = inr c'.
Proof. intros He. destruct (coop_user e He (uid c)) as [u Hu]. unfold set_user. rewrite Hu. eauto. Qed.

Lemma finish_setuid_coop e t new lsm :
  cooperative e -> exists c fl, finish_setuid e t new lsm = inr (c, fl).
Proof.
  intros He. unfold finish_setuid, fix_setuid.
  pose proof (coop_hook e He new (current_cred t) lsm) as Hh.
  destruct (security_task_fix_setuid _ _ _ _) as [r cs]. cbn in Hh.
  rewrite (proj2 (Z.ltb_ge _ _)) by lia. cbn [err_bind].
  pose proof (coop_ucounts e He (with_caps cs new)) as Hc.
  destruct (set_cred_ucounts _ _) as [r' uc]. cbn in Hc.
  rewrite (proj2 (Z.ltb_ge _ _)) by lia. eauto.
Qed.

(** The errors of the uid edits are negative, so a result of 0 is a commit. *)
Lemma set_user_neg e c r : set_user e c = inl r -> r < 0.
Proof. unfold set_user. case_match; [done|]. by intros [= <-]. Qed.

Lemma finish_setuid_neg e t new lsm r : finish_setuid e t new lsm = inl r -> r < 0.
Proof.
  unfold finish_setuid, fix_setuid. destruct (security_task_fix_setuid _ _ _ _) as [r1 cs].
  intros [H|(d & _ & H)]%err_bind_inl.
  - destruct (Z.ltb_spec r1 0); [|done]. by injection H as <-.
  - destruct (set_cred_ucounts _ _) as [r2 uc]. destruct (Z.ltb_spec r2 0); [|done].
    by injection H as <-.
Qed.

(** A privileged [setuid] that succeeds sets all four user ids. *)
Lemma setuid_privileged e u t t' :
  ns_capable_setid e (current_cred t) CAP_SETUID = true ->
  __sys_setuid e u t = (0, t') ->
  let c := current_cred t' in
  uid c = make_kuid e u /\ euid c = make_kuid e u /\ suid c = make_kuid e u /\
  fsuid c = make_kuid e u.
Proof.
  intros Hcap H. unfold __sys_setuid in H. cbv zeta in H. rewrite Hcap in H.
  destruct (negb _); [discriminate|].
  apply with_new_creds_cases in H as [[_ [H|H]]|(new & fl & H & _ & ->)]; [done| |].
  - exfalso. apply err_bind_inl in H as [H|(d & _ & H)].
    + destruct (negb _); [|done]. by apply set_user_neg in H.
    + by apply finish_setuid_neg in H.
  - cbn. edit_inv; cbn in *; split_and!; congruence.
Qed.

(** Dropping privilege with [setuid] is permanent: after a privileged call
    [setuid(u)] that returned 0, a process that no longer has the capability keeps [u]
    as its real, effective, saved and file-system user id through any history. *)
Theorem setuid_drop_is_permanent grants e u t t1 h :
  ns_capable_setid e (current_cred t) CAP_SETUID = true ->
  __sys_setuid e u t = (0, t1) ->
  Forall (fun ec => capability_rules grants (fst ec)) h -> lacks grants (current_cred t1) ->
  let c := current_cred (run_history h t1) in
  uid c = make_kuid e u /\ euid c = make_kuid e u /\ suid c = make_kuid e u /\
  fsuid c = make_kuid e u.
Proof.
  intros Hcap Hset Hh Hl. destruct (setuid_privileged e u t t1 Hcap Hset) as (Hr & He & Hs & Hf).
  destruct (history_confined grants h (current_cred t1) t1) as [Hu _]; [done..|].
  revert Hu. unfold uids_within, own_uid. cbn zeta. rewrite Hr, He, Hs, Hf. intuition.
Qed.

Definition pick (v k old : Z) : Z := if v =? NOID then old else k.

(** What a three-argument call with mapped ids answers and leaves. *)
Definition setresuid_outcome (e : cred_env) (r1 e1 s1 : Z) (t : task) (res : Z * task) : Prop :=
  let old := current_cred t in
  let fresh v := fresh_id v (make_kuid e v) (uid old) (euid old) (suid old) in
  if (fresh r1 || fresh e1 || fresh s1) && negb (ns_capable_setid e old CAP_SETUID)
  then res = (- EPERM, t)
  else exists t', res = (0, t') /\
    let c := current_cred t' in
    uid c = pick r1 (make_kuid e r1) (uid old) /\
    euid c = pick e1 (make_kuid e e1) (euid old) /\
    suid c = pick s1 (make_kuid e s1) (suid old) /\
    (t' = t \/ fsuid c = euid c).

Lemma setresuid_effect e r1 e1 s1 t :
  cooperative e ->
  (r1 = NOID \/ id_valid (make_kuid e r1) = true) ->
  (e1 = NOID \/ id_valid (make_kuid e e1) = true) ->
  (s1 = NOID \/ id_valid (make_kuid e s1) = true) ->
  setresuid_outcome e r1 e1 s1 t (__sys_setresuid e r1 e1 s1 t).
Proof.
  intros Hco Hr He Hs. unfold setresuid_outcome, __sys_setresuid. cbv zeta.
  assert (Hv : forall v, v = NOID \/ id_valid (make_kuid e v) = true ->
            negb (v =? NOID) && negb (id_valid (make_kuid e v)) = false).
  { intros v [-> | ->]; [by rewrite Z.eqb_refl|by rewrite andb_false_r]. }
  rewrite !Hv by done. clear Hv Hr He Hs.
  destruct (((r1 =? NOID) || _) && _ && _) eqn:Hnoop.
  - set (o := current_cred t) in *.
    replace (fresh_id r1 _ _ _ _ || _ || _) with false; cycle 1.
    { unfold fresh_id. lia. }
    exists t. fold o. unfold pick. split; [done|].
    split_and!; [case_match; lia..|by left].
  - destruct (_ && negb _) eqn:Hperm; [done|].
    unfold with_new_creds. rewrite (coop_memory e Hco). cbn [negb].
    cbn [current_cred]. clear Hnoop Hperm.
    assert (Hu : exists d, (if r1 =? NOID then inr (current_cred t)
        else if negb (make_kuid e r1 =? uid (current_cred t))
             then set_user e (set_uid (make_kuid e r1) (current_cred t))
             else inr (set_uid (make_kuid e r1) (current_cred t))) = inr d /\
        ids d = ids (if r1 =? NOID then current_cred t
                     else set_uid (make_kuid e r1) (current_cred t))).
    { destruct (r1 =? NOID); [eauto|]. destruct (negb _); [|eauto].
      destruct (set_user_coop e (set_uid (make_kuid e r1) (current_cred t)) Hco) as [d Hd].
      exists d. split; [done|]. by apply set_user_ids in Hd. }
    destruct Hu as (d & -> & Hd). cbn [err_bind].
    match goal with |- context [finish_setuid e t ?n LSM_SETID_RES] =>
      destruct (finish_setuid_coop e t n LSM_SETID_RES Hco) as (c & fl & Hf) end.
    rewrite Hf. eexists. split; [done|]. cbn. apply finish_setuid_ids in Hf.
    unfold pick. destruct (r1 =? NOID), (e1 =? NOID), (s1 =? NOID);
      ids_eqs Hd; ids_eqs Hf; split_and!; first [congruence | right; congruence].
Qed.

(** [setresuid] on every input whose ids are mapped, when nothing but permission
    can refuse it: [-EPERM] and no change when some requested id is new to an
    unprivileged caller; otherwise 0, the requested ids set and the others kept, and the
    file-system id follows the effective one unless nothing had to change. *)
Theorem setresuid_spec e r1 e1 s1 t :
  cooperative e ->
  (r1 = NOID \/ id_valid (make_kuid e r1) = true) ->
  (e1 = NOID \/ id_valid (make_kuid e e1) = true) ->
  (s1 = NOID \/ id_valid (make_kuid e s1) = true) ->
  setresuid_outcome e r1 e1 s1 t (__sys_setresuid e r1 e1 s1 t).
Proof. apply setresuid_effect. Qed.

(** A set-user-id program (saved id equal to the effective id) can put on its real
    identity and take it off again without any privilege: both calls return 0 and the
    user ids end as they were. *)
Theorem seteuid_round_trip e u w t :
  cooperative e ->
  let c := current_cred t in
  make_kuid e u = uid c -> make_kuid e w = euid c -> suid c = euid c -> fsuid c = euid c ->
  u <> NOID -> w <> NOID -> id_valid (uid c) = true -> id_valid (euid c) = true ->
  exists t1 t2,
    __sys_setresuid e NOID u NOID t = (0, t1) /\ euid (current_cred t1) = uid c /\
    __sys_setresuid e NOID w NOID t1 = (0, t2) /\
    uid (current_cred t2) = uid c /\ euid (current_cred t2) = euid c /\
    suid (current_cred t2) = suid c /\ fsuid (current_cred t2) = fsuid c.
Proof.
  cbn zeta. intros Hco Hu Hw Hs Hfs Hun Hwn Hvu Hvw.
  pose proof (setresuid_effect e NOID u NOID t Hco) as H1. unfold setresuid_outcome in H1. cbv beta zeta in H1.
  rewrite Hu in H1. unfold pick, fresh_id in H1. rewrite Z.eqb_refl in H1.
  rewrite (proj2 (Z.eqb_neq u NOID) Hun), Z.eqb_refl in H1. cbn in H1.
  destruct H1 as (t1 & -> & Hr1 & He1 & Hs1 & Hf1); [by left|by right|by left|].
  exists t1. 
  pose proof (setresuid_effect e NOID w NOID t1 Hco) as H2. unfold setresuid_outcome in H2. cbv beta zeta in H2.
  rewrite Hw in H2. unfold pick, fresh_id in H2. rewrite Z.eqb_refl in H2.
  rewrite (proj2 (Z.eqb_neq w NOID) Hwn), Hs1, Hs, Z.eqb_refl in H2.
  cbn in H2. rewrite andb_false_r in H2. cbn in H2.
  destruct H2 as (t2 & -> & Hr2 & He2 & Hs2 & Hf2); [by left|by right|by left|].
  exists t2. split_and!; [done..|congruence|done|congruence|].
  destruct Hf2 as [->|Hf2]; [|congruence]. destruct Hf1 as [->|Hf1]; congruence.
Qed.

(** *** Concrete runs: identity mapping, and the rules of [cap_emulate_setxuid]

    The capability sets are written 0 (neither capability), 1 (both permitted) and 2 (both
    permitted and effective). *)

Definition grants1 (cs _ : Z) : bool := negb (cs =? 0).
Definition any_root (c : cred) : bool := (uid c =? 0) || (euid c =? 0) || (suid c =? 0).
Definition emulate (new old : cred) : Z :=
  let cs := if any_root old && negb (any_root new) then 0 else caps new in
  let cs := if (euid old =? 0) && negb (euid new =? 0) then Z.min cs 1 else cs in
  if negb (euid old =? 0) && (euid new =? 0) && negb (cs =? 0) then 2 else cs.

Definition env1 : cred_env := {|
  make_kuid := fun x => x; make_kgid := fun x => x;
  from_kuid_munged := fun x => x; from_kgid_munged := fun x => x;
  prepare_ok := true; ns_capable_setid := fun c _ => caps c =? 2;
  alloc_uid := fun u => Some u;
  security_task_fix_setuid := fun new old lsm => (0, if lsm =? LSM_SETID_FS then caps new else emulate new old);
  security_task_fix_setgid := fun new _ _ => (0, caps new);
  set_cred_ucounts := fun c => (0, uid c); is_rlimit_overlimit := fun _ => false;
  ua := ua_ok |}.

Lemma env1_rules : capability_rules grants1 env1.
Proof.
  split; unfold grants1; cbn.
  - intros c _ H. lia.
  - intros new old lsm _. unfold emulate. destruct (lsm =? LSM_SETID_FS); [done|].
    destruct (caps new =? 0) eqn:E; [|done]. apply Z.eqb_eq in E. rewrite E.
    by destruct (any_root old && negb (any_root new)), (euid old =? 0), (euid new =? 0).
  - done.
Qed.
Lemma env1_histories (calls : list call) : Forall (fun ec => capability_rules grants1 (fst ec)) ((env1,.) <$> calls).
Proof. apply Forall_fmap, Forall_forall. intros c _. apply env1_rules. Qed.

(** The superuser has the capabilities in force, a set-user-id root program whose effective
    user is another has them at hand. *)
Definition cred_of (r e s : Z) : cred :=
  Cred r r s s e e e e r r (if e =? 0 then 2 else if (r =? 0) || (s =? 0) then 1 else 0).
Definition task_of (r e s : Z) : task := Task (cred_of r e s) 0 0.

Lemma env1_coop : cooperative env1.
Proof. constructor; cbn; intros; done || eauto. Qed.

Lemma unprivileged_never_gains_witness :
  let h := (env1,.) <$> [SetUid 0; SetReUid 0 0; SetResUid NOID 0 NOID; SetGid 0; SetFsUid 0] in
  let c := current_cred (run_history h (task_of 1000 1000 1000)) in
  uids_within (cred_of 1000 1000 1000) c /\ gids_within (cred_of 1000 1000 1000) c /\ lacks grants1 c.
Proof.
  exact (unprivileged_never_gains grants1 _ (task_of 1000 1000 1000)
    (env1_histories [SetUid 0; SetReUid 0 0; SetResUid NOID 0 NOID; SetGid 0; SetFsUid 0]) (conj eq_refl eq_refl)).
Defined.

Lemma set_call_atomic_witness :
  prepared (task_of 1000 1000 1000) = 0 /\
  (is_fs_call (SetUid 0) = false -> - EPERM <> 0 -> task_of 1000 1000 1000 = task_of 1000 1000 1000).
Proof.
  apply (set_call_atomic env1 (SetUid 0) (task_of 1000 1000 1000) (- EPERM)
    (task_of 1000 1000 1000)). vm_compute. reflexivity.
Defined.

Definition dropped : task := Task (Cred 1000 0 1000 0 1000 0 1000 0 1000 1000 0) 0 0.

Lemma setuid_drop_is_permanent_witness :
  let c := current_cred (run_history [(env1, SetResUid 0 0 0); (env1, SetUid 0)] dropped) in
  uid c = 1000 /\ euid c = 1000 /\ suid c = 1000 /\ fsuid c = 1000.
Proof.
  apply (setuid_drop_is_permanent grants1 env1 1000 (task_of 0 0 0) dropped); [done|done| |by split].
  apply (env1_histories [SetResUid 0 0 0; SetUid 0]).
Defined.

Lemma setresuid_spec_witness :
  setresuid_outcome env1 5 NOID 1000 (task_of 1000 1000 1000)
    (__sys_setresuid env1 5 NOID 1000 (task_of 1000 1000 1000)).
Proof.
  apply (setresuid_spec env1 5 NOID 1000 (task_of 1000 1000 1000) env1_coop);
    [by right|by left|by right].
Defined.

Lemma seteuid_round_trip_witness :
  exists t1 t2,
    __sys_setresuid env1 NOID 1000 NOID (task_of 1000 0 0) = (0, t1) /\
    euid (current_cred t1) = 1000 /\
    __sys_setresuid env1 NOID 0 NOID t1 = (0, t2) /\
    uid (current_cred t2) = 1000 /\ euid (current_cred t2) = 0 /\
    suid (current_cred t2) = 0 /\ fsuid (current_cred t2) = 0.
Proof.
  apply (seteuid_round_trip env1 1000 0 (task_of 1000 0 0) env1_coop); done.
Defined.

End CredSpec.
