(* ===== verification/Rlimit.v ===== *)
(** * Resource limits ([kernel/sys.c])

    [do_prlimit] and the system calls on it: [getrlimit], [setrlimit], [prlimit64], the
    old and the 32-bit forms.  Without the capability no sequence of these calls raises a
    hard limit, leaves a soft limit above its hard limit, or touches the limits of a
    process of somebody else. *)
From S2P Require Import Prelude Cred.

Module Rlimit.
Import Cred.

Record rlimit := MkRlimit { rlim_cur : Z; rlim_max : Z }.

#[export] Instance rlimit_eq_dec : EqDecision rlimit.
Proof. solve_decision. Defined.
#[export] Instance rlimit_inhabited : Inhabited rlimit := populate (MkRlimit 0 0).

Definition RLIM_NLIMITS : Z := 16.
Definition RLIMIT_CPU : Z := 0.
Definition RLIMIT_NOFILE : Z := 7.
Definition RLIM_INFINITY : Z := ULONG_MAX.
Definition RLIM64_INFINITY : Z := 2 ^ 64 - 1.
Definition COMPAT_RLIM_INFINITY : Z := 0xffffffff.
Definition LSM_PRLIMIT_READ : Z := 1.
Definition LSM_PRLIMIT_WRITE : Z := 2.

(** What these calls see of a process: its credentials, [signal->rlim] and the CPU timer
    that [update_rlimit_cpu] arms. *)
Record proc := Proc { pr_cred : cred; pr_rlim : list rlimit; pr_cpu_timer : option Z }.

(** All processes, by an identifier of their own. *)
Definition system := Z -> proc.
Definition update (tsk : Z) (p : proc) (st : system) : system := fun t => if t =? tsk then p else st t.

Record rlimit_env := {
  capable_resource : Z -> bool;              (* the caller: capable(CAP_SYS_RESOURCE) *)
  ns_capable_resource : Z -> Z -> bool;      (* the caller, in the user namespace of the task *)
  security_task_setrlimit : Z -> Z -> rlimit -> Z;
  security_task_prlimit : cred -> cred -> Z -> Z;
  sysctl_nr_open : Z;
  posix_timers : bool;                       (* CONFIG_POSIX_TIMERS *)
  find_task_by_vpid : Z -> option Z;
  rl_ua : uaccess
}.

Section calls.
Context (e : rlimit_env) (cur : Z).          (* current *)

(** Retval, the old limit if it was asked for, and the system. *)
Definition do_prlimit (tsk resource : Z) (new : option rlimit) (want_old : bool) (st : system)
    : Z * option rlimit * system :=
  if RLIM_NLIMITS <=? resource then (- EINVAL, None, st)
  else
    let refused :=
      match new with
      | Some n =>
          if rlim_max n <? rlim_cur n then - EINVAL
          else if (resource =? RLIMIT_NOFILE) && (sysctl_nr_open e <? rlim_max n) then - EPERM
          else 0
      | None => 0
      end in
    if negb (refused =? 0) then (refused, None, st)
    else
      let p := st tsk in
      let rlim := pr_rlim p !!! Z.to_nat resource in
      let retval :=
        match new with
        | Some n =>
            if (rlim_max rlim <? rlim_max n) && negb (capable_resource e cur) then - EPERM
            else security_task_setrlimit e tsk resource n
        | None => 0
        end in
      if negb (retval =? 0) then (retval, None, st)
      else
        let old := if want_old then Some rlim else None in
        match new with
        | None => (0, old, st)
        | Some n =>
            let timer := if (resource =? RLIMIT_CPU) && negb (rlim_cur n =? RLIM_INFINITY)
                            && posix_timers e
                         then Some (rlim_cur n) else pr_cpu_timer p in
            (0, old, update tsk (Proc (pr_cred p) (<[Z.to_nat resource := n]> (pr_rlim p)) timer) st)
        end.

Definition put (ptr : Z) (size : Z) (v : rlimit) : Z * option rlimit :=
  if negb (copy_to_user (rl_ua e) ptr size =? 0) then (- EFAULT, None) else (0, Some v).

(** Result, and what was written to user memory. *)
Definition sys_getrlimit (resource ptr : Z) (st : system) : Z * option rlimit :=
  match do_prlimit cur resource None true st with
  | (ret, Some value, _) => if ret =? 0 then put ptr 16 value else (ret, None)
  | (ret, None, _) => (ret, None)
  end.

(** A 32-bit limit, widened. *)
Definition from_compat (x : Z) : Z := if x =? COMPAT_RLIM_INFINITY then RLIM_INFINITY else x.
Definition to_compat (x : Z) : Z := if COMPAT_RLIM_INFINITY <? x then COMPAT_RLIM_INFINITY else x.

(** [r32]: the structure at the user's pointer. *)
Definition compat_setrlimit (resource ptr : Z) (r32 : rlimit) (st : system) : Z * system :=
  if negb (copy_from_user (rl_ua e) ptr 8 =? 0) then (- EFAULT, st)
  else
    let '(ret, _, st) :=
      do_prlimit cur resource
        (Some (MkRlimit (from_compat (rlim_cur r32)) (from_compat (rlim_max r32)))) false st in
    (ret, st).

Definition compat_getrlimit (resource ptr : Z) (st : system) : Z * option rlimit :=
  match do_prlimit cur resource None true st with
  | (ret, Some r, _) =>
      if ret =? 0 then put ptr 8 (MkRlimit (to_compat (rlim_cur r)) (to_compat (rlim_max r)))
      else (ret, None)
  | (ret, None, _) => (ret, None)
  end.

Definition clamp_old (x : Z) : Z := if 0x7FFFFFFF <? x then 0x7FFFFFFF else x.

Definition old_getrlimit (resource ptr : Z) (st : system) : Z * option rlimit :=
  if RLIM_NLIMITS <=? resource then (- EINVAL, None)
  else
    let x := pr_rlim (st cur) !!! Z.to_nat resource in
    put ptr 16 (MkRlimit (clamp_old (rlim_cur x)) (clamp_old (rlim_max x))).

(** Two [put_user] of four bytes; the written structure when both succeed. *)
Definition compat_old_getrlimit (resource ptr : Z) (st : system) : Z * option rlimit :=
  if RLIM_NLIMITS <=? resource then (- EINVAL, None)
  else
    let r := pr_rlim (st cur) !!! Z.to_nat resource in
    if negb (copy_to_user (rl_ua e) ptr 4 =? 0) || negb (copy_to_user (rl_ua e) (ptr + 4) 4 =? 0)
    then (- EFAULT, None)
    else (0, Some (MkRlimit (clamp_old (rlim_cur r)) (clamp_old (rlim_max r)))).

Definition rlim64_is_infinity (x : Z) : bool := x =? RLIM64_INFINITY.

Definition rlim_to_rlim64 (r : rlimit) : rlimit :=
  MkRlimit (if rlim_cur r =? RLIM_INFINITY then RLIM64_INFINITY else rlim_cur r)
           (if rlim_max r =? RLIM_INFINITY then RLIM64_INFINITY else rlim_max r).

Definition rlim64_to_rlim (r : rlimit) : rlimit :=
  MkRlimit (if rlim64_is_infinity (rlim_cur r) then RLIM_INFINITY else u64 (rlim_cur r))
           (if rlim64_is_infinity (rlim_max r) then RLIM_INFINITY else u64 (rlim_max r)).

(** The ids of [c] match all real, effective and saved ids of [t]. *)
Definition id_match (c t : cred) : bool :=
  (uid c =? euid t) && (uid c =? suid t) && (uid c =? uid t)
  && (gid c =? egid t) && (gid c =? sgid t) && (gid c =? gid t).

Definition check_prlimit_permission (task flags : Z) (st : system) : Z :=
  if cur =? task then 0
  else
    let cred := pr_cred (st cur) in
    let tcred := pr_cred (st task) in
    if negb (id_match cred tcred) && negb (ns_capable_resource e cur task) then - EPERM
    else security_task_prlimit e cred tcred flags.

(** [new]: the pointer and the structure there; [old]: the pointer.  Result, what was
    written through [old], and the system. *)
Definition sys_prlimit64 (pid resource : Z) (new : option (Z * rlimit)) (old : option Z) (st : system)
    : Z * option rlimit * system :=
  let checkflags := match old with Some _ => LSM_PRLIMIT_READ | None => 0 end in
  let faults := match new with
                | Some (ptr, _) => negb (copy_from_user (rl_ua e) ptr 16 =? 0)
                | None => false
                end in
  if faults then (- EFAULT, None, st)
  else
    let checkflags := match new with Some _ => Z.lor checkflags LSM_PRLIMIT_WRITE | None => checkflags end in
    match (if pid =? 0 then Some cur else find_task_by_vpid e pid) with
    | None => (- ESRCH, None, st)
    | Some tsk =>
        let ret := check_prlimit_permission tsk checkflags st in
        if negb (ret =? 0) then (ret, None, st)
        else
          let '(ret, o, st) :=
            do_prlimit tsk resource (option_map (fun n => rlim64_to_rlim (snd n)) new)
                       (match old with Some _ => true | None => false end) st in
          match old, o with
          | Some ptr, Some o =>
              if ret =? 0
              then let '(ret, w) := put ptr 16 (rlim_to_rlim64 o) in (ret, w, st)
              else (ret, None, st)
          | _, _ => (ret, None, st)
          end
    end.

Definition sys_setrlimit (resource ptr : Z) (new : rlimit) (st : system) : Z * system :=
  if negb (copy_from_user (rl_ua e) ptr 16 =? 0) then (- EFAULT, st)
  else let '(ret, _, st) := do_prlimit cur resource (Some new) false st in (ret, st).

End calls.

(** ** Histories *)

(** A call, with its caller and the contents of the user's memory. *)
Inductive call :=
  | CallGetrlimit (cur resource ptr : Z)
  | CallSetrlimit (cur resource ptr : Z) (new : rlimit)
  | CallCompatSetrlimit (cur resource ptr : Z) (r32 : rlimit)
  | CallPrlimit64 (cur pid resource : Z) (new : option (Z * rlimit)) (old : option Z).

Definition caller (c : call) : Z :=
  match c with
  | CallGetrlimit cur _ _ | CallSetrlimit cur _ _ _ | CallCompatSetrlimit cur _ _ _
  | CallPrlimit64 cur _ _ _ _ => cur
  end.

Definition run_call (e : rlimit_env) (c : call) (st : system) : system :=
  match c with
  | CallGetrlimit cur resource ptr => st
  | CallSetrlimit cur resource ptr new => snd (sys_setrlimit e cur resource ptr new st)
  | CallCompatSetrlimit cur resource ptr r32 => snd (compat_setrlimit e cur resource ptr r32 st)
  | CallPrlimit64 cur pid resource new old => snd (sys_prlimit64 e cur pid resource new old st)
  end.

Definition run_calls (e : rlimit_env) (cs : list call) (st : system) : system :=
  foldl (fun st c => run_call e c st) st cs.

Definition hard (st : system) (tsk : Z) (i : nat) : Z := rlim_max (pr_rlim (st tsk) !!! i).
Definition soft (st : system) (tsk : Z) (i : nat) : Z := rlim_cur (pr_rlim (st tsk) !!! i).

(** The step one process can take in one call of [cur]. *)
Record lowered (cur tsk : Z) (p p' : proc) (may : Prop) : Prop := {
  lw_cred : pr_cred p' = pr_cred p;
  lw_len : length (pr_rlim p') = length (pr_rlim p);
  lw_hard i : rlim_max (pr_rlim p' !!! i) <= rlim_max (pr_rlim p !!! i);
  lw_soft i : rlim_cur (pr_rlim p !!! i) <= rlim_max (pr_rlim p !!! i) ->
              rlim_cur (pr_rlim p' !!! i) <= rlim_max (pr_rlim p' !!! i);
  lw_may : p' = p \/ may
}.

Lemma lowered_same cur tsk p may : lowered cur tsk p p may.
Proof. constructor; auto; done. Qed.

Section spec.
Context (e : rlimit_env).

(** [do_prlimit] by a caller without the capability. *)
Lemma do_prlimit_lowers cur tsk resource new want st ret old st' :
  capable_resource e cur = false -> do_prlimit e cur tsk resource new want st = (ret, old, st') ->
  forall t, lowered cur t (st t) (st' t) (t = tsk).
Proof.
  intros Hcap. unfold do_prlimit. cbv zeta.
  destruct (RLIM_NLIMITS <=? resource); [intros [= _ _ <-] t; apply lowered_same|].
  destruct (negb (_ =? 0)) eqn:Href; [intros [= _ _ <-] t; apply lowered_same|].
  destruct new as [n|]; [|intros [= _ _ <-] t; apply lowered_same].
  destruct (Z.ltb_spec (rlim_max n) (rlim_cur n)) as [|Hsoft]; [done|]. clear Href.
  rewrite Hcap, andb_true_r. destruct (Z.ltb_spec (rlim_max (pr_rlim (st tsk) !!! Z.to_nat resource)) (rlim_max n));
    [intros [= _ _ <-] t; apply lowered_same|].
  destruct (negb _); [intros [= _ _ <-] t; apply lowered_same|].
  intros [= _ _ <-] t. unfold update. destruct (Z.eqb_spec t tsk) as [->|Hne]; [|apply lowered_same].
  set (k := Z.to_nat resource) in *.
  assert (Hi : forall i, <[k := n]> (pr_rlim (st tsk)) !!! i = pr_rlim (st tsk) !!! i \/
    (i = k /\ <[k := n]> (pr_rlim (st tsk)) !!! i = n)).
  { intros i. destruct (decide (i = k)) as [->|Hik]; [|left; by rewrite list_lookup_total_insert_ne].
    destruct (decide (k < length (pr_rlim (st tsk)))%nat) as [Hlt|Hge].
    - right. by rewrite list_lookup_total_insert_eq.
    - left. by rewrite list_insert_ge by lia. }
  constructor; cbn; [done|apply length_insert|..|by right]; intros i; destruct (Hi i) as [-> |[-> ->]]; done || lia.
Qed.

(** The processes a caller may reach with [prlimit64]. *)
Definition reaches (st : system) (cur t : Z) : Prop :=
  t = cur \/ id_match (pr_cred (st cur)) (pr_cred (st t)) = true.

Lemma lowered_weaken cur t p p' (may may' : Prop) : (may -> may') -> lowered cur t p p' may -> lowered cur t p p' may'.
Proof. intros Hm [? ? ? ? Hc]. constructor; try done. destruct Hc; auto. Qed.

Lemma permission_reaches cur tsk flags st :
  ns_capable_resource e cur tsk = false ->
  check_prlimit_permission e cur tsk flags st = 0 -> reaches st cur tsk.
Proof.
  unfold check_prlimit_permission, reaches. intros Hns.
  destruct (Z.eqb_spec cur tsk) as [->|]; [by left|]. rewrite Hns, andb_true_r.
  destruct (id_match _ _) eqn:Hid; [by right|done].
Qed.

Lemma run_call_lowers c st :
  capable_resource e (caller c) = false -> (forall t, ns_capable_resource e (caller c) t = false) ->
  forall t, lowered (caller c) t (st t) (run_call e c st t) (reaches st (caller c) t).
Proof.
  intros Hcap Hns t. destruct c as [cur resource ptr|cur resource ptr new|cur resource ptr r32|cur pid resource new old];
    cbn [caller run_call] in *.
  - apply lowered_same.
  - unfold sys_setrlimit. destruct (negb _); [apply lowered_same|].
    destruct (do_prlimit _ _ _ _ _ _ _) as [[ret o] st'] eqn:Hd. cbn [snd].
    eapply lowered_weaken; [|by eapply do_prlimit_lowers]. by left.
  - unfold compat_setrlimit. destruct (negb _); [apply lowered_same|].
    destruct (do_prlimit _ _ _ _ _ _ _) as [[ret o] st'] eqn:Hd. cbn [snd].
    eapply lowered_weaken; [|by eapply do_prlimit_lowers]. by left.
  - unfold sys_prlimit64. cbv zeta. destruct (match new with Some _ => _ | None => _ end); [apply lowered_same|].
    destruct (if pid =? 0 then _ else _) as [tsk|]; [|apply lowered_same].
    match goal with |- context [check_prlimit_permission e cur tsk ?f st] => set (fl := f) end.
    destruct (Z.eqb_spec (check_prlimit_permission e cur tsk fl st) 0) as [Hperm|]; cbn [negb]; [|apply lowered_same].
    destruct (do_prlimit _ _ _ _ _ _ _) as [[ret o] st'] eqn:Hd.
    assert (Hl : lowered cur t (st t) (st' t) (reaches st cur t)).
    { eapply lowered_weaken; [|by eapply do_prlimit_lowers]. intros ->. by eapply permission_reaches. }
    destruct old as [ptr|], o as [o|]; cbn [snd]; try done. destruct (ret =? 0); [|done].
    by destruct (put _ _ _ _).
Qed.

(** C38.  Without the resource capability, no history of [setrlimit], its 32-bit form and
    [prlimit64] calls raises a hard limit or pushes a soft limit above its hard limit, in
    any process; and a process that is no caller, and whose ids do not all match the ids
    of some caller, keeps its limits and its CPU timer. *)
Theorem unprivileged_limits_fall cs st :
  Forall (fun c => capable_resource e (caller c) = false /\
                   forall t, ns_capable_resource e (caller c) t = false) cs ->
  forall t,
    (forall i, hard (run_calls e cs st) t i <= hard st t i) /\
    (forall i, soft st t i <= hard st t i -> soft (run_calls e cs st) t i <= hard (run_calls e cs st) t i) /\
    (Forall (fun c => ~ reaches st (caller c) t) cs -> run_calls e cs st t = st t).
Proof.
  intros Hcs t. revert st. induction Hcs as [|c cs [Hcap Hns] _ IH]; intros st; [done|].
  change (run_calls e (c :: cs) st) with (run_calls e cs (run_call e c st)).
  pose proof (run_call_lowers c st Hcap Hns) as Hl. destruct (IH (run_call e c st)) as (IH1 & IH2 & IH3).
  pose proof (Hl t) as [_ _ Hh Hs Hm]. split_and!.
  - intros i. specialize (IH1 i). specialize (Hh i). unfold hard in *. lia.
  - intros i Hi. apply IH2. by apply Hs.
  - intros [Hc Hcs']%Forall_cons. destruct Hm as [Heq|Hm]; [|done]. rewrite IH3; [done|].
    eapply Forall_impl; [done|]. intros d Hd Hr. apply Hd. unfold reaches in *.
    by rewrite (lw_cred _ _ _ _ _ (Hl (caller d))), (lw_cred _ _ _ _ _ (Hl t)) in Hr.
Qed.

End spec.

(** *** Process 1 lowers a limit of its neighbour and then tries to raise it *)

Definition rlimit_env0 : rlimit_env := {|
  capable_resource := fun _ => false; ns_capable_resource := fun _ _ => false;
  security_task_setrlimit := fun _ _ _ => 0; security_task_prlimit := fun _ _ _ => 0;
  sysctl_nr_open := 1048576; posix_timers := true;
  find_task_by_vpid := fun p => if p =? 0 then None else Some p; rl_ua := ua_ok |}.

Definition cred_of (u : Z) : cred := Cred u u u u u u u u u 0 0.

(** Processes 1 and 2 belong to user 1000, all others to root. *)
Definition system0 : system := fun t =>
  Proc (cred_of (if (t =? 1) || (t =? 2) then 1000 else 0)) (replicate 16 (MkRlimit 1024 4096)) None.

Definition calls0 : list call :=
  [CallPrlimit64 1 2 7 (Some (0, MkRlimit 100 2000)) (Some 64);
   CallPrlimit64 1 2 7 (Some (0, MkRlimit 100 4096)) None;
   CallPrlimit64 1 3 7 (Some (0, MkRlimit 0 0)) None; CallSetrlimit 1 0 0 (MkRlimit 5 5)].

Example calls0_result :
  let st := run_calls rlimit_env0 calls0 system0 in
  hard st 2 7 = 2000 /\ hard st 3 7 = 4096 /\ pr_cpu_timer (st 1) = Some 5.
Proof. by vm_compute. Qed.

Lemma unprivileged_limits_fall_witness :
  let st := run_calls rlimit_env0 calls0 system0 in
  (forall i, hard st 2 i <= hard system0 2 i) /\
  (forall i, soft system0 2 i <= hard system0 2 i -> soft st 2 i <= hard st 2 i) /\
  (Forall (fun c => ~ reaches system0 (caller c) 2) calls0 -> st 2 = system0 2).
Proof. apply (unprivileged_limits_fall rlimit_env0 calls0 system0). repeat constructor. Defined.

End Rlimit.
