(* ===== verification/UsageStats.v ===== *)
(** * Memory usage calls and tamalloc (Proyecto2)

    [kernel/usac/pidstats.c] and [pidstatsv2.c] (the same call with two ways to score a
    process), [globalstats.c] and [tamalloc.c].  The process list, [find_task_by_vpid],
    [get_mm_rss], [oom_badness] and [vm_mmap] are kernel code outside the repository:
    a task record carries the values the calls read, and the functions are arguments. *)
From S2P Require Import Prelude.

Module UsageStats.

(** The part of [mm_struct] and [task_struct] the calls read: [rss] is the value of
    [get_mm_rss]. *)
Record mm_view := { total_vm : Z; rss : Z }.
Record task := { pid : Z; mm : option mm_view; signal_adj : option Z }.

Record mem_usage_stats := {
  st_pid : Z; vmsize : Z; vmrss : Z; oom_score : Z; committed_percent : Z
}.

Definition sizeof_mem_usage_stats : Z := 32.

(** The process list in the order of [for_each_process], and the pid lookup. *)
Record proc_env := {
  processes : list task;
  find_task_by_vpid : Z -> option task;
  ua : uaccess
}.

(** One record of the answer.  Scoring may raise a divide error: [None]. *)
Definition task_stats (score : task -> option Z) (t : task) : option mem_usage_stats :=
  let '(size, rs, percent) :=
    match mm t with
    | Some m =>
        let vmsize := (total_vm m <<u PAGE_SHIFT) / 1024 in
        let vmrss := (rss m <<u PAGE_SHIFT) / 1024 in
        (vmsize, vmrss, if 0 <? vmsize then i32 ((vmrss *u 100) / vmsize) else 0)
    | None => (0, 0, 0)
    end in
  match score t with
  | None => None
  | Some s => Some {| st_pid := pid t; vmsize := size; vmrss := rs;
                      oom_score := s; committed_percent := percent |}
  end.

(** What the call leaves: its return value and the records written to the user array,
    the [i]-th at [&buffer[i]].  A record written before a failing copy stays. *)
Definition outcome : Type := option (Z * list mem_usage_stats).

(** The loop over [for_each_process]; [count] records are already written. *)
Fixpoint scan_processes (e : proc_env) (score : task -> option Z) (buffer max_entries count : Z)
    (ts : list task) : outcome :=
  match ts with
  | [] => Some (count, [])
  | t :: ts' =>
      if max_entries <=? count then Some (count, [])
      else
        match task_stats score t with
        | None => None
        | Some stats =>
            if negb (copy_to_user (ua e) (buffer +u (count *u sizeof_mem_usage_stats))
                       sizeof_mem_usage_stats =? 0)
            then Some (- EFAULT, [])
            else
              match scan_processes e score buffer max_entries (count +u 1) ts' with
              | Some (r, written) => Some (r, stats :: written)
              | None => None
              end
        end
  end.

Definition get_memory_usage_stats (e : proc_env) (score : task -> option Z)
    (p buffer max_entries : Z) : outcome :=
  if (p <? 0) || (buffer =? 0) || (max_entries <=? 0) then Some (- EINVAL, [])
  else if p =? 0 then scan_processes e score buffer max_entries 0 (processes e)
  else
    match find_task_by_vpid e p with
    | None => Some (- ESRCH, [])
    | Some t =>
        match task_stats score t with
        | None => None
        | Some stats =>
            if negb (copy_to_user (ua e) buffer sizeof_mem_usage_stats =? 0)
            then Some (- EFAULT, [])
            else Some (1, [stats])
        end
    end.

(** [pidstats.c]: the score is [oom_badness(task, 0)], a [long] stored in an [int]. *)
Definition julioz_get_memory_usage_stats_v1 (oom_badness : task -> Z -> Z) (e : proc_env) :=
  get_memory_usage_stats e (fun t => Some (i32 (oom_badness t 0))).

(** [pidstatsv2.c]: the module's own score.  The quotient of two [unsigned long]s is
    stored in an [int], the adjustment is added as a [long] and stored back. *)
Definition calculate_oom_score (totalram_pages total_swap_pages : Z) (t : task) : option Z :=
  let rs := match mm t with Some m => rss m | None => 0 end in
  let totalpages := totalram_pages +u total_swap_pages in
  let adj := match signal_adj t with Some a => a | None => 0 end in
  if totalpages =? 0 then None
  else
    let score := i32 ((rs *u 1000) / totalpages) in
    let score := i32 (score + adj) in
    Some (if score <? 0 then 0 else if 1000 <? score then 1000 else score).

Definition julioz_get_memory_usage_stats_v2 (totalram_pages total_swap_pages : Z) (e : proc_env) :=
  get_memory_usage_stats e (calculate_oom_score totalram_pages total_swap_pages).

(** ** globalstats.c *)

Record global_mem_stats := { total_reserved_mb : Z; total_committed_mb : Z }.

Definition add_process (stats : global_mem_stats) (t : task) : global_mem_stats :=
  match mm t with
  | Some m =>
      {| total_reserved_mb :=
           total_reserved_mb stats +u ((total_vm m <<u PAGE_SHIFT) / (1024 * 1024));
         total_committed_mb :=
           total_committed_mb stats +u ((rss m <<u PAGE_SHIFT) / (1024 * 1024)) |}
  | None => stats
  end.

Definition julioz_get_global_memory_usage_stats (e : proc_env) (user_stats : Z)
    : Z * option global_mem_stats :=
  let stats := foldl add_process {| total_reserved_mb := 0; total_committed_mb := 0 |}
                     (processes e) in
  if negb (copy_to_user (ua e) user_stats 16 =? 0) then (- EFAULT, None) else (0, Some stats).

(** ** tamalloc.c *)

Definition PROT_READ : Z := 1.
Definition PROT_WRITE : Z := 2.
Definition MAP_PRIVATE : Z := 2.
Definition MAP_ANONYMOUS : Z := 32.
Definition MAP_NORESERVE : Z := 16384.

(** [vm_mmap] works on an address space [S]: address, length, protection, flags and
    offset give the result and the new address space. *)
Definition julioz_tamalloc {S} (vm_mmap : Z -> Z -> Z -> Z -> Z -> S -> Z * S) (size : Z) (s : S)
    : Z * S :=
  if size =? 0 then (- EINVAL, s)
  else
    let aligned_size := PAGE_ALIGN size in
    if aligned_size =? 0 then (- ENOMEM, s)
    else
      let '(addr, s') := vm_mmap 0 aligned_size (Z.lor PROT_READ PROT_WRITE)
                           (Z.lor (Z.lor MAP_PRIVATE MAP_ANONYMOUS) MAP_NORESERVE) 0 s in
      if IS_ERR_VALUE addr then (i64 addr, s') else (i64 addr, s').

(** ** Properties *)

(** Whether the copy of the [i]-th record succeeds. *)
Definition slot_ok (e : proc_env) (buffer : Z) (i : nat) : bool :=
  copy_to_user (ua e) (buffer +u (Z.of_nat i *u sizeof_mem_usage_stats)) sizeof_mem_usage_stats =? 0.

(** The result of a scan that is asked for at most [m] further records after [k]: [n]
    records are written, and it stops because the list or the array ends, or at the first
    slot that cannot be written. *)
Record scan_result (e : proc_env) (score : task -> option Z) (buffer : Z) (m k : nat)
    (ts : list task) (r : Z) (written : list mem_usage_stats) : Prop := {
  scan_records : Some <$> written = task_stats score <$> take (length written) ts;
  scan_slots : forall i, (i < length written)%nat -> slot_ok e buffer (k + i) = true;
  scan_ends :
    (r = Z.of_nat (k + length written) /\ length written = Nat.min m (length ts)) \/
    (r = - EFAULT /\ (length written < Nat.min m (length ts))%nat /\
     slot_ok e buffer (k + length written) = false)
}.

Lemma scan_processes_result e score buffer max ts k :
  (forall t, is_Some (score t)) ->
  0 <= max < 2 ^ 64 -> Z.of_nat k <= max -> Z.of_nat k + Z.of_nat (length ts) < 2 ^ 64 ->
  exists r written, scan_processes e score buffer max (Z.of_nat k) ts = Some (r, written) /\
    scan_result e score buffer (Z.to_nat (max - Z.of_nat k)) k ts r written.
Proof.
  intros Hscore Hmax. revert k. induction ts as [|t ts IH]; intros k Hk Hlen; cbn [scan_processes].
  { exists (Z.of_nat k), []. split; [done|]. constructor; cbn; [done|lia|].
    left. rewrite Nat.add_0_r, Nat.min_0_r. done. }
  destruct (Z.leb_spec max (Z.of_nat k)) as [Hfull|Hroom].
  { exists (Z.of_nat k), []. split; [done|]. constructor; cbn; [done|lia|].
    left. rewrite Nat.add_0_r. split; [done|]. lia. }
  destruct (task_stats score t) as [stats|] eqn:Hst; cycle 1.
  { destruct (Hscore t) as [s Hs]. unfold task_stats in Hst. rewrite Hs in Hst.
    by destruct (mm t). }
  fold (slot_ok e buffer k). destruct (slot_ok e buffer k) eqn:Hslot; cbn [negb]; cycle 1.
  { exists (- EFAULT), []. split; [done|]. constructor; cbn; [done|lia|].
    right. rewrite Nat.add_0_r. split_and!; [done|lia|done]. }
  cbn [length] in Hlen. rewrite u64_small by lia.
  replace (Z.of_nat k + 1) with (Z.of_nat (S k)) by lia.
  destruct (IH (S k)) as (r & w & -> & [Hrec Hsl Hend]); [lia..|].
  exists r, (stats :: w). split; [done|]. constructor; cbn.
  - by rewrite Hrec, Hst.
  - intros [|i] Hi; [by rewrite Nat.add_0_r|]. rewrite <- Nat.add_succ_comm. apply Hsl. lia.
  - rewrite <- Nat.add_succ_comm. destruct Hend as [[-> Hn]|(-> & Hn & Hbad)]; [left|right].
    + split; [done|]. lia.
    + split_and!; [done|lia|done].
Qed.

(** C39.  The scan over all processes: for a score that is defined, the call writes the
    records of the first processes in list order into consecutive slots, never past
    [max_entries], returns their number, and fails only at a slot that cannot be
    written. *)
Theorem all_processes_reported e score buffer max_entries :
  (forall t, is_Some (score t)) ->
  buffer <> 0 -> 0 < max_entries < 2 ^ 64 -> Z.of_nat (length (processes e)) < 2 ^ 64 ->
  exists r written,
    get_memory_usage_stats e score 0 buffer max_entries = Some (r, written) /\
    scan_result e score buffer (Z.to_nat max_entries) 0 (processes e) r written.
Proof.
  intros Hscore Hb Hmax Hlen. unfold get_memory_usage_stats.
  rewrite (proj2 (Z.eqb_neq _ _) Hb). rewrite (proj2 (Z.leb_gt _ _)) by lia. cbn [orb Z.ltb Z.eqb].
  destruct (scan_processes_result e score buffer max_entries (processes e) 0)
    as (r & w & Hrun & Hres); [done|lia|lia|cbn; lia|].
  rewrite Z.sub_0_r in Hres. by exists r, w.
Qed.

Lemma pages_to_kb x : 0 <= x < 2 ^ 50 -> (x <<u PAGE_SHIFT) / 1024 = 4 * x.
Proof.
  intros Hx. unfold PAGE_SHIFT. rewrite Z.shiftl_mul_pow2, u64_small by lia.
  replace (x * 2 ^ 12) with ((4 * x) * 1024) by lia. by apply Z.div_mul.
Qed.

(** For a process whose resident set is part of its address space, the record gives
    both sizes in KB exactly and the resident share as a percentage rounded down,
    between 0 and 100. *)
Theorem committed_percent_spec score t m stats :
  mm t = Some m -> 0 <= rss m <= total_vm m -> total_vm m < 2 ^ 50 ->
  task_stats score t = Some stats ->
  vmsize stats = 4 * total_vm m /\ vmrss stats = 4 * rss m /\
  committed_percent stats = (if total_vm m =? 0 then 0 else 100 * rss m / total_vm m) /\
  0 <= committed_percent stats <= 100.
Proof.
  intros Hmm Hrss Hvm Hst. unfold task_stats in Hst. rewrite Hmm in Hst.
  rewrite !pages_to_kb in Hst by lia. rewrite (u64_small (4 * rss m * 100)) in Hst by lia.
  destruct (score t); [|done]. injection Hst as <-. cbn [vmsize vmrss committed_percent].
  split; [done|]. split; [done|].
  destruct (Z.eqb_spec (total_vm m) 0) as [->|Hne].
  { change (0 <? 4 * 0) with false. cbv iota. lia. }
  rewrite (proj2 (Z.ltb_lt 0 _)) by lia.
  replace (4 * rss m * 100) with (100 * rss m * 4) by lia.
  rewrite (Z.mul_comm 4 (total_vm m)), Z.div_mul_cancel_r by lia.
  assert (0 <= 100 * rss m / total_vm m <= 100).
  { split; [apply Z.div_pos; lia|apply Z.div_le_upper_bound; lia]. }
  rewrite i32_small; [done|]. unfold is_i32. lia.
Qed.

(** The score of [pidstatsv2.c] is defined whenever the machine has memory, lies in
    0..1000 whatever its inputs (also when the 64-bit product or the [int] sum wraps),
    and for a resident set that fits in memory and the kernel's adjustment range is the
    resident share in thousandths plus the adjustment, clamped. *)
Theorem oom_score_clamped ram swap t :
  u64 (ram + swap) <> 0 ->
  exists s, calculate_oom_score ram swap t = Some s /\ 0 <= s <= 1000 /\
    (forall m adj, mm t = Some m -> signal_adj t = Some adj ->
       0 <= ram -> 0 <= swap -> ram + swap < 2 ^ 52 ->
       0 <= rss m <= ram + swap -> -1000 <= adj <= 1000 ->
       s = Z.max 0 (Z.min 1000 (1000 * rss m / (ram + swap) + adj))).
Proof.
  intros Hnz. unfold calculate_oom_score. rewrite (proj2 (Z.eqb_neq _ _) Hnz).
  eexists. split; [done|]. split; [repeat case_match; lia|].
  intros m adj -> -> Hram Hswap Hb Hrss Hadj.
  rewrite (u64_small (ram + swap)) in Hnz by lia.
  rewrite (u64_small (ram + swap)), (u64_small (rss m * 1000)) by lia.
  rewrite (Z.mul_comm (rss m)). set (q := 1000 * rss m / (ram + swap)).
  assert (0 <= q <= 1000).
  { split; [apply Z.div_pos; lia|apply Z.div_le_upper_bound; lia]. }
  rewrite (i32_small q) by (unfold is_i32; lia).
  rewrite i32_small by (unfold is_i32; lia). clearbody q. repeat case_match; lia.
Qed.

(** The exact number of pages mapped and resident over a list of processes. *)
Definition sum_pages (f : mm_view -> Z) (ts : list task) : Z :=
  foldr (fun t n => match mm t with Some m => f m | None => 0 end + n) 0 ts.

Definition pages_ok (f : mm_view -> Z) (ts : list task) : Prop :=
  Forall (fun t => match mm t with Some m => 0 <= f m < 2 ^ 52 | None => True end) ts.

Lemma pages_to_mb x : 0 <= x < 2 ^ 52 ->
  ((x <<u PAGE_SHIFT) / (1024 * 1024)) = x / 256.
Proof.
  intros Hx. unfold PAGE_SHIFT. rewrite Z.shiftl_mul_pow2, u64_small by lia.
  change (1024 * 1024) with (256 * 2 ^ 12). rewrite Z.div_mul_cancel_r; lia.
Qed.

Lemma sum_pages_nonneg f ts : pages_ok f ts -> 0 <= sum_pages f ts.
Proof.
  induction 1 as [|t ts Ht _ IH]; cbn; [done|]. fold (sum_pages f ts). case_match; lia.
Qed.

(** The accumulated field over the remaining processes: each adds its whole megabytes. *)
Lemma mb_accumulates (f : mm_view -> Z) (field : global_mem_stats -> Z) ts acc :
  (forall a t, field (add_process a t) =
     match mm t with Some m => field a +u ((f m <<u PAGE_SHIFT) / (1024 * 1024)) | None => field a end) ->
  pages_ok f ts -> 0 <= field acc -> field acc + sum_pages f ts < 2 ^ 64 ->
  field acc + (sum_pages f ts - 255 * Z.of_nat (length ts)) / 256 <= field (foldl add_process acc ts)
    <= field acc + sum_pages f ts / 256.
Proof.
  intros Hf. revert acc. induction ts as [|t ts IH]; intros acc Hok Hacc Hb; cbn [foldl].
  { change (sum_pages f []) with 0. cbn [length Z.of_nat]. Z.to_euclidean_division_equations. lia. }
  apply Forall_cons in Hok as [Ht Hok]. pose proof (sum_pages_nonneg _ _ Hok) as Hpos.
  specialize (IH (add_process acc t) Hok). rewrite Hf in IH.
  cbn [sum_pages foldr] in *. fold (sum_pages f ts) in *. cbn [length].
  destruct t as [tp [m|] ta]; cbn [mm] in *.
  - rewrite pages_to_mb in IH by done.
    rewrite u64_small in IH by (Z.to_euclidean_division_equations; lia).
    Z.to_euclidean_division_equations; lia.
  - Z.to_euclidean_division_equations; lia.
Qed.

(** The global call adds up whole megabytes per process: the reported totals never
    exceed the true totals in MB, and fall short of them by less than one MB per
    process. *)
Theorem global_totals_rounded e user_stats :
  let ts := processes e in
  copy_to_user (ua e) user_stats 16 = 0 ->
  pages_ok total_vm ts -> pages_ok rss ts ->
  sum_pages total_vm ts < 2 ^ 64 -> sum_pages rss ts < 2 ^ 64 ->
  exists st, julioz_get_global_memory_usage_stats e user_stats = (0, Some st) /\
    (sum_pages total_vm ts - 255 * Z.of_nat (length ts)) / 256
      <= total_reserved_mb st <= sum_pages total_vm ts / 256 /\
    (sum_pages rss ts - 255 * Z.of_nat (length ts)) / 256
      <= total_committed_mb st <= sum_pages rss ts / 256.
Proof.
  cbn zeta. intros Hcp Hv Hr Hbv Hbr. unfold julioz_get_global_memory_usage_stats.
  rewrite Hcp. change (negb (0 =? 0)) with false. cbv iota.
  eexists. split; [done|]. split.
  - apply (mb_accumulates total_vm total_reserved_mb
      (processes e) {| total_reserved_mb := 0; total_committed_mb := 0 |}); [|done..].
    intros a t. unfold add_process. by destruct (mm t).
  - apply (mb_accumulates rss total_committed_mb
      (processes e) {| total_reserved_mb := 0; total_committed_mb := 0 |}); [|done..].
    intros a t. unfold add_process. by destruct (mm t).
Qed.

(** [tamalloc] on every size: zero is [-EINVAL]; a size within a page of 2^64 is
    [-ENOMEM]; any other size is one call of [vm_mmap] for the smallest page multiple
    that holds it, private, anonymous and unreserved, whose result (address or error) is
    returned.  The address space changes only through that call. *)
Theorem tamalloc_spec {S} (vm_mmap : Z -> Z -> Z -> Z -> Z -> S -> Z * S) size s :
  0 <= size < 2 ^ 64 ->
  (size = 0 -> julioz_tamalloc vm_mmap size s = (- EINVAL, s)) /\
  (2 ^ 64 - PAGE_SIZE < size -> julioz_tamalloc vm_mmap size s = (- ENOMEM, s)) /\
  (0 < size <= 2 ^ 64 - PAGE_SIZE -> exists len,
     size <= len < size + PAGE_SIZE /\ len mod PAGE_SIZE = 0 /\
     let '(addr, s') := vm_mmap 0 len 3 16418 0 s in
     julioz_tamalloc vm_mmap size s = (i64 addr, s')).
Proof.
  intros Hsize. unfold julioz_tamalloc. split_and!.
  - intros ->. done.
  - intros Hbig. unfold PAGE_SIZE in Hbig. rewrite (proj2 (Z.eqb_neq size 0)) by lia.
    rewrite PAGE_ALIGN_wraps by (unfold PAGE_SIZE; lia). done.
  - intros Hok. exists (PAGE_ALIGN size).
    destruct (PAGE_ALIGN_bounds size) as [Hal Hmod]; [lia|]. split; [done|]. split; [done|].
    rewrite (proj2 (Z.eqb_neq size 0)) by lia.
    rewrite (proj2 (Z.eqb_neq (PAGE_ALIGN size) 0)) by lia.
    change (Z.lor PROT_READ PROT_WRITE) with 3.
    change (Z.lor (Z.lor MAP_PRIVATE MAP_ANONYMOUS) MAP_NORESERVE) with 16418.
    destruct (vm_mmap 0 (PAGE_ALIGN size) 3 16418 0 s) as [addr s'].
    by destruct (IS_ERR_VALUE addr).
Qed.

(** *** Concrete runs *)

Definition shell : task :=
  {| pid := 7; mm := Some {| total_vm := 1000; rss := 300 |}; signal_adj := Some 0 |}.
Definition kthread : task := {| pid := 2; mm := None; signal_adj := Some (-1000) |}.
Definition two_procs : proc_env :=
  {| processes := [kthread; shell]; find_task_by_vpid := fun p => if p =? 7 then Some shell else None;
     ua := ua_ok |}.

Lemma all_processes_reported_witness :
  exists r written,
    get_memory_usage_stats two_procs (fun _ => Some 5) 0 4096 1 = Some (r, written) /\
    scan_result two_procs (fun _ => Some 5) 4096 1 0 [kthread; shell] r written.
Proof. apply (all_processes_reported two_procs (fun _ => Some 5) 4096 1); [done|lia|lia|done]. Defined.

Lemma committed_percent_spec_witness :
  vmsize {| st_pid := 7; vmsize := 4000; vmrss := 1200; oom_score := 5; committed_percent := 30 |}
    = 4 * 1000 /\ 1200 = 4 * 300 /\ 30 = 100 * 300 / 1000 /\ 0 <= 30 <= 100.
Proof.
  apply (committed_percent_spec (fun _ => Some 5) shell {| total_vm := 1000; rss := 300 |}
    {| st_pid := 7; vmsize := 4000; vmrss := 1200; oom_score := 5; committed_percent := 30 |});
    [reflexivity|cbn; lia|cbn; lia|vm_compute; reflexivity].
Defined.

Lemma oom_score_clamped_witness :
  exists s, calculate_oom_score 500 100 shell = Some s /\ 0 <= s <= 1000 /\
    (forall m adj, mm shell = Some m -> signal_adj shell = Some adj ->
       0 <= 500 -> 0 <= 100 -> 500 + 100 < 2 ^ 52 ->
       0 <= rss m <= 500 + 100 -> -1000 <= adj <= 1000 ->
       s = Z.max 0 (Z.min 1000 (1000 * rss m / (500 + 100) + adj))).
Proof. apply (oom_score_clamped 500 100 shell). done. Defined.

Lemma global_totals_rounded_witness :
  exists st, julioz_get_global_memory_usage_stats two_procs 4096 = (0, Some st) /\
    1 <= total_reserved_mb st <= 3 /\ -1 <= total_committed_mb st <= 1.
Proof.
  apply (global_totals_rounded two_procs 4096); cbn; [done| | |lia|lia];
    repeat constructor; cbn; lia.
Defined.

Lemma tamalloc_spec_witness :
  exists len, 5000 <= len < 5000 + PAGE_SIZE /\ len mod PAGE_SIZE = 0 /\
    julioz_tamalloc (fun _ n _ _ _ s => (65536, s + n)) 5000 0 = (65536, 0 + len).
Proof.
  apply (tamalloc_spec (fun _ n _ _ _ s => (65536, s + n)) 5000 0); unfold PAGE_SIZE; lia.
Defined.

End UsageStats.
