(* ===== verification/Sysinfo.v ===== *)
(** * Memory statistics of the whole system (kernel/sys.c)

    [do_sysinfo] with its native and compat system calls, and Proyecto1's
    [julioz_capture_memory_snapshot], which reads the same [struct sysinfo] (the copy
    in [kernel/usac/syscall1.c] is the same code).  The functions that fill a
    [struct sysinfo] ([si_meminfo], [si_swapinfo], [get_avenrun], the boot clock) and
    the node statistics live in mm/ and kernel/time: they are the fields of
    [stat_env]. *)
From S2P Require Import Prelude.

Module Sysinfo.

(** ** Data *)

Record sysinfo := {
  uptime : Z;                        (* long *)
  loads : Z * Z * Z;
  totalram : Z; freeram : Z; sharedram : Z; bufferram : Z;     (* unsigned long *)
  totalswap : Z; freeswap : Z;
  procs : Z;                         (* u16 *)
  totalhigh : Z; freehigh : Z;
  mem_unit : Z                       (* unsigned int *)
}.

Definition zero_sysinfo : sysinfo := {|
  uptime := 0; loads := (0, 0, 0); totalram := 0; freeram := 0; sharedram := 0;
  bufferram := 0; totalswap := 0; freeswap := 0; procs := 0; totalhigh := 0;
  freehigh := 0; mem_unit := 0
|}.

(** The [enum node_stat_item] values the file reads. *)
Inductive node_stat_item := NR_ACTIVE_ANON | NR_ACTIVE_FILE | NR_FILE_PAGES.

Record stat_env := {
  si_meminfo : sysinfo -> sysinfo;       (* writes the memory fields of its argument *)
  si_swapinfo : sysinfo -> sysinfo;      (* writes the swap fields of its argument *)
  boottime : Z * Z;                      (* tv_sec, tv_nsec of the boot clock *)
  avenrun : Z * Z * Z;
  nr_threads : Z;
  global_node_page_state : node_stat_item -> Z;     (* pages *)
  total_swapcache_pages : Z;
  st_user : uaccess
}.

(** ** [do_sysinfo] *)

(** The overflow test of [do_sysinfo]: double [mem_total] once per halving of
    [mem_unit], and give up when a doubling wraps ([goto out]).  [Some (Some b)] is a
    normal exit with [bitcount = b], [Some None] the give-up exit, [None] a loop that
    is still running after [fuel] rounds. *)
Fixpoint unit_shift (fuel : nat) (mem_unit mem_total bitcount : Z) : option (option Z) :=
  if mem_unit <=? 1 then Some (Some bitcount)
  else match fuel with
  | O => None
  | S fuel =>
    let sav_total := mem_total in
    let mem_total := mem_total <<u 1 in
    if mem_total <? sav_total then Some None
    else unit_shift fuel (mem_unit >>u 1) mem_total (bitcount + 1)
  end.

(** A [u32] is at most 1 after 31 halvings. *)
Definition unit_fuel : nat := 31.

(** The structure as the two [si_] functions leave it. *)
Definition filled_sysinfo (e : stat_env) : sysinfo :=
  let '(tv_sec, tv_nsec) := boottime e in
  let info := {|
    uptime := i64 (tv_sec + (if negb (tv_nsec =? 0) then 1 else 0));
    loads := avenrun e; totalram := 0; freeram := 0; sharedram := 0; bufferram := 0;
    totalswap := 0; freeswap := 0; procs := nr_threads e mod 2 ^ 16; totalhigh := 0;
    freehigh := 0; mem_unit := 0 |} in
  si_swapinfo e (si_meminfo e info).

(** Multiply every memory field by the unit and set the unit to 1. *)
Definition scale_up (bitcount : Z) (info : sysinfo) : sysinfo := {|
  uptime := uptime info; loads := loads info;
  totalram := totalram info <<u bitcount;
  freeram := freeram info <<u bitcount;
  sharedram := sharedram info <<u bitcount;
  bufferram := bufferram info <<u bitcount;
  totalswap := totalswap info <<u bitcount;
  freeswap := freeswap info <<u bitcount;
  procs := procs info;
  totalhigh := totalhigh info <<u bitcount;
  freehigh := freehigh info <<u bitcount;
  mem_unit := 1
|}.

Definition do_sysinfo (e : stat_env) : sysinfo :=
  let info := filled_sysinfo e in
  let mem_total := totalram info +u totalswap info in
  if (mem_total <? totalram info) || (mem_total <? totalswap info) then info else
  match unit_shift unit_fuel (mem_unit info) mem_total 0 with
  | Some (Some bitcount) => scale_up bitcount info
  | _ => info
  end.

(** What a handler returns and the object it wrote to user memory. *)
Definition sys_sysinfo (e : stat_env) (info : Z) : Z * option sysinfo :=
  let val := do_sysinfo e in
  if negb (copy_to_user (st_user e) info 112 =? 0) then (- EFAULT, None)
  else (0, Some val).

(** ** The 32-bit call *)

(** [while (s.mem_unit < PAGE_SIZE) { s.mem_unit <<= 1; bitcount++; }]: [None] when
    the loop is still running after [fuel] rounds. *)
Fixpoint page_unit (fuel : nat) (mem_unit bitcount : Z) : option (Z * Z) :=
  if PAGE_SIZE <=? mem_unit then Some (mem_unit, bitcount)
  else match fuel with
  | O => None
  | S fuel => page_unit fuel (u32 (Z.shiftl mem_unit 1)) (bitcount + 1)
  end.

(** [upper_32_bits(x)]. *)
Definition upper_32_bits (x : Z) : Z := u32 (Z.shiftr x 32).

(** The truncation of every field to its compat width. *)
Definition to_compat (s : sysinfo) : sysinfo :=
  let '(l0, l1, l2) := loads s in {|
    uptime := i32 (uptime s); loads := (u32 l0, u32 l1, u32 l2);
    totalram := u32 (totalram s); freeram := u32 (freeram s);
    sharedram := u32 (sharedram s); bufferram := u32 (bufferram s);
    totalswap := u32 (totalswap s); freeswap := u32 (freeswap s);
    procs := procs s; totalhigh := u32 (totalhigh s); freehigh := u32 (freehigh s);
    mem_unit := mem_unit s |}.

Definition compat_sys_sysinfo (e : stat_env) (info : Z) : option (Z * option sysinfo) :=
  let s := do_sysinfo e in
  let scaled :=
    if negb (upper_32_bits (totalram s) =? 0) || negb (upper_32_bits (totalswap s) =? 0)
    then match page_unit 12 (mem_unit s) 0 with
         | None => None
         | Some (mem_unit', bitcount) => Some {|
             uptime := uptime s; loads := loads s;
             totalram := totalram s >>u bitcount; freeram := freeram s >>u bitcount;
             sharedram := sharedram s >>u bitcount; bufferram := bufferram s >>u bitcount;
             totalswap := totalswap s >>u bitcount; freeswap := freeswap s >>u bitcount;
             procs := procs s;
             totalhigh := totalhigh s >>u bitcount; freehigh := freehigh s >>u bitcount;
             mem_unit := mem_unit' |}
         end
    else Some s in
  match scaled with
  | None => None
  | Some s =>
    if negb (copy_to_user (st_user e) info 64 =? 0) then Some (- EFAULT, None)
    else Some (0, Some (to_compat s))
  end.

(** ** Proyecto1: [julioz_capture_memory_snapshot] *)

Record mem_snapshot := {
  total_memory : Z; free_memory : Z; total_swap : Z; free_swap : Z;
  active_pages : Z; cached_pages : Z
}.

(** [stack] is the content of the uninitialised local [struct sysinfo]. *)
Definition julioz_capture_memory_snapshot (e : stat_env) (stack : sysinfo) (user_snapshot : Z)
    : Z * option mem_snapshot :=
  let sysinfo := si_meminfo e stack in
  let cached := global_node_page_state e NR_FILE_PAGES -u total_swapcache_pages e in
  let cached := if cached <? 0 then 0 else cached in
  let active := global_node_page_state e NR_ACTIVE_ANON +u
                global_node_page_state e NR_ACTIVE_FILE in
  let snapshot := {|
    total_memory := totalram sysinfo <<u (PAGE_SHIFT - 10);
    free_memory := freeram sysinfo <<u (PAGE_SHIFT - 10);
    total_swap := totalswap sysinfo <<u (PAGE_SHIFT - 10);
    free_swap := freeswap sysinfo <<u (PAGE_SHIFT - 10);
    active_pages := active <<u (PAGE_SHIFT - 10);
    cached_pages := cached <<u (PAGE_SHIFT - 10) |} in
  if negb (copy_to_user (st_user e) user_snapshot 48 =? 0) then (- EFAULT, None)
  else (0, Some snapshot).

(** ** The size-scaling loop *)

(** The loop is over within [fuel] rounds when [mem_unit < 2^(fuel+1)], and what it
    decides: with [k] halvings to go it exits normally iff [mem_total * 2^k] fits. *)
Lemma unit_shift_pow2 fuel k t b :
  (k <= fuel)%nat -> is_u64 t ->
  unit_shift fuel (2 ^ Z.of_nat k) t b =
    Some (if t * 2 ^ Z.of_nat k <? 2 ^ 64 then Some (b + Z.of_nat k) else None).
Proof.
  revert fuel t b. induction k as [|k IH]; intros fuel t b Hk Ht.
  - unfold is_u64 in Ht. assert (Hlt : t * 2 ^ Z.of_nat 0 <? 2 ^ 64 = true)
      by (apply Z.ltb_lt; simpl Z.of_nat; rewrite Z.pow_0_r; lia).
    rewrite Hlt, Z.add_0_r. by destruct fuel.
  - destruct fuel as [|fuel]; [lia|].
    assert (Hp : 0 < 2 ^ Z.of_nat k) by (apply Z.pow_pos_nonneg; lia).
    replace (2 ^ Z.of_nat (S k)) with (2 * 2 ^ Z.of_nat k)
      by (rewrite Nat2Z.inj_succ, Z.pow_succ_r; lia).
    cbn [unit_shift]. replace (2 * 2 ^ Z.of_nat k <=? 1) with false by lia.
    rewrite Z.shiftl_mul_pow2, Z.shiftr_div_pow2, !Z.pow_1_r by lia.
    rewrite (Z.mul_comm 2 (2 ^ Z.of_nat k)), Z.div_mul by lia.
    unfold is_u64 in Ht. destruct (Z.ltb_spec (u64 (t * 2)) t) as [Hw|Hw].
    + assert (2 ^ 64 <= t * 2) by word_lia. symmetry. f_equal.
      replace (t * (2 ^ Z.of_nat k * 2) <? 2 ^ 64) with false by nia. done.
    + assert (Hfit : u64 (t * 2) = t * 2) by word_lia.
      rewrite Hfit, IH by (unfold is_u64; word_lia).
      rewrite <- Z.mul_assoc, (Z.mul_comm 2), Nat2Z.inj_succ.
      destruct (_ <? _); [|done]. do 2 f_equal. lia.
Qed.

(** Every [u32] unit is handled within [unit_fuel] rounds. *)
Lemma unit_shift_total fuel u t b :
  0 <= u < 2 ^ (Z.of_nat fuel + 1) -> is_Some (unit_shift fuel u t b).
Proof.
  revert u t b. induction fuel as [|fuel IH]; intros u t b Hu; cbn [unit_shift].
  - replace (u <=? 1) with true by (simpl in Hu; lia). eauto.
  - destruct (u <=? 1) eqn:Hle; [eauto|]. destruct (_ <? _); [eauto|].
    apply IH. rewrite Z.shiftr_div_pow2, Z.pow_1_r by lia.
    replace (Z.of_nat (S fuel) + 1) with (Z.succ (Z.of_nat fuel + 1)) in Hu by lia.
    rewrite Z.pow_succ_r in Hu by lia. Z.to_euclidean_division_equations; lia.
Qed.

(** ** Properties of [do_sysinfo] *)

(** What the fill functions leave when the unit is a power of two, as on every Linux
    machine, and the counters are machine words with free <= total. *)
Record well_filled (i : sysinfo) (k : nat) : Prop := {
  wf_unit : mem_unit i = 2 ^ Z.of_nat k;
  wf_k : (k <= unit_fuel)%nat;
  wf_ram : is_u64 (totalram i);
  wf_swap : is_u64 (totalswap i);
  wf_free : 0 <= freeram i <= totalram i;
  wf_fswap : 0 <= freeswap i <= totalswap i
}.

Lemma shift_fits x y k :
  0 <= x <= y -> y * 2 ^ Z.of_nat k < 2 ^ 64 -> x <<u Z.of_nat k = x * 2 ^ Z.of_nat k.
Proof.
  intros Hx Hy. rewrite Z.shiftl_mul_pow2 by lia. apply u64_small.
  assert (0 < 2 ^ Z.of_nat k) by (apply Z.pow_pos_nonneg; lia). nia.
Qed.

Lemma do_sysinfo_eq e k :
  well_filled (filled_sysinfo e) k ->
  do_sysinfo e =
    let i := filled_sysinfo e in
    if (totalram i + totalswap i) * 2 ^ Z.of_nat k <? 2 ^ 64
    then scale_up (Z.of_nat k) i else i.
Proof.
  intros [Hu Hk Hr Hs _ _]. unfold do_sysinfo. cbn zeta.
  generalize dependent (filled_sysinfo e). intros i Hu Hr Hs.
  assert (Hp : 0 < 2 ^ Z.of_nat k) by (apply Z.pow_pos_nonneg; lia).
  unfold is_u64 in *.
  destruct (Z.ltb_spec (totalram i + totalswap i) (2 ^ 64)) as [Hsum|Hsum].
  - rewrite (u64_small (totalram i + totalswap i)) by lia.
    replace (_ || _) with false by lia.
    rewrite Hu, unit_shift_pow2 by (unfold is_u64; lia). by destruct (_ <? _).
  - replace (u64 (totalram i + totalswap i) <? totalram i) with true by word_lia.
    by replace ((totalram i + totalswap i) * 2 ^ Z.of_nat k <? 2 ^ 64) with false by nia.
Qed.

(** [do_sysinfo] reports the same number of bytes it was given: when the total of
    RAM and swap fits in 64 bits it multiplies the counters out and sets the unit to 1,
    otherwise it reports counters and unit as they are; either way counter times unit
    is unchanged, for the totals and for the free amounts. *)
Theorem do_sysinfo_bytes e k :
  well_filled (filled_sysinfo e) k ->
  let i := filled_sysinfo e in
  let o := do_sysinfo e in
  (if (totalram i + totalswap i) * 2 ^ Z.of_nat k <? 2 ^ 64
   then mem_unit o = 1 else o = i) /\
  Forall (fun f => f o * mem_unit o = f i * mem_unit i) [totalram; totalswap; freeram; freeswap].
Proof.
  intros Hwf. cbn zeta. rewrite (do_sysinfo_eq e k Hwf). cbn zeta.
  destruct Hwf as [Hu Hk Hr Hs Hfr Hfs]. unfold is_u64 in *.
  destruct (Z.ltb_spec ((totalram (filled_sysinfo e) + totalswap (filled_sysinfo e))
                          * 2 ^ Z.of_nat k) (2 ^ 64)) as [Hf|Hf]; (split; [done|]).
  - rewrite !Forall_cons, Forall_nil. simpl. rewrite ?Hu, !Z.mul_1_r.
    repeat split; eapply shift_fits; try done; lia.
  - by apply Forall_true.
Qed.

(** ** The 32-bit call *)

Lemma page_unit_one : page_unit 12 1 0 = Some (4096, 12).
Proof. reflexivity. Qed.

Lemma shift_within x b : 0 <= x -> 0 <= b ->
  (x >>u b) * 2 ^ b <= x < (x >>u b) * 2 ^ b + 2 ^ b.
Proof.
  intros Hx Hb. rewrite Z.shiftr_div_pow2 by done.
  pose proof (Z.div_mod x (2 ^ b)). pose proof (Z.mod_pos_bound x (2 ^ b)).
  assert (0 < 2 ^ b) by (apply Z.pow_pos_nonneg; lia). nia.
Qed.

(** The compat [sysinfo] of a machine with less than 2^44 bytes of RAM and of swap
    returns 32-bit totals that are exact up to one unit: no high bits are lost. *)
Theorem compat_sysinfo_precise e info :
  let s := do_sysinfo e in
  mem_unit s = 1 -> 0 <= totalram s < 2 ^ 44 -> 0 <= totalswap s < 2 ^ 44 ->
  copy_to_user (st_user e) info 64 = 0 ->
  exists c, compat_sys_sysinfo e info = Some (0, Some c) /\
    is_u32 (totalram c) /\ is_u32 (totalswap c) /\
    totalram c * mem_unit c <= totalram s < totalram c * mem_unit c + mem_unit c /\
    totalswap c * mem_unit c <= totalswap s < totalswap c * mem_unit c + mem_unit c.
Proof.
  cbn zeta. unfold compat_sys_sysinfo. generalize (do_sysinfo e). intros s Hu Hr Hs Hcp.
  rewrite Hcp, Hu, page_unit_one. change (negb (0 =? 0)) with false. cbv iota.
  destruct (_ || _) eqn:Hup; eexists; (split; [done|]);
    unfold to_compat; simpl; destruct (loads s) as [[l0 l1] l2]; simpl.
  - pose proof (shift_within (totalram s) 12). pose proof (shift_within (totalswap s) 12).
    rewrite !u32_small by lia. unfold is_u32. lia.
  - apply orb_false_iff in Hup as [Hu1 Hu2]. unfold upper_32_bits in *.
    rewrite Z.shiftr_div_pow2, u32_small in Hu1, Hu2
      by (rewrite ?Z.shiftr_div_pow2 by lia; Z.to_euclidean_division_equations; lia).
    assert (totalram s < 2 ^ 32 /\ totalswap s < 2 ^ 32) as [? ?]
      by (split; Z.to_euclidean_division_equations; lia).
    rewrite !u32_small, Hu by lia. unfold is_u32. lia.
Qed.

(** ** The snapshot *)

(** When no counter overflows, the snapshot reports RAM, active and cached memory in
    KB: four times the page counts. *)
Theorem snapshot_kilobytes e stack p :
  let i := si_meminfo e stack in
  let active := global_node_page_state e NR_ACTIVE_ANON +
                global_node_page_state e NR_ACTIVE_FILE in
  let cached := global_node_page_state e NR_FILE_PAGES - total_swapcache_pages e in
  Forall (fun n => 0 <= n < 2 ^ 62) [totalram i; freeram i; active; cached] ->
  copy_to_user (st_user e) p 48 = 0 ->
  exists s, julioz_capture_memory_snapshot e stack p = (0, Some s) /\
    total_memory s = 4 * totalram i /\ free_memory s = 4 * freeram i /\
    active_pages s = 4 * active /\ cached_pages s = 4 * cached.
Proof.
  cbn zeta. intros Hf Hc. unfold julioz_capture_memory_snapshot. rewrite Hc. change (negb (0 =? 0)) with false. cbv iota.
  rewrite !Forall_cons in Hf. destruct Hf as (H1 & H2 & H3 & H4 & _).
  eexists. split; [done|]. simpl. change (PAGE_SHIFT - 10) with 2.
  rewrite (u64_small (global_node_page_state e NR_ACTIVE_ANON + _)) by lia.
  rewrite (u64_small (global_node_page_state e NR_FILE_PAGES - _)) by lia.
  replace (_ <? 0) with false by lia.
  rewrite !Z.shiftl_mul_pow2, !u64_small by lia. lia.
Qed.

(** The swap fields of the snapshot are whatever the kernel stack held: the call
    never runs [si_swapinfo], and [si_meminfo] writes only memory fields. *)
Theorem snapshot_leaks_stack e stack p :
  (forall i, totalswap (si_meminfo e i) = totalswap i /\
             freeswap (si_meminfo e i) = freeswap i) ->
  copy_to_user (st_user e) p 48 = 0 ->
  exists s, julioz_capture_memory_snapshot e stack p = (0, Some s) /\
    total_swap s = u64 (4 * totalswap stack) /\ free_swap s = u64 (4 * freeswap stack).
Proof.
  intros Hm Hc. unfold julioz_capture_memory_snapshot. rewrite Hc. change (negb (0 =? 0)) with false. cbv iota.
  eexists. split; [done|]. simpl. destruct (Hm stack) as [-> ->].
  change (PAGE_SHIFT - 10) with 2. rewrite !Z.shiftl_mul_pow2 by lia.
  split; f_equal; lia.
Qed.

(** The clamp of [cached] at zero never acts, because [cached] is unsigned: with
    more swap-cache pages than file pages the snapshot reports a value close to 2^64. *)
Theorem snapshot_cached_wraps e stack p :
  let d := total_swapcache_pages e - global_node_page_state e NR_FILE_PAGES in
  0 < d < 2 ^ 61 -> copy_to_user (st_user e) p 48 = 0 ->
  exists s, julioz_capture_memory_snapshot e stack p = (0, Some s) /\
    cached_pages s = 2 ^ 64 - 4 * d.
Proof.
  cbn zeta. intros Hd Hc. unfold julioz_capture_memory_snapshot. rewrite Hc. change (negb (0 =? 0)) with false. cbv iota.
  eexists. split; [done|]. simpl. change (PAGE_SHIFT - 10) with 2.
  rewrite (u64_neg (_ - _)) by lia. replace (_ <? 0) with false by lia.
  rewrite Z.shiftl_mul_pow2 by lia. word_lia.
Qed.

(** ** Witnesses *)

(** 1000 pages of RAM, 100 free, 10 pages of swap. *)
Definition fill_mem (i : sysinfo) : sysinfo := {|
  uptime := uptime i; loads := loads i; totalram := 1000; freeram := 100;
  sharedram := 0; bufferram := 0; totalswap := totalswap i; freeswap := freeswap i;
  procs := procs i; totalhigh := 0; freehigh := 0; mem_unit := 4096 |}.
Definition fill_swap (i : sysinfo) : sysinfo := {|
  uptime := uptime i; loads := loads i; totalram := totalram i; freeram := freeram i;
  sharedram := sharedram i; bufferram := bufferram i; totalswap := 10; freeswap := 3;
  procs := procs i; totalhigh := totalhigh i; freehigh := freehigh i;
  mem_unit := mem_unit i |}.
Definition stat_env0 (swapcache : Z) : stat_env := {|
  si_meminfo := fill_mem; si_swapinfo := fill_swap; boottime := (99, 5);
  avenrun := (1, 2, 3); nr_threads := 40;
  global_node_page_state := fun i =>
    match i with NR_ACTIVE_ANON => 50 | NR_ACTIVE_FILE => 60 | NR_FILE_PAGES => 70 end;
  total_swapcache_pages := swapcache; st_user := ua_ok |}.

Lemma do_sysinfo_bytes_witness :
  mem_unit (do_sysinfo (stat_env0 5)) = 1 /\
  Forall (fun f => f (do_sysinfo (stat_env0 5)) * mem_unit (do_sysinfo (stat_env0 5)) =
                   f (filled_sysinfo (stat_env0 5)) * mem_unit (filled_sysinfo (stat_env0 5)))
    [totalram; totalswap; freeram; freeswap].
Proof.
  apply (do_sysinfo_bytes (stat_env0 5) 12).
  split; vm_compute; repeat split; try done; lia.
Defined.

Lemma compat_sysinfo_precise_witness :
  exists c, compat_sys_sysinfo (stat_env0 5) 4096 = Some (0, Some c) /\
    is_u32 (totalram c) /\ is_u32 (totalswap c) /\
    totalram c * mem_unit c <= 4096000 < totalram c * mem_unit c + mem_unit c /\
    totalswap c * mem_unit c <= 40960 < totalswap c * mem_unit c + mem_unit c.
Proof. apply (compat_sysinfo_precise (stat_env0 5) 4096); vm_compute; split; done. Defined.

Lemma snapshot_kilobytes_witness :
  exists s, julioz_capture_memory_snapshot (stat_env0 5) zero_sysinfo 4096 = (0, Some s) /\
    total_memory s = 4000 /\ free_memory s = 400 /\ active_pages s = 440 /\
    cached_pages s = 260.
Proof.
  apply (snapshot_kilobytes (stat_env0 5) zero_sysinfo 4096); [|done].
  rewrite !Forall_cons, Forall_nil. vm_compute. repeat split; done.
Defined.

Lemma snapshot_leaks_stack_witness :
  exists s, julioz_capture_memory_snapshot (stat_env0 5) (fill_swap zero_sysinfo) 4096
              = (0, Some s) /\ total_swap s = 40 /\ free_swap s = 12.
Proof.
  apply (snapshot_leaks_stack (stat_env0 5) (fill_swap zero_sysinfo) 4096); done.
Defined.

Lemma snapshot_cached_wraps_witness :
  exists s, julioz_capture_memory_snapshot (stat_env0 75) zero_sysinfo 4096 = (0, Some s) /\
    cached_pages s = 2 ^ 64 - 20.
Proof. apply (snapshot_cached_wraps (stat_env0 75) zero_sysinfo 4096); done. Defined.

End Sysinfo.
