(* ===== verification/Track.v ===== *)
(** * Proyecto1: system-call counters, I/O statistics and the CPU-usage module

    - [Track]: kernel/usac/syscall2.c, the table of per-call counters, and the calls
      to [track_syscall] that Proyecto1 added to [read], [write], [open], [fork] and
      [clone] (fs/read_write.c, fs/open.c, kernel/fork.c);
    - [IoThrottle]: kernel/usac/syscall3.c;
    - [CpuInfo]: modules/extra/mem_and_cpu_info_202110206.c (the copy in modules/ is
      the same code). *)
From S2P Require Import Prelude.

Module Track.

(** ** The counter table *)

Definition timespec64 : Type := Z * Z.      (* tv_sec, tv_nsec *)

Record syscall_usage := { count : Z; time_last_used : timespec64 }.

Definition MAX_SYS_CALLS : Z := 1024.

(** [static struct syscall_usage *syscall_counters]: NULL until the first query. *)
Definition counters : Type := option (list syscall_usage).

(** [kzalloc] zeroes the block. *)
Definition zero_usage : syscall_usage := {| count := 0; time_last_used := (0, 0) |}.

(** [init_syscall_counters]: the code it returns and the new pointer. *)
Definition init_syscall_counters (kzalloc_ok : bool) : Z * counters :=
  let syscall_counters :=
    if kzalloc_ok then Some (replicate (Z.to_nat MAX_SYS_CALLS) zero_usage) else None in
  (match syscall_counters with Some _ => 0 | None => - ENOMEM end, syscall_counters).

(** [track_syscall(int syscall_id)] at time [now]; [None] is an access outside the
    array (a negative id passes the test). *)
Definition track_syscall (syscall_id : Z) (now : timespec64) (c : counters) : option counters :=
  match c with
  | None => Some None
  | Some l =>
    if MAX_SYS_CALLS <=? syscall_id then Some (Some l)
    else if syscall_id <? 0 then None
    else match l !! Z.to_nat syscall_id with
    | None => None
    | Some u =>
      Some (Some (<[Z.to_nat syscall_id :=
        {| count := count u +u 1; time_last_used := now |}]> l))
    end
  end.

(** [julioz_track_syscall_usage(statistics)]: the code, the table copied out, and the
    new pointer.  The size copied is that of the whole table. *)
Definition sizeof_syscall_usage : Z := 24.

Definition julioz_track_syscall_usage (ua : uaccess) (kzalloc_ok : bool) (statistics : Z)
    (c : counters) : Z * option (list syscall_usage) * counters :=
  let '(err, c) :=
    match c with
    | None => init_syscall_counters kzalloc_ok
    | Some _ => (0, c)
    end in
  if negb (err =? 0) then (- ENOMEM, None, c) else
  match c with
  | None => (- ENOMEM, None, c)
  | Some l =>
    let resultadoCopia := copy_to_user ua statistics (sizeof_syscall_usage *u MAX_SYS_CALLS) in
    if negb (resultadoCopia =? 0) then (- EFAULT, None, c) else (0, Some l, c)
  end.

(** ** The tracked system calls *)

Inductive tracked := SysRead | SysWrite | SysOpen | SysFork | SysClone.

#[export] Instance tracked_eq_dec : EqDecision tracked.
Proof. solve_decision. Defined.

(** [__NR_read], [__NR_write], [__NR_open], [__NR_fork], [__NR_clone] of
    arch/x86/entry/syscalls/syscall_64.tbl. *)
Definition NR (t : tracked) : Z :=
  match t with SysRead => 0 | SysWrite => 1 | SysOpen => 2 | SysFork => 57 | SysClone => 56 end.

(** The entry points: count the call, then run the call proper. [A] is its result. *)
Definition tracked_entry {A} (t : tracked) (now : timespec64) (c : counters) (body : A)
    : option (A * counters) :=
  match track_syscall (NR t) now c with
  | Some c' => Some (body, c')
  | None => None
  end.

Definition sys_read {A} (now : timespec64) (c : counters) (ksys_read : A) :=
  tracked_entry SysRead now c ksys_read.
Definition sys_write {A} (now : timespec64) (c : counters) (ksys_write : A) :=
  tracked_entry SysWrite now c ksys_write.
(** [open]: the flags passed on depend on [force_o_largefile()]. *)
Definition sys_open {A} (now : timespec64) (c : counters) (force_o_largefile : bool)
    (O_LARGEFILE flags : Z) (do_sys_open : Z -> A) :=
  tracked_entry SysOpen now c
    (do_sys_open (if force_o_largefile then Z.lor flags O_LARGEFILE else flags)).

(** [clone]: the register arguments become [struct kernel_clone_args]. *)
Record kernel_clone_args := {
  kc_flags : Z; kc_pidfd : Z; kc_child_tid : Z; kc_parent_tid : Z;
  kc_exit_signal : Z; kc_stack : Z; kc_tls : Z
}.

Definition CSIGNAL : Z := 255.
Definition SIGCHLD : Z := 17.

(** [fork]: a clone with no flags and [SIGCHLD] (the [CONFIG_MMU] branch). *)
Definition sys_fork {A} (now : timespec64) (c : counters) (kernel_clone : kernel_clone_args -> A) :=
  tracked_entry SysFork now c (kernel_clone {|
    kc_flags := 0; kc_pidfd := 0; kc_child_tid := 0; kc_parent_tid := 0;
    kc_exit_signal := SIGCHLD; kc_stack := 0; kc_tls := 0 |}).

Definition sys_clone {A} (now : timespec64) (c : counters)
    (clone_flags newsp parent_tidptr child_tidptr tls : Z) (kernel_clone : kernel_clone_args -> A) :=
  tracked_entry SysClone now c (kernel_clone {|
    kc_flags := Z.land (u32 clone_flags) (u32 (Z.lnot CSIGNAL));
    kc_pidfd := parent_tidptr; kc_child_tid := child_tidptr; kc_parent_tid := parent_tidptr;
    kc_exit_signal := Z.land (u32 clone_flags) CSIGNAL;
    kc_stack := newsp; kc_tls := tls |}).

(** ** Properties *)

(** *** Histories

    Everything that can reach the table, one after the other: the five calls through their
    entry points, the hook itself with any id (it is declared to the whole kernel), and the
    query.  [A] is what the bodies of the calls return. *)
Section history.
Context {A : Type} (ksys_read ksys_write : A) (do_sys_open : Z -> A) (kernel_clone : kernel_clone_args -> A).

Inductive event :=
  | ERead (now : timespec64) | EWrite (now : timespec64)
  | EOpen (now : timespec64) (force_o_largefile : bool) (O_LARGEFILE flags : Z)
  | EFork (now : timespec64)
  | EClone (now : timespec64) (clone_flags newsp parent_tidptr child_tidptr tls : Z)
  | EHook (now : timespec64) (syscall_id : Z)
  | EQuery (ua : uaccess) (kzalloc_ok : bool) (statistics : Z).

Inductive answer := Returned (a : A) | Hooked | Queried (err : Z) (table : option (list syscall_usage)).

Definition returned (o : option (A * counters)) : option (answer * counters) :=
  '(a, c) ← o; Some (Returned a, c).
Definition run_event (ev : event) (c : counters) : option (answer * counters) :=
  match ev with
  | ERead now => returned (sys_read now c ksys_read)
  | EWrite now => returned (sys_write now c ksys_write)
  | EOpen now force largefile flags => returned (sys_open now c force largefile flags do_sys_open)
  | EFork now => returned (sys_fork now c kernel_clone)
  | EClone now fl sp ptid ctid tls => returned (sys_clone now c fl sp ptid ctid tls kernel_clone)
  | EHook now id => c ← track_syscall id now c; Some (Hooked, c)
  | EQuery ua k p =>
      let '(err, table, c) := julioz_track_syscall_usage ua k p c in Some (Queried err table, c)
  end.
Fixpoint run_events (h : list event) (c : counters) : option (list answer * counters) :=
  match h with
  | [] => Some ([], c)
  | ev :: h => '(a, c) ← run_event ev c; '(l, c) ← run_events h c; Some (a :: l, c)
  end.

(** The number and the time under which an event is to be counted: the numbers of
    [read], [write], [open], [fork] and [clone] on x86-64. *)
Definition counted_as (ev : event) : option (Z * timespec64) :=
  match ev with
  | ERead now => Some (0, now)
  | EWrite now => Some (1, now)
  | EOpen now _ _ _ => Some (2, now)
  | EFork now => Some (57, now)
  | EClone now _ _ _ _ _ => Some (56, now)
  | EHook now id => Some (id, now)
  | EQuery _ _ _ => None
  end.
Definition valid (ev : event) : Prop := match ev with EHook _ id => 0 <= id | _ => True end.

(** How often, and when last, a number was used in a history. *)
Fixpoint occurrences (id : Z) (h : list event) : Z :=
  match h with
  | [] => 0
  | ev :: h => (match counted_as ev with Some (n, _) => if n =? id then 1 else 0 | None => 0 end) + occurrences id h
  end.
Fixpoint last_used (id : Z) (h : list event) (t : timespec64) : timespec64 :=
  match h with
  | [] => t
  | ev :: h => last_used id h (match counted_as ev with Some (n, now) => if n =? id then now else t | None => t end)
  end.

(** The part of a history after the query that allocates the table, if there is one. *)
Fixpoint since_table (h : list event) : option (list event) :=
  match h with
  | [] => None
  | EQuery _ true _ :: h => Some h
  | _ :: h => since_table h
  end.

(** The table [l] says of every number how often, and when last, it was used in [h]. *)
Definition tallies (h : list event) (l : list syscall_usage) : Prop :=
  length l = Z.to_nat MAX_SYS_CALLS /\
  forall id, 0 <= id < MAX_SYS_CALLS ->
    l !! Z.to_nat id = Some {| count := u64 (occurrences id h); time_last_used := last_used id h (0, 0) |}.
Definition tallied (o : option (list event)) (c : counters) : Prop :=
  match o, c with Some h, Some l => tallies h l | None, None => True | _, _ => False end.

Lemma occurrences_app id h h' : occurrences id (h ++ h') = occurrences id h + occurrences id h'.
Proof. induction h as [|ev h IH]; cbn; [done|]. rewrite IH. lia. Qed.
Lemma last_used_app id h h' t : last_used id (h ++ h') t = last_used id h' (last_used id h t).
Proof. revert t. induction h as [|ev h IH]; intros t; cbn; [done|]. apply IH. Qed.

Lemma since_snoc h ev :
  since_table (h ++ [ev]) =
    match since_table h with
    | Some k => Some (k ++ [ev])
    | None => match ev with EQuery _ true _ => Some [] | _ => None end
    end.
Proof.
  induction h as [|e h IH]; cbn; [by destruct ev as [| | | | | |? []]|].
  destruct e as [| | | | | |? []]; done.
Qed.

(** One use of a number. *)
Lemma tracked_tallies h l ev id now :
  tallies h l -> counted_as ev = Some (id, now) -> 0 <= id ->
  exists l', track_syscall id now (Some l) = Some (Some l') /\ tallies (h ++ [ev]) l'.
Proof.
  intros [Hlen Hl] Hev Hid. unfold track_syscall. destruct (Z.leb_spec MAX_SYS_CALLS id) as [Hge|Hlt].
  - exists l. split; [done|]. split; [done|]. intros x Hx. rewrite Hl by done.
    rewrite occurrences_app, last_used_app. cbn. rewrite Hev.
    replace (id =? x) with false by lia. by rewrite !Z.add_0_r.
  - replace (id <? 0) with false by lia. rewrite Hl by lia. eexists. split; [done|].
    split; [by rewrite length_insert|]. intros x Hx. rewrite occurrences_app, last_used_app. cbn. rewrite Hev.
    destruct (Z.eqb_spec id x) as [->|Hne].
    + rewrite list_lookup_insert_eq by (rewrite Hlen; lia). cbn [count]. by rewrite u64_add_l, Z.add_0_r.
    + rewrite list_lookup_insert_ne, Hl by lia. by rewrite !Z.add_0_r.
Qed.

Lemma track_tallied h c ev id now :
  tallied (since_table h) c -> counted_as ev = Some (id, now) -> 0 <= id ->
  exists c', track_syscall id now c = Some c' /\ tallied (since_table (h ++ [ev])) c'.
Proof.
  intros Ht Hev Hid. rewrite since_snoc. destruct (since_table h) as [k|], c as [l|]; try done; cbn in Ht.
  - destruct (tracked_tallies k l ev id now Ht Hev Hid) as (l' & -> & Hl'). by exists (Some l').
  - exists None. split; [done|]. by destruct ev.
Qed.

Lemma fresh_tallies : tallies [] (replicate (Z.to_nat MAX_SYS_CALLS) zero_usage).
Proof.
  split; [apply length_replicate|]. intros id Hid. apply lookup_replicate_2. unfold MAX_SYS_CALLS in *. lia.
Qed.

(** What a query answers after the history [h]. *)
Definition query_answer (ua : uaccess) (k : bool) (p : Z) (h : list event) (a : answer) : Prop :=
  match since_table (h ++ [EQuery ua k p]) with
  | None => a = Queried (- ENOMEM) None
  | Some g =>
      if copy_to_user ua p (sizeof_syscall_usage *u MAX_SYS_CALLS) =? 0
      then exists l, a = Queried 0 (Some l) /\ tallies g l
      else a = Queried (- EFAULT) None
  end.

Lemma tallies_query h l ua k p : tallies h l -> tallies (h ++ [EQuery ua k p]) l.
Proof.
  intros [Hlen Hl]. split; [done|]. intros id Hid. rewrite Hl by done.
  rewrite occurrences_app, last_used_app. cbn. by rewrite Z.add_0_r.
Qed.

Lemma query_tallied h c ua k p :
  tallied (since_table h) c ->
  exists a c', run_event (EQuery ua k p) c = Some (a, c') /\
    tallied (since_table (h ++ [EQuery ua k p])) c' /\ query_answer ua k p h a.
Proof.
  intros Ht. unfold query_answer. rewrite since_snoc. cbn [run_event]. unfold julioz_track_syscall_usage.
  destruct (since_table h) as [g|], c as [l|]; try done; cbn in Ht.
  - change (negb (0 =? 0)) with false. cbv iota. pose proof (tallies_query g l ua k p Ht).
    destruct (copy_to_user ua p _ =? 0); cbn [negb]; eexists _, _; (split; [done|]); (split; [done|]); [by exists l|done].
  - destruct k; cbn [init_syscall_counters]; [|by eexists _, _].
    change (negb (0 =? 0)) with false. cbv iota. pose proof fresh_tallies.
    destruct (copy_to_user ua p _ =? 0); cbn [negb]; eexists _, _; (split; [done|]); (split; [done|]); [by eexists|done].
Qed.

Lemma event_tallied h c ev :
  tallied (since_table h) c -> valid ev ->
  exists a c', run_event ev c = Some (a, c') /\ tallied (since_table (h ++ [ev])) c' /\
    match ev with EQuery ua k p => query_answer ua k p h a | _ => True end.
Proof.
  intros Ht Hv.
  assert (Htr : forall id now, counted_as ev = Some (id, now) -> 0 <= id ->
    exists c', track_syscall id now c = Some c' /\ tallied (since_table (h ++ [ev])) c').
  { intros id now. by apply track_tallied. }
  destruct ev as [now|now|now fo lf fl|now|now fl sp pt ct tls|now id|ua k p]; [..|by apply query_tallied];
    cbn [run_event counted_as] in *;
    unfold sys_read, sys_write, sys_open, sys_fork, sys_clone, tracked_entry; cbn [NR];
    destruct (Htr _ now eq_refl) as (c' & -> & Hc'); try done; cbn; by eauto.
Qed.

Lemma events_tallied h0 h c :
  tallied (since_table h0) c -> Forall valid h ->
  exists outs c', run_events h c = Some (outs, c') /\ tallied (since_table (h0 ++ h)) c' /\
    forall h1 ua k p h2, h = h1 ++ EQuery ua k p :: h2 ->
      exists a, outs !! length h1 = Some a /\ query_answer ua k p (h0 ++ h1) a.
Proof.
  intros Ht Hv. revert h0 c Ht. induction Hv as [|ev h Hev _ IH]; intros h0 c Ht.
  - exists [], c. split; [done|]. rewrite app_nil_r. split; [done|]. by intros [].
  - destruct (event_tallied h0 c ev Ht Hev) as (a & c1 & Hr & Ht1 & Hq).
    destruct (IH (h0 ++ [ev]) c1 Ht1) as (outs & c2 & Hrs & Ht2 & Hqs).
    exists (a :: outs), c2. cbn [run_events]. rewrite Hr. cbn. rewrite Hrs. split; [done|].
    rewrite <- app_assoc in Ht2. split; [done|]. intros [|ev' h1] ua k p h2 Heq; cbn in Heq; injection Heq as -> Heq.
    + exists a. by rewrite app_nil_r.
    + destruct (Hqs h1 ua k p h2 Heq) as (b & Hb & Hans). exists b. split; [done|]. by rewrite <- app_assoc in Hans.
Qed.

(** C40.  From boot on, for any sequence of [read], [write], [open], [fork] and [clone] calls
    through their entry points, of direct uses of the hook with a nonnegative id, and of
    queries, taken one after the other: no access leaves the table; the table exists from
    the first query that could allocate it, and from then on its entry for every number
    below 1024 holds how often the number was used since that query (modulo 2^64) and
    when last, uses of larger numbers being ignored; and every query copies out exactly
    that, or answers [-EFAULT] or, without a table, [-ENOMEM].  ([count++] is not
    synchronised: of calls at the same time see [concurrent_tracks_lose_a_count].) *)
Theorem counters_count h :
  Forall valid h ->
  exists outs c, run_events h None = Some (outs, c) /\ tallied (since_table h) c /\
    forall h1 ua k p h2, h = h1 ++ EQuery ua k p :: h2 ->
      exists a, outs !! length h1 = Some a /\ query_answer ua k p h1 a.
Proof. intros Hv. by apply (events_tallied [] h None). Qed.
End history.

(** The read and the write of [count++], with a second processor between them: two calls,
    and the counter grows by one. *)
Definition load_count (id : Z) (l : list syscall_usage) : option Z := count <$> l !! Z.to_nat id.
Definition store_count (id n : Z) (l : list syscall_usage) : list syscall_usage :=
  alter (fun u => {| count := n; time_last_used := time_last_used u |}) (Z.to_nat id) l.

Theorem concurrent_tracks_lose_a_count id l n :
  load_count id l = Some n ->
  let one := store_count id (n +u 1) l in            (* both loaded [n] *)
  load_count id (store_count id (n +u 1) one) = Some (n +u 1).
Proof.
  unfold load_count, store_count. intros Hn. destruct (l !! Z.to_nat id) as [u|] eqn:Hu; [|done].
  by rewrite !list_lookup_alter_eq, Hu.
Qed.

(** Before the first query the table does not exist and nothing is counted: calls
    made until then are lost, and the first query returns an all-zero table. *)
Theorem nothing_counted_before_query t now ua p :
  copy_to_user ua p (sizeof_syscall_usage *u MAX_SYS_CALLS) = 0 ->
  track_syscall (NR t) now None = Some None /\
  exists l c, julioz_track_syscall_usage ua true p None = (0, Some l, c) /\
    forall id, 0 <= id < MAX_SYS_CALLS -> l !! Z.to_nat id = Some zero_usage.
Proof.
  intros Hcp. split; [done|].
  unfold julioz_track_syscall_usage. cbn [init_syscall_counters].
  change (negb (0 =? 0)) with false. cbv iota. rewrite Hcp.
  eexists _, _. split; [done|]. intros id Hid. apply lookup_replicate_2.
  unfold MAX_SYS_CALLS in *. lia.
Qed.

(** The id is only tested from above: a negative id reaches the array access with
    an index outside the table. *)
Theorem negative_id_out_of_bounds id now l :
  id < 0 -> track_syscall id now (Some l) = None.
Proof.
  intros Hid. unfold track_syscall. replace (MAX_SYS_CALLS <=? id) with false
    by (unfold MAX_SYS_CALLS; lia). by replace (id <? 0) with true by lia.
Qed.

(** A [read] before the first query, then two [write]s, a number outside the table and a query. *)
Definition demo_events : list event :=
  [ERead (1, 0); EQuery ua_ok true 4096; EWrite (2, 0); EHook (3, 0) 5000; EWrite (4, 7); EQuery ua_ok false 8192].

Lemma counters_count_witness :
  exists outs c l, run_events tt tt (fun _ => tt) (fun _ => tt) demo_events None = Some (outs, c) /\
    outs !! 5%nat = Some (Queried 0 (Some l)) /\
    l !! 0%nat = Some zero_usage /\ l !! 1%nat = Some {| count := 2; time_last_used := (4, 7) |}.
Proof.
  destruct (counters_count tt tt (fun _ => tt) (fun _ => tt) demo_events) as (outs & c & Hr & _ & Hq).
  { repeat constructor. done. }
  destruct (Hq [ERead (1, 0); EQuery ua_ok true 4096; EWrite (2, 0); EHook (3, 0) 5000; EWrite (4, 7)]
    ua_ok false 8192 [] eq_refl) as (a & Ha & Hans).
  unfold query_answer in Hans. cbn in Hans. destruct Hans as (l & -> & _ & Hl).
  exists outs, c, l. split; [exact Hr|]. split; [exact Ha|]. split; [exact (Hl 0 ltac:(done))|exact (Hl 1 ltac:(done))].
Defined.

Lemma nothing_counted_before_query_witness :
  track_syscall (NR SysFork) (1, 0) None = Some None /\
  exists l c, julioz_track_syscall_usage ua_ok true 4096 None = (0, Some l, c) /\
    forall id, 0 <= id < MAX_SYS_CALLS -> l !! Z.to_nat id = Some zero_usage.
Proof. apply (nothing_counted_before_query SysFork (1, 0) ua_ok 4096). done. Defined.

Lemma negative_id_out_of_bounds_witness : track_syscall (-1) (0, 0) (Some []) = None.
Proof. apply (negative_id_out_of_bounds (-1) (0, 0) []). done. Defined.

End Track.

Module IoThrottle.

(** [struct task_io_accounting] as the call reads it. *)
Record task_ioac := { read_bytes : Z; write_bytes : Z; cancelled_write_bytes : Z }.

Record io_stats := {
  bytes_read : Z; bytes_written : Z; cancel_count : Z; io_wait_time : Z; disk_io_time : Z
}.

(** [CONFIG_TASK_IO_ACCOUNTING] is a build option: [accounting]. *)
Definition julioz_get_io_throttle (ua : uaccess) (accounting : bool) (task : task_ioac)
    (user_stats : Z) : Z * option io_stats :=
  let stats :=
    if accounting
    then {| bytes_read := read_bytes task; bytes_written := write_bytes task;
            cancel_count := cancelled_write_bytes task; io_wait_time := 0; disk_io_time := 0 |}
    else {| bytes_read := 0; bytes_written := 0; cancel_count := 0;
            io_wait_time := 0; disk_io_time := 0 |} in
  if negb (copy_to_user ua user_stats 40 =? 0) then (- EFAULT, None)
  else (0, Some stats).

(** The two time fields the README lists are constant zero, whatever the task did. *)
Lemma io_times_are_zero ua acc task p r s :
  julioz_get_io_throttle ua acc task p = (r, Some s) ->
  r = 0 /\ io_wait_time s = 0 /\ disk_io_time s = 0.
Proof.
  unfold julioz_get_io_throttle. destruct (negb _); [done|]. intros [= <- <-].
  by destruct acc.
Qed.

End IoThrottle.

Module CpuInfo.

(** [kcpustat_cpu(0).cpustat], the eight counters the module sums. *)
Record cpustat := {
  user : Z; nice : Z; system : Z; idle : Z; iowait : Z; irq : Z; softirq : Z; steal : Z
}.

(** The module's static variables. *)
Record cpu_state := { prev_idle : Z; prev_total : Z }.

Definition total (s : cpustat) : Z :=
  user s +u nice s +u system s +u idle s +u iowait s +u irq s +u softirq s +u steal s.

(** [calculate_cpu_usage]: the percentage and the new static variables. *)
Definition calculate_cpu_usage (s : cpustat) (st : cpu_state) : Z * cpu_state :=
  let diff_idle := idle s -u prev_idle st in
  let diff_total := total s -u prev_total st in
  let st' := {| prev_idle := idle s; prev_total := total s |} in
  let usage := if 0 <? diff_total
               then (100 *u (diff_total -u diff_idle)) / diff_total else 0 in
  (usage, st').

(** [memandprocessesinfo_init] sets the variables from the current counters. *)
Definition memandprocessesinfo_init (s : cpustat) : cpu_state :=
  {| prev_idle := idle s; prev_total := total s |}.

(** What a read of /proc/mem_and_cpu_info_202110206 prints: total and free RAM in KB
    and the CPU percentage. *)
Definition memandprocessesinfo_show (totalram freeram : Z) (s : cpustat) (st : cpu_state)
    : (Z * Z * Z) * cpu_state :=
  let '(cpu_usage, st') := calculate_cpu_usage s st in
  ((totalram *u 4, freeram *u 4, cpu_usage), st').

(** The exact total of two samples of which the second is later. *)
Definition exact_total (s : cpustat) : Z :=
  user s + nice s + system s + idle s + iowait s + irq s + softirq s + steal s.

Lemma total_exact s : total s = u64 (exact_total s).
Proof. unfold total, exact_total. by do 6 rewrite <- (u64_add_l (_ + _) _). Qed.

(** A read that follows a read (or the module's load) at counters [s0] reports
    the share of non-idle time since then, rounded down: a percentage between 0 and
    100, for counters that grow by less than 2^57 ticks and idle time that is part of
    the total.  The 64-bit sums may wrap. *)
Theorem cpu_usage_is_percentage s0 s :
  let dt := exact_total s - exact_total s0 in
  let di := idle s - idle s0 in
  0 <= di <= dt -> dt < 2 ^ 57 ->
  exists u, calculate_cpu_usage s (memandprocessesinfo_init s0) = (u, memandprocessesinfo_init s) /\
    u = (if dt =? 0 then 0 else 100 * (dt - di) / dt) /\ 0 <= u <= 100.
Proof.
  cbn zeta. intros Hdi Hdt. unfold calculate_cpu_usage, memandprocessesinfo_init.
  cbn [prev_idle prev_total]. rewrite !total_exact.
  replace (u64 (exact_total s) -u u64 (exact_total s0)) with (exact_total s - exact_total s0)
    by word_lia.
  rewrite (u64_small (idle s - idle s0)) by lia.
  eexists. split; [done|]. split.
  - destruct (Z.eqb_spec (exact_total s - exact_total s0) 0) as [->|Hne]; [done|].
    rewrite (proj2 (Z.ltb_lt 0 _)) by lia.
    rewrite (u64_small (_ - _ - _)), u64_small by lia. done.
  - destruct (Z.ltb_spec 0 (exact_total s - exact_total s0)) as [Hpos|]; [|lia].
    rewrite (u64_small (_ - _ - _)), u64_small by lia. split.
    + apply Z.div_pos; lia.
    + apply Z.div_le_upper_bound; lia.
Qed.

Definition sample0 : cpustat := {| user := 10; nice := 0; system := 5; idle := 85; iowait := 0;
  irq := 0; softirq := 0; steal := 0 |}.
Definition sample1 : cpustat := {| user := 40; nice := 0; system := 15; idle := 145; iowait := 0;
  irq := 0; softirq := 0; steal := 0 |}.

Lemma cpu_usage_is_percentage_witness :
  exists u, calculate_cpu_usage sample1 (memandprocessesinfo_init sample0) =
      (u, memandprocessesinfo_init sample1) /\ u = 40 /\ 0 <= u <= 100.
Proof. apply (cpu_usage_is_percentage sample0 sample1); vm_compute; done. Defined.

End CpuInfo.
