(* ===== verification/File.v ===== *)
(** * Open files and their offsets ([fs/read_write.c])

    [struct file] and what the calls of [fs/read_write.c] see of the kernel: descriptors,
    open files, the references and locks a call holds, and the counters it keeps; then
    the seek calls.  Drivers and file systems are outside the repository: the functions
    of a file's operations table are fields of [fs_env], over a state [D] of their own
    that also holds the caller's memory. *)
From S2P Require Import Prelude.

Module File.

Definition ESPIPE : Z := 29.
Definition EISDIR : Z := 21.
Definition EXDEV : Z := 18.
Definition EFBIG : Z := 27.
Definition ENXIO : Z := 6.

Definition FMODE_READ : Z := 0x1.
Definition FMODE_WRITE : Z := 0x2.
Definition FMODE_LSEEK : Z := 0x4.
Definition FMODE_PREAD : Z := 0x8.
Definition FMODE_PWRITE : Z := 0x10.
Definition FMODE_UNSIGNED_OFFSET : Z := 0x2000.
Definition FMODE_PATH : Z := 0x4000.
Definition FMODE_ATOMIC_POS : Z := 0x8000.
Definition FMODE_WRITER : Z := 0x10000.
Definition FMODE_CAN_READ : Z := 0x20000.
Definition FMODE_CAN_WRITE : Z := 0x40000.
Definition FMODE_OPENED : Z := 0x80000.
Definition FMODE_STREAM : Z := 0x200000.
Definition FMODE_CAN_ODIRECT : Z := 0x400000.
Definition FMODE_BACKING : Z := 0x2000000.
Definition FMODE_BUF_WASYNC : Z := 0x80000000.

Definition O_APPEND : Z := 0x400.
Definition O_NONBLOCK : Z := 0x800.
Definition O_LARGEFILE : Z := 0x8000.

Definition SEEK_SET : Z := 0.
Definition SEEK_CUR : Z := 1.
Definition SEEK_END : Z := 2.
Definition SEEK_DATA : Z := 3.
Definition SEEK_HOLE : Z := 4.
Definition SEEK_MAX : Z := SEEK_HOLE.
Definition OFFSET_MAX : Z := 2 ^ 63 - 1.

(** ** Data *)

(** The implementations of [->llseek] in this file, and a driver's own. *)
Inductive llseek_op :=
  | GenericLlseek | DefaultLlseek | NoopLlseek | FixedSizeLlseek (size : Z)
  | NoSeekEndLlseek | NoSeekEndLlseekSize (size : Z) | DriverLlseek.

Record file := MkFile {
  f_pos : Z; f_version : Z; f_mode : Z; f_flags : Z; f_inode : Z; f_llseek : llseek_op
}.

Definition set_pos (pos : Z) (f : file) : file :=
  MkFile pos (f_version f) (f_mode f) (f_flags f) (f_inode f) (f_llseek f).
Definition set_version (v : Z) (f : file) : file :=
  MkFile (f_pos f) v (f_mode f) (f_flags f) (f_inode f) (f_llseek f).

Inductive file_kind := Regular | Directory | BlockDev | CharDev | Fifo | Sock | Symlink.

#[export] Instance file_kind_eq_dec : EqDecision file_kind.
Proof. solve_decision. Defined.

(** The fields of an inode and of its superblock that are read here.  The file system
    owns them: the inode of a file is read from the drivers' state. *)
Record inode := MkInode {
  i_kind : file_kind; i_size : Z; i_sb : Z; s_maxbytes : Z;
  is_append : bool; is_immutable : bool; is_swapfile : bool
}.

(** [held], [pos_held] and [writers] count the references ([fdget]), position locks
    ([fdget_pos]) and write sections ([file_start_write]) that are open; [bug] says that a
    [BUG_ON] has fired, which stops the task there; the rest are [current]'s I/O
    counters. *)
Record vfs (D : Type) := Vfs {
  fdt : Z -> option Z; files : Z -> file; dev : D;
  rchar : Z; wchar : Z; syscr : Z; syscw : Z;
  held : Z; pos_held : Z; writers : Z; bug : bool
}.
#[global] Arguments Vfs {D}. #[global] Arguments fdt {D}. #[global] Arguments files {D}.
#[global] Arguments dev {D}. #[global] Arguments rchar {D}.
#[global] Arguments wchar {D}. #[global] Arguments syscr {D}. #[global] Arguments syscw {D}.
#[global] Arguments held {D}. #[global] Arguments pos_held {D}. #[global] Arguments writers {D}.
#[global] Arguments bug {D}.

Section state.
Context {D : Type}.
Implicit Types s : vfs D.

Definition upd_file (fid : Z) (g : file -> file) s : vfs D :=
  Vfs (fdt s) (fun i => if i =? fid then g (files s i) else files s i) (dev s)
      (rchar s) (wchar s) (syscr s) (syscw s) (held s) (pos_held s) (writers s)
      (bug s).
Definition set_dev (d : D) s : vfs D :=
  Vfs (fdt s) (files s) d (rchar s) (wchar s) (syscr s) (syscw s) (held s) (pos_held s)
      (writers s) (bug s).
Definition set_held (h p w : Z) s : vfs D :=
  Vfs (fdt s) (files s) (dev s) (rchar s) (wchar s) (syscr s) (syscw s) h p w (bug s).
Definition set_acct (rc wc sr sw : Z) s : vfs D :=
  Vfs (fdt s) (files s) (dev s) rc wc sr sw (held s) (pos_held s) (writers s) (bug s).

Definition BUG_ON (condition : bool) s : vfs D :=
  Vfs (fdt s) (files s) (dev s) (rchar s) (wchar s) (syscr s) (syscw s) (held s) (pos_held s)
      (writers s) (bug s || condition).

Definition add_rchar (n : Z) s := set_acct (rchar s +u n) (wchar s) (syscr s) (syscw s) s.
Definition add_wchar (n : Z) s := set_acct (rchar s) (wchar s +u n) (syscr s) (syscw s) s.
Definition inc_syscr s := set_acct (rchar s) (wchar s) (syscr s +u 1) (syscw s) s.
Definition inc_syscw s := set_acct (rchar s) (wchar s) (syscr s) (syscw s +u 1) s.
Definition file_start_write s := set_held (held s) (pos_held s) (writers s + 1) s.
Definition file_end_write s := set_held (held s) (pos_held s) (writers s - 1) s.

(** The open file behind a descriptor; not one opened with [O_PATH]. *)
Definition fd_file s (fd : Z) : option Z :=
  match fdt s fd with
  | Some fid => if flag_set (f_mode (files s fid)) FMODE_PATH then None else Some fid
  | None => None
  end.

(** [fdget] and [fdget_pos] borrow it until [fdput]/[fdput_pos]; [fdget_raw] takes any. *)
Definition fdget (fd : Z) s : option Z * vfs D :=
  match fd_file s fd with
  | None => (None, s)
  | Some fid => (Some fid, set_held (held s + 1) (pos_held s) (writers s) s)
  end.
Definition fdget_raw (fd : Z) s : option Z * vfs D :=
  match fdt s fd with
  | None => (None, s)
  | Some fid => (Some fid, set_held (held s + 1) (pos_held s) (writers s) s)
  end.
Definition fdput s : vfs D := set_held (held s - 1) (pos_held s) (writers s) s.
Definition fdget_pos (fd : Z) s : option Z * vfs D :=
  match fd_file s fd with
  | None => (None, s)
  | Some fid => (Some fid, set_held (held s + 1) (pos_held s + 1) (writers s) s)
  end.
Definition fdput_pos s : vfs D := set_held (held s - 1) (pos_held s - 1) (writers s) s.
End state.

(** A position argument: [None] for a stream, else the value. *)
Definition ppos := option Z.

(** Segments of memory, address and length; an iterator is the list of those not yet
    transferred. *)
Definition iovec := list (Z * Z).
Definition iov_iter_count (iter : iovec) : Z := foldr (fun seg n => snd seg + n) 0 iter.

(** What the calls ask of drivers and of the rest of the kernel.  A transfer gets the
    open file, the memory, the position and the driver's state, and answers the bytes
    moved or an error, the new position and the new state. *)
Record fs_env (D : Type) := {
  inode_of : Z -> D -> inode;
  drv_llseek : Z -> file -> Z -> Z -> D -> Z * (Z * Z) * D;   (* f_pos and f_version *)
  has_read : Z -> bool; has_read_iter : Z -> bool;
  has_write : Z -> bool; has_write_iter : Z -> bool;
  drv_read : Z -> Z -> Z -> ppos -> D -> Z * ppos * D;
  drv_write : Z -> Z -> Z -> ppos -> D -> Z * ppos * D;
  (* position and flags of the kiocb *)
  drv_read_iter : Z -> iovec -> Z -> Z -> D -> Z * Z * D;
  drv_write_iter : Z -> iovec -> Z -> Z -> D -> Z * Z * D;
  iocb_flags : Z -> Z;                        (* of an open file *)
  kiocb_set_rw_flags : Z -> Z -> Z + Z;       (* file, flags -> error, or the kiocb's flags *)
  access_ok : Z -> Z -> bool;
  import_iovec : Z -> Z -> Z + iovec;         (* user pointer, number of segments *)
  iov_iter_advance : Z -> iovec -> iovec;
  iov_iter_truncate : Z -> iovec -> iovec;
  security_file_permission : Z -> Z -> Z;
  fsnotify_file_area_perm : Z -> Z -> ppos -> Z -> Z;
  f_ua : uaccess
}.
#[global] Arguments inode_of {D}. #[global] Arguments iocb_flags {D}.
#[global] Arguments iov_iter_advance {D}. #[global] Arguments iov_iter_truncate {D}.
 #[global] Arguments drv_llseek {D}. #[global] Arguments has_read {D}.
#[global] Arguments has_read_iter {D}. #[global] Arguments has_write {D}.
#[global] Arguments has_write_iter {D}. #[global] Arguments drv_read {D}.
#[global] Arguments drv_write {D}. #[global] Arguments drv_read_iter {D}.
#[global] Arguments drv_write_iter {D}. #[global] Arguments kiocb_set_rw_flags {D}.
#[global] Arguments access_ok {D}. #[global] Arguments import_iovec {D}.
#[global] Arguments security_file_permission {D}. #[global] Arguments fsnotify_file_area_perm {D}.
#[global] Arguments f_ua {D}.

(** ** Seeking *)

Definition unsigned_offsets (f : file) : bool := flag_set (f_mode f) FMODE_UNSIGNED_OFFSET.

(** Result, and the file. *)
Definition vfs_setpos (f : file) (offset maxsize : Z) : Z * file :=
  if (offset <? 0) && negb (unsigned_offsets f) then (- EINVAL, f)
  else if maxsize <? offset then (- EINVAL, f)
  else if negb (offset =? f_pos f) then (offset, set_version 0 (set_pos offset f))
  else (offset, f).

Definition generic_file_llseek_size (f : file) (offset whence maxsize eof : Z) : Z * file :=
  if whence =? SEEK_END then vfs_setpos f (i64 (offset + eof)) maxsize
  else if whence =? SEEK_CUR then
    if offset =? 0 then (f_pos f, f) else vfs_setpos f (i64 (f_pos f + offset)) maxsize
  else if whence =? SEEK_DATA then
    if u64 eof <=? u64 offset then (- ENXIO, f) else vfs_setpos f offset maxsize
  else if whence =? SEEK_HOLE then
    if u64 eof <=? u64 offset then (- ENXIO, f) else vfs_setpos f eof maxsize
  else vfs_setpos f offset maxsize.

Definition generic_file_llseek (i : inode) (f : file) (offset whence : Z) : Z * file :=
  generic_file_llseek_size f offset whence (s_maxbytes i) (i_size i).

Definition fixed_size_llseek (f : file) (offset whence size : Z) : Z * file :=
  if (whence =? SEEK_SET) || (whence =? SEEK_CUR) || (whence =? SEEK_END)
  then generic_file_llseek_size f offset whence size size else (- EINVAL, f).

Definition no_seek_end_llseek (f : file) (offset whence : Z) : Z * file :=
  if (whence =? SEEK_SET) || (whence =? SEEK_CUR)
  then generic_file_llseek_size f offset whence OFFSET_MAX 0 else (- EINVAL, f).

Definition no_seek_end_llseek_size (f : file) (offset whence size : Z) : Z * file :=
  if (whence =? SEEK_SET) || (whence =? SEEK_CUR)
  then generic_file_llseek_size f offset whence size 0 else (- EINVAL, f).

Definition noop_llseek (f : file) : Z * file := (f_pos f, f).

Definition default_llseek (i : inode) (f : file) (offset whence : Z) : Z * file :=
  let finish offset :=
    if (0 <=? offset) || unsigned_offsets f then
      (offset, if negb (offset =? f_pos f) then set_version 0 (set_pos offset f) else f)
    else (- EINVAL, f) in
  if whence =? SEEK_END then finish (i64 (offset + i_size i))
  else if whence =? SEEK_CUR then
    if offset =? 0 then (f_pos f, f) else finish (i64 (offset + f_pos f))
  else if whence =? SEEK_DATA then
    if i_size i <=? offset then (- ENXIO, f) else finish offset
  else if whence =? SEEK_HOLE then
    if i_size i <=? offset then (- ENXIO, f) else finish (i_size i)
  else finish offset.

Section seek.
Context {D : Type} (e : fs_env D).
Implicit Types s : vfs D.

(** The call through the operations table. *)
Definition llseek_of (fid : Z) (i : inode) (f : file) (offset whence : Z) (d : D)
    : Z * file * D :=
  match f_llseek f with
  | GenericLlseek => (generic_file_llseek i f offset whence, d)
  | DefaultLlseek => (default_llseek i f offset whence, d)
  | NoopLlseek => (noop_llseek f, d)
  | FixedSizeLlseek size => (fixed_size_llseek f offset whence size, d)
  | NoSeekEndLlseek => (no_seek_end_llseek f offset whence, d)
  | NoSeekEndLlseekSize size => (no_seek_end_llseek_size f offset whence size, d)
  | DriverLlseek =>
      let '(res, (pos, version), d) := drv_llseek e fid f offset whence d in
      (res, set_version version (set_pos pos f), d)
  end.

Definition vfs_llseek (fid offset whence : Z) s : Z * vfs D :=
  let f := files s fid in
  if negb (flag_set (f_mode f) FMODE_LSEEK) then (- ESPIPE, s)
  else
    let '(res, f', d) :=
      llseek_of fid (inode_of e (f_inode f) (dev s)) f offset whence (dev s) in
    (res, set_dev d (upd_file fid (fun _ => f') s)).

(** [loff_t] and [off_t] have the same width, so the overflow test never fires. *)
Definition ksys_lseek (fd offset whence : Z) s : Z * vfs D :=
  match fdget_pos fd s with
  | (None, s) => (- EBADF, s)
  | (Some fid, s) =>
      let '(retval, s) :=
        if whence <=? SEEK_MAX then
          let '(res, s) := vfs_llseek fid offset whence s in
          let retval := i64 res in
          (if negb (res =? i64 retval) then - EOVERFLOW else retval, s)
        else (- EINVAL, s) in
      (retval, fdput_pos s)
  end.

Definition sys_lseek (fd offset whence : Z) s : Z * vfs D := ksys_lseek fd offset whence s.

(** [compat_off_t] is an [int]. *)
Definition compat_sys_lseek (fd offset whence : Z) s : Z * vfs D :=
  ksys_lseek fd (i32 offset) whence s.

(** Result, what was written through [result], and the state. *)
Definition sys_llseek (fd offset_high offset_low result whence : Z) s : Z * option Z * vfs D :=
  match fdget_pos fd s with
  | (None, s) => (- EBADF, None, s)
  | (Some fid, s) =>
      if SEEK_MAX <? whence then (- EINVAL, None, fdput_pos s)
      else
        let '(offset, s) :=
          vfs_llseek fid (i64 (Z.lor (u64 (Z.shiftl offset_high 32)) offset_low)) whence s in
        if 0 <=? offset then
          if copy_to_user (f_ua e) result 8 =? 0 then (0, Some offset, fdput_pos s)
          else (- EFAULT, None, fdput_pos s)
        else (i32 offset, None, fdput_pos s)
  end.

End seek.
End File.
