(* ===== verification/ReadWrite.v ===== *)
(** * Reading and writing ([fs/read_write.c])

    [read], [write], their positioned and vectored forms and the kernel-internal entry
    points, over the open files of File.v.  Notifications ([fsnotify_access],
    [fsnotify_modify]) have no effect on this state.  The assertion that a driver has not
    queued a synchronous transfer is [BUG_ON], which marks the state. *)
From S2P Require Import Prelude File.

Module ReadWrite.
Import File.

Definition MAX_RW_COUNT : Z := 0x7ffff000.   (* INT_MAX & PAGE_MASK *)
Definition MAY_WRITE : Z := 2.
Definition MAY_READ : Z := 4.
Definition RWF_HIPRI : Z := 1.
Definition EIOCBQUEUED : Z := 529.

Inductive direction := READ | WRITE.

#[export] Instance direction_eq_dec : EqDecision direction.
Proof. solve_decision. Defined.

Section ops.
Context {D : Type} (e : fs_env D).
Implicit Types s : vfs D.

(** ** Checks before a transfer *)

Definition rw_verify_area (read_write : direction) (fid : Z) (f : file) (pos : ppos) (count : Z)
    : Z :=
  let mask := match read_write with READ => MAY_READ | WRITE => MAY_WRITE end in
  let permitted :=
    let ret := security_file_permission e fid mask in
    if negb (ret =? 0) then ret else fsnotify_file_area_perm e fid mask pos count in
  if i64 count <? 0 then - EINVAL
  else match pos with
  | None => permitted
  | Some pos =>
      if pos <? 0 then
        if negb (unsigned_offsets f) then - EINVAL
        else if u64 (- pos) <=? count then - EOVERFLOW
        else permitted
      else if i64 (pos + count) <? 0 then
        if negb (unsigned_offsets f) then - EINVAL else permitted
      else permitted
  end.

(** [pos ? *pos : 0] *)
Definition pos_or_0 (pos : ppos) : Z := match pos with Some p => p | None => 0 end.

(** ** Single transfers

    Each returns the count or an error, the value of the position argument and the
    state. *)

Definition new_sync_read (fid buf len : Z) (pos : ppos) s : Z * ppos * vfs D :=
  let '(ret, ki_pos, d) :=
    drv_read_iter e fid [(buf, len)] (iocb_flags e fid) (pos_or_0 pos) (dev s) in
  (ret, (fun _ => ki_pos) <$> pos, BUG_ON (ret =? - EIOCBQUEUED) (set_dev d s)).

Definition __kernel_read (fid buf count : Z) (pos : ppos) s : Z * ppos * vfs D :=
  let f := files s fid in
  if negb (flag_set (f_mode f) FMODE_READ) then (- EINVAL, pos, s)
  else if negb (flag_set (f_mode f) FMODE_CAN_READ) then (- EINVAL, pos, s)
  else if negb (has_read_iter e fid) || has_read e fid then (- EINVAL, pos, s)
  else
    let '(ret, ki_pos, d) :=
      drv_read_iter e fid [(buf, Z.min count MAX_RW_COUNT)] (iocb_flags e fid) (pos_or_0 pos)
        (dev s) in
    let s := set_dev d s in
    if 0 <? ret then (ret, (fun _ => ki_pos) <$> pos, inc_syscr (add_rchar ret s))
    else (ret, pos, inc_syscr s).

Definition kernel_read (fid buf count : Z) (pos : ppos) s : Z * ppos * vfs D :=
  let ret := rw_verify_area READ fid (files s fid) pos count in
  if negb (ret =? 0) then (ret, pos, s) else __kernel_read fid buf count pos s.

Definition vfs_read (fid buf count : Z) (pos : ppos) s : Z * ppos * vfs D :=
  let f := files s fid in
  if negb (flag_set (f_mode f) FMODE_READ) then (- EBADF, pos, s)
  else if negb (flag_set (f_mode f) FMODE_CAN_READ) then (- EINVAL, pos, s)
  else if negb (access_ok e buf count) then (- EFAULT, pos, s)
  else
    let ret := rw_verify_area READ fid f pos count in
    if negb (ret =? 0) then (ret, pos, s)
    else
      let count := if MAX_RW_COUNT <? count then MAX_RW_COUNT else count in
      let '(ret, pos, s) :=
        if has_read e fid then
          let '(ret, pos, d) := drv_read e fid buf count pos (dev s) in (ret, pos, set_dev d s)
        else if has_read_iter e fid then new_sync_read fid buf count pos s
        else (- EINVAL, pos, s) in
      (ret, pos, inc_syscr (if 0 <? ret then add_rchar ret s else s)).

Definition new_sync_write (fid buf len : Z) (pos : ppos) s : Z * ppos * vfs D :=
  let '(ret, ki_pos, d) :=
    drv_write_iter e fid [(buf, len)] (iocb_flags e fid) (pos_or_0 pos) (dev s) in
  (ret, if 0 <? ret then (fun _ => ki_pos) <$> pos else pos,
   BUG_ON (ret =? - EIOCBQUEUED) (set_dev d s)).

Definition __kernel_write_iter (fid : Z) (from : iovec) (pos : ppos) s : Z * ppos * vfs D :=
  let f := files s fid in
  if negb (flag_set (f_mode f) FMODE_WRITE) then (- EBADF, pos, s)
  else if negb (flag_set (f_mode f) FMODE_CAN_WRITE) then (- EINVAL, pos, s)
  else if negb (has_write_iter e fid) || has_write e fid then (- EINVAL, pos, s)
  else
    let '(ret, ki_pos, d) :=
      drv_write_iter e fid from (iocb_flags e fid) (pos_or_0 pos) (dev s) in
    let s := set_dev d s in
    if 0 <? ret then (ret, (fun _ => ki_pos) <$> pos, inc_syscw (add_wchar ret s))
    else (ret, pos, inc_syscw s).

Definition __kernel_write (fid buf count : Z) (pos : ppos) s : Z * ppos * vfs D :=
  __kernel_write_iter fid [(buf, Z.min count MAX_RW_COUNT)] pos s.

Definition kernel_write (fid buf count : Z) (pos : ppos) s : Z * ppos * vfs D :=
  let ret := rw_verify_area WRITE fid (files s fid) pos count in
  if negb (ret =? 0) then (ret, pos, s)
  else
    let s := file_start_write s in
    let '(ret, pos, s) := __kernel_write fid buf count pos s in
    (ret, pos, file_end_write s).

Definition vfs_write (fid buf count : Z) (pos : ppos) s : Z * ppos * vfs D :=
  let f := files s fid in
  if negb (flag_set (f_mode f) FMODE_WRITE) then (- EBADF, pos, s)
  else if negb (flag_set (f_mode f) FMODE_CAN_WRITE) then (- EINVAL, pos, s)
  else if negb (access_ok e buf count) then (- EFAULT, pos, s)
  else
    let ret := rw_verify_area WRITE fid f pos count in
    if negb (ret =? 0) then (ret, pos, s)
    else
      let count := if MAX_RW_COUNT <? count then MAX_RW_COUNT else count in
      let s := file_start_write s in
      let '(ret, pos, s) :=
        if has_write e fid then
          let '(ret, pos, d) := drv_write e fid buf count pos (dev s) in (ret, pos, set_dev d s)
        else if has_write_iter e fid then new_sync_write fid buf count pos s
        else (- EINVAL, pos, s) in
      (ret, pos, file_end_write (inc_syscw (if 0 <? ret then add_wchar ret s else s))).

(** ** The calls on a descriptor *)

(** [file_ppos], read: the offset the call works on a copy of. *)
Definition file_ppos (f : file) : ppos :=
  if flag_set (f_mode f) FMODE_STREAM then None else Some (f_pos f).

(** [if (ret >= 0 && ppos) f.file->f_pos = pos;] *)
Definition store_pos (fid ret : Z) (pos : ppos) s : vfs D :=
  match pos with
  | Some p => if 0 <=? ret then upd_file fid (set_pos p) s else s
  | None => s
  end.

(** What [read], [write], [readv] and [writev] do after the transfer: store the offset
    and let the descriptor and its position lock go. *)
Definition finish_pos (fid : Z) (r : Z * ppos * vfs D) : Z * vfs D :=
  let '(ret, pos, s) := r in (ret, fdput_pos (store_pos fid ret pos s)).

(** Their frame: take the descriptor with its position lock, run the transfer on a copy
    of the offset. *)
Definition with_file_pos (fd : Z) (transfer : Z -> ppos -> vfs D -> Z * ppos * vfs D) s
    : Z * vfs D :=
  match fdget_pos fd s with
  | (None, s) => (- EBADF, s)
  | (Some fid, s) => finish_pos fid (transfer fid (file_ppos (files s fid)) s)
  end.

(** The frame of the positioned forms: the caller's position is passed, and no lock. *)
Definition with_own_pos (fd pos mode : Z) (transfer : Z -> ppos -> vfs D -> Z * ppos * vfs D) s
    : Z * vfs D :=
  match fdget fd s with
  | (None, s) => (- EBADF, s)
  | (Some fid, s) =>
      if flag_set (f_mode (files s fid)) mode then
        let '(ret, _, s) := transfer fid (Some pos) s in (ret, fdput s)
      else (- ESPIPE, fdput s)
  end.

Definition ksys_read (fd buf count : Z) s : Z * vfs D :=
  with_file_pos fd (fun fid pos => vfs_read fid buf count pos) s.

Definition ksys_write (fd buf count : Z) s : Z * vfs D :=
  with_file_pos fd (fun fid pos => vfs_write fid buf count pos) s.

Definition ksys_pread64 (fd buf count pos : Z) s : Z * vfs D :=
  if pos <? 0 then (- EINVAL, s)
  else with_own_pos fd pos FMODE_PREAD (fun fid pos => vfs_read fid buf count pos) s.

Definition sys_pread64 (fd buf count pos : Z) s : Z * vfs D := ksys_pread64 fd buf count pos s.

Definition ksys_pwrite64 (fd buf count pos : Z) s : Z * vfs D :=
  if pos <? 0 then (- EINVAL, s)
  else with_own_pos fd pos FMODE_PWRITE (fun fid pos => vfs_write fid buf count pos) s.

Definition sys_pwrite64 (fd buf count pos : Z) s : Z * vfs D := ksys_pwrite64 fd buf count pos s.

(** [compat_arg_u64_glue]: the position from two 32-bit registers, low half first. *)
Definition glue (lo hi : Z) : Z := i64 (Z.lor (u32 lo) (u64 (Z.shiftl (u32 hi) 32))).
Definition compat_sys_pread64 (fd buf count lo hi : Z) s : Z * vfs D :=
  ksys_pread64 fd buf count (glue lo hi) s.
Definition compat_sys_pwrite64 (fd buf count lo hi : Z) s : Z * vfs D :=
  ksys_pwrite64 fd buf count (glue lo hi) s.

(** ** Vectored transfers *)

Definition call_iter (type : direction) :=
  match type with READ => drv_read_iter e | WRITE => drv_write_iter e end.

Definition do_iter_readv_writev (fid : Z) (iter : iovec) (pos : ppos) (type : direction)
    (flags : Z) s : Z * ppos * vfs D :=
  match kiocb_set_rw_flags e fid flags with
  | inl err => (err, pos, s)
  | inr ki_flags =>
      let '(ret, ki_pos, d) := call_iter type fid iter ki_flags (pos_or_0 pos) (dev s) in
      (ret, (fun _ => ki_pos) <$> pos, BUG_ON (ret =? - EIOCBQUEUED) (set_dev d s))
  end.

(** The [while] loop of [do_loop_readv_writev], [ret] bytes moved so far; [None] is no
    result within the fuel.  The iterator has a current segment as long as its count is
    not 0. *)
Fixpoint readv_writev_loop (fuel : nat) (fid : Z) (iter : iovec) (pos : ppos) (type : direction)
    (ret : Z) s : option (Z * ppos * vfs D) :=
  match fuel with
  | O => None
  | S fuel =>
    if iov_iter_count iter =? 0 then Some (ret, pos, s)
    else match iter with
    | [] => Some (ret, pos, s)
    | (addr, len) :: _ =>
        let '(nr, pos, d) :=
          (match type with READ => drv_read e | WRITE => drv_write e end) fid addr len pos (dev s) in
        let s := set_dev d s in
        if nr <? 0 then Some (if ret =? 0 then nr else ret, pos, s)
        else if negb (nr =? len) then Some (i64 (ret + nr), pos, s)
        else readv_writev_loop fuel fid (iov_iter_advance e nr iter) pos type (i64 (ret + nr)) s
    end
  end.

Definition do_loop_readv_writev (fuel : nat) (fid : Z) (iter : iovec) (pos : ppos)
    (type : direction) (flags : Z) s : option (Z * ppos * vfs D) :=
  if flag_set flags (Z.lnot RWF_HIPRI) then Some (- EOPNOTSUPP, pos, s)
  else readv_writev_loop fuel fid iter pos type 0 s.

(** A [struct kiocb]: position and flags; the position comes back with the result. *)
Definition vfs_iocb_iter_read (fid ki_pos ki_flags : Z) (iter : iovec) s : Z * Z * vfs D :=
  let f := files s fid in
  if negb (has_read_iter e fid) then (- EINVAL, ki_pos, s)
  else if negb (flag_set (f_mode f) FMODE_READ) then (- EBADF, ki_pos, s)
  else if negb (flag_set (f_mode f) FMODE_CAN_READ) then (- EINVAL, ki_pos, s)
  else if iov_iter_count iter =? 0 then (0, ki_pos, s)
  else
    let ret := rw_verify_area READ fid f (Some ki_pos) (iov_iter_count iter) in
    if ret <? 0 then (ret, ki_pos, s)
    else
      let '(ret, ki_pos, d) := drv_read_iter e fid iter ki_flags ki_pos (dev s) in
      (ret, ki_pos, set_dev d s).

Definition vfs_iter_read (fid : Z) (iter : iovec) (pos : ppos) (flags : Z) s : Z * ppos * vfs D :=
  let f := files s fid in
  if negb (has_read_iter e fid) then (- EINVAL, pos, s)
  else if negb (flag_set (f_mode f) FMODE_READ) then (- EBADF, pos, s)
  else if negb (flag_set (f_mode f) FMODE_CAN_READ) then (- EINVAL, pos, s)
  else if iov_iter_count iter =? 0 then (0, pos, s)
  else
    let ret := rw_verify_area READ fid f pos (iov_iter_count iter) in
    if ret <? 0 then (ret, pos, s) else do_iter_readv_writev fid iter pos READ flags s.

(** A queued write keeps its write section open for the completion to close. *)
Definition vfs_iocb_iter_write (fid ki_pos ki_flags : Z) (iter : iovec) s : Z * Z * vfs D :=
  let f := files s fid in
  if negb (has_write_iter e fid) then (- EINVAL, ki_pos, s)
  else if negb (flag_set (f_mode f) FMODE_WRITE) then (- EBADF, ki_pos, s)
  else if negb (flag_set (f_mode f) FMODE_CAN_WRITE) then (- EINVAL, ki_pos, s)
  else if iov_iter_count iter =? 0 then (0, ki_pos, s)
  else
    let ret := rw_verify_area WRITE fid f (Some ki_pos) (iov_iter_count iter) in
    if ret <? 0 then (ret, ki_pos, s)
    else
      let s := file_start_write s in
      let '(ret, ki_pos, d) := drv_write_iter e fid iter ki_flags ki_pos (dev s) in
      let s := set_dev d s in
      (ret, ki_pos, if negb (ret =? - EIOCBQUEUED) then file_end_write s else s).

Definition vfs_iter_write (fid : Z) (iter : iovec) (pos : ppos) (flags : Z) s : Z * ppos * vfs D :=
  let f := files s fid in
  if negb (flag_set (f_mode f) FMODE_WRITE) then (- EBADF, pos, s)
  else if negb (flag_set (f_mode f) FMODE_CAN_WRITE) then (- EINVAL, pos, s)
  else if negb (has_write_iter e fid) then (- EINVAL, pos, s)
  else if iov_iter_count iter =? 0 then (0, pos, s)
  else
    let ret := rw_verify_area WRITE fid f pos (iov_iter_count iter) in
    if ret <? 0 then (ret, pos, s)
    else
      let '(ret, pos, s) := do_iter_readv_writev fid iter pos WRITE flags (file_start_write s) in
      (ret, pos, file_end_write s).

(** The loop is run with as many turns as there are segments, and one to leave. *)
Definition loop_fuel (iter : iovec) : nat := S (length iter).

(** The choice both vectored calls make; a loop without a result would be [None]. *)
Definition rw_vector (has_iter : bool) (fid : Z) (iter : iovec) (pos : ppos) (type : direction)
    (flags : Z) s : option (Z * ppos * vfs D) :=
  if has_iter then Some (do_iter_readv_writev fid iter pos type flags s)
  else do_loop_readv_writev (loop_fuel iter) fid iter pos type flags s.

Definition vfs_readv (fid vec vlen : Z) (pos : ppos) (flags : Z) s : option (Z * ppos * vfs D) :=
  let f := files s fid in
  if negb (flag_set (f_mode f) FMODE_READ) then Some (- EBADF, pos, s)
  else if negb (flag_set (f_mode f) FMODE_CAN_READ) then Some (- EINVAL, pos, s)
  else match import_iovec e vec vlen with
  | inl err => Some (err, pos, s)
  | inr iter =>
      if iov_iter_count iter =? 0 then Some (iov_iter_count iter, pos, s)
      else
        let ret := rw_verify_area READ fid f pos (iov_iter_count iter) in
        if ret <? 0 then Some (ret, pos, s)
        else rw_vector (has_read_iter e fid) fid iter pos READ flags s
  end.

Definition vfs_writev (fid vec vlen : Z) (pos : ppos) (flags : Z) s : option (Z * ppos * vfs D) :=
  let f := files s fid in
  if negb (flag_set (f_mode f) FMODE_WRITE) then Some (- EBADF, pos, s)
  else if negb (flag_set (f_mode f) FMODE_CAN_WRITE) then Some (- EINVAL, pos, s)
  else match import_iovec e vec vlen with
  | inl err => Some (err, pos, s)
  | inr iter =>
      if iov_iter_count iter =? 0 then Some (iov_iter_count iter, pos, s)
      else
        let ret := rw_verify_area WRITE fid f pos (iov_iter_count iter) in
        if ret <? 0 then Some (ret, pos, s)
        else
          r ← rw_vector (has_write_iter e fid) fid iter pos WRITE flags (file_start_write s);
          Some (r.1, file_end_write r.2)
  end.

(** ** The vectored calls *)

(** [if (ret > 0) add_rchar(current, ret); inc_syscr(current);] and its mirror. *)
Definition account_read (r : Z * vfs D) : Z * vfs D :=
  let '(ret, s) := r in (ret, inc_syscr (if 0 <? ret then add_rchar ret s else s)).
Definition account_write (r : Z * vfs D) : Z * vfs D :=
  let '(ret, s) := r in (ret, inc_syscw (if 0 <? ret then add_wchar ret s else s)).

Definition do_readv (fd vec vlen flags : Z) s : option (Z * vfs D) :=
  account_read <$>
  match fdget_pos fd s with
  | (None, s) => Some (- EBADF, s)
  | (Some fid, s) =>
      finish_pos fid <$> vfs_readv fid vec vlen (file_ppos (files s fid)) flags s
  end.

Definition do_writev (fd vec vlen flags : Z) s : option (Z * vfs D) :=
  account_write <$>
  match fdget_pos fd s with
  | (None, s) => Some (- EBADF, s)
  | (Some fid, s) =>
      finish_pos fid <$> vfs_writev fid vec vlen (file_ppos (files s fid)) flags s
  end.

Definition do_preadv (fd vec vlen pos flags : Z) s : option (Z * vfs D) :=
  if pos <? 0 then Some (- EINVAL, s)
  else
    account_read <$>
    match fdget fd s with
    | (None, s) => Some (- EBADF, s)
    | (Some fid, s) =>
        if flag_set (f_mode (files s fid)) FMODE_PREAD then
          (fun r => (r.1.1, fdput r.2)) <$> vfs_readv fid vec vlen (Some pos) flags s
        else Some (- ESPIPE, fdput s)
    end.

Definition do_pwritev (fd vec vlen pos flags : Z) s : option (Z * vfs D) :=
  if pos <? 0 then Some (- EINVAL, s)
  else
    account_write <$>
    match fdget fd s with
    | (None, s) => Some (- EBADF, s)
    | (Some fid, s) =>
        if flag_set (f_mode (files s fid)) FMODE_PWRITE then
          (fun r => (r.1.1, fdput r.2)) <$> vfs_writev fid vec vlen (Some pos) flags s
        else Some (- ESPIPE, fdput s)
    end.

Definition HALF_LONG_BITS : Z := 32.
Definition pos_from_hilo (high low : Z) : Z :=
  i64 (Z.lor (u64 (Z.shiftl (u64 (Z.shiftl high HALF_LONG_BITS)) HALF_LONG_BITS)) low).

Definition sys_readv (fd vec vlen : Z) s := do_readv fd vec vlen 0 s.
Definition sys_writev (fd vec vlen : Z) s := do_writev fd vec vlen 0 s.
Definition sys_preadv (fd vec vlen pos_l pos_h : Z) s :=
  do_preadv fd vec vlen (pos_from_hilo pos_h pos_l) 0 s.
Definition sys_preadv2 (fd vec vlen pos_l pos_h flags : Z) s :=
  let pos := pos_from_hilo pos_h pos_l in
  if pos =? -1 then do_readv fd vec vlen flags s else do_preadv fd vec vlen pos flags s.
Definition sys_pwritev (fd vec vlen pos_l pos_h : Z) s :=
  do_pwritev fd vec vlen (pos_from_hilo pos_h pos_l) 0 s.
Definition sys_pwritev2 (fd vec vlen pos_l pos_h flags : Z) s :=
  let pos := pos_from_hilo pos_h pos_l in
  if pos =? -1 then do_writev fd vec vlen flags s else do_pwritev fd vec vlen pos flags s.

(** The 32-bit entry points; the arguments [pos_low] and [pos_high] are [u32]. *)
Definition compat_pos (pos_low pos_high : Z) : Z := i64 (Z.lor (Z.shiftl pos_high 32) pos_low).
Definition compat_sys_preadv64 (fd vec vlen pos : Z) s := do_preadv fd vec vlen pos 0 s.
Definition compat_sys_preadv (fd vec vlen pos_low pos_high : Z) s :=
  do_preadv fd vec vlen (compat_pos pos_low pos_high) 0 s.
Definition compat_sys_preadv64v2 (fd vec vlen pos flags : Z) s :=
  if pos =? -1 then do_readv fd vec vlen flags s else do_preadv fd vec vlen pos flags s.
Definition compat_sys_preadv2 (fd vec vlen pos_low pos_high flags : Z) s :=
  let pos := compat_pos pos_low pos_high in
  if pos =? -1 then do_readv fd vec vlen flags s else do_preadv fd vec vlen pos flags s.
Definition compat_sys_pwritev64 (fd vec vlen pos : Z) s := do_pwritev fd vec vlen pos 0 s.
Definition compat_sys_pwritev (fd vec vlen pos_low pos_high : Z) s :=
  do_pwritev fd vec vlen (compat_pos pos_low pos_high) 0 s.
Definition compat_sys_pwritev64v2 (fd vec vlen pos flags : Z) s :=
  if pos =? -1 then do_writev fd vec vlen flags s else do_pwritev fd vec vlen pos flags s.
Definition compat_sys_pwritev2 (fd vec vlen pos_low pos_high flags : Z) s :=
  let pos := compat_pos pos_low pos_high in
  if pos =? -1 then do_writev fd vec vlen flags s else do_pwritev fd vec vlen pos flags s.

End ops.
End ReadWrite.
