(* ===== verification/Copy.v ===== *)
(** * Copies between files and the checks before a write ([fs/read_write.c])

    [sendfile], [copy_file_range] and the checks file systems run before a write.  The
    splice code and the file systems' own copy methods are fields of [copy_env]. *)
From S2P Require Import Prelude File ReadWrite.

Module Copy.
Import File ReadWrite.

Definition MAX_NON_LFS : Z := 2 ^ 31 - 1.
Definition RLIM_INFINITY : Z := 2 ^ 64 - 1.
Definition SPLICE_F_NONBLOCK : Z := 2.
Definition COPY_FILE_SPLICE : Z := 1.
Definition REMAP_FILE_CAN_SHORTEN : Z := 2.
Definition IOCB_APPEND : Z := 0x2.
Definition IOCB_DIRECT : Z := 0x20000.
Definition IOCB_NOWAIT : Z := 0x8.

(** [do_splice_direct]: input, position, output, position, count, flags; answers the
    count or an error and both positions.  [copy_file_range] identifies the method of a
    file, if it has one.  [get_loff]/[get_off]/[get_compat_off] read user memory. *)
Record copy_env (D : Type) := {
  do_splice_direct : Z -> Z -> Z -> Z -> Z -> Z -> D -> Z * Z * Z * D;
  splice_file_to_pipe : Z -> Z -> Z -> Z -> Z -> D -> Z * Z * D;
  is_pipe : Z -> bool;
  copy_file_range_op : Z -> option Z;
  drv_copy_file_range : Z -> Z -> Z -> Z -> Z -> Z -> D -> Z * D;
  has_remap_file_range : Z -> bool;
  drv_remap_file_range : Z -> Z -> Z -> Z -> Z -> Z -> D -> Z * D;
  rlimit_fsize : Z;
  get_loff : Z -> option Z;
  get_off : Z -> option Z;
  get_compat_off : Z -> option Z
}.
#[global] Arguments do_splice_direct {D}. #[global] Arguments splice_file_to_pipe {D}.
#[global] Arguments is_pipe {D}. #[global] Arguments copy_file_range_op {D}.
#[global] Arguments drv_copy_file_range {D}. #[global] Arguments has_remap_file_range {D}.
#[global] Arguments drv_remap_file_range {D}. #[global] Arguments rlimit_fsize {D}.
#[global] Arguments get_loff {D}. #[global] Arguments get_off {D}.
#[global] Arguments get_compat_off {D}.

Section ops.
Context {D : Type} (e : fs_env D) (ce : copy_env D).
Implicit Types s : vfs D.

Definition file_inode (f : file) s : inode := inode_of e (f_inode f) (dev s).

(** ** Checks *)

Definition generic_file_rw_checks (f_in f_out : file) (inode_in inode_out : inode) : Z :=
  if bool_decide (i_kind inode_in = Directory) || bool_decide (i_kind inode_out = Directory)
  then - EISDIR
  else if negb (bool_decide (i_kind inode_in = Regular))
       || negb (bool_decide (i_kind inode_out = Regular)) then - EINVAL
  else if negb (flag_set (f_mode f_in) FMODE_READ) || negb (flag_set (f_mode f_out) FMODE_WRITE)
       || flag_set (f_flags f_out) O_APPEND then - EBADF
  else 0.

(** Result, [*count] and whether [SIGXFSZ] was sent.  [limit] is the rlimit as a
    [loff_t]; its comparison with [RLIM_INFINITY] is unsigned. *)
Definition generic_write_check_limits (f : file) (i : inode) (pos count : Z) : Z * Z * bool :=
  let limit := i64 (rlimit_fsize ce) in
  let limited := negb (u64 limit =? RLIM_INFINITY) in
  if limited && (limit <=? pos) then (- EFBIG, count, true)
  else
    let count := if limited then Z.min count (i64 (limit - pos)) else count in
    let max_size := if negb (flag_set (f_flags f) O_LARGEFILE) then MAX_NON_LFS else s_maxbytes i in
    if max_size <=? pos then (- EFBIG, count, false)
    else (0, Z.min count (i64 (max_size - pos)), false).

(** Result, [iocb->ki_pos], [*count], signal. *)
Definition generic_write_checks_count (f : file) (i : inode) (ki_pos ki_flags count : Z)
    : Z * Z * Z * bool :=
  if is_swapfile i then (- ETXTBSY, ki_pos, count, false)
  else if count =? 0 then (0, ki_pos, count, false)
  else
    let ki_pos := if flag_set ki_flags IOCB_APPEND then i_size i else ki_pos in
    if flag_set ki_flags IOCB_NOWAIT
       && negb (flag_set ki_flags IOCB_DIRECT || flag_set (f_mode f) FMODE_BUF_WASYNC)
    then (- EINVAL, ki_pos, count, false)
    else
      let '(ret, count, sig) := generic_write_check_limits f i ki_pos count in
      (ret, ki_pos, count, sig).

(** Result, [iocb->ki_pos], the iterator, signal. *)
Definition generic_write_checks (f : file) (i : inode) (ki_pos ki_flags : Z) (from : iovec)
    : Z * Z * iovec * bool :=
  let '(ret, ki_pos, count, sig) :=
    generic_write_checks_count f i ki_pos ki_flags (i64 (iov_iter_count from)) in
  if negb (ret =? 0) then (ret, ki_pos, from, sig)
  else
    let from := iov_iter_truncate e count from in
    (iov_iter_count from, ki_pos, from, sig).

(** Result and [*req_count].  [count] is a [uint64_t] here and a [loff_t] behind the
    pointer given to [generic_write_check_limits]. *)
Definition generic_copy_file_checks (fid_in : Z) (pos_in : Z) (fid_out : Z) (pos_out : Z)
    (req_count flags : Z) s : Z * Z :=
  let f_in := files s fid_in in
  let f_out := files s fid_out in
  let inode_in := file_inode f_in s in
  let inode_out := file_inode f_out s in
  let ret := generic_file_rw_checks f_in f_out inode_in inode_out in
  if negb (ret =? 0) then (ret, req_count)
  else if negb (flag_set flags COPY_FILE_SPLICE)
       && (match copy_file_range_op ce fid_out with
           | Some op => negb (bool_decide (copy_file_range_op ce fid_in = Some op))
           | None => negb (i_sb inode_in =? i_sb inode_out)
           end) then (- EXDEV, req_count)
  else if is_immutable inode_out then (- EPERM, req_count)
  else if is_swapfile inode_in || is_swapfile inode_out then (- ETXTBSY, req_count)
  else if (u64 (pos_in + req_count) <? u64 pos_in) || (u64 (pos_out + req_count) <? u64 pos_out)
  then (- EOVERFLOW, req_count)
  else
    let size_in := i_size inode_in in
    let count :=
      if size_in <=? pos_in then 0 else Z.min req_count (u64 (size_in - pos_in)) in
    let '(ret, count, _) := generic_write_check_limits f_out inode_out pos_out (i64 count) in
    let count := u64 count in
    if negb (ret =? 0) then (ret, req_count)
    else if (f_inode f_in =? f_inode f_out)
         && (u64 pos_in <? u64 (pos_out + count)) && (u64 pos_out <? u64 (pos_in + count))
    then (- EINVAL, req_count)
    else (0, count).

(** ** [sendfile] *)

(** Result, the value of [*ppos], the state. *)
Definition do_sendfile (out_fd in_fd : Z) (ppos_ : ppos) (count max : Z) s : Z * ppos * vfs D :=
  match fdget in_fd s with
  | (None, s) => (- EBADF, ppos_, s)
  | (Some fin, s) =>
    let f_in := files s fin in
    if negb (flag_set (f_mode f_in) FMODE_READ) then (- EBADF, ppos_, fdput s)
    else if bool_decide (is_Some ppos_) && negb (flag_set (f_mode f_in) FMODE_PREAD)
    then (- ESPIPE, ppos_, fdput s)
    else
      let pos := match ppos_ with Some p => p | None => f_pos f_in end in
      let retval := rw_verify_area e READ fin f_in (Some pos) count in
      if retval <? 0 then (retval, ppos_, fdput s)
      else
        let count := if MAX_RW_COUNT <? count then MAX_RW_COUNT else count in
        match fdget out_fd s with
        | (None, s) => (- EBADF, ppos_, fdput s)
        | (Some fout, s) =>
          let f_out := files s fout in
          if negb (flag_set (f_mode f_out) FMODE_WRITE) then (- EBADF, ppos_, fdput (fdput s))
          else
            let out_pos := f_pos f_out in
            let max :=
              if max =? 0 then
                Z.min (s_maxbytes (file_inode f_in s)) (s_maxbytes (file_inode f_out s))
              else max in
            let over := u64 max <? u64 (pos + count) in
            if over && (max <=? pos) then (- EOVERFLOW, ppos_, fdput (fdput s))
            else
              let count := if over then u64 (max - pos) else count in
              let retval :=
                if is_pipe ce fout then 0
                else rw_verify_area e WRITE fout f_out (Some out_pos) count in
              if retval <? 0 then (retval, ppos_, fdput (fdput s))
              else
                let '(retval, pos, out_pos, d) :=
                  if is_pipe ce fout then
                    let fl := if flag_set (f_flags f_out) O_NONBLOCK then SPLICE_F_NONBLOCK else 0 in
                    let '(ret, pos, d) := splice_file_to_pipe ce fin fout pos count fl (dev s) in
                    (ret, pos, out_pos, d)
                  else do_splice_direct ce fin pos fout out_pos count 0 (dev s) in
                let s := set_dev d s in
                let '(ppos_, s) :=
                  if 0 <? retval then
                    let s := add_wchar retval (add_rchar retval s) in
                    let s := upd_file fout (set_pos out_pos) s in
                    match ppos_ with
                    | Some _ => (Some pos, s)
                    | None => (None, upd_file fin (set_pos pos) s)
                    end
                  else (ppos_, s) in
                let s := inc_syscw (inc_syscr s) in
                (if max <? pos then - EOVERFLOW else retval, ppos_, fdput (fdput s))
        end
  end.

(** The entry points: [offset] is a user pointer, 0 for none; [load] reads through it,
    [size] bytes are stored, converted by [conv].  Result, what was stored, the
    state. *)
Definition sendfile_at (load : Z -> option Z) (size max : Z) (conv : Z -> Z)
    (out_fd in_fd offset count : Z) s : Z * option Z * vfs D :=
  if negb (offset =? 0) then
    match load offset with
    | None => (- EFAULT, None, s)
    | Some pos =>
        let '(ret, pos', s) := do_sendfile out_fd in_fd (Some pos) count max s in
        if copy_to_user (f_ua e) offset size =? 0
        then (ret, Some (conv (pos_or_0 pos')), s) else (- EFAULT, None, s)
    end
  else let '(ret, _, s) := do_sendfile out_fd in_fd None count 0 s in (ret, None, s).

Definition sys_sendfile (out_fd in_fd offset count : Z) s :=
  sendfile_at (get_off ce) 8 MAX_NON_LFS (fun p => p) out_fd in_fd offset count s.
Definition sys_sendfile64 (out_fd in_fd offset count : Z) s :=
  sendfile_at (get_loff ce) 8 0 (fun p => p) out_fd in_fd offset count s.
Definition compat_sys_sendfile (out_fd in_fd offset count : Z) s :=
  sendfile_at (get_compat_off ce) 4 MAX_NON_LFS i32 out_fd in_fd offset count s.
Definition compat_sys_sendfile64 (out_fd in_fd offset count : Z) s :=
  sendfile_at (get_loff ce) 8 0 (fun p => p) out_fd in_fd offset count s.

(** ** [copy_file_range] *)

Definition vfs_copy_file_range (fid_in pos_in fid_out pos_out len flags : Z) s : Z * vfs D :=
  let f_in := files s fid_in in
  let f_out := files s fid_out in
  let splice := flag_set flags COPY_FILE_SPLICE in
  let samesb := i_sb (file_inode f_in s) =? i_sb (file_inode f_out s) in
  if flag_set flags (Z.lnot COPY_FILE_SPLICE) then (- EINVAL, s)
  else
    let '(ret, len) := generic_copy_file_checks fid_in pos_in fid_out pos_out len flags s in
    if negb (ret =? 0) then (ret, s)
    else
      let ret := rw_verify_area e READ fid_in f_in (Some pos_in) len in
      if negb (ret =? 0) then (ret, s)
      else
        let ret := rw_verify_area e WRITE fid_out f_out (Some pos_out) len in
        if negb (ret =? 0) then (ret, s)
        else if len =? 0 then (0, s)
        else
          let s := file_start_write s in
          let '(ret, splice, d) :=
            if negb splice && bool_decide (is_Some (copy_file_range_op ce fid_out)) then
              let '(ret, d) :=
                drv_copy_file_range ce fid_in pos_in fid_out pos_out len flags (dev s) in
              (ret, splice, d)
            else if negb splice && has_remap_file_range ce fid_in && samesb then
              let '(ret, d) :=
                drv_remap_file_range ce fid_in pos_in fid_out pos_out
                  (Z.min MAX_RW_COUNT (i64 len)) REMAP_FILE_CAN_SHORTEN (dev s) in
              (ret, if ret <=? 0 then true else splice, d)
            else (ret, if samesb then true else splice, dev s) in
          let s := file_end_write (set_dev d s) in
          let '(ret, d) :=
            if negb splice then (ret, dev s)
            else
              let '(ret, _, _, d) :=
                do_splice_direct ce fid_in pos_in fid_out pos_out (Z.min len MAX_RW_COUNT) 0
                  (dev s) in
              (ret, d) in
          let s := set_dev d s in
          let s := if 0 <? ret then add_wchar ret (add_rchar ret s) else s in
          (ret, inc_syscw (inc_syscr s)).

(** One end of the call: where it starts, and storing where it ended.  [load_pos] is
    [None] on a fault; [store_end] returns the result, what was stored and the state. *)
Definition load_pos (fid off : Z) s : option Z :=
  if negb (off =? 0) then get_loff ce off else Some (f_pos (files s fid)).
Definition store_end (fid off pos ret : Z) s : Z * option Z * vfs D :=
  if negb (off =? 0) then
    if copy_to_user (f_ua e) off 8 =? 0 then (ret, Some pos, s) else (- EFAULT, None, s)
  else (ret, None, upd_file fid (set_pos pos) s).

(** Result, what was stored through each pointer, the state. *)
Definition sys_copy_file_range (fd_in off_in fd_out off_out len flags : Z) s
    : Z * option Z * option Z * vfs D :=
  match fdget fd_in s with
  | (None, s) => (- EBADF, None, None, s)
  | (Some fin, s) =>
    match fdget fd_out s with
    | (None, s) => (- EBADF, None, None, fdput s)
    | (Some fout, s) =>
      match load_pos fin off_in s with
      | None => (- EFAULT, None, None, fdput (fdput s))
      | Some pos_in =>
        match load_pos fout off_out s with
        | None => (- EFAULT, None, None, fdput (fdput s))
        | Some pos_out =>
          if negb (flags =? 0) then (- EINVAL, None, None, fdput (fdput s))
          else
            let '(ret, s) := vfs_copy_file_range fin pos_in fout pos_out len flags s in
            if 0 <? ret then
              let '(ret', w_in, s) := store_end fin off_in (i64 (pos_in + ret)) ret s in
              let '(ret', w_out, s) := store_end fout off_out (i64 (pos_out + ret)) ret' s in
              (ret', w_in, w_out, fdput (fdput s))
            else (ret, None, None, fdput (fdput s))
        end
      end
    end
  end.

End ops.
End Copy.
