(* ===== verification/ReadWriteSpec.v ===== *)
(** * Seeking, and what the calls leave as it was

    - [SeekSpec]: the seek functions compute the new offset in exact arithmetic, and a
      refused seek changes nothing;
    - [Frame]: every call gives back the references, locks and write sections it took and
      moves only the offsets it is meant to, whatever the drivers do; the kernel stops in a
      [BUG_ON] only where a driver queues a synchronous transfer. *)
From S2P Require Import Prelude File ReadWrite Copy.

(** ** Seeking *)

Module SeekSpec.
Import File.

(** Where a seek from [pos] goes, if anywhere. *)
Definition seek_target (pos eof offset whence : Z) : option Z :=
  if whence =? SEEK_END then Some (eof + offset)
  else if whence =? SEEK_CUR then Some (pos + offset)
  else if whence =? SEEK_DATA then if (0 <=? offset) && (offset <? eof) then Some offset else None
  else if whence =? SEEK_HOLE then if (0 <=? offset) && (offset <? eof) then Some eof else None
  else Some offset.

(** The specification, over unbounded integers: [f_pos] becomes the target when it is
    in [0, maxsize]; otherwise an error and the same file.  Moving to a new place
    resets [f_version]. *)
Definition seek_spec (f : file) (offset whence maxsize eof : Z) : Z * file :=
  match seek_target (f_pos f) eof offset whence with
  | None => (- ENXIO, f)
  | Some p =>
      if (0 <=? p) && (p <=? maxsize) then
        (p, if p =? f_pos f then f else set_version 0 (set_pos p f))
      else (- EINVAL, f)
  end.

(** Files of a file system with signed offsets. *)
Record seekable (f : file) (maxsize eof : Z) : Prop := {
  sk_signed : unsigned_offsets f = false;
  sk_pos : 0 <= f_pos f <= maxsize;
  sk_eof : 0 <= eof <= maxsize;
  sk_max : maxsize <= OFFSET_MAX
}.

Lemma vfs_setpos_exact f p maxsize :
  unsigned_offsets f = false -> - 2 ^ 63 <= p < 2 ^ 64 -> maxsize <= OFFSET_MAX ->
  vfs_setpos f (i64 p) maxsize =
    if (0 <=? p) && (p <=? maxsize) then
      (p, if p =? f_pos f then f else set_version 0 (set_pos p f))
    else (- EINVAL, f).
Proof.
  intros Hs Hp Hm. unfold vfs_setpos, OFFSET_MAX in *. rewrite Hs, andb_true_r.
  destruct (Z.ltb_spec p (2 ^ 63)) as [Hlt|Hge].
  - rewrite i64_small by lia. destruct (Z.ltb_spec p 0) as [Hn|Hn].
    + by replace (0 <=? p) with false by lia.
    + replace (0 <=? p) with true by lia. simpl.
      destruct (Z.ltb_spec maxsize p); [by replace (p <=? maxsize) with false by lia|].
      replace (p <=? maxsize) with true by lia. by destruct (p =? f_pos f).
  - replace (i64 p <? 0) with true by word_lia.
    replace (p <=? maxsize) with false by lia. by rewrite andb_false_r.
Qed.

Lemma vfs_setpos_exact_small f p maxsize :
  unsigned_offsets f = false -> - 2 ^ 63 <= p < 2 ^ 63 -> maxsize <= OFFSET_MAX ->
  vfs_setpos f p maxsize =
    if (0 <=? p) && (p <=? maxsize) then
      (p, if p =? f_pos f then f else set_version 0 (set_pos p f))
    else (- EINVAL, f).
Proof. intros. rewrite <- vfs_setpos_exact by (done || lia). by rewrite i64_small by lia. Qed.

Lemma spec_in_range (p maxsize : Z) : 0 <= p <= maxsize -> (0 <=? p) && (p <=? maxsize) = true.
Proof. lia. Qed.

Lemma llseek_size_spec (f : file) (offset whence maxsize eof : Z) :
  seekable f maxsize eof -> - 2 ^ 63 <= offset < 2 ^ 63 ->
  generic_file_llseek_size f offset whence maxsize eof = seek_spec f offset whence maxsize eof.
Proof.
  intros [Hs Hp He Hm] Ho. unfold generic_file_llseek_size, seek_spec, seek_target.
  assert (Hmx : maxsize < 2 ^ 63) by (unfold OFFSET_MAX in Hm; lia).
  destruct (whence =? SEEK_END); [rewrite Z.add_comm; apply vfs_setpos_exact; done || lia|].
  destruct (whence =? SEEK_CUR).
  { destruct (Z.eqb_spec offset 0) as [->|]; [|apply vfs_setpos_exact; done || lia].
    rewrite Z.add_0_r, spec_in_range by lia. by rewrite Z.eqb_refl. }
  assert (Hu : (u64 eof <=? u64 offset) = negb ((0 <=? offset) && (offset <? eof))).
  { rewrite (u64_small eof) by lia. destruct (Z.leb_spec 0 offset).
    - rewrite u64_small by lia. lia.
    - rewrite u64_neg by lia. lia. }
  rewrite Hu. destruct (whence =? SEEK_DATA), (whence =? SEEK_HOLE),
    ((0 <=? offset) && (offset <? eof)); simpl; try done; apply vfs_setpos_exact_small;
    done || lia.
Qed.

Lemma seek_spec_seekable f offset whence maxsize eof :
  seekable f maxsize eof -> seekable (snd (seek_spec f offset whence maxsize eof)) maxsize eof.
Proof.
  intros [Hs Hp He Hm]. unfold seek_spec. run_cases; split; simpl; try done; split_bools; lia.
Qed.

(** [generic_file_llseek_size] computes the new offset in exact arithmetic for every
    64-bit offset and every [whence]: sums that overflow a [loff_t] are refused like any
    other offset past the maximum, a refused seek leaves the file as it was, and the
    offset of a file stays within its maximum size. *)
Theorem generic_llseek_exact (f : file) (offset whence maxsize eof : Z) :
  seekable f maxsize eof -> - 2 ^ 63 <= offset < 2 ^ 63 ->
  let r := generic_file_llseek_size f offset whence maxsize eof in
  r = seek_spec f offset whence maxsize eof /\ seekable (snd r) maxsize eof.
Proof.
  intros Hk Ho r. assert (Hr : r = seek_spec f offset whence maxsize eof) by by apply llseek_size_spec.
  rewrite Hr. split; [done|]. by apply seek_spec_seekable.
Qed.

(** A seek to 4 KiB before the end of a 1 MiB file, and one whose sum overflows. *)
Lemma generic_llseek_exact_witness :
  let f := MkFile 7 3 FMODE_LSEEK 0 1 GenericLlseek in
  generic_file_llseek_size f (-4096) SEEK_END (2 ^ 43) (2 ^ 20)
    = (2 ^ 20 - 4096, MkFile (2 ^ 20 - 4096) 0 FMODE_LSEEK 0 1 GenericLlseek) /\
  generic_file_llseek_size f (2 ^ 63 - 1) SEEK_CUR (2 ^ 43) (2 ^ 20) = (- EINVAL, f).
Proof.
  assert (Hk : seekable (MkFile 7 3 FMODE_LSEEK 0 1 GenericLlseek) (2 ^ 43) (2 ^ 20))
    by (by split).
  split.
  - exact (proj1 (generic_llseek_exact _ (-4096) SEEK_END _ _ Hk ltac:(lia))).
  - exact (proj1 (generic_llseek_exact _ (2 ^ 63 - 1) SEEK_CUR _ _ Hk ltac:(lia))).
Defined.

End SeekSpec.

(** ** What a call leaves as it was *)

Module Frame.
Import File ReadWrite Copy.

(** The documented behaviour of [iov_iter_advance] by the length of the current
    segment: that segment is gone, and empty ones after it may be. *)
Class IovOk {D} (e : fs_env D) : Prop := {
  advance_skips addr len rest :
    exists es, rest = es ++ iov_iter_advance e len ((addr, len) :: rest) /\
      Forall (fun seg => snd seg = 0) es
}.

(** A driver answers [-EIOCBQUEUED] only for a transfer it will complete later, which a
    synchronous control block ([is_sync_kiocb]) does not allow; those of the calls below
    all are. *)
Class SyncOk {D} (e : fs_env D) : Prop := {
  not_queued t fid iter fl pos d : (call_iter e t fid iter fl pos d).1.1 <> - EIOCBQUEUED
}.

Section frame.
Context {D : Type} (e : fs_env D) (ce : copy_env D).
Implicit Types s : vfs D.

(** Nothing but the drivers' state and the counters changed, and no assertion fired
    unless a driver queued the transfer. *)
Record quiet (s s' : vfs D) : Prop := {
  q_fdt : fdt s' = fdt s; q_files : files s' = files s;
  q_held : held s' = held s; q_pos_held : pos_held s' = pos_held s;
  q_writers : writers s' = writers s;
  q_bug : SyncOk e -> bug s' = bug s
}.

(** The same, but for the offsets of the open files in [P]. *)
Record moved (P : Z -> Prop) (s s' : vfs D) : Prop := {
  m_fdt : fdt s' = fdt s;
  m_held : held s' = held s; m_pos_held : pos_held s' = pos_held s;
  m_writers : writers s' = writers s;
  m_bug : SyncOk e -> bug s' = bug s;
  m_other i : ~ P i -> files s' i = files s i;
  m_moved i : exists p v, files s' i = set_version v (set_pos p (files s i))
}.

#[export] Instance quiet_preorder : PreOrder quiet.
Proof.
  split; [by intros s|]. intros s1 s2 s3 [? ? ? ? ? H1] [? ? ? ? ? H2]. split; try congruence.
  intros He. by rewrite H2, H1.
Qed.

Lemma set_same (f : file) : set_version (f_version f) (set_pos (f_pos f) f) = f.
Proof. by destruct f. Qed.

Lemma quiet_moved P s s' : quiet s s' -> moved P s s'.
Proof.
  intros [? Hf ? ? ? ?]. split; try done; intros i; rewrite Hf; [done|].
  exists (f_pos (files s i)), (f_version (files s i)). by rewrite set_same.
Qed.

Lemma moved_weaken (P Q : Z -> Prop) s s' : (forall i, P i -> Q i) -> moved P s s' -> moved Q s s'.
Proof. intros HPQ []. split; try done. intros i Hi. apply m_other0. naive_solver. Qed.

Lemma bug_on_quiet t fid iter fl pos d0 ret ki_pos d s :
  call_iter e t fid iter fl pos d0 = (ret, ki_pos, d) ->
  quiet s (BUG_ON (ret =? - EIOCBQUEUED) (set_dev d s)).
Proof.
  intros Hc. split; try done. intros He. simpl.
  pose proof (not_queued t fid iter fl pos d0) as Hq. rewrite Hc in Hq. simpl in Hq.
  replace (ret =? _) with false by lia. apply orb_false_r.
Qed.

(** A transfer that leaves the write sections balanced is quiet, whatever else the driver
    answers. *)
Lemma new_sync_read_quiet fid buf n pos s : quiet s (new_sync_read e fid buf n pos s).2.
Proof.
  unfold new_sync_read. destruct (drv_read_iter _ _ _ _ _ _) as [[ret p] d] eqn:Hc.
  by apply (bug_on_quiet READ) with (s := s) in Hc.
Qed.
Lemma new_sync_write_quiet fid buf n pos s : quiet s (new_sync_write e fid buf n pos s).2.
Proof.
  unfold new_sync_write. destruct (drv_write_iter _ _ _ _ _ _) as [[ret p] d] eqn:Hc.
  by apply (bug_on_quiet WRITE) with (s := s) in Hc.
Qed.

Lemma vfs_read_quiet fid buf n pos s : quiet s (vfs_read e fid buf n pos s).2.
Proof.
  unfold vfs_read. do 3 (case_match; [done|]). case_match; [done|].
  set (n' := if _ <? n then _ else _).
  assert (Ht : quiet s (if has_read e fid then
      let '(ret, pos, d) := drv_read e fid buf n' pos (dev s) in (ret, pos, set_dev d s)
    else if has_read_iter e fid then new_sync_read e fid buf n' pos s else (- EINVAL, pos, s)).2).
  { case_match; [by repeat case_match|]. case_match; [apply new_sync_read_quiet|done]. }
  destruct (if has_read e fid then _ else _) as [[ret pos'] s']. destruct Ht.
  by destruct (0 <? ret); split.
Qed.

Lemma vfs_write_quiet fid buf n pos s : quiet s (vfs_write e fid buf n pos s).2.
Proof.
  unfold vfs_write. do 3 (case_match; [done|]). case_match; [done|].
  set (n' := if _ <? n then _ else _). set (s0 := file_start_write s).
  assert (Ht : quiet s0 (if has_write e fid then
      let '(ret, pos, d) := drv_write e fid buf n' pos (dev s0) in (ret, pos, set_dev d s0)
    else if has_write_iter e fid then new_sync_write e fid buf n' pos s0
    else (- EINVAL, pos, s0)).2).
  { case_match; [by repeat case_match|]. case_match; [apply new_sync_write_quiet|done]. }
  destruct (if has_write e fid then _ else _) as [[ret pos'] s']. destruct Ht as [? ? ? ? Hw ?].
  simpl in Hw. destruct (0 <? ret); split; simpl; done || lia.
Qed.

Lemma do_iter_quiet fid iter pos t fl s : quiet s (do_iter_readv_writev e fid iter pos t fl s).2.
Proof.
  unfold do_iter_readv_writev. case_match; [done|].
  destruct (call_iter e _ _ _ _ _ _) as [[ret p] d] eqn:Hc. by eapply bug_on_quiet.
Qed.

(** The loop over the segments ends, whatever the driver answers. *)
Lemma loop_total `{!IovOk e} fuel fid iter pos t ret s :
  (length iter < fuel)%nat ->
  exists r, readv_writev_loop e fuel fid iter pos t ret s = Some r /\ quiet s r.2.
Proof.
  revert iter pos ret s. induction fuel as [|fuel IH]; intros iter pos ret s Hf; [lia|].
  cbn [readv_writev_loop]. destruct (_ =? 0); [by eexists|].
  destruct iter as [|[addr len] rest]; [by eexists|].
  destruct (match t with READ => _ | WRITE => _ end _ _ _ _ _) as [[nr pos'] d].
  destruct (nr <? 0); [eexists; split; [done|]; by split|].
  destruct (Z.eqb_spec nr len) as [->|]; simpl; [|eexists; split; [done|]; by split].
  assert (Hadv : (length (iov_iter_advance e len ((addr, len) :: rest)) <= length rest)%nat).
  { destruct (advance_skips addr len rest) as (es & Hes & _). rewrite Hes at 2.
    rewrite length_app. lia. }
  simpl in Hf.
  destruct (IH (iov_iter_advance e len ((addr, len) :: rest)) pos' (i64 (ret + len)) (set_dev d s))
    as (r & Hr & Hq); [lia|].
  exists r. rewrite Hr. split; [done|]. etrans; [|exact Hq]. by split.
Qed.

(** More fuel does not change a result. *)
Lemma loop_fuel_mono fuel fuel' fid iter pos t ret s r :
  (fuel <= fuel')%nat -> readv_writev_loop e fuel fid iter pos t ret s = Some r ->
  readv_writev_loop e fuel' fid iter pos t ret s = Some r.
Proof.
  revert fuel' iter pos ret s. induction fuel as [|fuel IH]; intros fuel' iter pos ret s Hle; [done|].
  destruct fuel' as [|fuel']; [lia|]. cbn [readv_writev_loop]. destruct (_ =? 0); [done|].
  destruct iter as [|[addr len] rest]; [done|].
  destruct (match t with READ => _ | WRITE => _ end _ _ _ _ _) as [[nr pos'] d].
  destruct (nr <? 0); [done|]. destruct (negb _); [done|]. apply IH. lia.
Qed.

(** C16. The loop of [do_loop_readv_writev] ends for every driver, after at most one turn
    per segment and one to leave: with that much fuel there is a result, and it is the
    result with any more. *)
Theorem vector_loop_terminates `{!IovOk e} (fid : Z) (iter : iovec) (pos : ppos) (t : direction)
    (flags : Z) (s : vfs D) :
  exists r, forall fuel, (loop_fuel iter <= fuel)%nat ->
    do_loop_readv_writev e fuel fid iter pos t flags s = Some r.
Proof.
  unfold do_loop_readv_writev. destruct (flag_set _ _); [by eexists|].
  destruct (loop_total (loop_fuel iter) fid iter pos t 0 s) as (r & Hr & _);
    [unfold loop_fuel; lia|].
  exists r. intros fuel Hf. by eapply loop_fuel_mono.
Qed.

Lemma rw_vector_total `{!IovOk e} b fid iter pos t fl s :
  exists r, rw_vector e b fid iter pos t fl s = Some r /\ quiet s r.2.
Proof.
  unfold rw_vector, do_loop_readv_writev. destruct b.
  { eexists. split; [done|]. apply do_iter_quiet. }
  case_match; [by eexists|]. apply loop_total. unfold loop_fuel. lia.
Qed.

Lemma vfs_readv_total `{!IovOk e} fid vec vlen pos fl s :
  exists r, vfs_readv e fid vec vlen pos fl s = Some r /\ quiet s r.2.
Proof. unfold vfs_readv. repeat case_match; try (by eexists). apply rw_vector_total. Qed.

Lemma vfs_writev_total `{!IovOk e} fid vec vlen pos fl s :
  exists r, vfs_writev e fid vec vlen pos fl s = Some r /\ quiet s r.2.
Proof.
  unfold vfs_writev. repeat case_match; try (by eexists).
  edestruct rw_vector_total as (r & -> & [? ? ? ? Hw ?]). eexists. split; [done|].
  split; simpl; try done. rewrite Hw. simpl. lia.
Qed.

Lemma vfs_copy_quiet i pi o po n fl s : quiet s (vfs_copy_file_range e ce i pi o po n fl s).2.
Proof.
  unfold vfs_copy_file_range. repeat case_match; simplify_eq/=; split; simpl; done || lia.
Qed.

(** The system calls of the file.  [CReadv] stands for [readv], [CPreadv] for [preadv]
    and its 32-bit forms, which differ in how the position is put together, and so on. *)
Inductive rw_call :=
  | CLseek (fd off whence : Z) | CLlseek (fd hi lo res whence : Z)
  | CRead (fd buf n : Z) | CWrite (fd buf n : Z)
  | CPread (fd buf n pos : Z) | CPwrite (fd buf n pos : Z)
  | CReadv (fd vec vlen fl : Z) | CWritev (fd vec vlen fl : Z)
  | CPreadv (fd vec vlen pos fl : Z) | CPwritev (fd vec vlen pos fl : Z)
  | CPreadv2 (fd vec vlen lo hi fl : Z) | CPwritev2 (fd vec vlen lo hi fl : Z)
  | CSendfile (out inp off n : Z) | CSendfile64 (out inp off n : Z)
  | CCopy (inp off_in out off_out n fl : Z).

Definition run (c : rw_call) s : option (Z * vfs D) :=
  match c with
  | CLseek fd off wh => Some (ksys_lseek e fd off wh s)
  | CLlseek fd hi lo res wh => let '(r, _, s) := sys_llseek e fd hi lo res wh s in Some (r, s)
  | CRead fd buf n => Some (ksys_read e fd buf n s)
  | CWrite fd buf n => Some (ksys_write e fd buf n s)
  | CPread fd buf n pos => Some (ksys_pread64 e fd buf n pos s)
  | CPwrite fd buf n pos => Some (ksys_pwrite64 e fd buf n pos s)
  | CReadv fd vec vlen fl => do_readv e fd vec vlen fl s
  | CWritev fd vec vlen fl => do_writev e fd vec vlen fl s
  | CPreadv fd vec vlen pos fl => do_preadv e fd vec vlen pos fl s
  | CPwritev fd vec vlen pos fl => do_pwritev e fd vec vlen pos fl s
  | CPreadv2 fd vec vlen lo hi fl => sys_preadv2 e fd vec vlen lo hi fl s
  | CPwritev2 fd vec vlen lo hi fl => sys_pwritev2 e fd vec vlen lo hi fl s
  | CSendfile o i off n => let '(r, _, s) := sys_sendfile e ce o i off n s in Some (r, s)
  | CSendfile64 o i off n => let '(r, _, s) := sys_sendfile64 e ce o i off n s in Some (r, s)
  | CCopy i oi o oo n fl => let '(r, _, _, s) := sys_copy_file_range e ce i oi o oo n fl s in Some (r, s)
  end.

(** The open files whose offset a call may move when it returns [ret]: the one behind
    its descriptor, unless the caller passes a position of its own. *)
Definition may_move (c : rw_call) s (ret fid : Z) : Prop :=
  match c with
  | CLseek fd _ _ | CLlseek fd _ _ _ _ => fd_file s fd = Some fid
  | CRead fd _ _ | CWrite fd _ _ | CReadv fd _ _ _ | CWritev fd _ _ _ =>
      0 <= ret /\ fd_file s fd = Some fid
  | CPread _ _ _ _ | CPwrite _ _ _ _ | CPreadv _ _ _ _ _ | CPwritev _ _ _ _ _ => False
  | CPreadv2 fd _ _ lo hi _ | CPwritev2 fd _ _ lo hi _ =>
      pos_from_hilo hi lo = -1 /\ 0 <= ret /\ fd_file s fd = Some fid
  | CSendfile o i off _ | CSendfile64 o i off _ =>
      fd_file s o = Some fid \/ (off = 0 /\ fd_file s i = Some fid)
  | CCopy i oi o oo _ _ => (oi = 0 /\ fd_file s i = Some fid) \/ (oo = 0 /\ fd_file s o = Some fid)
  end.

(** Storing an offset. *)
Lemma upd_pos_moved (P : Z -> Prop) fid p s s' :
  P fid -> moved P s s' -> moved P s (upd_file fid (set_pos p) s').
Proof.
  intros HP [? ? ? ? ? Ho Hm]. split; try done; intros i; simpl; destruct (Z.eqb_spec i fid) as [->|].
  - done.
  - auto.
  - destruct (Hm fid) as (p' & v & ->). exists p, v. by destruct (files s fid).
  - auto.
Qed.

(** The counters and the drivers' state are outside [moved]. *)
Lemma moved_acct P s s' rc wc sr sw : moved P s s' -> moved P s (set_acct rc wc sr sw s').
Proof. by intros []. Qed.
Lemma moved_dev P s s' d : moved P s s' -> moved P s (set_dev d s').
Proof. by intros []. Qed.

(** The frame of the calls on the file's own offset, around a quiet transfer. *)
Lemma finish_pos_moved fd fid r s :
  fd_file s fd = Some fid ->
  quiet (set_held (held s + 1) (pos_held s + 1) (writers s) s) r.2 ->
  moved (fun i => 0 <= (finish_pos fid r).1 /\ fd_file s fd = Some i) s (finish_pos fid r).2.
Proof.
  intros Hfd Hq. destruct r as [[ret pos] s']. simpl in *.
  assert (Hm : moved (fun i => 0 <= ret /\ fd_file s fd = Some i) s (fdput_pos s')).
  { destruct Hq as [? Hf Hh Hp Hw ?]. apply quiet_moved. split; simpl in *; try done; lia. }
  unfold store_pos. destruct pos as [p|]; [|done]. destruct (Z.leb_spec 0 ret); [|done].
  change (fdput_pos (upd_file fid (set_pos p) s')) with (upd_file fid (set_pos p) (fdput_pos s')).
  by apply upd_pos_moved.
Qed.

(** The frame of the positioned calls. *)
Lemma fdput_quiet s s' :
  quiet (set_held (held s + 1) (pos_held s) (writers s) s) s' -> quiet s (fdput s').
Proof. intros [? ? Hh Hp Hw ?]. split; simpl in *; try done; lia. Qed.

Lemma account_read_moved P s r : moved P s r.2 -> moved P s (account_read r).2.
Proof. destruct r as [ret s']. simpl. intros []. by case_match. Qed.
Lemma account_write_moved P s r : moved P s r.2 -> moved P s (account_write r).2.
Proof. destruct r as [ret s']. simpl. intros []. by case_match. Qed.
Lemma account_read_ret r : (account_read (D := D) r).1 = r.1.
Proof. by destruct r. Qed.
Lemma account_write_ret r : (account_write (D := D) r).1 = r.1.
Proof. by destruct r. Qed.

Lemma llseek_of_moved fid i f off wh d :
  exists p v, (llseek_of e fid i f off wh d).1.2 = set_version v (set_pos p f).
Proof.
  assert (H0 : exists p v, f = set_version v (set_pos p f)).
  { exists (f_pos f), (f_version f). by rewrite set_same. }
  unfold llseek_of, generic_file_llseek, default_llseek, noop_llseek, fixed_size_llseek,
    no_seek_end_llseek, no_seek_end_llseek_size, generic_file_llseek_size, vfs_setpos.
  repeat case_match; simplify_eq/=; eauto.
Qed.

Lemma vfs_llseek_moved fid off wh s : moved (eq fid) s (vfs_llseek e fid off wh s).2.
Proof.
  unfold vfs_llseek. case_match; [by apply quiet_moved|].
  destruct (llseek_of_moved fid (inode_of e (f_inode (files s fid)) (dev s)) (files s fid) off wh
    (dev s)) as (p & v & Hf). destruct (llseek_of e fid _ _ off wh _) as [[res f'] d]. simpl in *.
  split; try done; intros i; simpl; destruct (Z.eqb_spec i fid) as [->|]; try done.
  - eauto.
  - exists (f_pos (files s i)), (f_version (files s i)). by rewrite set_same.
Qed.

(** Taking and giving back one reference, with or without the position lock. *)
Lemma moved_get_put P s s' :
  moved P (set_held (held s + 1) (pos_held s) (writers s) s) s' -> moved P s (fdput s').
Proof. intros [? Hh Hp Hw ? ? ?]. split; simpl in *; try done; lia. Qed.
Lemma moved_get_put_pos P s s' :
  moved P (set_held (held s + 1) (pos_held s + 1) (writers s) s) s' -> moved P s (fdput_pos s').
Proof. intros [? Hh Hp Hw ? ? ?]. split; simpl in *; try done; lia. Qed.

Lemma moved_refl P s : moved P s s.
Proof. by apply quiet_moved. Qed.

Lemma lseek_moved fd off wh s : moved (fun i => fd_file s fd = Some i) s (ksys_lseek e fd off wh s).2.
Proof.
  unfold ksys_lseek, fdget_pos. destruct (fd_file s fd) as [fid|] eqn:Hfd; [|apply moved_refl].
  destruct (wh <=? SEEK_MAX); simpl; [|apply moved_get_put_pos, moved_refl].
  pose proof (vfs_llseek_moved fid off wh
    (set_held (held s + 1) (pos_held s + 1) (writers s) s)) as Hm.
  destruct (vfs_llseek e fid off wh _) as [res s']. simpl in *.
  apply moved_get_put_pos. eapply moved_weaken; [|exact Hm]. by intros i ->.
Qed.

Lemma llseek_moved fd hi lo res wh s :
  moved (fun i => fd_file s fd = Some i) s (sys_llseek e fd hi lo res wh s).2.
Proof.
  unfold sys_llseek, fdget_pos. destruct (fd_file s fd) as [fid|] eqn:Hfd; [|apply moved_refl].
  destruct (SEEK_MAX <? wh); simpl; [apply moved_get_put_pos, moved_refl|].
  pose proof (vfs_llseek_moved fid (i64 (Z.lor (u64 (Z.shiftl hi 32)) lo)) wh
    (set_held (held s + 1) (pos_held s + 1) (writers s) s)) as Hm.
  destruct (vfs_llseek e fid _ wh _) as [off s']. simpl in *.
  assert (moved (fun i => Some fid = Some i) s (fdput_pos s')).
  { apply moved_get_put_pos. eapply moved_weaken; [|exact Hm]. by intros i ->. }
  by repeat case_match.
Qed.

Lemma with_file_pos_moved fd tr s :
  (forall fid pos s, quiet s (tr fid pos s).2) ->
  let r := with_file_pos fd tr s in moved (fun i => 0 <= r.1 /\ fd_file s fd = Some i) s r.2.
Proof.
  intros Htr. unfold with_file_pos, fdget_pos. destruct (fd_file s fd) as [fid|] eqn:Hfd;
    [|apply moved_refl].
  rewrite <- Hfd. apply finish_pos_moved; [done|]. apply Htr.
Qed.

Lemma with_own_pos_quiet fd pos mode tr s :
  (forall fid pos s, quiet s (tr fid pos s).2) -> quiet s (with_own_pos fd pos mode tr s).2.
Proof.
  intros Htr. unfold with_own_pos, fdget. destruct (fd_file s fd) as [fid|]; [|done].
  case_match; [|by apply fdput_quiet].
  specialize (Htr fid (Some pos) (set_held (held s + 1) (pos_held s) (writers s) s)).
  destruct (tr fid _ _) as [[ret p] s']. by apply fdput_quiet.
Qed.

(** The vectored calls: with the file's offset, and with the caller's. *)
Lemma readv_moved `{!IovOk e} fd vec vlen fl s :
  exists r, do_readv e fd vec vlen fl s = Some r /\
    moved (fun i => 0 <= r.1 /\ fd_file s fd = Some i) s r.2.
Proof.
  unfold do_readv, fdget_pos. destruct (fd_file s fd) as [fid|] eqn:Hfd.
  2: { eexists. split; [done|]. apply account_read_moved, moved_refl. }
  edestruct (vfs_readv_total fid) as (r & -> & Hq). eexists. split; [done|].
  rewrite account_read_ret. apply account_read_moved. rewrite <- Hfd. by apply finish_pos_moved.
Qed.
Lemma writev_moved `{!IovOk e} fd vec vlen fl s :
  exists r, do_writev e fd vec vlen fl s = Some r /\
    moved (fun i => 0 <= r.1 /\ fd_file s fd = Some i) s r.2.
Proof.
  unfold do_writev, fdget_pos. destruct (fd_file s fd) as [fid|] eqn:Hfd.
  2: { eexists. split; [done|]. apply account_write_moved, moved_refl. }
  edestruct (vfs_writev_total fid) as (r & -> & Hq). eexists. split; [done|].
  rewrite account_write_ret. apply account_write_moved. rewrite <- Hfd. by apply finish_pos_moved.
Qed.
Lemma preadv_moved `{!IovOk e} P fd vec vlen pos fl s :
  exists r, do_preadv e fd vec vlen pos fl s = Some r /\ moved P s r.2.
Proof.
  unfold do_preadv, fdget. case_match; [eexists; split; [done|]; apply moved_refl|].
  destruct (fd_file s fd) as [fid|]; [case_match|].
  - edestruct (vfs_readv_total fid) as (r & -> & Hq). eexists. split; [done|].
    by apply account_read_moved, quiet_moved, fdput_quiet.
  - eexists. split; [done|]. by apply account_read_moved, quiet_moved, fdput_quiet.
  - eexists. split; [done|]. apply account_read_moved, moved_refl.
Qed.
Lemma pwritev_moved `{!IovOk e} P fd vec vlen pos fl s :
  exists r, do_pwritev e fd vec vlen pos fl s = Some r /\ moved P s r.2.
Proof.
  unfold do_pwritev, fdget. case_match; [eexists; split; [done|]; apply moved_refl|].
  destruct (fd_file s fd) as [fid|]; [case_match|].
  - edestruct (vfs_writev_total fid) as (r & -> & Hq). eexists. split; [done|].
    by apply account_write_moved, quiet_moved, fdput_quiet.
  - eexists. split; [done|]. by apply account_write_moved, quiet_moved, fdput_quiet.
  - eexists. split; [done|]. apply account_write_moved, moved_refl.
Qed.

(** Closes a path: the references taken are given back, the offsets stored are those of
    the two descriptors, the rest is counting. *)
Ltac finish_moved :=
  repeat match goal with
  | |- moved _ _ (fdput _) => apply moved_get_put
  | |- moved _ _ (upd_file _ _ _) => apply upd_pos_moved; [naive_solver|]
  | |- moved _ _ (set_dev _ _) => apply moved_dev
  | |- moved _ _ (inc_syscr _) => apply moved_acct
  | |- moved _ _ (inc_syscw _) => apply moved_acct
  | |- moved _ _ (add_rchar _ _) => apply moved_acct
  | |- moved _ _ (add_wchar _ _) => apply moved_acct
  | |- moved _ _ (_, _).2 => cbn [snd]
  end; apply moved_refl.

Lemma sendfile_moved o i pp n max s :
  let r := do_sendfile e ce o i pp n max s in
  moved (fun f => fd_file s o = Some f \/ (pp = None /\ fd_file s i = Some f)) s r.2 /\
  (pp = None -> r.1.2 = None).
Proof.
  intros r. unfold r, do_sendfile, fdget. clear r.
  repeat (case_match; simplify_eq/=); (split; [|done]); finish_moved.
Qed.

Lemma sendfile_at_moved load size max conv o i off n s :
  moved (fun f => fd_file s o = Some f \/ (off = 0 /\ fd_file s i = Some f)) s
    (sendfile_at e ce load size max conv o i off n s).2.
Proof.
  unfold sendfile_at. destruct (Z.eqb_spec off 0) as [->|Hoff]; simpl.
  - pose proof (sendfile_moved o i None n 0 s) as [Hm _].
    destruct (do_sendfile _ _ _ _ _ _ _ _) as [[ret p] s']. eapply moved_weaken; [|exact Hm].
    naive_solver.
  - destruct (load off) as [pos|]; [|apply moved_refl].
    pose proof (sendfile_moved o i (Some pos) n max s) as [Hm _].
    destruct (do_sendfile _ _ _ _ _ _ _ _) as [[ret p] s'].
    case_match; (eapply moved_weaken; [|exact Hm]); naive_solver.
Qed.

Lemma store_end_moved P fid off pos ret s s' :
  (off = 0 -> P fid) -> moved P s s' -> moved P s (store_end e fid off pos ret s').2.
Proof.
  intros HP Hm. unfold store_end. destruct (Z.eqb_spec off 0); simpl.
  - apply upd_pos_moved; auto.
  - by case_match.
Qed.

Lemma copy_moved i oi o oo n fl s :
  moved (fun f => (oi = 0 /\ fd_file s i = Some f) \/ (oo = 0 /\ fd_file s o = Some f)) s
    (sys_copy_file_range e ce i oi o oo n fl s).2.
Proof.
  unfold sys_copy_file_range, fdget. destruct (fd_file s i) as [fin|] eqn:Hi; [|finish_moved].
  cbn [fdt files set_held]; change (fd_file (set_held _ _ _ s)) with (fd_file s). destruct (fd_file s o) as [fout|] eqn:Ho; [|finish_moved].
  set (s2 := set_held _ _ _ (set_held _ _ _ s)).
  destruct (load_pos ce fin oi s2) as [pi|]; [|finish_moved].
  destruct (load_pos ce fout oo s2) as [po|]; [|finish_moved].
  case_match; [finish_moved|].
  pose proof (vfs_copy_quiet fin pi fout po n fl s2) as Hq.
  destruct (vfs_copy_file_range e ce fin pi fout po n fl s2) as [ret s'].
  apply (quiet_moved (fun f => (oi = 0 /\ Some fin = Some f) \/ (oo = 0 /\ Some fout = Some f)))
    in Hq. simpl in Hq.
  case_match; [|by apply moved_get_put, moved_get_put].
  eapply (store_end_moved _ fin oi (i64 (pi + ret)) ret) in Hq; [|naive_solver].
  destruct (store_end e fin _ _ _ _) as [[ret' w] s''].
  eapply (store_end_moved _ fout oo (i64 (po + ret)) ret') in Hq; [|naive_solver].
  destruct (store_end e fout _ _ _ _) as [[ret'' w'] s3]. by apply moved_get_put, moved_get_put.
Qed.

(** A result and a state, whose offsets moved as the result allows. *)
Definition framed (Q : Z -> Z -> Prop) s (o : option (Z * vfs D)) : Prop :=
  exists ret s', o = Some (ret, s') /\ moved (Q ret) s s'.

Lemma framed_some (Q : Z -> Z -> Prop) s r : moved (Q r.1) s r.2 -> framed Q s (Some r).
Proof. destruct r. by eexists _, _. Qed.

Lemma framed_ex (Q : Z -> Z -> Prop) s o :
  (exists r, o = Some r /\ moved (Q r.1) s r.2) -> framed Q s o.
Proof. intros (r & -> & Hm). by apply framed_some. Qed.

Lemma framed_weaken (Q R : Z -> Z -> Prop) s o :
  (forall ret i, Q ret i -> R ret i) -> framed Q s o -> framed R s o.
Proof.
  intros HQR (ret & s' & -> & Hm). eexists _, _. split; [done|].
  by eapply moved_weaken; [apply HQR|].
Qed.

Lemma own_pos_framed fd pos mode tr (Q : Z -> Z -> Prop) s :
  (forall fid pos s, quiet s (tr fid pos s).2) ->
  framed Q s (Some (if pos <? 0 then (- EINVAL, s) else with_own_pos fd pos mode tr s)).
Proof.
  intros Htr. apply framed_some. case_match; [apply moved_refl|].
  by apply quiet_moved, with_own_pos_quiet.
Qed.

(** [preadv2] and [pwritev2] choose between the two offsets. *)
Lemma preadv2_framed `{!IovOk e} fd vec vlen lo hi fl s :
  framed (may_move (CPreadv2 fd vec vlen lo hi fl) s) s (sys_preadv2 e fd vec vlen lo hi fl s).
Proof.
  unfold sys_preadv2. destruct (Z.eqb_spec (pos_from_hilo hi lo) (-1)) as [Hp|].
  - apply (framed_weaken (may_move (CReadv fd vec vlen fl) s)); [by intros|].
    apply framed_ex, readv_moved.
  - apply (framed_weaken (fun _ _ => False)); [by intros|]. apply framed_ex.
    apply (preadv_moved (fun _ => False)).
Qed.
Lemma pwritev2_framed `{!IovOk e} fd vec vlen lo hi fl s :
  framed (may_move (CPwritev2 fd vec vlen lo hi fl) s) s (sys_pwritev2 e fd vec vlen lo hi fl s).
Proof.
  unfold sys_pwritev2. destruct (Z.eqb_spec (pos_from_hilo hi lo) (-1)) as [Hp|].
  - apply (framed_weaken (may_move (CWritev fd vec vlen fl) s)); [by intros|].
    apply framed_ex, writev_moved.
  - apply (framed_weaken (fun _ _ => False)); [by intros|]. apply framed_ex.
    apply (pwritev_moved (fun _ => False)).
Qed.

Lemma call_framed `{!IovOk e} (c : rw_call) (s : vfs D) :
  framed (may_move c s) s (run c s).
Proof.
  destruct c; simpl.
  - apply framed_some, lseek_moved.
  - pose proof (llseek_moved fd hi lo res whence s) as Hm.
    destruct (sys_llseek _ _ _ _ _ _ _) as [[r w] s']. by apply framed_some.
  - apply framed_some, with_file_pos_moved. intros. apply vfs_read_quiet.
  - apply framed_some, with_file_pos_moved. intros. apply vfs_write_quiet.
  - apply own_pos_framed. intros. apply vfs_read_quiet.
  - apply own_pos_framed. intros. apply vfs_write_quiet.
  - apply framed_ex, readv_moved.
  - apply framed_ex, writev_moved.
  - apply framed_ex, (preadv_moved (fun _ => False)).
  - apply framed_ex, (pwritev_moved (fun _ => False)).
  - apply preadv2_framed.
  - apply pwritev2_framed.
  - pose proof (sendfile_at_moved (get_off ce) 8 MAX_NON_LFS (fun p => p) out inp off n s).
    unfold sys_sendfile. destruct (sendfile_at _ _ _ _ _ _ _ _ _ _ _) as [[r w] s'].
    by apply framed_some.
  - pose proof (sendfile_at_moved (get_loff ce) 8 0 (fun p => p) out inp off n s).
    unfold sys_sendfile64. destruct (sendfile_at _ _ _ _ _ _ _ _ _ _ _) as [[r w] s'].
    by apply framed_some.
  - pose proof (copy_moved inp off_in out off_out n fl s) as Hm.
    destruct (sys_copy_file_range _ _ _ _ _ _ _ _ _) as [[[r w] w'] s']. by apply framed_some.
Qed.

(** A sequence of calls: the results and the last state. *)
Fixpoint run_all (cs : list rw_call) s : option (list Z * vfs D) :=
  match cs with
  | [] => Some ([], s)
  | c :: cs => r ← run c s; rs ← run_all cs r.2; Some (r.1 :: rs.1, rs.2)
  end.

(** A queued answer to a synchronous transfer stops the task at the assertion. *)
Lemma queued_transfer_bugs fid buf n pos s :
  (drv_read_iter e fid [(buf, n)] (iocb_flags e fid) (pos_or_0 pos) (dev s)).1.1 = - EIOCBQUEUED ->
  bug (new_sync_read e fid buf n pos s).2 = true.
Proof.
  intros Hq. unfold new_sync_read. destruct (drv_read_iter _ _ _ _ _ _) as [[ret p] d].
  simpl in *. rewrite Hq. apply orb_true_r.
Qed.

(** C15. Over drivers that do not queue a synchronous transfer and answer anything else,
    any sequence of read, write, seek and copy calls returns, on every path, with no
    [BUG_ON] hit; it gives back every reference, position lock and write section it took
    and leaves the descriptor table; and each call moves no offset but those it is meant
    to: reads and writes that of their own file and only when they succeed, positioned
    calls none. *)
Theorem calls_framed `{!IovOk e} `{!SyncOk e} (cs : list rw_call) (c : rw_call) (s : vfs D) :
  exists rets s', run_all cs s = Some (rets, s') /\
    fdt s' = fdt s /\ held s' = held s /\ pos_held s' = pos_held s /\ writers s' = writers s /\
    bug s' = bug s /\ framed (may_move c s') s' (run c s').
Proof.
  revert s. induction cs as [|c' cs IH]; intros s.
  { eexists _, _. split; [done|]. do 5 (split; [done|]). apply call_framed. }
  destruct (call_framed c' s) as (ret & s1 & Hr & [Hf Hh Hp Hw Hb _ _]). specialize (Hb _).
  destruct (IH s1) as (rets & s2 & Hrs & Hf2 & Hh2 & Hp2 & Hw2 & Hb2 & Hm).
  exists (ret :: rets), s2. simpl. rewrite Hr. simpl. rewrite Hrs. simpl. split; [done|].
  split; [congruence|]. split; [congruence|]. split; [congruence|]. split; [congruence|].
  split; [congruence|done].
Qed.
End frame.
End Frame.
