(* ===== verification/Bytes.v ===== *)
(** * Bytes of files and of memory

    What file systems and memory are to the specification of reading and writing: a file
    is a list of bytes, memory a function from addresses; [gather]/[scatter] move bytes
    between memory and a list of segments, [splice] writes bytes into a file. *)
From S2P Require Import Prelude File.

Module Bytes.
Import File.

Definition memory := Z -> Z.
Definition zlen (l : list Z) : Z := Z.of_nat (length l).
Definition ztake (n : Z) (l : list Z) : list Z := take (Z.to_nat n) l.
Definition zdrop (n : Z) (l : list Z) : list Z := drop (Z.to_nat n) l.

Definition load (m : memory) (a n : Z) : list Z := (fun k => m (a + k)) <$> seqZ 0 n.
Definition store (m : memory) (a : Z) (bs : list Z) : memory := fun x =>
  if (a <=? x) && (x <? a + zlen bs) then default 0 (bs !! Z.to_nat (x - a)) else m x.

(** The bytes of the segments, and bytes dealt out over them. *)
Fixpoint gather (m : memory) (iov : iovec) : list Z :=
  match iov with [] => [] | (a, n) :: iov => load m a n ++ gather m iov end.
Fixpoint scatter (m : memory) (iov : iovec) (bs : list Z) : memory :=
  match iov with
  | [] => m
  | (a, n) :: iov => scatter (store m a (ztake n bs)) iov (zdrop n bs)
  end.

(** [bs] at offset [p]: a gap is filled with zeros; writing nothing extends nothing. *)
Definition splice (l : list Z) (p : Z) (bs : list Z) : list Z :=
  match bs with
  | [] => l
  | _ => ztake p (l ++ replicate (Z.to_nat (p - zlen l)) 0) ++ bs ++ zdrop (p + zlen bs) l
  end.

(** What is in a file from [p] on, up to [n] bytes. *)
Definition window (l : list Z) (p n : Z) : list Z := ztake n (zdrop p l).

(** ** Lemmas *)

Lemma zlen_nonneg l : 0 <= zlen l.
Proof. unfold zlen. lia. Qed.
Lemma zlen_nil : zlen [] = 0.
Proof. done. Qed.
Lemma zlen_app l k : zlen (l ++ k) = zlen l + zlen k.
Proof. unfold zlen. rewrite length_app. lia. Qed.
Lemma zlen_take n l : 0 <= n -> zlen (ztake n l) = Z.min n (zlen l).
Proof. intros. unfold zlen, ztake. rewrite length_take. lia. Qed.
Lemma zlen_drop n l : 0 <= n -> zlen (zdrop n l) = Z.max 0 (zlen l - n).
Proof. intros. unfold zlen, zdrop. rewrite length_drop. lia. Qed.
Lemma zlen_load m a n : 0 <= n -> zlen (load m a n) = n.
Proof. intros. unfold zlen, load. rewrite length_fmap, length_seqZ. lia. Qed.
Lemma zlen_0 l : zlen l = 0 -> l = [].
Proof. unfold zlen. intros. apply nil_length_inv. lia. Qed.
Lemma zlen_window l p n : 0 <= p -> 0 <= n -> zlen (window l p n) = Z.min n (Z.max 0 (zlen l - p)).
Proof. intros. unfold window. by rewrite zlen_take, zlen_drop by lia. Qed.

Lemma ztake_0 l : ztake 0 l = [].
Proof. done. Qed.
Lemma ztake_ge n l : zlen l <= n -> ztake n l = l.
Proof. unfold zlen, ztake. intros. apply take_ge. lia. Qed.
Lemma ztake_app n l k :
  0 <= n -> ztake n (l ++ k) = ztake n l ++ ztake (n - zlen l) k.
Proof.
  intros. unfold ztake, zlen. rewrite take_app. f_equal. f_equal. lia.
Qed.
Lemma ztake_app_le n l k : 0 <= n <= zlen l -> ztake n (l ++ k) = ztake n l.
Proof. unfold ztake, zlen. intros. apply take_app_le. lia. Qed.
Lemma zdrop_zdrop a b l : 0 <= a -> 0 <= b -> zdrop a (zdrop b l) = zdrop (b + a) l.
Proof. intros. unfold zdrop. rewrite drop_drop. f_equal. lia. Qed.

(** A window is the first part of it and the window after that. *)
Lemma window_split l p a b :
  0 <= p -> 0 <= a -> 0 <= b -> a <= zlen l - p ->
  window l p (a + b) = window l p a ++ window l (p + a) b.
Proof.
  intros. unfold window. rewrite <- (zdrop_zdrop a p) by lia.
  assert (Hk : zlen (zdrop p l) = zlen l - p) by (rewrite zlen_drop; lia).
  set (k := zdrop p l) in *. unfold ztake, zdrop, zlen in *.
  rewrite <- (take_drop (Z.to_nat a) k) at 1. rewrite take_app, take_take, length_take.
  do 2 f_equal; lia.
Qed.

(** The part before the write, padded. *)
Lemma zlen_head l p : 0 <= p -> zlen (ztake p (l ++ replicate (Z.to_nat (p - zlen l)) 0)) = p.
Proof.
  intros. rewrite zlen_take, zlen_app by lia. unfold zlen in *. rewrite length_replicate. lia.
Qed.

Lemma splice_nil l p : splice l p [] = l.
Proof. done. Qed.

Lemma splice_ne l p bs :
  bs <> [] ->
  splice l p bs = ztake p (l ++ replicate (Z.to_nat (p - zlen l)) 0) ++ bs ++ zdrop (p + zlen bs) l.
Proof. by destruct bs. Qed.

Lemma zlen_splice l p bs : 0 <= p -> bs <> [] -> zlen (splice l p bs) = Z.max (zlen l) (p + zlen bs).
Proof.
  intros Hp Hbs. pose proof (zlen_nonneg bs). rewrite splice_ne by done.
  rewrite !zlen_app, zlen_head, zlen_drop by lia. pose proof (zlen_nonneg l). lia.
Qed.

(** The bytes written are the ones read back, and nothing else moved. *)
Lemma splice_lookup l p bs x :
  0 <= p -> 0 <= x ->
  default 0 (splice l p bs !! Z.to_nat x) =
    if (p <=? x) && (x <? p + zlen bs) then default 0 (bs !! Z.to_nat (x - p))
    else default 0 (l !! Z.to_nat x).
Proof.
  intros Hp Hx. destruct (decide (bs = [])) as [->|Hbs].
  { rewrite splice_nil, zlen_nil. by replace (_ && _) with false by lia. }
  rewrite splice_ne by done.
  pose proof (zlen_head l p Hp) as Hhl.
  set (h := ztake p _) in *. unfold zlen in Hhl.
  destruct (Z.leb_spec p x) as [Hge|Hlt]; simpl.
  - rewrite lookup_app_r by lia.
    replace (Z.to_nat x - length h)%nat with (Z.to_nat (x - p)) by lia.
    destruct (Z.ltb_spec x (p + zlen bs)) as [Hin|Hout]; unfold zlen in *.
    + by rewrite lookup_app_l by lia.
    + rewrite lookup_app_r by lia. unfold zdrop. rewrite lookup_drop. do 2 f_equal. lia.
  - rewrite lookup_app_l by lia. unfold h, ztake. rewrite lookup_take_lt by lia.
    destruct (Z.ltb_spec x (zlen l)) as [Hin|Hout]; unfold zlen in Hin || unfold zlen in Hout.
    + by rewrite lookup_app_l by lia.
    + rewrite lookup_app_r by lia. rewrite (lookup_ge_None_2 l) by lia. simpl.
      destruct (replicate _ 0 !! _) as [y|] eqn:Hy; [|done].
      by apply lookup_replicate in Hy as [-> _].
Qed.

(** Lists of the same length and with the same bytes are the same. *)
Lemma bytes_ext l k :
  zlen l = zlen k ->
  (forall x, 0 <= x < zlen l -> default 0 (l !! Z.to_nat x) = default 0 (k !! Z.to_nat x)) -> l = k.
Proof.
  unfold zlen. intros Hlen Hx. apply list_eq_same_length with (length k); [done|lia|].
  intros i x y Hi Hlx Hly. specialize (Hx (Z.of_nat i)). rewrite Nat2Z.id, Hlx, Hly in Hx.
  apply Hx. lia.
Qed.

(** Writing in two parts is writing once. *)
Lemma splice_app l p b1 b2 :
  0 <= p -> splice l p (b1 ++ b2) = splice (splice l p b1) (p + zlen b1) b2.
Proof.
  intros Hp. destruct (decide (b1 = [])) as [->|H1]; [by rewrite zlen_nil, Z.add_0_r|].
  destruct (decide (b2 = [])) as [->|H2]; [by rewrite app_nil_r, splice_nil|].
  assert (b1 ++ b2 <> []) by (by destruct b1). pose proof (zlen_nonneg b1).
  apply bytes_ext.
  { rewrite !zlen_splice, zlen_app by (done || lia). pose proof (zlen_nonneg b2). lia. }
  intros x Hx. rewrite !splice_lookup, zlen_app by lia. pose proof (zlen_nonneg b2).
  destruct (Z.leb_spec p x), (Z.leb_spec (p + zlen b1) x), (Z.ltb_spec x (p + zlen b1)),
    (Z.ltb_spec x (p + (zlen b1 + zlen b2))), (Z.ltb_spec x (p + zlen b1 + zlen b2));
    simpl; try lia; try done.
  - rewrite lookup_app_r by (unfold zlen in *; lia). do 2 f_equal. unfold zlen in *. lia.
  - by rewrite lookup_app_l by (unfold zlen in *; lia).
Qed.

(** What was written is what a window there shows. *)
Lemma window_splice l p bs : 0 <= p -> bs <> [] -> window (splice l p bs) p (zlen bs) = bs.
Proof.
  intros Hp Hbs. pose proof (zlen_nonneg bs). rewrite splice_ne by done. unfold window.
  set (h := ztake p (l ++ replicate (Z.to_nat (p - zlen l)) 0)).
  assert (Hhl : zlen h = p) by by apply zlen_head.
  unfold ztake, zdrop, zlen in *. rewrite drop_app_length' by lia. rewrite take_app_length' by lia.
  done.
Qed.

(** Segments of no length hold nothing. *)
Lemma gather_app m i1 i2 : gather m (i1 ++ i2) = gather m i1 ++ gather m i2.
Proof. induction i1 as [|[a n] i1 IH]; simpl; [done|]. by rewrite IH, app_assoc. Qed.

Lemma zlen_gather m iov : Forall (fun seg => 0 <= snd seg) iov -> zlen (gather m iov) = iov_iter_count iov.
Proof.
  induction 1 as [|[a n] iov Hn _ IH]; [done|]. simpl in *.
  by rewrite zlen_app, zlen_load, IH by done.
Qed.

Lemma store_nil m a x : store m a [] x = m x.
Proof. unfold store. rewrite zlen_nil. by replace (_ && _) with false by lia. Qed.

Lemma store_ext m m' a bs : (forall x, m x = m' x) -> forall x, store m a bs x = store m' a bs x.
Proof. intros Hm x. unfold store. by rewrite Hm. Qed.

Lemma scatter_ext m m' iov bs :
  (forall x, m x = m' x) -> forall x, scatter m iov bs x = scatter m' iov bs x.
Proof.
  revert m m' bs. induction iov as [|[a n] iov IH]; intros m m' bs Hm x; [done|]. simpl.
  apply IH. by apply store_ext.
Qed.

Lemma scatter_nil m iov x : scatter m iov [] x = m x.
Proof.
  revert m. induction iov as [|[a n] iov IH]; intros m; [done|]. simpl.
  unfold ztake, zdrop. rewrite take_nil, drop_nil, IH. apply store_nil.
Qed.

(** Leading empty segments take none of the bytes. *)
Lemma scatter_empty m es iov bs x :
  Forall (fun seg => snd seg = 0) es -> scatter m (es ++ iov) bs x = scatter m iov bs x.
Proof.
  revert m. induction es as [|[a n] es IH]; intros m Hes; [done|]. simpl.
  apply Forall_cons in Hes as [Hn Hes]. simpl in Hn. subst n. rewrite ztake_0.
  rewrite IH by done. apply scatter_ext. intros y. apply store_nil.
Qed.

Lemma load_ext m m' a n : (forall x, m x = m' x) -> load m a n = load m' a n.
Proof. intros Hm. unfold load. apply list_fmap_ext. intros. apply Hm. Qed.

Lemma gather_ext m m' iov : (forall x, m x = m' x) -> gather m iov = gather m' iov.
Proof. intros Hm. induction iov as [|[a n] iov IH]; simpl; [done|]. by rewrite IH, (load_ext m m'). Qed.

Lemma load_store m a bs : load (store m a bs) a (zlen bs) = bs.
Proof.
  apply bytes_ext; [apply zlen_load, zlen_nonneg|]. rewrite zlen_load by apply zlen_nonneg.
  intros x Hx. unfold load. rewrite list_lookup_fmap, lookup_seqZ_lt by lia. cbn [fmap option_fmap option_map default from_option id]. unfold store.
  replace (a + _) with (a + x) by lia. replace (a <=? a + x) with true by lia.
  replace (a + x <? _) with true by lia. simpl. do 2 f_equal. lia.
Qed.
End Bytes.
