(* ===== verification/PosixSpec.v ===== *)
(** * Files as sequences of bytes

    Over a file system whose transfers move bytes as documented ([ByteFs]), the calls of
    fs/read_write.c implement files that are sequences of bytes, with one offset per open
    file shared by its descriptors: [posix_step] is that specification, [posix_refines]
    the simulation, [write_seek_read] the round trip.  [Ram] is a file system in memory
    that meets the interface. *)
From S2P Require Import Prelude File ReadWrite Copy ReadWriteSpec Bytes.

Module Posix.
Import File ReadWrite Copy SeekSpec Frame Bytes.

(** ** The interface *)

(** A transfer of [k] bytes between the segments and a file at [p], leaving the position
    at [p']: a read takes what is there, a write replaces or extends, at the end of the
    file when it appends. *)
Definition xfer (t : direction) (ino : Z) (app : bool) (iov : iovec) (p : Z)
    (B : Z -> list Z) (M : memory) (k p' : Z) (B' : Z -> list Z) (M' : memory) : Prop :=
  0 <= k <= iov_iter_count iov /\
  match t with
  | READ =>
      k <= Z.max 0 (zlen (B ino) - p) /\ p' = p + k /\ (forall i, B' i = B i) /\
      (forall x, M' x = scatter M iov (window (B ino) p k) x)
  | WRITE =>
      let p0 := if app then zlen (B ino) else p in
      (p' = p0 + k \/ (k = 0 /\ p' = p)) /\
      (forall i, B' i = if i =? ino then splice (B i) p0 (ztake k (gather M iov)) else B i) /\
      (forall x, M' x = M x)
  end.

Definition segs_ok (iov : iovec) : Prop := Forall (fun seg => 0 <= snd seg) iov.

Definition call_buf {D} (e : fs_env D) (t : direction) :=
  match t with READ => drv_read e | WRITE => drv_write e end.

(** What a file system promises.  [fs_wf] is its own invariant; hooks and imports answer
    0 or an error; a failed transfer moves nothing. *)
Class ByteFs {D} (e : fs_env D) := {
  content : D -> Z -> list Z;
  umem : D -> memory;
  ino_of : Z -> Z;
  appends : Z -> bool;
  maxb : Z -> Z;
  fs_wf : D -> Prop;
  bf_max ino : 0 <= maxb ino <= OFFSET_MAX;
  bf_size d ino : i_size (inode_of e ino d) = zlen (content d ino);
  bf_maxbytes d ino : s_maxbytes (inode_of e ino d) = maxb ino;
  bf_fits d ino : fs_wf d -> zlen (content d ino) <= maxb ino;
  bf_iter t fid iov fl p d :
    segs_ok iov -> 0 <= p -> fs_wf d ->
    let '(k, p', d') := call_iter e t fid iov fl p d in
    fs_wf d' /\
    ((k < 0 /\ (forall i, content d' i = content d i) /\ (forall x, umem d' x = umem d x)) \/
     xfer t (ino_of fid) (appends fid) iov p (content d) (umem d) k p' (content d') (umem d'));
  bf_buf t fid buf n p d :
    0 <= n -> 0 <= p -> fs_wf d ->
    let '(k, p', d') := call_buf e t fid buf n (Some p) d in
    fs_wf d' /\
    ((k < 0 /\ p' = Some p /\ (forall i, content d' i = content d i) /\
        (forall x, umem d' x = umem d x)) \/
     exists q, p' = Some q /\
       xfer t (ino_of fid) (appends fid) [(buf, n)] p (content d) (umem d) k q
         (content d') (umem d'));
  bf_iov :: IovOk e;
  bf_import vec vlen :
    match import_iovec e vec vlen with
    | inl err => err < 0
    | inr iov => segs_ok iov /\ iov_iter_count iov <= MAX_RW_COUNT
    end;
  bf_flags fid fl err : kiocb_set_rw_flags e fid fl = inl err -> err < 0;
  bf_hooks fid mask pos n :
    security_file_permission e fid mask <= 0 /\ fsnotify_file_area_perm e fid mask pos n <= 0
}.

(** ** Transfers compose *)

Lemma iov_count_nonneg iov : segs_ok iov -> 0 <= iov_iter_count iov.
Proof. induction 1; simpl; lia. Qed.

Lemma iov_count_cons a n iov : iov_iter_count ((a, n) :: iov) = n + iov_iter_count iov.
Proof. done. Qed.

Section xfers.
Context (t : direction) (ino : Z) (app : bool).

(** A transfer that stops within the first segment is one over the whole list. *)
Lemma xfer_head a n rest p B M k p' B' M' :
  0 <= p -> segs_ok ((a, n) :: rest) ->
  xfer t ino app [(a, n)] p B M k p' B' M' -> xfer t ino app ((a, n) :: rest) p B M k p' B' M'.
Proof.
  intros Hp Hok [Hk Hx]. apply Forall_cons in Hok as [Hn Hrest]. simpl in Hn, Hk.
  pose proof (iov_count_nonneg rest Hrest). split; [rewrite iov_count_cons; lia|].
  destruct t; simpl in Hx |- *.
  - destruct Hx as (H1 & H2 & H3 & H4). do 3 (split; [done|]). intros x. rewrite H4.
    assert (zlen (zdrop n (window (B ino) p k)) = 0) as ->%zlen_0.
    { rewrite zlen_drop, zlen_window by lia. lia. }
    by rewrite scatter_nil.
  - destruct Hx as (H1 & H2 & H3). split; [done|]. split; [|done]. intros i. rewrite H2.
    destruct (i =? ino); [|done]. by rewrite app_nil_r, ztake_app_le by (rewrite zlen_load; lia).
Qed.

(** Leading empty segments do not matter. *)
Lemma xfer_skip es iov p B M k p' B' M' :
  Forall (fun seg => snd seg = 0) es ->
  xfer t ino app iov p B M k p' B' M' -> xfer t ino app (es ++ iov) p B M k p' B' M'.
Proof.
  intros Hes [Hk Hx].
  assert (iov_iter_count (es ++ iov) = iov_iter_count iov) as Hc.
  { clear -Hes. induction Hes as [|[a n] es Hn _ IH]; [done|]. simpl in *. lia. }
  split; [by rewrite Hc|]. destruct t; simpl in Hx |- *.
  - destruct Hx as (H1 & H2 & H3 & H4). do 3 (split; [done|]). intros x.
    by rewrite scatter_empty.
  - destruct Hx as (H1 & H2 & H3). split; [done|]. split; [|done]. intros i. rewrite H2.
    assert (gather M es = []) as Hg.
    { clear -Hes. induction Hes as [|[a n] es Hn _ IH]; [done|]. simpl in *. by subst. }
    by rewrite gather_app, Hg.
Qed.

(** A full first segment and then the rest. *)
Lemma xfer_cons a n rest p q B M B1 M1 k p' B' M' :
  0 <= p -> segs_ok ((a, n) :: rest) ->
  xfer t ino app [(a, n)] p B M n q B1 M1 -> xfer t ino app rest q B1 M1 k p' B' M' ->
  xfer t ino app ((a, n) :: rest) p B M (n + k) p' B' M'.
Proof.
  intros Hp Hok [_ Hx] [Hk Hy]. apply Forall_cons in Hok as [Hn Hrest]. simpl in Hn.
  split; [rewrite iov_count_cons; lia|]. destruct t; simpl in Hx, Hy |- *.
  - destruct Hx as (H1 & -> & H3 & H4), Hy as (K1 & -> & K3 & K4). rewrite H3 in K1, K4.
    split; [lia|]. split; [lia|]. split; [intros i; by rewrite K3|]. intros x. rewrite K4.
    assert (window (B ino) p (n + k) = window (B ino) p n ++ window (B ino) (p + n) k) as ->.
    { destruct (Z.le_gt_cases n (zlen (B ino) - p)) as [Hle|Hgt]; [apply window_split; lia|].
      assert (n = 0) as -> by lia. by rewrite Z.add_0_l, Z.add_0_r. }
    assert (zlen (window (B ino) p n) = n) as Hw by (rewrite zlen_window; lia).
    unfold ztake at 1, zdrop at 1. rewrite take_app_length', drop_app_length'
      by (unfold zlen in Hw; lia).
    apply scatter_ext. intros y. rewrite H4. simpl. by rewrite ztake_ge by lia.
  - destruct Hx as (H1 & H2 & H3), Hy as (K1 & K2 & K3).
    assert (Hp0 : (if app then zlen (B1 ino) else q) = (if app then zlen (B ino) else p) + n).
    { rewrite H2, Z.eqb_refl, app_nil_r, ztake_ge by (rewrite zlen_load; lia). destruct app; [|lia].
      destruct (decide (n = 0)) as [->|]; [change (load M a 0) with (@nil Z); rewrite splice_nil; lia|].
      rewrite zlen_splice, zlen_load; try lia; [apply zlen_nonneg|].
      intros Hz. pose proof (zlen_load M a n Hn) as Hl. rewrite Hz, zlen_nil in Hl. lia. }
    rewrite Hp0 in *. split; [destruct app; lia|]. split; [|intros x; by rewrite K3].
    intros i. rewrite K2, H2. destruct (Z.eqb_spec i ino) as [->|]; [|done].
    rewrite app_nil_r, (ztake_ge n) by (rewrite zlen_load; lia).
    rewrite ztake_app by lia. rewrite (ztake_ge (n + k)) by (rewrite zlen_load; lia).
    rewrite zlen_load by lia. replace (n + k - n) with k by lia.
    assert (0 <= if app then zlen (B ino) else p) by (pose proof (zlen_nonneg (B ino)); by destruct app).
    rewrite splice_app, zlen_load by done.
    by rewrite (gather_ext M1 M).
Qed.
End xfers.

(** ** Transfers of the calls *)

Section calls.
Context {D : Type} {e : fs_env D} {fs : ByteFs e} (ce : copy_env D).
Implicit Types s : vfs D.

Definition same_fs (d d' : D) : Prop :=
  (forall i, content d' i = content d i) /\ (forall x, umem d' x = umem d x).

#[export] Instance same_fs_preorder : PreOrder same_fs.
Proof.
  split; [by intros d|]. intros d1 d2 d3 [H1 H2] [K1 K2].
  split; intros; [by rewrite K1|by rewrite K2].
Qed.

(** The transfer on open file [fid] took place. *)
Definition moves (t : direction) (fid : Z) (iov : iovec) (p : Z) (d : D) (k p' : Z) (d' : D) : Prop :=
  xfer t (ino_of fid) (appends fid) iov p (content d) (umem d) k p' (content d') (umem d').

(** The result of a transfer routine: an error and nothing moved, or the transfer. *)
Definition outcome (t : direction) (fid : Z) (iov : iovec) (p : Z) (d : D)
    (r : Z * ppos * vfs D) : Prop :=
  fs_wf (dev r.2) /\
  ((r.1.1 < 0 /\ same_fs d (dev r.2)) \/
   exists q, r.1.2 = Some q /\ moves t fid iov p d r.1.1 q (dev r.2)).

(** A transfer of nothing changes nothing. *)
Lemma moves_nothing t fid iov p d p' d' : moves t fid iov p d 0 p' d' -> same_fs d d'.
Proof.
  intros [_ Hx]. destruct t; simpl in Hx.
  - destruct Hx as (_ & _ & H3 & H4). split; [done|]. intros x. rewrite H4.
    unfold window. by rewrite ztake_0, scatter_nil.
  - destruct Hx as (_ & H2 & H3). split; [|done]. intros i. rewrite H2. by destruct (i =? _).
Qed.

Lemma moves_0 t fid iov p d d' : segs_ok iov -> same_fs d d' -> moves t fid iov p d 0 p d'.
Proof.
  intros Hok [Hc Hm]. split; [pose proof (iov_count_nonneg iov Hok); lia|]. destruct t; simpl.
  - split; [lia|]. split; [lia|]. split; [done|]. intros x. unfold window.
    by rewrite ztake_0, scatter_nil.
  - split; [by right|]. split; [|done]. intros i. rewrite Hc. by destruct (i =? _).
Qed.

Lemma moves_pos t fid iov p d k p' d' : 0 <= p -> moves t fid iov p d k p' d' -> 0 <= p'.
Proof.
  intros Hp [Hk Hx]. destruct t; simpl in Hx; [lia|].
  pose proof (zlen_nonneg (content d (ino_of fid))). destruct (appends fid); lia.
Qed.

(** Starting from the same bytes. *)
Lemma moves_same t fid iov p d0 d k p' d' :
  same_fs d0 d -> moves t fid iov p d k p' d' -> moves t fid iov p d0 k p' d'.
Proof.
  intros [Hc Hm] [Hk Hx]. split; [done|]. destruct t; simpl in Hx |- *.
  - rewrite Hc in Hx. destruct Hx as (H1 & H2 & H3 & H4). do 2 (split; [done|]).
    split; [intros i; by rewrite H3, Hc|]. intros x. rewrite H4. by apply scatter_ext.
  - rewrite Hc in Hx. destruct Hx as (H1 & H2 & H3). split; [done|].
    split; [|intros x; by rewrite H3, Hm]. intros i. rewrite H2, !Hc.
    by rewrite (gather_ext (umem d) (umem d0)).
Qed.

(** The loop over the segments, with [ret] bytes moved before: it adds one transfer over
    the segments left; an error after the first bytes is a short transfer. *)
Lemma loop_outcome t fid fuel iter p ret s :
  (length iter < fuel)%nat -> segs_ok iter -> 0 <= p -> 0 <= ret ->
  ret + iov_iter_count iter <= MAX_RW_COUNT -> fs_wf (dev s) ->
  exists r p' s', readv_writev_loop e fuel fid iter (Some p) t ret s = Some (r, Some p', s') /\
    fs_wf (dev s') /\
    ((ret = 0 /\ r < 0 /\ same_fs (dev s) (dev s')) \/
     exists k, r = ret + k /\ moves t fid iter p (dev s) k p' (dev s')).
Proof.
  revert iter p ret s. induction fuel as [|fuel IH]; intros iter p ret s Hf Hok Hp Hret Hmax Hwf;
    [lia|].
  cbn [readv_writev_loop]. destruct (Z.eqb_spec (iov_iter_count iter) 0) as [Hc|Hc].
  { eexists _, _, _. split; [done|]. split; [done|]. right. exists 0. split; [lia|].
    by apply moves_0. }
  destruct iter as [|[a n] rest]; [done|]. pose proof Hok as [Hn Hrest]%Forall_cons. simpl in Hn.
  change (match t with READ => drv_read e | WRITE => drv_write e end) with (call_buf e t).
  pose proof (bf_buf t fid a n p (dev s) Hn Hp Hwf) as Hd.
  destruct (call_buf e t fid a n (Some p) (dev s)) as [[nr pos'] d].
  destruct Hd as [Hwf' Hd]. destruct (Z.ltb_spec nr 0) as [Hneg|Hpos].
  { destruct Hd as [(_ & -> & Hs)|(q & _ & [Hk _])]; [|simpl in Hk; lia].
    destruct (Z.eqb_spec ret 0); (eexists _, _, _; split; [done|]; split; [done|]); [by left|].
    right. exists 0. split; [lia|]. by apply moves_0. }
  destruct Hd as [[? _]|(q & -> & Hx)]; [lia|]. pose proof Hx as [Hk _]. simpl in Hk.
  rewrite iov_count_cons in Hmax. pose proof (iov_count_nonneg rest Hrest).
  unfold MAX_RW_COUNT in Hmax. rewrite i64_small by lia.
  destruct (Z.eqb_spec nr n) as [->|Hne]; simpl.
  2: { eexists _, _, _. split; [done|]. split; [done|]. right. exists nr. split; [done|].
       by apply xfer_head. }
  destruct (advance_skips a n rest) as (es & Hes & Hz).
  set (it := iov_iter_advance e n ((a, n) :: rest)) in *.
  assert (Hit : segs_ok it /\ iov_iter_count it = iov_iter_count rest /\ (length it <= length rest)%nat).
  { rewrite Hes in Hrest |- *. apply Forall_app in Hrest as [_ Hi]. split; [done|].
    rewrite length_app. split; [|lia]. clear -Hz. induction Hz as [|[b m] es Hm _ IHz]; [done|].
    simpl in *. lia. }
  destruct Hit as (Hit & Hcnt & Hlen). simpl in Hf.
  pose proof (moves_pos t fid [(a, n)] p (dev s) n q d Hp Hx) as Hq.
  destruct (IH it q (ret + n) (set_dev d s)) as (r & p' & s' & -> & Hwf2 & Hr);
    [lia|done|done|lia|unfold MAX_RW_COUNT; lia|done|].
  eexists _, _, _. split; [done|]. split; [done|]. simpl in Hr.
  destruct Hr as [(H0 & Hneg & Hs)|(k & -> & Hy)].
  - left. split; [lia|]. split; [done|]. assert (n = 0) as -> by lia.
    etrans; [|exact Hs]. by eapply moves_nothing.
  - right. exists (n + k). split; [lia|]. eapply xfer_cons; [done..| |].
    + exact Hx.
    + rewrite Hes. by apply xfer_skip.
Qed.

Lemma verify_nonpos t fid f pos n : rw_verify_area e t fid f pos n <= 0.
Proof.
  assert (Hs : forall m, security_file_permission e fid m <= 0)
    by (intros m; apply (bf_hooks fid m None 0)).
  assert (Hf : forall m q k, fsnotify_file_area_perm e fid m q k <= 0) by (intros; apply bf_hooks).
  unfold rw_verify_area. repeat case_match; try apply Hs; try apply Hf; done.
Qed.

(** A path that fails before the driver is asked. *)
Lemma outcome_error t fid iov p s err pos :
  fs_wf (dev s) -> err < 0 -> outcome t fid iov p (dev s) (err, pos, s).
Proof. intros. split; [done|]. by left. Qed.

(** What the driver was asked, through either method. *)
Lemma outcome_buf t fid buf n p s :
  0 <= n -> 0 <= p -> fs_wf (dev s) ->
  outcome t fid [(buf, n)] p (dev s)
    (let '(ret, pos, d) := call_buf e t fid buf n (Some p) (dev s) in (ret, pos, set_dev d s)).
Proof.
  intros Hn Hp Hwf. pose proof (bf_buf t fid buf n p (dev s) Hn Hp Hwf) as Hd.
  destruct (call_buf e t fid buf n (Some p) (dev s)) as [[k pos'] d].
  destruct Hd as [Hwf' [(? & _ & Hs)|Hx]]; (split; [done|]); [by left|by right].
Qed.

Lemma outcome_iter t fid iov fl p s :
  segs_ok iov -> 0 <= p -> fs_wf (dev s) ->
  outcome t fid iov p (dev s)
    (let '(ret, ki_pos, d) := call_iter e t fid iov fl p (dev s) in (ret, Some ki_pos, set_dev d s)).
Proof.
  intros Hn Hp Hwf. pose proof (bf_iter t fid iov fl p (dev s) Hn Hp Hwf) as Hd.
  destruct (call_iter e t fid iov fl p (dev s)) as [[k p'] d].
  destruct Hd as [Hwf' [(? & Hs)|Hx]]; (split; [done|]); [by left|right; by eexists].
Qed.

(** [outcome] is about the drivers' state only. *)
Lemma outcome_state t fid iov p d ret pos s s' :
  dev s' = dev s -> outcome t fid iov p d (ret, pos, s) -> outcome t fid iov p d (ret, pos, s').
Proof. unfold outcome. simpl. by intros ->. Qed.

Definition capped (n : Z) : Z := Z.min n MAX_RW_COUNT.

Lemma cap_eq n : (if MAX_RW_COUNT <? n then MAX_RW_COUNT else n) = capped n.
Proof. unfold capped. destruct (Z.ltb_spec MAX_RW_COUNT n); lia. Qed.

Lemma segs_ok_one buf n : 0 <= n -> segs_ok [(buf, n)].
Proof. intros. by apply Forall_singleton. Qed.

Lemma vfs_read_outcome fid buf n p s :
  0 <= n -> 0 <= p -> fs_wf (dev s) ->
  outcome READ fid [(buf, capped n)] p (dev s) (vfs_read e fid buf n (Some p) s).
Proof.
  intros Hn Hp Hwf. assert (Hc : 0 <= capped n) by (unfold capped, MAX_RW_COUNT; lia).
  unfold vfs_read, new_sync_read. rewrite cap_eq.
  case_match; [by apply outcome_error|]. case_match; [by apply outcome_error|].
  case_match; [by apply outcome_error|]. case_match eqn:Hv.
  { apply outcome_error; [done|]. pose proof (verify_nonpos READ fid (files s fid) (Some p) n). lia. }
  destruct (has_read e fid); [|destruct (has_read_iter e fid)].
  - pose proof (outcome_buf READ fid buf (capped n) p s Hc Hp Hwf) as Ho. simpl in Ho.
    destruct (drv_read e _ _ _ _ _) as [[k pos'] d]. eapply outcome_state; [|exact Ho]. by case_match.
  - pose proof (outcome_iter READ fid [(buf, capped n)] (iocb_flags e fid) p s
      (segs_ok_one _ _ Hc) Hp Hwf) as Ho. simpl in Ho |- *.
    destruct (drv_read_iter e _ _ _ _ _) as [[k pos'] d]. eapply outcome_state; [|exact Ho].
    by case_match.
  - by apply (outcome_error READ fid _ p (inc_syscr s)).
Qed.

Lemma vfs_write_outcome fid buf n p s :
  0 <= n -> 0 <= p -> fs_wf (dev s) ->
  outcome WRITE fid [(buf, capped n)] p (dev s) (vfs_write e fid buf n (Some p) s).
Proof.
  intros Hn Hp Hwf. assert (Hc : 0 <= capped n) by (unfold capped, MAX_RW_COUNT; lia).
  unfold vfs_write, new_sync_write. rewrite cap_eq.
  case_match; [by apply outcome_error|]. case_match; [by apply outcome_error|].
  case_match; [by apply outcome_error|]. case_match eqn:Hv.
  { apply outcome_error; [done|]. pose proof (verify_nonpos WRITE fid (files s fid) (Some p) n). lia. }
  destruct (has_write e fid); [|destruct (has_write_iter e fid)].
  - pose proof (outcome_buf WRITE fid buf (capped n) p s Hc Hp Hwf) as Ho. simpl in Ho |- *.
    destruct (drv_write e _ _ _ _ _) as [[k pos'] d]. eapply outcome_state; [|exact Ho]. by case_match.
  - pose proof (outcome_iter WRITE fid [(buf, capped n)] (iocb_flags e fid) p s
      (segs_ok_one _ _ Hc) Hp Hwf) as [Hw Ho]. simpl in Hw, Ho |- *.
    destruct (drv_write_iter e _ _ _ _ _) as [[k pos'] d]. simpl in *.
    destruct (Z.ltb_spec 0 k) as [Hk|Hk]; [by split|]. split; [done|]. simpl.
    destruct Ho as [?|(q & [= <-] & Hx)]; [by left|]. right. exists p. split; [done|].
    assert (k = 0) as -> by (destruct Hx; lia). apply moves_0; [by apply segs_ok_one|].
    by eapply moves_nothing.
  - by apply (outcome_error WRITE fid _ p (file_end_write (inc_syscw (file_start_write s)))).
Qed.

Lemma rw_vector_outcome b t fid iov p fl s :
  segs_ok iov -> iov_iter_count iov <= MAX_RW_COUNT -> 0 <= p -> fs_wf (dev s) ->
  exists r, rw_vector e b fid iov (Some p) t fl s = Some r /\ outcome t fid iov p (dev s) r.
Proof.
  intros Hok Hc Hp Hwf. unfold rw_vector, do_iter_readv_writev, do_loop_readv_writev. destruct b.
  - eexists. split; [done|]. destruct (kiocb_set_rw_flags e fid fl) as [err|kf] eqn:Hf.
    { apply outcome_error; [done|]. by apply bf_flags in Hf. }
    pose proof (outcome_iter t fid iov kf p s Hok Hp Hwf) as Ho. simpl.
    by destruct (call_iter e t fid iov kf p (dev s)) as [[ret q] d].
  - case_match; [eexists; split; [done|]; by apply outcome_error|].
    destruct (loop_outcome t fid (loop_fuel iov) iov p 0 s) as (r & p' & s' & -> & Hw & Hr);
      [unfold loop_fuel; lia|done|done|done|lia|done|].
    eexists. split; [done|]. split; [done|]. simpl.
    destruct Hr as [(_ & Hn & Hs)|(k & -> & Hx)]; [by left|right; by eexists].
Qed.

(** The vectored calls work on the imported segments. *)
Definition vec_outcome (t : direction) (fid vec vlen p : Z) (d : D) (r : Z * ppos * vfs D) : Prop :=
  match import_iovec e vec vlen with
  | inl _ => r.1.1 < 0 /\ fs_wf (dev r.2) /\ same_fs d (dev r.2)
  | inr iov => outcome t fid iov p d r
  end.

Lemma vec_outcome_error t fid vec vlen p s err pos :
  fs_wf (dev s) -> err < 0 -> vec_outcome t fid vec vlen p (dev s) (err, pos, s).
Proof. intros. unfold vec_outcome. case_match; [done|by apply outcome_error]. Qed.

Lemma vfs_readv_outcome fid vec vlen p fl s :
  0 <= p -> fs_wf (dev s) ->
  exists r, vfs_readv e fid vec vlen (Some p) fl s = Some r /\
    vec_outcome READ fid vec vlen p (dev s) r.
Proof.
  intros Hp Hwf. unfold vfs_readv. pose proof (bf_import vec vlen) as Hi.
  destruct (negb _); [eexists; split; [done|]; by apply vec_outcome_error|].
  destruct (negb _); [eexists; split; [done|]; by apply vec_outcome_error|].
  unfold vec_outcome. destruct (import_iovec e vec vlen) as [err|iov]; [by eexists|].
  destruct Hi as [Hok Hc]. destruct (Z.eqb_spec (iov_iter_count iov) 0) as [->|].
  { eexists. split; [done|]. split; [done|]. right. exists p. split; [done|]. by apply moves_0. }
  case_match eqn:Hv; [eexists; split; [done|]; apply outcome_error; [done|lia]|].
  by apply rw_vector_outcome.
Qed.

Lemma vfs_writev_outcome fid vec vlen p fl s :
  0 <= p -> fs_wf (dev s) ->
  exists r, vfs_writev e fid vec vlen (Some p) fl s = Some r /\
    vec_outcome WRITE fid vec vlen p (dev s) r.
Proof.
  intros Hp Hwf. unfold vfs_writev. pose proof (bf_import vec vlen) as Hi.
  destruct (negb _); [eexists; split; [done|]; by apply vec_outcome_error|].
  destruct (negb _); [eexists; split; [done|]; by apply vec_outcome_error|].
  unfold vec_outcome. destruct (import_iovec e vec vlen) as [err|iov]; [by eexists|].
  destruct Hi as [Hok Hc]. destruct (Z.eqb_spec (iov_iter_count iov) 0) as [->|].
  { eexists. split; [done|]. split; [done|]. right. exists p. split; [done|]. by apply moves_0. }
  case_match eqn:Hv; [eexists; split; [done|]; apply outcome_error; [done|lia]|].
  destruct (rw_vector_outcome (has_write_iter e fid) WRITE fid iov p fl (file_start_write s))
    as ([[ret pos] s'] & -> & Ho); [done..|]. eexists. split; [done|].
  by eapply outcome_state; [|exact Ho].
Qed.

(** ** The specification *)

(** The bytes of each file, memory, and the offset of each open file. *)
Record ast := Ast { a_bytes : Z -> list Z; a_mem : memory; a_off : Z -> Z }.

Definition abs s : ast :=
  {| a_bytes := content (dev s); a_mem := umem (dev s); a_off := fun fid => f_pos (files s fid) |}.

Definition a_same (a a' : ast) : Prop :=
  (forall i, a_bytes a' i = a_bytes a i) /\ (forall x, a_mem a' x = a_mem a x) /\
  (forall f, a_off a' f = a_off a f).

(** The transfer a call asks for: direction, descriptor, segments (none if they cannot be
    imported), and the position when the caller gives one. *)
Definition imported (vec vlen : Z) : option iovec :=
  match import_iovec e vec vlen with inl _ => None | inr iov => Some iov end.
Definition io_of (c : rw_call) : option (direction * Z * option iovec * option Z) :=
  let at_pos pos := if pos =? -1 then None else Some pos in
  match c with
  | CRead fd buf n => Some (READ, fd, Some [(buf, capped n)], None)
  | CWrite fd buf n => Some (WRITE, fd, Some [(buf, capped n)], None)
  | CPread fd buf n pos => Some (READ, fd, Some [(buf, capped n)], Some pos)
  | CPwrite fd buf n pos => Some (WRITE, fd, Some [(buf, capped n)], Some pos)
  | CReadv fd vec vlen _ => Some (READ, fd, imported vec vlen, None)
  | CWritev fd vec vlen _ => Some (WRITE, fd, imported vec vlen, None)
  | CPreadv fd vec vlen pos _ => Some (READ, fd, imported vec vlen, Some pos)
  | CPwritev fd vec vlen pos _ => Some (WRITE, fd, imported vec vlen, Some pos)
  | CPreadv2 fd vec vlen lo hi _ => Some (READ, fd, imported vec vlen, at_pos (pos_from_hilo hi lo))
  | CPwritev2 fd vec vlen lo hi _ => Some (WRITE, fd, imported vec vlen, at_pos (pos_from_hilo hi lo))
  | _ => None
  end.

Inductive posix_step (tbl : Z -> option Z) : rw_call -> ast -> Z -> ast -> Prop :=
  | ps_fail c a ret a' : ret < 0 -> a_same a a' -> posix_step tbl c a ret a'
  | ps_own c a k a' t fd iov fid p' :
      io_of c = Some (t, fd, Some iov, None) -> tbl fd = Some fid ->
      xfer t (ino_of fid) (appends fid) iov (a_off a fid) (a_bytes a) (a_mem a) k p'
        (a_bytes a') (a_mem a') ->
      (forall f, a_off a' f = if f =? fid then p' else a_off a f) ->
      posix_step tbl c a k a'
  | ps_at c a k a' t fd iov fid p p' :
      io_of c = Some (t, fd, Some iov, Some p) -> tbl fd = Some fid -> 0 <= p ->
      xfer t (ino_of fid) (appends fid) iov p (a_bytes a) (a_mem a) k p' (a_bytes a') (a_mem a') ->
      (forall f, a_off a' f = a_off a f) ->
      posix_step tbl c a k a'
  | ps_seek fd off wh a p a' fid :
      tbl fd = Some fid ->
      seek_target (a_off a fid) (zlen (a_bytes a (ino_of fid))) off wh = Some p ->
      0 <= p <= maxb (ino_of fid) ->
      (forall i, a_bytes a' i = a_bytes a i) -> (forall x, a_mem a' x = a_mem a x) ->
      (forall f, a_off a' f = if f =? fid then p else a_off a f) ->
      posix_step tbl (CLseek fd off wh) a p a'.

(** Open regular files with signed offsets, within the file system's limits. *)
Record file_ok (fid : Z) (f : file) : Prop := {
  fo_inode : f_inode f = ino_of fid;
  fo_path : flag_set (f_mode f) FMODE_PATH = false;
  fo_stream : flag_set (f_mode f) FMODE_STREAM = false;
  fo_signed : unsigned_offsets f = false;
  fo_llseek : f_llseek f = GenericLlseek;
  fo_pos : 0 <= f_pos f <= maxb (ino_of fid)
}.

Record posix_wf s : Prop := {
  pw_fs : fs_wf (dev s);
  pw_file fd fid : fdt s fd = Some fid -> file_ok fid (files s fid)
}.

(** Every descriptor of such a state can be used. *)
Lemma wf_fd s fd : posix_wf s -> fd_file s fd = fdt s fd.
Proof.
  intros [_ Hf]. unfold fd_file. destruct (fdt s fd) as [fid|] eqn:Hfd; [|done].
  by rewrite (fo_path _ _ (Hf fd fid Hfd)).
Qed.

(** The calls the specification covers, with arguments in the range of their types. *)
Definition posix_call (c : rw_call) : Prop :=
  match c with
  | CLseek _ off _ => - 2 ^ 63 <= off < 2 ^ 63
  | CRead _ _ n | CWrite _ _ n | CPread _ _ n _ | CPwrite _ _ n _ => 0 <= n
  | CReadv _ _ _ _ | CWritev _ _ _ _ | CPreadv _ _ _ _ _ | CPwritev _ _ _ _ _
  | CPreadv2 _ _ _ _ _ _ | CPwritev2 _ _ _ _ _ _ => True
  | CLlseek _ _ _ _ _ | CSendfile _ _ _ _ | CSendfile64 _ _ _ _ | CCopy _ _ _ _ _ _ => False
  end.

(** The call returns, makes a step of the specification and keeps the invariant. *)
Definition psim (c : rw_call) s (o : option (Z * vfs D)) : Prop :=
  exists ret s', o = Some (ret, s') /\ posix_step (fdt s) c (abs s) ret (abs s') /\ posix_wf s'.

(** Positions a transfer ends at are within the limits. *)
Lemma moves_max t fid iov p d k p' d' :
  segs_ok iov -> 0 <= p <= maxb (ino_of fid) -> fs_wf d -> fs_wf d' ->
  moves t fid iov p d k p' d' -> p' <= maxb (ino_of fid).
Proof.
  intros Hok Hp Hd Hd' [Hk Hx]. pose proof (bf_fits d (ino_of fid) Hd) as Hmax.
  pose proof (bf_fits d' (ino_of fid) Hd') as Hmax'. destruct t; simpl in Hx; [lia|].
  destruct Hx as (H1 & H2 & _). rewrite H2, Z.eqb_refl in Hmax'.
  set (p0 := if appends fid then _ else p) in *.
  assert (0 <= p0 <= maxb (ino_of fid)).
  { unfold p0. pose proof (zlen_nonneg (content d (ino_of fid))). destruct (appends fid); lia. }
  destruct (decide (k = 0)) as [->|]; [lia|].
  assert (Hl : zlen (ztake k (gather (umem d) iov)) = k)
    by (rewrite zlen_take, zlen_gather by (done || lia); lia).
  rewrite zlen_splice in Hmax'; [lia|lia|]. intros Hz. rewrite Hz, zlen_nil in Hl. lia.
Qed.

Lemma wf_same s s' :
  posix_wf s -> fdt s' = fdt s -> (forall i, files s' i = files s i) -> fs_wf (dev s') -> posix_wf s'.
Proof. intros [Hw Hf] Hfd Hfi Hw'. split; [done|]. intros. rewrite Hfi. rewrite Hfd in *. eauto. Qed.

Lemma psim_fail_same c s s' ret :
  ret < 0 -> posix_wf s -> fdt s' = fdt s -> (forall i, files s' i = files s i) ->
  fs_wf (dev s') -> same_fs (dev s) (dev s') -> psim c s (Some (ret, s')).
Proof.
  intros Hret Hw Hfd Hfi Hw' [Hc Hm]. eexists _, _. split; [done|]. split; [|by eapply wf_same].
  apply ps_fail; [done|]. split; [done|]. split; [done|]. intros f. simpl. by rewrite Hfi.
Qed.

Lemma wf_quiet s s' : posix_wf s -> quiet e s s' -> fs_wf (dev s') -> posix_wf s'.
Proof. intros Hw [Hfd Hfi _ _ _] Hw'. eapply wf_same; try done. by rewrite Hfi. Qed.

Lemma psim_fail c s s' ret :
  ret < 0 -> posix_wf s -> quiet e s s' -> fs_wf (dev s') -> same_fs (dev s) (dev s') ->
  psim c s (Some (ret, s')).
Proof. intros Hr Hw [Hfd Hfi _ _ _] Hw' Hs. apply psim_fail_same; try done. by rewrite Hfi. Qed.

Lemma psim_refuse c s ret : ret < 0 -> posix_wf s -> psim c s (Some (ret, s)).
Proof. intros Hr Hw. apply psim_fail; try done. apply Hw. Qed.

(** Bookkeeping is outside the specification. *)
Lemma psim_account_read c s o : psim c s o -> psim c s (account_read <$> o).
Proof.
  intros (ret & s' & -> & Hs & [Hw Hf]). eexists _, _. split; [done|].
  by destruct (0 <? ret).
Qed.
Lemma psim_account_write c s o : psim c s o -> psim c s (account_write <$> o).
Proof.
  intros (ret & s' & -> & Hs & [Hw Hf]). eexists _, _. split; [done|].
  by destruct (0 <? ret).
Qed.

(** The two frames, around a transfer. *)
Lemma own_sim c t fd iov fid s r :
  io_of c = Some (t, fd, Some iov, None) -> segs_ok iov -> posix_wf s -> fdt s fd = Some fid ->
  quiet e (set_held (held s + 1) (pos_held s + 1) (writers s) s) r.2 ->
  outcome t fid iov (f_pos (files s fid)) (dev s) r ->
  psim c s (Some (finish_pos fid r)).
Proof.
  intros Hio Hok Hw Hfd Hq [Hw' Ho]. destruct r as [[ret pos] s']. simpl in *.
  assert (Hq' : quiet e s (fdput_pos s')) by (destruct Hq; split; simpl in *; try done; lia).
  destruct Ho as [[Hr Hs]|(q & -> & Hx)].
  { unfold store_pos. replace (0 <=? ret) with false by lia.
    assert (match pos with Some _ => s' | None => s' end = s') as -> by by destruct pos.
    by apply psim_fail. }
  pose proof (pw_file _ Hw _ _ Hfd) as Hfo. pose proof (fo_pos _ _ Hfo) as Hpos.
  assert (0 <= q <= maxb (ino_of fid)).
  { split; [by eapply moves_pos; [|exact Hx]; lia|].
    eapply moves_max; [done|done| |exact Hw'|exact Hx]. apply Hw. }
  assert (0 <= ret) by (destruct Hx; lia). unfold store_pos. replace (0 <=? ret) with true by lia.
  destruct Hq' as [Hfd' Hfi _ _ _]. simpl in Hfd', Hfi.
  eexists _, _. split; [done|]. split.
  - eapply (ps_own _ _ _ _ _ t fd iov fid q); [done|done|exact Hx|]. intros f. simpl. rewrite Hfi.
    by destruct (f =? fid).
  - split; [done|]. intros fd' fid' Hfd''. simpl in *. rewrite Hfi. rewrite Hfd' in Hfd''.
    pose proof (pw_file _ Hw _ _ Hfd'') as Hfo'. destruct (Z.eqb_spec fid' fid) as [->|]; [|done].
    by destruct Hfo; split.
Qed.

Lemma at_sim c t fd iov fid p s r :
  io_of c = Some (t, fd, Some iov, Some p) -> 0 <= p -> posix_wf s -> fdt s fd = Some fid ->
  quiet e (set_held (held s + 1) (pos_held s) (writers s) s) r.2 ->
  outcome t fid iov p (dev s) r ->
  psim c s (Some (r.1.1, fdput r.2)).
Proof.
  intros Hio Hp Hw Hfd Hq%fdput_quiet [Hw' Ho]. destruct r as [[ret pos] s']. simpl in *.
  destruct Ho as [[Hr Hs]|(q & -> & Hx)]; [by apply psim_fail|].
  eexists _, _. split; [done|]. split; [|by eapply wf_quiet].
  eapply (ps_at _ _ _ _ _ t fd iov fid p q); [done|done|done|exact Hx|].
  intros f. simpl. by rewrite <- (q_files _ _ _ Hq).
Qed.

(** Seeking. *)
Lemma seek_sim fd fid off wh p s s' :
  posix_wf s -> fdt s fd = Some fid ->
  seek_target (f_pos (files s fid)) (zlen (content (dev s) (ino_of fid))) off wh = Some p ->
  0 <= p <= maxb (ino_of fid) ->
  fdt s' = fdt s -> dev s' = dev s ->
  (forall i, i <> fid -> files s' i = files s i) ->
  (exists v, files s' fid = set_version v (set_pos p (files s fid))) ->
  psim (CLseek fd off wh) s (Some (p, s')).
Proof.
  intros Hw Hfd Htg Hp Hfd' Hd Ho [v Hf]. pose proof (pw_file _ Hw _ _ Hfd) as Hfo.
  assert (Hoff : forall f, f_pos (files s' f) = if f =? fid then p else f_pos (files s f)).
  { intros f. destruct (Z.eqb_spec f fid) as [->|]; [by rewrite Hf|by rewrite Ho]. }
  eexists _, _. split; [done|]. split.
  - apply (ps_seek _ _ _ _ _ _ _ fid); simpl; rewrite ?Hd; done.
  - split; [rewrite Hd; apply Hw|]. rewrite Hfd'. intros fd' fid' Hfd''.
    pose proof (pw_file _ Hw _ _ Hfd'') as Hfo'. destruct (Z.eq_dec fid' fid) as [->|].
    + rewrite Hf. by destruct Hfo; split.
    + by rewrite Ho.
Qed.

Lemma lseek_sim fd off wh s :
  - 2 ^ 63 <= off < 2 ^ 63 -> posix_wf s ->
  psim (CLseek fd off wh) s (Some (ksys_lseek e fd off wh s)).
Proof.
  intros Hoff Hw. unfold ksys_lseek, fdget_pos. rewrite (wf_fd _ _ Hw).
  destruct (fdt s fd) as [fid|] eqn:Hfd; [|by apply psim_refuse].
  pose proof (pw_file _ Hw _ _ Hfd) as [Hino _ Hst Hsg Hls Hpos].
  destruct (wh <=? SEEK_MAX); [|apply psim_fail_same; try done; apply Hw].
  unfold vfs_llseek. cbn [files set_held dev]. destruct (negb (flag_set _ FMODE_LSEEK));
    [apply psim_fail_same; try done; apply Hw|].
  unfold llseek_of. rewrite Hls. unfold generic_file_llseek.
  rewrite Hino, bf_size, bf_maxbytes. pose proof (bf_max (ino_of fid)) as Hmax.
  rewrite llseek_size_spec; [|split; try done; [|lia]|done].
  2: { split; [apply zlen_nonneg|]. apply bf_fits. apply Hw. }
  unfold seek_spec. destruct (seek_target _ _ _ _) as [p|] eqn:Htg.
  2: { apply psim_fail_same; try done; [|apply Hw]. intros i. simpl.
       by destruct (Z.eqb_spec i fid) as [->|]. }
  destruct ((0 <=? p) && (p <=? maxb (ino_of fid))) eqn:Hr.
  2: { apply psim_fail_same; try done; [|apply Hw]. intros i. simpl.
       by destruct (Z.eqb_spec i fid) as [->|]. }
  cbv beta iota zeta. unfold OFFSET_MAX in Hmax. rewrite !(i64_small p), Z.eqb_refl by lia.
  apply (seek_sim fd fid off wh p s); [done|done|done|lia|done|done| |]; simpl.
  - intros i Hi. by destruct (Z.eqb_spec i fid).
  - rewrite Z.eqb_refl. destruct (Z.eqb_spec p (f_pos (files s fid))) as [->|]; [|by eexists].
    exists (f_version (files s fid)). by rewrite set_same.
Qed.

(** The calls with one buffer. *)
Lemma file_pos_sim c t fd iov tr s :
  io_of c = Some (t, fd, Some iov, None) -> segs_ok iov -> posix_wf s ->
  (forall fid pos s, quiet e s (tr fid pos s).2) ->
  (forall fid p s, 0 <= p -> fs_wf (dev s) -> outcome t fid iov p (dev s) (tr fid (Some p) s)) ->
  psim c s (Some (with_file_pos fd tr s)).
Proof.
  intros Hio Hok Hw Hq Ho. unfold with_file_pos, fdget_pos. rewrite (wf_fd _ _ Hw).
  destruct (fdt s fd) as [fid|] eqn:Hfd; [|by apply psim_refuse].
  pose proof (pw_file _ Hw _ _ Hfd) as [_ _ Hst _ _ Hpos]. unfold file_ppos. simpl. rewrite Hst.
  eapply own_sim; [done|done|done|done|apply Hq|].
  apply (Ho fid _ (set_held (held s + 1) (pos_held s + 1) (writers s) s)); [lia|]. apply Hw.
Qed.

Lemma own_pos_sim c t fd iov p mode tr s :
  io_of c = Some (t, fd, Some iov, Some p) -> posix_wf s ->
  (forall fid pos s, quiet e s (tr fid pos s).2) ->
  (forall fid p s, 0 <= p -> fs_wf (dev s) -> outcome t fid iov p (dev s) (tr fid (Some p) s)) ->
  psim c s (Some (if p <? 0 then (- EINVAL, s) else with_own_pos fd p mode tr s)).
Proof.
  intros Hio Hw Hq Ho. destruct (Z.ltb_spec p 0); [by apply psim_refuse|].
  unfold with_own_pos, fdget. rewrite (wf_fd _ _ Hw). destruct (fdt s fd) as [fid|] eqn:Hfd; [|by apply psim_refuse].
  cbn [files set_held]. destruct (flag_set _ mode);
    [|apply psim_fail; try done; [by apply fdput_quiet|apply Hw]].
  specialize (Hq fid (Some p) (set_held (held s + 1) (pos_held s) (writers s) s)).
  specialize (Ho fid p (set_held (held s + 1) (pos_held s) (writers s) s) ltac:(done)).
  destruct (tr fid (Some p) _) as [[ret pos] s'] eqn:Htr.
  apply (at_sim c t fd iov fid p s (ret, pos, s')); try done. apply Ho, Hw.
Qed.

(** Vectored calls whose segments cannot be imported fail. *)
Lemma imported_cases vec vlen :
  (imported vec vlen = None /\ exists err, import_iovec e vec vlen = inl err) \/
  (exists iov, imported vec vlen = Some iov /\ import_iovec e vec vlen = inr iov /\ segs_ok iov).
Proof.
  unfold imported. pose proof (bf_import vec vlen). destruct (import_iovec e vec vlen) as [err|iov].
  - left. eauto.
  - right. exists iov. naive_solver.
Qed.

(** Both vectored frames, around a transfer [tr] of direction [t]. *)
Lemma vec_own_sim c t fd vec vlen tr s :
  io_of c = Some (t, fd, imported vec vlen, None) -> posix_wf s ->
  (forall fid pos s, exists r, tr fid pos s = Some r /\ quiet e s r.2) ->
  (forall fid p s, 0 <= p -> fs_wf (dev s) ->
     exists r, tr fid (Some p) s = Some r /\ vec_outcome t fid vec vlen p (dev s) r) ->
  psim c s
    match fdget_pos fd s with
    | (None, s) => Some (- EBADF, s)
    | (Some fid, s) => finish_pos fid <$> tr fid (file_ppos (files s fid)) s
    end.
Proof.
  intros Hio Hw Hq Ho. unfold fdget_pos. rewrite (wf_fd _ _ Hw). destruct (fdt s fd) as [fid|] eqn:Hfd;
    [|by apply psim_refuse].
  pose proof (pw_file _ Hw _ _ Hfd) as [_ _ Hst _ _ Hpos]. unfold file_ppos. simpl. rewrite Hst.
  set (s1 := set_held _ _ _ s). set (p := f_pos (files s fid)).
  destruct (Hq fid (Some p) s1) as (r & Hr & Hqr).
  destruct (Ho fid p s1) as (r' & Hr' & Hor); [unfold p; lia|apply Hw|].
  rewrite Hr in Hr'. injection Hr' as <-. rewrite Hr. simpl. unfold vec_outcome in Hor.
  destruct (imported_cases vec vlen) as [[_ [err Hi]]|(iov & Him & Hi & Hok)]; rewrite Hi in Hor.
  - destruct r as [[ret pos] s']. simpl in *. destruct Hor as (Hn & Hwf & Hs). unfold store_pos.
    replace (0 <=? ret) with false by lia.
    assert (match pos with Some _ => s' | None => s' end = s') as -> by by destruct pos.
    apply psim_fail; try done. destruct Hqr; split; simpl in *; try done; lia.
  - rewrite Him in Hio. by eapply own_sim.
Qed.

Lemma vec_at_sim c t fd vec vlen p mode tr s :
  io_of c = Some (t, fd, imported vec vlen, Some p) -> 0 <= p -> posix_wf s ->
  (forall fid pos s, exists r, tr fid pos s = Some r /\ quiet e s r.2) ->
  (forall fid p s, 0 <= p -> fs_wf (dev s) ->
     exists r, tr fid (Some p) s = Some r /\ vec_outcome t fid vec vlen p (dev s) r) ->
  psim c s
    match fdget fd s with
    | (None, s) => Some (- EBADF, s)
    | (Some fid, s) =>
        if flag_set (f_mode (files s fid)) mode then
          (fun r => (r.1.1, fdput r.2)) <$> tr fid (Some p) s
        else Some (- ESPIPE, fdput s)
    end.
Proof.
  intros Hio Hp Hw Hq Ho. unfold fdget. rewrite (wf_fd _ _ Hw). destruct (fdt s fd) as [fid|] eqn:Hfd;
    [|by apply psim_refuse].
  cbn [files set_held]. destruct (flag_set _ mode);
    [|apply psim_fail; try done; [by apply fdput_quiet|apply Hw]].
  set (s1 := set_held _ _ _ s). destruct (Hq fid (Some p) s1) as (r & Hr & Hqr).
  destruct (Ho fid p s1) as (r' & Hr' & Hor); [done|apply Hw|].
  rewrite Hr in Hr'. injection Hr' as <-. rewrite Hr. simpl. unfold vec_outcome in Hor.
  destruct (imported_cases vec vlen) as [[_ [err Hi]]|(iov & Him & Hi & Hok)]; rewrite Hi in Hor.
  - destruct Hor as (Hn & Hwf & Hs). apply psim_fail; try done. by apply fdput_quiet.
  - rewrite Him in Hio. by eapply at_sim.
Qed.

Lemma readv_sim c fd vec vlen fl s :
  io_of c = Some (READ, fd, imported vec vlen, None) -> posix_wf s ->
  psim c s (do_readv e fd vec vlen fl s).
Proof.
  intros Hio Hw. apply psim_account_read.
  apply (vec_own_sim c READ fd vec vlen (fun fid pos => vfs_readv e fid vec vlen pos fl)); try done.
  - intros. exact (vfs_readv_total e fid vec vlen pos fl s0).
  - intros. by apply vfs_readv_outcome.
Qed.
Lemma writev_sim c fd vec vlen fl s :
  io_of c = Some (WRITE, fd, imported vec vlen, None) -> posix_wf s ->
  psim c s (do_writev e fd vec vlen fl s).
Proof.
  intros Hio Hw. apply psim_account_write.
  apply (vec_own_sim c WRITE fd vec vlen (fun fid pos => vfs_writev e fid vec vlen pos fl)); try done.
  - intros. exact (vfs_writev_total e fid vec vlen pos fl s0).
  - intros. by apply vfs_writev_outcome.
Qed.
Lemma preadv_sim c fd vec vlen p fl s :
  io_of c = Some (READ, fd, imported vec vlen, Some p) -> posix_wf s ->
  psim c s (do_preadv e fd vec vlen p fl s).
Proof.
  intros Hio Hw. unfold do_preadv. destruct (Z.ltb_spec p 0); [by apply psim_refuse|].
  apply psim_account_read.
  apply (vec_at_sim c READ fd vec vlen p FMODE_PREAD (fun fid pos => vfs_readv e fid vec vlen pos fl));
    try done.
  - intros. exact (vfs_readv_total e fid vec vlen pos fl s0).
  - intros. by apply vfs_readv_outcome.
Qed.
Lemma pwritev_sim c fd vec vlen p fl s :
  io_of c = Some (WRITE, fd, imported vec vlen, Some p) -> posix_wf s ->
  psim c s (do_pwritev e fd vec vlen p fl s).
Proof.
  intros Hio Hw. unfold do_pwritev. destruct (Z.ltb_spec p 0); [by apply psim_refuse|].
  apply psim_account_write.
  apply (vec_at_sim c WRITE fd vec vlen p FMODE_PWRITE (fun fid pos => vfs_writev e fid vec vlen pos fl));
    try done.
  - intros. exact (vfs_writev_total e fid vec vlen pos fl s0).
  - intros. by apply vfs_writev_outcome.
Qed.

Lemma call_sim (c : rw_call) s : posix_call c -> posix_wf s -> psim c s (run e ce c s).
Proof.
  intros Hc Hw. destruct c; simpl in Hc; try done; simpl.
  - by apply lseek_sim.
  - eapply file_pos_sim; [done|..|done|intros; apply vfs_read_quiet|].
    + apply segs_ok_one. unfold capped, MAX_RW_COUNT. lia.
    + intros. by apply vfs_read_outcome.
  - eapply file_pos_sim; [done|..|done|intros; apply vfs_write_quiet|].
    + apply segs_ok_one. unfold capped, MAX_RW_COUNT. lia.
    + intros. by apply vfs_write_outcome.
  - eapply own_pos_sim; [done|done|intros; apply vfs_read_quiet|]. intros. by apply vfs_read_outcome.
  - eapply own_pos_sim; [done|done|intros; apply vfs_write_quiet|]. intros. by apply vfs_write_outcome.
  - by apply readv_sim.
  - by apply writev_sim.
  - by apply preadv_sim.
  - by apply pwritev_sim.
  - unfold sys_preadv2. destruct (pos_from_hilo hi lo =? -1) eqn:Hp;
      [apply readv_sim|apply preadv_sim]; try done; simpl; by rewrite Hp.
  - unfold sys_pwritev2. destruct (pos_from_hilo hi lo =? -1) eqn:Hp;
      [apply writev_sim|apply pwritev_sim]; try done; simpl; by rewrite Hp.
Qed.

(** A sequence of calls, each a step of the specification. *)
Inductive posix_run (tbl : Z -> option Z) : list rw_call -> ast -> list Z -> ast -> Prop :=
  | pr_nil a : posix_run tbl [] a [] a
  | pr_cons c cs a ret a1 rets a2 :
      posix_step tbl c a ret a1 -> posix_run tbl cs a1 rets a2 ->
      posix_run tbl (c :: cs) a (ret :: rets) a2.

(** C14. Over a file system that keeps its interface, any sequence of [lseek], [read],
    [write], [pread], [pwrite] and their vectored forms, on descriptors that may share
    open files, returns and behaves as the specification of files as byte sequences: each
    call transfers a prefix of what was asked, at the shared offset (or at the given one,
    or at the end when appending), moves the offset by what it transferred, or fails and
    changes nothing; offsets stay within the file system's limit, and no assertion is hit
    unless the file system queues a synchronous transfer. *)
Theorem posix_refines (cs : list rw_call) (s : vfs D) :
  Forall posix_call cs -> posix_wf s ->
  exists rets s', run_all e ce cs s = Some (rets, s') /\
    posix_run (fdt s) cs (abs s) rets (abs s') /\ posix_wf s' /\ (SyncOk e -> bug s' = bug s).
Proof.
  intros Hcs. revert s. induction Hcs as [|c cs Hc _ IH]; intros s Hw.
  { eexists _, _. split; [done|]. do 2 (split; [constructor|]; try done). }
  destruct (call_sim c s Hc Hw) as (ret & s1 & Hr & Hstep & Hw1).
  destruct (IH s1 Hw1) as (rets & s2 & Hrs & Hsteps & Hw2 & Hb2).
  assert (fdt s1 = fdt s /\ (SyncOk e -> bug s1 = bug s)) as [Hfd Hb].
  { destruct (call_framed e ce c s) as (ret' & s1' & Hr' & []). rewrite Hr in Hr'.
    by injection Hr' as <- <-. }
  rewrite Hfd in Hsteps. exists (ret :: rets), s2. simpl. rewrite Hr. simpl. rewrite Hrs. simpl.
  split; [done|]. split; [by econstructor|]. split; [done|]. intros He. by rewrite Hb2, Hb.
Qed.

(** ** Round trip *)

(** A file system that never refuses and moves as much as there is. *)
Class FullFs : Prop := {
  full_iter t fid iov fl p d :
    segs_ok iov -> 0 <= p -> fs_wf d -> 
    (t = WRITE -> appends fid = false /\ p + iov_iter_count iov <= maxb (ino_of fid)) ->
    (call_iter e t fid iov fl p d).1.1 =
      match t with
      | READ => Z.min (iov_iter_count iov) (Z.max 0 (zlen (content d (ino_of fid)) - p))
      | WRITE => iov_iter_count iov
      end;
  full_buf t fid buf n p d :
    0 <= n -> 0 <= p -> fs_wf d ->
    (t = WRITE -> appends fid = false /\ p + n <= maxb (ino_of fid)) ->
    (call_buf e t fid buf n (Some p) d).1.1 =
      match t with
      | READ => Z.min n (Z.max 0 (zlen (content d (ino_of fid)) - p))
      | WRITE => n
      end;
  full_hooks fid mask pos n :
    security_file_permission e fid mask = 0 /\ fsnotify_file_area_perm e fid mask pos n = 0;
  full_access a n : access_ok e a n = true
}.

(** A file open for reading, writing and seeking, not appending. *)
Record rw_file (fid : Z) (f : file) : Prop := {
  rw_ok : file_ok fid f;
  rw_read : flag_set (f_mode f) FMODE_READ = true;
  rw_can_read : flag_set (f_mode f) FMODE_CAN_READ = true;
  rw_write : flag_set (f_mode f) FMODE_WRITE = true;
  rw_can_write : flag_set (f_mode f) FMODE_CAN_WRITE = true;
  rw_lseek : flag_set (f_mode f) FMODE_LSEEK = true;
  rw_noappend : appends fid = false;
  rw_has_read : has_read e fid || has_read_iter e fid = true;
  rw_has_write : has_write e fid || has_write_iter e fid = true
}.

Lemma verify_zero `{!FullFs} t fid f p n :
  0 <= p -> 0 <= n -> p + n < 2 ^ 63 -> rw_verify_area e t fid f (Some p) n = 0.
Proof.
  intros. unfold rw_verify_area. rewrite !i64_small by lia.
  replace (n <? 0) with false by lia. replace (p <? 0) with false by lia.
  replace (p + n <? 0) with false by lia. set (m := match t with READ => _ | WRITE => _ end).
  destruct (full_hooks fid m (Some p) n) as [-> ->]. done.
Qed.

Lemma read_full `{!FullFs} fd fid buf n s :
  posix_wf s -> fdt s fd = Some fid -> rw_file fid (files s fid) ->
  0 <= n <= MAX_RW_COUNT -> f_pos (files s fid) + n < 2 ^ 63 ->
  (ksys_read e fd buf n s).1 =
    Z.min n (Z.max 0 (zlen (content (dev s) (ino_of fid)) - f_pos (files s fid))).
Proof.
  intros Hw Hfd [[? _ Hst ? ? Hpos] Hr Hcr _ _ _ _ Hhas _] Hn Hmax. unfold ksys_read, with_file_pos, fdget_pos. rewrite (wf_fd _ _ Hw).
  rewrite Hfd. unfold file_ppos, vfs_read. cbn [files set_held dev]. rewrite Hst, Hr, Hcr, full_access.
  cbn [negb]. rewrite verify_zero by lia. change (negb (0 =? 0)) with false. cbv iota.
  replace (MAX_RW_COUNT <? n) with false by lia. destruct (has_read e fid).
  - pose proof (full_buf READ fid buf n (f_pos (files s fid)) (dev s)) as Hf. simpl in Hf.
    destruct (drv_read e _ _ _ _ _) as [[k p'] d]. simpl in *. apply Hf; [lia|lia|apply Hw|done].
  - simpl in Hhas. rewrite Hhas. unfold new_sync_read.
    pose proof (full_iter READ fid [(buf, n)] (iocb_flags e fid) (f_pos (files s fid)) (dev s)) as Hf.
    simpl in Hf |- *. destruct (drv_read_iter e _ _ _ _ _) as [[k p'] d]. simpl in *.
    rewrite Z.add_0_r in Hf. apply Hf; [apply segs_ok_one; lia|lia|apply Hw|done].
Qed.

Lemma write_full `{!FullFs} fd fid buf n s :
  posix_wf s -> fdt s fd = Some fid -> rw_file fid (files s fid) ->
  0 <= n <= MAX_RW_COUNT -> f_pos (files s fid) + n <= maxb (ino_of fid) ->
  (ksys_write e fd buf n s).1 = n.
Proof.
  intros Hw Hfd [[? _ Hst ? ? Hpos] _ _ Hr Hcr _ Happ _ Hhas] Hn Hmax.
  pose proof (bf_max (ino_of fid)) as Hb. unfold OFFSET_MAX in Hb.
  unfold ksys_write, with_file_pos, fdget_pos. rewrite (wf_fd _ _ Hw).
  rewrite Hfd. unfold file_ppos, vfs_write. cbn [files set_held dev]. rewrite Hst, Hr, Hcr, full_access.
  cbn [negb]. rewrite verify_zero by lia. change (negb (0 =? 0)) with false. cbv iota.
  replace (MAX_RW_COUNT <? n) with false by lia. destruct (has_write e fid).
  - pose proof (full_buf WRITE fid buf n (f_pos (files s fid)) (dev s)) as Hf. simpl in Hf |- *.
    destruct (drv_write e _ _ _ _ _) as [[k p'] d]. simpl in *. apply Hf; [lia|lia|apply Hw|done].
  - simpl in Hhas. rewrite Hhas. unfold new_sync_write.
    pose proof (full_iter WRITE fid [(buf, n)] (iocb_flags e fid) (f_pos (files s fid)) (dev s)) as Hf.
    simpl in Hf |- *. destruct (drv_write_iter e _ _ _ _ _) as [[k p'] d]. simpl in *.
    rewrite Z.add_0_r in Hf. destruct (Z.ltb_spec 0 k); apply Hf;
      try done; try lia; try apply Hw; apply segs_ok_one; lia.
Qed.

Lemma seek_full fd fid off p s :
  posix_wf s -> fdt s fd = Some fid -> rw_file fid (files s fid) ->
  - 2 ^ 63 <= off < 2 ^ 63 -> p = f_pos (files s fid) + off -> 0 <= p <= maxb (ino_of fid) ->
  (ksys_lseek e fd off SEEK_CUR s).1 = p.
Proof.
  intros Hw Hfd [[Hino _ Hst Hsg Hls Hpos] _ _ _ _ Hlk _ _ _] Hoff -> Hp.
  pose proof (bf_max (ino_of fid)) as Hmax.
  unfold ksys_lseek, fdget_pos. rewrite (wf_fd _ _ Hw). rewrite Hfd. change (SEEK_CUR <=? SEEK_MAX) with true. cbv iota.
  unfold vfs_llseek, llseek_of, generic_file_llseek. cbn [files set_held dev]. rewrite Hlk, Hls. cbn [negb].
  rewrite Hino, bf_size, bf_maxbytes, llseek_size_spec;
    [|split; try done; [split; [apply zlen_nonneg|apply bf_fits, Hw]|lia]|done].
  unfold seek_spec, seek_target. change (SEEK_CUR =? SEEK_END) with false.
  change (SEEK_CUR =? SEEK_CUR) with true. cbv iota.
  replace ((0 <=? _) && _) with true by lia. cbv beta iota zeta. unfold OFFSET_MAX in Hmax.
  rewrite !i64_small, Z.eqb_refl by (rewrite ?i64_small; lia). done.
Qed.

(** A call that succeeds: its effect, and that the file stays open as it was. *)
Lemma own_step tbl c t fd iov fid a k a' :
  posix_step tbl c a k a' -> 0 <= k -> io_of c = Some (t, fd, Some iov, None) -> tbl fd = Some fid ->
  exists p', xfer t (ino_of fid) (appends fid) iov (a_off a fid) (a_bytes a) (a_mem a) k p'
      (a_bytes a') (a_mem a') /\ a_off a' fid = p'.
Proof.
  intros Hs Hk Hio Hfd. destruct Hs as [| ? ? ? ? ? ? ? ? p' Hio' Hfd' Hx Ho| |]; simplify_eq; [lia|].
  exists p'. split; [done|]. by rewrite Ho, Z.eqb_refl.
Qed.

Lemma seek_step tbl fd off wh fid a p a' :
  posix_step tbl (CLseek fd off wh) a p a' -> 0 <= p -> tbl fd = Some fid ->
  (forall i, a_bytes a' i = a_bytes a i) /\ (forall x, a_mem a' x = a_mem a x) /\ a_off a' fid = p.
Proof.
  intros Hs Hk Hfd. inversion Hs; simplify_eq; [lia|]. split; [done|]. split; [done|].
  match goal with H : forall f, a_off a' f = _ |- _ => by rewrite H, Z.eqb_refl end.
Qed.

Lemma call_ok fd fid c s k s' :
  posix_call c -> posix_wf s -> fdt s fd = Some fid -> rw_file fid (files s fid) ->
  run e ce c s = Some (k, s') ->
  posix_step (fdt s) c (abs s) k (abs s') /\ posix_wf s' /\ fdt s' = fdt s /\
  rw_file fid (files s' fid).
Proof.
  intros Hc Hw Hfd Hrw Hr. destruct (call_sim c s Hc Hw) as (k1 & s1 & Hr1 & Hs & Hw').
  destruct (call_framed e ce c s) as (k2 & s2 & Hr2 & [Hfd' _ _ _ _ _ Hm]).
  assert (k1 = k /\ s1 = s') as [-> ->] by (split; congruence).
  assert (s2 = s') as -> by congruence.
  do 3 (split; [done|]). destruct (Hm fid) as (p & v & Hf).
  assert (file_ok fid (files s' fid)) by (apply (pw_file _ Hw' fd); congruence).
  destruct Hrw. split; try done; by rewrite Hf.
Qed.

(** A descriptor ready for the round trip. *)
Definition ready fd fid s : Prop := posix_wf s /\ fdt s fd = Some fid /\ rw_file fid (files s fid).

Lemma capped_small n : n <= MAX_RW_COUNT -> capped n = n.
Proof. unfold capped. lia. Qed.

Lemma ready_pos fd fid s : ready fd fid s -> 0 <= f_pos (files s fid) <= maxb (ino_of fid) /\ maxb (ino_of fid) < 2 ^ 63.
Proof.
  intros (_ & _ & Hrw). pose proof (fo_pos _ _ (rw_ok _ _ Hrw)). pose proof (bf_max (ino_of fid)) as Hb.
  unfold OFFSET_MAX in Hb. lia.
Qed.

Lemma write_step `{!FullFs} fd fid buf n s :
  ready fd fid s -> 0 < n <= MAX_RW_COUNT -> f_pos (files s fid) + n <= maxb (ino_of fid) ->
  exists s1, run e ce (CWrite fd buf n) s = Some (n, s1) /\ ready fd fid s1 /\
    content (dev s1) (ino_of fid) =
      splice (content (dev s) (ino_of fid)) (f_pos (files s fid)) (load (umem (dev s)) buf n) /\
    (forall x, umem (dev s1) x = umem (dev s) x) /\
    f_pos (files s1 fid) = f_pos (files s fid) + n.
Proof.
  intros (Hw & Hfd & Hrw) Hn Hmax. pose proof (write_full fd fid buf n s Hw Hfd Hrw ltac:(lia) Hmax) as H1.
  destruct (ksys_write e fd buf n s) as [r1 s1] eqn:E1. simpl in H1. subst r1. exists s1.
  assert (Hrun : run e ce (CWrite fd buf n) s = Some (n, s1)) by (simpl; by rewrite E1).
  destruct (call_ok fd fid (CWrite fd buf n) s n s1 ltac:(simpl; lia) Hw Hfd Hrw Hrun) as (S1 & Hw1 & Hf1 & Hrw1).
  destruct (own_step _ _ WRITE fd [(buf, capped n)] fid _ _ _ S1) as (p1 & [_ X1] & O1);
    [lia|done|done|].
  rewrite capped_small in X1 by lia. simpl in X1, O1. rewrite (rw_noappend _ _ Hrw) in X1.
  destruct X1 as (P1 & B1 & M1).
  specialize (B1 (ino_of fid)). rewrite Z.eqb_refl, app_nil_r, ztake_ge in B1
    by (rewrite zlen_load; lia).
  split; [done|]. split; [split; [done|]; split; [congruence|done]|].
  split; [done|]. split; [done|]. lia.
Qed.

Lemma seek_back fd fid n s :
  ready fd fid s -> 0 < n <= MAX_RW_COUNT -> n <= f_pos (files s fid) ->
  exists s1, run e ce (CLseek fd (- n) SEEK_CUR) s = Some (f_pos (files s fid) - n, s1) /\
    ready fd fid s1 /\ (forall i, content (dev s1) i = content (dev s) i) /\
    (forall x, umem (dev s1) x = umem (dev s) x) /\ f_pos (files s1 fid) = f_pos (files s fid) - n.
Proof.
  intros Hrd Hn Hle. pose proof (ready_pos _ _ _ Hrd) as Hpos. destruct Hrd as (Hw & Hfd & Hrw).
  unfold MAX_RW_COUNT in Hn. set (p := f_pos (files s fid)) in *.
  pose proof (seek_full fd fid (- n) (p - n) s Hw Hfd Hrw ltac:(lia) ltac:(lia) ltac:(lia)) as H2.
  destruct (ksys_lseek e fd (- n) SEEK_CUR s) as [r2 s2] eqn:E2. simpl in H2. subst r2. exists s2.
  assert (Hrun : run e ce (CLseek fd (- n) SEEK_CUR) s = Some (p - n, s2)) by (simpl; by rewrite E2).
  destruct (call_ok fd fid (CLseek fd (- n) SEEK_CUR) s _ s2 ltac:(simpl; lia) Hw Hfd Hrw Hrun) as (S2 & Hw2 & Hf2 & Hrw2).
  destruct (seek_step _ _ _ _ fid _ _ _ S2) as (B2 & M2 & O2); [lia|congruence|].
  split; [done|]. split; [split; [done|]; split; [congruence|done]|]. done.
Qed.

Lemma read_step `{!FullFs} fd fid buf n bs s :
  ready fd fid s -> 0 < n <= MAX_RW_COUNT -> f_pos (files s fid) + n <= maxb (ino_of fid) ->
  window (content (dev s) (ino_of fid)) (f_pos (files s fid)) n = bs -> zlen bs = n ->
  exists s1, run e ce (CRead fd buf n) s = Some (n, s1) /\
    load (umem (dev s1)) buf n = bs /\ f_pos (files s1 fid) = f_pos (files s fid) + n.
Proof.
  intros Hrd Hn Hmax Hwin Hlen. pose proof (ready_pos _ _ _ Hrd) as Hpos.
  destruct Hrd as (Hw & Hfd & Hrw).
  pose proof (read_full fd fid buf n s Hw Hfd Hrw ltac:(lia) ltac:(lia)) as H1.
  rewrite <- zlen_window, Hwin, Hlen in H1 by lia.
  destruct (ksys_read e fd buf n s) as [r1 s1] eqn:E1. simpl in H1. subst r1. exists s1.
  assert (Hrun : run e ce (CRead fd buf n) s = Some (n, s1)) by (simpl; by rewrite E1).
  destruct (call_ok fd fid (CRead fd buf n) s n s1 ltac:(simpl; lia) Hw Hfd Hrw Hrun) as (S1 & _).
  destruct (own_step _ _ READ fd [(buf, capped n)] fid _ _ _ S1) as (p1 & [_ X1] & O1);
    [lia|done|done|].
  rewrite capped_small in X1 by lia. simpl in X1, O1. destruct X1 as (_ & P1 & _ & M1).
  rewrite Hwin, ztake_ge in M1 by lia. split; [done|]. split; [|by rewrite O1].
  rewrite (load_ext _ _ _ _ M1), <- Hlen. apply load_store.
Qed.

(** Round trip: on a file open for both, writing [n] bytes, seeking back by [n] and
    reading [n] brings back exactly the bytes written, and leaves the offset [n] bytes
    further on. *)
Theorem write_seek_read `{!FullFs} (fd fid buf buf' n : Z) (s : vfs D) :
  ready fd fid s -> 0 < n <= MAX_RW_COUNT -> f_pos (files s fid) + n <= maxb (ino_of fid) ->
  exists s', run_all e ce [CWrite fd buf n; CLseek fd (- n) SEEK_CUR; CRead fd buf' n] s
      = Some ([n; f_pos (files s fid); n], s') /\
    load (umem (dev s')) buf' n = load (umem (dev s)) buf n /\
    f_pos (files s' fid) = f_pos (files s fid) + n.
Proof.
  intros Hrd Hn Hmax. pose proof (ready_pos _ _ _ Hrd) as Hpos.
  destruct (write_step fd fid buf n s Hrd Hn Hmax) as (s1 & R1 & Hrd1 & C1 & M1 & O1).
  destruct (seek_back fd fid n s1 Hrd1 Hn ltac:(lia)) as (s2 & R2 & Hrd2 & C2 & M2 & O2).
  rewrite O1 in R2, O2. replace (f_pos (files s fid) + n - n) with (f_pos (files s fid)) in R2, O2 by lia.
  assert (Hl : zlen (load (umem (dev s)) buf n) = n) by (apply zlen_load; lia).
  destruct (read_step fd fid buf' n (load (umem (dev s)) buf n) s2 Hrd2 Hn) as (s3 & R3 & L3 & O3).
  - lia.
  - rewrite C2, C1, O2. rewrite <- Hl at 2. apply window_splice; [lia|].
    intros Hz. rewrite Hz, zlen_nil in Hl. lia.
  - done.
  - exists s3. rewrite O2 in O3. split; [|done].
    cbn [run_all]. rewrite R1. cbn [mbind option_bind fst snd]. rewrite R2.
    cbn [mbind option_bind fst snd]. by rewrite R3.
Qed.
End calls.
End Posix.

(** ** A file system in memory *)

Module Ram.
Import File ReadWrite Copy SeekSpec Frame Bytes Posix.

(** Open files 1 and 2 are the same file, 2 appends; open file 3 has only the methods
    with one buffer. *)
Record ram := MkRam { r_content : Z -> list Z; r_mem : memory }.

Definition ram_ino (fid : Z) : Z := if fid <=? 2 then 10 else fid.
Definition ram_app (fid : Z) : bool := fid =? 2.
Definition ram_max : Z := 2 ^ 20.

Definition ram_xfer (t : direction) (fid : Z) (iov : iovec) (p : Z) (d : ram) : Z * Z * ram :=
  let l := r_content d (ram_ino fid) in
  match t with
  | READ =>
      let bs := window l p (iov_iter_count iov) in
      (zlen bs, p + zlen bs, MkRam (r_content d) (scatter (r_mem d) iov bs))
  | WRITE =>
      let p0 := if ram_app fid then zlen l else p in
      if (ram_max <? p0) || (iov_iter_count iov <? 0) then (- EFBIG, p, d)
      else
        let k := Z.min (iov_iter_count iov) (ram_max - p0) in
        (k, p0 + k,
         MkRam (fun i => if i =? ram_ino fid then splice (r_content d i) p0 (ztake k (gather (r_mem d) iov))
                         else r_content d i) (r_mem d))
  end.

Definition ram_buf (t : direction) (fid buf n : Z) (pos : ppos) (d : ram) : Z * ppos * ram :=
  let '(k, p, d) := ram_xfer t fid [(buf, n)] (pos_or_0 pos) d in
  (k, if k <? 0 then pos else Some p, d).

(** The current segment goes, and the empty ones after it. *)
Fixpoint drop_empty (iov : iovec) : iovec :=
  match iov with (a, 0) :: iov => drop_empty iov | _ => iov end.

Definition ram_env : fs_env ram := {|
  inode_of ino d := MkInode Regular (zlen (r_content d ino)) 0 ram_max false false false;
  drv_llseek _ f _ _ d := (f_pos f, (f_pos f, f_version f), d);
  has_read fid := fid =? 3; has_read_iter fid := negb (fid =? 3);
  has_write fid := fid =? 3; has_write_iter fid := negb (fid =? 3);
  drv_read := ram_buf READ; drv_write := ram_buf WRITE;
  drv_read_iter fid iov _ p d := ram_xfer READ fid iov p d;
  drv_write_iter fid iov _ p d := ram_xfer WRITE fid iov p d;
  iocb_flags _ := 0;
  kiocb_set_rw_flags _ fl := if fl =? 0 then inr 0 else inl (- EOPNOTSUPP);
  access_ok _ _ := true;
  import_iovec vec vlen := if vec =? 0 then inl (- EFAULT) else inr [(vec, 2); (vec, 0); (vec + 8, 3)];
  iov_iter_advance _ iov := match iov with [] => [] | _ :: iov => drop_empty iov end;
  iov_iter_truncate _ iov := iov;
  security_file_permission _ _ := 0;
  fsnotify_file_area_perm _ _ _ _ := 0;
  f_ua := ua_ok
|}.

Lemma drop_empty_skips iov :
  exists es, iov = es ++ drop_empty iov /\ Forall (fun seg => snd seg = 0) es.
Proof.
  induction iov as [|[a n] iov (es & Hes & Hz)]; [by exists []|].
  destruct n; [|by exists []..]. exists ((a, 0) :: es). simpl. rewrite <- Hes.
  split; [done|]. by constructor.
Qed.

#[export] Instance ram_iov : IovOk ram_env.
Proof. split. intros addr len rest. apply drop_empty_skips. Qed.

#[export] Instance ram_sync : SyncOk ram_env.
Proof.
  split. intros t fid iov fl p d. unfold EIOCBQUEUED. destruct t; simpl.
  - pose proof (zlen_nonneg (window (r_content d (ram_ino fid)) p (iov_iter_count iov))). lia.
  - case_match; [done|]. simpl. split_bools. lia.
Qed.

Definition ram_wf (d : ram) : Prop := forall i, zlen (r_content d i) <= ram_max.

(** A window as long as it shows. *)
Lemma window_self l p n : 0 <= n -> window l p (zlen (window l p n)) = window l p n.
Proof.
  intros. unfold window at 1 3. unfold window, ztake, zlen. rewrite length_take.
  rewrite Nat2Z.id. destruct (Nat.le_gt_cases (Z.to_nat n) (length (zdrop p l))).
  - by rewrite Nat.min_l.
  - rewrite Nat.min_r by lia. rewrite !take_ge; [done|lia..].
Qed.

Lemma ram_xfer_ok t fid iov p d :
  segs_ok iov -> 0 <= p -> ram_wf d ->
  let '(k, p', d') := ram_xfer t fid iov p d in
  ram_wf d' /\
  ((k < 0 /\ (forall i, r_content d' i = r_content d i) /\ (forall x, r_mem d' x = r_mem d x)) \/
   xfer t (ram_ino fid) (ram_app fid) iov p (r_content d) (r_mem d) k p' (r_content d') (r_mem d')).
Proof.
  intros Hok Hp Hw. pose proof (iov_count_nonneg iov Hok) as Hc. unfold ram_xfer. destruct t.
  - split; [done|]. right. pose proof (zlen_window (r_content d (ram_ino fid)) p _ Hp Hc) as Hl.
    split; [lia|]. simpl. rewrite window_self by done. split; [lia|]. done.
  - set (p0 := if ram_app fid then _ else p).
    assert (0 <= p0) by (unfold p0; pose proof (zlen_nonneg (r_content d (ram_ino fid)));
      destruct (ram_app fid); lia).
    replace (iov_iter_count iov <? 0) with false by lia. rewrite orb_false_r.
    destruct (Z.ltb_spec ram_max p0); [split; [done|]; by left|].
    set (k := Z.min _ _). assert (0 <= k <= iov_iter_count iov) by lia. split.
    + intros i. simpl. destruct (i =? ram_ino fid); [|apply Hw].
      destruct (decide (ztake k (gather (r_mem d) iov) = [])) as [->|Hne]; [apply Hw|].
      rewrite zlen_splice, zlen_take, zlen_gather by (done || lia). specialize (Hw i). lia.
    + right. split; [done|]. simpl. split; [by left|]. split; [|done]. intros i. by destruct (i =? _) eqn:E;
        [apply Z.eqb_eq in E as ->|].
Qed.

#[export] Program Instance ram_fs : ByteFs ram_env := {|
  content := r_content; umem := r_mem; ino_of := ram_ino; appends := ram_app;
  maxb := fun _ => ram_max; fs_wf := ram_wf
|}.
Next Obligation. done. Qed.
Next Obligation. done. Qed.
Next Obligation. done. Qed.
Next Obligation. intros d ino Hw. apply Hw. Qed.
Next Obligation.
  intros t fid iov fl p d Hok Hp Hw. pose proof (ram_xfer_ok t fid iov p d Hok Hp Hw) as Hx.
  by destruct t.
Qed.
Next Obligation.
  intros t fid buf n p d Hn Hp Hw.
  pose proof (ram_xfer_ok t fid [(buf, n)] p d (segs_ok_one _ _ Hn) Hp Hw) as Hx.
  assert (Hb : call_buf ram_env t fid buf n (Some p) d = ram_buf t fid buf n (Some p) d) by by destruct t.
  rewrite Hb. unfold ram_buf. simpl.
  destruct (ram_xfer t fid [(buf, n)] p d) as [[k p'] d']. destruct Hx as [Hw' [Hx|Hx]].
  - split; [done|]. left. replace (k <? 0) with true by lia. naive_solver.
  - split; [done|]. right. exists p'. destruct Hx as [Hk Hx]. by replace (k <? 0) with false by lia.
Qed.
Next Obligation.
  intros vec vlen. simpl. destruct (vec =? 0); [done|]. split; [|done].
  repeat constructor; simpl; lia.
Qed.
Next Obligation. intros fid fl err. simpl. destruct (fl =? 0); [done|]. by intros [= <-]. Qed.
Next Obligation. done. Qed.

#[export] Instance ram_full : FullFs (e := ram_env).
Proof.
  split; [| |done|done].
  - intros t fid iov fl p d Hok Hp Hw Hmax. pose proof (iov_count_nonneg iov Hok). destruct t; simpl.
    + apply zlen_window; lia.
    + destruct (Hmax eq_refl) as [Happ Hle]. simpl in Happ, Hle. rewrite Happ.
      replace (ram_max <? p) with false by lia.
      replace (iov_iter_count _ <? 0) with false by (simpl; lia).
      simpl. lia.
  - intros t fid buf n p d Hn Hp Hw Hmax. destruct t; simpl; unfold ram_buf; simpl.
    + rewrite Z.add_0_r. apply zlen_window; lia.
    + destruct (Hmax eq_refl) as [Happ Hle]. simpl in Happ, Hle. rewrite Happ.
      replace (ram_max <? p) with false by lia.
      replace (n + 0 <? 0) with false by lia.
      simpl. lia.
Qed.

(** No splicing and no limits. *)
Definition ram_ce : copy_env ram := {|
  do_splice_direct _ p _ q _ _ d := (- EINVAL, p, q, d);
  splice_file_to_pipe _ _ p _ _ d := (- EINVAL, p, d);
  is_pipe _ := false; copy_file_range_op _ := None;
  drv_copy_file_range _ _ _ _ _ _ d := (- EOPNOTSUPP, d);
  has_remap_file_range _ := false;
  drv_remap_file_range _ _ _ _ _ _ d := (- EOPNOTSUPP, d);
  rlimit_fsize := RLIM_INFINITY;
  get_loff _ := Some 0; get_off _ := Some 0; get_compat_off _ := Some 0
|}.

(** Descriptors 3 and 4 share an open file of inode 10; 5 appends to it; 6 is another
    file, with the buffer methods. *)
Definition ram_file (fid : Z) : file :=
  MkFile 0 0 (Z.lor FMODE_READ (Z.lor FMODE_WRITE (Z.lor FMODE_LSEEK (Z.lor FMODE_PREAD
    (Z.lor FMODE_PWRITE (Z.lor FMODE_CAN_READ FMODE_CAN_WRITE)))))) 0 (ram_ino fid) GenericLlseek.
Definition ram_state : vfs ram :=
  Vfs (fun fd => if fd =? 3 then Some 1 else if fd =? 4 then Some 1 else if fd =? 5 then Some 2
                 else if fd =? 6 then Some 3 else None)
      ram_file
      (MkRam (fun i => if i =? 10 then [1; 2; 3; 4; 5] else if i =? 3 then [7; 8; 9] else [])
             (fun a => a mod 256)) 0 0 0 0 0 0 0 false.

Lemma ram_file_ok fid : file_ok (fs := ram_fs) fid (ram_file fid).
Proof. by split. Qed.

Lemma ram_state_wf : posix_wf ram_state.
Proof.
  split.
  - intros i. simpl. unfold ram_max. do 2 (case_match; [done|]). done.
  - intros fd fid _. apply ram_file_ok.
Qed.

(** Two descriptors share an offset, an appending write moves to the end, a vectored
    read over the buffer methods stops at the end of the file. *)
Definition ram_calls : list rw_call :=
  [CRead 3 100 2; CRead 4 200 2; CWrite 5 300 3; CLseek 3 0 SEEK_END; CReadv 6 1000 3 0;
   CPread 3 400 4 6; CLseek 4 (-9) SEEK_CUR].

Lemma posix_refines_witness :
  fst <$> run_all ram_env ram_ce ram_calls ram_state = Some [2; 2; 3; 8; 3; 2; - EINVAL] /\
  exists rets s', run_all ram_env ram_ce ram_calls ram_state = Some (rets, s') /\
    posix_run (fdt ram_state) ram_calls (abs ram_state) rets (abs s') /\ posix_wf s' /\
    (SyncOk ram_env -> bug s' = false).
Proof.
  split; [by vm_compute|]. apply (posix_refines ram_ce ram_calls ram_state).
  - repeat constructor; simpl; lia.
  - apply ram_state_wf.
Defined.

Lemma ram_ready : ready 3 1 ram_state.
Proof. split; [apply ram_state_wf|]. split; [done|]. split; [apply ram_file_ok|done..]. Qed.

Lemma write_seek_read_witness :
  exists s', run_all ram_env ram_ce [CWrite 3 700 6; CLseek 3 (-6) SEEK_CUR; CRead 3 900 6] ram_state
      = Some ([6; 0; 6], s') /\
    load (umem (dev s')) 900 6 = load (umem (dev ram_state)) 700 6 /\
    f_pos (files s' 1) = 6.
Proof.
  apply (write_seek_read ram_ce 3 1 700 900 6 ram_state ram_ready); unfold MAX_RW_COUNT; simpl; done.
Defined.

(** Three segments, the second empty, on the file with buffer methods. *)
Lemma vector_loop_terminates_witness :
  exists r, forall fuel, (4 <= fuel)%nat ->
    do_loop_readv_writev ram_env fuel 3 [(50, 2); (60, 0); (70, 3)] (Some 0) READ 0 ram_state = Some r.
Proof.
  exact (vector_loop_terminates ram_env 3 [(50, 2); (60, 0); (70, 3)] (Some 0) READ 0 ram_state).
Defined.

Lemma calls_framed_witness :
  exists rets s', run_all ram_env ram_ce ram_calls ram_state = Some (rets, s') /\
    fdt s' = fdt ram_state /\ held s' = 0 /\ pos_held s' = 0 /\ writers s' = 0 /\
    bug s' = false /\ framed ram_env (may_move (CWrite 3 100 4) s') s' (run ram_env ram_ce (CWrite 3 100 4) s').
Proof. exact (calls_framed ram_env ram_ce ram_calls (CWrite 3 100 4) ram_state). Defined.
End Ram.
