(* ===== verification/CopySpec.v ===== *)
(** * The checks before a copy and before a write

    What [generic_write_check_limits], [generic_write_checks] and
    [generic_copy_file_checks] let through, in exact arithmetic. *)
From S2P Require Import Prelude File ReadWrite Copy ReadWriteSpec Bytes PosixSpec.

Module CopySpec.
Import File ReadWrite Copy.

Section checks.
Context {D : Type} (e : fs_env D) (ce : copy_env D).

(** The size a file may grow to: what offsets may reach without [O_LARGEFILE] and with. *)
Definition size_cap (f : file) (i : inode) : Z :=
  if flag_set (f_flags f) O_LARGEFILE then s_maxbytes i else MAX_NON_LFS.

(** Positions, sizes and limits within their types.  A file-size limit is either absent
    or a [loff_t]. *)
Record in_range (f : file) (i : inode) (pos : Z) : Prop := {
  ir_pos : 0 <= pos < 2 ^ 63;
  ir_max : 0 <= s_maxbytes i <= OFFSET_MAX;
  ir_limit : rlimit_fsize ce = RLIM_INFINITY \/ 0 <= rlimit_fsize ce < 2 ^ 63
}.

Lemma size_cap_range f i : 0 <= s_maxbytes i <= OFFSET_MAX -> 0 <= size_cap f i < 2 ^ 63.
Proof. unfold size_cap, MAX_NON_LFS, OFFSET_MAX. intros. destruct (flag_set _ _); lia. Qed.

(** The checks as inequalities. *)
Lemma check_limits_spec f i pos count :
  in_range f i pos -> 0 <= count < 2 ^ 63 ->
  let '(ret, count', _) := generic_write_check_limits ce f i pos count in
  (ret = 0 /\ pos < size_cap f i /\
     (rlimit_fsize ce <> RLIM_INFINITY -> pos < rlimit_fsize ce) /\
     0 <= count' <= count /\ pos + count' <= size_cap f i /\
     (rlimit_fsize ce <> RLIM_INFINITY -> pos + count' <= rlimit_fsize ce) /\
     (count' = count \/ pos + count' = size_cap f i \/ pos + count' = rlimit_fsize ce)) \/
  (ret = - EFBIG /\ (size_cap f i <= pos \/ rlimit_fsize ce <= pos)).
Proof.
  intros [Hp Hm Hl] Hc. unfold generic_write_check_limits.
  assert (Hcap : (if negb (flag_set (f_flags f) O_LARGEFILE) then MAX_NON_LFS else s_maxbytes i)
    = size_cap f i) by (unfold size_cap; by destruct (flag_set _ _)). rewrite Hcap.
  pose proof (size_cap_range f i Hm).
  assert (Hlim : negb (u64 (i64 (rlimit_fsize ce)) =? RLIM_INFINITY) =
                 negb (rlimit_fsize ce =? RLIM_INFINITY) /\
                 (rlimit_fsize ce <> RLIM_INFINITY -> i64 (rlimit_fsize ce) = rlimit_fsize ce)).
  { destruct Hl as [->|Hl]; [by vm_compute|]. rewrite i64_small, u64_small by lia. done. }
  destruct Hlim as [-> Hi]. destruct (Z.eqb_spec (rlimit_fsize ce) RLIM_INFINITY) as [Heq|Hne]; simpl.
  - destruct (Z.leb_spec (size_cap f i) pos); [by right; auto|]. left.
    rewrite i64_small by lia. split; [done|]. split; [done|]. split; [done|].
    split; [lia|]. split; [lia|]. split; [done|]. lia.
  - rewrite Hi by done. destruct Hl as [?|Hl]; [done|].
    destruct (Z.leb_spec (rlimit_fsize ce) pos); [by right; auto|]. rewrite i64_small by lia.
    destruct (Z.leb_spec (size_cap f i) pos); [by right; auto|]. left. rewrite i64_small by lia.
    split; [done|]. split; [lia|]. split; [lia|]. split; [lia|]. split; [lia|].
    split; [lia|]. lia.
Qed.

(** What a copy may do: both files are regular and open the right way, the count is at
    most what was asked and what the source has, the target stays within its limits, and
    within one file the ranges are disjoint. *)
Record copy_allowed (s : vfs D) (fid_in pos_in fid_out pos_out req count : Z) : Prop := {
  ca_kind_in : i_kind (file_inode e (files s fid_in) s) = Regular;
  ca_kind_out : i_kind (file_inode e (files s fid_out) s) = Regular;
  ca_read : flag_set (f_mode (files s fid_in)) FMODE_READ = true;
  ca_write : flag_set (f_mode (files s fid_out)) FMODE_WRITE = true;
  ca_append : flag_set (f_flags (files s fid_out)) O_APPEND = false;
  ca_immutable : is_immutable (file_inode e (files s fid_out) s) = false;
  ca_count : 0 <= count <= req;
  ca_eof : 0 < count -> pos_in + count <= i_size (file_inode e (files s fid_in) s);
  ca_cap : pos_out + count <= size_cap (files s fid_out) (file_inode e (files s fid_out) s);
  ca_limit : rlimit_fsize ce <> RLIM_INFINITY -> pos_out + count <= rlimit_fsize ce;
  ca_disjoint : f_inode (files s fid_in) = f_inode (files s fid_out) -> 0 < count ->
    pos_in + count <= pos_out \/ pos_out + count <= pos_in
}.

(** The checks on the two files. *)
Lemma rw_checks_zero f_in f_out i_in i_out :
  generic_file_rw_checks f_in f_out i_in i_out = 0 ->
  i_kind i_in = Regular /\ i_kind i_out = Regular /\ flag_set (f_mode f_in) FMODE_READ = true /\
  flag_set (f_mode f_out) FMODE_WRITE = true /\ flag_set (f_flags f_out) O_APPEND = false.
Proof.
  unfold generic_file_rw_checks, EISDIR, EINVAL, EBADF.
  destruct (i_kind i_in), (i_kind i_out), (flag_set (f_mode f_in) _), (flag_set (f_mode f_out) _),
    (flag_set (f_flags f_out) _); done.
Qed.

(** [generic_copy_file_checks] accepts a copy only when it may be done: the count it
    hands on is at most what was asked, never reaches past the end of the source, past
    the size limits of the target, or, within one file, into the range being read; and a
    refused copy leaves the count alone. *)
Theorem copy_checks_safe (fid_in pos_in fid_out pos_out req flags : Z) (s : vfs D) :
  let i_in := file_inode e (files s fid_in) s in
  let i_out := file_inode e (files s fid_out) s in
  0 <= pos_in < 2 ^ 63 -> 0 <= req < 2 ^ 64 -> 0 <= i_size i_in < 2 ^ 63 ->
  in_range (files s fid_out) i_out pos_out ->
  let '(ret, count) := generic_copy_file_checks e ce fid_in pos_in fid_out pos_out req flags s in
  (ret = 0 /\ copy_allowed s fid_in pos_in fid_out pos_out req count) \/ (ret <> 0 /\ count = req).
Proof.
  intros i_in i_out Hpi Hreq Hsz Hir. unfold generic_copy_file_checks. fold i_in i_out.
  destruct (Z.eqb_spec (generic_file_rw_checks (files s fid_in) (files s fid_out) i_in i_out) 0)
    as [Hrw|Hrw]; simpl; [|by right]. apply rw_checks_zero in Hrw as (K1 & K2 & K3 & K4 & K5).
  destruct (_ && _); [by right|]. destruct (is_immutable i_out) eqn:Him; [by right|].
  destruct (_ || _); [by right|].
  destruct (_ || _) eqn:Hov; [by right|]. pose proof Hir as [Hpo _ _].
  set (c0 := if i_size i_in <=? pos_in then 0 else Z.min req (u64 (i_size i_in - pos_in))).
  assert (Hc0 : 0 <= c0 <= req /\ (0 < c0 -> pos_in + c0 <= i_size i_in) /\ c0 < 2 ^ 63).
  { unfold c0. destruct (Z.leb_spec (i_size i_in) pos_in); [lia|]. rewrite u64_small; lia. }
  clearbody c0. clear Hov. destruct Hc0 as (H1 & H2 & H3). rewrite (i64_small c0) by lia.
  pose proof (check_limits_spec (files s fid_out) i_out pos_out c0 Hir ltac:(lia)) as Hl.
  destruct (generic_write_check_limits ce _ _ _ _) as [[ret c1] sig].
  destruct Hl as [(-> & L1 & L2 & L3 & L4 & L5 & _)|(-> & _)]; [|by right].
  rewrite (u64_small c1) by lia. simpl.
  pose proof (size_cap_range (files s fid_out) i_out (ir_max _ _ _ Hir)).
  rewrite (u64_small pos_in), (u64_small pos_out), (u64_small (pos_out + c1)),
    (u64_small (pos_in + c1)) by lia.
  destruct (_ && _) eqn:Hov2; [by right|]. left. split; [done|].
  split; try done; [lia| |].
  - intros Hc. specialize (H2 ltac:(lia)). fold i_in. lia.
  - intros Hino Hc. rewrite Hino, Z.eqb_refl in Hov2. simpl in Hov2. lia.
Qed.

(** A limit of 2^63 or more that is not the infinite one is read as a negative offset:
    every write is refused. *)
Lemma huge_limit_refuses f i pos count :
  0 <= pos -> 2 ^ 63 <= rlimit_fsize ce < RLIM_INFINITY ->
  generic_write_check_limits ce f i pos count = (- EFBIG, count, true).
Proof.
  intros Hp Hl. unfold generic_write_check_limits, RLIM_INFINITY in *.
  assert (Hi : i64 (rlimit_fsize ce) = rlimit_fsize ce - 2 ^ 64) by word_lia. rewrite Hi.
  rewrite u64_neg by lia. replace (_ =? _) with false by lia.
  by replace (_ <=? pos) with true by lia.
Qed.
End checks.

(** Copying 4 bytes within one file of 5: the count is cut at the end of the file, and
    the ranges must not meet. *)
Lemma copy_checks_safe_witness :
  let s := Ram.ram_state in
  generic_copy_file_checks Ram.ram_env Ram.ram_ce 1 3 1 6 4 0 s = (0, 2) /\
  copy_allowed Ram.ram_env Ram.ram_ce s 1 3 1 6 4 2 /\
  generic_copy_file_checks Ram.ram_env Ram.ram_ce 1 0 1 2 4 0 s = (- EINVAL, 4).
Proof.
  assert (Hir : in_range Ram.ram_ce (files Ram.ram_state 1)
    (file_inode Ram.ram_env (files Ram.ram_state 1) Ram.ram_state) 6) by (split; [done|done|by left]).
  split; [by vm_compute|]. split; [|by vm_compute].
  pose proof (copy_checks_safe Ram.ram_env Ram.ram_ce 1 3 1 6 4 0 Ram.ram_state
    ltac:(done) ltac:(done) ltac:(done) Hir) as Hw.
  destruct Hw as [[_ Hw]|[Hw _]]; [exact Hw|exact (False_ind _ (Hw eq_refl))].
Defined.
End CopySpec.
