(* ===== verification/PathCalls.v ===== *)
(** * Calls on paths and on file attributes ([fs/open.c])

    truncate, ftruncate, fallocate, access, chdir, fchdir, chroot, chmod and chown.  Path
    lookup, permission tests, mounts, leases and the file systems' own methods are
    outside the repository: fields of [path_env], over the drivers' state [D].  A path is
    a number; [path_inode] is the inode at its end. *)
From S2P Require Import Prelude File ReadWrite Copy.

Module PathCalls.
Import File ReadWrite Copy.

Definition ENOTDIR : Z := 20.
Definition EROFS : Z := 30.
Definition ESTALE : Z := 116.

Definition LOOKUP_FOLLOW : Z := 0x1.
Definition LOOKUP_DIRECTORY : Z := 0x2.
Definition LOOKUP_REVAL : Z := 0x20.
Definition LOOKUP_EMPTY : Z := 0x4000.

Definition AT_FDCWD : Z := -100.
Definition AT_SYMLINK_NOFOLLOW : Z := 0x100.
Definition AT_EACCESS : Z := 0x200.
Definition AT_EMPTY_PATH : Z := 0x1000.

Definition ATTR_MODE : Z := 0x1.
Definition ATTR_UID : Z := 0x2.
Definition ATTR_GID : Z := 0x4.
Definition ATTR_SIZE : Z := 0x8.
Definition ATTR_MTIME : Z := 0x20.
Definition ATTR_CTIME : Z := 0x40.
Definition ATTR_FORCE : Z := 0x200.
Definition ATTR_KILL_SUID : Z := 0x800.
Definition ATTR_FILE : Z := 0x2000.
Definition ATTR_KILL_PRIV : Z := 0x4000.

Definition MAY_EXEC : Z := 0x1.
Definition MAY_ACCESS : Z := 0x10.
Definition MAY_CHDIR : Z := 0x40.
Definition S_IRWXO : Z := 0x7.
Definition S_IWOTH : Z := 0x2.
Definition S_IALLUGO : Z := 0xfff.
Definition O_WRONLY : Z := 1.

Definition FALLOC_FL_KEEP_SIZE : Z := 0x1.
Definition FALLOC_FL_PUNCH_HOLE : Z := 0x2.
Definition FALLOC_FL_COLLAPSE_RANGE : Z := 0x8.
Definition FALLOC_FL_ZERO_RANGE : Z := 0x10.
Definition FALLOC_FL_INSERT_RANGE : Z := 0x20.
Definition FALLOC_FL_UNSHARE_RANGE : Z := 0x40.
Definition FALLOC_FL_SUPPORTED_MASK : Z := 0x7b.

(** [(uid_t) -1] and the invalid id. *)
Definition NOID : Z := 2 ^ 32 - 1.

(** ** State *)

(** The fields of [struct cred] read here. *)
Record fs_cred := FsCred {
  c_uid : Z; c_gid : Z; c_fsuid : Z; c_fsgid : Z; cap_effective : Z; cap_permitted : Z
}.

#[export] Instance fs_cred_eq_dec : EqDecision fs_cred.
Proof. solve_decision. Defined.

(** A [struct iattr]; fields that [ia_valid] does not name are not read. *)
Record iattr := Iattr {
  ia_valid : Z; ia_size : Z; ia_mode : Z; ia_vfsuid : Z; ia_vfsgid : Z; ia_file : option Z
}.

(** The open files, the references, locks and write accesses a call holds, the subjective
    credentials, and the working and root directories. *)
Record pst (D : Type) := Pst {
  pv : vfs D;
  path_refs : Z; mnt_writers : Z; ino_writers : Z; ino_locks : Z;
  cur_cred : fs_cred; cred_refs : Z; fs_pwd : Z; fs_root : Z
}.
#[global] Arguments Pst {D}. #[global] Arguments pv {D}. #[global] Arguments path_refs {D}.
#[global] Arguments mnt_writers {D}. #[global] Arguments ino_writers {D}.
#[global] Arguments ino_locks {D}. #[global] Arguments cur_cred {D}.
#[global] Arguments cred_refs {D}. #[global] Arguments fs_pwd {D}. #[global] Arguments fs_root {D}.

(** Results are 0 or an error unless noted.  [notify_change] also names the delegated
    inode it met, if any. *)
Record path_env (D : Type) := {
  path_inode : Z -> Z;
  i_mode : Z -> D -> Z;
  user_path_at : Z -> Z -> Z -> fs_cred -> D -> Z + Z;     (* error, or path *)
  mnt_want_write : Z -> D -> Z;
  mnt_want_write_file : Z -> D -> Z;
  inode_permission : fs_cred -> Z -> Z -> D -> Z;
  path_permission : fs_cred -> Z -> Z -> D -> Z;
  file_permission : fs_cred -> Z -> Z -> D -> Z;
  get_write_access : Z -> D -> Z;
  break_lease : Z -> Z -> D -> Z;
  security_path_truncate : Z -> Z;
  security_file_truncate : Z -> Z;
  security_path_chmod : Z -> Z -> Z;
  security_path_chown : Z -> Z -> Z -> Z;
  security_path_chroot : Z -> Z;
  dentry_needs_remove_privs : Z -> D -> Z;                 (* attributes, or error *)
  setattr_should_drop_sgid : Z -> D -> Z;                  (* attributes *)
  notify_change : Z -> iattr -> D -> Z * option Z * D;
  break_deleg_wait : Z -> D -> Z * D;
  has_fallocate : Z -> bool;
  drv_fallocate : Z -> Z -> Z -> Z -> D -> Z * D;
  f_path : Z -> Z;                                         (* of an open file *)
  path_noexec : Z -> bool;
  mnt_is_readonly : Z -> D -> bool;
  d_can_lookup : Z -> bool;
  make_kuid : Z -> Z; make_kgid : Z -> Z;
  from_vfsuid : Z -> Z -> Z; from_vfsgid : Z -> Z -> Z;
  root_kuid : Z;                                           (* make_kuid(user_ns, 0) *)
  no_setuid_fixup : bool;                                  (* issecure(SECURE_NO_SETUID_FIXUP) *)
  prepare_creds_ok : bool;
  capable_chroot : fs_cred -> bool
}.
#[global] Arguments path_inode {D}. #[global] Arguments i_mode {D}. #[global] Arguments user_path_at {D}.
#[global] Arguments mnt_want_write {D}. #[global] Arguments mnt_want_write_file {D}.
#[global] Arguments inode_permission {D}. #[global] Arguments path_permission {D}.
#[global] Arguments file_permission {D}. #[global] Arguments get_write_access {D}.
#[global] Arguments break_lease {D}. #[global] Arguments security_path_truncate {D}.
#[global] Arguments security_file_truncate {D}. #[global] Arguments security_path_chmod {D}.
#[global] Arguments security_path_chown {D}. #[global] Arguments security_path_chroot {D}.
#[global] Arguments dentry_needs_remove_privs {D}. #[global] Arguments setattr_should_drop_sgid {D}.
#[global] Arguments notify_change {D}. #[global] Arguments break_deleg_wait {D}.
#[global] Arguments has_fallocate {D}. #[global] Arguments drv_fallocate {D}.
#[global] Arguments f_path {D}. #[global] Arguments path_noexec {D}.
#[global] Arguments mnt_is_readonly {D}. #[global] Arguments d_can_lookup {D}.
#[global] Arguments make_kuid {D}. #[global] Arguments make_kgid {D}.
#[global] Arguments from_vfsuid {D}. #[global] Arguments from_vfsgid {D}.
#[global] Arguments root_kuid {D}. #[global] Arguments no_setuid_fixup {D}.
#[global] Arguments prepare_creds_ok {D}. #[global] Arguments capable_chroot {D}.

Section ops.
Context {D : Type} (e : fs_env D) (pe : path_env D).
Implicit Types s : pst D.

Definition pdev s : D := dev (pv s).
Definition with_vfs (v : vfs D) s : pst D :=
  Pst v (path_refs s) (mnt_writers s) (ino_writers s) (ino_locks s) (cur_cred s) (cred_refs s)
      (fs_pwd s) (fs_root s).
Definition set_pdev (d : D) s : pst D := with_vfs (set_dev d (pv s)) s.
Definition set_refs (p mw iw il : Z) s : pst D :=
  Pst (pv s) p mw iw il (cur_cred s) (cred_refs s) (fs_pwd s) (fs_root s).
Definition set_cred (c : fs_cred) (n : Z) s : pst D :=
  Pst (pv s) (path_refs s) (mnt_writers s) (ino_writers s) (ino_locks s) c n (fs_pwd s) (fs_root s).
Definition set_dirs (pwd root : Z) s : pst D :=
  Pst (pv s) (path_refs s) (mnt_writers s) (ino_writers s) (ino_locks s) (cur_cred s) (cred_refs s)
      pwd root.

Definition path_get s := set_refs (path_refs s + 1) (mnt_writers s) (ino_writers s) (ino_locks s) s.
Definition path_put s := set_refs (path_refs s - 1) (mnt_writers s) (ino_writers s) (ino_locks s) s.
Definition mnt_get_write s := set_refs (path_refs s) (mnt_writers s + 1) (ino_writers s) (ino_locks s) s.
Definition mnt_drop_write s := set_refs (path_refs s) (mnt_writers s - 1) (ino_writers s) (ino_locks s) s.
Definition take_write_access s := set_refs (path_refs s) (mnt_writers s) (ino_writers s + 1) (ino_locks s) s.
Definition put_write_access s := set_refs (path_refs s) (mnt_writers s) (ino_writers s - 1) (ino_locks s) s.
Definition inode_lock s := set_refs (path_refs s) (mnt_writers s) (ino_writers s) (ino_locks s + 1) s.
Definition inode_unlock s := set_refs (path_refs s) (mnt_writers s) (ino_writers s) (ino_locks s - 1) s.

Definition path_kind (path : Z) s : file_kind := i_kind (inode_of e (path_inode pe path) (pdev s)).

(** ** Retrying a stale lookup *)

Definition retry_estale (error flags : Z) : bool :=
  (error =? - ESTALE) && negb (flag_set flags LOOKUP_REVAL).

(** The label [retry] of the calls below: [body] is one pass, which also says whether it
    ends at the test for a stale handle; [None] is no result within the fuel. *)
Fixpoint retry_loop (fuel : nat) (body : Z -> pst D -> Z * bool * pst D) (lookup_flags : Z) s
    : option (Z * pst D) :=
  match fuel with
  | O => None
  | S fuel =>
      let '(error, tested, s) := body lookup_flags s in
      if tested && retry_estale error lookup_flags
      then retry_loop fuel body (Z.lor lookup_flags LOOKUP_REVAL) s
      else Some (error, s)
  end.

(** A retried lookup revalidates, so that two passes are enough. *)
Definition retry_fuel : nat := 2.

(** ** Truncating *)

Definition do_truncate (path length time_attrs : Z) (filp : option Z) s : Z * pst D :=
  if length <? 0 then (- EINVAL, s)
  else
    let valid := Z.lor ATTR_SIZE time_attrs in
    let valid := match filp with Some _ => Z.lor valid ATTR_FILE | None => valid end in
    let ret := dentry_needs_remove_privs pe path (pdev s) in
    if ret <? 0 then (ret, s)
    else
      let valid := if negb (ret =? 0) then Z.lor valid (Z.lor ret ATTR_FORCE) else valid in
      let s := inode_lock s in
      let '(ret, _, d) := notify_change pe path (Iattr valid length 0 0 0 filp) (pdev s) in
      (ret, inode_unlock (set_pdev d s)).

Definition vfs_truncate (path length : Z) s : Z * pst D :=
  let ino := path_inode pe path in
  if bool_decide (path_kind path s = Directory) then (- EISDIR, s)
  else if negb (bool_decide (path_kind path s = Regular)) then (- EINVAL, s)
  else
    let error := mnt_want_write pe path (pdev s) in
    if negb (error =? 0) then (error, s)
    else
      let s := mnt_get_write s in
      let error := inode_permission pe (cur_cred s) ino MAY_WRITE (pdev s) in
      if negb (error =? 0) then (error, mnt_drop_write s)
      else if is_append (inode_of e ino (pdev s)) then (- EPERM, mnt_drop_write s)
      else
        let error := get_write_access pe ino (pdev s) in
        if negb (error =? 0) then (error, mnt_drop_write s)
        else
          let s := take_write_access s in
          let error := break_lease pe ino O_WRONLY (pdev s) in
          if negb (error =? 0) then (error, mnt_drop_write (put_write_access s))
          else
            let error := security_path_truncate pe path in
            let '(error, s) :=
              if error =? 0 then do_truncate path length 0 None s else (error, s) in
            (error, mnt_drop_write (put_write_access s)).

(** One pass of [do_sys_truncate]; the test follows also a failed lookup. *)
Definition truncate_pass (pathname length lookup_flags : Z) s : Z * bool * pst D :=
  match user_path_at pe AT_FDCWD pathname lookup_flags (cur_cred s) (pdev s) with
  | inl error => (error, true, s)
  | inr path =>
      let '(error, s) := vfs_truncate path length (path_get s) in (error, true, path_put s)
  end.

Definition do_sys_truncate (fuel : nat) (pathname length : Z) s : option (Z * pst D) :=
  if length <? 0 then Some (- EINVAL, s)
  else retry_loop fuel (truncate_pass pathname length) LOOKUP_FOLLOW s.

Definition sys_truncate (path length : Z) s := do_sys_truncate retry_fuel path length s.
Definition compat_sys_truncate (path length : Z) s := do_sys_truncate retry_fuel path (i32 length) s.

Definition do_sys_ftruncate (fd length : Z) (small : bool) s : Z * pst D :=
  if length <? 0 then (- EINVAL, s)
  else
    match fdget fd (pv s) with
    | (None, v) => (- EBADF, with_vfs v s)
    | (Some fid, v) =>
        let s := with_vfs v s in
        let out (error : Z) s := (error, with_vfs (fdput (pv s)) s) in
        let f := files (pv s) fid in
        let small := if flag_set (f_flags f) O_LARGEFILE then false else small in
        let path := f_path pe fid in
        if negb (bool_decide (path_kind path s = Regular)) || negb (flag_set (f_mode f) FMODE_WRITE)
        then out (- EINVAL) s
        else if small && (MAX_NON_LFS <? length) then out (- EINVAL) s
        else if is_append (inode_of e (f_inode f) (pdev s)) then out (- EPERM) s
        else
          let s := with_vfs (file_start_write (pv s)) s in
          let error := security_file_truncate pe fid in
          let '(error, s) :=
            if error =? 0
            then do_truncate path length (Z.lor ATTR_MTIME ATTR_CTIME) (Some fid) s
            else (error, s) in
          out error (with_vfs (file_end_write (pv s)) s)
    end.

(** The length is an [unsigned long], converted to [loff_t]. *)
Definition sys_ftruncate (fd length : Z) s := do_sys_ftruncate fd (i64 length) true s.
Definition compat_sys_ftruncate (fd length : Z) s := do_sys_ftruncate fd (u32 length) true s.

(** ** Reserving space *)

Definition vfs_fallocate (fid mode offset len : Z) (v : vfs D) : Z * vfs D :=
  let f := files v fid in
  let i := inode_of e (f_inode f) (dev v) in
  if (offset <? 0) || (len <=? 0) then (- EINVAL, v)
  else if flag_set mode (Z.lnot FALLOC_FL_SUPPORTED_MASK) then (- EOPNOTSUPP, v)
  else if Z.land mode (Z.lor FALLOC_FL_PUNCH_HOLE FALLOC_FL_ZERO_RANGE)
          =? Z.lor FALLOC_FL_PUNCH_HOLE FALLOC_FL_ZERO_RANGE then (- EOPNOTSUPP, v)
  else if flag_set mode FALLOC_FL_PUNCH_HOLE && negb (flag_set mode FALLOC_FL_KEEP_SIZE)
  then (- EOPNOTSUPP, v)
  else if flag_set mode FALLOC_FL_COLLAPSE_RANGE && flag_set mode (Z.lnot FALLOC_FL_COLLAPSE_RANGE)
  then (- EINVAL, v)
  else if flag_set mode FALLOC_FL_INSERT_RANGE && flag_set mode (Z.lnot FALLOC_FL_INSERT_RANGE)
  then (- EINVAL, v)
  else if flag_set mode FALLOC_FL_UNSHARE_RANGE
          && flag_set mode (Z.lnot (Z.lor FALLOC_FL_UNSHARE_RANGE FALLOC_FL_KEEP_SIZE))
  then (- EINVAL, v)
  else if negb (flag_set (f_mode f) FMODE_WRITE) then (- EBADF, v)
  else if flag_set mode (Z.lnot FALLOC_FL_KEEP_SIZE) && is_append i then (- EPERM, v)
  else if is_immutable i then (- EPERM, v)
  else if is_swapfile i then (- ETXTBSY, v)
  else
    let ret := security_file_permission e fid MAY_WRITE in
    if negb (ret =? 0) then (ret, v)
    else
      let ret := fsnotify_file_area_perm e fid MAY_WRITE (Some offset) len in
      if negb (ret =? 0) then (ret, v)
      else if bool_decide (i_kind i = Fifo) then (- ESPIPE, v)
      else if bool_decide (i_kind i = Directory) then (- EISDIR, v)
      else if negb (bool_decide (i_kind i = Regular)) && negb (bool_decide (i_kind i = BlockDev))
      then (- ENODEV, v)
      else if (s_maxbytes i <? i64 (offset + len)) || (i64 (offset + len) <? 0) then (- EFBIG, v)
      else if negb (has_fallocate pe fid) then (- EOPNOTSUPP, v)
      else
        let v := file_start_write v in
        let '(ret, d) := drv_fallocate pe fid mode offset len (dev v) in
        (ret, file_end_write (set_dev d v)).

Definition ksys_fallocate (fd mode offset len : Z) (v : vfs D) : Z * vfs D :=
  match fdget fd v with
  | (None, v) => (- EBADF, v)
  | (Some fid, v) => let '(error, v) := vfs_fallocate fid mode offset len v in (error, fdput v)
  end.

Definition sys_fallocate (fd mode offset len : Z) (v : vfs D) := ksys_fallocate fd mode offset len v.
Definition compat_sys_fallocate (fd mode off_lo off_hi len_lo len_hi : Z) (v : vfs D) :=
  ksys_fallocate fd mode (glue off_lo off_hi) (glue len_lo len_hi) v.

(** ** access *)

Definition access_need_override_creds (flags : Z) (c : fs_cred) : bool :=
  if flag_set flags AT_EACCESS then false
  else if negb (c_fsuid c =? c_uid c) || negb (c_fsgid c =? c_gid c) then true
  else if negb (no_setuid_fixup pe) then
    if negb (c_uid c =? root_kuid pe) then negb (cap_effective c =? 0)
    else negb (cap_effective c =? cap_permitted c)
  else false.

(** The credentials to test with. *)
Definition override_cred (c : fs_cred) : fs_cred :=
  FsCred (c_uid c) (c_gid c) (c_uid c) (c_gid c)
    (if negb (no_setuid_fixup pe) then
       if negb (c_uid c =? root_kuid pe) then 0 else cap_permitted c
     else cap_effective c) (cap_permitted c).

(** The old credentials, which come back with [revert_creds], and the state; [None] when
    there is no memory.  The new set is referenced by the task alone afterwards. *)
Definition access_override_creds s : option (fs_cred * pst D) :=
  if negb (prepare_creds_ok pe) then None
  else Some (cur_cred s, set_cred (override_cred (cur_cred s)) (cred_refs s + 1) s).

(** [revert_creds]: the overriding set is dropped. *)
Definition revert_creds (old : fs_cred) s : pst D := set_cred old (cred_refs s - 1) s.

Definition special_file (k : file_kind) : bool :=
  match k with CharDev | BlockDev | Fifo | Sock => true | _ => false end.

Definition access_pass (dfd filename mode lookup_flags : Z) s : Z * bool * pst D :=
  match user_path_at pe dfd filename lookup_flags (cur_cred s) (pdev s) with
  | inl res => (res, false, s)
  | inr path =>
      let s := path_get s in
      let kind := path_kind path s in
      if flag_set mode MAY_EXEC && bool_decide (kind = Regular) && path_noexec pe path
      then (- EACCES, true, path_put s)
      else
        let res :=
          inode_permission pe (cur_cred s) (path_inode pe path) (Z.lor mode MAY_ACCESS) (pdev s) in
        if negb (res =? 0) || negb (flag_set mode S_IWOTH) || special_file kind
        then (res, true, path_put s)
        else (if mnt_is_readonly pe path (pdev s) then - EROFS else res, true, path_put s)
  end.

Definition do_faccessat (fuel : nat) (dfd filename mode flags : Z) s : option (Z * pst D) :=
  if flag_set mode (Z.lnot S_IRWXO) then Some (- EINVAL, s)
  else if flag_set flags (Z.lnot (Z.lor AT_EACCESS (Z.lor AT_SYMLINK_NOFOLLOW AT_EMPTY_PATH)))
  then Some (- EINVAL, s)
  else
    let lookup_flags := if flag_set flags AT_SYMLINK_NOFOLLOW then 0 else LOOKUP_FOLLOW in
    let lookup_flags :=
      if flag_set flags AT_EMPTY_PATH then Z.lor lookup_flags LOOKUP_EMPTY else lookup_flags in
    if access_need_override_creds flags (cur_cred s) then
      match access_override_creds s with
      | None => Some (- ENOMEM, s)
      | Some (old_cred, s) =>
          match retry_loop fuel (access_pass dfd filename mode) lookup_flags s with
          | None => None
          | Some (res, s) => Some (res, revert_creds old_cred s)
          end
      end
    else retry_loop fuel (access_pass dfd filename mode) lookup_flags s.

Definition sys_faccessat (dfd filename mode : Z) s := do_faccessat retry_fuel dfd filename mode 0 s.
Definition sys_faccessat2 (dfd filename mode flags : Z) s :=
  do_faccessat retry_fuel dfd filename mode flags s.
Definition sys_access (filename mode : Z) s := do_faccessat retry_fuel AT_FDCWD filename mode 0 s.

(** ** Working and root directory *)

Definition set_fs_pwd (path : Z) s : pst D := set_dirs path (fs_root s) s.
Definition set_fs_root (path : Z) s : pst D := set_dirs (fs_pwd s) path s.

Definition chdir_pass (filename lookup_flags : Z) s : Z * bool * pst D :=
  match user_path_at pe AT_FDCWD filename lookup_flags (cur_cred s) (pdev s) with
  | inl error => (error, false, s)
  | inr path =>
      let s := path_get s in
      let error := path_permission pe (cur_cred s) path (Z.lor MAY_EXEC MAY_CHDIR) (pdev s) in
      if negb (error =? 0) then (error, true, path_put s)
      else (error, true, path_put (set_fs_pwd path s))
  end.

Definition sys_chdir (filename : Z) s : option (Z * pst D) :=
  retry_loop retry_fuel (chdir_pass filename) (Z.lor LOOKUP_FOLLOW LOOKUP_DIRECTORY) s.

Definition sys_fchdir (fd : Z) s : Z * pst D :=
  match fdget_raw fd (pv s) with
  | (None, v) => (- EBADF, with_vfs v s)
  | (Some fid, v) =>
      let s := with_vfs v s in
      if negb (d_can_lookup pe (f_path pe fid)) then (- ENOTDIR, with_vfs (fdput (pv s)) s)
      else
        let error := file_permission pe (cur_cred s) fid (Z.lor MAY_EXEC MAY_CHDIR) (pdev s) in
        let s := if error =? 0 then set_fs_pwd (f_path pe fid) s else s in
        (error, with_vfs (fdput (pv s)) s)
  end.

Definition chroot_pass (filename lookup_flags : Z) s : Z * bool * pst D :=
  match user_path_at pe AT_FDCWD filename lookup_flags (cur_cred s) (pdev s) with
  | inl error => (error, false, s)
  | inr path =>
      let s := path_get s in
      let error := path_permission pe (cur_cred s) path (Z.lor MAY_EXEC MAY_CHDIR) (pdev s) in
      if negb (error =? 0) then (error, true, path_put s)
      else if negb (capable_chroot pe (cur_cred s)) then (- EPERM, true, path_put s)
      else
        let error := security_path_chroot pe path in
        if negb (error =? 0) then (error, true, path_put s)
        else (0, true, path_put (set_fs_root path s))
  end.

Definition sys_chroot (filename : Z) s : option (Z * pst D) :=
  retry_loop retry_fuel (chroot_pass filename) (Z.lor LOOKUP_FOLLOW LOOKUP_DIRECTORY) s.

(** ** Mode and owner *)

(** The label [retry_deleg]: a delegation met on the way is broken and the change tried
    again, for as long as there are any. *)
Fixpoint chmod_deleg (fuel : nat) (path mode : Z) s : option (Z * pst D) :=
  match fuel with
  | O => None
  | S fuel =>
      let s := inode_lock s in
      let error := security_path_chmod pe path mode in
      let '(error, delegated, s) :=
        if negb (error =? 0) then (error, None, s)
        else
          let imode := i_mode pe (path_inode pe path) (pdev s) in
          let attrs := Iattr (Z.lor ATTR_MODE ATTR_CTIME) 0
            (Z.lor (Z.land mode S_IALLUGO) (Z.land imode (Z.lnot S_IALLUGO))) 0 0 None in
          let '(error, delegated, d) := notify_change pe path attrs (pdev s) in
          (error, delegated, set_pdev d s) in
      let s := inode_unlock s in
      match delegated with
      | Some i =>
          let '(error, d) := break_deleg_wait pe i (pdev s) in
          let s := set_pdev d s in
          if error =? 0 then chmod_deleg fuel path mode s else Some (error, s)
      | None => Some (error, s)
      end
  end.

Definition chmod_common (fuel : nat) (path mode : Z) s : option (Z * pst D) :=
  let error := mnt_want_write pe path (pdev s) in
  if negb (error =? 0) then Some (error, s)
  else
    match chmod_deleg fuel path mode (mnt_get_write s) with
    | None => None
    | Some (error, s) => Some (error, mnt_drop_write s)
    end.

Definition vfs_fchmod (fuel : nat) (fid mode : Z) s := chmod_common fuel (f_path pe fid) mode s.

(** The frame of [fchmod] and [fchown]. *)
Definition with_fd (fd : Z) (call : Z -> pst D -> option (Z * pst D)) s : option (Z * pst D) :=
  match fdget fd (pv s) with
  | (None, v) => Some (- EBADF, with_vfs v s)
  | (Some fid, v) =>
      match call fid (with_vfs v s) with
      | None => None
      | Some (err, s) => Some (err, with_vfs (fdput (pv s)) s)
      end
  end.

Definition sys_fchmod (fuel : nat) (fd mode : Z) s : option (Z * pst D) :=
  with_fd fd (fun fid => vfs_fchmod fuel fid mode) s.

(** Retrying around a call that may itself have no result within the fuel. *)
Fixpoint retry_loop_opt (fuel : nat) (body : Z -> pst D -> option (Z * bool * pst D))
    (lookup_flags : Z) s : option (Z * pst D) :=
  match fuel with
  | O => None
  | S fuel =>
      match body lookup_flags s with
      | None => None
      | Some (error, tested, s) =>
          if tested && retry_estale error lookup_flags
          then retry_loop_opt fuel body (Z.lor lookup_flags LOOKUP_REVAL) s
          else Some (error, s)
      end
  end.

Definition chmod_pass (fuel : nat) (dfd filename mode lookup_flags : Z) s
    : option (Z * bool * pst D) :=
  match user_path_at pe dfd filename lookup_flags (cur_cred s) (pdev s) with
  | inl error => Some (error, false, s)
  | inr path =>
      match chmod_common fuel path mode (path_get s) with
      | None => None
      | Some (error, s) => Some (error, true, path_put s)
      end
  end.

Definition lookup_of (flags : Z) : Z :=
  let lookup_flags := if flag_set flags AT_SYMLINK_NOFOLLOW then 0 else LOOKUP_FOLLOW in
  if flag_set flags AT_EMPTY_PATH then Z.lor lookup_flags LOOKUP_EMPTY else lookup_flags.

Definition do_fchmodat (fuel : nat) (dfd filename mode flags : Z) s : option (Z * pst D) :=
  if flag_set flags (Z.lnot (Z.lor AT_SYMLINK_NOFOLLOW AT_EMPTY_PATH)) then Some (- EINVAL, s)
  else retry_loop_opt retry_fuel (chmod_pass fuel dfd filename mode) (lookup_of flags) s.

Definition sys_fchmodat2 (fuel : nat) (dfd filename mode flags : Z) s :=
  do_fchmodat fuel dfd filename mode flags s.
Definition sys_fchmodat (fuel : nat) (dfd filename mode : Z) s :=
  do_fchmodat fuel dfd filename mode 0 s.
Definition sys_chmod (fuel : nat) (filename mode : Z) s :=
  do_fchmodat fuel AT_FDCWD filename mode 0 s.

Definition setattr_vfsuid (a : iattr) (kuid : Z) : option iattr :=
  if kuid =? NOID then None
  else Some (Iattr (Z.lor (ia_valid a) ATTR_UID) (ia_size a) (ia_mode a) kuid (ia_vfsgid a) (ia_file a)).
Definition setattr_vfsgid (a : iattr) (kgid : Z) : option iattr :=
  if kgid =? NOID then None
  else Some (Iattr (Z.lor (ia_valid a) ATTR_GID) (ia_size a) (ia_mode a) (ia_vfsuid a) kgid (ia_file a)).

(** The owner to set, or [None] for [-EINVAL]. *)
Definition chown_attrs (user group : Z) : option iattr :=
  let a := Iattr ATTR_CTIME 0 0 NOID NOID None in
  match (if negb (user =? NOID) then setattr_vfsuid a (make_kuid pe user) else Some a) with
  | None => None
  | Some a => if negb (group =? NOID) then setattr_vfsgid a (make_kgid pe group) else Some a
  end.

Definition or_valid (fl : Z) (a : iattr) : iattr :=
  Iattr (Z.lor (ia_valid a) fl) (ia_size a) (ia_mode a) (ia_vfsuid a) (ia_vfsgid a) (ia_file a).

Fixpoint chown_common (fuel : nat) (path user group : Z) s : option (Z * pst D) :=
  match fuel with
  | O => None
  | S fuel =>
      match chown_attrs user group with
      | None => Some (- EINVAL, s)
      | Some a =>
          let s := inode_lock s in
          let ino := path_inode pe path in
          let a :=
            if negb (bool_decide (path_kind path s = Directory)) then
              or_valid (Z.lor ATTR_KILL_SUID (Z.lor ATTR_KILL_PRIV
                (setattr_should_drop_sgid pe ino (pdev s)))) a
            else a in
          let error :=
            security_path_chown pe path (from_vfsuid pe path (ia_vfsuid a))
              (from_vfsgid pe path (ia_vfsgid a)) in
          let '(error, delegated, s) :=
            if error =? 0 then
              let '(error, delegated, d) := notify_change pe path a (pdev s) in
              (error, delegated, set_pdev d s)
            else (error, None, s) in
          let s := inode_unlock s in
          match delegated with
          | Some i =>
              let '(error, d) := break_deleg_wait pe i (pdev s) in
              let s := set_pdev d s in
              if error =? 0 then chown_common fuel path user group s else Some (error, s)
          | None => Some (error, s)
          end
      end
  end.

Definition chown_pass (fuel : nat) (dfd filename user group lookup_flags : Z) s
    : option (Z * bool * pst D) :=
  match user_path_at pe dfd filename lookup_flags (cur_cred s) (pdev s) with
  | inl error => Some (error, false, s)
  | inr path =>
      let s := path_get s in
      let error := mnt_want_write pe path (pdev s) in
      if negb (error =? 0) then Some (error, true, path_put s)
      else
        match chown_common fuel path user group (mnt_get_write s) with
        | None => None
        | Some (error, s) => Some (error, true, path_put (mnt_drop_write s))
        end
  end.

Definition do_fchownat (fuel : nat) (dfd filename user group flag : Z) s : option (Z * pst D) :=
  if flag_set flag (Z.lnot (Z.lor AT_SYMLINK_NOFOLLOW AT_EMPTY_PATH)) then Some (- EINVAL, s)
  else retry_loop_opt retry_fuel (chown_pass fuel dfd filename user group) (lookup_of flag) s.

Definition sys_fchownat (fuel : nat) (dfd filename user group flag : Z) s :=
  do_fchownat fuel dfd filename user group flag s.
Definition sys_chown (fuel : nat) (filename user group : Z) s :=
  do_fchownat fuel AT_FDCWD filename user group 0 s.
Definition sys_lchown (fuel : nat) (filename user group : Z) s :=
  do_fchownat fuel AT_FDCWD filename user group AT_SYMLINK_NOFOLLOW s.

Definition vfs_fchown (fuel : nat) (fid user group : Z) s : option (Z * pst D) :=
  let error := mnt_want_write_file pe fid (pdev s) in
  if negb (error =? 0) then Some (error, s)
  else
    match chown_common fuel (f_path pe fid) user group (mnt_get_write s) with
    | None => None
    | Some (error, s) => Some (error, mnt_drop_write s)
    end.

Definition ksys_fchown (fuel : nat) (fd user group : Z) s : option (Z * pst D) :=
  with_fd fd (fun fid => vfs_fchown fuel fid user group) s.
Definition sys_fchown (fuel : nat) (fd user group : Z) s := ksys_fchown fuel fd user group s.

End ops.
End PathCalls.
