(* ===== verification/PathSpec.v ===== *)
(** * Properties of the calls on paths and attributes

    - [path_calls_balanced]: every call returns and gives back what it took;
    - [faccessat_real_ids]: skipping the switch of credentials in [access] is invisible;
    - [fallocate_in_bounds]: what reaches the file system's [fallocate]. *)
From S2P Require Import Prelude File ReadWrite Copy ReadWriteSpec Bytes PosixSpec PathCalls.

Module PathSpec.
Import File ReadWrite Copy Frame PathCalls.

(** Delegations run out: breaking one leaves fewer, and changing attributes makes none. *)
Class DelegOk {D} (pe : path_env D) := {
  delegs : D -> nat;
  notify_delegs path a d : (delegs (notify_change pe path a d).2 <= delegs d)%nat;
  break_delegs i d :
    (delegs (break_deleg_wait pe i d).2 <= delegs d)%nat;
  break_progress path a d err i d1 :
    notify_change pe path a d = (err, Some i, d1) ->
    (break_deleg_wait pe i d1).1 = 0 -> (delegs (break_deleg_wait pe i d1).2 < delegs d)%nat
}.

Section balance.
Context {D : Type} (e : fs_env D) (pe : path_env D).
Implicit Types s : pst D.

(** Only the drivers' state changed, and the two directories. *)
Record still s s' : Prop := {
  st_vfs : quiet e (pv s) (pv s');
  st_path : path_refs s' = path_refs s;
  st_mnt : mnt_writers s' = mnt_writers s;
  st_ino : ino_writers s' = ino_writers s;
  st_lock : ino_locks s' = ino_locks s;
  st_cred : cur_cred s' = cur_cred s;
  st_cref : cred_refs s' = cred_refs s
}.

(** The same, with the directories in place. *)
Definition balanced s s' : Prop := still s s' /\ fs_pwd s' = fs_pwd s /\ fs_root s' = fs_root s.

#[export] Instance still_preorder : PreOrder still.
Proof.
  split; [by intros s; split|]. intros s1 s2 s3 [] []. split; [by etrans|congruence..].
Qed.
#[export] Instance balanced_preorder : PreOrder balanced.
Proof.
  split; [by intros s; split|]. intros s1 s2 s3 (H1 & ? & ?) (H2 & ? & ?).
  split; [by etrans|]. split; congruence.
Qed.

(** Closes the bookkeeping of a path whose driver calls have been named. *)
Ltac solve_balanced :=
  repeat split; simpl in *; try done; try congruence; lia.

Lemma do_truncate_balanced path len ta filp s : balanced s (do_truncate pe path len ta filp s).2.
Proof.
  unfold do_truncate. do 2 (case_match; [done|]).
  destruct (notify_change pe _ _ _) as [[ret del] d]. solve_balanced.
Qed.

Lemma vfs_truncate_balanced path len s : balanced s (vfs_truncate e pe path len s).2.
Proof.
  unfold vfs_truncate. cbv zeta.
  pose proof (do_truncate_balanced path len 0 None (take_write_access (mnt_get_write s))) as Hb.
  destruct (do_truncate pe path len 0 None _) as [err s']. simpl in Hb.
  destruct Hb as ([[] ? ? ? ? ? ?] & ? & ?).
  destruct (bool_decide _); [done|]. destruct (negb _); [done|]. destruct (negb _); [done|].
  destruct (negb _); [solve_balanced|]. destruct (is_append _); [solve_balanced|].
  destruct (negb _); [solve_balanced|]. destruct (negb _); [solve_balanced|].
  destruct (_ =? 0); solve_balanced.
Qed.

Lemma ftruncate_balanced fd len small s : balanced s (do_sys_ftruncate e pe fd len small s).2.
Proof.
  unfold do_sys_ftruncate, fdget. case_match; [done|].
  destruct (fd_file (pv s) fd) as [fid|]; [|solve_balanced].
  cbv zeta. destruct (negb _ || _); [solve_balanced|]. destruct (_ && (_ <? _)); [solve_balanced|].
  destruct (is_append _); [solve_balanced|].
  set (s1 := with_vfs (file_start_write _) _).
  destruct (security_file_truncate pe fid =? 0); [|solve_balanced].
  pose proof (do_truncate_balanced (f_path pe fid) len (Z.lor ATTR_MTIME ATTR_CTIME) (Some fid) s1)
    as Hb.
  destruct (do_truncate pe _ len _ _ s1) as [err s']. simpl in *.
  destruct Hb as ([[] ? ? ? ? ? ?] & ? & ?). solve_balanced.
Qed.

Lemma fallocate_quiet fd mode off len v : quiet e v (ksys_fallocate e pe fd mode off len v).2.
Proof.
  unfold ksys_fallocate, fdget. destruct (fd_file v fd) as [fid|]; [|done].
  set (v1 := set_held _ _ _ v).
  assert (Hq : quiet e v1 (vfs_fallocate e pe fid mode off len v1).2).
  { unfold vfs_fallocate. repeat case_match; simplify_eq/=; split; simpl; done || lia. }
  destruct (vfs_fallocate e pe fid mode off len v1) as [err v2]. by apply fdput_quiet.
Qed.

(** ** Retrying *)

Lemma reval_once flags : flag_set (Z.lor flags LOOKUP_REVAL) LOOKUP_REVAL = true.
Proof.
  unfold flag_set. rewrite Z.land_lor_distr_l, Z.land_diag. apply negb_true_iff, Z.eqb_neq.
  intros Hz%Z.lor_eq_0_iff. by destruct Hz.
Qed.

Lemma reval_final err flags : retry_estale err (Z.lor flags LOOKUP_REVAL) = false.
Proof. unfold retry_estale. by rewrite reval_once, andb_false_r. Qed.

Lemma estale_err t err flags : t && retry_estale err flags = true -> err = - ESTALE.
Proof. unfold retry_estale. intros [_ [He _]%andb_true_iff]%andb_true_iff. by apply Z.eqb_eq in He. Qed.

(** The loop has a result, and it is that of a pass: [R] holds before each pass, [Q] is
    what a pass ensures. *)
Lemma retry_loop_opt_ind (R : pst D -> Prop) (Q : Z -> pst D -> Prop) body flags s :
  (forall fl s1, R s1 -> exists r, body fl s1 = Some r /\ Q r.1.1 r.2 /\ (r.1.1 = - ESTALE -> R r.2)) ->
  R s ->
  exists err s', retry_loop_opt retry_fuel body flags s = Some (err, s') /\ Q err s'.
Proof.
  intros Hb Hr. unfold retry_fuel. cbn [retry_loop_opt].
  destruct (Hb flags s Hr) as ([[err t] s1] & -> & H1 & Hr1). simpl in H1, Hr1.
  destruct (t && retry_estale err flags) eqn:He; [|by eexists _, _].
  apply estale_err in He. destruct (Hb (Z.lor flags LOOKUP_REVAL) s1 (Hr1 He))
    as ([[err2 t2] s2] & -> & H2 & _). simpl in H2.
  rewrite reval_final, andb_false_r. by eexists _, _.
Qed.

Lemma retry_loop_eq fuel body flags s :
  retry_loop fuel body flags s = retry_loop_opt fuel (fun fl s => Some (body fl s)) flags s.
Proof.
  revert flags s. induction fuel as [|fuel IH]; intros flags s; [done|]. simpl.
  destruct (body flags s) as [[err t] s1]. by case_match.
Qed.

Lemma retry_loop_ind (R : pst D -> Prop) (Q : Z -> pst D -> Prop) body flags s :
  (forall fl s1, R s1 -> Q (body fl s1).1.1 (body fl s1).2 /\
     ((body fl s1).1.1 = - ESTALE -> R (body fl s1).2)) ->
  R s ->
  exists err s', retry_loop retry_fuel body flags s = Some (err, s') /\ Q err s'.
Proof.
  intros Hb Hr. rewrite retry_loop_eq. apply (retry_loop_opt_ind R); [|done].
  intros fl s1 Hs. eexists. split; [done|]. by apply Hb.
Qed.

(** ** Delegations *)

(** Balanced, and no delegation more than before. *)
Definition calm `{!DelegOk pe} s s' : Prop :=
  balanced s s' /\ (delegs (pdev s') <= delegs (pdev s))%nat.

Ltac solve_calm :=
  eexists _, _; split; [done|]; split; [solve_balanced|unfold pdev in *; simpl in *; lia].

Lemma chmod_deleg_total `{!DelegOk pe} fuel path mode s :
  (delegs (pdev s) < fuel)%nat ->
  exists err s', chmod_deleg pe fuel path mode s = Some (err, s') /\ calm s s'.
Proof.
  revert s. induction fuel as [|fuel IH]; intros s Hf; [lia|]. cbn [chmod_deleg]. cbv zeta.
  destruct (negb _); [solve_calm|].
  set (a := Iattr _ _ _ _ _ _). cbn [pdev inode_lock set_refs pv]. change (pdev (inode_lock s)) with (pdev s).
  pose proof (notify_delegs path a (pdev s)) as Hn.
  destruct (notify_change pe path a (pdev s)) as [[err del] d] eqn:Hnc. simpl in Hn.
  destruct del as [i|]; [|solve_calm].
  change (pdev (inode_unlock (set_pdev d (inode_lock s)))) with d.
  pose proof (break_delegs i d) as Hb. pose proof (break_progress path a (pdev s) err i d Hnc) as Hp.
  destruct (break_deleg_wait pe i d) as [err2 d2]. simpl in Hb, Hp.
  destruct (Z.eqb_spec err2 0) as [->|];
    [|solve_calm].
  set (s1 := set_pdev d2 _). destruct (IH s1) as (r & s' & -> & Hc & Hd).
  { unfold s1, pdev in *. simpl. specialize (Hp eq_refl). lia. }
  eexists _, _. split; [done|]. split; [|unfold s1, pdev in *; simpl in *; lia].
  etrans; [|exact Hc]. solve_balanced.
Qed.

Lemma chown_common_total `{!DelegOk pe} fuel path u g s :
  (delegs (pdev s) < fuel)%nat ->
  exists err s', chown_common e pe fuel path u g s = Some (err, s') /\ calm s s'.
Proof.
  revert s. induction fuel as [|fuel IH]; intros s Hf; [lia|]. cbn [chown_common]. cbv zeta.
  destruct (chown_attrs pe u g) as [a0|]; [|solve_calm].
  set (a := if negb _ then _ else a0). change (pdev (inode_lock s)) with (pdev s).
  destruct (security_path_chown pe path _ _ =? 0);
    [|solve_calm].
  pose proof (notify_delegs path a (pdev s)) as Hn.
  destruct (notify_change pe path a (pdev s)) as [[err del] d] eqn:Hnc. simpl in Hn.
  destruct del as [i|]; [|solve_calm].
  change (pdev (inode_unlock (set_pdev d (inode_lock s)))) with d.
  pose proof (break_delegs i d) as Hb. pose proof (break_progress path a (pdev s) err i d Hnc) as Hp.
  destruct (break_deleg_wait pe i d) as [err2 d2]. simpl in Hb, Hp.
  destruct (Z.eqb_spec err2 0) as [->|];
    [|solve_calm].
  set (s1 := set_pdev d2 _). destruct (IH s1) as (r & s' & -> & Hc & Hd).
  { unfold s1, pdev in *. simpl. specialize (Hp eq_refl). lia. }
  eexists _, _. split; [done|]. split; [|unfold s1, pdev in *; simpl in *; lia].
  etrans; [|exact Hc]. solve_balanced.
Qed.

(** ** The calls *)

Inductive path_call :=
  | PTruncate (path len : Z) | PFtruncate (fd len : Z) | PFallocate (fd mode off len : Z)
  | PAccess (dfd fn mode flags : Z)
  | PChdir (fn : Z) | PFchdir (fd : Z) | PChroot (fn : Z)
  | PFchmod (fd mode : Z) | PFchmodat (dfd fn mode flags : Z)
  | PFchown (fd u g : Z) | PFchownat (dfd fn u g flags : Z).

Definition run_path (fuel : nat) (c : path_call) s : option (Z * pst D) :=
  match c with
  | PTruncate p len => sys_truncate e pe p len s
  | PFtruncate fd len => Some (sys_ftruncate e pe fd len s)
  | PFallocate fd mode off len =>
      let '(err, v) := sys_fallocate e pe fd mode off len (pv s) in Some (err, with_vfs v s)
  | PAccess dfd fn mode fl => sys_faccessat2 e pe dfd fn mode fl s
  | PChdir fn => sys_chdir pe fn s
  | PFchdir fd => Some (sys_fchdir pe fd s)
  | PChroot fn => sys_chroot pe fn s
  | PFchmod fd mode => sys_fchmod pe fuel fd mode s
  | PFchmodat dfd fn mode fl => sys_fchmodat2 pe fuel dfd fn mode fl s
  | PFchown fd u g => sys_fchown e pe fuel fd u g s
  | PFchownat dfd fn u g fl => sys_fchownat e pe fuel dfd fn u g fl s
  end.

(** What may happen to the directories. *)
Definition dirs_ok (c : path_call) s ret s' : Prop :=
  (fs_pwd s' = fs_pwd s \/ (ret = 0 /\ match c with PChdir _ | PFchdir _ => True | _ => False end)) /\
  (fs_root s' = fs_root s \/
     (ret = 0 /\ match c with PChroot _ => True | _ => False end /\ capable_chroot pe (cur_cred s) = true)).

Definition path_done (c : path_call) s (o : option (Z * pst D)) : Prop :=
  exists ret s', o = Some (ret, s') /\ still s s' /\ dirs_ok c s ret s'.

Lemma balanced_done c s r : balanced s r.2 -> path_done c s (Some r).
Proof. intros (Hs & Hp & Hr). destruct r. eexists _, _. split; [done|]. split; [done|]. split; by left. Qed.

Lemma calm_done `{!DelegOk pe} c s o :
  (exists err s', o = Some (err, s') /\ calm s s') -> path_done c s o.
Proof. intros (err & s' & -> & Hc & _). by apply balanced_done. Qed.

(** One pass after a lookup. *)
Lemma truncate_pass_balanced pn len fl s s1 :
  balanced s s1 -> balanced s (truncate_pass e pe pn len fl s1).2.
Proof.
  intros Hb. etrans; [exact Hb|]. unfold truncate_pass. case_match; [done|].
  pose proof (vfs_truncate_balanced z len (path_get s1)) as Hv.
  destruct (vfs_truncate e pe z len _) as [err s2]. simpl in Hv.
  destruct Hv as ([[] ? ? ? ? ? ?] & ? & ?). solve_balanced.
Qed.

Lemma access_pass_balanced dfd fn mode fl s s1 :
  balanced s s1 -> balanced s (access_pass e pe dfd fn mode fl s1).2.
Proof.
  intros Hb. etrans; [exact Hb|]. unfold access_pass. case_match; [done|]. cbv zeta.
  destruct (_ && path_noexec _ _); [solve_balanced|]. destruct (_ || _); solve_balanced.
Qed.

Lemma retry_balanced body flags s :
  (forall fl s1, balanced s s1 -> balanced s (body fl s1).2) ->
  exists err s', retry_loop retry_fuel body flags s = Some (err, s') /\ balanced s s'.
Proof.
  intros Hb. apply (retry_loop_ind (balanced s) (fun _ => balanced s)); [|done].
  intros fl s1 Hs. split; [|intros _]; by apply Hb.
Qed.

Lemma faccessat_balanced dfd fn mode flags s :
  exists err s', sys_faccessat2 e pe dfd fn mode flags s = Some (err, s') /\ balanced s s'.
Proof.
  unfold sys_faccessat2, do_faccessat. case_match; [by eexists _, _|]. case_match; [by eexists _, _|].
  cbv zeta. set (lf := if flag_set flags AT_EMPTY_PATH then _ else _).
  destruct (access_need_override_creds _ _ _).
  - unfold access_override_creds. destruct (negb _); [by eexists _, _|].
    set (s1 := set_cred _ _ s).
    destruct (retry_balanced (access_pass e pe dfd fn mode) lf s1) as (err & s2 & -> & Hb).
    { intros. by apply access_pass_balanced. }
    eexists _, _. split; [done|]. destruct Hb as ([[] ? ? ? ? ? ?] & ? & ?). solve_balanced.
  - apply retry_balanced. intros. by apply access_pass_balanced.
Qed.

Lemma chdir_done fn s : path_done (PChdir fn) s (sys_chdir pe fn s).
Proof.
  apply (retry_loop_ind (balanced s) (fun ret s' => still s s' /\ dirs_ok (PChdir fn) s ret s')); [|done].
  intros fl s1 (Hs & Hp & Hr). unfold chdir_pass. case_match.
  { split; [split; [done|]; split; by left|]. by intros. }
  cbv zeta. destruct (Z.eqb_spec (path_permission pe (cur_cred (path_get s1)) z
    (Z.lor MAY_EXEC MAY_CHDIR) (pdev (path_get s1))) 0) as [->|Hne]; simpl.
  - destruct Hs as [[] ? ? ? ? ? ?].
    split; [split; [solve_balanced|]; split; [right; done|by left]|by intros].
  - destruct Hs as [[] ? ? ? ? ? ?].
    split; [split; [solve_balanced|]; split; by left|intros _; solve_balanced].
Qed.

Lemma chroot_done fn s : path_done (PChroot fn) s (sys_chroot pe fn s).
Proof.
  apply (retry_loop_ind (balanced s) (fun ret s' => still s s' /\ dirs_ok (PChroot fn) s ret s')); [|done].
  intros fl s1 (Hs & Hp & Hr). pose proof (st_cred _ _ Hs) as Hcred.
  assert (Hput : still s (path_put (path_get s1))).
  { destruct Hs as [[] ? ? ? ? ? ?]. solve_balanced. }
  unfold chroot_pass. case_match.
  { split; [split; [done|]; split; by left|]. by intros. }
  cbv zeta. assert (Hfail : forall err, (still s (path_put (path_get s1)) /\
      dirs_ok (PChroot fn) s err (path_put (path_get s1))) /\
      (err = - ESTALE -> balanced s (path_put (path_get s1)))).
  { intros err. split; [split; [done|]; split; by left|]. by intros _. }
  destruct (negb _); [apply Hfail|]. destruct (capable_chroot pe _) eqn:Hcap; simpl; [|apply Hfail].
  destruct (Z.eqb_spec (security_path_chroot pe z) 0) as [->|]; simpl; [|apply Hfail].
  split; [|by intros]. split; [destruct Hs as [[] ? ? ? ? ? ?]; solve_balanced|].
  split; [by left|]. right. simpl in Hcap. by rewrite Hcred in Hcap.
Qed.

Lemma fchdir_done fd s : path_done (PFchdir fd) s (Some (sys_fchdir pe fd s)).
Proof.
  unfold sys_fchdir, fdget_raw. destruct (fdt (pv s) fd) as [fid|]; [|apply balanced_done; solve_balanced].
  cbv zeta. destruct (negb _); [apply balanced_done; solve_balanced|].
  destruct (Z.eqb_spec (file_permission pe (cur_cred s) fid (Z.lor MAY_EXEC MAY_CHDIR) (pdev s)) 0)
    as [Hz|Hne]; cbn [cur_cred with_vfs pdev pv dev set_held] in *.
  - unfold pdev in Hz. rewrite Hz. eexists _, _. split; [done|]. split; [solve_balanced|].
    split; [by right|by left].
  - unfold pdev in Hne. replace (_ =? 0) with false by lia. apply balanced_done. solve_balanced.
Qed.

(** Holding the mount for writing around a change of attributes. *)
Lemma mnt_write_calm `{!DelegOk pe} s (call : pst D -> option (Z * pst D)) :
  (exists err s', call (mnt_get_write s) = Some (err, s') /\ calm (mnt_get_write s) s') ->
  exists err s', match call (mnt_get_write s) with
      | None => None | Some (err, s') => Some (err, mnt_drop_write s') end = Some (err, s') /\ calm s s'.
Proof.
  intros (err & s' & -> & (([[] ? ? ? ? ? ?] & ? & ?) & Hd)). eexists _, _. split; [done|].
  split; [solve_balanced|done].
Qed.

Lemma chmod_common_total `{!DelegOk pe} fuel path mode s :
  (delegs (pdev s) < fuel)%nat ->
  exists err s', chmod_common pe fuel path mode s = Some (err, s') /\ calm s s'.
Proof.
  intros Hf. unfold chmod_common. cbv zeta. destruct (negb _); [solve_calm|].
  apply (mnt_write_calm s (chmod_deleg pe fuel path mode)). by apply chmod_deleg_total.
Qed.

Lemma vfs_fchown_total `{!DelegOk pe} fuel fid u g s :
  (delegs (pdev s) < fuel)%nat ->
  exists err s', vfs_fchown e pe fuel fid u g s = Some (err, s') /\ calm s s'.
Proof.
  intros Hf. unfold vfs_fchown. cbv zeta. destruct (negb _); [solve_calm|].
  apply (mnt_write_calm s (chown_common e pe fuel (f_path pe fid) u g)). by apply chown_common_total.
Qed.

Lemma with_fd_calm `{!DelegOk pe} fd call s :
  (forall fid s1, pdev s1 = pdev s -> exists err s', call fid s1 = Some (err, s') /\ calm s1 s') ->
  exists err s', with_fd fd call s = Some (err, s') /\ calm s s'.
Proof.
  intros Hc. unfold with_fd, fdget. destruct (fd_file (pv s) fd) as [fid|]; [|solve_calm].
  set (s1 := with_vfs _ s). destruct (Hc fid s1 eq_refl)
    as (err & s' & -> & (([[] ? ? ? ? ? ?] & ? & ?) & Hd)).
  eexists _, _. split; [done|]. split; [solve_balanced|done].
Qed.

Lemma retry_calm `{!DelegOk pe} fuel body flags s :
  (delegs (pdev s) < fuel)%nat ->
  (forall fl s1, (delegs (pdev s1) < fuel)%nat -> exists r, body fl s1 = Some r /\ calm s1 r.2) ->
  exists err s', retry_loop_opt retry_fuel body flags s = Some (err, s') /\ calm s s'.
Proof.
  intros Hf Hb. apply (retry_loop_opt_ind (calm s) (fun _ => calm s)); [|done].
  intros fl s1 [Hs Hd]. destruct (Hb fl s1) as (r & -> & Hs' & Hd'); [lia|].
  assert (calm s r.2) by (split; [by etrans|lia]). by eexists.
Qed.

Lemma chmod_pass_calm `{!DelegOk pe} fuel dfd fn mode fl s :
  (delegs (pdev s) < fuel)%nat ->
  exists r, chmod_pass pe fuel dfd fn mode fl s = Some r /\ calm s r.2.
Proof.
  intros Hf. unfold chmod_pass. case_match; [eexists; split; [done|]; split; [done|simpl; lia]|].
  destruct (chmod_common_total fuel z mode (path_get s) Hf)
    as (err & s' & -> & (([[] ? ? ? ? ? ?] & ? & ?) & Hd)).
  eexists. split; [done|]. split; [solve_balanced|done].
Qed.

Lemma chown_pass_calm `{!DelegOk pe} fuel dfd fn u g fl s :
  (delegs (pdev s) < fuel)%nat ->
  exists r, chown_pass e pe fuel dfd fn u g fl s = Some r /\ calm s r.2.
Proof.
  intros Hf. unfold chown_pass. case_match; [eexists; split; [done|]; split; [done|simpl; lia]|].
  cbv zeta. destruct (negb _); [eexists; split; [done|]; split; [solve_balanced|done]|].
  destruct (chown_common_total fuel z u g (mnt_get_write (path_get s)) Hf)
    as (err & s' & -> & (([[] ? ? ? ? ? ?] & ? & ?) & Hd)).
  eexists. split; [done|]. split; [solve_balanced|done].
Qed.

(** C19. Every call on paths and attributes returns: a stale lookup is retried once, and
    delegations are broken until there are none left.  On every path, errors included, it
    gives back the path, mount and inode references, the inode lock, the descriptor and
    the borrowed credentials; the working directory changes only with a successful [chdir]
    or [fchdir], the root only with a successful [chroot] of a caller with the
    capability. *)
Theorem path_calls_balanced `{!DelegOk pe} (fuel : nat) (c : path_call) (s : pst D) :
  (delegs (pdev s) < fuel)%nat -> path_done c s (run_path fuel c s).
Proof.
  intros Hf. destruct c; simpl.
  - unfold sys_truncate, do_sys_truncate. case_match; [by apply balanced_done|].
    destruct (retry_balanced (truncate_pass e pe path len) LOOKUP_FOLLOW s) as (err & s' & -> & Hb);
      [intros; by apply truncate_pass_balanced|]. by apply balanced_done.
  - apply balanced_done, ftruncate_balanced.
  - pose proof (fallocate_quiet fd mode off len (pv s)) as Hq. unfold sys_fallocate.
    destruct (ksys_fallocate _ _ _ _ _ _ _) as [err v]. by apply balanced_done.
  - destruct (faccessat_balanced dfd fn mode flags s) as (err & s' & -> & Hb). by apply balanced_done.
  - apply chdir_done.
  - apply fchdir_done.
  - apply chroot_done.
  - apply calm_done, with_fd_calm. intros fid s1 Hd. apply chmod_common_total. by rewrite Hd.
  - unfold sys_fchmodat2, do_fchmodat. case_match; [by apply balanced_done|].
    apply calm_done, (retry_calm fuel); [done|]. intros. by apply chmod_pass_calm.
  - apply calm_done, with_fd_calm. intros fid s1 Hd. apply vfs_fchown_total. by rewrite Hd.
  - unfold sys_fchownat, do_fchownat. case_match; [by apply balanced_done|].
    apply calm_done, (retry_calm fuel); [done|]. intros. by apply chown_pass_calm.
Qed.

(** ** [access] tests the real identity *)

(** [do_faccessat] without the shortcut: unless asked for the effective identity, the
    tests always run under credentials made from the real one. *)
Definition faccessat_ref (fuel : nat) (dfd filename mode flags : Z) s : option (Z * pst D) :=
  if flag_set mode (Z.lnot S_IRWXO)
     || flag_set flags (Z.lnot (Z.lor AT_EACCESS (Z.lor AT_SYMLINK_NOFOLLOW AT_EMPTY_PATH)))
  then Some (- EINVAL, s)
  else if flag_set flags AT_EACCESS
  then retry_loop fuel (access_pass e pe dfd filename mode) (lookup_of flags) s
  else
    match retry_loop fuel (access_pass e pe dfd filename mode) (lookup_of flags)
            (set_cred (override_cred pe (cur_cred s)) (cred_refs s + 1) s) with
    | None => None
    | Some (res, s') => Some (res, revert_creds (cur_cred s) s')
    end.

(** Another reference to the same credentials. *)
Definition bump s : pst D := set_cred (cur_cred s) (cred_refs s + 1) s.

Lemma access_pass_bump dfd fn mode fl s :
  access_pass e pe dfd fn mode fl (bump s) =
    ((access_pass e pe dfd fn mode fl s).1, bump (access_pass e pe dfd fn mode fl s).2).
Proof.
  unfold access_pass, bump. cbn [cur_cred set_cred]. change (pdev (set_cred _ _ s)) with (pdev s).
  destruct (user_path_at pe dfd fn fl (cur_cred s) (pdev s)); [done|]. cbv zeta.
  change (path_kind e pe z (path_get (set_cred _ _ s))) with (path_kind e pe z (path_get s)).
  cbn [cur_cred path_get set_refs set_cred]. change (pdev (path_get (set_cred _ _ s))) with (pdev (path_get s)).
  destruct (_ && path_noexec _ _); [done|]. by destruct (_ || _).
Qed.

Lemma access_loop_bump fuel dfd fn mode fl s :
  retry_loop fuel (access_pass e pe dfd fn mode) fl (bump s) =
    prod_map id bump <$> retry_loop fuel (access_pass e pe dfd fn mode) fl s.
Proof.
  revert fl s. induction fuel as [|fuel IH]; intros fl s; [done|]. cbn [retry_loop].
  rewrite access_pass_bump. destruct (access_pass e pe dfd fn mode fl s) as [[err t] s1]. simpl.
  destruct (t && _); [apply IH|done].
Qed.

(** Where the switch is skipped it would have changed nothing. *)
Lemma override_skipped flags c :
  flag_set flags AT_EACCESS = false -> access_need_override_creds pe flags c = false ->
  override_cred pe c = c.
Proof.
  unfold access_need_override_creds, override_cred. intros ->.
  destruct c as [u g fu fg ce cp]. simpl.
  destruct (Z.eqb_spec fu u) as [->|]; [|done]. destruct (Z.eqb_spec fg g) as [->|]; [|done]. simpl.
  destruct (no_setuid_fixup pe); [done|]. simpl. destruct (u =? root_kuid pe); simpl.
  - by destruct (Z.eqb_spec ce cp) as [->|].
  - by destruct (Z.eqb_spec ce 0) as [->|].
Qed.

(** [access] tests the real user: for every caller and argument, skipping the switch
    of credentials gives the result and state of always switching to the real ids, with
    the capabilities of the real user, for the duration of the test. *)
Theorem faccessat_real_ids (fuel : nat) (dfd filename mode flags : Z) (s : pst D) :
  prepare_creds_ok pe = true ->
  do_faccessat e pe fuel dfd filename mode flags s = faccessat_ref fuel dfd filename mode flags s.
Proof.
  intros Hok. unfold do_faccessat, faccessat_ref. destruct (flag_set mode _); [done|].
  destruct (flag_set flags (Z.lnot _)); [done|]. simpl. fold (lookup_of flags).
  destruct (access_need_override_creds pe flags (cur_cred s)) eqn:Hn.
  - unfold access_override_creds. rewrite Hok. simpl.
    by replace (flag_set flags AT_EACCESS) with false
      by (unfold access_need_override_creds in Hn; by destruct (flag_set flags AT_EACCESS)).
  - destruct (flag_set flags AT_EACCESS) eqn:Ha; [done|].
    rewrite (override_skipped flags _ Ha Hn). change (set_cred (cur_cred s) _ s) with (bump s).
    rewrite access_loop_bump.
    assert (Hc : forall err s', retry_loop fuel (access_pass e pe dfd filename mode) (lookup_of flags) s
      = Some (err, s') -> revert_creds (cur_cred s) (bump s') = s').
    { generalize (lookup_of flags). intros fl err s'.
      assert (Hb : balanced s s) by done. revert Hb. generalize s at 2 3 as s1. revert fl.
      induction fuel as [|fuel' IH]; intros fl s1 Hb; [done|]. cbn [retry_loop].
      pose proof (access_pass_balanced dfd filename mode fl s s1 Hb) as Hb'.
      destruct (access_pass e pe dfd filename mode fl s1) as [[er t] s2]. simpl in Hb'.
      destruct (t && _); [by apply IH|]. intros [= _ <-]. destruct Hb' as ([_ _ _ _ _ Hcr _] & _).
      unfold revert_creds, bump. rewrite <- Hcr. destruct s2. unfold set_cred. simpl. f_equal. lia. }
    destruct (retry_loop fuel _ _ s) as [[err s']|] eqn:Hr; [|done]. simpl. by rewrite (Hc err s').
Qed.

(** ** What reaches a file system's [fallocate] *)

(** Space is reserved only within bounds: when [fallocate] calls the file system, the
    range is not empty and within the maximum file size in exact arithmetic, the file is
    open for writing, neither immutable nor in use as swap, and the mode is one of the
    supported combinations; otherwise nothing changes. *)
Theorem fallocate_in_bounds (fid mode offset len : Z) (v : vfs D) :
  let i := inode_of e (f_inode (files v fid)) (dev v) in
  - 2 ^ 63 <= offset < 2 ^ 63 -> - 2 ^ 63 <= len < 2 ^ 63 -> 0 <= s_maxbytes i <= OFFSET_MAX ->
  ((vfs_fallocate e pe fid mode offset len v).2 = v /\
     (vfs_fallocate e pe fid mode offset len v).1 <> 0) \/
  (0 <= offset /\ 0 < len /\ offset + len <= s_maxbytes i /\
   (i_kind i = Regular \/ i_kind i = BlockDev) /\
   flag_set (f_mode (files v fid)) FMODE_WRITE = true /\ is_immutable i = false /\
   is_swapfile i = false /\ flag_set mode (Z.lnot FALLOC_FL_SUPPORTED_MASK) = false /\
   (flag_set mode FALLOC_FL_PUNCH_HOLE = true -> flag_set mode FALLOC_FL_KEEP_SIZE = true) /\
   (flag_set mode FALLOC_FL_COLLAPSE_RANGE = true ->
      flag_set mode (Z.lnot FALLOC_FL_COLLAPSE_RANGE) = false)).
Proof.
  intros i Hoff Hlen Hmax. unfold vfs_fallocate. fold i. cbv zeta.
  destruct ((offset <? 0) || (len <=? 0)) eqn:Hr; [by left|].
  destruct (flag_set mode (Z.lnot FALLOC_FL_SUPPORTED_MASK)) eqn:Hsup; [by left|].
  destruct (Z.land mode _ =? _); [by left|].
  destruct (flag_set mode FALLOC_FL_PUNCH_HOLE && _) eqn:Hpunch; [by left|].
  destruct (flag_set mode FALLOC_FL_COLLAPSE_RANGE && _) eqn:Hcol; [by left|].
  destruct (flag_set mode FALLOC_FL_INSERT_RANGE && _); [by left|].
  destruct (flag_set mode FALLOC_FL_UNSHARE_RANGE && _); [by left|].
  destruct (negb (flag_set (f_mode (files v fid)) FMODE_WRITE)) eqn:Hw; [by left|]. destruct (_ && is_append i); [by left|].
  destruct (is_immutable i); [by left|]. destruct (is_swapfile i); [by left|].
  destruct (Z.eqb_spec (security_file_permission e fid MAY_WRITE) 0); simpl; [|by left].
  destruct (Z.eqb_spec (fsnotify_file_area_perm e fid MAY_WRITE (Some offset) len) 0); simpl; [|by left].
  destruct (bool_decide (i_kind i = Fifo)); [by left|].
  destruct (bool_decide (i_kind i = Directory)); [by left|].
  destruct (negb _ && negb _) eqn:Hk; [by left|].
  destruct ((s_maxbytes i <? _) || _) eqn:Hb; [by left|].
  destruct (negb (has_fallocate pe fid)); [by left|]. right.
  apply orb_false_iff in Hr as [Hr1 Hr2], Hb as [Hb1 Hb2]. unfold OFFSET_MAX in Hmax.
  assert (offset + len < 2 ^ 63).
  { destruct (Z.ltb_spec (offset + len) (2 ^ 63)); [done|].
    assert (i64 (offset + len) = offset + len - 2 ^ 64) by word_lia. lia. }
  rewrite i64_small in Hb1 by lia. apply negb_false_iff in Hw.
  split; [lia|]. split; [lia|]. split; [lia|]. split.
  { destruct (i_kind i); simpl in Hk; auto; done. }
  do 4 (split; [done|]). split; intros Hm; rewrite Hm in *; simpl in *; [|done].
  by apply negb_false_iff in Hpunch.
Qed.
End balance.

(** ** Concrete runs *)

(** One path, 40, of inode 10; its first lookup is stale; memory address 0 of the file
    system counts the delegations left on the inode. *)
Definition demo_path : path_env Ram.ram := {|
  path_inode _ := 10; i_mode _ _ := 0x81a4;
  user_path_at _ fn fl _ _ := if fn =? 1 then if flag_set fl LOOKUP_REVAL then inr 40 else inr 41
                              else inl (- ENOTDIR);
  mnt_want_write _ _ := 0; mnt_want_write_file _ _ := 0;
  inode_permission c _ mask _ :=
    if (c_fsuid c =? 0) || negb (flag_set mask MAY_WRITE) then 0 else - EACCES;
  path_permission _ p _ _ := if p =? 41 then - ESTALE else 0;
  file_permission _ _ _ _ := 0; get_write_access _ _ := 0; break_lease _ _ _ := 0;
  security_path_truncate _ := 0; security_file_truncate _ := 0; security_path_chmod _ _ := 0;
  security_path_chown _ _ _ := 0; security_path_chroot _ := 0;
  dentry_needs_remove_privs _ _ := 0; setattr_should_drop_sgid _ _ := 0;
  notify_change _ _ d := if Ram.r_mem d 0 <=? 0 then (0, None, d) else (- EAGAIN, Some 10, d);
  break_deleg_wait _ d :=
    (0, Ram.MkRam (Ram.r_content d) (fun a => if a =? 0 then Z.max 0 (Ram.r_mem d 0 - 1) else Ram.r_mem d a));
  has_fallocate _ := true; drv_fallocate _ _ _ _ d := (0, d);
  f_path _ := 40; path_noexec _ := false; mnt_is_readonly _ _ := false; d_can_lookup _ := true;
  make_kuid u := u; make_kgid g := g; from_vfsuid _ u := u; from_vfsgid _ g := g;
  root_kuid := 0; no_setuid_fixup := false; prepare_creds_ok := true; capable_chroot _ := true
|}.

#[export] Program Instance demo_deleg : DelegOk demo_path := {|
  delegs d := Z.to_nat (Ram.r_mem d 0)
|}.
Next Obligation. intros path a d. simpl. by destruct (Ram.r_mem d 0 <=? 0). Qed.
Next Obligation. intros i d. simpl. lia. Qed.
Next Obligation.
  intros path a d err i d1 Hn _. simpl in *. destruct (Z.leb_spec (Ram.r_mem d 0) 0); simplify_eq/=.
  lia.
Qed.

(** A set-user-id program of user 1000: effective and file-system ids 0. *)
Definition setuid_cred : fs_cred := FsCred 1000 1000 0 0 0xff 0xff.
Definition demo_state (n : Z) : pst Ram.ram :=
  Pst (set_dev (Ram.MkRam (Ram.r_content (dev Ram.ram_state)) (fun a => if a =? 0 then n else 0))
         Ram.ram_state) 0 0 0 0 setuid_cred 1 5 6.

(** A change of mode that has to break three delegations. *)
Lemma path_calls_balanced_witness :
  path_done Ram.ram_env demo_path (PFchmodat AT_FDCWD 1 0x1ed 0) (demo_state 3)
    (run_path Ram.ram_env demo_path 4 (PFchmodat AT_FDCWD 1 0x1ed 0) (demo_state 3)).
Proof. apply (path_calls_balanced Ram.ram_env demo_path 4 _ (demo_state 3)). simpl. lia. Defined.

(** The program may write as its effective user; [access] says that its real user may
    not. *)
Lemma faccessat_real_ids_witness :
  do_faccessat Ram.ram_env demo_path 2 AT_FDCWD 1 2 0 (demo_state 0)
    = faccessat_ref Ram.ram_env demo_path 2 AT_FDCWD 1 2 0 (demo_state 0) /\
  fst <$> faccessat_ref Ram.ram_env demo_path 2 AT_FDCWD 1 2 0 (demo_state 0) = Some (- EACCES) /\
  fst <$> faccessat_ref Ram.ram_env demo_path 2 AT_FDCWD 1 2 AT_EACCESS (demo_state 0) = Some 0.
Proof.
  split; [|by vm_compute].
  by apply (faccessat_real_ids Ram.ram_env demo_path 2 AT_FDCWD 1 2 0 (demo_state 0)).
Defined.

Lemma fallocate_in_bounds_witness :
  vfs_fallocate Ram.ram_env demo_path 1 0 100 (2 ^ 63 - 1) Ram.ram_state = (- EFBIG, Ram.ram_state) /\
  100 + 50 <= 2 ^ 20.
Proof.
  split.
  - destruct (fallocate_in_bounds Ram.ram_env demo_path 1 0 100 (2 ^ 63 - 1) Ram.ram_state)
      as [[Hv _]|(_ & _ & Hle & _)]; [lia|lia|done| |exfalso; revert Hle; vm_compute; by intros []].
    rewrite (surjective_pairing (vfs_fallocate _ _ _ _ _ _ _)), Hv. f_equal.
  - destruct (fallocate_in_bounds Ram.ram_env demo_path 1 0 100 50 Ram.ram_state)
      as [[_ Hn]|(_ & _ & Hle & _)]; [lia|lia|done| |exact Hle]. exfalso. apply Hn. by vm_compute.
Defined.
End PathSpec.
