(* ===== verification/Open.v ===== *)
(** * Opening and closing files ([fs/open.c])

    - [OpenFlags]: from the arguments of the open calls to [struct open_flags];
    - [DentryOpen]: [do_dentry_open] and its callers, with the references an open file
      holds;
    - [FdTable]: the open and close calls on the descriptor table.
    Path walking ([do_filp_open]), descriptor allocation, file release and the drivers'
    methods are outside the repository and are arguments. *)
From S2P Require Import Prelude File ReadWrite Copy PathCalls.

Module OpenFlags.
Import File ReadWrite Copy PathCalls.

Definition O_ACCMODE : Z := 0x3.
Definition O_CREAT : Z := 0x40.
Definition O_EXCL : Z := 0x80.
Definition O_NOCTTY : Z := 0x100.
Definition O_TRUNC : Z := 0x200.
Definition O_DSYNC : Z := 0x1000.
Definition O_DIRECT : Z := 0x4000.
Definition O_DIRECTORY : Z := 0x10000.
Definition O_NOFOLLOW : Z := 0x20000.
Definition O_CLOEXEC : Z := 0x80000.
Definition __O_SYNC : Z := 0x100000.
Definition O_PATH : Z := 0x200000.
Definition __O_TMPFILE : Z := 0x400000.
Definition VALID_OPEN_FLAGS : Z := 0x7fffc3.
Definition __FMODE_NONOTIFY : Z := 0x4000000.

Definition MAY_APPEND : Z := 0x8.
Definition S_IFREG : Z := 0x8000.

Definition RESOLVE_NO_XDEV : Z := 0x1.
Definition RESOLVE_NO_MAGICLINKS : Z := 0x2.
Definition RESOLVE_NO_SYMLINKS : Z := 0x4.
Definition RESOLVE_BENEATH : Z := 0x8.
Definition RESOLVE_IN_ROOT : Z := 0x10.
Definition RESOLVE_CACHED : Z := 0x20.
Definition VALID_RESOLVE_FLAGS : Z := 0x3f.

Definition LOOKUP_OPEN : Z := 0x100.
Definition LOOKUP_CREATE : Z := 0x200.
Definition LOOKUP_EXCL : Z := 0x400.
Definition LOOKUP_NO_SYMLINKS : Z := 0x10000.
Definition LOOKUP_NO_MAGICLINKS : Z := 0x20000.
Definition LOOKUP_NO_XDEV : Z := 0x40000.
Definition LOOKUP_BENEATH : Z := 0x80000.
Definition LOOKUP_IN_ROOT : Z := 0x100000.
Definition LOOKUP_CACHED : Z := 0x200000.

(** The argument of [openat2]. *)
Record open_how := OpenHow { h_flags : Z; h_mode : Z; h_resolve : Z }.

Record open_flags := OpenFl {
  open_flag : Z; op_mode : Z; acc_mode : Z; intent : Z; lookup_flags : Z
}.

Definition WILL_CREATE (flags : Z) : bool := flag_set flags (Z.lor O_CREAT __O_TMPFILE).
Definition O_PATH_FLAGS : Z := Z.lor O_DIRECTORY (Z.lor O_NOFOLLOW (Z.lor O_PATH O_CLOEXEC)).

Definition build_open_how (flags mode : Z) : open_how :=
  let hf := Z.land flags VALID_OPEN_FLAGS in
  let hm := Z.land mode S_IALLUGO in
  let hf := if flag_set hf O_PATH then Z.land hf O_PATH_FLAGS else hf in
  let hm := if negb (WILL_CREATE hf) then 0 else hm in
  OpenHow hf hm 0.

(** [ACC_MODE(x)]: the permissions an access mode needs. *)
Definition ACC_MODE (flags : Z) : Z :=
  let a := Z.land flags O_ACCMODE in
  if a =? 0 then MAY_READ else if a =? 1 then MAY_WRITE else Z.lor MAY_READ MAY_WRITE.

(** [x |= f] under a condition. *)
Definition or_if (b : bool) (f x : Z) : Z := if b then Z.lor x f else x.

(** An error, or the flags. *)
Definition build_open_flags (how : open_how) : Z + open_flags :=
  let flags := Z.land (h_flags how) (Z.lnot (Z.lor __FMODE_NONOTIFY O_CLOEXEC)) in
  let acc := ACC_MODE (h_flags how) in
  if flag_set flags (Z.lnot VALID_OPEN_FLAGS) then inl (- EINVAL)
  else if flag_set (h_resolve how) (Z.lnot VALID_RESOLVE_FLAGS) then inl (- EINVAL)
  else if flag_set (h_resolve how) RESOLVE_BENEATH && flag_set (h_resolve how) RESOLVE_IN_ROOT
  then inl (- EINVAL)
  else if WILL_CREATE flags && flag_set (h_mode how) (Z.lnot S_IALLUGO) then inl (- EINVAL)
  else if negb (WILL_CREATE flags) && negb (h_mode how =? 0) then inl (- EINVAL)
  else
    let mode := if WILL_CREATE flags then Z.lor (h_mode how) S_IFREG else 0 in
    if Z.land flags (Z.lor O_DIRECTORY O_CREAT) =? Z.lor O_DIRECTORY O_CREAT then inl (- EINVAL)
    else if flag_set flags __O_TMPFILE
            && (negb (flag_set flags O_DIRECTORY) || negb (flag_set acc MAY_WRITE))
    then inl (- EINVAL)
    else if flag_set flags O_PATH && flag_set flags (Z.lnot O_PATH_FLAGS) then inl (- EINVAL)
    else
      let acc := if flag_set flags O_PATH then 0 else acc in
      let flags := or_if (flag_set flags __O_SYNC) O_DSYNC flags in
      let open_flag := flags in
      let acc := or_if (flag_set flags O_TRUNC) MAY_WRITE acc in
      let acc := or_if (flag_set flags O_APPEND) MAY_APPEND acc in
      let intent := if flag_set flags O_PATH then 0 else LOOKUP_OPEN in
      let intent := or_if (flag_set flags O_CREAT) LOOKUP_CREATE intent in
      let intent := or_if (flag_set flags O_CREAT && flag_set flags O_EXCL) LOOKUP_EXCL intent in
      let flags := or_if (flag_set flags O_CREAT && flag_set flags O_EXCL) O_NOFOLLOW flags in
      let lk := or_if (flag_set flags O_DIRECTORY) LOOKUP_DIRECTORY 0 in
      let lk := or_if (negb (flag_set flags O_NOFOLLOW)) LOOKUP_FOLLOW lk in
      let lk := or_if (flag_set (h_resolve how) RESOLVE_NO_XDEV) LOOKUP_NO_XDEV lk in
      let lk := or_if (flag_set (h_resolve how) RESOLVE_NO_MAGICLINKS) LOOKUP_NO_MAGICLINKS lk in
      let lk := or_if (flag_set (h_resolve how) RESOLVE_NO_SYMLINKS) LOOKUP_NO_SYMLINKS lk in
      let lk := or_if (flag_set (h_resolve how) RESOLVE_BENEATH) LOOKUP_BENEATH lk in
      let lk := or_if (flag_set (h_resolve how) RESOLVE_IN_ROOT) LOOKUP_IN_ROOT lk in
      if flag_set (h_resolve how) RESOLVE_CACHED
         && flag_set flags (Z.lor O_TRUNC (Z.lor O_CREAT __O_TMPFILE)) then inl (- EAGAIN)
      else
        let lk := or_if (flag_set (h_resolve how) RESOLVE_CACHED) LOOKUP_CACHED lk in
        inr (OpenFl open_flag mode acc intent lk).

End OpenFlags.

Module DentryOpen.
Import File ReadWrite Copy PathCalls OpenFlags.

(** The references and accesses an open takes. *)
Record refs := Refs {
  r_path : Z; r_fops : Z; r_readcount : Z; r_ino_write : Z; r_mnt_write : Z; r_user_mnt_write : Z;
  r_files : Z
}.

(** The methods of a [struct file_operations] that are looked at. *)
Record fops := Fops { op_read : bool; op_write : bool; op_llseek : bool; op_open : bool }.

(** A [struct file] under construction; [of_inode] and [of_path] are [None] for NULL. *)
Record ofile := OFile {
  of_mode : Z; of_flags : Z; of_inode : option Z; of_path : option Z; of_op : option fops
}.

Definition with_mode (m : Z) (f : ofile) := OFile m (of_flags f) (of_inode f) (of_path f) (of_op f).
Definition with_flags (fl : Z) (f : ofile) := OFile (of_mode f) fl (of_inode f) (of_path f) (of_op f).
Definition with_inode (i : option Z) (f : ofile) := OFile (of_mode f) (of_flags f) i (of_path f) (of_op f).
Definition with_path (p : option Z) (f : ofile) := OFile (of_mode f) (of_flags f) (of_inode f) p (of_op f).
Definition with_op (op : option fops) (f : ofile) := OFile (of_mode f) (of_flags f) (of_inode f) (of_path f) op.
Definition or_mode (m : Z) (f : ofile) := with_mode (Z.lor (of_mode f) m) f.

(** [open_method] is [->open] or the function given: the result, the mode it leaves, and
    the methods it may have installed; given with the file and inode. *)
Record open_env := {
  oe_kind : Z -> file_kind;
  oe_get_write_access : Z -> Z;                   (* inode *)
  oe_mnt_get_write_access : option Z -> Z;        (* path *)
  oe_backing_mnt_get_write_access : option Z -> Z;
  oe_i_fop : Z -> option fops;
  oe_security_file_open : ofile -> Z;
  oe_break_lease : Z -> Z -> Z;
  oe_open_method : option Z -> Z -> ofile -> Z * Z * option fops;
  oe_direct_IO : Z -> bool;
  oe_alloc_empty_file : Z -> Z + ofile;           (* flags; error, or a file *)
  oe_alloc_empty_file_noaccount : Z -> Z + ofile;
  oe_put_file_access : ofile -> refs -> refs;
  oe_fput : ofile -> refs -> refs;
  oe_vfs_create : Z -> Z -> Z                      (* path, mode *)
}.

Section ops.
Context (e : open_env).

Definition add_path n r := Refs (r_path r + n) (r_fops r) (r_readcount r) (r_ino_write r) (r_mnt_write r) (r_user_mnt_write r) (r_files r).
Definition add_fops n r := Refs (r_path r) (r_fops r + n) (r_readcount r) (r_ino_write r) (r_mnt_write r) (r_user_mnt_write r) (r_files r).
Definition add_readcount n r := Refs (r_path r) (r_fops r) (r_readcount r + n) (r_ino_write r) (r_mnt_write r) (r_user_mnt_write r) (r_files r).
Definition add_ino_write n r := Refs (r_path r) (r_fops r) (r_readcount r) (r_ino_write r + n) (r_mnt_write r) (r_user_mnt_write r) (r_files r).
Definition add_mnt_write n r := Refs (r_path r) (r_fops r) (r_readcount r) (r_ino_write r) (r_mnt_write r + n) (r_user_mnt_write r) (r_files r).
Definition add_user_mnt_write n r := Refs (r_path r) (r_fops r) (r_readcount r) (r_ino_write r) (r_mnt_write r) (r_user_mnt_write r + n) (r_files r).
Definition add_files n r := Refs (r_path r) (r_fops r) (r_readcount r) (r_ino_write r) (r_mnt_write r) (r_user_mnt_write r) (r_files r + n).

Definition file_get_write_access (f : ofile) (inode : Z) (r : refs) : Z * refs :=
  let error := oe_get_write_access e inode in
  if negb (error =? 0) then (error, r)
  else
    let r := add_ino_write 1 r in
    let error := oe_mnt_get_write_access e (of_path f) in
    if negb (error =? 0) then (error, add_ino_write (-1) r)
    else
      let r := add_mnt_write 1 r in
      if flag_set (of_mode f) FMODE_BACKING then
        let error := oe_backing_mnt_get_write_access e (of_path f) in
        if negb (error =? 0) then (error, add_ino_write (-1) (add_mnt_write (-1) r))
        else (0, add_user_mnt_write 1 r)
      else (0, r).

(** Labels [cleanup_all] and [cleanup_file]. *)
Definition cleanup_file (error : Z) (f : ofile) (r : refs) : Z * ofile * refs :=
  (error, with_inode None (with_path None f), add_path (-1) r).
Definition cleanup_all (error : Z) (f : ofile) (r : refs) : Z * ofile * refs :=
  let error := if 0 <? error then - EINVAL else error in
  let r := match of_op f with Some _ => add_fops (-1) r | None => r end in
  cleanup_file error f (oe_put_file_access e f r).

(** What follows a successful [->open]: the derived mode bits and flags. *)
Definition finish_mode (f : ofile) (inode : Z) : ofile :=
  let has g := match of_op f with Some op => g op | None => false end in
  let f := or_mode FMODE_OPENED f in
  let f := if flag_set (of_mode f) FMODE_READ && has op_read then or_mode FMODE_CAN_READ f else f in
  let f := if flag_set (of_mode f) FMODE_WRITE && has op_write then or_mode FMODE_CAN_WRITE f else f in
  let f :=
    if flag_set (of_mode f) FMODE_LSEEK && negb (has op_llseek)
    then with_mode (Z.land (of_mode f) (Z.lnot FMODE_LSEEK)) f else f in
  let f := if oe_direct_IO e inode then or_mode FMODE_CAN_ODIRECT f else f in
  with_flags (Z.land (of_flags f) (Z.lnot (Z.lor O_CREAT (Z.lor O_EXCL (Z.lor O_NOCTTY O_TRUNC))))) f.

(** The read count or the write accesses, by the mode asked for. *)
Definition take_access (f : ofile) (inode : Z) (r : refs) : Z * ofile * refs :=
  if Z.land (of_mode f) (Z.lor FMODE_READ FMODE_WRITE) =? FMODE_READ then
    (0, f, add_readcount 1 r)
  else if flag_set (of_mode f) FMODE_WRITE && negb (special_file (oe_kind e inode)) then
    let '(error, r) := file_get_write_access f inode r in
    if negb (error =? 0) then (error, f, r) else (0, or_mode FMODE_WRITER f, r)
  else (0, f, r).

(** Dropping the page cache of a file with huge pages before writes is left out: it
    changes neither the file nor the references. *)
Definition do_dentry_open (f : ofile) (inode : Z) (open : option Z) (r : refs) : Z * ofile * refs :=
  let r := add_path 1 r in
  let f := with_inode (Some inode) f in
  if flag_set (of_flags f) O_PATH then
    (0, with_op (Some (Fops false false false false)) (with_mode (Z.lor FMODE_PATH FMODE_OPENED) f), r)
  else
    let '(error, f, r) := take_access f inode r in
    if negb (error =? 0) then cleanup_file error f r
    else
      let kind := oe_kind e inode in
      let f :=
        if bool_decide (kind = Regular) || bool_decide (kind = Directory)
        then or_mode FMODE_ATOMIC_POS f else f in
      let f := with_op (oe_i_fop e inode) f in
      match of_op f with
      | None => cleanup_all (- ENODEV) f r
      | Some op =>
          let r := add_fops 1 r in
          let error := oe_security_file_open e f in
          if negb (error =? 0) then cleanup_all error f r
          else
            let error := oe_break_lease e inode (of_flags f) in
            if negb (error =? 0) then cleanup_all error f r
            else
              let f := or_mode (Z.lor FMODE_LSEEK (Z.lor FMODE_PREAD FMODE_PWRITE)) f in
              let '(error, f) :=
                if bool_decide (is_Some open) || op_open op then
                  let '(error, mode, op') := oe_open_method e open inode f in
                  (error, with_op op' (with_mode mode f))
                else (0, f) in
              if negb (error =? 0) then cleanup_all error f r
              else
                let f := finish_mode f inode in
                if flag_set (of_flags f) O_DIRECT && negb (flag_set (of_mode f) FMODE_CAN_ODIRECT)
                then (- EINVAL, f, r)
                else (0, f, r)
      end.

Definition finish_open (f : ofile) (dentry inode : Z) (open : option Z) (r : refs) : Z * ofile * refs :=
  do_dentry_open (with_path (Some dentry) f) inode open r.

Definition vfs_open (path inode : Z) (f : ofile) (r : refs) : Z * ofile * refs :=
  do_dentry_open (with_path (Some path) f) inode None r.

(** The file, or an error; what both allocating callers do with the result of an open. *)
Definition opened_or_put (res : Z * ofile * refs) : (Z + ofile) * refs :=
  let '(error, f, r) := res in
  if negb (error =? 0) then (inl error, oe_fput e f r) else (inr f, r).

Definition dentry_open (path inode flags : Z) (r : refs) : (Z + ofile) * refs :=
  match oe_alloc_empty_file e flags with
  | inl err => (inl err, r)
  | inr f => opened_or_put (vfs_open path inode f (add_files 1 r))
  end.

Definition dentry_create (path inode flags mode : Z) (r : refs) : (Z + ofile) * refs :=
  match oe_alloc_empty_file e flags with
  | inl err => (inl err, r)
  | inr f =>
      let r := add_files 1 r in
      let error := oe_vfs_create e path mode in
      opened_or_put (if error =? 0 then vfs_open path inode f r else (error, f, r))
  end.

Definition kernel_file_open (path flags inode : Z) (r : refs) : (Z + ofile) * refs :=
  match oe_alloc_empty_file_noaccount e flags with
  | inl err => (inl err, r)
  | inr f => opened_or_put (do_dentry_open (with_path (Some path) f) inode None (add_files 1 r))
  end.

(** ** Methods for [->open] *)

Definition generic_file_open (f : ofile) (size : Z) : Z :=
  if negb (flag_set (of_flags f) O_LARGEFILE) && (MAX_NON_LFS <? size) then - EOVERFLOW else 0.

Definition nonseekable_open (f : ofile) : Z * ofile :=
  (0, with_mode (Z.land (of_mode f) (Z.lnot (Z.lor FMODE_LSEEK (Z.lor FMODE_PREAD FMODE_PWRITE)))) f).

Definition stream_open (f : ofile) : Z * ofile :=
  let f := with_mode (Z.land (of_mode f) (Z.lnot (Z.lor FMODE_LSEEK (Z.lor FMODE_PREAD
    (Z.lor FMODE_PWRITE FMODE_ATOMIC_POS))))) f in
  (0, or_mode FMODE_STREAM f).

End ops.
End DentryOpen.

Module FdTable.
Import File PathCalls OpenFlags.

Definition ERESTARTSYS : Z := 512.
Definition ERESTARTNOINTR : Z := 513.
Definition ERESTARTNOHAND : Z := 514.
Definition ERESTART_RESTARTBLOCK : Z := 516.
Definition OPEN_HOW_SIZE_VER0 : Z := 24.
Definition sizeof_open_how : Z := 24.

(** The descriptors in use with their open files, those reserved but not installed yet,
    the file names held, and the references open files have. *)
Record ftab := Ftab { tbl : gmap Z Z; resv : gset Z; names : Z; frefs : gmap Z Z }.

Record fd_env := {
  getname : Z -> Z + Z;                             (* error, or name *)
  getname_kernel : Z -> Z + Z;
  get_unused_fd_flags : Z -> gmap Z Z -> gset Z -> Z;
  do_filp_open : Z -> Z -> open_flags -> ftab -> Z + Z;   (* error, or open file *)
  do_file_open_root : Z -> Z -> open_flags -> Z + Z;
  copy_how : Z -> Z -> Z + open_how;                (* copy_struct_from_user *)
  flush : Z -> option Z;                            (* the result of ->flush, if there is one *)
  force_o_largefile : bool;
  close_range : Z -> Z -> Z -> ftab -> Z * ftab;
  capable_tty : bool
}.

Section ops.
Context (e : fd_env).

Definition set_names (n : Z) (t : ftab) : ftab := Ftab (tbl t) (resv t) n (frefs t).

(** [file_open_name], [filp_open], [file_open_root]: an error or an open file. *)
Definition file_open_name (name flags mode : Z) (t : ftab) : Z + Z :=
  match build_open_flags (build_open_how flags mode) with
  | inl err => inl err
  | inr op => do_filp_open e AT_FDCWD name op t
  end.

Definition filp_open (filename flags mode : Z) (t : ftab) : (Z + Z) * ftab :=
  match getname_kernel e filename with
  | inl err => (inl err, t)
  | inr name =>
      let t := set_names (names t + 1) t in
      let file := file_open_name name flags mode t in
      (file, set_names (names t - 1) t)
  end.

Definition file_open_root (root filename flags mode : Z) : Z + Z :=
  match build_open_flags (build_open_how flags mode) with
  | inl err => inl err
  | inr op => do_file_open_root e root filename op
  end.

(** [get_unused_fd_flags] reserves, [put_unused_fd] gives back, [fd_install] turns a
    reservation into a descriptor of the file, which keeps the reference it came with. *)
Definition reserve (fd : Z) (t : ftab) : ftab := Ftab (tbl t) ({[fd]} ∪ resv t) (names t) (frefs t).
Definition put_unused_fd (fd : Z) (t : ftab) : ftab := Ftab (tbl t) (resv t ∖ {[fd]}) (names t) (frefs t).
Definition fd_install (fd f : Z) (t : ftab) : ftab :=
  Ftab (<[fd := f]> (tbl t)) (resv t ∖ {[fd]}) (names t)
    (<[f := default 0 (frefs t !! f) + 1]> (frefs t)).

Definition do_sys_openat2 (dfd filename : Z) (how : open_how) (t : ftab) : Z * ftab :=
  match build_open_flags how with
  | inl err => (err, t)
  | inr op =>
      match getname e filename with
      | inl err => (err, t)
      | inr tmp =>
          let t := set_names (names t + 1) t in
          let fd := get_unused_fd_flags e (h_flags how) (tbl t) (resv t) in
          let '(fd, t) :=
            if 0 <=? fd then
              let t := reserve fd t in
              match do_filp_open e dfd tmp op t with
              | inl err => (err, put_unused_fd fd t)
              | inr f => (fd, fd_install fd f t)
              end
            else (fd, t) in
          (fd, set_names (names t - 1) t)
      end
  end.

Definition do_sys_open (dfd filename flags mode : Z) (t : ftab) : Z * ftab :=
  do_sys_openat2 dfd filename (build_open_how flags mode) t.

Definition largefile (flags : Z) : Z :=
  if force_o_largefile e then Z.lor flags O_LARGEFILE else flags.

Definition sys_openat (dfd filename flags mode : Z) (t : ftab) : Z * ftab :=
  do_sys_open dfd filename (largefile flags) mode t.

Definition sys_openat2 (dfd filename how usize : Z) (t : ftab) : Z * ftab :=
  if usize <? OPEN_HOW_SIZE_VER0 then (- EINVAL, t)
  else
    match copy_how e how usize with
    | inl err => (err, t)
    | inr tmp =>
        let fl :=
          if negb (flag_set (h_flags tmp) O_PATH) && force_o_largefile e
          then Z.lor (h_flags tmp) O_LARGEFILE else h_flags tmp in
        do_sys_openat2 dfd filename (OpenHow fl (h_mode tmp) (h_resolve tmp)) t
    end.

Definition compat_sys_open (filename flags mode : Z) (t : ftab) : Z * ftab :=
  do_sys_open AT_FDCWD filename flags mode t.
Definition compat_sys_openat (dfd filename flags mode : Z) (t : ftab) : Z * ftab :=
  do_sys_open dfd filename flags mode t.

Definition sys_creat (pathname mode : Z) (t : ftab) : Z * ftab :=
  do_sys_open AT_FDCWD pathname (largefile (Z.lor O_CREAT (Z.lor O_WRONLY O_TRUNC))) mode t.

(** ** Closing *)

(** Dropping one reference; the last one frees the file. *)
Definition fput (f : Z) (t : ftab) : ftab :=
  let n := default 0 (frefs t !! f) - 1 in
  Ftab (tbl t) (resv t) (names t) (if n =? 0 then delete f (frefs t) else <[f := n]> (frefs t)).

(** Removal of POSIX locks and directory notifications is left out. *)
Definition filp_flush (f : Z) (t : ftab) : Z :=
  if default 0 (frefs t !! f) =? 0 then 0
  else match flush e f with Some r => r | None => 0 end.

Definition filp_close (f : Z) (t : ftab) : Z * ftab := (filp_flush f t, fput f t).

(** [file_close_fd]: the descriptor is gone before the file is looked at. *)
Definition file_close_fd (fd : Z) (t : ftab) : option Z * ftab :=
  match tbl t !! fd with
  | None => (None, t)
  | Some f => (Some f, Ftab (delete fd (tbl t)) (resv t) (names t) (frefs t))
  end.

Definition sys_close (fd : Z) (t : ftab) : Z * ftab :=
  match file_close_fd fd t with
  | (None, t) => (- EBADF, t)
  | (Some f, t) =>
      let retval := filp_flush f t in
      let t := fput f t in
      let retval :=
        if (retval =? - ERESTARTSYS) || (retval =? - ERESTARTNOINTR) || (retval =? - ERESTARTNOHAND)
           || (retval =? - ERESTART_RESTARTBLOCK) then - EINTR else retval in
      (retval, t)
  end.

Definition sys_close_range (fd max_fd flags : Z) (t : ftab) : Z * ftab := close_range e fd max_fd flags t.

Definition sys_vhangup : Z := if capable_tty e then 0 else - EPERM.

End ops.
End FdTable.
