(* ===== verification/OpenSpec.v ===== *)
(** * Properties of opening and closing

    - [FlagsSpec]: which arguments are accepted, and what the accepted ones ask for;
    - [RefsSpec]: an open file holds exactly the references that closing gives back, and
      a failed open holds none;
    - [FdSpec]: descriptors are neither leaked nor reused, and [close] undoes [open]. *)
From S2P Require Import Prelude File ReadWrite Copy PathCalls Open.

Module FlagsSpec.
Import File ReadWrite Copy PathCalls OpenFlags.

(** ** Flag words *)

Lemma flag_lor a b f : flag_set (Z.lor a b) f = flag_set a f || flag_set b f.
Proof.
  unfold flag_set. rewrite Z.land_lor_distr_l.
  destruct (Z.eqb_spec (Z.lor (Z.land a f) (Z.land b f)) 0) as [[-> ->]%Z.lor_eq_0_iff|Hn]; [done|].
  destruct (Z.eqb_spec (Z.land a f) 0) as [Ha|]; [|done]. rewrite Ha, Z.lor_0_l in *. lia.
Qed.

(** A mask that keeps a flag, or drops it. *)
Lemma flag_land_in a m f : Z.land m f = f -> flag_set (Z.land a m) f = flag_set a f.
Proof. intros Hm. unfold flag_set. by rewrite <- Z.land_assoc, Hm. Qed.
Lemma flag_land_out a m f : Z.land m f = 0 -> flag_set (Z.land a m) f = false.
Proof. intros Hm. unfold flag_set. by rewrite <- Z.land_assoc, Hm, Z.land_0_r. Qed.

Lemma flag_or_if b g x f :
  flag_set (or_if b g x) f = flag_set x f || (b && flag_set g f).
Proof. destruct b; simpl; [apply flag_lor|by rewrite orb_false_r]. Qed.

(** A flag of two bits. *)
Lemma flag_two a f g : flag_set a (Z.lor f g) = flag_set a f || flag_set a g.
Proof.
  unfold flag_set. rewrite Z.land_lor_distr_r.
  destruct (Z.eqb_spec (Z.lor (Z.land a f) (Z.land a g)) 0) as [[-> ->]%Z.lor_eq_0_iff|Hn]; [done|].
  destruct (Z.eqb_spec (Z.land a f) 0) as [Ha|]; [|done]. rewrite Ha, Z.lor_0_l in *. lia.
Qed.

Lemma dir_creat_both a :
  (Z.land a (Z.lor O_DIRECTORY O_CREAT) =? Z.lor O_DIRECTORY O_CREAT)
    = flag_set a O_DIRECTORY && flag_set a O_CREAT.
Proof.
  unfold flag_set. rewrite Z.land_lor_distr_r. change O_DIRECTORY with (2 ^ 16). change O_CREAT with (2 ^ 6).
  rewrite !land_bit by done. by destruct (Z.testbit a 16), (Z.testbit a 6).
Qed.

(** A mask covered by another. *)
Lemma flag_none a m : Z.land m (Z.lnot VALID_OPEN_FLAGS) = 0 ->
  flag_set (Z.land a m) (Z.lnot VALID_OPEN_FLAGS) = false.
Proof. apply flag_land_out. Qed.

(** ** The older calls *)

Definition LEGACY : Z := Eval vm_compute in Z.land VALID_OPEN_FLAGS (Z.lnot O_CLOEXEC).
Definition LEGACY_PATH : Z := Eval vm_compute in Z.land O_PATH_FLAGS (Z.lnot O_CLOEXEC).

Lemma how_flags flags mode :
  Z.land (h_flags (build_open_how flags mode)) (Z.lnot (Z.lor __FMODE_NONOTIFY O_CLOEXEC)) =
    Z.land flags (if flag_set flags O_PATH then LEGACY_PATH else LEGACY).
Proof.
  unfold build_open_how. cbn [h_flags]. rewrite (flag_land_in flags VALID_OPEN_FLAGS O_PATH) by done.
  destruct (flag_set flags O_PATH); by rewrite <- !Z.land_assoc.
Qed.

Lemma how_create flags mode :
  WILL_CREATE (h_flags (build_open_how flags mode)) =
    negb (flag_set flags O_PATH) && (flag_set flags O_CREAT || flag_set flags __O_TMPFILE).
Proof.
  unfold build_open_how, WILL_CREATE. cbn [h_flags].
  rewrite (flag_land_in flags VALID_OPEN_FLAGS O_PATH), flag_two by done.
  destruct (flag_set flags O_PATH); simpl.
  - by rewrite <- Z.land_assoc, !flag_land_out.
  - by rewrite !flag_land_in.
Qed.

Lemma how_mode flags mode :
  h_mode (build_open_how flags mode) =
    if negb (flag_set flags O_PATH) && (flag_set flags O_CREAT || flag_set flags __O_TMPFILE)
    then Z.land mode S_IALLUGO else 0.
Proof.
  rewrite <- (how_create flags mode). unfold build_open_how. cbn [h_flags h_mode].
  by destruct (WILL_CREATE _).
Qed.

Lemma mode_masked mode : flag_set (Z.land mode S_IALLUGO) (Z.lnot S_IALLUGO) = false.
Proof. by apply flag_land_out. Qed.

(** The requests the older calls refuse. *)
Definition refused (flags : Z) : bool :=
  negb (flag_set flags O_PATH)
  && ((flag_set flags O_DIRECTORY && flag_set flags O_CREAT)
      || (flag_set flags __O_TMPFILE
          && (negb (flag_set flags O_DIRECTORY) || negb (flag_set (ACC_MODE flags) MAY_WRITE)))).

Definition creates (flags : Z) : bool :=
  negb (flag_set flags O_PATH) && (flag_set flags O_CREAT || flag_set flags __O_TMPFILE).

(** What an accepted request asks of the path walk. *)
Record opens_as (flags mode : Z) (op : open_flags) : Prop := {
  oa_mode : op_mode op = if creates flags then Z.lor (Z.land mode S_IALLUGO) S_IFREG else 0;
  oa_path : flag_set flags O_PATH = true -> acc_mode op = 0 /\ intent op = 0;
  oa_acc : flag_set flags O_PATH = false ->
    acc_mode op = or_if (flag_set flags O_APPEND) MAY_APPEND
                    (or_if (flag_set flags O_TRUNC) MAY_WRITE (ACC_MODE flags));
  oa_follow : flag_set (lookup_flags op) LOOKUP_FOLLOW =
    negb (flag_set flags O_NOFOLLOW
          || (negb (flag_set flags O_PATH) && flag_set flags O_CREAT && flag_set flags O_EXCL));
  oa_dir : flag_set (lookup_flags op) LOOKUP_DIRECTORY = flag_set flags O_DIRECTORY;
  oa_excl : flag_set (intent op) LOOKUP_EXCL =
    negb (flag_set flags O_PATH) && flag_set flags O_CREAT && flag_set flags O_EXCL;
  oa_sync : flag_set (open_flag op) __O_SYNC = true -> flag_set (open_flag op) O_DSYNC = true;
  oa_cloexec : flag_set (open_flag op) O_CLOEXEC = false
}.

Lemma acc_legacy flags mode :
  flag_set flags O_PATH = false -> ACC_MODE (h_flags (build_open_how flags mode)) = ACC_MODE flags.
Proof.
  intros Hp. unfold build_open_how, ACC_MODE. cbn [h_flags].
  rewrite (flag_land_in flags VALID_OPEN_FLAGS O_PATH), Hp by done. by rewrite <- Z.land_assoc.
Qed.

(** Opening a path only. *)
Lemma path_flags flags mode :
  flag_set flags O_PATH = true ->
  exists op, build_open_flags (build_open_how flags mode) = inr op /\ opens_as flags mode op.
Proof.
  intros Hp. unfold build_open_flags. rewrite how_flags, how_mode, Hp. cbv zeta.
  change (h_resolve (build_open_how flags mode)) with 0.
  rewrite !(flag_land_out flags LEGACY_PATH (Z.lnot VALID_OPEN_FLAGS)) by done.
  unfold WILL_CREATE. rewrite dir_creat_both, !flag_two.
  set (fl := Z.land flags LEGACY_PATH).
  assert (Hin : forall f, Z.land LEGACY_PATH f = f -> flag_set fl f = flag_set flags f)
    by (intros; by apply flag_land_in).
  assert (Hout : forall f, Z.land LEGACY_PATH f = 0 -> flag_set fl f = false)
    by (intros; by apply flag_land_out).
  rewrite (Hout O_CREAT), (Hout __O_TMPFILE), (Hout (Z.lnot O_PATH_FLAGS)), (Hout __O_SYNC),
    (Hin O_DIRECTORY), (Hin O_PATH), Hp by done.
  rewrite !andb_false_r. cbn [negb andb orb or_if].
  rewrite (Hout O_TRUNC), (Hout O_APPEND), (Hout O_CREAT), (Hin O_PATH), Hp by done.
  cbn [negb andb orb or_if]. change (flag_set 0 _) with false. cbn [negb andb orb or_if].
  rewrite (Hin O_DIRECTORY), (Hin O_NOFOLLOW) by done.
  eexists. split; [reflexivity|]. split; cbn [op_mode acc_mode intent lookup_flags open_flag];
    unfold creates; rewrite ?Hp; try done.
  - rewrite !flag_or_if. by destruct (flag_set flags O_DIRECTORY), (flag_set flags O_NOFOLLOW).
  - rewrite !flag_or_if. by destruct (flag_set flags O_DIRECTORY), (flag_set flags O_NOFOLLOW).
  - by rewrite Hout.
  - by rewrite Hout.
Qed.

(** Opening for input and output: the checks, then the derived words. *)
Lemma io_flags flags mode :
  flag_set flags O_PATH = false ->
  match build_open_flags (build_open_how flags mode) with
  | inl err => err = - EINVAL /\ refused flags = true
  | inr op => refused flags = false /\ opens_as flags mode op
  end.
Proof.
  intros Hp. unfold build_open_flags. rewrite how_flags, how_mode, acc_legacy, Hp by done. cbv zeta.
  change (h_resolve (build_open_how flags mode)) with 0.
  rewrite (flag_land_out flags LEGACY (Z.lnot VALID_OPEN_FLAGS)) by done.
  change (flag_set 0 _) with false. cbn [negb andb orb or_if].
  unfold WILL_CREATE. rewrite dir_creat_both, !flag_two.
  set (fl := Z.land flags LEGACY).
  assert (Hin : forall f, Z.land LEGACY f = f -> flag_set fl f = flag_set flags f)
    by (intros; by apply flag_land_in).
  assert (Hcl : flag_set fl O_CLOEXEC = false) by (by apply flag_land_out).
  rewrite (Hin O_CREAT), (Hin __O_TMPFILE), (Hin O_DIRECTORY), (Hin O_PATH), Hp, (Hin __O_SYNC) by done.
  assert (Hm : (flag_set flags O_CREAT || flag_set flags __O_TMPFILE) &&
     flag_set (if flag_set flags O_CREAT || flag_set flags __O_TMPFILE then Z.land mode S_IALLUGO else 0)
       (Z.lnot S_IALLUGO) = false).
  { destruct (flag_set flags O_CREAT || _); [|done]. apply mode_masked. }
  rewrite Hm. clear Hm.
  assert (Hz : negb (flag_set flags O_CREAT || flag_set flags __O_TMPFILE) && negb
     ((if flag_set flags O_CREAT || flag_set flags __O_TMPFILE then Z.land mode S_IALLUGO else 0) =? 0)
     = false) by (by destruct (flag_set flags O_CREAT || _)).
  rewrite Hz. clear Hz. unfold refused. rewrite Hp. cbn [negb andb].
  destruct (flag_set flags O_DIRECTORY && flag_set flags O_CREAT) eqn:Hdc; [done|].
  destruct (flag_set flags __O_TMPFILE && _) eqn:Htmp; [done|].
  cbn [negb andb orb]. split; [done|].
  assert (Hs : forall f, Z.land LEGACY f = f -> Z.land O_DSYNC f = 0 ->
    flag_set (or_if (flag_set flags __O_SYNC) O_DSYNC fl) f = flag_set flags f).
  { intros f Hf Hd. rewrite flag_or_if, Hin by done. unfold flag_set at 3. rewrite Hd.
    by rewrite andb_false_r, orb_false_r. }
  assert (Hsy : flag_set (or_if (flag_set flags __O_SYNC) O_DSYNC fl) __O_SYNC = true ->
    flag_set (or_if (flag_set flags __O_SYNC) O_DSYNC fl) O_DSYNC = true).
  { rewrite !flag_or_if, !Hin by done. by destruct (flag_set flags __O_SYNC), (flag_set flags O_DSYNC). }
  assert (Hc : flag_set (or_if (flag_set flags __O_SYNC) O_DSYNC fl) O_CLOEXEC = false).
  { rewrite flag_or_if, Hcl. by destruct (flag_set flags __O_SYNC). }
  set (g := or_if (flag_set flags __O_SYNC) O_DSYNC fl) in *. clearbody g.
  split; cbn [op_mode acc_mode intent lookup_flags open_flag]; unfold creates; rewrite ?Hp; try done.
  - by destruct (flag_set flags O_CREAT || _).
  - intros _. by rewrite !Hs.
  - rewrite !flag_or_if, !Hs by done. change (flag_set 0 _) with false.
    by destruct (flag_set flags O_CREAT), (flag_set flags O_EXCL), (flag_set flags O_DIRECTORY),
      (flag_set flags O_NOFOLLOW).
  - rewrite !flag_or_if, !Hs by done. change (flag_set 0 _) with false.
    by destruct (flag_set flags O_CREAT), (flag_set flags O_EXCL), (flag_set flags O_DIRECTORY),
      (flag_set flags O_NOFOLLOW).
  - rewrite !Hs, Hp by done. rewrite !flag_or_if.
    by destruct (flag_set flags O_CREAT), (flag_set flags O_EXCL).
Qed.

(** The older calls ([open], [openat], [creat]) refuse a request only with [-EINVAL],
    and only for creating a directory or for an unnamed file without [O_DIRECTORY] or not
    opened for writing; unknown bits are ignored and [O_PATH] overrides the rest.  An
    accepted request asks for write permission to truncate, creates nothing it was not
    asked to, follows a last symbolic link unless told not to or when creating
    exclusively, and never passes the close-on-exec bit on. *)
Theorem legacy_open_flags (flags mode : Z) :
  match build_open_flags (build_open_how flags mode) with
  | inl err => err = - EINVAL /\ refused flags = true
  | inr op => refused flags = false /\ opens_as flags mode op
  end.
Proof.
  destruct (flag_set flags O_PATH) eqn:Hp; [|by apply io_flags].
  destruct (path_flags flags mode Hp) as (op & -> & Ho). split; [|done].
  unfold refused. by rewrite Hp.
Qed.
End FlagsSpec.

Module RefsSpec.
Import File ReadWrite Copy PathCalls OpenFlags DentryOpen FlagsSpec.

(** ** What an open file holds *)

(** The accesses behind the mode bits, times [n]. *)
Definition access (n m : Z) (r : refs) : refs :=
  if flag_set m FMODE_READ && negb (flag_set m FMODE_WRITE) then add_readcount n r
  else if flag_set m FMODE_WRITER then
    let r := add_mnt_write n (add_ino_write n r) in
    if flag_set m FMODE_BACKING then add_user_mnt_write n r else r
  else r.

(** An open file: its path, its methods (not for a path only) and its accesses. *)
Definition holds (n m : Z) (r : refs) : refs :=
  access n m (add_path n (if flag_set m FMODE_PATH then r else add_fops n r)).

(** The mode bits all this depends on. *)
Definition KEPT : Z := Eval vm_compute in
  Z.lor FMODE_READ (Z.lor FMODE_WRITE (Z.lor FMODE_WRITER (Z.lor FMODE_BACKING
    (Z.lor FMODE_PATH FMODE_OPENED)))).

(** The documented behaviour of [put_file_access] and [fput], and of [->open] methods:
    they may clear seeking but not what the accesses depend on.  A new file is not open. *)
Class OpenOk (e : open_env) : Prop := {
  put_access f r : oe_put_file_access e f r = access (-1) (of_mode f) r;
  fput_spec f r :
    oe_fput e f r = add_files (-1) (if flag_set (of_mode f) FMODE_OPENED then holds (-1) (of_mode f) r else r);
  open_keeps o i f : Z.land (oe_open_method e o i f).1.2 KEPT = Z.land (of_mode f) KEPT;
  open_ops o i f : is_Some (oe_open_method e o i f).2;
  alloc_fresh fl f :
    oe_alloc_empty_file e fl = inr f \/ oe_alloc_empty_file_noaccount e fl = inr f ->
    flag_set (of_mode f) (Z.lor FMODE_WRITER (Z.lor FMODE_PATH FMODE_OPENED)) = false
}.

Lemma kept_flag m m' f :
  Z.land KEPT f = f -> Z.land m KEPT = Z.land m' KEPT -> flag_set m f = flag_set m' f.
Proof. intros Hf Hm. rewrite <- (flag_land_in m KEPT f Hf), Hm. by apply flag_land_in. Qed.

Lemma kept_or m x : Z.land x KEPT = 0 -> Z.land (Z.lor m x) KEPT = Z.land m KEPT.
Proof. intros Hx. by rewrite Z.land_lor_distr_l, Hx, Z.lor_0_r. Qed.

Lemma kept_access n m m' r : Z.land m KEPT = Z.land m' KEPT -> access n m r = access n m' r.
Proof.
  intros Hm. unfold access. by rewrite (kept_flag m m' FMODE_READ), (kept_flag m m' FMODE_WRITE),
    (kept_flag m m' FMODE_WRITER), (kept_flag m m' FMODE_BACKING).
Qed.

Lemma access_opened n m r : access n (Z.lor m FMODE_OPENED) r = access n m r.
Proof.
  unfold access. rewrite !flag_lor. change (flag_set FMODE_OPENED _) with false. by rewrite !orb_false_r.
Qed.

Lemma kept_holds n m m' r : Z.land m KEPT = Z.land m' KEPT -> holds n m r = holds n m' r.
Proof. intros Hm. unfold holds. by rewrite (kept_access n m m'), (kept_flag m m' FMODE_PATH). Qed.

Lemma readonly_mode m :
  (Z.land m (Z.lor FMODE_READ FMODE_WRITE) =? FMODE_READ)
    = flag_set m FMODE_READ && negb (flag_set m FMODE_WRITE).
Proof.
  unfold flag_set. rewrite Z.land_lor_distr_r. change FMODE_READ with (2 ^ 0). change FMODE_WRITE with (2 ^ 1).
  rewrite !land_bit by done. by destruct (Z.testbit m 0), (Z.testbit m 1).
Qed.

(** Giving back undoes taking. *)
Ltac refs_eq := unfold add_path, add_fops, add_readcount, add_ino_write, add_mnt_write,
  add_user_mnt_write, add_files; simpl; f_equal; lia.

Lemma access_back m r : access (-1) m (access 1 m r) = r.
Proof. unfold access. destruct r. repeat case_match; refs_eq. Qed.

Lemma access_add_path n m k r : access n m (add_path k r) = add_path k (access n m r).
Proof. unfold access. destruct r. by repeat case_match. Qed.
Lemma access_add_fops n m k r : access n m (add_fops k r) = add_fops k (access n m r).
Proof. unfold access. destruct r. by repeat case_match. Qed.
Lemma path_back k r : add_path (- k) (add_path k r) = r.
Proof. destruct r. refs_eq. Qed.
Lemma fops_back k r : add_fops (- k) (add_fops k r) = r.
Proof. destruct r. refs_eq. Qed.

Lemma holds_back m r : holds (-1) m (holds 1 m r) = r.
Proof.
  unfold holds. destruct (flag_set m FMODE_PATH).
  - rewrite access_add_path, access_back. apply (path_back 1).
  - rewrite access_add_path, access_add_fops, access_back. destruct r. refs_eq.
Qed.

Section spec.
Context (e : open_env) {ok : OpenOk e}.

(** Taking write access: all or nothing. *)
Lemma get_write_spec f i r :
  let '(err, r') := file_get_write_access e f i r in
  (err <> 0 /\ r' = r) \/
  (err = 0 /\ r' = let r1 := add_mnt_write 1 (add_ino_write 1 r) in
     if flag_set (of_mode f) FMODE_BACKING then add_user_mnt_write 1 r1 else r1).
Proof.
  unfold file_get_write_access. cbv zeta.
  destruct (Z.eqb_spec (oe_get_write_access e i) 0); simpl; [|by left].
  destruct (Z.eqb_spec (oe_mnt_get_write_access e (of_path f)) 0); simpl;
    [|left; split; [done|]; destruct r; refs_eq].
  destruct (flag_set (of_mode f) FMODE_BACKING); [|by right].
  destruct (Z.eqb_spec (oe_backing_mnt_get_write_access e (of_path f)) 0); simpl; [by right|].
  left. split; [done|]. destruct r; refs_eq.
Qed.

(** A new file: not open, no accesses yet. *)
Definition fresh (f : ofile) : Prop :=
  flag_set (of_mode f) (Z.lor FMODE_WRITER (Z.lor FMODE_PATH FMODE_OPENED)) = false.

Lemma fresh_bits f : fresh f ->
  flag_set (of_mode f) FMODE_WRITER = false /\ flag_set (of_mode f) FMODE_PATH = false /\
  flag_set (of_mode f) FMODE_OPENED = false.
Proof. unfold fresh. rewrite !flag_two. intros [? [? ?]%orb_false_iff]%orb_false_iff. done. Qed.

(** The outcome of an open: failed, with nothing held and the file cut loose, or the file
    is open and holds its references. *)
Definition open_outcome (r : refs) (res : Z * ofile * refs) : Prop :=
  let '(err, f', r') := res in
  (err <> 0 /\ flag_set (of_mode f') FMODE_OPENED = false /\ r' = r /\
     of_path f' = None /\ of_inode f' = None) \/
  (flag_set (of_mode f') FMODE_OPENED = true /\ r' = holds 1 (of_mode f') r /\
     (err = 0 \/ (err = - EINVAL /\ flag_set (of_flags f') O_DIRECT = true))).

(** Label [cleanup_all]: the methods, the accesses and the path go back. *)
Lemma cleanup_all_spec err f m op r :
  err <> 0 -> of_op f = Some op -> Z.land (of_mode f) KEPT = Z.land m KEPT ->
  flag_set m FMODE_OPENED = false ->
  open_outcome r (cleanup_all e err f (add_fops 1 (access 1 m (add_path 1 r)))).
Proof.
  intros Herr Hop Hm Ho. unfold cleanup_all, cleanup_file. rewrite Hop. left.
  split; [case_match; [done|]; lia|].
  split; [cbn; by rewrite (kept_flag _ m FMODE_OPENED)|]. split; [|done].
  rewrite put_access, (kept_access (-1) (of_mode f) m) by done.
  rewrite (fops_back 1), access_back. apply (path_back 1).
Qed.

(** The bits a successful open adds. *)
Lemma finish_mode_kept f i :
  Z.land (of_mode (finish_mode e f i)) KEPT = Z.land (Z.lor (of_mode f) FMODE_OPENED) KEPT.
Proof.
  unfold finish_mode. cbv zeta. cbn [of_mode with_flags].
  assert (Hor : forall b x g, Z.land x KEPT = 0 ->
    Z.land (of_mode (if b : bool then or_mode x g else g)) KEPT = Z.land (of_mode g) KEPT).
  { intros [] x g Hx; [|done]. by apply kept_or. }
  rewrite (Hor (oe_direct_IO e i)) by done.
  assert (Hl : forall (b : bool) g, Z.land (of_mode (if b
    then with_mode (Z.land (of_mode g) (Z.lnot FMODE_LSEEK)) g else g)) KEPT = Z.land (of_mode g) KEPT).
  { intros [] g; [|done]. cbn. by rewrite <- Z.land_assoc. }
  rewrite Hl, !Hor by done. done.
Qed.

Lemma take_access_spec f i r :
  fresh f ->
  let '(err, f1, r1) := take_access e f i r in
  of_flags f1 = of_flags f /\
  ((err <> 0 /\ of_mode f1 = of_mode f /\ r1 = r) \/
   (err = 0 /\ r1 = access 1 (of_mode f1) r /\ flag_set (of_mode f1) FMODE_PATH = false /\
      flag_set (of_mode f1) FMODE_OPENED = false)).
Proof.
  intros (Hw & Hp & Ho)%fresh_bits. unfold take_access. rewrite readonly_mode.
  destruct (flag_set (of_mode f) FMODE_READ && negb (flag_set (of_mode f) FMODE_WRITE)) eqn:Hro.
  { split; [done|]. right. split; [done|]. split; [|done]. unfold access. by rewrite Hro. }
  assert (Hplain : access 1 (of_mode f) r = r) by (unfold access; by rewrite Hro, Hw).
  destruct (flag_set (of_mode f) FMODE_WRITE) eqn:HW; simpl;
    [|split; [done|]; right; by rewrite Hplain].
  destruct (special_file (oe_kind e i)); simpl; [split; [done|]; right; by rewrite Hplain|].
  pose proof (get_write_spec f i r) as Hg. destruct (file_get_write_access e f i r) as [err r'].
  destruct Hg as [[Herr ->]|[-> ->]]; simpl.
  - replace (negb (err =? 0)) with true by lia. split; [done|]. by left.
  - split; [done|]. right. split; [done|]. unfold access, or_mode, with_mode. cbn [of_mode].
    rewrite !flag_lor, HW, Hp, Ho. cbn [orb negb]. rewrite andb_false_r.
    change (flag_set FMODE_WRITER FMODE_WRITER) with true.
    change (flag_set FMODE_WRITER FMODE_BACKING) with false. by rewrite orb_true_r, orb_false_r.
Qed.

(** From the methods on: everything after the accesses were taken. *)
Lemma dentry_open_outcome f i o r :
  fresh f -> open_outcome r (do_dentry_open e f i o r).
Proof.
  intros Hfr. unfold do_dentry_open. cbv zeta. set (f0 := with_inode (Some i) f).
  assert (Hf0 : fresh f0) by done. clearbody f0. clear Hfr f.
  destruct (flag_set (of_flags f0) O_PATH).
  { right. split; [done|]. split; [|by left]. cbn. unfold holds, access. done. }
  pose proof (take_access_spec f0 i (add_path 1 r) Hf0) as Hta.
  destruct (take_access e f0 i (add_path 1 r)) as [[err f1] r1].
  destruct Hta as [_ [(Herr & Hm & ->)|(-> & -> & Hp & Ho)]].
  { replace (negb (err =? 0)) with true by lia. left. split; [done|]. cbn. rewrite Hm.
    split; [by apply fresh_bits in Hf0 as (_ & _ & ?)|]. split; [apply (path_back 1)|done]. }
  cbn [negb Z.eqb]. change (0 =? 0) with true. cbn [negb].
  set (kind := oe_kind e i).
  set (f2 := with_op (oe_i_fop e i) (if bool_decide (kind = Regular) || bool_decide (kind = Directory)
    then or_mode FMODE_ATOMIC_POS f1 else f1)).
  assert (Hk2 : Z.land (of_mode f2) KEPT = Z.land (of_mode f1) KEPT).
  { unfold f2. destruct (bool_decide _ || _); [by apply kept_or|done]. }
  assert (Hop2 : of_op f2 = oe_i_fop e i) by done. clearbody f2. rewrite Hop2.
  destruct (oe_i_fop e i) as [op|].
  2: { unfold cleanup_all, cleanup_file. rewrite Hop2. left. split; [done|].
       split; [cbn; by rewrite (kept_flag _ (of_mode f1) FMODE_OPENED)|]. split; [|done].
       rewrite put_access, (kept_access (-1) _ (of_mode f1)), access_back by done. apply (path_back 1). }
  destruct (Z.eqb_spec (oe_security_file_open e f2) 0); cbn [negb]; [|by eapply cleanup_all_spec].
  destruct (Z.eqb_spec (oe_break_lease e i (of_flags f2)) 0); cbn [negb]; [|by eapply cleanup_all_spec].
  set (f3 := or_mode (Z.lor FMODE_LSEEK (Z.lor FMODE_PREAD FMODE_PWRITE)) f2).
  assert (Hk3 : Z.land (of_mode f3) KEPT = Z.land (of_mode f1) KEPT)
    by (rewrite <- Hk2; by apply kept_or).
  assert (Hop3 : of_op f3 = Some op) by done. clearbody f3.
  match goal with |- context [let '(_, _) := ?x in _] => destruct x as [err f4] eqn:Hopen end.
  assert (Hk4 : Z.land (of_mode f4) KEPT = Z.land (of_mode f1) KEPT /\ is_Some (of_op f4)).
  { destruct (bool_decide _ || op_open op); [|by simplify_eq; split; [|by eexists]].
    pose proof (open_keeps o i f3) as Hkeep. pose proof (open_ops o i f3) as Hops.
    destruct (oe_open_method e o i f3) as [[er md] op']. simplify_eq. cbn in *. by rewrite Hkeep. }
  destruct Hk4 as [Hk4 [op4 Hop4]]. clear Hopen.
  destruct (Z.eqb_spec err 0) as [->|]; cbn [negb]; [|by eapply cleanup_all_spec].
  assert (Hout : flag_set (of_mode (finish_mode e f4 i)) FMODE_OPENED = true /\
    add_fops 1 (access 1 (of_mode f1) (add_path 1 r)) = holds 1 (of_mode (finish_mode e f4 i)) r).
  { pose proof (finish_mode_kept f4 i) as Hkf.
    split; [rewrite (kept_flag _ _ FMODE_OPENED eq_refl Hkf), flag_lor; by rewrite orb_true_r|].
    rewrite (kept_holds 1 _ _ r Hkf). unfold holds.
    rewrite flag_lor, (kept_flag (of_mode f4) (of_mode f1) FMODE_PATH), Hp by done. cbn [orb].
    change (flag_set FMODE_OPENED FMODE_PATH) with false. cbv iota.
    rewrite access_opened, (kept_access 1 (of_mode f4) (of_mode f1)) by done.
    change (add_path 1 (add_fops 1 r)) with (add_fops 1 (add_path 1 r)). by rewrite access_add_fops. }
  destruct Hout as [Hf Hr]. rewrite Hr.
  destruct (_ && _) eqn:Hd; right; (split; [done|]); (split; [done|]); [right|by left].
  split; [done|]. by apply andb_true_iff in Hd as [? _].
Qed.

(** Freeing a failed or finished open gives back what it holds. *)
Lemma fput_outcome r err f' r' :
  open_outcome (add_files 1 r) (err, f', r') -> oe_fput e f' r' = r.
Proof.
  intros [(_ & Ho & -> & _)|(Ho & -> & _)]; rewrite fput_spec, Ho.
  - destruct r. refs_eq.
  - rewrite holds_back. destruct r. refs_eq.
Qed.

(** What the callers that allocate the file get: an error and nothing held, or an open
    file whose references [fput] gives back. *)
Definition opened (r : refs) (res : (Z + ofile) * refs) : Prop :=
  match res with
  | (inl err, r') => err <> 0 /\ r' = r
  | (inr f, r') => flag_set (of_mode f) FMODE_OPENED = true /\ oe_fput e f r' = r
  end.

Lemma opened_or_put_spec r res :
  open_outcome (add_files 1 r) res -> opened r (opened_or_put e res).
Proof.
  destruct res as [[err f'] r']. intros Ho. pose proof (fput_outcome _ _ _ _ Ho) as Hput.
  unfold opened_or_put. destruct (Z.eqb_spec err 0) as [->|]; simpl; [|done].
  destruct Ho as [[? _]|[? _]]; done.
Qed.

(** C17. Opening is all or nothing.  [do_dentry_open] leaves a file either not open, with
    every reference and access it took given back on whichever error path, or open and
    holding exactly the references of its mode, also when it then fails for direct I/O;
    so that an open that fails leaves nothing behind, and closing one that succeeded
    gives back everything. *)
Theorem open_all_or_nothing (f : ofile) (path inode flags mode : Z) (o : option Z) (r : refs) :
  (forall err, oe_alloc_empty_file e flags = inl err -> err <> 0) ->
  (forall err, oe_alloc_empty_file_noaccount e flags = inl err -> err <> 0) ->
  (fresh f -> open_outcome r (do_dentry_open e f inode o r)) /\
  opened r (dentry_open e path inode flags r) /\
  opened r (dentry_create e path inode flags mode r) /\
  opened r (kernel_file_open e path flags inode r).
Proof.
  intros Ha Hn. split; [apply dentry_open_outcome|].
  assert (Hvo : forall f0, oe_alloc_empty_file e flags = inr f0 \/ oe_alloc_empty_file_noaccount e flags = inr f0 ->
    fresh (with_path (Some path) f0)) by (intros f0 Hf; exact (alloc_fresh flags f0 Hf)).
  unfold dentry_open, dentry_create, kernel_file_open.
  split; [|split].
  - destruct (oe_alloc_empty_file e flags) as [err|f0]; [by split; [apply Ha|]|].
    apply opened_or_put_spec, dentry_open_outcome. apply Hvo. by left.
  - destruct (oe_alloc_empty_file e flags) as [err|f0] eqn:Hal; [by split; [apply Ha|]|].
    destruct (Z.eqb_spec (oe_vfs_create e path mode) 0) as [_|Hne].
    + apply opened_or_put_spec, dentry_open_outcome, Hvo. by left.
    + unfold opened_or_put. replace (negb (oe_vfs_create e path mode =? 0)) with true by lia.
      split; [done|]. rewrite fput_spec.
      destruct (fresh_bits _ (Hvo f0 (or_introl eq_refl))) as (_ & _ & Ho). cbn in Ho. rewrite Ho.
      destruct r. refs_eq.
  - destruct (oe_alloc_empty_file_noaccount e flags) as [err|f0]; [by split; [apply Hn|]|].
    apply opened_or_put_spec, dentry_open_outcome. apply Hvo. by right.
Qed.
End spec.
End RefsSpec.

Module FdSpec.
Import File PathCalls OpenFlags FdTable FlagsSpec.

(** The documented behaviour of the descriptor allocator (an unused number, or an error),
    of name copying and of the path walk (an error, or a new open file). *)
Class FdOk (e : fd_env) : Prop := {
  fd_unused fl tb rs :
    0 <= get_unused_fd_flags e fl tb rs ->
    tb !! get_unused_fd_flags e fl tb rs = None /\ get_unused_fd_flags e fl tb rs ∉ rs;
  name_err fn err : getname e fn = inl err -> err < 0;
  open_err dfd nm op t err : do_filp_open e dfd nm op t = inl err -> err < 0;
  open_new dfd nm op t f : do_filp_open e dfd nm op t = inr f -> frefs t !! f = None;
  how_err how n err : copy_how e how n = inl err -> err < 0
}.

Lemma build_err how err : build_open_flags how = inl err -> err < 0.
Proof. unfold build_open_flags. intros H. repeat case_match; simplify_eq; done. Qed.

Section spec.
Context (e : fd_env) {ok : FdOk e}.

(** A failed open leaves the table as it was; a successful one adds one descriptor that
    was free, and closing it restores the table. *)
Definition opened_fd (t : ftab) (res : Z * ftab) : Prop :=
  let '(fd, t') := res in
  (fd < 0 /\ t' = t) \/
  (0 <= fd /\ tbl t !! fd = None /\ fd ∉ resv t /\
   (exists f, tbl t' = <[fd := f]> (tbl t) /\ frefs t !! f = None /\ frefs t' = <[f := 1]> (frefs t)) /\
   resv t' = resv t /\ names t' = names t /\ (sys_close e fd t').2 = t /\
   (sys_close e fd (sys_close e fd t').2).1 = - EBADF).

Lemma unreserve (fd : Z) (rs : gset Z) : fd ∉ rs -> ({[fd]} ∪ rs) ∖ {[fd]} = rs.
Proof. intros. set_solver. Qed.

Lemma openat2_spec dfd fn how t : opened_fd t (do_sys_openat2 e dfd fn how t).
Proof.
  unfold do_sys_openat2. destruct (build_open_flags how) as [err|op] eqn:Hb;
    [left; split; [by eapply build_err|done]|].
  destruct (getname e fn) as [err|nm] eqn:Hn; [left; split; [by eapply name_err|done]|].
  cbv zeta. cbn [tbl resv set_names names].
  set (fd := get_unused_fd_flags e (h_flags how) (tbl t) (resv t)).
  destruct (Z.leb_spec 0 fd) as [Hfd|Hfd].
  2: { left. split; [done|]. destruct t. unfold set_names. simpl. f_equal. lia. }
  destruct (fd_unused (h_flags how) (tbl t) (resv t) Hfd) as [Hfree Hres]. fold fd in Hfree, Hres.
  set (t1 := reserve fd _). destruct (do_filp_open e dfd nm op t1) as [err|f] eqn:Ho.
  - left. split; [by eapply open_err|]. destruct t. unfold set_names, put_unused_fd. simpl.
    rewrite unreserve by done. f_equal. lia.
  - right. apply open_new in Ho. cbn in Ho.
    assert (Hclose : (sys_close e fd (set_names (names (fd_install fd f t1) - 1) (fd_install fd f t1))).2 = t).
    { unfold sys_close, file_close_fd. cbn [tbl set_names fd_install t1 reserve].
      rewrite lookup_insert_eq. cbn. unfold fput. cbn. rewrite Ho. cbn. rewrite lookup_insert_eq. cbn.
      rewrite !delete_insert_id, unreserve by done. destruct t. cbn. f_equal. lia. }
    split; [done|]. split; [done|]. split; [done|]. split.
    { exists f. split; [done|]. split; [done|]. cbn. by rewrite Ho. }
    split; [cbn; by apply unreserve|]. split; [cbn; lia|]. split; [done|].
    rewrite Hclose. unfold sys_close, file_close_fd. by rewrite Hfree.
Qed.

(** C18. Descriptors are neither leaked nor reused: each of [openat], [openat2] and
    [creat] either fails and leaves the descriptor table, the reservations and the held
    names as they were, or returns a descriptor that was free and now names a new open
    file; [close] then restores the table and frees the file, and a second [close] fails
    with [-EBADF]. *)
Theorem open_close_roundtrip (dfd fn flags mode how usize : Z) (t : ftab) :
  opened_fd t (sys_openat e dfd fn flags mode t) /\
  opened_fd t (sys_openat2 e dfd fn how usize t) /\
  opened_fd t (sys_creat e fn mode t).
Proof.
  split; [apply openat2_spec|]. split; [|apply openat2_spec].
  unfold sys_openat2. case_match; [by left|].
  destruct (copy_how e how usize) as [err|tmp] eqn:Hc; [left; split; [by eapply how_err|done]|].
  apply openat2_spec.
Qed.
End spec.
End FdSpec.

(** ** Concrete instances *)

Module OpenDemo.
Import File PathCalls OpenFlags DentryOpen FdTable FlagsSpec RefsSpec FdSpec.

(** Inode 7 is a regular file that may not be written, 9 a regular file whose mount is
    read-only, others can be opened. *)
Definition demo_open : open_env := {|
  oe_kind _ := Regular;
  oe_get_write_access i := if i =? 7 then - ETXTBSY else 0;
  oe_mnt_get_write_access p := if bool_decide (p = Some 9) then - EROFS else 0;
  oe_backing_mnt_get_write_access _ := 0;
  oe_i_fop _ := Some (Fops true true true true);
  oe_security_file_open _ := 0; oe_break_lease _ _ := 0;
  oe_open_method _ i f := (if i =? 11 then - ENODEV else 0, of_mode f, Some (Fops true true true true));
  oe_direct_IO _ := false;
  oe_alloc_empty_file fl :=
    inr (OFile (Z.land (fl + 1) (Z.lor FMODE_READ FMODE_WRITE)) fl None None None);
  oe_alloc_empty_file_noaccount fl :=
    inr (OFile (Z.land (fl + 1) (Z.lor FMODE_READ FMODE_WRITE)) fl None None None);
  oe_put_file_access f r := access (-1) (of_mode f) r;
  oe_fput f r :=
    add_files (-1) (if flag_set (of_mode f) FMODE_OPENED then holds (-1) (of_mode f) r else r);
  oe_vfs_create _ _ := 0
|}.

#[export] Instance demo_open_ok : OpenOk demo_open.
Proof.
  split; try done.
  intros fl f Hf. assert (f = OFile (Z.land (fl + 1) (Z.lor FMODE_READ FMODE_WRITE)) fl None None None)
    as -> by (destruct Hf; cbn in *; congruence).
  cbn. by apply flag_land_out.
Qed.

(** Opening inode 7 for writing fails with everything given back; inode 20 opens. *)
Lemma open_all_or_nothing_witness :
  let r := Refs 0 0 0 0 0 0 0 in
  dentry_open demo_open 3 7 1 r = (inl (- ETXTBSY), r) /\
  opened demo_open r (dentry_open demo_open 3 20 2 r) /\
  opened demo_open r (kernel_file_open demo_open 3 2 11 r).
Proof.
  split; [by vm_compute|].
  destruct (open_all_or_nothing demo_open (OFile 1 0 None None None) 3 20 2 0 None (Refs 0 0 0 0 0 0 0))
    as (_ & H1 & _); [done|done|].
  destruct (open_all_or_nothing demo_open (OFile 1 0 None None None) 3 11 2 0 None (Refs 0 0 0 0 0 0 0))
    as (_ & _ & _ & H2); [done|done|].
  split; [exact H1|exact H2].
Defined.

(** A number above those in use. *)
Definition above (l : list Z) : Z := foldr Z.max 2 l + 1.

Lemma above_spec l x : x ∈ l -> x < above l.
Proof.
  unfold above. induction l as [|y l IH]; intros Hx; [by apply elem_of_nil in Hx|].
  simpl. apply elem_of_cons in Hx as [->|Hx]; [lia|]. specialize (IH Hx). lia.
Qed.

(** File name 0 faults, name 5 is not there. *)
Definition demo_fd : fd_env := {|
  getname fn := if fn =? 0 then inl (- EFAULT) else inr fn;
  getname_kernel fn := inr fn;
  get_unused_fd_flags _ tb rs := above ((map_to_list tb).*1 ++ elements rs);
  do_filp_open _ nm _ t := if nm =? 5 then inl (- ENXIO) else inr (above (map_to_list (frefs t)).*1);
  do_file_open_root _ nm _ := inr nm;
  copy_how _ _ := inr (OpenHow 0x41 0x1a4 0);
  flush _ := Some (- ERESTARTSYS);
  force_o_largefile := true;
  close_range _ _ _ t := (0, t);
  capable_tty := false
|}.

Lemma above_map (m : gmap Z Z) : m !! above (map_to_list m).*1 = None.
Proof.
  destruct (m !! above (map_to_list m).*1) as [v|] eqn:Hm; [|done]. exfalso.
  apply elem_of_map_to_list in Hm. assert (above (map_to_list m).*1 < above (map_to_list m).*1); [|lia].
  apply above_spec, list_elem_of_fmap. by eexists (_, v).
Qed.

#[export] Instance demo_fd_ok : FdOk demo_fd.
Proof.
  split.
  - intros fl tb rs _. cbn. set (l := (map_to_list tb).*1 ++ elements rs). split.
    + destruct (tb !! above l) as [v|] eqn:Hm; [|done]. exfalso. apply elem_of_map_to_list in Hm.
      assert (above l < above l); [|lia]. apply above_spec, elem_of_app. left.
      apply list_elem_of_fmap. by eexists (_, v).
    + intros Hin. assert (above l < above l); [|lia]. apply above_spec, elem_of_app. right.
      by apply elem_of_elements.
  - intros fn err. cbn. destruct (fn =? 0); [|done]. by intros [= <-].
  - intros dfd nm op t err. cbn. destruct (nm =? 5); [|done]. by intros [= <-].
  - intros dfd nm op t f. cbn. destruct (nm =? 5); [done|]. intros [= <-]. apply above_map.
  - done.
Qed.

Definition demo_tab : ftab := Ftab {[0 := 1; 1 := 1; 2 := 1]} ∅ 0 {[1 := 3]}.

Lemma open_close_roundtrip_witness :
  (sys_creat demo_fd 8 0x1a4 demo_tab).1 = 3 /\ (sys_creat demo_fd 5 0x1a4 demo_tab).1 = - ENXIO /\
  opened_fd demo_fd demo_tab (sys_creat demo_fd 8 0x1a4 demo_tab).
Proof.
  split; [by vm_compute|]. split; [by vm_compute|].
  exact (proj2 (proj2 (open_close_roundtrip demo_fd AT_FDCWD 8 0 0x1a4 1 24 demo_tab))).
Defined.
End OpenDemo.
