(* ===== verification/Task.v ===== *)
(** * Processes: priorities, process groups and sessions ([kernel/sys.c])

    The table of tasks as [setpriority], [setpgid], [setsid] and their readers see it, and
    the part of [copy_process] ([kernel/fork.c]) that enters a new task.  What belongs to
    a whole process (its group, its session, whether it leads a session) is kept once per
    process, in its [signal_struct], and shared by its threads.  Process id namespaces,
    the scheduler, capabilities, the user table and the security hooks are kernel code
    outside the repository: fields of [task_env]. *)
From S2P Require Import Prelude.

Module Task.

Definition MIN_NICE : Z := -20.
Definition MAX_NICE : Z := 19.
Definition PRIO_PROCESS : Z := 0.
Definition PRIO_PGRP : Z := 1.
Definition PRIO_USER : Z := 2.
Definition PF_FORKNOEXEC : Z := 0x40.
(** [PF_SUPERPRIV|PF_WQ_WORKER|PF_IDLE|PF_NO_SETAFFINITY], which a child does not inherit. *)
Definition PF_CLEARED : Z := Z.lor (Z.lor 0x100 0x20) (Z.lor 0x2 0x4000000).
Definition CAP_SYS_NICE : Z := 23.
Definition CLONE_THREAD : Z := 0x10000.
Definition CLONE_PARENT : Z := 0x8000.

(** ** Data *)

(** A [struct pid] is named by its number in the initial namespace, and so is a task;
    [real_parent] is a task and [tgid] the pid of the [group_leader]. *)
Record task := MkTask {
  pid : Z; tgid : Z; real_parent : Z; tflags : Z; nice : Z; t_uid : Z; t_euid : Z
}.

Record signal := MkSignal { s_pgrp : Z; s_session : Z; leader : bool; tty : option Z }.

(** [procs] lists the live tasks, oldest first; [sig] is indexed by thread group.  [user_refs] counts the references taken by [find_user];
    [announced] the sessions told to [proc_sid_connector]. *)
Record table := Table {
  procs : list Z; task_of : Z -> task; sig : Z -> signal; user_refs : Z; announced : list Z
}.

Definition set_nice (n : Z) (t : task) : task :=
  MkTask (pid t) (tgid t) (real_parent t) (tflags t) n (t_uid t) (t_euid t).
Definition set_pgrp (g : Z) (x : signal) : signal := MkSignal g (s_session x) (leader x) (tty x).
Definition set_session (g : Z) (x : signal) : signal := MkSignal (s_pgrp x) g (leader x) (tty x).
Definition set_leader (x : signal) : signal := MkSignal (s_pgrp x) (s_session x) true (tty x).
Definition clear_tty (x : signal) : signal := MkSignal (s_pgrp x) (s_session x) (leader x) None.

Definition upd_task (p : Z) (g : task -> task) (s : table) : table :=
  Table (procs s) (fun i => if i =? p then g (task_of s i) else task_of s i) (sig s)
        (user_refs s) (announced s).
Definition upd_sig (tg : Z) (g : signal -> signal) (s : table) : table :=
  Table (procs s) (task_of s) (fun i => if i =? tg then g (sig s i) else sig s i)
        (user_refs s) (announced s).
Definition add_user_refs (n : Z) (s : table) : table :=
  Table (procs s) (task_of s) (sig s) (user_refs s + n) (announced s).
Definition announce (p : Z) (s : table) : table :=
  Table (procs s) (task_of s) (sig s) (user_refs s) (p :: announced s).

(** The kernel around the calls.  [pid_vnr] is the number of a pid in the caller's
    namespace, [0] where it has none, and [find_vpid] its inverse; [hlist] is the order in
    which the list of a process group holds its members. *)
Record task_env := {
  pid_vnr : Z -> Z;
  find_vpid : Z -> option Z;
  hlist : list Z -> list Z;
  ns_capable : Z -> Z -> bool;             (* over the namespace of this task, capability *)
  can_nice : Z -> Z -> bool;
  security_task_setnice : Z -> Z -> Z;
  security_task_setpgid : Z -> Z -> Z;
  security_task_getpgid : Z -> Z;
  security_task_getsid : Z -> Z;
  make_kuid : Z -> Z;
  find_user : Z -> bool
}.

Section calls.
Context (e : task_env).
Implicit Types s : table.

(** ** The table *)

Definition group_leader s (p : Z) : Z := tgid (task_of s p).
Definition signal_of s (p : Z) : signal := sig s (tgid (task_of s p)).
Definition task_pgrp s (p : Z) : Z := s_pgrp (signal_of s p).
Definition task_session s (p : Z) : Z := s_session (signal_of s p).
Definition thread_group_leader s (p : Z) : bool := tgid (task_of s p) =? p.
Definition same_thread_group s (p q : Z) : bool := tgid (task_of s p) =? tgid (task_of s q).

Definition find_task_by_vpid (nr : Z) s : option Z :=
  match find_vpid e nr with
  | Some p => if bool_decide (p ∈ procs s) then Some p else None
  | None => None
  end.

(** The thread group leaders on the list of a process group, and the first of them. *)
Definition pgrp_tasks s (g : Z) : list Z :=
  hlist e (filter (fun p => thread_group_leader s p = true /\ task_pgrp s p = g) (procs s)).
Definition pid_task_pgid s (g : option Z) : option Z :=
  match g with Some g => head (pgrp_tasks s g) | None => None end.

(** [do_each_pid_thread]: every thread of every process of the group. *)
Definition threads s (l : Z) : list Z := filter (fun p => tgid (task_of s p) = l) (procs s).
Definition each_pid_thread s (g : option Z) : list Z :=
  match g with Some g => pgrp_tasks s g ≫= threads s | None => [] end.

(** ** Priorities *)

Definition nice_to_rlimit (n : Z) : Z := MAX_NICE - n + 1.

Definition set_user_nice (p n : Z) s : table :=
  if (n <? MIN_NICE) || (MAX_NICE <? n) then s else upd_task p (set_nice n) s.

Definition set_one_prio_perm (cur p : Z) s : bool :=
  if (t_uid (task_of s p) =? t_euid (task_of s cur)) || (t_euid (task_of s p) =? t_euid (task_of s cur))
  then true
  else if ns_capable e p CAP_SYS_NICE then true
  else false.

Definition set_one_prio (cur p niceval error : Z) s : Z * table :=
  if negb (set_one_prio_perm cur p s) then (- EPERM, s)
  else if (niceval <? nice (task_of s p)) && negb (can_nice e p niceval) then (- EACCES, s)
  else
    let no_nice := security_task_setnice e p niceval in
    if negb (no_nice =? 0) then (no_nice, s)
    else
      let error := if error =? - ESRCH then 0 else error in
      (error, set_user_nice p niceval s).

(** The loops over [p]. *)
Definition set_prio_loop (cur niceval : Z) (l : list Z) (error : Z) s : Z * table :=
  foldl (fun r p => set_one_prio cur p niceval r.1 r.2) (error, s) l.

(** The user a [PRIO_USER] call is about, [None] when it has no processes, and the
    state with the reference [find_user] takes. *)
Definition prio_user (cur who : Z) s : option Z * table :=
  let uid := make_kuid e who in
  if who =? 0 then (Some (t_uid (task_of s cur)), s)
  else if negb (uid =? t_uid (task_of s cur)) then
    if find_user e uid then (Some uid, add_user_refs 1 s) else (None, s)
  else (Some uid, s).
Definition free_user (cur uid : Z) s : table :=
  if negb (uid =? t_uid (task_of s cur)) then add_user_refs (-1) s else s.

(** [for_each_process_thread], process after process, with its condition. *)
Definition for_each_process_thread s : list Z :=
  filter (fun p => thread_group_leader s p = true) (procs s) ≫= threads s.
Definition user_threads (uid : Z) s : list Z :=
  filter (fun p => t_uid (task_of s p) = uid /\ pid_vnr e p <> 0) (for_each_process_thread s).

Definition setpriority (cur which who niceval : Z) s : Z * table :=
  if (PRIO_USER <? which) || (which <? PRIO_PROCESS) then (- EINVAL, s)
  else
    let niceval := if niceval <? MIN_NICE then MIN_NICE else niceval in
    let niceval := if MAX_NICE <? niceval then MAX_NICE else niceval in
    if which =? PRIO_PROCESS then
      match (if negb (who =? 0) then find_task_by_vpid who s else Some cur) with
      | Some p => set_one_prio cur p niceval (- ESRCH) s
      | None => (- ESRCH, s)
      end
    else if which =? PRIO_PGRP then
      let pgrp := if negb (who =? 0) then find_vpid e who else Some (task_pgrp s cur) in
      set_prio_loop cur niceval (each_pid_thread s pgrp) (- ESRCH) s
    else
      match prio_user cur who s with
      | (None, s) => (- ESRCH, s)
      | (Some uid, s) =>
          let '(error, s) := set_prio_loop cur niceval (user_threads uid s) (- ESRCH) s in
          (error, free_user cur uid s)
      end.

Definition get_one_prio s (retval p : Z) : Z :=
  let niceval := nice_to_rlimit (nice (task_of s p)) in
  if retval <? niceval then niceval else retval.

Definition getpriority (cur which who : Z) s : Z * table :=
  if (PRIO_USER <? which) || (which <? PRIO_PROCESS) then (- EINVAL, s)
  else if which =? PRIO_PROCESS then
    match (if negb (who =? 0) then find_task_by_vpid who s else Some cur) with
    | Some p => (get_one_prio s (- ESRCH) p, s)
    | None => (- ESRCH, s)
    end
  else if which =? PRIO_PGRP then
    let pgrp := if negb (who =? 0) then find_vpid e who else Some (task_pgrp s cur) in
    (foldl (get_one_prio s) (- ESRCH) (each_pid_thread s pgrp), s)
  else
    match prio_user cur who s with
    | (None, s) => (- ESRCH, s)
    | (Some uid, s) =>
        (foldl (get_one_prio s) (- ESRCH) (user_threads uid s), free_user cur uid s)
    end.

(** ** Ids *)

Definition getpid (cur : Z) s : Z := pid_vnr e (tgid (task_of s cur)).
Definition gettid (cur : Z) s : Z := pid_vnr e cur.
Definition getppid (cur : Z) s : Z := pid_vnr e (tgid (task_of s (real_parent (task_of s cur)))).

(** ** Process groups and sessions *)

(** [change_pid] for the two kinds a process has one of. *)
Definition change_pgrp (p g : Z) s : table := upd_sig (tgid (task_of s p)) (set_pgrp g) s.
Definition change_session (p g : Z) s : table := upd_sig (tgid (task_of s p)) (set_session g) s.

(** The caller may act on [p]: its own child, of its session, before an [exec], or itself. *)
Definition setpgid_target (gl p : Z) s : Z :=
  if same_thread_group s (real_parent (task_of s p)) gl then
    if negb (task_session s p =? task_session s gl) then - EPERM
    else if negb (flag_set (tflags (task_of s p)) PF_FORKNOEXEC) then - EACCES
    else 0
  else if negb (p =? gl) then - ESRCH
  else 0.

(** The group to join: a new one named after [p], or a group of the caller's session. *)
Definition setpgid_group (gl p vpid vpgid : Z) s : option Z :=
  if negb (vpgid =? vpid) then
    let pgrp := find_vpid e vpgid in
    match pid_task_pgid s pgrp with
    | Some g => if negb (task_session s g =? task_session s gl) then None else pgrp
    | None => None
    end
  else Some p.

Definition setpgid (cur vpid vpgid : Z) s : Z * table :=
  let gl := group_leader s cur in
  let vpid := if vpid =? 0 then pid_vnr e gl else vpid in
  let vpgid := if vpgid =? 0 then vpid else vpgid in
  if vpgid <? 0 then (- EINVAL, s)
  else match find_task_by_vpid vpid s with
  | None => (- ESRCH, s)
  | Some p =>
      if negb (thread_group_leader s p) then (- EINVAL, s)
      else
        let err := setpgid_target gl p s in
        if negb (err =? 0) then (err, s)
        else if leader (signal_of s p) then (- EPERM, s)
        else match setpgid_group gl p vpid vpgid s with
        | None => (- EPERM, s)
        | Some pgrp =>
            let err := security_task_setpgid e p vpgid in
            if negb (err =? 0) then (err, s)
            else (0, if negb (task_pgrp s p =? pgrp) then change_pgrp p pgrp s else s)
        end
  end.

Definition do_getpgid (cur vpid : Z) s : Z :=
  if vpid =? 0 then pid_vnr e (task_pgrp s cur)
  else match find_task_by_vpid vpid s with
  | None => - ESRCH
  | Some p =>
      let retval := security_task_getpgid e p in
      if negb (retval =? 0) then retval else pid_vnr e (task_pgrp s p)
  end.

Definition getpgid (cur vpid : Z) s : Z := do_getpgid cur vpid s.
Definition getpgrp (cur : Z) s : Z := do_getpgid cur 0 s.

Definition getsid (cur vpid : Z) s : Z :=
  if vpid =? 0 then pid_vnr e (task_session s cur)
  else match find_task_by_vpid vpid s with
  | None => - ESRCH
  | Some p =>
      let retval := security_task_getsid e p in
      if negb (retval =? 0) then retval else pid_vnr e (task_session s p)
  end.

Definition set_special_pids (cur g : Z) s : table :=
  let curr := group_leader s cur in
  let s := if negb (task_session s curr =? g) then change_session curr g s else s in
  if negb (task_pgrp s curr =? g) then change_pgrp curr g s else s.

Definition ksys_setsid (cur : Z) s : Z * table :=
  let gl := group_leader s cur in
  let sid := gl in
  let session := pid_vnr e sid in
  let '(err, s) :=
    if leader (signal_of s gl) then (- EPERM, s)
    else if bool_decide (is_Some (pid_task_pgid s (Some sid))) then (- EPERM, s)
    else
      let s := upd_sig (tgid (task_of s gl)) set_leader s in
      let s := set_special_pids cur sid s in
      let s := upd_sig (tgid (task_of s gl)) clear_tty s in
      (session, s) in
  (err, if 0 <? err then announce gl s else s).

Definition setsid (cur : Z) s : Z * table := ksys_setsid cur s.

(** ** A new task

    What [copy_process] gives the new task [p] under the clone flags [fl]: its thread
    group, its parent, its flags, and, when it is a process of its own, the process group,
    the session and the terminal of the caller.  Its niceness and credentials are those
    of the caller, which the scheduler and a new user namespace may change. *)
Definition child_tgid (cur p fl : Z) s : Z :=
  if flag_set fl CLONE_THREAD then tgid (task_of s cur) else p.
Definition child_parent (cur fl : Z) s : Z :=
  if flag_set fl (Z.lor CLONE_PARENT CLONE_THREAD) then real_parent (task_of s cur) else cur.
Definition child_flags (fl : Z) : Z := Z.lor (Z.ldiff fl PF_CLEARED) PF_FORKNOEXEC.

Definition attach_new_task (cur p fl : Z) s : table :=
  let me := task_of s cur in
  let tg := child_tgid cur p fl s in
  let t := MkTask p tg (child_parent cur fl s) (child_flags (tflags me)) (nice me)
                  (t_uid me) (t_euid me) in
  let s := if tg =? p
           then upd_sig p (fun _ => MkSignal (task_pgrp s cur) (task_session s cur) false
                                             (tty (signal_of s cur))) s
           else s in
  upd_task p (fun _ => t) (Table (procs s ++ [p]) (task_of s) (sig s) (user_refs s) (announced s)).
End calls.
End Task.
