(* ===== verification/TaskSpec.v ===== *)
(** * Correctness of priorities, process groups and sessions

    The invariant of the process table over any history of calls, forks and exits; what
    [setpriority] does and that [getpriority] reads it back; what [setpgid] and [setsid]
    do to the groups and sessions. *)
From S2P Require Import Prelude Task.

Module TaskSpec.
Import Task.

(** Documented behaviour of the process id tables and of the security hook for
    priorities, which refuses with [-EPERM] or [-EACCES]. *)
Record env_ok (e : task_env) : Prop := {
  hlist_perm : forall l, hlist e l ≡ₚ l;
  find_vpid_spec : forall nr p, find_vpid e nr = Some p <-> pid_vnr e p = nr /\ nr <> 0;
  setnice_hook : forall p n, security_task_setnice e p n <> - ESRCH
}.

(** ** The invariant *)

(** Every task belongs to a live process; all members of a process group are in one
    session, which is also that of the process the group is named after; the leader of a
    session is the process its session and its process group are named after. *)
Record table_ok (s : table) : Prop := {
  live_leader : forall p, p ∈ procs s ->
    group_leader s p ∈ procs s /\ thread_group_leader s (group_leader s p) = true;
  group_one_session : forall p q, p ∈ procs s -> q ∈ procs s ->
    task_pgrp s p = task_pgrp s q -> task_session s p = task_session s q;
  group_namesake : forall p q, p ∈ procs s -> q ∈ procs s -> thread_group_leader s p = true ->
    task_pgrp s q = p -> task_session s q = task_session s p;
  leader_named : forall p, p ∈ procs s -> leader (signal_of s p) = true ->
    task_session s p = group_leader s p /\ task_pgrp s p = group_leader s p
}.

(** A task leaves: a thread at any time, the leader as the last of its process. *)
Definition release_task (p : Z) (s : table) : table :=
  Table (filter (fun q => q <> p) (procs s)) (task_of s) (sig s) (user_refs s) (announced s).

(** One event: a call of a live task, a fork, an exit, or a change of what this file
    does not govern (parent, flags, niceness, credentials). *)
Inductive step : table -> table -> Prop :=
  | step_setpgid e cur a b s :
      env_ok e -> cur ∈ procs s -> step s (setpgid e cur a b s).2
  | step_setsid e cur s :
      env_ok e -> cur ∈ procs s -> step s (setsid e cur s).2
  | step_setpriority e cur which who n s :
      env_ok e -> cur ∈ procs s -> step s (setpriority e cur which who n s).2
  | step_fork cur p fl s :
      cur ∈ procs s -> p ∉ procs s -> (forall q, q ∈ procs s -> task_pgrp s q <> p) ->
      step s (attach_new_task cur p fl s)
  | step_exit p s :
      (forall q, q ∈ procs s -> q <> p -> group_leader s q <> p) -> step s (release_task p s)
  | step_other p g s :
      (forall t, tgid (g t) = tgid t) -> step s (upd_task p g s).

(** The first process of a system. *)
Definition first_table (t : task) (x : signal) : table := Table [1] (fun _ => t) (fun _ => x) 0 [].

Section sessions.
Context (e : task_env) (He : env_ok e).
Implicit Types s : table.

(** ** The table *)

Lemma elem_pgrp_tasks s g p :
  p ∈ pgrp_tasks e s g <->
  p ∈ procs s /\ thread_group_leader s p = true /\ task_pgrp s p = g.
Proof.
  unfold pgrp_tasks. rewrite (hlist_perm e He). rewrite list_elem_of_filter. tauto.
Qed.

(** What a process shares with its leader. *)
Lemma leader_signal s p :
  table_ok s -> p ∈ procs s -> signal_of s (group_leader s p) = signal_of s p.
Proof.
  intros Hs Hp. destruct (live_leader s Hs p Hp) as [_ Hl].
  unfold thread_group_leader in Hl. apply Z.eqb_eq in Hl.
  unfold signal_of. by rewrite Hl.
Qed.

Lemma pgrp_empty s g p :
  table_ok s -> pid_task_pgid e s (Some g) = None -> p ∈ procs s -> task_pgrp s p <> g.
Proof.
  intros Hs Hh Hp Hg. cbn in Hh. destruct (pgrp_tasks e s g) as [|q l] eqn:El; [|done].
  destruct (live_leader s Hs p Hp) as [Hin Hl].
  assert (Hm : group_leader s p ∈ pgrp_tasks e s g).
  { apply elem_pgrp_tasks. split_and!; [done..|].
    unfold task_pgrp in *. by rewrite leader_signal. }
  rewrite El in Hm. by apply not_elem_of_nil in Hm.
Qed.

Lemma pgrp_head s g q :
  pid_task_pgid e s (Some g) = Some q -> q ∈ procs s /\ task_pgrp s q = g.
Proof.
  cbn. intros Hh. destruct (pgrp_tasks e s g) as [|a l] eqn:El; [done|].
  cbn in Hh. simplify_eq. pose proof (proj1 (elem_pgrp_tasks s g q)) as Hm.
  rewrite El in Hm. destruct Hm as (?&?&?); [apply list_elem_of_here|]. done.
Qed.

Lemma elem_each_pid_thread s g p :
  table_ok s ->
  p ∈ each_pid_thread e s g <->
  p ∈ procs s /\ g = Some (task_pgrp s p).
Proof.
  intros Hs. destruct g as [g|]; cbn; [|split; [by intros ?%not_elem_of_nil|naive_solver]].
  rewrite list_elem_of_bind. unfold threads. setoid_rewrite list_elem_of_filter.
  setoid_rewrite elem_pgrp_tasks. split.
  - intros (l & [Ht Hp] & Hin & Hl & Hg). split; [done|]. f_equal.
    unfold task_pgrp, signal_of in *. unfold thread_group_leader in Hl.
    apply Z.eqb_eq in Hl. rewrite Ht. by rewrite Hl in Hg.
  - intros [Hp Hg]. simplify_eq. exists (group_leader s p).
    destruct (live_leader s Hs p Hp) as [Hin Hl]. split_and!; try done.
    unfold task_pgrp. by rewrite leader_signal.
Qed.

(** ** [setpgid] *)

(** The numbers a call means: [0] stands for the caller, and for the process moved. *)
Definition setpgid_args (cur a b : Z) s : Z * Z :=
  let a := if a =? 0 then pid_vnr e (group_leader s cur) else a in
  (a, if b =? 0 then a else b).

Lemma find_task_spec nr p s :
  find_task_by_vpid e nr s = Some p <-> find_vpid e nr = Some p /\ p ∈ procs s.
Proof.
  unfold find_task_by_vpid. destruct (find_vpid e nr) as [q|]; [|naive_solver].
  case_bool_decide; naive_solver.
Qed.

(** A process the caller may move is of the session of the caller. *)
Lemma setpgid_target_session cur p s :
  table_ok s -> cur ∈ procs s -> thread_group_leader s p = true ->
  setpgid_target (group_leader s cur) p s = 0 ->
  task_session s p = task_session s cur /\
  (p = group_leader s cur \/
   group_leader s (real_parent (task_of s p)) = group_leader s cur /\
   flag_set (tflags (task_of s p)) PF_FORKNOEXEC = true).
Proof.
  intros Hs Hc Hp Ht. destruct (live_leader s Hs cur Hc) as [_ Hl].
  apply Z.eqb_eq in Hl. fold (group_leader s (group_leader s cur)) in Hl.
  assert (Hcs : task_session s (group_leader s cur) = task_session s cur).
  { unfold task_session. by rewrite leader_signal. }
  unfold setpgid_target, same_thread_group in Ht.
  destruct (_ =? _) eqn:E in Ht.
  - destruct (negb _) eqn:E1 in Ht; [done|]. destruct (negb _) eqn:E2 in Ht; [done|].
    apply negb_false_iff in E1, E2. apply Z.eqb_eq in E1, E.
    split; [congruence|]. right. split; [|done]. unfold group_leader in *. congruence.
  - destruct (negb _) eqn:E1 in Ht; [done|]. apply negb_false_iff, Z.eqb_eq in E1.
    subst p. split; [done|by left].
Qed.

Lemma setpgid_group_spec cur p a b g s :
  table_ok s -> cur ∈ procs s -> find_vpid e a = Some p ->
  task_session s p = task_session s cur ->
  setpgid_group e (group_leader s cur) p a b s = Some g ->
  find_vpid e b = Some g /\
  (g = p \/ exists q, q ∈ procs s /\ task_pgrp s q = g /\ task_session s q = task_session s p).
Proof.
  intros Hs Hc Ha Hps Hg. unfold setpgid_group in Hg.
  destruct (negb (b =? a)) eqn:Eb.
  - destruct (find_vpid e b) as [g'|]; [|done].
    destruct (pid_task_pgid e s (Some g')) as [q|] eqn:Eq; [|done].
    destruct (negb _) eqn:Es in Hg; [done|]. simplify_eq.
    apply negb_false_iff, Z.eqb_eq in Es. destruct (pgrp_head s g q Eq) as [Hq Hqg].
    split; [done|]. right. exists q. split_and!; [done..|].
    rewrite Es, Hps. unfold task_session. by rewrite leader_signal.
  - apply negb_false_iff, Z.eqb_eq in Eb. simplify_eq. split; [done|by left].
Qed.

(** A call either leaves the table alone and reports an error, or moves one process that
    leads no session into a group of its session, or one of its own. *)
Lemma setpgid_inv cur a b s :
  table_ok s -> cur ∈ procs s ->
  (setpgid e cur a b s).1 <> 0 /\ (setpgid e cur a b s).2 = s \/
  exists p g,
    setpgid e cur a b s = (0, if negb (task_pgrp s p =? g) then change_pgrp p g s else s) /\
    find_task_by_vpid e (setpgid_args cur a b s).1 s = Some p /\
    find_vpid e (setpgid_args cur a b s).2 = Some g /\
    thread_group_leader s p = true /\ leader (signal_of s p) = false /\
    task_session s p = task_session s cur /\
    (g = p \/ exists q, q ∈ procs s /\ task_pgrp s q = g /\ task_session s q = task_session s p).
Proof.
  intros Hs Hc. unfold setpgid, setpgid_args. cbn [fst snd].
  set (a' := if a =? 0 then _ else a). set (b' := if b =? 0 then _ else b).
  destruct (b' <? 0); [by left|].
  destruct (find_task_by_vpid e a' s) as [p|] eqn:Ep; [|by left].
  destruct (thread_group_leader s p) eqn:El; cbn [negb]; [|by left].
  destruct (Z.eqb_spec (setpgid_target (group_leader s cur) p s) 0) as [E|E];
    cbn [negb]; [|by left].
  destruct (leader (signal_of s p)) eqn:Eld; [by left|].
  destruct (setpgid_target_session cur p s Hs Hc El E) as [Hps _].
  destruct (setpgid_group e (group_leader s cur) p a' b' s) as [g|] eqn:Eg; [|by left].
  destruct (Z.eqb_spec (security_task_setpgid e p b') 0) as [Ek|Ek]; cbn [negb]; [|by left].
  right. exists p, g. apply find_task_spec in Ep as Hp. destruct Hp as [Hv Hin].
  destruct (setpgid_group_spec cur p a' b' g s Hs Hc Hv Hps Eg) as [Hb Hq].
  split_and!; done.
Qed.

(** ** Updates of one process *)

Lemma signal_upd_sig tg f s p :
  signal_of (upd_sig tg f s) p = if group_leader s p =? tg then f (signal_of s p) else signal_of s p.
Proof. done. Qed.

Lemma group_leader_upd_sig tg f s p : group_leader (upd_sig tg f s) p = group_leader s p.
Proof. done. Qed.

(** Two tasks of one process share everything. *)
Lemma same_process s p q : group_leader s p = group_leader s q -> signal_of s p = signal_of s q.
Proof. unfold signal_of, group_leader. by intros ->. Qed.

Lemma leader_self s p : thread_group_leader s p = true -> group_leader s p = p.
Proof. apply Z.eqb_eq. Qed.

Lemma change_pgrp_ok p g s :
  table_ok s -> p ∈ procs s -> thread_group_leader s p = true -> leader (signal_of s p) = false ->
  (g = p \/ exists q, q ∈ procs s /\ task_pgrp s q = g /\ task_session s q = task_session s p) ->
  table_ok (change_pgrp p g s).
Proof.
  intros Hs Hp Hl Hnl Hg. pose proof (leader_self s p Hl) as Hpp.
  assert (Hses : forall x, task_session (change_pgrp p g s) x = task_session s x).
  { intros x. unfold task_session, change_pgrp. rewrite signal_upd_sig. by destruct (_ =? _). }
  assert (Hgrp : forall x, task_pgrp (change_pgrp p g s) x =
                           if group_leader s x =? p then g else task_pgrp s x).
  { intros x. unfold task_pgrp, change_pgrp. rewrite signal_upd_sig.
    fold (group_leader s p). rewrite Hpp. by destruct (_ =? _). }
  assert (Hlead : forall x, leader (signal_of (change_pgrp p g s) x) = leader (signal_of s x)).
  { intros x. unfold change_pgrp. rewrite signal_upd_sig. by destruct (_ =? _). }
  assert (Hmine : forall x, group_leader s x = p -> task_session s x = task_session s p).
  { intros x Hx. unfold task_session. f_equal. apply same_process. congruence. }
  assert (Hjoin : forall x, x ∈ procs s -> task_pgrp s x = g -> task_session s x = task_session s p).
  { intros x Hx Hxg. destruct Hg as [->|(q & Hq & Hqg & Hqs)].
    - by apply (group_namesake s Hs).
    - rewrite <- Hqs. apply (group_one_session s Hs); congruence. }
  split.
  - apply (live_leader s Hs).
  - intros x y Hx Hy. rewrite !Hses, !Hgrp.
    destruct (Z.eqb_spec (group_leader s x) p) as [Ex|Ex];
      destruct (Z.eqb_spec (group_leader s y) p) as [Ey|Ey]; intros Hxy.
    + by rewrite (Hmine x), (Hmine y).
    + rewrite (Hmine x) by done. symmetry. by apply Hjoin.
    + rewrite (Hmine y) by done. by apply Hjoin.
    + by apply (group_one_session s Hs).
  - intros r q Hr Hq Hrl. rewrite !Hses, Hgrp. change (thread_group_leader s r = true) in Hrl.
    destruct (Z.eqb_spec (group_leader s q) p) as [Eq|Eq]; intros Hqr.
    + rewrite (Hmine q) by done. subst r. destruct Hg as [->|(q0 & Hq0 & Hqg & Hqs)]; [done|].
      rewrite <- Hqs. by apply (group_namesake s Hs).
    + by apply (group_namesake s Hs).
  - intros x Hx. rewrite Hses, Hgrp, Hlead.
    destruct (Z.eqb_spec (group_leader s x) p) as [Ex|Ex]; [|apply (leader_named s Hs x Hx)].
    rewrite (same_process s x p) by congruence. congruence.
Qed.

Lemma setpgid_ok cur a b s :
  table_ok s -> cur ∈ procs s -> table_ok (setpgid e cur a b s).2.
Proof.
  intros Hs Hc. destruct (setpgid_inv cur a b s Hs Hc) as [[_ ->]|(p & g & -> & H)]; [done|].
  destruct H as (Hf & _ & Hl & Hnl & _ & Hg). apply find_task_spec in Hf as [_ Hp].
  cbn. destruct (negb _); [|done]. by apply change_pgrp_ok.
Qed.

(** ** [setsid] *)

(** The table with the process [gl] changed by [f]. *)
Definition one_process (gl : Z) (f : signal -> signal) s s' : Prop :=
  procs s' = procs s /\ task_of s' = task_of s /\ user_refs s' = user_refs s /\
  forall x, sig s' x = if x =? gl then f (sig s x) else sig s x.

Lemma set_special_pids_spec cur s :
  let gl := group_leader s cur in
  group_leader s gl = gl ->
  one_process gl (fun x => MkSignal gl gl (leader x) (tty x)) s (set_special_pids cur gl s) /\
  announced (set_special_pids cur gl s) = announced s.
Proof.
  intros gl Hgl. unfold set_special_pids. fold gl.
  set (s1 := if negb (task_session s gl =? gl) then _ else s).
  assert (H1 : one_process gl (set_session gl) s s1 /\ announced s1 = announced s).
  { subst s1. unfold task_session, signal_of. fold (group_leader s gl). rewrite Hgl.
    destruct (Z.eqb_spec (s_session (sig s gl)) gl) as [E|E]; cbn.
    - split; [|done]. split_and!; try done. intros x. destruct (Z.eqb_spec x gl) as [->|]; [|done].
      destruct (sig s gl); cbn in *. by subst.
    - unfold change_session. fold (group_leader s gl). by rewrite Hgl. }
  clearbody s1. destruct H1 as [(Hp & Ht & Hu & Hsig) Ha].
  assert (Hgl1 : group_leader s1 gl = gl) by (unfold group_leader; by rewrite Ht).
  unfold task_pgrp, signal_of. fold (group_leader s1 gl). rewrite Hgl1.
  destruct (Z.eqb_spec (s_pgrp (sig s1 gl)) gl) as [E|E]; cbn.
  - split; [|done]. split_and!; try done. intros x. rewrite Hsig.
    rewrite Hsig, Z.eqb_refl in E. cbn in E. destruct (Z.eqb_spec x gl) as [->|]; [|done].
    unfold set_session. by rewrite E.
  - unfold change_pgrp. fold (group_leader s1 gl). rewrite Hgl1. split; [|done].
    split_and!; try done. intros x. cbn. rewrite Hsig. by destruct (_ =? _).
Qed.

(** A call fails for a session leader and for a process whose id names a group; else it
    makes the caller's process the leader of a session and group of its own. *)
Lemma setsid_inv cur s :
  table_ok s -> cur ∈ procs s ->
  let gl := group_leader s cur in
  (leader (signal_of s cur) = true \/ is_Some (pid_task_pgid e s (Some gl))) /\
    setsid e cur s = (- EPERM, s) \/
  leader (signal_of s cur) = false /\ pid_task_pgid e s (Some gl) = None /\
    (setsid e cur s).1 = pid_vnr e gl /\
    one_process gl (fun _ => MkSignal gl gl true None) s (setsid e cur s).2 /\
    announced (setsid e cur s).2 = (if 0 <? pid_vnr e gl then [gl] else []) ++ announced s.
Proof.
  intros Hs Hc gl. unfold setsid, ksys_setsid. fold gl.
  assert (Hgl : group_leader s gl = gl) by (apply leader_self, (live_leader s Hs cur Hc)).
  assert (Hsig : signal_of s gl = signal_of s cur) by (by apply leader_signal).
  rewrite Hsig. destruct (leader (signal_of s cur)) eqn:El; [left; auto|].
  case_bool_decide as Hm; [left; auto|right].
  assert (Hn : pid_task_pgid e s (Some gl) = None).
  { destruct (pid_task_pgid e s (Some gl)); [by destruct Hm|done]. }
  fold (group_leader s gl). rewrite Hgl.
  destruct (set_special_pids_spec cur (upd_sig gl set_leader s)) as [(Hp & Ht & Hu & Hx) Ha];
    [done|]. change (group_leader (upd_sig gl set_leader s) cur) with gl in *.
  revert Hp Ht Hu Hx Ha. generalize (set_special_pids cur gl (upd_sig gl set_leader s)).
  intros s' Hp Ht Hu Hx Ha. rewrite Ht. cbn [task_of upd_sig]. fold (group_leader s gl). rewrite Hgl.
  cbn [fst snd]. split_and!; [done|done|done| |].
  - destruct (0 <? pid_vnr e gl); (split_and!; [done..|]); intros x; cbn; rewrite Hx; cbn;
      by destruct (_ =? _).
  - destruct (0 <? pid_vnr e gl); cbn; by rewrite Ha.
Qed.

Lemma one_process_signal gl f s s' x :
  one_process gl f s s' ->
  signal_of s' x = if group_leader s x =? gl then f (signal_of s x) else signal_of s x.
Proof. intros (_ & Ht & _ & Hx). unfold signal_of. by rewrite Ht, Hx. Qed.

Lemma setsid_ok cur s : table_ok s -> cur ∈ procs s -> table_ok (setsid e cur s).2.
Proof.
  intros Hs Hc. destruct (setsid_inv cur s Hs Hc) as [[_ ->]|(Hnl & Hn & _ & Hone & _)]; [done|].
  set (gl := group_leader s cur) in *. set (s' := (setsid e cur s).2) in *. clearbody s'.
  pose proof (fun x => one_process_signal _ _ _ _ x Hone) as Hx.
  destruct Hone as (Hp & Ht & _ & _).
  assert (Hgl : forall x, group_leader s' x = group_leader s x) by (intros; unfold group_leader; by rewrite Ht).
  assert (Htl : forall x, thread_group_leader s' x = thread_group_leader s x)
    by (intros; unfold thread_group_leader; by rewrite Ht).
  assert (Hfree : forall x, x ∈ procs s -> task_pgrp s x <> gl) by (intros x; by apply pgrp_empty).
  assert (Hses : forall x, task_session s' x = if group_leader s x =? gl then gl else task_session s x)
    by (intros x; unfold task_session; rewrite Hx; by destruct (_ =? _)).
  assert (Hgrp : forall x, task_pgrp s' x = if group_leader s x =? gl then gl else task_pgrp s x)
    by (intros x; unfold task_pgrp; rewrite Hx; by destruct (_ =? _)).
  split; rewrite ?Hp.
  - intros x Hin. rewrite Hgl, Htl. by apply (live_leader s Hs).
  - intros x y Hxin Hyin. rewrite !Hses, !Hgrp.
    destruct (_ =? gl), (_ =? gl); intros Hxy; try done.
    + by destruct (Hfree y).
    + by destruct (Hfree x).
    + by apply (group_one_session s Hs).
  - intros r q Hr Hq Hrl. rewrite Htl in Hrl. rewrite !Hses, Hgrp.
    rewrite (leader_self s r Hrl). destruct (_ =? gl); intros Hqr.
    + subst r. by rewrite Z.eqb_refl.
    + destruct (Z.eqb_spec r gl) as [->|]; [by destruct (Hfree q)|].
      by apply (group_namesake s Hs).
  - intros x Hxin. rewrite Hses, Hgrp, Hgl, Hx.
    destruct (Z.eqb_spec (group_leader s x) gl); [done|]. apply (leader_named s Hs x Hxin).
Qed.

(** ** Priorities *)

(** Everything but the niceness of tasks. *)
Definition nice_only s s' : Prop :=
  procs s' = procs s /\ sig s' = sig s /\ user_refs s' = user_refs s /\
  announced s' = announced s /\
  forall x, task_of s' x = set_nice (nice (task_of s' x)) (task_of s x).

Lemma nice_only_refl s : nice_only s s.
Proof. split_and!; try done. intros x. by destruct (task_of s x). Qed.

Lemma nice_only_trans s1 s2 s3 : nice_only s1 s2 -> nice_only s2 s3 -> nice_only s1 s3.
Proof.
  intros (?&?&?&?&Ha) (?&?&?&?&Hb). split_and!; try congruence.
  intros x. rewrite (Hb x) at 1. by rewrite (Ha x).
Qed.

(** The table the loops run over, and its changes. *)
Definition clamp (n : Z) : Z := Z.max MIN_NICE (Z.min MAX_NICE n).

(** Why a task refuses a niceness, [0] when it does not. *)
Definition refusal (cur p n : Z) s : Z :=
  if negb (set_one_prio_perm e cur p s) then - EPERM
  else if (n <? nice (task_of s p)) && negb (can_nice e p n) then - EACCES
  else security_task_setnice e p n.

Lemma refusal_not_esrch cur p n s : refusal cur p n s <> - ESRCH.
Proof.
  unfold refusal. destruct (negb _); [done|]. destruct (_ && _); [done|].
  apply (setnice_hook e He).
Qed.

Lemma set_one_prio_eq cur p n err s :
  MIN_NICE <= n <= MAX_NICE ->
  set_one_prio e cur p n err s =
  if refusal cur p n s =? 0
  then (if err =? - ESRCH then 0 else err, upd_task p (set_nice n) s)
  else (refusal cur p n s, s).
Proof.
  intros Hn. unfold set_one_prio, refusal, set_user_nice.
  destruct (negb (set_one_prio_perm _ _ _ _)); [done|]. destruct (_ && _); [done|].
  destruct (security_task_setnice e p n =? 0); [|done]. cbn.
  replace ((n <? MIN_NICE) || (MAX_NICE <? n)) with false; [done|].
  symmetry. apply orb_false_iff. rewrite !Z.ltb_ge. lia.
Qed.

Lemma upd_nice_only p n s : nice_only s (upd_task p (set_nice n) s).
Proof.
  split_and!; try done. intros x. cbn. destruct (_ =? _); [done|]. by destruct (task_of s x).
Qed.

(** Giving one task the niceness does not change whether any task refuses it, apart
    from the comparison with its present one. *)
Lemma refusal_stable cur p q n s :
  refusal cur p n s = 0 -> refusal cur q n (upd_task p (set_nice n) s) = refusal cur q n s.
Proof.
  unfold refusal, set_one_prio_perm. intros Hp. cbn.
  assert (Hu : forall x, t_uid (if x =? p then set_nice n (task_of s x) else task_of s x)
                         = t_uid (task_of s x)) by (intros x; by destruct (x =? p)).
  assert (Hv : forall x, t_euid (if x =? p then set_nice n (task_of s x) else task_of s x)
                         = t_euid (task_of s x)) by (intros x; by destruct (x =? p)).
  rewrite !Hu, !Hv.
  destruct (Z.eqb_spec q p) as [->|]; [|done]. revert Hp.
  set (perm := negb _). destruct perm; [done|]. cbn. rewrite Z.ltb_irrefl. cbn.
  by destruct (_ && _).
Qed.

Lemma set_prio_loop_spec cur n l err s :
  MIN_NICE <= n <= MAX_NICE ->
  let r := set_prio_loop e cur n l err s in
  nice_only s r.2 /\
  (forall x, nice (task_of r.2 x) =
     if bool_decide (x ∈ l) && (refusal cur x n s =? 0) then n else nice (task_of s x)) /\
  (r.1 = 0 <-> (err = 0 \/ err = - ESRCH /\ l <> []) /\ forall x, x ∈ l -> refusal cur x n s = 0) /\
  (r.1 = - ESRCH <-> err = - ESRCH /\ l = []).
Proof.
  intros Hn. revert err s. induction l as [|p l IH]; intros err s; cbn.
  - split_and!; [apply nice_only_refl|done| |naive_solver].
    split; [intros ->; split; [by left|by intros ? ?%not_elem_of_nil]|].
    intros [[?|[_ ?]] _]; done.
  - rewrite set_one_prio_eq by done.
    pose proof (refusal_not_esrch cur p n s) as Hne.
    destruct (Z.eqb_spec (refusal cur p n s) 0) as [E|E].
    + destruct (IH (if err =? - ESRCH then 0 else err) (upd_task p (set_nice n) s))
        as (H1 & H2 & H3 & H4). unfold set_prio_loop in *. cbn [fst snd].
      split_and!.
      * eapply nice_only_trans; [apply upd_nice_only|done].
      * intros x. rewrite H2, refusal_stable by done. cbn.
        destruct (Z.eqb_spec x p) as [->|Hxp].
        -- rewrite (bool_decide_eq_true_2 (p ∈ p :: l)) by apply list_elem_of_here.
           rewrite E. cbn. by destruct (_ && _).
        -- by rewrite (bool_decide_ext (x ∈ p :: l) (x ∈ l)) by set_solver.
      * rewrite H3. setoid_rewrite refusal_stable; [|done].
        assert (Hall : (forall x, x ∈ p :: l -> refusal cur x n s = 0) <->
                       (forall x, x ∈ l -> refusal cur x n s = 0)) by set_solver.
        rewrite Hall. destruct (Z.eqb_spec err (- ESRCH)); naive_solver.
      * rewrite H4. destruct (Z.eqb_spec err (- ESRCH)); naive_solver.
    + destruct (IH (refusal cur p n s) s) as (H1 & H2 & H3 & H4).
      unfold set_prio_loop in *. cbn [fst snd]. split_and!.
      * done.
      * intros x. rewrite H2. destruct (decide (x = p)) as [->|Hxp].
        -- apply Z.eqb_neq in E. by rewrite E, !andb_false_r.
        -- by rewrite (bool_decide_ext (x ∈ p :: l) (x ∈ l)) by set_solver.
      * rewrite H3. split; [naive_solver|]. intros [_ Hall].
        destruct E. apply Hall, list_elem_of_here.
      * rewrite H4. naive_solver.
Qed.

(** The tasks a call is about: one task, the members of a process group, or the visible
    tasks of a user that has any. *)
Definition targeted (cur which who : Z) s (p : Z) : Prop :=
  if which =? PRIO_PROCESS then
    if who =? 0 then p = cur else find_task_by_vpid e who s = Some p
  else if which =? PRIO_PGRP then
    p ∈ procs s /\
    if who =? 0 then task_pgrp s p = task_pgrp s cur else find_vpid e who = Some (task_pgrp s p)
  else
    p ∈ procs s /\ pid_vnr e p <> 0 /\
    if who =? 0 then t_uid (task_of s p) = t_uid (task_of s cur)
    else t_uid (task_of s p) = make_kuid e who /\
         (make_kuid e who = t_uid (task_of s cur) \/ find_user e (make_kuid e who) = true).

(** The same, as the lists the loops run over. *)
Definition targets (cur which who : Z) s : list Z :=
  if which =? PRIO_PROCESS then
    match (if negb (who =? 0) then find_task_by_vpid e who s else Some cur) with
    | Some p => [p] | None => [] end
  else if which =? PRIO_PGRP then
    each_pid_thread e s (if negb (who =? 0) then find_vpid e who else Some (task_pgrp s cur))
  else match (prio_user e cur who s).1 with Some uid => user_threads e uid s | None => [] end.

Lemma elem_for_each_process_thread s p :
  table_ok s -> p ∈ for_each_process_thread s <-> p ∈ procs s.
Proof.
  intros Hs. unfold for_each_process_thread. rewrite list_elem_of_bind. unfold threads.
  setoid_rewrite list_elem_of_filter. split; [naive_solver|].
  intros Hp. destruct (live_leader s Hs p Hp). by exists (group_leader s p).
Qed.

Lemma elem_targets cur which who s p :
  table_ok s -> p ∈ targets cur which who s <-> targeted cur which who s p.
Proof.
  intros Hs. unfold targets, targeted. destruct (which =? PRIO_PROCESS); [|destruct (which =? PRIO_PGRP)].
  - destruct (who =? 0); cbn; [set_solver|].
    destruct (find_task_by_vpid e who s); set_solver.
  - rewrite elem_each_pid_thread by done. destruct (who =? 0); cbn;
      (split; intros [? ?]; (split; [done|congruence])).
  - unfold prio_user. destruct (who =? 0); cbn.
    + unfold user_threads. rewrite list_elem_of_filter, elem_for_each_process_thread by done. tauto.
    + destruct (Z.eqb_spec (make_kuid e who) (t_uid (task_of s cur))) as [E|E]; cbn.
      * unfold user_threads. rewrite list_elem_of_filter, elem_for_each_process_thread by done. tauto.
      * destruct (find_user e (make_kuid e who)); cbn.
        -- unfold user_threads. rewrite list_elem_of_filter, elem_for_each_process_thread by done. tauto.
        -- split; [by intros ?%not_elem_of_nil|]. intros (_ & _ & _ & [?|?]); done.
Qed.

Lemma clamp_eq n :
  (let n := if n <? MIN_NICE then MIN_NICE else n in if MAX_NICE <? n then MAX_NICE else n) = clamp n.
Proof.
  unfold clamp, MIN_NICE, MAX_NICE. cbn zeta.
  destruct (Z.ltb_spec n (-20)) as [E|E]; [cbn; lia|].
  destruct (Z.ltb_spec 19 n); lia.
Qed.

Lemma clamp_range n : MIN_NICE <= clamp n <= MAX_NICE.
Proof. unfold clamp, MIN_NICE, MAX_NICE. lia. Qed.

Lemma set_prio_loop_refs cur n l err s k :
  set_prio_loop e cur n l err (add_user_refs k s) =
  ((set_prio_loop e cur n l err s).1, add_user_refs k (set_prio_loop e cur n l err s).2).
Proof.
  unfold set_prio_loop. revert err s. induction l as [|p l IH]; intros err s; [done|].
  cbn [foldl fst snd].
  assert (set_one_prio e cur p n err (add_user_refs k s) =
          ((set_one_prio e cur p n err s).1, add_user_refs k (set_one_prio e cur p n err s).2)) as ->.
  { unfold set_one_prio, set_user_nice. change (set_one_prio_perm e cur p (add_user_refs k s))
      with (set_one_prio_perm e cur p s). cbn [task_of add_user_refs].
    repeat match goal with |- context [if ?b then _ else _] => destruct b end; done. }
  destruct (set_one_prio e cur p n err s) as [err1 s1]. apply IH.
Qed.

Lemma add_user_refs_cancel s : add_user_refs (-1) (add_user_refs 1 s) = s.
Proof. destruct s; unfold add_user_refs; cbn. f_equal. lia. Qed.

(** Every form of [setpriority] is one loop over its targets. *)
Lemma setpriority_loop cur which who n s :
  PRIO_PROCESS <= which <= PRIO_USER ->
  setpriority e cur which who n s = set_prio_loop e cur (clamp n) (targets cur which who s) (- ESRCH) s.
Proof.
  intros Hw. unfold setpriority, targets.
  replace ((PRIO_USER <? which) || (which <? PRIO_PROCESS)) with false
    by (symmetry; apply orb_false_iff; rewrite !Z.ltb_ge; lia).
  cbn zeta. pose proof (clamp_eq n) as Hc. cbn zeta in Hc. rewrite Hc.
  destruct (which =? PRIO_PROCESS).
  { destruct (if negb (who =? 0) then _ else _); [|done]. cbn.
    by destruct (set_one_prio _ _ _ _ _ _). }
  destruct (which =? PRIO_PGRP); [done|].
  assert (Hu : forall l, t_uid (task_of (set_prio_loop e cur (clamp n) l (- ESRCH) s).2 cur)
                         = t_uid (task_of s cur)).
  { intros l. destruct (set_prio_loop_spec cur (clamp n) l (- ESRCH) s (clamp_range n))
      as [(_ & _ & _ & _ & Ht) _]. by rewrite Ht. }
  unfold prio_user, free_user. destruct (who =? 0); cbn [fst].
  - specialize (Hu (user_threads e (t_uid (task_of s cur)) s)).
    destruct (set_prio_loop _ _ _ _ _ _) as [err s']. cbn in Hu. by rewrite Hu, Z.eqb_refl.
  - specialize (Hu (user_threads e (make_kuid e who) s)).
    destruct (Z.eqb_spec (make_kuid e who) (t_uid (task_of s cur))) as [E|E]; cbn [negb].
    + cbn [fst]. destruct (set_prio_loop _ _ _ _ _ _) as [err s']. cbn in Hu.
      by rewrite Hu, E, Z.eqb_refl.
    + destruct (find_user e (make_kuid e who)); [|done]. cbn [fst].
      change (user_threads e (make_kuid e who) (add_user_refs 1 s))
        with (user_threads e (make_kuid e who) s).
      rewrite set_prio_loop_refs.
      destruct (set_prio_loop _ _ _ _ _ _) as [err s']. cbn [fst snd] in *.
      change (task_of (add_user_refs 1 s') cur) with (task_of s' cur). rewrite Hu.
      apply Z.eqb_neq in E. rewrite E. cbn [negb]. by rewrite add_user_refs_cancel.
Qed.

(** The same for [getpriority]. *)
Lemma getpriority_loop cur which who s :
  PRIO_PROCESS <= which <= PRIO_USER ->
  getpriority e cur which who s =
  (foldl (get_one_prio s) (- ESRCH) (targets cur which who s), s).
Proof.
  intros Hw. unfold getpriority, targets.
  replace ((PRIO_USER <? which) || (which <? PRIO_PROCESS)) with false
    by (symmetry; apply orb_false_iff; rewrite !Z.ltb_ge; lia).
  destruct (which =? PRIO_PROCESS).
  { by destruct (if negb (who =? 0) then _ else _). }
  destruct (which =? PRIO_PGRP); [done|].
  unfold prio_user, free_user. destruct (who =? 0); cbn [fst].
  - by rewrite Z.eqb_refl.
  - destruct (Z.eqb_spec (make_kuid e who) (t_uid (task_of s cur))) as [E|E]; cbn [negb].
    + cbn [fst]. by rewrite E, Z.eqb_refl.
    + destruct (find_user e (make_kuid e who)); [|done]. cbn [fst].
      change (task_of (add_user_refs 1 s)) with (task_of s).
      apply Z.eqb_neq in E. rewrite E. cbn [negb]. by rewrite add_user_refs_cancel.
Qed.

(** The largest answer of the targets. *)
Lemma get_loop_const s l a v :
  (forall p, p ∈ l -> nice_to_rlimit (nice (task_of s p)) = v) -> a <= v -> l <> [] \/ a = v ->
  foldl (get_one_prio s) a l = v.
Proof.
  revert a. induction l as [|p l IH]; intros a Hall Ha Hne; [by destruct Hne|].
  cbn. unfold get_one_prio at 2. rewrite (Hall p) by apply list_elem_of_here.
  assert ((if a <? v then v else a) = v) as -> by (destruct (Z.ltb_spec a v); lia).
  apply IH; [set_solver|lia|by right].
Qed.

Lemma targets_nice_only cur which who s s' :
  nice_only s s' -> targets cur which who s' = targets cur which who s.
Proof.
  intros (Hp & Hg & Hu & Ha & Ht).
  assert (Htg : forall x, tgid (task_of s' x) = tgid (task_of s x)) by (intros x; by rewrite Ht).
  assert (Hui : forall x, t_uid (task_of s' x) = t_uid (task_of s x)) by (intros x; by rewrite Ht).
  assert (Hpg : forall x, task_pgrp s' x = task_pgrp s x)
    by (intros x; unfold task_pgrp, signal_of; by rewrite Htg, Hg).
  assert (Hth : forall x, threads s' x = threads s x).
  { intros x. unfold threads. rewrite Hp. apply list_filter_iff. intros y. by rewrite Htg. }
  assert (Hall : for_each_process_thread s' = for_each_process_thread s).
  { unfold for_each_process_thread, thread_group_leader. rewrite Hp.
    apply list_bind_ext; [apply Hth|]. apply list_filter_iff. intros y. by rewrite Htg. }
  unfold targets, find_task_by_vpid. rewrite Hp, Hpg.
  destruct (which =? PRIO_PROCESS); [done|]. destruct (which =? PRIO_PGRP).
  - destruct (if negb (who =? 0) then _ else _) as [g|]; [|done]. cbn.
    unfold pgrp_tasks, thread_group_leader. rewrite Hp.
    rewrite (list_filter_iff _ (fun p => (tgid (task_of s p) =? p) = true /\ task_pgrp s p = g))
      by (intros y; by rewrite Htg, Hpg).
    apply list_bind_ext; [intros; apply Hth|done].
  - unfold prio_user. rewrite Hui.
    destruct (who =? 0); [|destruct (negb _); [destruct (find_user _ _)|]]; try done; cbn;
      unfold user_threads; rewrite Hall; apply list_filter_iff; intros y; by rewrite Hui.
Qed.

(** ** What the calls do *)

(** [setpriority] gives the clamped niceness to every task it is about that does not
    refuse it, and to no other task, even when it reports an error; it returns 0 exactly
    when there is such a task and none refuses, [-ESRCH] exactly when there is none; it
    gives back the user reference it took and changes nothing else. *)
Theorem setpriority_exact cur which who n s :
  table_ok s -> PRIO_PROCESS <= which <= PRIO_USER ->
  let r := setpriority e cur which who n s in
  nice_only s r.2 /\
  (forall p, targeted cur which who s p -> refusal cur p (clamp n) s = 0 ->
     nice (task_of r.2 p) = clamp n) /\
  (forall p, ~ (targeted cur which who s p /\ refusal cur p (clamp n) s = 0) ->
     nice (task_of r.2 p) = nice (task_of s p)) /\
  (r.1 = 0 <-> (exists p, targeted cur which who s p) /\
               forall p, targeted cur which who s p -> refusal cur p (clamp n) s = 0) /\
  (r.1 = - ESRCH <-> forall p, ~ targeted cur which who s p).
Proof.
  intros Hs Hw r. subst r. rewrite setpriority_loop by done.
  destruct (set_prio_loop_spec cur (clamp n) (targets cur which who s) (- ESRCH) s (clamp_range n))
    as (H1 & H2 & H3 & H4).
  setoid_rewrite <- (fun p => elem_targets cur which who s p Hs).
  destruct (set_prio_loop _ _ _ _ _ _) as [r s']. cbn [fst snd] in *. split_and!.
  - done.
  - intros p Hp Hr. rewrite H2, Hr. by rewrite bool_decide_eq_true_2.
  - intros p Hp. rewrite H2. case_bool_decide as Hin; [|done].
    destruct (Z.eqb_spec (refusal cur p (clamp n) s) 0); [|done]. by destruct Hp.
  - rewrite H3. assert (Hne : targets cur which who s <> [] <-> exists p, p ∈ targets cur which who s).
    { destruct (targets cur which who s) as [|x l]; [|naive_solver eauto using list_elem_of_here].
      split; [done|]. by intros [? ?%not_elem_of_nil]. }
    rewrite <- Hne. split; [intros [[?|[_ ?]] ?]; done|]. intros [? ?]. split; [by right|done].
  - rewrite H4. split.
    + intros [_ ->] p. apply not_elem_of_nil.
    + intros Hno. split; [done|]. destruct (targets cur which who s) as [|x l]; [done|].
      destruct (Hno x). apply list_elem_of_here.
Qed.

(** After a [setpriority] that returned 0, [getpriority] on the same process, group
    or user returns 20 less the clamped niceness, a value from 1 to 40, and no error. *)
Theorem setpriority_getpriority cur which who n s :
  table_ok s -> PRIO_PROCESS <= which <= PRIO_USER ->
  (setpriority e cur which who n s).1 = 0 ->
  let s' := (setpriority e cur which who n s).2 in
  getpriority e cur which who s' = (20 - clamp n, s') /\ 1 <= 20 - clamp n <= 40.
Proof.
  intros Hs Hw. cbn zeta. rewrite getpriority_loop by done. rewrite setpriority_loop by done.
  destruct (set_prio_loop_spec cur (clamp n) (targets cur which who s) (- ESRCH) s (clamp_range n))
    as (H1 & H2 & H3 & _).
  destruct (set_prio_loop _ _ _ _ _ _) as [r s']. cbn [fst snd] in *. intros ->.
  rewrite (targets_nice_only cur which who s s' H1).
  destruct (proj1 H3 eq_refl) as [Hne Hall]. pose proof (clamp_range n) as Hc.
  unfold MIN_NICE, MAX_NICE in Hc. split; [|lia]. f_equal.
  apply get_loop_const; [|unfold ESRCH; lia|left; by destruct Hne as [?|[]]].
  intros p Hp. rewrite H2, (Hall p Hp), bool_decide_eq_true_2 by done. cbn.
  unfold nice_to_rlimit, MAX_NICE. lia.
Qed.

(** A [setpgid] that returns 0 has moved the process it names, the caller or a child
    of the caller that has not called [exec], into the group it names, which [getpgid]
    then returns; every process outside the one moved keeps its group, and no session
    changes. *)
Theorem setpgid_getpgid cur a b s :
  table_ok s -> cur ∈ procs s -> (forall p, security_task_getpgid e p = 0) ->
  (setpgid e cur a b s).1 = 0 ->
  let s' := (setpgid e cur a b s).2 in
  let (vpid, vpgid) := setpgid_args cur a b s in
  getpgid e cur vpid s' = vpgid /\
  (forall q, task_session s' q = task_session s q) /\
  exists p, find_task_by_vpid e vpid s = Some p /\
    task_session s p = task_session s cur /\
    (forall q, group_leader s q <> p -> task_pgrp s' q = task_pgrp s q).
Proof.
  intros Hs Hc Hsec H0. destruct (setpgid_inv cur a b s Hs Hc) as [[? _]|(p & g & Heq & H)]; [done|].
  rewrite Heq. cbn [fst snd]. destruct (setpgid_args cur a b s) as [vpid vpgid]. cbn [fst snd] in H.
  destruct H as (Hf & Hg & Hl & _ & Hses & _). pose proof (leader_self s p Hl) as Hpp.
  set (s' := if negb _ then _ else s).
  assert (Hs' : procs s' = procs s /\ task_of s' = task_of s /\
                forall x, sig s' x = if x =? p then set_pgrp g (sig s x) else sig s x).
  { subst s'. destruct (Z.eqb_spec (task_pgrp s p) g) as [E|E]; cbn [negb].
    - split_and!; try done. intros x. destruct (Z.eqb_spec x p) as [->|]; [|done].
      unfold task_pgrp, signal_of in E. fold (group_leader s p) in E. rewrite Hpp in E.
      destruct (sig s p); cbn in *. by subst.
    - unfold change_pgrp. fold (group_leader s p). by rewrite Hpp. }
  clearbody s'. destruct Hs' as (Hp & Ht & Hx).
  apply (find_vpid_spec e He) in Hg as [Hgv Hgn].
  pose proof (proj1 (find_task_spec vpid p s) Hf) as [Hv Hin].
  apply (find_vpid_spec e He) in Hv as Hv'. destruct Hv' as [_ Hvn].
  split_and!.
  - unfold getpgid, do_getpgid. destruct (Z.eqb_spec vpid 0); [done|].
    unfold find_task_by_vpid. rewrite Hp. fold (find_task_by_vpid e vpid s). rewrite Hf, Hsec. cbn.
    unfold task_pgrp, signal_of. rewrite Ht. fold (group_leader s p).
    rewrite Hpp, Hx, Z.eqb_refl. done.
  - intros q. unfold task_session, signal_of. rewrite Ht, Hx. by destruct (tgid (task_of s q) =? p).
  - exists p. split_and!; [done..|]. intros q Hq. unfold task_pgrp, signal_of.
    rewrite Ht, Hx. fold (group_leader s q). apply Z.eqb_neq in Hq. by rewrite Hq.
Qed.

(** [setsid] fails with [-EPERM] and changes nothing for a session leader and for a
    process whose id names a process group.  Otherwise it returns the id of the process;
    [getsid] and [getpgrp] then return it too, the process is alone in its group and
    session, has no terminal and leads its session, so that a second call fails; no
    other process is touched. *)
Theorem setsid_correct cur s :
  table_ok s -> cur ∈ procs s ->
  let gl := group_leader s cur in
  let (r, s') := setsid e cur s in
  if leader (signal_of s cur) || bool_decide (is_Some (pid_task_pgid e s (Some gl)))
  then r = - EPERM /\ s' = s
  else r = getpid e cur s /\ getsid e cur 0 s' = r /\ getpgrp e cur s' = r /\
       tty (signal_of s' cur) = None /\ (setsid e cur s').1 = - EPERM /\
       (forall q, q ∈ procs s -> task_pgrp s' q = gl -> group_leader s q = gl) /\
       (forall q, group_leader s q <> gl -> signal_of s' q = signal_of s q).
Proof.
  intros Hs Hc gl. pose proof (setsid_ok cur s Hs Hc) as Hok.
  destruct (setsid_inv cur s Hs Hc) as [[Hwhy Heq]|(Hnl & Hn & Hr & Hone & _)].
  { rewrite Heq. destruct Hwhy as [->|Hm]; [done|].
    rewrite (bool_decide_eq_true_2 _ Hm), orb_true_r. done. }
  fold gl in Hn, Hr, Hone. rewrite Hnl, Hn. rewrite (bool_decide_eq_false_2 _ is_Some_None). cbn [orb].
  destruct (setsid e cur s) as [r s'] eqn:Es. cbn [fst snd] in *.
  pose proof (fun x => one_process_signal _ _ _ _ x Hone) as Hx. destruct Hone as (Hp & Ht & _ & _).
  assert (Hcur : signal_of s' cur = MkSignal gl gl true None).
  { rewrite Hx. fold gl. by rewrite Z.eqb_refl. }
  assert (Hgl' : group_leader s' cur = gl) by (unfold group_leader; by rewrite Ht).
  assert (Hin' : cur ∈ procs s') by (by rewrite Hp).
  split_and!.
  - done.
  - unfold getsid, task_session. cbn. by rewrite Hcur.
  - unfold getpgrp, do_getpgid, task_pgrp. cbn. by rewrite Hcur.
  - by rewrite Hcur.
  - destruct (setsid_inv cur s' Hok Hin') as [[_ ->]|(Hl & _)]; [done|]. by rewrite Hcur in Hl.
  - intros q Hq. unfold task_pgrp. rewrite Hx. destruct (Z.eqb_spec (group_leader s q) gl); [done|].
    intros Hg. by destruct (pgrp_empty s gl q Hs Hn Hq).
  - intros q Hq. rewrite Hx. apply Z.eqb_neq in Hq. by rewrite Hq.
Qed.
End sessions.

(** ** Histories *)

Lemma table_ok_same s s' :
  procs s' = procs s -> (forall x, tgid (task_of s' x) = tgid (task_of s x)) -> sig s' = sig s ->
  table_ok s -> table_ok s'.
Proof.
  intros Hp Ht Hg [H1 H2 H3 H4].
  assert (Hs : forall x, signal_of s' x = signal_of s x) by (intros x; unfold signal_of; by rewrite Ht, Hg).
  assert (Hl : forall x, group_leader s' x = group_leader s x) by done.
  assert (Htl : forall x, thread_group_leader s' x = thread_group_leader s x)
    by (intros x; unfold thread_group_leader; by rewrite Ht).
  assert (Hpg : forall x, task_pgrp s' x = task_pgrp s x) by (intros x; unfold task_pgrp; by rewrite Hs).
  assert (Hse : forall x, task_session s' x = task_session s x)
    by (intros x; unfold task_session; by rewrite Hs).
  split; rewrite Hp.
  - intros p. rewrite Hl, Htl. apply H1.
  - intros p q. rewrite !Hpg, !Hse. apply H2.
  - intros p q. rewrite Hpg, !Hse, Htl. apply H3.
  - intros p. rewrite Hpg, Hse, Hs, Hl. apply H4.
Qed.

Lemma release_ok p s :
  (forall q, q ∈ procs s -> q <> p -> group_leader s q <> p) -> table_ok s -> table_ok (release_task p s).
Proof.
  intros Hlast [H1 H2 H3 H4].
  split; cbn; setoid_rewrite list_elem_of_filter; [|naive_solver..].
  intros q [Hqp Hq]. destruct (H1 q Hq). split; [|done]. split; [by apply Hlast|done].
Qed.

Lemma fork_ok cur p fl s :
  cur ∈ procs s -> p ∉ procs s -> (forall q, q ∈ procs s -> task_pgrp s q <> p) ->
  table_ok s -> table_ok (attach_new_task cur p fl s).
Proof.
  intros Hc Hp Hfree Hs. set (s' := attach_new_task cur p fl s).
  set (tg := child_tgid cur p fl s).
  assert (Hprocs : procs s' = procs s ++ [p]).
  { subst s'. unfold attach_new_task. fold tg. by destruct (tg =? p). }
  assert (Hne : forall x, x ∈ procs s -> group_leader s x <> p).
  { intros x Hx E. destruct (live_leader s Hs x Hx). congruence. }
  assert (Hold : forall x, x ∈ procs s -> group_leader s' x = group_leader s x /\
                           signal_of s' x = signal_of s x).
  { intros x Hx. assert (E : x =? p = false) by (apply Z.eqb_neq; congruence).
    specialize (Hne x Hx). apply Z.eqb_neq in Hne.
    subst s'. unfold group_leader, signal_of, attach_new_task in *. fold tg.
    destruct (tg =? p); cbn; rewrite E; [by rewrite Hne|done]. }
  assert (Hnew : group_leader s' p = tg /\
    (tg = group_leader s cur /\ signal_of s' p = signal_of s cur \/
     tg = p /\ signal_of s' p = MkSignal (task_pgrp s cur) (task_session s cur) false
                                         (tty (signal_of s cur)))).
  { specialize (Hne cur Hc). subst s'. unfold group_leader, signal_of, attach_new_task in *. fold tg.
    destruct (Z.eqb_spec tg p) as [E|E]; cbn; rewrite !Z.eqb_refl; cbn; (split; [done|]).
    - right. by rewrite E, Z.eqb_refl.
    - left. unfold tg, child_tgid in *. by destruct (flag_set fl CLONE_THREAD). }
  clearbody s' tg. destruct Hnew as [Htg Hnew].
  assert (Hsame : task_pgrp s' p = task_pgrp s cur /\ task_session s' p = task_session s cur).
  { unfold task_pgrp, task_session. by destruct Hnew as [[_ ->]|[_ ->]]. }
  assert (Hrep : forall x, x ∈ procs s ++ [p] -> exists y, y ∈ procs s /\
    task_pgrp s' x = task_pgrp s y /\ task_session s' x = task_session s y /\ (x ∈ procs s -> y = x)).
  { intros x [Hx| ->%list_elem_of_singleton]%elem_of_app.
    2: { exists cur. destruct Hsame. split_and!; done. }
    exists x. unfold task_pgrp, task_session. by rewrite (proj2 (Hold x Hx)). }
  assert (Hself : forall x, x ∈ procs s -> thread_group_leader s' x = thread_group_leader s x).
  { intros x Hx. unfold thread_group_leader. fold (group_leader s' x). by rewrite (proj1 (Hold x Hx)). }
  split; rewrite Hprocs.
  - intros x [Hx| ->%list_elem_of_singleton]%elem_of_app.
    + rewrite (proj1 (Hold x Hx)). destruct (live_leader s Hs x Hx). rewrite Hself by done. set_solver.
    + rewrite Htg. destruct Hnew as [[-> _]|[-> _]].
      * destruct (live_leader s Hs cur Hc). rewrite Hself by done. set_solver.
      * split; [set_solver|]. by apply Z.eqb_eq.
  - intros x y (x' & ? & -> & -> & _)%Hrep (y' & ? & -> & -> & _)%Hrep.
    by apply (group_one_session s Hs).
  - intros r q Hr (q' & Hq' & -> & -> & _)%Hrep Hl Hqr.
    apply elem_of_app in Hr as [Hr| ->%list_elem_of_singleton]; [|by destruct (Hfree q')].
    destruct (Hrep r) as (r' & _ & _ & -> & Hrr); [set_solver|]. rewrite (Hrr Hr).
    rewrite Hself in Hl by done. by apply (group_namesake s Hs).
  - intros x [Hx| ->%list_elem_of_singleton]%elem_of_app; unfold task_pgrp, task_session.
    + destruct (Hold x Hx) as [-> ->]. by apply (leader_named s Hs).
    + rewrite Htg. destruct Hnew as [[-> ->]|[_ ->]]; [|done].
      apply (leader_named s Hs cur Hc).
Qed.

Lemma setpriority_ok e cur which who n s :
  env_ok e -> table_ok s -> table_ok (setpriority e cur which who n s).2.
Proof.
  intros He Hs. destruct (decide (PRIO_PROCESS <= which <= PRIO_USER)) as [Hw|Hw].
  - rewrite (setpriority_loop e He) by done.
    destruct (set_prio_loop_spec e He cur (clamp n) (targets e cur which who s) (- ESRCH) s (clamp_range n))
      as [(Hp & Hg & _ & _ & Ht) _].
    apply (table_ok_same s); try done. intros x. by rewrite Ht.
  - unfold setpriority. replace ((PRIO_USER <? which) || (which <? PRIO_PROCESS)) with true; [done|].
    symmetry. rewrite orb_true_iff, !Z.ltb_lt. unfold PRIO_USER, PRIO_PROCESS in *. lia.
Qed.

Lemma step_ok s s' : step s s' -> table_ok s -> table_ok s'.
Proof.
  intros Hst Hs. destruct Hst.
  - by apply setpgid_ok.
  - by apply setsid_ok.
  - by apply setpriority_ok.
  - by apply fork_ok.
  - by apply release_ok.
  - apply (table_ok_same s); try done. intros x. cbn. by destruct (x =? p).
Qed.

(** C20. Whatever processes call, fork and exit, from the first process on: all members of
    a process group are in one session, a session leader is the process its session is
    named after and stays in the group of that name, and so no call ever moves a process
    into a group of another session. *)
Theorem sessions_separate t x s :
  tgid t = 1 -> leader x = false ->
  rtc step (first_table t x) s ->
  forall p q, p ∈ procs s -> q ∈ procs s ->
    (task_pgrp s p = task_pgrp s q -> task_session s p = task_session s q) /\
    (leader (signal_of s p) = true ->
       task_session s p = group_leader s p /\ task_pgrp s p = group_leader s p).
Proof.
  intros Ht Hx Hst.
  assert (Hs : table_ok s).
  { assert (H0 : table_ok (first_table t x)).
    { split; cbn.
      - intros p ->%list_elem_of_singleton. unfold thread_group_leader, group_leader. cbn.
        rewrite Ht. split; [by apply list_elem_of_singleton|done].
      - done.
      - done.
      - intros p _. unfold signal_of. cbn. congruence. }
    revert H0. induction Hst as [|s1 s2 s3 H12 _ IH]; [done|]. intros H1.
    apply IH. by apply (step_ok s1). }
  intros p q Hp Hq. split; [by apply (group_one_session s Hs)|by apply (leader_named s Hs)].
Qed.
End TaskSpec.

(** ** A small system

    Process 1 leads session 1; process 2, with a second thread 4, and its child 3 form
    the group 2 of that session. *)
Module TaskDemo.
Import Task TaskSpec.

Definition demo_env : task_env := {|
  pid_vnr p := p; find_vpid nr := if nr =? 0 then None else Some nr; hlist l := l;
  ns_capable _ _ := false; can_nice _ _ := false; security_task_setnice _ _ := 0;
  security_task_setpgid _ _ := 0; security_task_getpgid _ := 0; security_task_getsid _ := 0;
  make_kuid u := u; find_user _ := true |}.

Definition demo_table : table := {|
  procs := [1; 2; 3; 4];
  task_of p := if p =? 1 then MkTask 1 1 0 0 0 0 0
               else MkTask p (if p =? 4 then 2 else p) (if p =? 3 then 2 else 1) PF_FORKNOEXEC 0 1000 1000;
  sig p := if p =? 1 then MkSignal 1 1 true None else MkSignal 2 1 false (Some 7);
  user_refs := 0; announced := [] |}.

Lemma demo_env_ok : env_ok demo_env.
Proof.
  split; cbn; [done| |done]. intros nr p. destruct (Z.eqb_spec nr 0); naive_solver.
Qed.

Lemma demo_table_ok : table_ok demo_table.
Proof.
  assert (H : Forall (fun p => Forall (fun q =>
      group_leader demo_table p ∈ procs demo_table /\
      thread_group_leader demo_table (group_leader demo_table p) = true /\
      (task_pgrp demo_table p = task_pgrp demo_table q ->
       task_session demo_table p = task_session demo_table q) /\
      (thread_group_leader demo_table p = true -> task_pgrp demo_table q = p ->
       task_session demo_table q = task_session demo_table p) /\
      (leader (signal_of demo_table p) = true ->
       task_session demo_table p = group_leader demo_table p /\
       task_pgrp demo_table p = group_leader demo_table p)) (procs demo_table)) (procs demo_table)).
  { repeat constructor; vm_compute; try done; set_solver. }
  rewrite Forall_forall in H. setoid_rewrite Forall_forall in H. split.
  - intros p Hp. by destruct (H p Hp p Hp) as (?&?&_).
  - intros p q Hp Hq. by destruct (H p Hp q Hq) as (_&_&?&_).
  - intros p q Hp Hq Hl. destruct (H p Hp q Hq) as (_&_&_&Hn&_). by apply Hn.
  - intros p Hp. by destruct (H p Hp p Hp) as (_&_&_&_&?).
Qed.

Lemma demo_in p : bool_decide (p ∈ procs demo_table) = true -> p ∈ procs demo_table.
Proof. apply bool_decide_eq_true_1. Qed.

Lemma setpriority_exact_witness :
  (setpriority demo_env 2 PRIO_PGRP 0 30 demo_table).1 = 0 /\
  nice (task_of (setpriority demo_env 2 PRIO_PGRP 0 30 demo_table).2 4) = 19.
Proof.
  split; [done|].
  assert (Ht : targeted demo_env 2 PRIO_PGRP 0 demo_table 4)
    by (split; [by apply demo_in|done]).
  exact (proj1 (proj2 (setpriority_exact demo_env demo_env_ok 2 PRIO_PGRP 0 30 demo_table demo_table_ok
    (ltac:(done)))) 4 Ht eq_refl).
Defined.

Lemma setpriority_getpriority_witness :
  (getpriority demo_env 2 PRIO_USER 1000 (setpriority demo_env 2 PRIO_USER 1000 5 demo_table).2).1 = 15.
Proof.
  destruct (setpriority_getpriority demo_env demo_env_ok 2 PRIO_USER 1000 5 demo_table demo_table_ok
    (ltac:(done)) eq_refl) as [H _].
  rewrite H. done.
Defined.

Lemma setpgid_getpgid_witness :
  getpgid demo_env 2 3 (setpgid demo_env 2 3 0 demo_table).2 = 3.
Proof.
  exact (proj1 (setpgid_getpgid demo_env demo_env_ok 2 3 0 demo_table demo_table_ok
    (demo_in 2 eq_refl) (fun _ => eq_refl) eq_refl)).
Defined.

Lemma setsid_correct_witness :
  (setsid demo_env 3 demo_table).1 = 3 /\
  getsid demo_env 3 0 (setsid demo_env 3 demo_table).2 = 3.
Proof.
  pose proof (setsid_correct demo_env demo_env_ok 3 demo_table demo_table_ok (demo_in 3 eq_refl)) as H.
  split; [done|]. destruct H as (_ & H & _). exact H.
Defined.

(** Process 1 forks process 2, which becomes a session leader. *)
Lemma sessions_separate_witness :
  let t := MkTask 1 1 0 0 0 0 0 in
  let x := MkSignal 0 0 false None in
  let s := (setsid demo_env 2 (attach_new_task 1 2 0 (first_table t x))).2 in
  task_session s 2 = 2 /\ (task_pgrp s 1 = task_pgrp s 2 -> task_session s 1 = task_session s 2).
Proof.
  split; [done|].
  refine (proj1 (sessions_separate (MkTask 1 1 0 0 0 0 0) (MkSignal 0 0 false None) _ eq_refl eq_refl _
    1 2 _ _)).
  - eapply rtc_l; [|eapply rtc_l; [|apply rtc_refl]].
    + apply (step_fork 1 2 0); cbn; [set_solver..|]. intros q ->%list_elem_of_singleton. done.
    + apply (step_setsid demo_env 2); [apply demo_env_ok|]. apply (bool_decide_eq_true_1 _). done.
  - apply (bool_decide_eq_true_1 _). done.
  - apply (bool_decide_eq_true_1 _). done.
Defined.
End TaskDemo.
