(* ===== verification/Uts.v ===== *)
(** * System names ([kernel/sys.c])

    [newuname], [uname], [olduname], [sethostname], [gethostname] and [setdomainname] on
    the bytes of [struct new_utsname] and of the caller's memory.  The release string and
    the patch level are generated by the build; they are fields of [uts_env] with the
    caller's personality, its privilege and the outcome of accesses to its memory. *)
From S2P Require Import Prelude Bytes.

Module Uts.
Import Bytes.

Definition __NEW_UTS_LEN : Z := 64.
Definition __OLD_UTS_LEN : Z := 8.
Definition UNAME26 : Z := 0x20000.
Definition PER_MASK : Z := 0xff.
Definition PER_LINUX32 : Z := 8.

(** The six arrays of [__NEW_UTS_LEN + 1] bytes. *)
Record utsname := Utsname {
  sysname : list Z; nodename : list Z; release : list Z; version : list Z;
  machine : list Z; domainname : list Z
}.

Definition uts_bytes (u : utsname) : list Z :=
  sysname u ++ nodename u ++ release u ++ version u ++ machine u ++ domainname u.
Definition set_nodename (l : list Z) (u : utsname) : utsname :=
  Utsname (sysname u) l (release u) (version u) (machine u) (domainname u).
Definition set_domainname (l : list Z) (u : utsname) : utsname :=
  Utsname (sysname u) (nodename u) (release u) (version u) (machine u) l.

(** The names of the caller's namespace and the caller's memory. *)
Record ustate := Ustate { names : utsname; mem : memory }.

Record uts_env := {
  UTS_RELEASE : list Z;                    (* without the final NUL *)
  LINUX_VERSION_PATCHLEVEL : Z;
  COMPAT_UTS_MACHINE : option (list Z);    (* with the final NUL; None when not defined *)
  personality : Z;
  capable_admin : bool;                    (* CAP_SYS_ADMIN over the uts namespace *)
  ua : uaccess
}.

Section calls.
Context (e : uts_env).

(** [copy_to_user] of a buffer: the bytes that were not copied, and the memory. *)
Definition put (a : Z) (bs : list Z) (m : memory) : Z * memory :=
  let n := copy_to_user (ua e) a (zlen bs) in (n, store m a (ztake (zlen bs - n) bs)).

Definition dot : Z := 46.
Definition isdigit (c : Z) : bool := (48 <=? c) && (c <=? 57).

(** The end of [UTS_RELEASE] after its version number. *)
Fixpoint skip_version (ndots : Z) (rest : list Z) : list Z :=
  match rest with
  | [] => []
  | c :: r =>
      if (c =? dot) && (3 <=? ndots + 1) then rest
      else if negb (isdigit c) && negb (c =? dot) then rest
      else skip_version (if c =? dot then ndots + 1 else ndots) r
  end.

(** [%u]: an [unsigned int] has at most ten digits. *)
Fixpoint dec (fuel : nat) (v : Z) : list Z :=
  match fuel with
  | O => []
  | S fuel => if v <? 10 then [48 + v] else dec fuel (v / 10) ++ [48 + v mod 10]
  end.
Definition fmt_u (v : Z) : list Z := dec 10 v.

(** [scnprintf]: at most [size - 1] characters and a NUL; the characters written. *)
Definition scnprintf (size : Z) (text : list Z) : list Z := ztake (size - 1) text.

Definition sizeof_buf : Z := 65.
Definition release26 : list Z :=
  let rest := skip_version 0 (UTS_RELEASE e) in
  let v := u32 (LINUX_VERSION_PATCHLEVEL e + 60) in
  [50; dot; 54; dot] ++ fmt_u v ++ rest.

Definition override_release (a len : Z) (m : memory) : Z * memory :=
  if flag_set (personality e) UNAME26 then
    let copy := Z.max 1 (Z.min len sizeof_buf) in
    let text := scnprintf copy release26 in
    put a (text ++ [0]) m
  else (0, m).

Definition override_architecture (a : Z) (m : memory) : bool * memory :=
  match COMPAT_UTS_MACHINE e with
  | Some name =>
      if Z.land (personality e) PER_MASK =? PER_LINUX32 then
        let '(n, m) := put a name m in (negb (n =? 0), m)
      else (false, m)
  | None => (false, m)
  end.

Definition sizeof_new : Z := 65.
Definition off_release : Z := 2 * sizeof_new.
Definition off_machine : Z := 4 * sizeof_new.

(** What [newuname] and [uname] share: the structure, then the two overrides. *)
Definition copy_names (tmp : list Z) (name : Z) (s : ustate) : Z * ustate :=
  let '(n, m) := put name tmp (mem s) in
  if negb (n =? 0) then (- EFAULT, Ustate (names s) m)
  else
    let '(n, m) := override_release (name + off_release) sizeof_new m in
    if negb (n =? 0) then (- EFAULT, Ustate (names s) m)
    else
      let '(bad, m) := override_architecture (name + off_machine) m in
      (if bad then - EFAULT else 0, Ustate (names s) m).

Definition newuname (name : Z) (s : ustate) : Z * ustate :=
  copy_names (uts_bytes (names s)) name s.

(** [struct old_utsname] has the first five arrays. *)
Definition sizeof_old_utsname : Z := 5 * sizeof_new.
Definition uname (name : Z) (s : ustate) : Z * ustate :=
  if name =? 0 then (- EFAULT, s)
  else copy_names (ztake sizeof_old_utsname (uts_bytes (names s))) name s.

(** [struct oldold_utsname] has five arrays of nine bytes, cleared first. *)
Definition sizeof_oldold : Z := 9.
Definition olduname (name : Z) (s : ustate) : Z * ustate :=
  if name =? 0 then (- EFAULT, s)
  else
    let u := names s in
    let tmp := (fun f => ztake __OLD_UTS_LEN f ++ [0]) <$>
               [sysname u; nodename u; release u; version u; machine u] in
    let '(n, m) := put name (mjoin tmp) (mem s) in
    if negb (n =? 0) then (- EFAULT, Ustate u m)
    else
      let '(bad, m) := override_architecture (name + 4 * sizeof_oldold) m in
      if bad then (- EFAULT, Ustate u m)
      else
        let '(n, m) := override_release (name + 2 * sizeof_oldold) sizeof_oldold m in
        (if negb (n =? 0) then - EFAULT else 0, Ustate u m).

(** [memcpy] of the new name and [memset] of the rest of the array. *)
Definition padded (bs : list Z) : list Z := bs ++ replicate (Z.to_nat (sizeof_new - zlen bs)) 0.

Definition sethostname (name len : Z) (s : ustate) : Z * ustate :=
  if negb (capable_admin e) then (- EPERM, s)
  else if (len <? 0) || (__NEW_UTS_LEN <? len) then (- EINVAL, s)
  else if copy_from_user (ua e) name len =? 0 then
    (0, Ustate (set_nodename (padded (load (mem s) name len)) (names s)) (mem s))
  else (- EFAULT, s).

(** [strlen] of an array; [None] when there is no NUL in it. *)
Fixpoint strlen (l : list Z) : option Z :=
  match l with
  | [] => None
  | c :: r => if c =? 0 then Some 0 else n ← strlen r; Some (1 + n)
  end.

Definition gethostname (name len : Z) (s : ustate) : option (Z * ustate) :=
  if len <? 0 then Some (- EINVAL, s)
  else
    n ← strlen (nodename (names s));
    let i := 1 + n in
    let i := if len <? i then len else i in
    let '(bad, m) := put name (ztake i (nodename (names s))) (mem s) in
    Some (if negb (bad =? 0) then - EFAULT else 0, Ustate (names s) m).

Definition setdomainname (name len : Z) (s : ustate) : Z * ustate :=
  if negb (capable_admin e) then (- EPERM, s)
  else if (len <? 0) || (__NEW_UTS_LEN <? len) then (- EINVAL, s)
  else if copy_from_user (ua e) name len =? 0 then
    (0, Ustate (set_domainname (padded (load (mem s) name len)) (names s)) (mem s))
  else (- EFAULT, s).
End calls.
End Uts.
