(* ===== verification/UtsSpec.v ===== *)
(** * Correctness of the system names

    The calls that report the names stay inside the caller's structure and leave NUL
    terminated strings in it; a host name that was set is read back. *)
From S2P Require Import Prelude Bytes Uts.

Module UtsSpec.
Import Bytes Uts.

(** An array of [n] bytes at [a] that holds a string. *)
Definition terminated (m : memory) (a n : Z) : Prop := exists k, 0 <= k < n /\ m (a + k) = 0.

(** The arrays of the kernel's structure have their size and end in NUL. *)
Definition array_ok (f : list Z) : Prop := exists g, zlen g = 64 /\ f = g ++ [0].
Definition names_ok (u : utsname) : Prop :=
  array_ok (sysname u) /\ array_ok (nodename u) /\ array_ok (release u) /\
  array_ok (version u) /\ array_ok (machine u) /\ array_ok (domainname u).

(** A copy leaves out at most what was asked for; the name of the compatible machine is
    a string that fits the smallest of the three structures. *)
Record env_ok (e : uts_env) : Prop := {
  copy_range : forall a n, 0 <= n -> 0 <= copy_to_user (ua e) a n <= n;
  machine_fits : forall l, COMPAT_UTS_MACHINE e = Some l -> exists g, l = g ++ [0] /\ zlen g < sizeof_oldold
}.

(** ** Stores *)

Lemma store_out m a bs x : ~ (a <= x < a + zlen bs) -> store m a bs x = m x.
Proof.
  intros Hx. unfold store. destruct (Z.leb_spec a x); [|done].
  destruct (Z.ltb_spec x (a + zlen bs)); [|done]. lia.
Qed.

Lemma store_last m a g x : store m a (g ++ [x]) (a + zlen g) = x.
Proof.
  unfold store. rewrite zlen_app. change (zlen [x]) with 1. pose proof (zlen_nonneg g).
  replace (a <=? a + zlen g) with true by (symmetry; apply Z.leb_le; lia).
  replace (a + zlen g <? _) with true by (symmetry; apply Z.ltb_lt; lia). cbn.
  replace (Z.to_nat (a + zlen g - a)) with (length g + 0)%nat by (unfold zlen; lia).
  rewrite lookup_app_r by lia. replace (length g + 0 - length g)%nat with 0%nat by lia. done.
Qed.

Lemma load_same m m' a n :
  (forall x, a <= x < a + n -> m x = m' x) -> load m a n = load m' a n.
Proof.
  intros Hm. unfold load. apply list_fmap_ext. intros i k Hk.
  apply lookup_seqZ in Hk. apply Hm. lia.
Qed.

Lemma load_prefix m a n k : 0 <= n <= k -> load m a n = ztake n (load m a k).
Proof.
  intros Hn. unfold load, ztake. rewrite <- fmap_take. f_equal. apply list_eq. intros i.
  destruct (decide (Z.of_nat i < n)).
  - rewrite lookup_take_lt, !lookup_seqZ_lt by lia. done.
  - rewrite lookup_take_ge, lookup_seqZ_ge by lia. done.
Qed.

(** Reading a part of what was stored. *)
Lemma load_store_part m a b1 b2 b3 :
  load (store m a (b1 ++ b2 ++ b3)) (a + zlen b1) (zlen b2) = b2.
Proof.
  pose proof (zlen_nonneg b1). pose proof (zlen_nonneg b2). pose proof (zlen_nonneg b3).
  apply bytes_ext; [by apply zlen_load|]. rewrite zlen_load by done. intros x Hx.
  unfold load. rewrite list_lookup_fmap, lookup_seqZ_lt by lia.
  cbn [fmap option_fmap option_map default from_option id]. unfold store. rewrite !zlen_app.
  replace (_ <=? _) with true by (symmetry; apply Z.leb_le; lia).
  replace (_ <? _) with true by (symmetry; apply Z.ltb_lt; lia). cbn [andb].
  replace (Z.to_nat _) with (length b1 + Z.to_nat x)%nat by (unfold zlen in *; lia).
  rewrite lookup_app_r by lia. replace (_ + _ - _)%nat with (Z.to_nat x) by lia.
  rewrite lookup_app_l by (unfold zlen in *; lia). done.
Qed.

Section calls.
Context (e : uts_env) (He : env_ok e).

Lemma put_spec a bs m :
  let r := put e a bs m in
  (forall x, ~ (a <= x < a + zlen bs) -> r.2 x = m x) /\ (r.1 = 0 -> r.2 = store m a bs).
Proof.
  cbn. pose proof (copy_range e He a (zlen bs) (zlen_nonneg bs)) as Hn. split.
  - intros x Hx. apply store_out. rewrite zlen_take by lia. lia.
  - intros ->. rewrite ztake_ge; [done|lia].
Qed.

(** ** A structure of [c] arrays of [w] bytes

    [m] differs from [m0] only inside the structure at [name], whose arrays are strings
    and whose second array is [node]. *)
Definition filled (name c w : Z) (node : list Z) (m0 m : memory) : Prop :=
  (forall x, ~ (name <= x < name + c * w) -> m x = m0 x) /\
  (forall i, 0 <= i < c -> terminated m (name + i * w) w) /\
  load m (name + w) w = node.
Definition inside (name c w : Z) (m0 m : memory) : Prop :=
  forall x, ~ (name <= x < name + c * w) -> m x = m0 x.

(** Writing a string into a later array keeps this. *)
Lemma put_field name c w node m0 m j g :
  filled name c w node m0 m -> 2 <= j < c -> zlen g < w ->
  let r := put e (name + j * w) (g ++ [0]) m in
  inside name c w m0 r.2 /\ (r.1 = 0 -> filled name c w node m0 r.2).
Proof.
  intros (Hout & Hterm & Hnode) Hj Hg r. subst r.
  destruct (put_spec (name + j * w) (g ++ [0]) m) as [Hframe Hdone].
  destruct (put e (name + j * w) (g ++ [0]) m) as [n m']. cbn [fst snd] in *.
  pose proof (zlen_nonneg g). rewrite zlen_app in Hframe. change (zlen [0]) with 1 in Hframe.
  assert (Hin : inside name c w m0 m').
  { intros x Hx. rewrite Hframe by nia. by apply Hout. }
  split; [done|]. intros Hn. split_and!; [done| |].
  - intros i Hi. destruct (decide (i = j)) as [->|Hij].
    + exists (zlen g). split; [lia|]. rewrite (Hdone Hn). apply store_last.
    + destruct (Hterm i Hi) as (k & Hk & Hz). exists k. split; [done|]. rewrite Hframe by nia. done.
  - rewrite <- Hnode. apply load_same. intros x Hx. apply Hframe. nia.
Qed.

Lemma inside_refl name c w node m0 m : filled name c w node m0 m -> inside name c w m0 m.
Proof. by intros [? _]. Qed.

Lemma override_release_field name c w node m0 m :
  filled name c w node m0 m -> 2 < c -> 1 <= w <= sizeof_buf ->
  let r := override_release e (name + 2 * w) w m in
  inside name c w m0 r.2 /\ (r.1 = 0 -> filled name c w node m0 r.2).
Proof.
  intros Hf Hc Hw. unfold override_release.
  destruct (flag_set _ _); [|split; [by apply (inside_refl _ _ _ node)|done]].
  apply put_field; [done|lia|]. unfold scnprintf, sizeof_buf in *.
  rewrite zlen_take by lia. lia.
Qed.

Lemma override_architecture_field name c w node m0 m :
  filled name c w node m0 m -> 4 < c -> sizeof_oldold <= w ->
  let r := override_architecture e (name + 4 * w) m in
  inside name c w m0 r.2 /\ (r.1 = false -> filled name c w node m0 r.2).
Proof.
  intros Hf Hc Hw. unfold override_architecture.
  destruct (COMPAT_UTS_MACHINE e) as [l|] eqn:El; [|split; [by apply (inside_refl _ _ _ node)|done]].
  destruct (_ =? _); [|split; [by apply (inside_refl _ _ _ node)|done]].
  destruct (machine_fits e He l El) as (g & -> & Hg).
  pose proof (put_field name c w node m0 m 4 g Hf) as Hp.
  destruct (put e (name + 4 * w) (g ++ [0]) m) as [n m']. cbn in *.
  destruct Hp as [Hi Hd]; [lia..|]. split; [done|]. intros Hn%negb_false_iff. apply Hd. lia.
Qed.

(** ** The copied structure *)

Definition string_of_size (w : Z) (f : list Z) : Prop := exists g, f = g ++ [0] /\ zlen g + 1 = w.

Lemma string_zlen w f : string_of_size w f -> zlen f = w.
Proof. intros (g & -> & <-). by rewrite zlen_app. Qed.

Lemma zlen_mjoin w fs : Forall (string_of_size w) fs -> zlen (mjoin fs) = Z.of_nat (length fs) * w.
Proof.
  induction 1 as [|f fs Hf _ IH]; [done|]. change (mjoin (f :: fs)) with (f ++ mjoin fs).
  rewrite zlen_app, (string_zlen w f Hf), IH. cbn [length]. lia.
Qed.

(** The [i]th array inside the whole. *)
Lemma mjoin_split w fs (i : nat) f :
  Forall (string_of_size w) fs -> fs !! i = Some f ->
  exists b1 b3, mjoin fs = b1 ++ f ++ b3 /\ zlen b1 = Z.of_nat i * w.
Proof.
  intros Hall. revert i. induction Hall as [|f0 fs Hf0 Hall IH]; intros i Hi; [done|].
  destruct i as [|i]; cbn in Hi.
  - simplify_eq. by exists [], (mjoin fs).
  - destruct (IH i Hi) as (b1 & b3 & Heq & Hb). exists (f0 ++ b1), b3.
    change (mjoin (f0 :: fs)) with (f0 ++ mjoin fs). rewrite Heq, <- app_assoc. split; [done|].
    rewrite zlen_app, (string_zlen w f0 Hf0). lia.
Qed.

Lemma filled_store name w fs node m :
  Forall (string_of_size w) fs -> fs !! 1%nat = Some node ->
  filled name (Z.of_nat (length fs)) w node m (store m name (mjoin fs)).
Proof.
  intros Hall Hnode. split_and!.
  - intros x Hx. apply store_out. by rewrite (zlen_mjoin w).
  - intros i Hi. destruct (lookup_lt_is_Some_2 fs (Z.to_nat i)) as [f Hf]; [lia|].
    destruct (mjoin_split w fs _ f Hall Hf) as (b1 & b3 & Heq & Hb).
    rewrite Forall_lookup in Hall. destruct (Hall _ _ Hf) as (g & -> & Hg).
    pose proof (zlen_nonneg g). exists (zlen g). split; [lia|].
    replace (name + i * w) with (name + zlen b1) by (rewrite Hb, Z2Nat.id by lia; done).
    pose proof (load_store_part m name b1 (g ++ [0]) b3) as Hl. rewrite <- Heq in Hl.
    revert Hl. generalize (store m name (mjoin fs)) as m'. intros m' Hl.
    assert (Hk : load m' (name + zlen b1) (zlen (g ++ [0])) !! Z.to_nat (zlen g) = Some (m' (name + zlen b1 + zlen g))).
    { unfold load. rewrite list_lookup_fmap, lookup_seqZ_lt by (rewrite zlen_app; change (zlen [0]) with 1; lia).
      cbn. do 2 f_equal. lia. }
    rewrite Hl in Hk. rewrite lookup_app_r in Hk by (unfold zlen; lia).
    replace (Z.to_nat (zlen g) - length g)%nat with 0%nat in Hk by (unfold zlen; lia). cbn in Hk. congruence.
  - destruct (mjoin_split w fs _ node Hall Hnode) as (b1 & b3 & Heq & Hb).
    rewrite Forall_lookup in Hall. pose proof (string_zlen w node (Hall _ _ Hnode)) as Hw.
    rewrite Heq. replace (name + w) with (name + zlen b1) by lia. rewrite <- Hw at 1.
    apply load_store_part.
Qed.

(** The three calls, with the number and the size of the arrays they report. *)
Inductive name_call := NewUname | Uname | OldUname.
Definition run_name (c : name_call) : Z -> ustate -> Z * ustate :=
  match c with NewUname => newuname e | Uname => uname e | OldUname => olduname e end.
Definition arrays (c : name_call) : Z := match c with NewUname => 6 | _ => 5 end.
Definition array_size (c : name_call) : Z := match c with OldUname => 9 | _ => 65 end.
Definition reported (c : name_call) (f : list Z) : list Z :=
  match c with OldUname => ztake __OLD_UTS_LEN f ++ [0] | _ => f end.

Lemma array_string f : array_ok f -> string_of_size 65 f.
Proof. intros (g & Hg & ->). exists g. split; [done|lia]. Qed.

Lemma array_short f : array_ok f -> string_of_size 9 (ztake __OLD_UTS_LEN f ++ [0]).
Proof.
  intros (g & Hg & ->). eexists. split; [done|]. unfold __OLD_UTS_LEN.
  rewrite zlen_take by lia. rewrite zlen_app. change (zlen [0]) with 1. lia.
Qed.

Lemma copy_names_spec name fs node s :
  Forall (string_of_size 65) fs -> (4 < length fs)%nat -> fs !! 1%nat = Some node ->
  let r := copy_names e (mjoin fs) name s in
  names r.2 = names s /\ (r.1 = 0 \/ r.1 = - EFAULT) /\
  inside name (Z.of_nat (length fs)) 65 (mem s) (mem r.2) /\
  (r.1 = 0 -> filled name (Z.of_nat (length fs)) 65 node (mem s) (mem r.2)).
Proof.
  intros Hall Hlen Hnode. unfold copy_names.
  destruct (put_spec name (mjoin fs) (mem s)) as [Hframe Hdone].
  rewrite (zlen_mjoin 65) in Hframe by done.
  destruct (put e name (mjoin fs) (mem s)) as [n m]. cbn [fst snd] in *.
  destruct (Z.eqb_spec n 0) as [Hn|Hn]; cbn [negb]; [|split_and!; try done; by right].
  assert (Hf : filled name (Z.of_nat (length fs)) 65 node (mem s) m)
    by (rewrite (Hdone Hn); by apply filled_store).
  change off_release with (2 * 65). change off_machine with (4 * 65). change sizeof_new with 65.
  destruct (override_release_field name _ 65 node (mem s) m Hf) as [Hi Hd]; [lia|done|].
  destruct (override_release e (name + 2 * 65) 65 m) as [n1 m1]. cbn [fst snd] in *.
  destruct (Z.eqb_spec n1 0) as [Hn1|Hn1]; cbn [negb]; [|split_and!; try done; by right].
  destruct (override_architecture_field name _ 65 node (mem s) m1 (Hd Hn1)) as [Hi2 Hd2]; [lia|done|].
  destruct (override_architecture e (name + 4 * 65) m1) as [bad m2]. cbn [fst snd names mem] in *.
  destruct bad; split_and!; auto; done.
Qed.

Lemma newuname_spec name s :
  names_ok (names s) ->
  let r := newuname e name s in
  names r.2 = names s /\ (r.1 = 0 \/ r.1 = - EFAULT) /\ inside name 6 65 (mem s) (mem r.2) /\
  (r.1 = 0 -> filled name 6 65 (nodename (names s)) (mem s) (mem r.2)).
Proof.
  intros (H1 & H2 & H3 & H4 & H5 & H6).
  set (fs := [sysname (names s); nodename (names s); release (names s); version (names s);
              machine (names s); domainname (names s)]).
  assert (Hall : Forall (string_of_size 65) fs) by (repeat constructor; by apply array_string).
  unfold newuname. replace (uts_bytes (names s)) with (mjoin fs)
    by (unfold uts_bytes; cbn; by rewrite app_nil_r).
  apply (copy_names_spec name fs); [done|cbn; lia|done].
Qed.

(** [newuname], [uname] and [olduname] return 0 or [-EFAULT], never write outside the
    structure they are given, and on success leave a NUL terminated string in each of
    its arrays, also after the release and the machine were overridden for an old
    personality; the second array is the host name. *)
Theorem uname_correct c name s :
  names_ok (names s) ->
  let r := run_name c name s in
  names r.2 = names s /\ (r.1 = 0 \/ r.1 = - EFAULT) /\
  (forall x, ~ (name <= x < name + arrays c * array_size c) -> mem r.2 x = mem s x) /\
  (r.1 = 0 ->
   (forall i, 0 <= i < arrays c -> terminated (mem r.2) (name + i * array_size c) (array_size c)) /\
   load (mem r.2) (name + array_size c) (array_size c) = reported c (nodename (names s))).
Proof.
  intros (H1 & H2 & H3 & H4 & H5 & H6) r. subst r. destruct c; cbn [run_name arrays array_size reported].
  - destruct (newuname_spec name s) as (Ha & Hb & Hc & Hd); [by split_and!|].
    split_and!; try done. intros Hr. by destruct (Hd Hr) as (_ & ? & ?).
  - set (fs := [sysname (names s); nodename (names s); release (names s); version (names s);
                machine (names s)]).
    assert (Hall : Forall (string_of_size 65) fs) by (repeat constructor; by apply array_string).
    unfold uname. destruct (name =? 0); [split_and!; try done; by right|].
    replace (ztake sizeof_old_utsname (uts_bytes (names s))) with (mjoin fs).
    2: { unfold uts_bytes. replace (_ ++ _ ++ _ ++ _ ++ _ ++ _) with (mjoin fs ++ domainname (names s))
           by (cbn; by rewrite app_nil_r, <- !app_assoc).
         rewrite ztake_app_le by (rewrite (zlen_mjoin 65) by done; done).
         rewrite ztake_ge; [done|]. by rewrite (zlen_mjoin 65). }
    destruct (copy_names_spec name fs (nodename (names s)) s Hall) as (Ha & Hb & Hc & Hd); [cbn; lia|done|].
    split_and!; try done. intros Hr. by destruct (Hd Hr) as (_ & ? & ?).
  - unfold olduname. destruct (name =? 0); [split_and!; try done; by right|].
    set (fs := _ <$> _).
    assert (Hall : Forall (string_of_size 9) fs) by (repeat constructor; by apply array_short).
    set (node := ztake __OLD_UTS_LEN (nodename (names s)) ++ [0]).
    destruct (put_spec name (mjoin fs) (mem s)) as [Hframe Hdone].
    rewrite (zlen_mjoin 9) in Hframe by done.
    assert (Hf : filled name 5 9 node (mem s) (store (mem s) name (mjoin fs))).
    { apply (filled_store name 9 fs node); done. }
    destruct (put e name (mjoin fs) (mem s)) as [n m]. cbn [fst snd] in *.
    destruct (Z.eqb_spec n 0) as [Hn|Hn]; cbn [negb]; [|split_and!; try done; by right].
    rewrite <- (Hdone Hn) in Hf. change sizeof_oldold with 9.
    destruct (override_architecture_field name 5 9 node (mem s) m Hf) as [Hi Hd]; [lia|done|].
    destruct (override_architecture e (name + 4 * 9) m) as [bad m1]. cbn [fst snd] in *.
    destruct bad; [split_and!; try done; by right|].
    destruct (override_release_field name 5 9 node (mem s) m1 (Hd eq_refl)) as [Hi2 Hd2]; [lia|done|].
    destruct (override_release e (name + 2 * 9) 9 m1) as [n2 m2]. cbn [fst snd names mem] in *.
    destruct (Z.eqb_spec n2 0) as [Hn2|Hn2]; cbn [negb]; split_and!; auto; try done.
    intros _. by destruct (Hd2 Hn2) as (_ & ? & ?).
Qed.

(** ** The host name *)

Lemma strlen_padded g k : Forall (fun c => c <> 0) g -> strlen (g ++ 0 :: k) = Some (zlen g).
Proof.
  induction 1 as [|c g Hc _ IH]; [done|]. cbn. apply Z.eqb_neq in Hc. rewrite Hc, IH.
  cbn. f_equal. unfold zlen. cbn. lia.
Qed.

Lemma padded_cons bs :
  zlen bs <= 64 -> padded bs = bs ++ 0 :: replicate (Z.to_nat (64 - zlen bs)) 0.
Proof.
  intros Hb. unfold padded, sizeof_new.
  by replace (Z.to_nat (65 - zlen bs)) with (S (Z.to_nat (64 - zlen bs))) by lia.
Qed.

Lemma padded_ok bs : zlen bs <= 64 -> array_ok (padded bs).
Proof.
  intros Hb. pose proof (zlen_nonneg bs). exists (bs ++ replicate (Z.to_nat (64 - zlen bs)) 0). split.
  - rewrite zlen_app. unfold zlen at 2. rewrite length_replicate. lia.
  - unfold padded, sizeof_new. rewrite <- app_assoc. f_equal.
    replace (Z.to_nat (65 - zlen bs)) with (Z.to_nat (64 - zlen bs) + 1)%nat by lia.
    by rewrite replicate_add.
Qed.

Lemma strlen_array f : array_ok f -> exists n, strlen f = Some n /\ 0 <= n <= 64.
Proof.
  intros (g & Hg & ->). rewrite <- Hg. clear Hg. induction g as [|c g IH]; [by exists 0|].
  cbn. destruct (c =? 0); [exists 0; split; [done|split; [done|apply zlen_nonneg]]|].
  destruct IH as (n & -> & Hn). exists (1 + n). split; [done|]. unfold zlen in *. cbn. lia.
Qed.

(** C21. A host name of at most 64 bytes that [sethostname] accepted is read back by
    [gethostname], with its NUL, cut to the caller's buffer, and by [newuname]; the names
    stay well formed, and [gethostname] never runs past its array. *)
Theorem hostname_roundtrip name len buf n s :
  names_ok (names s) ->
  let r := sethostname e name len s in
  let bs := load (mem s) name len in
  r.1 = 0 -> Forall (fun c => c <> 0) bs ->
  names_ok (names r.2) /\ mem r.2 = mem s /\
  exists res s', gethostname e buf n r.2 = Some (res, s') /\
    (res = 0 -> load (mem s') buf (Z.min n (len + 1)) = ztake n (bs ++ [0])) /\
    ((newuname e buf r.2).1 = 0 ->
     load (mem (newuname e buf r.2).2) (buf + 65) (len + 1) = bs ++ [0]).
Proof.
  intros Hok r bs Hr Hbs.
  assert (H : 0 <= len <= 64 /\ r = (0, Ustate (set_nodename (padded bs) (names s)) (mem s))).
  { subst r. unfold sethostname, __NEW_UTS_LEN in *. destruct (capable_admin e); [|done]. cbn [negb] in *.
    destruct ((len <? 0) || (64 <? len)) eqn:El; [done|]. split_bools.
    destruct (_ =? 0); [|done]. split; [lia|done]. }
  destruct H as [Hlen ->]. cbn [snd names mem]. clear Hr.
  assert (Hzl : zlen bs = len) by (apply zlen_load; lia).
  assert (Hnew : names_ok (set_nodename (padded bs) (names s))).
  { destruct Hok as (?&?&?&?&?&?). split_and!; try done. cbn. apply padded_ok. lia. }
  split_and!; [done|done|].
  assert (Hpad : forall i, 0 <= i <= len + 1 -> ztake i (padded bs) = ztake i (bs ++ [0])).
  { intros i Hi. rewrite padded_cons by lia.
    rewrite (cons_middle 0 bs), app_assoc. apply ztake_app_le. rewrite zlen_app. change (zlen [0]) with 1. lia. }
  assert (Huname : (newuname e buf (Ustate (set_nodename (padded bs) (names s)) (mem s))).1 = 0 ->
    load (mem (newuname e buf (Ustate (set_nodename (padded bs) (names s)) (mem s))).2) (buf + 65) (len + 1)
    = bs ++ [0]).
  { intros Hr. destruct (newuname_spec buf (Ustate (set_nodename (padded bs) (names s)) (mem s)) Hnew) as (_ & _ & _ & Hd).
    destruct (Hd Hr) as (_ & _ & Hl). cbn [names nodename set_nodename] in Hl.
    rewrite (load_prefix _ _ (len + 1) 65) by lia. rewrite Hl, Hpad by lia.
    apply ztake_ge. rewrite zlen_app. change (zlen [0]) with 1. lia. }
  unfold gethostname. destruct (Z.ltb_spec n 0) as [Hn|Hn]; [by eexists _, _|].
  cbn [nodename names set_nodename]. rewrite padded_cons, strlen_padded by (done || lia).
  cbn [mbind option_bind]. rewrite <- padded_cons by lia. rewrite Hzl.
  set (i := if n <? 1 + len then n else 1 + len).
  assert (Hi : i = Z.min n (len + 1)) by (subst i; destruct (Z.ltb_spec n (1 + len)); lia).
  clearbody i. destruct (put_spec buf (ztake i (padded bs)) (mem s)) as [_ Hdone].
  cbn [mem]. destruct (put e buf (ztake i (padded bs)) (mem s)) as [bad m]. cbn [fst snd] in *.
  eexists _, _. split; [done|]. split; [|done]. cbn [mem].
  destruct (Z.eqb_spec bad 0) as [Hb|]; [|done]. intros _. rewrite (Hdone Hb), Hpad by lia.
  assert (Hmin : ztake i (bs ++ [0]) = ztake n (bs ++ [0])).
  { destruct (Z.le_gt_cases n (len + 1)); [by f_equal; lia|].
    rewrite !ztake_ge; [done|rewrite zlen_app; change (zlen [0]) with 1; lia..]. }
  rewrite Hmin. replace (Z.min n (len + 1)) with (zlen (ztake n (bs ++ [0]))); [apply load_store|].
  rewrite zlen_take, zlen_app by lia. change (zlen [0]) with 1. lia.
Qed.
End calls.
End UtsSpec.

(** ** A caller with the personality of an old 32-bit system *)
Module UtsDemo.
Import Bytes Uts UtsSpec.

(** "6.8.0-usac" of a kernel 6.8; "i686". *)
Definition demo_env : uts_env := {|
  UTS_RELEASE := [54; 46; 56; 46; 48; 45; 117; 115; 97; 99]; LINUX_VERSION_PATCHLEVEL := 8;
  COMPAT_UTS_MACHINE := Some ([105; 54; 56; 54; 0; 0] ++ [0]);
  personality := Z.lor UNAME26 PER_LINUX32; capable_admin := true; ua := ua_ok |}.
Definition demo_name : list Z := replicate 64 0 ++ [0].
Definition demo_state : ustate :=
  Ustate (Utsname demo_name demo_name demo_name demo_name demo_name demo_name)
         (store (fun _ => 255) 1000 [117; 115; 97; 99]).

Lemma uts_env_ok : env_ok demo_env.
Proof. split; cbn; [lia|]. intros l [= <-]. by exists [105; 54; 56; 54; 0; 0]. Qed.

Lemma demo_names_ok : names_ok (names demo_state).
Proof. assert (array_ok demo_name) by (by exists (replicate 64 0)). by split_and!. Qed.

(** "2.6.68-usac" in the array of the release, "i686" in that of the machine. *)
Lemma uname_correct_witness :
  (newuname demo_env 2000 demo_state).1 = 0 /\
  load (mem (newuname demo_env 2000 demo_state).2) 2130 12 = [50; 46; 54; 46; 54; 56; 45; 117; 115; 97; 99; 0] /\
  terminated (mem (newuname demo_env 2000 demo_state).2) 2130 65.
Proof.
  split; [done|]. split; [vm_compute; done|].
  destruct (uname_correct demo_env uts_env_ok NewUname 2000 demo_state demo_names_ok) as (_ & _ & _ & H).
  destruct H as [H _]; [done|]. exact (H 2 ltac:(done)).
Defined.

Lemma hostname_roundtrip_witness :
  (sethostname demo_env 1000 4 demo_state).1 = 0 /\
  exists res s', gethostname demo_env 3000 3 (sethostname demo_env 1000 4 demo_state).2 = Some (res, s') /\
    (res = 0 -> load (mem s') 3000 3 = [117; 115; 97]).
Proof.
  split; [done|].
  destruct (hostname_roundtrip demo_env uts_env_ok 1000 4 3000 3 demo_state demo_names_ok)
    as (_ & _ & res & s' & H1 & H2 & _).
  - done.
  - repeat (constructor; [done|]). constructor.
  - exists res, s'. split; [exact H1|]. intros H. exact (H2 H).
Defined.
End UtsDemo.
