(* ===== verification/Rusage.v ===== *)
(** * Resource usage, process times, [umask] and [getcpu] ([kernel/sys.c])

    Counters of the threads of a process, of its threads that have exited and of its
    children that were waited for.  Process times, the clock conversions, the memory
    high-water mark and user memory accesses are fields of [usage_env]. *)
From S2P Require Import Prelude.

Module Rusage.

Definition RUSAGE_SELF : Z := 0.
Definition RUSAGE_CHILDREN : Z := -1.
Definition RUSAGE_BOTH : Z := -2.
Definition RUSAGE_THREAD : Z := 1.

(** The six counters that add up, in a thread, in a [signal_struct] and in a
    [struct rusage]; [long] addition wraps. *)
Record counts := Counts {
  nvcsw : Z; nivcsw : Z; minflt : Z; majflt : Z; inblock : Z; oublock : Z
}.
Definition no_counts : counts := Counts 0 0 0 0 0 0.
Definition add_counts (a b : counts) : counts :=
  Counts (i64 (nvcsw a + nvcsw b)) (i64 (nivcsw a + nivcsw b)) (i64 (minflt a + minflt b))
         (i64 (majflt a + majflt b)) (i64 (inblock a + inblock b)) (i64 (oublock a + oublock b)).

(** What [getrusage] reads under [stats_lock]: the children's and the exited threads'
    counters, and the live threads. *)
Record signal_stats := Stats {
  children_counts : counts; cutime : Z; cstime : Z; cmaxrss : Z;
  exited_counts : counts; smaxrss : Z; live_threads : list counts
}.

Record rusage := Rusage { r_counts : counts; ru_maxrss : Z; ru_utime : Z * Z; ru_stime : Z * Z }.

(** [stats k] is what the [k]th pass sees; [stats_changed] tells that a writer was active
    during the first, lockless one.  A pass that holds the lock is never repeated. *)
Record usage_env := {
  stats : nat -> signal_stats;
  stats_changed : bool;
  this_thread : counts;
  task_cputime_adjusted : Z * Z;
  thread_group_cputime_adjusted : Z * Z;
  hiwater_rss : option Z;                  (* of the address space, if the task has one *)
  ns_to_kernel_old_timeval : Z -> Z * Z;
  nsec_to_clock_t : Z -> Z;
  jiffies_64_to_clock_t : Z -> Z; clock_t_to_jiffies : Z -> Z; compat_jiffies_to_clock_t : Z -> Z;
  jiffies : Z;
  cpu : Z; cpu_to_node : Z -> Z;
  put_compat_rusage : rusage -> Z;
  ua : uaccess
}.

Section calls.
Context (e : usage_env).

Definition accumulate_thread_rusage (r t : counts) : counts := add_counts r t.

(** One pass under [stats_lock]: counters, user and system time, maximal memory; [None]
    is [BUG()]. *)
Definition gather_stats (who : Z) (g : signal_stats) : option (counts * Z * Z * Z) :=
  let self (r : counts) (maxrss : Z) :=
    let r := add_counts r (exited_counts g) in
    let maxrss := if maxrss <? smaxrss g then smaxrss g else maxrss in
    (foldl accumulate_thread_rusage r (live_threads g), maxrss) in
  if (who =? RUSAGE_BOTH) || (who =? RUSAGE_CHILDREN) then
    let r := children_counts g in
    if who =? RUSAGE_CHILDREN then Some (r, cutime g, cstime g, cmaxrss g)
    else let '(r, maxrss) := self r (cmaxrss g) in Some (r, cutime g, cstime g, maxrss)
  else if who =? RUSAGE_SELF then
    let '(r, maxrss) := self no_counts 0 in Some (r, 0, 0, maxrss)
  else None.

(** The label [retry]: [seq] is 0 in the lockless pass and 1 with the lock. *)
Fixpoint gather_retry (fuel : nat) (pass : nat) (seq who : Z) : option (counts * Z * Z * Z) :=
  match fuel with
  | O => None
  | S fuel =>
      r ← gather_stats who (stats e pass);
      if (seq =? 0) && stats_changed e then gather_retry fuel (S pass) 1 who
      else Some r
  end.

Definition max_hiwater (maxrss : Z) : Z :=
  match hiwater_rss e with Some h => if maxrss <? h then h else maxrss | None => maxrss end.

Definition finish_rusage (r : counts) (maxrss utime stime : Z) : rusage :=
  Rusage r (i64 (maxrss *u (PAGE_SIZE / 1024)))
         (ns_to_kernel_old_timeval e utime) (ns_to_kernel_old_timeval e stime).

Definition getrusage (who : Z) : option rusage :=
  if who =? RUSAGE_THREAD then
    let '(utime, stime) := task_cputime_adjusted e in
    let r := accumulate_thread_rusage no_counts (this_thread e) in
    let maxrss := smaxrss (stats e 0) in
    Some (finish_rusage r (max_hiwater maxrss) utime stime)
  else
    '(r, utime, stime, maxrss) ← gather_retry 2 0 0 who;
    if who =? RUSAGE_CHILDREN then Some (finish_rusage r maxrss utime stime)
    else
      let '(tgutime, tgstime) := thread_group_cputime_adjusted e in
      Some (finish_rusage r (max_hiwater maxrss) (utime +u tgutime) (stime +u tgstime)).

Definition sizeof_rusage : Z := 144.

(** The result and what was written at [ru]. *)
Definition sys_getrusage (who ru : Z) : option (Z * option rusage) :=
  if negb (who =? RUSAGE_SELF) && negb (who =? RUSAGE_CHILDREN) && negb (who =? RUSAGE_THREAD)
  then Some (- EINVAL, None)
  else
    r ← getrusage who;
    Some (if negb (copy_to_user (ua e) ru sizeof_rusage =? 0) then (- EFAULT, None) else (0, Some r)).

Definition compat_sys_getrusage (who : Z) : option Z :=
  if negb (who =? RUSAGE_SELF) && negb (who =? RUSAGE_CHILDREN) && negb (who =? RUSAGE_THREAD)
  then Some (- EINVAL)
  else r ← getrusage who; Some (put_compat_rusage e r).

(** ** Process times *)

Record tms := Tms { tms_utime : Z; tms_stime : Z; tms_cutime : Z; tms_cstime : Z }.

Definition do_sys_times : tms :=
  let '(tgutime, tgstime) := thread_group_cputime_adjusted e in
  Tms (nsec_to_clock_t e tgutime) (nsec_to_clock_t e tgstime)
      (nsec_to_clock_t e (cutime (stats e 0))) (nsec_to_clock_t e (cstime (stats e 0))).

Definition sizeof_tms : Z := 32.
Definition sys_times (tbuf : Z) : Z * option tms :=
  if negb (tbuf =? 0) then
    if negb (copy_to_user (ua e) tbuf sizeof_tms =? 0) then (- EFAULT, None)
    else (jiffies_64_to_clock_t e (jiffies e), Some do_sys_times)
  else (jiffies_64_to_clock_t e (jiffies e), None).

Definition clock_t_to_compat_clock_t (x : Z) : Z :=
  compat_jiffies_to_clock_t e (clock_t_to_jiffies e x).

Definition compat_sys_times (tbuf : Z) : Z * option tms :=
  if negb (tbuf =? 0) then
    let t := do_sys_times in
    let tmp := Tms (clock_t_to_compat_clock_t (tms_utime t)) (clock_t_to_compat_clock_t (tms_stime t))
                   (clock_t_to_compat_clock_t (tms_cutime t)) (clock_t_to_compat_clock_t (tms_cstime t)) in
    if negb (copy_to_user (ua e) tbuf 16 =? 0) then (- EFAULT, None)
    else (compat_jiffies_to_clock_t e (jiffies e), Some tmp)
  else (compat_jiffies_to_clock_t e (jiffies e), None).

(** ** [umask] and [getcpu] *)

Definition S_IRWXUGO : Z := 0x1ff.

(** The previous mask, and the new one. *)
Definition umask (mask : Z) (cur : Z) : Z * Z := (cur, Z.land mask S_IRWXUGO).

(** The result, and what was stored at [cpup] and [nodep]. *)
Definition getcpu (cpup nodep : Z) : Z * option Z * option Z :=
  let put a v := if copy_to_user (ua e) a 4 =? 0 then (0, Some v) else (- EFAULT, None) in
  let '(err, c) := if negb (cpup =? 0) then put cpup (cpu e) else (0, None) in
  let '(err, n) :=
    if negb (nodep =? 0) then let '(err', n) := put nodep (cpu_to_node e (cpu e)) in (Z.lor err err', n)
    else (err, None) in
  (if negb (err =? 0) then - EFAULT else 0, c, n).
End calls.

(** ** Properties *)

Section properties.
Context (e : usage_env).

(** Counters modulo 2^64 and the sum of lists of them. *)
Definition sum_counts (l : list counts) : counts := foldl add_counts no_counts l.
Definition eq_counts (a b : counts) : Prop :=
  i64 (nvcsw a) = i64 (nvcsw b) /\ i64 (nivcsw a) = i64 (nivcsw b) /\ i64 (minflt a) = i64 (minflt b) /\
  i64 (majflt a) = i64 (majflt b) /\ i64 (inblock a) = i64 (inblock b) /\ i64 (oublock a) = i64 (oublock b).

Lemma i64_add_l a b : i64 (i64 a + b) = i64 (a + b).
Proof.
  unfold i64. f_equal. replace ((a + 2 ^ 63) mod 2 ^ 64 - 2 ^ 63 + b + 2 ^ 63)
    with ((a + 2 ^ 63) mod 2 ^ 64 + b) by lia.
  rewrite Zplus_mod_idemp_l. f_equal. lia.
Qed.

Lemma i64_add_r a b : i64 (a + i64 b) = i64 (a + b).
Proof. rewrite (Z.add_comm a (i64 b)), i64_add_l. f_equal. lia. Qed.

#[export] Instance eq_counts_equiv : Equivalence eq_counts.
Proof.
  split.
  - intros a. by split_and!.
  - intros a b (?&?&?&?&?&?). by split_and!.
  - intros a b c (?&?&?&?&?&?) (?&?&?&?&?&?). split_and!; congruence.
Qed.

Lemma i64_add_cong a a' b b' : i64 a = i64 a' -> i64 b = i64 b' -> i64 (i64 (a + b)) = i64 (i64 (a' + b')).
Proof.
  intros Ha Hb. f_equal. rewrite <- (i64_add_l a), <- (i64_add_l a'), Ha.
  rewrite <- (i64_add_r _ b), <- (i64_add_r _ b'), Hb. done.
Qed.

#[export] Instance add_counts_proper : Proper (eq_counts ==> eq_counts ==> eq_counts) add_counts.
Proof.
  intros a a' (?&?&?&?&?&?) b b' (?&?&?&?&?&?). split_and!; by apply i64_add_cong.
Qed.

Lemma add_counts_assoc a b c : eq_counts (add_counts (add_counts a b) c) (add_counts a (add_counts b c)).
Proof.
  split_and!; cbn; by rewrite i64_add_l, i64_add_r, Z.add_assoc.
Qed.

Lemma i64_i64 a : i64 (i64 a) = i64 a.
Proof. pose proof (i64_add_l a 0) as H. by rewrite !Z.add_0_r in H. Qed.

Lemma add_no_counts a : eq_counts (add_counts no_counts a) a.
Proof. split_and!; cbn; by rewrite Z.add_0_l, i64_i64. Qed.

Lemma add_no_counts_r a : eq_counts (add_counts a no_counts) a.
Proof. split_and!; cbn; by rewrite Z.add_0_r, i64_i64. Qed.

Lemma accumulate_sum l r : eq_counts (foldl accumulate_thread_rusage r l) (add_counts r (sum_counts l)).
Proof.
  unfold sum_counts, accumulate_thread_rusage. revert r. induction l as [|t l IH]; intros r; cbn.
  - by rewrite add_no_counts_r.
  - rewrite (IH (add_counts r t)), (IH (add_counts no_counts t)), add_no_counts. apply add_counts_assoc.
Qed.

(** The snapshot a call works on: the locked one when the lockless pass was disturbed. *)
Definition snapshot : signal_stats := stats e (if stats_changed e then 1 else 0)%nat.

Lemma gather_retry_snapshot who r :
  (forall g, is_Some (gather_stats who g)) -> gather_stats who snapshot = Some r ->
  gather_retry e 2 0 0 who = Some r.
Proof.
  intros Htot Hr. unfold snapshot in Hr. cbn. destruct (Htot (stats e 0)) as [r0 H0].
  rewrite H0. cbn. destruct (stats_changed e); cbn in *; [by rewrite Hr|congruence].
Qed.

Lemma gather_total who :
  who ∈ [RUSAGE_SELF; RUSAGE_CHILDREN; RUSAGE_BOTH] -> forall g, is_Some (gather_stats who g).
Proof.
  intros Hw g. repeat (apply elem_of_cons in Hw as [->|Hw]; [by eexists|]). by apply not_elem_of_nil in Hw.
Qed.

(** [getrusage] always returns, with the counters of one consistent snapshot although
    its first pass takes no lock: the process' own are those of its exited and of its
    live threads together, its children's those of the children waited for, and both
    add up, modulo the width of a counter. *)
Theorem getrusage_consistent :
  exists self kids both,
    getrusage e RUSAGE_SELF = Some self /\ getrusage e RUSAGE_CHILDREN = Some kids /\
    getrusage e RUSAGE_BOTH = Some both /\
    eq_counts (r_counts self) (add_counts (exited_counts snapshot) (sum_counts (live_threads snapshot))) /\
    r_counts kids = children_counts snapshot /\
    eq_counts (r_counts both) (add_counts (r_counts kids) (r_counts self)) /\
    ru_maxrss kids = i64 (u64 (4 * cmaxrss snapshot)).
Proof.
  pose proof (fun who r Hw => gather_retry_snapshot who r (gather_total who Hw)) as Hg.
  destruct (thread_group_cputime_adjusted e) as [tu ts] eqn:Et.
  unfold getrusage. rewrite Et.
  eexists _, _, _.
  erewrite (Hg RUSAGE_SELF) by (by repeat constructor || reflexivity).
  erewrite (Hg RUSAGE_CHILDREN) by (by repeat constructor || reflexivity).
  erewrite (Hg RUSAGE_BOTH) by (by repeat constructor || reflexivity).
  cbn [mbind option_bind]. split_and!; [done|done|done| |done| |].
  - cbn. rewrite accumulate_sum. by rewrite add_no_counts.
  - cbn. rewrite !accumulate_sum, add_no_counts. apply add_counts_assoc.
  - cbn. f_equal. f_equal. unfold PAGE_SIZE. change (4096 / 1024) with 4. lia.
Qed.

(** Setting the mask twice gives back the first, cut to the permission bits. *)
Lemma umask_swap a b cur : (umask b (umask a cur).2).1 = Z.land a S_IRWXUGO.
Proof. done. Qed.
End properties.
End Rusage.
