(* ===== verification/Prctl.v ===== *)
(** * [prctl]: the layout of an address space and the modes of a task ([kernel/sys.c])

    [ExeFile] is the reference of an address space to its executable
    ([kernel/fork.c]); [PrctlMm] the operations that edit the recorded layout and the
    auxiliary vector; [Prctl] the call itself.  The architecture's own operations, the
    other subsystems [prctl] dispatches to, the areas of the address space, capabilities
    and the outcome of user memory accesses are fields of [prctl_env]. *)
From S2P Require Import Prelude Bytes.

Module ExeFile.
Definition EBUSY : Z := 16.

(** The executable of the address space, and for every file the references to it and the
    number of users that deny writing to it. *)
Record exe_state := Exe { exe_file : option Z; refs : Z -> Z; denies : Z -> Z }.

Definition bump (f k : Z) (g : Z -> Z) : Z -> Z := fun i => if i =? f then g i + k else g i.
Definition get_file (f : Z) (s : exe_state) : exe_state := Exe (exe_file s) (bump f 1 (refs s)) (denies s).
Definition fput (f : Z) (s : exe_state) : exe_state := Exe (exe_file s) (bump f (-1) (refs s)) (denies s).
Definition set_exe (f : option Z) (s : exe_state) : exe_state := Exe f (refs s) (denies s).
Definition allow_write_access (f : Z) (s : exe_state) : exe_state :=
  Exe (exe_file s) (refs s) (bump f (-1) (denies s)).

(** The areas' files in address order, the path of a file, and whether a file is open
    for writing, so that writing cannot be denied. *)
Record exe_env := { vma_files : list (option Z); f_path : Z -> Z; i_writers : Z -> bool }.

Section exe.
Context (e : exe_env).

(** The error and the state: on success one more user denies writing. *)
Definition deny_write_access (f : Z) (s : exe_state) : Z * exe_state :=
  if i_writers e f then (- ETXTBSY, s)
  else (0, Exe (exe_file s) (refs s) (bump f 1 (denies s))).

Definition get_mm_exe_file (s : exe_state) : option Z * exe_state :=
  match exe_file s with Some f => (Some f, get_file f s) | None => (None, s) end.

(** Letting the previous executable go. *)
Definition release_old (old : option Z) (s : exe_state) : exe_state :=
  match old with Some f => fput f (allow_write_access f s) | None => s end.

Definition set_mm_exe_file (new : option Z) (s : exe_state) : Z * exe_state :=
  let old := exe_file s in
  match new with
  | Some f =>
      let '(r, s) := deny_write_access f s in
      if negb (r =? 0) then (- EACCES, s)
      else (0, release_old old (set_exe (Some f) (get_file f s)))
  | None => (0, release_old old (set_exe None s))
  end.

(** The loop over the areas. *)
Fixpoint still_mapped (path : Z) (l : list (option Z)) : Z :=
  match l with
  | [] => 0
  | None :: l => still_mapped path l
  | Some f :: l => if f_path e f =? path then - EBUSY else still_mapped path l
  end.

Definition replace_mm_exe_file (new : Z) (s : exe_state) : Z * exe_state :=
  let '(ret, s) :=
    match get_mm_exe_file s with
    | (Some old, s) => (still_mapped (f_path e old) (vma_files e), fput old s)
    | (None, s) => (0, s)
    end in
  if negb (ret =? 0) then (ret, s)
  else
    let '(ret, s) := deny_write_access new s in
    if negb (ret =? 0) then (- EACCES, s)
    else
      let s := get_file new s in
      let old := exe_file s in
      (0, release_old old (set_exe (Some new) s)).
End exe.
End ExeFile.

Module PrctlMm.
Import Bytes ExeFile.

Definition PR_SET_MM_START_CODE : Z := 1.
Definition PR_SET_MM_END_CODE : Z := 2.
Definition PR_SET_MM_START_DATA : Z := 3.
Definition PR_SET_MM_END_DATA : Z := 4.
Definition PR_SET_MM_START_STACK : Z := 5.
Definition PR_SET_MM_START_BRK : Z := 6.
Definition PR_SET_MM_BRK : Z := 7.
Definition PR_SET_MM_ARG_START : Z := 8.
Definition PR_SET_MM_ARG_END : Z := 9.
Definition PR_SET_MM_ENV_START : Z := 10.
Definition PR_SET_MM_ENV_END : Z := 11.
Definition PR_SET_MM_AUXV : Z := 12.
Definition PR_SET_MM_EXE_FILE : Z := 13.
Definition PR_SET_MM_MAP : Z := 14.
Definition PR_SET_MM_MAP_SIZE : Z := 15.

(** The eleven addresses of [mm_struct] and of [struct prctl_mm_map]. *)
Record layout := Layout {
  start_code : Z; end_code : Z; start_data : Z; end_data : Z; start_brk : Z; brk : Z;
  start_stack : Z; arg_start : Z; arg_end : Z; env_start : Z; env_end : Z
}.
Definition addresses (l : layout) : list Z :=
  [start_code l; end_code l; start_data l; end_data l; start_brk l; brk l; start_stack l;
   arg_start l; arg_end l; env_start l; env_end l].

(** [saved_auxv] in bytes: [AT_VECTOR_SIZE] words. *)
Definition AT_VECTOR_SIZE : Z := 52.
Definition sizeof_auxv : Z := 8 * AT_VECTOR_SIZE.
Definition sizeof_prctl_map : Z := 104.

(** The address space: layout, vector and executable; [fds] counts descriptors borrowed
    with [fdget]; then the caller's memory. *)
Record mm := Mm { lay : layout; saved_auxv : list Z; exe : exe_state; fds : Z; umem : memory }.

Definition set_lay (l : layout) (s : mm) : mm := Mm l (saved_auxv s) (exe s) (fds s) (umem s).
Definition set_auxv (a : list Z) (s : mm) : mm := Mm (lay s) a (exe s) (fds s) (umem s).
Definition set_exe_state (x : exe_state) (s : mm) : mm := Mm (lay s) (saved_auxv s) x (fds s) (umem s).
Definition add_fds (k : Z) (s : mm) : mm := Mm (lay s) (saved_auxv s) (exe s) (fds s + k) (umem s).
Definition set_umem (m : memory) (s : mm) : mm := Mm (lay s) (saved_auxv s) (exe s) (fds s) m.

Record mm_env := {
  exes : exe_env;
  fd_file : Z -> option Z;                 (* the file of a descriptor *)
  exe_is_reg : Z -> bool; path_noexec : Z -> bool; may_exec : Z -> Z;
  TASK_SIZE : Z; mmap_min_addr : Z; rlimit_data : Z;
  check_data_rlimit : Z -> Z -> Z -> Z -> Z -> Z;
  find_vma : Z -> bool;                    (* an area ends above the address *)
  checkpoint_restore : bool;               (* CONFIG_CHECKPOINT_RESTORE *)
  checkpoint_restore_capable : bool;
  capable_resource : bool;                 (* CAP_SYS_RESOURCE *)
  uacc : uaccess
}.

(** Little-endian integers of the caller's memory. *)
Definition get_int (m : memory) (a n : Z) : Z :=
  foldr (fun b acc => b + 256 * acc) 0 (load m a n).
Fixpoint le_bytes (n : nat) (v : Z) : list Z :=
  match n with O => [] | S n => v mod 256 :: le_bytes n (v / 256) end.

Section ops.
Context (e : mm_env).

(** [put_user] of [n] bytes. *)
Definition put_user (a : Z) (n : nat) (v : Z) (m : memory) : Z * memory :=
  if copy_to_user (uacc e) a (Z.of_nat n) =? 0 then (0, store m a (le_bytes n v))
  else (- EFAULT, m).

Definition prctl_set_mm_exe_file (fd : Z) (s : mm) : Z * mm :=
  match fd_file e fd with
  | None => (- EBADF, s)
  | Some f =>
      let s := add_fds 1 s in
      let '(err, s) :=
        if negb (exe_is_reg e f) || path_noexec e f then (- EACCES, s)
        else
          let err := may_exec e f in
          if negb (err =? 0) then (err, s)
          else let '(err, x) := replace_mm_exe_file (exes e) f (exe s) in (err, set_exe_state x s) in
      (err, add_fds (-1) s)
  end.

Definition prctl_check_order (b : bool) : Z := if b then 0 else - EINVAL.

Definition validate_prctl_map_addr (l : layout) : Z :=
  if existsb (fun val => (TASK_SIZE e <=? val) || (val <? mmap_min_addr e)) (addresses l)
  then - EINVAL
  else
    let error := prctl_check_order (start_code l <? end_code l) in
    let error := Z.lor error (prctl_check_order (start_data l <=? end_data l)) in
    let error := Z.lor error (prctl_check_order (start_brk l <=? brk l)) in
    let error := Z.lor error (prctl_check_order (arg_start l <=? arg_end l)) in
    let error := Z.lor error (prctl_check_order (env_start l <=? env_end l)) in
    if negb (error =? 0) then error
    else if negb (check_data_rlimit e (rlimit_data e) (brk l) (start_brk l) (end_data l) (start_data l) =? 0)
    then - EINVAL
    else 0.

(** [struct prctl_mm_map] in the caller's memory. *)
Definition read_layout (m : memory) (a : Z) : layout :=
  let w k := get_int m (a + 8 * k) 8 in
  Layout (w 0) (w 1) (w 2) (w 3) (w 4) (w 5) (w 6) (w 7) (w 8) (w 9) (w 10).
Definition map_auxv (m : memory) (a : Z) : Z := get_int m (a + 88) 8.
Definition map_auxv_size (m : memory) (a : Z) : Z := get_int m (a + 96) 4.
Definition map_exe_fd (m : memory) (a : Z) : Z := get_int m (a + 100) 4.

(** A vector read from the caller: zero filled, its last entry [AT_NULL]. *)
Definition user_auxv (bs : list Z) : list Z :=
  ztake (sizeof_auxv - 16) (bs ++ replicate (Z.to_nat (sizeof_auxv - zlen bs)) 0) ++ replicate 16 0.

Definition prctl_set_mm_map (opt addr data_size : Z) (s : mm) : Z * mm :=
  if opt =? PR_SET_MM_MAP_SIZE then
    let '(r, m) := put_user addr 4 sizeof_prctl_map (umem s) in (r, set_umem m s)
  else if negb (data_size =? sizeof_prctl_map) then (- EINVAL, s)
  else if negb (copy_from_user (uacc e) addr sizeof_prctl_map =? 0) then (- EFAULT, s)
  else
    let l := read_layout (umem s) addr in
    let auxv := map_auxv (umem s) addr in
    let auxv_size := map_auxv_size (umem s) addr in
    let exe_fd := map_exe_fd (umem s) addr in
    let error := validate_prctl_map_addr l in
    if negb (error =? 0) then (error, s)
    else
      let vec :=
        if negb (auxv_size =? 0) then
          if (auxv =? 0) || (sizeof_auxv <? auxv_size) then inl (- EINVAL)
          else if negb (copy_from_user (uacc e) auxv auxv_size =? 0) then inl (- EFAULT)
          else inr (Some (user_auxv (load (umem s) auxv auxv_size)))
        else inr None in
      match vec with
      | inl err => (err, s)
      | inr vec =>
          let '(error, s) :=
            if negb (exe_fd =? 2 ^ 32 - 1) then
              if negb (checkpoint_restore_capable e) then (- EPERM, s)
              else prctl_set_mm_exe_file exe_fd s
            else (0, s) in
          if negb (error =? 0) then (error, s)
          else
            let s := set_lay l s in
            (0, match vec with Some v => set_auxv v s | None => s end)
      end.

Definition prctl_set_auxv (addr len : Z) (s : mm) : Z * mm :=
  if sizeof_auxv <? len then (- EINVAL, s)
  else if negb (copy_from_user (uacc e) addr len =? 0) then (- EFAULT, s)
  else
    let v := user_auxv (load (umem s) addr len) in
    (0, set_auxv (ztake len v ++ zdrop len (saved_auxv s)) s).

(** The one member that [opt] names, replaced; [None] for an unknown one. *)
Definition edit_layout (opt addr : Z) (l : layout) : option layout :=
  let '(Layout sc ec sd ed sb b ss a1 a2 e1 e2) := l in
  if opt =? PR_SET_MM_START_CODE then Some (Layout addr ec sd ed sb b ss a1 a2 e1 e2)
  else if opt =? PR_SET_MM_END_CODE then Some (Layout sc addr sd ed sb b ss a1 a2 e1 e2)
  else if opt =? PR_SET_MM_START_DATA then Some (Layout sc ec addr ed sb b ss a1 a2 e1 e2)
  else if opt =? PR_SET_MM_END_DATA then Some (Layout sc ec sd addr sb b ss a1 a2 e1 e2)
  else if opt =? PR_SET_MM_START_STACK then Some (Layout sc ec sd ed sb b addr a1 a2 e1 e2)
  else if opt =? PR_SET_MM_START_BRK then Some (Layout sc ec sd ed addr b ss a1 a2 e1 e2)
  else if opt =? PR_SET_MM_BRK then Some (Layout sc ec sd ed sb addr ss a1 a2 e1 e2)
  else if opt =? PR_SET_MM_ARG_START then Some (Layout sc ec sd ed sb b ss addr a2 e1 e2)
  else if opt =? PR_SET_MM_ARG_END then Some (Layout sc ec sd ed sb b ss a1 addr e1 e2)
  else if opt =? PR_SET_MM_ENV_START then Some (Layout sc ec sd ed sb b ss a1 a2 addr e2)
  else if opt =? PR_SET_MM_ENV_END then Some (Layout sc ec sd ed sb b ss a1 a2 e1 addr)
  else None.

(** The members that must point below the end of some area. *)
Definition needs_vma (opt : Z) : bool :=
  (opt =? PR_SET_MM_START_STACK) || (opt =? PR_SET_MM_ARG_START) || (opt =? PR_SET_MM_ARG_END)
  || (opt =? PR_SET_MM_ENV_START) || (opt =? PR_SET_MM_ENV_END).

Definition prctl_set_mm (opt addr arg4 arg5 : Z) (s : mm) : Z * mm :=
  if negb (arg5 =? 0)
     || (negb (arg4 =? 0) && negb (opt =? PR_SET_MM_AUXV) && negb (opt =? PR_SET_MM_MAP)
         && negb (opt =? PR_SET_MM_MAP_SIZE))
  then (- EINVAL, s)
  else if checkpoint_restore e && ((opt =? PR_SET_MM_MAP) || (opt =? PR_SET_MM_MAP_SIZE))
  then prctl_set_mm_map opt addr arg4 s
  else if negb (capable_resource e) then (- EPERM, s)
  else if opt =? PR_SET_MM_EXE_FILE then prctl_set_mm_exe_file (u32 addr) s
  else if opt =? PR_SET_MM_AUXV then prctl_set_auxv addr arg4 s
  else if (TASK_SIZE e <=? addr) || (addr <? mmap_min_addr e) then (- EINVAL, s)
  else match edit_layout opt addr (lay s) with
  | None => (- EINVAL, s)
  | Some l =>
      let error := validate_prctl_map_addr l in
      if negb (error =? 0) then (error, s)
      else if needs_vma opt && negb (find_vma e addr) then (- EFAULT, s)
      else (0, set_lay l s)
  end.

Definition prctl_get_auxv (addr len : Z) (s : mm) : Z * mm :=
  let size := Z.min sizeof_auxv len in
  if negb (size =? 0) then
    let n := copy_to_user (uacc e) addr size in
    let s := set_umem (store (umem s) addr (ztake (size - n) (saved_auxv s))) s in
    (if negb (n =? 0) then - EFAULT else sizeof_auxv, s)
  else (sizeof_auxv, s).
End ops.
End PrctlMm.

Module Prctl.
Import Bytes ExeFile PrctlMm.

Definition ENOSYS : Z := 38.
Definition PR_SET_PDEATHSIG : Z := 1.
Definition PR_GET_PDEATHSIG : Z := 2.
Definition PR_GET_DUMPABLE : Z := 3.
Definition PR_SET_DUMPABLE : Z := 4.
Definition PR_GET_UNALIGN : Z := 5.
Definition PR_SET_UNALIGN : Z := 6.
Definition PR_GET_FPEMU : Z := 9.
Definition PR_SET_FPEMU : Z := 10.
Definition PR_GET_FPEXC : Z := 11.
Definition PR_SET_FPEXC : Z := 12.
Definition PR_GET_TIMING : Z := 13.
Definition PR_SET_TIMING : Z := 14.
Definition PR_SET_NAME : Z := 15.
Definition PR_GET_NAME : Z := 16.
Definition PR_GET_ENDIAN : Z := 19.
Definition PR_SET_ENDIAN : Z := 20.
Definition PR_GET_SECCOMP : Z := 21.
Definition PR_SET_SECCOMP : Z := 22.
Definition PR_GET_TSC : Z := 25.
Definition PR_SET_TSC : Z := 26.
Definition PR_SET_TIMERSLACK : Z := 29.
Definition PR_GET_TIMERSLACK : Z := 30.
Definition PR_TASK_PERF_EVENTS_DISABLE : Z := 31.
Definition PR_TASK_PERF_EVENTS_ENABLE : Z := 32.
Definition PR_MCE_KILL : Z := 33.
Definition PR_MCE_KILL_GET : Z := 34.
Definition PR_SET_MM : Z := 35.
Definition PR_SET_CHILD_SUBREAPER : Z := 36.
Definition PR_GET_CHILD_SUBREAPER : Z := 37.
Definition PR_SET_NO_NEW_PRIVS : Z := 38.
Definition PR_GET_NO_NEW_PRIVS : Z := 39.
Definition PR_GET_TID_ADDRESS : Z := 40.
Definition PR_SET_THP_DISABLE : Z := 41.
Definition PR_GET_THP_DISABLE : Z := 42.
Definition PR_SET_FP_MODE : Z := 45.
Definition PR_GET_FP_MODE : Z := 46.
Definition PR_SVE_SET_VL : Z := 50.
Definition PR_SVE_GET_VL : Z := 51.
Definition PR_GET_SPECULATION_CTRL : Z := 52.
Definition PR_SET_SPECULATION_CTRL : Z := 53.
Definition PR_PAC_RESET_KEYS : Z := 54.
Definition PR_SET_TAGGED_ADDR_CTRL : Z := 55.
Definition PR_GET_TAGGED_ADDR_CTRL : Z := 56.
Definition PR_SET_IO_FLUSHER : Z := 57.
Definition PR_GET_IO_FLUSHER : Z := 58.
Definition PR_SET_SYSCALL_USER_DISPATCH : Z := 59.
Definition PR_PAC_SET_ENABLED_KEYS : Z := 60.
Definition PR_PAC_GET_ENABLED_KEYS : Z := 61.
Definition PR_SCHED_CORE : Z := 62.
Definition PR_SME_SET_VL : Z := 63.
Definition PR_SME_GET_VL : Z := 64.
Definition PR_SET_MDWE : Z := 65.
Definition PR_GET_MDWE : Z := 66.
Definition PR_SET_MEMORY_MERGE : Z := 67.
Definition PR_GET_MEMORY_MERGE : Z := 68.
Definition PR_RISCV_V_SET_CONTROL : Z := 69.
Definition PR_RISCV_V_GET_CONTROL : Z := 70.
Definition PR_GET_AUXV : Z := 0x41555856.
Definition PR_SET_VMA : Z := 0x53564d41.
Definition PR_SET_VMA_ANON_NAME : Z := 0.

Definition PR_MDWE_REFUSE_EXEC_GAIN : Z := 1.
Definition PR_MDWE_NO_INHERIT : Z := 2.
Definition MMF_DISABLE_THP : Z := 24.
Definition MMF_HAS_MDWE : Z := 28.
Definition MMF_HAS_MDWE_NO_INHERIT : Z := 29.
Definition MMF_VM_MERGE_ANY : Z := 30.
Definition PF_MCE_PROCESS : Z := 0x80.
Definition PF_MCE_EARLY : Z := 0x08000000.
Definition PF_MEMALLOC_NOIO : Z := 0x80000.
Definition PF_LOCAL_THROTTLE : Z := 0x100000.
Definition PR_IO_FLUSHER : Z := Z.lor PF_MEMALLOC_NOIO PF_LOCAL_THROTTLE.
Definition PR_MCE_KILL_CLEAR : Z := 0.
Definition PR_MCE_KILL_SET : Z := 1.
Definition PR_MCE_KILL_LATE : Z := 0.
Definition PR_MCE_KILL_EARLY : Z := 1.
Definition PR_MCE_KILL_DEFAULT : Z := 2.
Definition SUID_DUMP_DISABLE : Z := 0.
Definition SUID_DUMP_USER : Z := 1.
Definition PR_TIMING_STATISTICAL : Z := 0.
Definition _NSIG : Z := 64.
Definition sizeof_comm : Z := 16.
Definition ANON_VMA_NAME_MAX_LEN : Z := 80.

(** The calling task: [space] is its address space, [mm_flags] the flag word and
    [dumpable] the dump mode of it; [names_live] counts the name buffers and
    [anon_refs] the [anon_vma_name] references this call holds. *)
Record task := Task {
  space : mm; mm_flags : Z; dumpable : Z;
  pdeath_signal : Z; comm : list Z; flags : Z; timer_slack_ns : Z; default_timer_slack_ns : Z;
  no_new_privs : bool; is_child_subreaper : bool; has_child_subreaper : Z -> bool;
  names_live : Z; anon_refs : Z
}.

Definition set_space v t := Task v (mm_flags t) (dumpable t) (pdeath_signal t) (comm t) (flags t) (timer_slack_ns t) (default_timer_slack_ns t) (no_new_privs t) (is_child_subreaper t) (has_child_subreaper t) (names_live t) (anon_refs t).
Definition set_mm_flags v t := Task (space t) v (dumpable t) (pdeath_signal t) (comm t) (flags t) (timer_slack_ns t) (default_timer_slack_ns t) (no_new_privs t) (is_child_subreaper t) (has_child_subreaper t) (names_live t) (anon_refs t).
Definition set_dumpable v t := Task (space t) (mm_flags t) v (pdeath_signal t) (comm t) (flags t) (timer_slack_ns t) (default_timer_slack_ns t) (no_new_privs t) (is_child_subreaper t) (has_child_subreaper t) (names_live t) (anon_refs t).
Definition set_pdeath v t := Task (space t) (mm_flags t) (dumpable t) v (comm t) (flags t) (timer_slack_ns t) (default_timer_slack_ns t) (no_new_privs t) (is_child_subreaper t) (has_child_subreaper t) (names_live t) (anon_refs t).
Definition set_comm v t := Task (space t) (mm_flags t) (dumpable t) (pdeath_signal t) v (flags t) (timer_slack_ns t) (default_timer_slack_ns t) (no_new_privs t) (is_child_subreaper t) (has_child_subreaper t) (names_live t) (anon_refs t).
Definition set_flags v t := Task (space t) (mm_flags t) (dumpable t) (pdeath_signal t) (comm t) v (timer_slack_ns t) (default_timer_slack_ns t) (no_new_privs t) (is_child_subreaper t) (has_child_subreaper t) (names_live t) (anon_refs t).
Definition set_slack v t := Task (space t) (mm_flags t) (dumpable t) (pdeath_signal t) (comm t) (flags t) v (default_timer_slack_ns t) (no_new_privs t) (is_child_subreaper t) (has_child_subreaper t) (names_live t) (anon_refs t).
Definition set_nnp v t := Task (space t) (mm_flags t) (dumpable t) (pdeath_signal t) (comm t) (flags t) (timer_slack_ns t) (default_timer_slack_ns t) v (is_child_subreaper t) (has_child_subreaper t) (names_live t) (anon_refs t).
Definition set_subreaper v t := Task (space t) (mm_flags t) (dumpable t) (pdeath_signal t) (comm t) (flags t) (timer_slack_ns t) (default_timer_slack_ns t) (no_new_privs t) v (has_child_subreaper t) (names_live t) (anon_refs t).
Definition set_has v t := Task (space t) (mm_flags t) (dumpable t) (pdeath_signal t) (comm t) (flags t) (timer_slack_ns t) (default_timer_slack_ns t) (no_new_privs t) (is_child_subreaper t) v (names_live t) (anon_refs t).
Definition add_names k t := Task (space t) (mm_flags t) (dumpable t) (pdeath_signal t) (comm t) (flags t) (timer_slack_ns t) (default_timer_slack_ns t) (no_new_privs t) (is_child_subreaper t) (has_child_subreaper t) (names_live t + k) (anon_refs t).
Definition add_anon k t := Task (space t) (mm_flags t) (dumpable t) (pdeath_signal t) (comm t) (flags t) (timer_slack_ns t) (default_timer_slack_ns t) (no_new_privs t) (is_child_subreaper t) (has_child_subreaper t) (names_live t) (anon_refs t + k).

(** The process tree under [tasklist_lock]: the threads of a process, the children of a
    thread, and the processes that reap orphans of a pid namespace. *)
Record tree := { threads : Z -> list Z; children : Z -> list Z; is_child_reaper : Z -> bool; depth : nat }.

Record prctl_env := {
  mme : mm_env;
  current : Z;
  procs : tree;
  security_task_prctl : Z -> Z -> Z -> Z -> Z -> Z;
  arch_macro : Z -> option (Z -> Z -> Z);  (* SET_UNALIGN_CTL and the like, by option *)
  dispatched : Z -> Z -> Z -> Z -> Z -> Z; (* seccomp, perf, speculation, ... by option *)
  anon_vma_name : bool;                    (* CONFIG_ANON_VMA_NAME *)
  sched_core : bool; ksm : bool;           (* CONFIG_SCHED_CORE, CONFIG_KSM *)
  write_lock_killed : bool;                (* mmap_write_lock_killable was interrupted *)
  clear_child_tid : Z;
  strndup_user : Z -> Z -> Z + list Z;
  anon_name_alloc_ok : bool;
  madvise_set_anon_name : Z -> Z -> option (list Z) -> Z
}.

Section calls.
Context (e : prctl_env).

(** ** Pieces *)

(** An operation the architecture may define; [-EINVAL] where it does not. *)
Definition arch_call (opt a b : Z) : Z :=
  match arch_macro e opt with Some f => f a b | None => - EINVAL end.

Definition prctl_get_tid_address (addr : Z) (m : mm) : Z * mm :=
  if checkpoint_restore (mme e) then
    let '(r, u) := put_user (mme e) addr 8 (clear_child_tid e) (umem m) in (r, set_umem u m)
  else (- EINVAL, m).

Definition propagate_has_child_subreaper (p : Z) (has : Z -> bool) : Z * (Z -> bool) :=
  if has p || is_child_reaper (procs e) p then (0, has)
  else (1, fun i => if i =? p then true else has i).

(** [walk_process_tree] from the process [leader]: the visitor goes down into a child when
    it returns a positive number, skips it on zero and stops the walk on a negative one
    (the flag).  [fuel] bounds the depth. *)
Fixpoint walk_process_tree {A} (fuel : nat) (visitor : Z -> A -> Z * A) (leader : Z) (st : bool * A) : bool * A :=
  match fuel with
  | O => st
  | S fuel =>
      foldl (fun st child =>
        if st.1 : bool then st
        else
          let '(res, a) := visitor child st.2 in
          if res <? 0 then (true, a)
          else if negb (res =? 0) then walk_process_tree fuel visitor child (false, a)
          else (false, a))
        st (threads (procs e) leader ≫= children (procs e))
  end.

Definition is_valid_name_char (ch : Z) : bool :=
  (0x1f <? ch) && (ch <? 0x7f) && negb (bool_decide (ch ∈ [92; 96; 36; 91; 93])).

Definition prctl_set_vma (opt addr size arg : Z) (t : task) : Z * task :=
  if negb (anon_vma_name e) then (- EINVAL, t)
  else if opt =? PR_SET_VMA_ANON_NAME then
    let '(r, t) :=
      if negb (arg =? 0) then
        match strndup_user e arg ANON_VMA_NAME_MAX_LEN with
        | inl err => (inl err, t)
        | inr name =>
            let t := add_names 1 t in
            if negb (forallb is_valid_name_char name) then (inl (- EINVAL), add_names (-1) t)
            else
              let t := if anon_name_alloc_ok e then add_anon 1 t else t in
              let t := add_names (-1) t in
              if negb (anon_name_alloc_ok e) then (inl (- ENOMEM), t)
              else (inr (Some name), t)
        end
      else (inr None, t) in
    match r with
    | inl err => (err, t)
    | inr anon_name =>
        let error := madvise_set_anon_name e addr size anon_name in
        (error, match anon_name with Some _ => add_anon (-1) t | None => t end)
    end
  else (- EINVAL, t).

Definition get_current_mdwe (t : task) : Z :=
  let ret := 0 in
  let ret := if Z.testbit (mm_flags t) MMF_HAS_MDWE then Z.lor ret PR_MDWE_REFUSE_EXEC_GAIN else ret in
  if Z.testbit (mm_flags t) MMF_HAS_MDWE_NO_INHERIT then Z.lor ret PR_MDWE_NO_INHERIT else ret.

Definition prctl_set_mdwe (bits arg3 arg4 arg5 : Z) (t : task) : Z * task :=
  if negb (arg3 =? 0) || negb (arg4 =? 0) || negb (arg5 =? 0) then (- EINVAL, t)
  else if flag_set bits (Z.lnot (Z.lor PR_MDWE_REFUSE_EXEC_GAIN PR_MDWE_NO_INHERIT)) then (- EINVAL, t)
  else if flag_set bits PR_MDWE_NO_INHERIT && negb (flag_set bits PR_MDWE_REFUSE_EXEC_GAIN) then (- EINVAL, t)
  else
    let current_bits := get_current_mdwe t in
    if negb (current_bits =? 0) && negb (current_bits =? bits) then (- EPERM, t)
    else
      let t := if flag_set bits PR_MDWE_NO_INHERIT
               then set_mm_flags (Z.setbit (mm_flags t) MMF_HAS_MDWE_NO_INHERIT) t else t in
      (0, if flag_set bits PR_MDWE_REFUSE_EXEC_GAIN
          then set_mm_flags (Z.setbit (mm_flags t) MMF_HAS_MDWE) t else t).

Definition prctl_get_mdwe (arg2 arg3 arg4 arg5 : Z) (t : task) : Z :=
  if negb (arg2 =? 0) || negb (arg3 =? 0) || negb (arg4 =? 0) || negb (arg5 =? 0) then - EINVAL
  else get_current_mdwe t.

Definition mce_kill (arg2 arg3 arg4 arg5 : Z) (t : task) : Z * task :=
  if negb (Z.lor arg4 arg5 =? 0) then (- EINVAL, t)
  else if arg2 =? PR_MCE_KILL_CLEAR then
    if negb (arg3 =? 0) then (- EINVAL, t)
    else (0, set_flags (Z.ldiff (flags t) PF_MCE_PROCESS) t)
  else if arg2 =? PR_MCE_KILL_SET then
    let t := set_flags (Z.lor (flags t) PF_MCE_PROCESS) t in
    if arg3 =? PR_MCE_KILL_EARLY then (0, set_flags (Z.lor (flags t) PF_MCE_EARLY) t)
    else if arg3 =? PR_MCE_KILL_LATE then (0, set_flags (Z.ldiff (flags t) PF_MCE_EARLY) t)
    else if arg3 =? PR_MCE_KILL_DEFAULT
    then (0, set_flags (Z.ldiff (flags t) (Z.lor PF_MCE_EARLY PF_MCE_PROCESS)) t)
    else (- EINVAL, t)
  else (- EINVAL, t).

Definition mce_kill_get (arg2 arg3 arg4 arg5 : Z) (t : task) : Z :=
  if negb (Z.lor (Z.lor arg2 arg3) (Z.lor arg4 arg5) =? 0) then - EINVAL
  else if flag_set (flags t) PF_MCE_PROCESS
  then if flag_set (flags t) PF_MCE_EARLY then PR_MCE_KILL_EARLY else PR_MCE_KILL_LATE
  else PR_MCE_KILL_DEFAULT.

Definition set_io_flusher (arg2 arg3 arg4 arg5 : Z) (t : task) : Z * task :=
  if negb (capable_resource (mme e)) then (- EPERM, t)
  else if negb (arg3 =? 0) || negb (arg4 =? 0) || negb (arg5 =? 0) then (- EINVAL, t)
  else if arg2 =? 1 then (0, set_flags (Z.lor (flags t) PR_IO_FLUSHER) t)
  else if arg2 =? 0 then (0, set_flags (Z.ldiff (flags t) PR_IO_FLUSHER) t)
  else (- EINVAL, t).

Definition get_io_flusher (arg2 arg3 arg4 arg5 : Z) (t : task) : Z :=
  if negb (capable_resource (mme e)) then - EPERM
  else if negb (arg2 =? 0) || negb (arg3 =? 0) || negb (arg4 =? 0) || negb (arg5 =? 0) then - EINVAL
  else if Z.land (flags t) PR_IO_FLUSHER =? PR_IO_FLUSHER then 1 else 0.

(** [strncpy_from_user] of at most [n] bytes: those before the NUL. *)
Fixpoint before_nul (l : list Z) : list Z :=
  match l with [] => [] | c :: r => if c =? 0 then [] else c :: before_nul r end.

Definition set_name (arg2 : Z) (t : task) : Z * task :=
  let name := before_nul (load (umem (space t)) arg2 (sizeof_comm - 1)) in
  if negb (copy_from_user (uacc (mme e)) arg2 (Z.min (sizeof_comm - 1) (zlen name + 1)) =? 0)
  then (- EFAULT, t)
  else
    (0, set_comm (name ++ replicate (Z.to_nat (sizeof_comm - zlen name)) 0) t).

Definition get_name (arg2 : Z) (t : task) : Z * task :=
  let n := copy_to_user (uacc (mme e)) arg2 sizeof_comm in
  let m := store (umem (space t)) arg2 (ztake (sizeof_comm - n) (comm t)) in
  (if negb (n =? 0) then - EFAULT else 0, set_space (set_umem m (space t)) t).

Definition set_thp_disable (arg2 arg3 arg4 arg5 : Z) (t : task) : Z * task :=
  if negb (arg3 =? 0) || negb (arg4 =? 0) || negb (arg5 =? 0) then (- EINVAL, t)
  else if write_lock_killed e then (- EINTR, t)
  else if negb (arg2 =? 0) then (0, set_mm_flags (Z.setbit (mm_flags t) MMF_DISABLE_THP) t)
  else (0, set_mm_flags (Z.clearbit (mm_flags t) MMF_DISABLE_THP) t).

Definition zero_args (l : list Z) : bool := forallb (Z.eqb 0) l.
Definition test_flag (b : Z) (t : task) : Z := if Z.testbit (mm_flags t) b then 1 else 0.

(** ** The call

    The [switch] of [prctl], cut in four; every part ends in the next one and the last in
    the [default] label. *)

Definition on_space (f : mm -> Z * mm) (t : task) : Z * task :=
  let '(r, m) := f (space t) in (r, set_space m t).
Definition put_int (addr v : Z) (t : task) : Z * task :=
  on_space (fun m => let '(r, u) := put_user (mme e) addr 4 v (umem m) in (r, set_umem u m)) t.

(** [PR_SET_IO_FLUSHER] to [default]. *)
Definition prctl_tail (option arg2 arg3 arg4 arg5 : Z) (t : task) : Z * task :=
  if option =? PR_SET_IO_FLUSHER then set_io_flusher arg2 arg3 arg4 arg5 t
  else if option =? PR_GET_IO_FLUSHER then (get_io_flusher arg2 arg3 arg4 arg5 t, t)
  else if option =? PR_SET_SYSCALL_USER_DISPATCH then (dispatched e option arg2 arg3 arg4 arg5, t)
  else if sched_core e && (option =? PR_SCHED_CORE) then (dispatched e option arg2 arg3 arg4 arg5, t)
  else if option =? PR_SET_MDWE then prctl_set_mdwe arg2 arg3 arg4 arg5 t
  else if option =? PR_GET_MDWE then (prctl_get_mdwe arg2 arg3 arg4 arg5 t, t)
  else if option =? PR_SET_VMA then prctl_set_vma arg2 arg3 arg4 arg5 t
  else if option =? PR_GET_AUXV then
    if negb (zero_args [arg4; arg5]) then (- EINVAL, t)
    else on_space (prctl_get_auxv (mme e) arg2 arg3) t
  else if ksm e && (option =? PR_SET_MEMORY_MERGE) then
    if negb (zero_args [arg3; arg4; arg5]) then (- EINVAL, t)
    else if write_lock_killed e then (- EINTR, t)
    else (dispatched e option arg2 arg3 arg4 arg5, t)
  else if ksm e && (option =? PR_GET_MEMORY_MERGE) then
    if negb (zero_args [arg2; arg3; arg4; arg5]) then (- EINVAL, t)
    else (test_flag MMF_VM_MERGE_ANY t, t)
  else if (option =? PR_RISCV_V_SET_CONTROL) || (option =? PR_RISCV_V_GET_CONTROL)
  then (arch_call option arg2 arg3, t)
  else (- EINVAL, t).

(** [PR_SET_FP_MODE] to [PR_GET_TAGGED_ADDR_CTRL]. *)
Definition prctl_arch (option arg2 arg3 arg4 arg5 : Z) (t : task) : Z * task :=
  if bool_decide (option ∈ [PR_SET_FP_MODE; PR_GET_FP_MODE; PR_SVE_SET_VL; PR_SVE_GET_VL;
                            PR_SME_SET_VL; PR_SME_GET_VL])
  then (arch_call option arg2 arg3, t)
  else if option =? PR_GET_SPECULATION_CTRL then
    if negb (zero_args [arg3; arg4; arg5]) then (- EINVAL, t)
    else (dispatched e option arg2 arg3 arg4 arg5, t)
  else if option =? PR_SET_SPECULATION_CTRL then
    if negb (zero_args [arg4; arg5]) then (- EINVAL, t)
    else (dispatched e option arg2 arg3 arg4 arg5, t)
  else if option =? PR_PAC_RESET_KEYS then
    if negb (zero_args [arg3; arg4; arg5]) then (- EINVAL, t) else (arch_call option arg2 arg3, t)
  else if option =? PR_PAC_SET_ENABLED_KEYS then
    if negb (zero_args [arg4; arg5]) then (- EINVAL, t) else (arch_call option arg2 arg3, t)
  else if option =? PR_PAC_GET_ENABLED_KEYS then
    if negb (zero_args [arg2; arg3; arg4; arg5]) then (- EINVAL, t) else (arch_call option arg2 arg3, t)
  else if option =? PR_SET_TAGGED_ADDR_CTRL then
    if negb (zero_args [arg3; arg4; arg5]) then (- EINVAL, t) else (arch_call option arg2 arg3, t)
  else if option =? PR_GET_TAGGED_ADDR_CTRL then
    if negb (zero_args [arg2; arg3; arg4; arg5]) then (- EINVAL, t) else (arch_call option arg2 arg3, t)
  else prctl_tail option arg2 arg3 arg4 arg5 t.

Definition set_child_subreaper (arg2 : Z) (t : task) : Z * task :=
  let t := set_subreaper (negb (arg2 =? 0)) t in
  if arg2 =? 0 then (0, t)
  else (0, set_has (walk_process_tree (depth (procs e)) propagate_has_child_subreaper (current e)
                      (false, has_child_subreaper t)).2 t).

(** [PR_MCE_KILL] to the [MPX] labels. *)
Definition prctl_modes (option arg2 arg3 arg4 arg5 : Z) (t : task) : Z * task :=
  if option =? PR_MCE_KILL then mce_kill arg2 arg3 arg4 arg5 t
  else if option =? PR_MCE_KILL_GET then (mce_kill_get arg2 arg3 arg4 arg5 t, t)
  else if option =? PR_SET_MM then on_space (prctl_set_mm (mme e) (i32 arg2) arg3 arg4 arg5) t
  else if option =? PR_GET_TID_ADDRESS then on_space (prctl_get_tid_address arg2) t
  else if option =? PR_SET_CHILD_SUBREAPER then set_child_subreaper arg2 t
  else if option =? PR_GET_CHILD_SUBREAPER then put_int arg2 (if is_child_subreaper t then 1 else 0) t
  else if option =? PR_SET_NO_NEW_PRIVS then
    if negb (arg2 =? 1) || negb (zero_args [arg3; arg4; arg5]) then (- EINVAL, t)
    else (0, set_nnp true t)
  else if option =? PR_GET_NO_NEW_PRIVS then
    if negb (zero_args [arg2; arg3; arg4; arg5]) then (- EINVAL, t)
    else (if no_new_privs t then 1 else 0, t)
  else if option =? PR_GET_THP_DISABLE then
    if negb (zero_args [arg2; arg3; arg4; arg5]) then (- EINVAL, t)
    else (test_flag MMF_DISABLE_THP t, t)
  else if option =? PR_SET_THP_DISABLE then set_thp_disable arg2 arg3 arg4 arg5 t
  else prctl_arch option arg2 arg3 arg4 arg5 t.

Definition valid_signal (sig : Z) : bool := sig <=? _NSIG.

Definition prctl (option arg2 arg3 arg4 arg5 : Z) (t : task) : Z * task :=
  let error := security_task_prctl e option arg2 arg3 arg4 arg5 in
  if negb (error =? - ENOSYS) then (error, t)
  else if option =? PR_SET_PDEATHSIG then
    if negb (valid_signal arg2) then (- EINVAL, t) else (0, set_pdeath arg2 t)
  else if option =? PR_GET_PDEATHSIG then put_int arg2 (pdeath_signal t) t
  else if option =? PR_GET_DUMPABLE then (dumpable t, t)
  else if option =? PR_SET_DUMPABLE then
    if negb (arg2 =? SUID_DUMP_DISABLE) && negb (arg2 =? SUID_DUMP_USER) then (- EINVAL, t)
    else (0, set_dumpable arg2 t)
  else if bool_decide (option ∈ [PR_SET_UNALIGN; PR_GET_UNALIGN; PR_SET_FPEMU; PR_GET_FPEMU;
                                 PR_SET_FPEXC; PR_GET_FPEXC])
  then (arch_call option arg2 arg3, t)
  else if option =? PR_GET_TIMING then (PR_TIMING_STATISTICAL, t)
  else if option =? PR_SET_TIMING then
    (if negb (arg2 =? PR_TIMING_STATISTICAL) then - EINVAL else 0, t)
  else if option =? PR_SET_NAME then set_name arg2 t
  else if option =? PR_GET_NAME then get_name arg2 t
  else if bool_decide (option ∈ [PR_GET_ENDIAN; PR_SET_ENDIAN; PR_GET_TSC; PR_SET_TSC])
  then (arch_call option arg2 arg3, t)
  else if bool_decide (option ∈ [PR_GET_SECCOMP; PR_SET_SECCOMP; PR_TASK_PERF_EVENTS_DISABLE;
                                 PR_TASK_PERF_EVENTS_ENABLE])
  then (dispatched e option arg2 arg3 arg4 arg5, t)
  else if option =? PR_GET_TIMERSLACK then
    (i64 (if ULONG_MAX <? timer_slack_ns t then ULONG_MAX else timer_slack_ns t), t)
  else if option =? PR_SET_TIMERSLACK then
    (0, set_slack (if arg2 <=? 0 then default_timer_slack_ns t else arg2) t)
  else prctl_modes option arg2 arg3 arg4 arg5 t.
End calls.
End Prctl.
