(* ===== verification/PrctlSpec.v ===== *)
(** * Correctness of [prctl]

    Over any history of calls: the recorded layout stays ordered and inside the address
    space and the auxiliary vector terminated; what restricts a task is never lifted;
    the executable, descriptors and names are counted right.  And the subreaper walk
    reaches every descendant. *)
From S2P Require Import Prelude Bytes Prctl.

Module PrctlSpec.
Import Bytes ExeFile PrctlMm Prctl.

(** ** The executable *)

(** The reference and the denial of writing that an address space holds on [f]. *)
Definition holds_exe (s : exe_state) (f : Z) : Z := if bool_decide (exe_file s = Some f) then 1 else 0.
Definition exe_balanced (s s' : exe_state) : Prop := forall f,
  refs s' f - refs s f = holds_exe s' f - holds_exe s f /\
  denies s' f - denies s f = holds_exe s' f - holds_exe s f.

Lemma exe_balanced_refl s : exe_balanced s s.
Proof. intros f. lia. Qed.

Lemma exe_balanced_trans s1 s2 s3 : exe_balanced s1 s2 -> exe_balanced s2 s3 -> exe_balanced s1 s3.
Proof. intros Ha Hb f. specialize (Ha f). specialize (Hb f). lia. Qed.

Lemma bump_eq f k g i : bump f k g i = g i + (if bool_decide (i = f) then k else 0).
Proof. unfold bump. destruct (Z.eqb_spec i f); case_bool_decide; done || lia. Qed.

(** Installing [new] after counting it, and releasing the old one. *)
Lemma install_balanced new s r d :
  (forall f, r f = refs s f + (if bool_decide (new = Some f) then 1 else 0)) ->
  (forall f, d f = denies s f + (if bool_decide (new = Some f) then 1 else 0)) ->
  exe_balanced s (release_old (exe_file s) (Exe new r d)).
Proof.
  intros Hr Hd f. unfold holds_exe. destruct (exe_file s) as [o|]; cbn; rewrite ?bump_eq, Hr, Hd.
  - replace (bool_decide (Some o = Some f)) with (bool_decide (f = o))
      by (apply bool_decide_ext; naive_solver).
    destruct (bool_decide (new = Some f)), (bool_decide (f = o)); lia.
  - destruct (bool_decide (new = Some f)); case_bool_decide; try done; lia.
Qed.

Lemma one_some (f i : Z) : bool_decide (Some f = Some i) = bool_decide (i = f).
Proof. apply bool_decide_ext. naive_solver. Qed.

Lemma set_mm_exe_file_balanced e new s : exe_balanced s (set_mm_exe_file e new s).2.
Proof.
  unfold set_mm_exe_file, deny_write_access. destruct new as [f|].
  - destruct (i_writers e f); [apply exe_balanced_refl|]. cbn.
    apply install_balanced; intros i; cbn; by rewrite bump_eq, one_some.
  - cbn. apply install_balanced; intros i; cbn; case_bool_decide; done || lia.
Qed.

(** [replace_mm_exe_file] keeps the books, and an error changes nothing. *)
Lemma replace_balanced e new s :
  let r := replace_mm_exe_file e new s in
  exe_balanced s r.2 /\ (r.1 <> 0 -> exe_file r.2 = exe_file s) /\
  (r.1 = 0 -> exe_file r.2 = Some new).
Proof.
  unfold replace_mm_exe_file.
  assert (Hold : forall s1 : exe_state, exe_file s1 = exe_file s -> (forall f, refs s1 f = refs s f) ->
    (forall f, denies s1 f = denies s f) ->
    let '(ret, s') := deny_write_access e new s1 in
    let r := if negb (ret =? 0) then (- EACCES, s')
             else (0, release_old (exe_file (get_file new s')) (set_exe (Some new) (get_file new s'))) in
    exe_balanced s r.2 /\ (r.1 <> 0 -> exe_file r.2 = exe_file s) /\ (r.1 = 0 -> exe_file r.2 = Some new)).
  { intros s1 Hx Hr Hd. unfold deny_write_access. destruct (i_writers e new); cbn.
    - split_and!; [|done|done]. intros f. rewrite Hr, Hd.
      change (negb (- ETXTBSY =? 0)) with true. cbn [snd].
      replace (holds_exe s1 f) with (holds_exe s f) by (unfold holds_exe; by rewrite Hx). lia.
    - split_and!; [|done|].
      + rewrite Hx. apply install_balanced; intros i; cbn; rewrite bump_eq, one_some; by rewrite ?Hr, ?Hd.
      + intros _. by destruct (exe_file s1). }
  unfold get_mm_exe_file. destruct (exe_file s) as [old|] eqn:Eo.
  - cbn -[deny_write_access]. assert (Hfp : forall f, refs (fput old (get_file old s)) f = refs s f).
    { intros f. cbn. rewrite !bump_eq. case_bool_decide; lia. }
    destruct (negb (still_mapped e (f_path e old) (vma_files e) =? 0)) eqn:Em.
    + cbn. split_and!; [|done|].
      * intros f. change (holds_exe (fput old (get_file old s)) f) with (holds_exe s f).
        rewrite Hfp. cbn. lia.
      * intros E. rewrite E in Em. done.
    + specialize (Hold (fput old (get_file old s)) Eo Hfp (fun _ => eq_refl)).
      by destruct (deny_write_access e new _).
  - cbn -[deny_write_access]. specialize (Hold s Eo (fun _ => eq_refl) (fun _ => eq_refl)).
    by destruct (deny_write_access e new s).
Qed.

(** ** The layout *)

(** Every address is in the part of the address space a process may use, every pair is in
    order, and the data segment with the heap respects the data limit. *)
Record layout_ok (e : mm_env) (l : layout) : Prop := {
  in_range : forall a, a ∈ addresses l -> mmap_min_addr e <= a < TASK_SIZE e;
  code_ordered : start_code l < end_code l;
  data_ordered : start_data l <= end_data l;
  heap_ordered : start_brk l <= brk l;
  args_ordered : arg_start l <= arg_end l;
  env_ordered : env_start l <= env_end l;
  data_limited : check_data_rlimit e (rlimit_data e) (brk l) (start_brk l) (end_data l) (start_data l) = 0
}.

Lemma check_order_0 b : prctl_check_order b = 0 <-> b = true.
Proof. by destruct b. Qed.

Lemma validate_spec e l : validate_prctl_map_addr e l = 0 <-> layout_ok e l.
Proof.
  unfold validate_prctl_map_addr. destruct (existsb _ _) eqn:Ex.
  - split; [done|]. intros [Hr _ _ _ _ _ _]. apply existsb_exists in Ex as (v & Hv & Hb).
    apply list_elem_of_In in Hv. specialize (Hr v Hv). lia.
  - assert (Hin : forall a, a ∈ addresses l -> mmap_min_addr e <= a < TASK_SIZE e).
    { intros a Ha. destruct ((TASK_SIZE e <=? a) || (a <? mmap_min_addr e)) eqn:E; [|lia].
      rewrite <- not_true_iff_false in Ex. destruct Ex. apply existsb_exists.
      exists a. split; [by apply list_elem_of_In|done]. }
    set (err := Z.lor _ _).
    assert (He : err = 0 <-> start_code l < end_code l /\ start_data l <= end_data l /\
      start_brk l <= brk l /\ arg_start l <= arg_end l /\ env_start l <= env_end l).
    { subst err. rewrite !Z.lor_eq_0_iff, !check_order_0, Z.ltb_lt, !Z.leb_le. tauto. }
    destruct (Z.eqb_spec err 0) as [E0|E0]; cbn [negb].
    + apply He in E0 as (?&?&?&?&?). set (lim := check_data_rlimit e _ _ _ _ _).
      destruct (Z.eqb_spec lim 0); cbn; split; try done. by intros [].
    + split; [done|]. intros [? ? ? ? ? ? ?]. destruct E0. by apply He.
Qed.

(** The vector has its size and its last entry is [AT_NULL]. *)
Definition auxv_ok (v : list Z) : Prop := exists g, zlen g = sizeof_auxv - 16 /\ v = g ++ replicate 16 0.

Lemma user_auxv_ok bs : zlen bs <= sizeof_auxv -> auxv_ok (user_auxv bs).
Proof.
  intros Hb. pose proof (zlen_nonneg bs). eexists. split; [|done].
  rewrite zlen_take by done. rewrite zlen_app.
  unfold zlen, sizeof_auxv, AT_VECTOR_SIZE in *. rewrite length_replicate. lia.
Qed.

Lemma auxv_prefix len v w : 0 <= len <= sizeof_auxv -> auxv_ok v -> auxv_ok w ->
  auxv_ok (ztake len v ++ zdrop len w).
Proof.
  intros Hl (g & Hg & ->) (h & Hh & ->). unfold sizeof_auxv, AT_VECTOR_SIZE in *.
  destruct (Z.le_gt_cases len (zlen h)) as [Hc|Hc].
  - exists (ztake len g ++ zdrop len h). split.
    + rewrite zlen_app, zlen_take, zlen_drop by lia. unfold sizeof_auxv, AT_VECTOR_SIZE. lia.
    + rewrite <- app_assoc. f_equal.
      * by rewrite ztake_app_le by lia.
      * unfold zdrop. rewrite skipn_app. f_equal. unfold zlen in *.
        replace (Z.to_nat len - length h)%nat with 0%nat by lia. done.
  - exists g. split; [done|]. unfold ztake, zdrop, zlen in *.
    rewrite take_app_ge by lia. rewrite skipn_app. rewrite (drop_ge h) by lia.
    rewrite app_nil_l, <- app_assoc. f_equal.
    replace (Z.to_nat len - length g)%nat with (Z.to_nat len - length h)%nat by lia.
    by rewrite take_drop.
Qed.

Definition mm_ok (e : mm_env) (s : mm) : Prop := layout_ok e (lay s) /\ auxv_ok (saved_auxv s).

(** The effect of one operation on an address space: it stays well formed, an error
    leaves the layout and the vector alone, and nothing is leaked. *)
Definition mm_step (e : mm_env) (s : mm) (r : Z * mm) : Prop :=
  (mm_ok e s -> mm_ok e r.2) /\
  (r.1 <> 0 -> lay r.2 = lay s /\ saved_auxv r.2 = saved_auxv s) /\
  fds r.2 = fds s /\ exe_balanced (exe s) (exe r.2).

Lemma mm_step_same e s r : mm_step e s (r, s).
Proof. split_and!; try done. apply exe_balanced_refl. Qed.

Lemma mm_step_umem e s r m : mm_step e s (r, set_umem m s).
Proof. split_and!; try done. apply exe_balanced_refl. Qed.

Lemma exe_file_step e fd s :
  let r := prctl_set_mm_exe_file e fd s in
  lay r.2 = lay s /\ saved_auxv r.2 = saved_auxv s /\ umem r.2 = umem s /\
  fds r.2 = fds s /\ exe_balanced (exe s) (exe r.2).
Proof.
  unfold prctl_set_mm_exe_file. destruct (fd_file e fd) as [f|].
  2: { split_and!; try done. apply exe_balanced_refl. }
  destruct (negb _ || _); [split_and!; try done; [cbn; lia|apply exe_balanced_refl]|].
  destruct (negb _); [split_and!; try done; [cbn; lia|apply exe_balanced_refl]|].
  pose proof (replace_balanced (exes e) f (exe s)) as [Hb _].
  cbn [exe add_fds]. destruct (replace_mm_exe_file (exes e) f (exe s)) as [r x].
  split_and!; try done. cbn. lia.
Qed.

Lemma zlen_load_le m a n : zlen (load m a n) <= Z.max 0 n.
Proof. unfold load, zlen. rewrite length_fmap, length_seqZ. lia. Qed.

Lemma set_mm_map_step e opt addr size s : mm_step e s (prctl_set_mm_map e opt addr size s).
Proof.
  unfold prctl_set_mm_map. destruct (opt =? _).
  { destruct (put_user _ _ _ _ _). apply mm_step_umem. }
  destruct (negb (size =? _)); [apply mm_step_same|].
  destruct (negb (copy_from_user _ _ _ =? 0)); [apply mm_step_same|].
  set (l := read_layout (umem s) addr).
  destruct (Z.eqb_spec (validate_prctl_map_addr e l) 0) as [Hv|Hv]; cbn [negb]; [|apply mm_step_same].
  set (vec := if negb (map_auxv_size _ _ =? 0) then _ else _).
  assert (Hvec : forall v, vec = inr (Some v) -> auxv_ok v).
  { intros v. subst vec. destruct (negb (map_auxv_size _ _ =? 0)); [|done].
    destruct (_ || (sizeof_auxv <? _)) eqn:Es; [done|]. destruct (negb (copy_from_user _ _ _ =? 0)); [done|].
    intros [= <-]. apply user_auxv_ok. apply orb_false_iff in Es as [_ Es].
    pose proof (zlen_load_le (umem s) (map_auxv (umem s) addr) (map_auxv_size (umem s) addr)).
    unfold sizeof_auxv, AT_VECTOR_SIZE in *. lia. }
  clearbody vec. destruct vec as [err|vec]; [apply mm_step_same|].
  set (r := if negb (map_exe_fd _ _ =? _) then _ else _).
  assert (Hr : lay r.2 = lay s /\ saved_auxv r.2 = saved_auxv s /\ fds r.2 = fds s /\
               exe_balanced (exe s) (exe r.2)).
  { subst r. destruct (negb (map_exe_fd _ _ =? _)); [|split_and!; try done; apply exe_balanced_refl].
    destruct (negb (checkpoint_restore_capable e)); [split_and!; try done; apply exe_balanced_refl|].
    pose proof (exe_file_step e (map_exe_fd (umem s) addr) s) as (?&?&?&?&?). by split_and!. }
  clearbody r. destruct r as [error s1]. cbn [fst snd] in Hr. destruct Hr as (Hl & Ha & Hf & Hx).
  destruct (negb (error =? 0)); cbn [snd fst].
  - split_and!; try done. intros [? ?]. split; cbn; congruence.
  - destruct vec as [v|]; split_and!; try done; intros [? ?]; split; cbn.
    + by apply validate_spec.
    + by apply Hvec.
    + by apply validate_spec.
    + congruence.
Qed.

Lemma set_mm_step e opt addr arg4 arg5 s :
  0 <= arg4 -> mm_step e s (prctl_set_mm e opt addr arg4 arg5 s).
Proof.
  intros Harg. unfold prctl_set_mm. destruct (negb (arg5 =? 0) || _); [apply mm_step_same|].
  destruct (checkpoint_restore e && _); [apply set_mm_map_step|].
  destruct (negb (capable_resource e)); [apply mm_step_same|].
  destruct (opt =? PR_SET_MM_EXE_FILE).
  { pose proof (exe_file_step e (u32 addr) s) as (Hl & Ha & _ & Hf & Hx).
    split_and!; try done. intros [? ?]. split; congruence. }
  destruct (opt =? PR_SET_MM_AUXV).
  { unfold prctl_set_auxv. destruct (Z.ltb_spec sizeof_auxv arg4); [apply mm_step_same|].
    destruct (negb (copy_from_user _ _ _ =? 0)); [apply mm_step_same|].
    split_and!; try done; [|apply exe_balanced_refl]. intros [? ?]. split; [done|].
    apply auxv_prefix; [done| |done]. apply user_auxv_ok.
    pose proof (zlen_load_le (umem s) addr arg4). lia. }
  destruct ((TASK_SIZE e <=? addr) || _); [apply mm_step_same|].
  destruct (edit_layout opt addr (lay s)) as [l|]; [|apply mm_step_same].
  destruct (Z.eqb_spec (validate_prctl_map_addr e l) 0) as [Hv|Hv]; cbn [negb]; [|apply mm_step_same].
  destruct (needs_vma opt && _); [apply mm_step_same|].
  split_and!; try done; [|apply exe_balanced_refl]. intros [? ?]. split; [|done]. by apply validate_spec.
Qed.

(** ** One call *)

(** What every call preserves: the invariant of the address space, the restrictions of
    the task, and the balance of references; an error leaves the layout alone. *)
Record task_step (e : prctl_env) (t : task) (r : Z * task) : Prop := {
  step_ok : mm_ok (mme e) (space t) -> mm_ok (mme e) (space r.2);
  step_error : r.1 < 0 -> lay (space r.2) = lay (space t) /\ saved_auxv (space r.2) = saved_auxv (space t);
  step_nnp : no_new_privs t = true -> no_new_privs r.2 = true;
  step_mdwe : get_current_mdwe t <> 0 -> get_current_mdwe r.2 = get_current_mdwe t;
  step_fds : fds (space r.2) = fds (space t);
  step_exe : exe_balanced (exe (space t)) (exe (space r.2));
  step_names : names_live r.2 = names_live t /\ anon_refs r.2 = anon_refs t
}.

(** A call that touches none of that. *)
Lemma task_step_other e t r t' :
  space t' = space t -> get_current_mdwe t' = get_current_mdwe t ->
  (no_new_privs t = true -> no_new_privs t' = true) ->
  names_live t' = names_live t -> anon_refs t' = anon_refs t ->
  task_step e t (r, t').
Proof.
  intros Hs Hm Hn Ha Hb. split; cbn; rewrite ?Hs, ?Hm; try done. apply exe_balanced_refl.
Qed.

(** A call that works on the address space. *)
Lemma task_step_space e t r m :
  mm_step (mme e) (space t) (r, m) -> task_step e t (r, set_space m t).
Proof.
  intros (H1 & H2 & H3 & H4). split; cbn in *; try done. intros Hr. apply H2. lia.
Qed.

Lemma on_space_step e f t :
  mm_step (mme e) (space t) (f (space t)) -> task_step e t (on_space f t).
Proof. unfold on_space. destruct (f (space t)). apply task_step_space. Qed.

Lemma task_step_same e t r : task_step e t (r, t).
Proof. by apply task_step_other. Qed.

Lemma put_int_step e addr v t : task_step e t (put_int e addr v t).
Proof.
  apply on_space_step. destruct (put_user _ _ _ _ _). apply mm_step_umem.
Qed.

Lemma set_mdwe_step e bits a3 a4 a5 t : task_step e t (prctl_set_mdwe bits a3 a4 a5 t).
Proof.
  unfold prctl_set_mdwe. destruct (_ || _); [apply task_step_same|].
  destruct (flag_set bits (Z.lnot _)) eqn:Ebits; [apply task_step_same|].
  destruct (_ && negb (flag_set bits PR_MDWE_REFUSE_EXEC_GAIN)) eqn:Einh; [apply task_step_same|].
  destruct (negb (get_current_mdwe t =? 0) && negb (get_current_mdwe t =? bits)) eqn:Ecur;
    [apply task_step_same|].
  set (t' := if flag_set bits PR_MDWE_REFUSE_EXEC_GAIN then _ else _).
  split; try (subst t'; by destruct (flag_set bits PR_MDWE_REFUSE_EXEC_GAIN),
    (flag_set bits PR_MDWE_NO_INHERIT)).
  - intros Hne. cbn. assert (Hb : get_current_mdwe t = bits) by lia. rewrite Hb.
    assert (Hcase : bits = 0 \/ bits = 1 \/ bits = 3).
    { revert Hb Hne Einh. unfold get_current_mdwe. destruct (Z.testbit _ _), (Z.testbit _ _); cbn;
        intros <-; try done; auto. }
    rewrite Hb in Hne. subst t'. destruct Hcase as [->|[->| ->]]; [done| |].
    + change (flag_set 1 PR_MDWE_NO_INHERIT) with false.
      change (flag_set 1 PR_MDWE_REFUSE_EXEC_GAIN) with true. cbv iota.
      revert Hb. unfold get_current_mdwe. cbn [mm_flags set_mm_flags].
      rewrite Z.setbit_eq by done. rewrite Z.setbit_neq by done.
      destruct (Z.testbit (mm_flags t) MMF_HAS_MDWE), (Z.testbit (mm_flags t) MMF_HAS_MDWE_NO_INHERIT); done.
    + change (flag_set 3 PR_MDWE_NO_INHERIT) with true.
      change (flag_set 3 PR_MDWE_REFUSE_EXEC_GAIN) with true. cbv iota.
      unfold get_current_mdwe. cbn [mm_flags set_mm_flags]. rewrite Z.setbit_eq by done.
      rewrite Z.setbit_neq by done. by rewrite Z.setbit_eq by done.
  - subst t'. cbn.
    destruct (flag_set bits PR_MDWE_REFUSE_EXEC_GAIN), (flag_set bits PR_MDWE_NO_INHERIT);
      apply exe_balanced_refl.
Qed.

Lemma thp_mdwe v t :
  Z.testbit v MMF_HAS_MDWE = Z.testbit (mm_flags t) MMF_HAS_MDWE ->
  Z.testbit v MMF_HAS_MDWE_NO_INHERIT = Z.testbit (mm_flags t) MMF_HAS_MDWE_NO_INHERIT ->
  get_current_mdwe (set_mm_flags v t) = get_current_mdwe t.
Proof. unfold get_current_mdwe. cbn. by intros -> ->. Qed.

Lemma set_thp_step e a2 a3 a4 a5 t : task_step e t (set_thp_disable e a2 a3 a4 a5 t).
Proof.
  unfold set_thp_disable. destruct (_ || _); [apply task_step_same|].
  destruct (write_lock_killed e); [apply task_step_same|].
  destruct (negb _); apply task_step_other; try done; apply thp_mdwe;
    (by rewrite Z.setbit_neq) || (by rewrite Z.clearbit_neq).
Qed.

Lemma set_vma_step e opt addr size arg t : task_step e t (prctl_set_vma e opt addr size arg t).
Proof.
  unfold prctl_set_vma. destruct (negb (anon_vma_name e)); [apply task_step_same|].
  destruct (opt =? _); [|apply task_step_same].
  destruct (negb (arg =? 0)); [|apply task_step_same].
  destruct (strndup_user e arg _) as [err|name]; [apply task_step_same|].
  destruct (negb (forallb _ name)); [apply task_step_other; try done; cbn; lia|].
  destruct (anon_name_alloc_ok e); cbn; apply task_step_other; try done; cbn; lia.
Qed.

Lemma mce_kill_step e a2 a3 a4 a5 t : task_step e t (mce_kill a2 a3 a4 a5 t).
Proof. unfold mce_kill. repeat case_match; by apply task_step_other. Qed.

Lemma io_flusher_step e a2 a3 a4 a5 t : task_step e t (set_io_flusher e a2 a3 a4 a5 t).
Proof. unfold set_io_flusher. repeat case_match; by apply task_step_other. Qed.

Lemma get_auxv_step e addr len m : mm_step e m (prctl_get_auxv e addr len m).
Proof.
  unfold prctl_get_auxv. destruct (negb _); [apply mm_step_umem|apply mm_step_same].
Qed.

Lemma tid_address_step e addr m : mm_step (mme e) m (prctl_get_tid_address e addr m).
Proof.
  unfold prctl_get_tid_address. destruct (checkpoint_restore (mme e)); [|apply mm_step_same].
  destruct (put_user _ _ _ _ _). apply mm_step_umem.
Qed.

Lemma get_name_step e addr t : task_step e t (get_name e addr t).
Proof. unfold get_name. apply task_step_space, mm_step_umem. Qed.

Create HintDb prctl discriminated.
#[local] Hint Resolve task_step_same put_int_step set_mdwe_step set_thp_step set_vma_step mce_kill_step
  io_flusher_step get_name_step get_auxv_step tid_address_step on_space_step set_mm_step : prctl.

(** The cases of the dispatch. *)
Ltac dispatch := repeat match goal with
  | |- task_step _ _ (if ?b then _ else _) => destruct b
  end.
Ltac finish_case := first [ solve [auto with prctl] | by apply task_step_other ].

Lemma prctl_tail_step e o a2 a3 a4 a5 t : task_step e t (prctl_tail e o a2 a3 a4 a5 t).
Proof. unfold prctl_tail. dispatch; finish_case. Qed.

Lemma prctl_arch_step e o a2 a3 a4 a5 t : task_step e t (prctl_arch e o a2 a3 a4 a5 t).
Proof. unfold prctl_arch. dispatch; first [apply prctl_tail_step|finish_case]. Qed.

Lemma prctl_modes_step e o a2 a3 a4 a5 t : 0 <= a4 -> task_step e t (prctl_modes e o a2 a3 a4 a5 t).
Proof.
  intros Ha. unfold prctl_modes, set_child_subreaper.
  dispatch; first [apply prctl_arch_step|finish_case].
Qed.

Lemma prctl_step e o a2 a3 a4 a5 t : 0 <= a4 -> task_step e t (prctl e o a2 a3 a4 a5 t).
Proof.
  intros Ha. unfold prctl, set_name. cbn zeta.
  dispatch; first [by apply prctl_modes_step|finish_case].
Qed.

(** [PR_MCE_KILL_SET] with an unknown policy fails, but the task has become one with a
    policy of its own. *)
Lemma mce_kill_bad_policy arg3 t :
  arg3 ∉ [PR_MCE_KILL_LATE; PR_MCE_KILL_EARLY; PR_MCE_KILL_DEFAULT] ->
  mce_kill PR_MCE_KILL_SET arg3 0 0 t = (- EINVAL, set_flags (Z.lor (flags t) PF_MCE_PROCESS) t).
Proof.
  intros Hn. unfold mce_kill. cbn [orb].
  destruct (Z.eqb_spec arg3 PR_MCE_KILL_EARLY) as [->|]; [by destruct Hn; apply (bool_decide_eq_true_1 _)|].
  destruct (Z.eqb_spec arg3 PR_MCE_KILL_LATE) as [->|]; [by destruct Hn; apply (bool_decide_eq_true_1 _)|].
  destruct (Z.eqb_spec arg3 PR_MCE_KILL_DEFAULT) as [->|]; [by destruct Hn; apply (bool_decide_eq_true_1 _)|].
  done.
Qed.

(** ** Histories *)

Record prctl_call := Call { c_option : Z; c_arg2 : Z; c_arg3 : Z; c_arg4 : Z; c_arg5 : Z }.
Definition call_ok (c : prctl_call) : Prop := 0 <= c_arg4 c.
Definition do_call (e : prctl_env) (c : prctl_call) (t : task) : Z * task :=
  prctl e (c_option c) (c_arg2 c) (c_arg3 c) (c_arg4 c) (c_arg5 c) t.
Definition history (e : prctl_env) (cs : list prctl_call) (t : task) : task :=
  foldl (fun t c => (do_call e c t).2) t cs.

Lemma do_call_step e c t : call_ok c -> task_step e t (do_call e c t).
Proof. apply prctl_step. Qed.

(** What every call preserves, every history does. *)
Lemma history_ind (P : task -> Prop) e cs t :
  Forall call_ok cs -> P t -> (forall c t, call_ok c -> P t -> P (do_call e c t).2) -> P (history e cs t).
Proof.
  intros Hcs Ht Hstep. revert t Ht. induction Hcs as [|c cs Hc _ IH]; intros t Ht; [done|].
  apply IH. by apply Hstep.
Qed.

(** C22. No history of [prctl] calls breaks the recorded layout of an address space: every
    address stays inside the range a process may use, code, data, heap, arguments and
    environment stay ordered ([start_brk <= brk], on which [brk] relies), the data limit
    is respected and the auxiliary vector ends in [AT_NULL]; and a call that fails leaves
    the layout and the vector as they were. *)
Theorem prctl_layout_invariant e cs c t :
  Forall call_ok cs -> call_ok c -> mm_ok (mme e) (space t) ->
  mm_ok (mme e) (space (history e cs t)) /\
  ((do_call e c (history e cs t)).1 < 0 ->
   lay (space (do_call e c (history e cs t)).2) = lay (space (history e cs t)) /\
   saved_auxv (space (do_call e c (history e cs t)).2) = saved_auxv (space (history e cs t))).
Proof.
  intros Hcs Hc Hok. split.
  - apply (history_ind (fun t => mm_ok (mme e) (space t))); [done..|].
    intros c' t' Hc' Ht'. by apply (step_ok e t' _ (do_call_step e c' t' Hc')).
  - apply (step_error e _ _ (do_call_step e c _ Hc)).
Qed.

(** What [prctl] restricts it never gives back: after [PR_SET_NO_NEW_PRIVS] the mark
    stays, and once a write-execute restriction is set ([PR_SET_MDWE]) it stays exactly
    that, whatever calls follow. *)
Theorem prctl_restrictions_permanent e cs t :
  Forall call_ok cs ->
  (no_new_privs t = true -> no_new_privs (history e cs t) = true) /\
  (get_current_mdwe t <> 0 -> get_current_mdwe (history e cs t) = get_current_mdwe t).
Proof.
  intros Hcs. split; intros Ht.
  - apply (history_ind (fun t => no_new_privs t = true)); [done..|].
    intros c' t' Hc'. apply (step_nnp e t' _ (do_call_step e c' t' Hc')).
  - apply (history_ind (fun t' => get_current_mdwe t' = get_current_mdwe t)); [done..|].
    intros c' t' Hc' Heq. rewrite <- Heq. apply (step_mdwe e t' _ (do_call_step e c' t' Hc')).
    congruence.
Qed.

(** No history of [prctl] calls leaks or loses a reference, on any error path: every
    descriptor borrowed is given back, every name buffer freed, and the executable the
    address space points to is the one it holds a reference to and denies writing to,
    the one it left being released. *)
Theorem prctl_balanced e cs t :
  Forall call_ok cs ->
  let t' := history e cs t in
  fds (space t') = fds (space t) /\ names_live t' = names_live t /\ anon_refs t' = anon_refs t /\
  exe_balanced (exe (space t)) (exe (space t')).
Proof.
  intros Hcs.
  apply (history_ind (fun t' => fds (space t') = fds (space t) /\ names_live t' = names_live t /\
    anon_refs t' = anon_refs t /\ exe_balanced (exe (space t)) (exe (space t')))); [done| |].
  - split_and!; try done. apply exe_balanced_refl.
  - intros c' t' Hc' (Hf & Hn & Ha & Hx). destruct (do_call_step e c' t' Hc') as [_ _ _ _ Hf' Hx' [Hn' Ha']].
    split_and!; try congruence. by apply (exe_balanced_trans _ (exe (space t'))).
Qed.

(** ** The subreaper walk *)

Section walk.
Context (e : prctl_env).
Definition child_of (l c : Z) : Prop := c ∈ (threads (procs e) l ≫= children (procs e)).
Definition reaps (c : Z) : Prop := is_child_reaper (procs e) c = true.

(** The descendants of a process that are not below the reaper of a namespace. *)
Inductive descendant (l : Z) : Z -> Prop :=
  | desc_child c : child_of l c -> descendant l c
  | desc_step m c : descendant l m -> ~ reaps m -> child_of m c -> descendant l c.

(** The process tree has no cycle: [rank] falls from parent to child. *)
Context (rank : Z -> nat) (Hrank : forall l c, child_of l c -> (rank c < rank l)%nat).

(** [has] is passed on from every marked process of rank below [n] to its children. *)
Definition inherits (n : nat) (has : Z -> bool) : Prop :=
  forall m c, has m = true -> (rank m < n)%nat -> child_of m c -> has c = true \/ reaps c.

Record walked (l : Z) (has has' : Z -> bool) : Prop := {
  w_mono : forall x, has x = true -> has' x = true;
  w_inherits : inherits (rank l) has';
  w_below : forall x, has' x = true -> has x = true \/ descendant l x;
  w_rank : forall x, (rank l <= rank x)%nat -> has' x = has x
}.

Lemma descendant_under l m x : child_of l m -> ~ reaps m -> descendant m x -> descendant l x.
Proof.
  intros Hm Hr. induction 1 as [c Hc|m' c _ IH Hr' Hc].
  - apply (desc_step l m); [by apply desc_child|done..].
  - by apply (desc_step l m').
Qed.

(** One child of [l], with the walk below it. *)
Lemma visit_child fuel l has0 has c :
  (forall has1, (rank c < fuel)%nat -> inherits (rank c) has1 ->
     let r := walk_process_tree e fuel (propagate_has_child_subreaper e) c (false, has1) in
     r.1 = false /\ walked c has1 r.2 /\ forall x, child_of c x -> r.2 x = true \/ reaps x) ->
  (rank l < S fuel)%nat -> child_of l c -> walked l has0 has ->
  let r := (let '(res, a) := propagate_has_child_subreaper e c has in
            if res <? 0 then (true, a)
            else if negb (res =? 0)
            then walk_process_tree e fuel (propagate_has_child_subreaper e) c (false, a)
            else (false, a)) in
  r.1 = false /\ walked l has0 r.2 /\ (forall x, has x = true -> r.2 x = true) /\
  (r.2 c = true \/ reaps c).
Proof.
  intros Hwalk Hf Hc Hw. specialize (Hrank l c Hc). unfold propagate_has_child_subreaper.
  destruct (has c) eqn:Eh; [cbn; auto|]. destruct (is_child_reaper (procs e) c) eqn:Er; [cbn; auto|].
  cbn [orb]. change (1 <? 0) with false. change (negb (1 =? 0)) with true. cbv iota.
  set (has1 := fun i : Z => if i =? c then true else has i).
  assert (H1 : forall x, has1 x = true -> x = c \/ has x = true).
  { intros x. unfold has1. destruct (Z.eqb_spec x c); auto. }
  assert (H1m : forall x, has x = true -> has1 x = true).
  { intros x Hx. unfold has1. by destruct (x =? c). }
  destruct Hw as [Hmono Hinh Hbelow Hsame].
  destruct (Hwalk has1) as (Hstop & [Hm2 Hi2 Hb2 Hs2] & Hk2); [lia| |].
  { intros m x Hm Hr Hx. destruct (H1 m Hm) as [->|Hm']; [lia|].
    destruct (Hinh m x Hm') as [?|?]; [lia|done|auto|by right]. }
  revert Hstop Hm2 Hi2 Hb2 Hs2 Hk2.
  destruct (walk_process_tree _ _ _ _ _) as [stop has2]. cbn [fst snd].
  intros Hstop Hm2 Hi2 Hb2 Hs2 Hk2. assert (Hnr : ~ reaps c) by (unfold reaps; by rewrite Er).
  split_and!; [done| |auto|].
  - split.
    + auto.
    + intros m x Hm Hr Hx. destruct (decide (rank m < rank c)%nat); [by apply (Hi2 m x)|].
      destruct (decide (m = c)) as [->|Hmc]; [by apply Hk2|].
      rewrite Hs2 in Hm by lia. destruct (H1 m Hm) as [?|Hm']; [done|].
      destruct (Hinh m x Hm' Hr Hx) as [?|?]; [auto|by right].
    + intros x Hx. destruct (Hb2 x Hx) as [Hx1|Hd].
      * destruct (H1 x Hx1) as [->|Hx']; [right; by apply desc_child|auto].
      * right. by apply (descendant_under l c).
    + intros x Hx. rewrite Hs2 by lia. unfold has1. destruct (Z.eqb_spec x c) as [->|]; [lia|].
      by apply Hsame.
  - left. apply Hm2. unfold has1. by rewrite Z.eqb_refl.
Qed.

Lemma walk_spec fuel l has :
  (rank l < fuel)%nat -> inherits (rank l) has ->
  let r := walk_process_tree e fuel (propagate_has_child_subreaper e) l (false, has) in
  r.1 = false /\ walked l has r.2 /\ forall c, child_of l c -> r.2 c = true \/ reaps c.
Proof.
  revert l has. induction fuel as [|fuel IH]; intros l has Hf Hinh; [lia|].
  cbn [walk_process_tree]. set (body := fun (st : bool * (Z -> bool)) (child : Z) => _).
  assert (Hgo : forall cs has0, (forall c, c ∈ cs -> child_of l c) -> walked l has has0 ->
    let r := foldl body (false, has0) cs in
    r.1 = false /\ walked l has r.2 /\ (forall x, has0 x = true -> r.2 x = true) /\
    forall c, c ∈ cs -> r.2 c = true \/ reaps c).
  { induction cs as [|c cs IHcs]; intros has0 Hcs Hw; cbn [foldl].
    - split_and!; try done. by intros c ?%not_elem_of_nil.
    - unfold body at 2 4 6 8. cbn [fst snd].
      destruct (visit_child fuel l has has0 c (IH c) Hf (Hcs c (list_elem_of_here _ _)) Hw)
        as (Hs & Hw1 & Hm1 & Hc1).
      revert Hs Hw1 Hm1 Hc1. match goal with |- context [foldl body ?st cs] => generalize st end.
      intros [stop has1]. cbn [fst snd]. intros -> Hw1 Hm1 Hc1.
      destruct (IHcs has1) as (Ha & Hb & Hm & Hd); [|done|].
      { intros x Hx. apply Hcs. by apply list_elem_of_further. }
      split_and!; auto. intros x [->|Hx]%elem_of_cons; [|by apply Hd].
      destruct Hc1 as [?|?]; [left; by apply Hm|by right]. }
  destruct (Hgo (threads (procs e) l ≫= children (procs e)) has) as (H1 & H2 & _ & H3).
  - done.
  - split; [done|done|by left|done].
  - split_and!; done.
Qed.

Lemma descendant_rank l c : descendant l c -> (rank c < rank l)%nat.
Proof.
  induction 1 as [c Hc|m c _ IH _ Hc]; [by apply Hrank|]. specialize (Hrank m c Hc). lia.
Qed.

(** [PR_SET_CHILD_SUBREAPER] marks every descendant of the caller outside the
    namespaces of other reapers, and only descendants, although the walk skips what is
    below a process that is marked already; it relies on, and keeps, that marks are
    inherited.  The tree has no cycle and is less deep than the walk's bound. *)
Theorem subreaper_marks_descendants arg t :
  (rank (current e) < depth (procs e))%nat ->
  inherits (rank (current e)) (has_child_subreaper t) -> arg <> 0 ->
  let t' := (set_child_subreaper e arg t).2 in
  is_child_subreaper t' = true /\
  (forall c, descendant (current e) c -> ~ reaps c -> has_child_subreaper t' c = true) /\
  (forall c, has_child_subreaper t' c = true -> has_child_subreaper t c = true \/ descendant (current e) c) /\
  inherits (rank (current e)) (has_child_subreaper t').
Proof.
  intros Hd Hinh Harg. unfold set_child_subreaper. apply Z.eqb_neq in Harg. rewrite Harg. cbn.
  destruct (walk_spec (depth (procs e)) (current e) (has_child_subreaper t) Hd Hinh)
    as (_ & [_ Hi Hb _] & Hk).
  split_and!; [done| |done|done].
  assert (Hall : forall c, descendant (current e) c ->
    (walk_process_tree e (depth (procs e)) (propagate_has_child_subreaper e) (current e)
       (false, has_child_subreaper t)).2 c = true \/ reaps c).
  { induction 1 as [c Hc|m c Hm IH Hr Hc]; [by apply Hk|].
    destruct IH as [IH|?]; [|done]. apply (Hi m c IH); [by apply descendant_rank|done]. }
  intros c Hc Hr. by destruct (Hall c Hc).
Qed.
End walk.
End PrctlSpec.

(** ** A task and its kernel *)
Module PrctlDemo.
Import Bytes ExeFile PrctlMm Prctl PrctlSpec.

Definition demo_mm_env : mm_env := {|
  exes := {| vma_files := [None; Some 4]; f_path f := f; i_writers _ := false |};
  fd_file fd := if fd =? 7 then Some 9 else None;
  exe_is_reg _ := true; path_noexec _ := false; may_exec _ := 0;
  TASK_SIZE := 2 ^ 47 - 4096; mmap_min_addr := 4096; rlimit_data := ULONG_MAX;
  check_data_rlimit _ _ _ _ _ := 0; find_vma _ := true;
  checkpoint_restore := true; checkpoint_restore_capable := true; capable_resource := true;
  uacc := ua_ok |}.

(** Processes 1, 2, 3 in a line; 3 has a thread 4 with a child 5. *)
Definition demo_tree : tree := {|
  threads p := if p =? 3 then [3; 4] else [p];
  children p := if p =? 1 then [2] else if p =? 2 then [3] else if p =? 4 then [5] else [];
  is_child_reaper _ := false; depth := 6 |}.

Definition demo_env : prctl_env := {|
  mme := demo_mm_env; current := 1; procs := demo_tree;
  security_task_prctl _ _ _ _ _ := - ENOSYS; arch_macro _ := None; dispatched _ _ _ _ _ := 0;
  anon_vma_name := true; sched_core := true; ksm := true; write_lock_killed := false;
  clear_child_tid := 0; strndup_user _ _ := inr [104; 105]; anon_name_alloc_ok := true;
  madvise_set_anon_name _ _ _ := 0 |}.

Definition demo_task : task := {|
  space := {| lay := Layout 4096 8192 8192 12288 16384 20480 90000 91000 92000 93000 94000;
              saved_auxv := replicate 400 0 ++ replicate 16 0;
              exe := Exe (Some 3) (fun f => if f =? 3 then 1 else 5) (fun f => if f =? 3 then 1 else 0);
              fds := 0; umem := fun _ => 0 |};
  mm_flags := 0; dumpable := 1; pdeath_signal := 0; comm := replicate 16 0; flags := 0;
  timer_slack_ns := 50000; default_timer_slack_ns := 50000; no_new_privs := false;
  is_child_subreaper := false; has_child_subreaper := fun _ => false; names_live := 0; anon_refs := 0 |}.

Lemma demo_mm_ok : mm_ok demo_mm_env (space demo_task).
Proof. split; [by apply validate_spec|]. by exists (replicate 400 0). Qed.

Definition set_brk_low : prctl_call := Call PR_SET_MM PR_SET_MM_BRK 8192 0 0.
Definition set_brk_high : prctl_call := Call PR_SET_MM PR_SET_MM_BRK 24576 0 0.

(** Raising the heap works; lowering it below its start is refused. *)
Lemma prctl_layout_invariant_witness :
  brk (lay (space (history demo_env [set_brk_high] demo_task))) = 24576 /\
  lay (space (do_call demo_env set_brk_low (history demo_env [set_brk_high] demo_task)).2) =
  lay (space (history demo_env [set_brk_high] demo_task)).
Proof.
  split; [done|].
  refine (proj1 (proj2 (prctl_layout_invariant demo_env [set_brk_high] set_brk_low demo_task _ _ demo_mm_ok) _)).
  - by repeat constructor.
  - done.
  - done.
Defined.

Lemma prctl_restrictions_permanent_witness :
  let t := history demo_env [Call PR_SET_NO_NEW_PRIVS 1 0 0 0; Call PR_SET_MDWE 1 0 0 0] demo_task in
  get_current_mdwe (history demo_env [Call PR_SET_MDWE 0 0 0 0; Call PR_SET_NO_NEW_PRIVS 0 0 0 0] t) = 1.
Proof.
  set (t := history _ _ demo_task).
  exact (proj2 (prctl_restrictions_permanent demo_env _ t
    (Forall_cons_2 call_ok (Call PR_SET_MDWE 0 0 0 0) _ (Z.le_refl 0)
       (Forall_cons_2 call_ok (Call PR_SET_NO_NEW_PRIVS 0 0 0 0) _ (Z.le_refl 0) (Forall_nil_2 _))))
    ltac:(done)).
Defined.

(** The executable 3 is replaced by the file 9 of descriptor 7. *)
Lemma prctl_balanced_witness :
  let t' := history demo_env [Call PR_SET_MM PR_SET_MM_EXE_FILE 7 0 0; Call PR_SET_VMA 0 0 4096 1] demo_task in
  exe_file (exe (space t')) = Some 9 /\ exe_balanced (exe (space demo_task)) (exe (space t')).
Proof.
  split; [done|].
  refine (proj2 (proj2 (proj2 (prctl_balanced demo_env _ demo_task _)))). repeat constructor; done.
Defined.

Definition demo_rank (p : Z) : nat := Z.to_nat (5 - p).

Lemma demo_rank_falls l c : child_of demo_env l c -> (demo_rank c < demo_rank l)%nat.
Proof.
  unfold child_of. cbn. intros (p & Hc & Hp)%list_elem_of_bind.
  destruct (Z.eqb_spec l 3) as [->|Hl].
  - repeat (apply elem_of_cons in Hp as [->|Hp]; [|]); try (by apply not_elem_of_nil in Hp);
      cbn in Hc; try (by apply not_elem_of_nil in Hc).
    apply list_elem_of_singleton in Hc as ->. unfold demo_rank. lia.
  - apply list_elem_of_singleton in Hp as ->. unfold demo_rank.
    destruct (Z.eqb_spec l 1); [apply list_elem_of_singleton in Hc as ->; lia|].
    destruct (Z.eqb_spec l 2); [apply list_elem_of_singleton in Hc as ->; lia|].
    destruct (Z.eqb_spec l 4); [apply list_elem_of_singleton in Hc as ->; lia|].
    by apply not_elem_of_nil in Hc.
Qed.

Lemma subreaper_marks_descendants_witness :
  has_child_subreaper (set_child_subreaper demo_env 1 demo_task).2 5 = true /\
  inherits demo_env demo_rank (demo_rank 1) (has_child_subreaper (set_child_subreaper demo_env 1 demo_task).2).
Proof.
  split; [done|].
  refine (proj2 (proj2 (proj2 (subreaper_marks_descendants demo_env demo_rank demo_rank_falls 1 demo_task _ _ _)))).
  - cbn. unfold demo_rank. lia.
  - intros m c Hm. done.
  - done.
Defined.
End PrctlDemo.
