(* ===== verification/Fork.v ===== *)
(** * Process creation ([kernel/fork.c])

    [copy_process] as a sequence of acquisitions, each with its own label of the error
    ladder, [kernel_clone] and the checks of [clone3] and [unshare].  A task points to
    shared objects (descriptor table, working directories, signal handlers, signal
    state, address space) that count their users; a new task starts with the pointers of
    its parent and gets its own references, or objects of its own, one after the other.
    Everything the functions call outside the file is a field of [fork_env]: its answer,
    [0] or an error. *)
From S2P Require Import Prelude Task.

Module Fork.

Definition CSIGNAL : Z := 0xff.
Definition CLONE_NEWTIME : Z := 0x80.
Definition CLONE_VM : Z := 0x100.
Definition CLONE_FS : Z := 0x200.
Definition CLONE_FILES : Z := 0x400.
Definition CLONE_SIGHAND : Z := 0x800.
Definition CLONE_PIDFD : Z := 0x1000.
Definition CLONE_VFORK : Z := 0x4000.
Definition CLONE_PARENT : Z := 0x8000.
Definition CLONE_THREAD : Z := 0x10000.
Definition CLONE_NEWNS : Z := 0x20000.
Definition CLONE_SYSVSEM : Z := 0x40000.
Definition CLONE_PARENT_SETTID : Z := 0x100000.
Definition CLONE_CHILD_CLEARTID : Z := 0x200000.
Definition CLONE_DETACHED : Z := 0x400000.
Definition CLONE_UNTRACED : Z := 0x800000.
Definition CLONE_CHILD_SETTID : Z := 0x1000000.
Definition CLONE_NEWCGROUP : Z := 0x2000000.
Definition CLONE_NEWUTS : Z := 0x4000000.
Definition CLONE_NEWIPC : Z := 0x8000000.
Definition CLONE_NEWUSER : Z := 0x10000000.
Definition CLONE_NEWPID : Z := 0x20000000.
Definition CLONE_NEWNET : Z := 0x40000000.
Definition CLONE_IO : Z := 0x80000000.
Definition CLONE_CLEAR_SIGHAND : Z := 0x100000000.
Definition CLONE_INTO_CGROUP : Z := 0x200000000.
Definition CLONE_LEGACY_FLAGS : Z := 0xffffffff.
Definition PF_KTHREAD : Z := 0x200000.
Definition PF_USER_WORKER : Z := 0x4000.
Definition PF_IO_WORKER : Z := 0x10.
Definition PF_NPROC_EXCEEDED : Z := 0x1000.
Definition SIGCHLD : Z := 17.
Definition ERESTARTNOINTR : Z := 513.
Definition E2BIG : Z := 7.
Definition _NSIG : Z := 64.

(** ** Data *)

(** What is acquired once: the task itself, its credentials and place in the process
    count, and so on down to the reserved descriptor, the file behind it, the two locks
    and the node that collects signals; then the references of [kernel_clone]. *)
Inductive slot :=
  | Stask | Screds | Snproc | Sdelayacct | Smempolicy | Sperf | Saudit | Ssecurity | Ssemundo
  | Snamespaces | Sio | Sthread | Spid | Sfd | Spidfile | Scgroup | Stasklist | Ssiglock | Sdelayed
  | Spid_ref | Stask_ref | Scred_new | Snsproxy_new.

Inductive kind := Kfiles | Kfs | Ksighand | Ksignal | Kmm.

#[export] Instance slot_eq_dec : EqDecision slot.
Proof. solve_decision. Defined.
#[export] Instance kind_eq_dec : EqDecision kind.
Proof. solve_decision. Defined.

(** A task, as this file sees it. *)
Record ptask := Ptask {
  p_files : option Z; p_fs : option Z; p_sighand : Z; p_signal : Z; p_mm : option Z;
  p_io : bool; p_flags : Z; p_set_child_tid : Z; p_clear_child_tid : Z; p_nsproxy : Z
}.

(** [held] counts what is acquired, [users] the users of every object; [next_obj] names
    the next object.  [tab] is the table of tasks. *)
Record state := State {
  held : slot -> Z; users : kind -> Z -> Z; next_obj : Z;
  nr_threads : Z; total_forks : Z; cur_flags : Z; tab : Task.table
}.

Definition delta {A} `{EqDecision A} (x y : A) : Z := if decide (x = y) then 1 else 0.
#[global] Arguments delta : simpl never.
Definition hold (x : slot) (d : Z) (s : state) : state :=
  State (fun y => held s y + d * delta x y) (users s) (next_obj s) (nr_threads s) (total_forks s)
        (cur_flags s) (tab s).
Definition use (k : kind) (o d : Z) (s : state) : state :=
  State (held s) (fun k' o' => users s k' o' + d * delta (k, o) (k', o')) (next_obj s)
        (nr_threads s) (total_forks s) (cur_flags s) (tab s).
(** A new object, with one user. *)
Definition fresh (k : kind) (s : state) : Z * state :=
  (next_obj s, use k (next_obj s) 1
     (State (held s) (users s) (next_obj s + 1) (nr_threads s) (total_forks s) (cur_flags s) (tab s))).
Definition set_cur_flags (f : Z) (s : state) : state :=
  State (held s) (users s) (next_obj s) (nr_threads s) (total_forks s) f (tab s).

Definition set_files v p := Ptask v (p_fs p) (p_sighand p) (p_signal p) (p_mm p) (p_io p) (p_flags p) (p_set_child_tid p) (p_clear_child_tid p) (p_nsproxy p).
Definition set_fs v p := Ptask (p_files p) v (p_sighand p) (p_signal p) (p_mm p) (p_io p) (p_flags p) (p_set_child_tid p) (p_clear_child_tid p) (p_nsproxy p).
Definition set_sighand v p := Ptask (p_files p) (p_fs p) v (p_signal p) (p_mm p) (p_io p) (p_flags p) (p_set_child_tid p) (p_clear_child_tid p) (p_nsproxy p).
Definition set_signal v p := Ptask (p_files p) (p_fs p) (p_sighand p) v (p_mm p) (p_io p) (p_flags p) (p_set_child_tid p) (p_clear_child_tid p) (p_nsproxy p).
Definition set_mm v p := Ptask (p_files p) (p_fs p) (p_sighand p) (p_signal p) v (p_io p) (p_flags p) (p_set_child_tid p) (p_clear_child_tid p) (p_nsproxy p).
Definition set_io v p := Ptask (p_files p) (p_fs p) (p_sighand p) (p_signal p) (p_mm p) v (p_flags p) (p_set_child_tid p) (p_clear_child_tid p) (p_nsproxy p).
Definition set_pflags v p := Ptask (p_files p) (p_fs p) (p_sighand p) (p_signal p) (p_mm p) (p_io p) v (p_set_child_tid p) (p_clear_child_tid p) (p_nsproxy p).
Definition set_tids a b p := Ptask (p_files p) (p_fs p) (p_sighand p) (p_signal p) (p_mm p) (p_io p) (p_flags p) a b (p_nsproxy p).

(** [struct kernel_clone_args]. *)
Record kargs := Kargs {
  flags : Z; pidfd : Z; child_tid : Z; parent_tid : Z; exit_signal : Z; stack : Z; stack_size : Z;
  tls : Z; set_tid : list Z; set_tid_size : Z; cgroup : Z;
  kthread : bool; io_thread : bool; user_worker : bool; no_files : bool
}.

Record fork_env := {
  signal_unkillable : bool;                (* SIGNAL_UNKILLABLE of the caller *)
  other_pid_ns : bool;                     (* children are born in another pid namespace *)
  task_sigpending : bool; dup_task_ok : bool;
  copy_creds : Z; nproc_overlimit : bool; user_is_init : bool; capable_resource_or_admin : bool;
  max_threads : Z;
  set_kthread_ok : bool; mpol_dup : Z;
  sched_fork : Z; perf_event_init_task : Z; audit_alloc : Z; security_task_alloc : Z; copy_semundo : Z;
  dup_fd : Z;                              (* 0, or the error *)
  fs_in_exec : bool; copy_fs_struct_ok : bool; sighand_alloc_ok : bool; signal_alloc_ok : bool;
  dup_mm_ok : bool; copy_namespaces : Z; copy_io : Z; has_io_context : bool; copy_thread : Z;
  alloc_pid : Z + Z;                       (* the error, or the pid *)
  get_unused_fd : Z; anon_inode_getfile : Z; put_user_pidfd : Z;
  cgroup_can_fork : Z; pid_ns_dying : bool; fatal_signal_pending : bool;
  ptrace_event_enabled : Z -> bool; vfork_killed : bool; pid_vnr : Z -> Z
}.

Definition PTRACE_EVENT_FORK : Z := 1.
Definition PTRACE_EVENT_VFORK : Z := 2.
Definition PTRACE_EVENT_CLONE : Z := 3.

(** One run of [copy_process]: [own_pid] tells it from that of an idle task, [me] and
    [cur] are the caller. *)
Section copy.
Context (e : fork_env) (args : kargs) (own_pid : bool) (me : ptask) (cur : Z).
Notation fl := (flags args).

(** ** The flags *)

Definition all_set (w f : Z) : bool := Z.land w f =? f.

Definition clone_flags_ok : bool :=
  if all_set fl (Z.lor CLONE_NEWNS CLONE_FS) then false
  else if all_set fl (Z.lor CLONE_NEWUSER CLONE_FS) then false
  else if flag_set fl CLONE_THREAD && negb (flag_set fl CLONE_SIGHAND) then false
  else if flag_set fl CLONE_SIGHAND && negb (flag_set fl CLONE_VM) then false
  else if flag_set fl CLONE_PARENT && signal_unkillable e then false
  else if flag_set fl CLONE_THREAD
          && (flag_set fl (Z.lor CLONE_NEWUSER CLONE_NEWPID) || other_pid_ns e) then false
  else if flag_set fl CLONE_PIDFD && flag_set fl (Z.lor CLONE_DETACHED CLONE_THREAD) then false
  else true.

(** ** Copies of the shared objects

    Each returns [0] or an error, the new task and the state; [p] starts with the
    pointers of the caller. *)

Definition put_obj (k : kind) (o : option Z) (s : state) : state :=
  match o with Some o => use k o (-1) s | None => s end.

Definition copy_files (p : ptask) (s : state) : Z * ptask * state :=
  match p_files me with
  | None => (0, p, s)
  | Some oldf =>
      if no_files args then (0, set_files None p, s)
      else if flag_set fl CLONE_FILES then (0, p, use Kfiles oldf 1 s)
      else if negb (dup_fd e =? 0) then (dup_fd e, p, s)
      else let '(newf, s) := fresh Kfiles s in (0, set_files (Some newf) p, s)
  end.

Definition copy_fs (p : ptask) (s : state) : Z * ptask * state :=
  if flag_set fl CLONE_FS then
    if fs_in_exec e then (- EAGAIN, p, s)
    else match p_fs me with Some fs => (0, p, use Kfs fs 1 s) | None => (0, p, s) end
  else if negb (copy_fs_struct_ok e) then (- ENOMEM, set_fs None p, s)
  else let '(fs, s) := fresh Kfs s in (0, set_fs (Some fs) p, s).

Definition copy_sighand (p : ptask) (s : state) : Z * ptask * state :=
  if flag_set fl CLONE_SIGHAND then (0, p, use Ksighand (p_sighand me) 1 s)
  else if negb (sighand_alloc_ok e) then (- ENOMEM, p, s)
  else let '(sg, s) := fresh Ksighand s in (0, set_sighand sg p, s).

Definition copy_signal (p : ptask) (s : state) : Z * ptask * state :=
  if flag_set fl CLONE_THREAD then (0, p, s)
  else if negb (signal_alloc_ok e) then (- ENOMEM, p, s)
  else let '(sg, s) := fresh Ksignal s in (0, set_signal sg p, s).

Definition copy_mm (p : ptask) (s : state) : Z * ptask * state :=
  let p := set_mm None p in
  match p_mm me with
  | None => (0, p, s)
  | Some oldmm =>
      if flag_set fl CLONE_VM then (0, set_mm (Some oldmm) p, use Kmm oldmm 1 s)
      else if negb (dup_mm_ok e) then (- ENOMEM, p, s)
      else let '(mm, s) := fresh Kmm s in (0, set_mm (Some mm) p, s)
  end.

(** ** The error ladder

    The labels of [copy_process], from the last to the first; each releases one thing
    and falls into the next. *)

(** [hlist_del_init] does nothing to a node that was not added. *)
Definition fork_out (s : state) : state :=
  if negb (flag_set fl CLONE_THREAD) then hold Sdelayed (-1) s else s.
Definition bad_fork_free (s : state) : state := fork_out (hold Stask (-1) s).
Definition bad_fork_cleanup_count (s : state) : state :=
  bad_fork_free (hold Screds (-1) (hold Snproc (-1) s)).
Definition bad_fork_cleanup_delayacct (s : state) : state :=
  bad_fork_cleanup_count (hold Sdelayacct (-1) s).
Definition bad_fork_cleanup_policy (s : state) : state :=
  bad_fork_cleanup_delayacct (hold Smempolicy (-1) s).
Definition bad_fork_cleanup_perf (s : state) : state := bad_fork_cleanup_policy (hold Sperf (-1) s).
Definition bad_fork_cleanup_audit (s : state) : state := bad_fork_cleanup_perf (hold Saudit (-1) s).
Definition bad_fork_cleanup_security (s : state) : state :=
  bad_fork_cleanup_audit (hold Ssecurity (-1) s).
Definition bad_fork_cleanup_semundo (s : state) : state :=
  bad_fork_cleanup_security (hold Ssemundo (-1) s).
Definition bad_fork_cleanup_files (p : ptask) (s : state) : state :=
  bad_fork_cleanup_semundo (put_obj Kfiles (p_files p) s).
Definition bad_fork_cleanup_fs (p : ptask) (s : state) : state :=
  bad_fork_cleanup_files p (put_obj Kfs (p_fs p) s).
Definition bad_fork_cleanup_sighand (p : ptask) (s : state) : state :=
  bad_fork_cleanup_fs p (use Ksighand (p_sighand p) (-1) s).
Definition bad_fork_cleanup_signal (p : ptask) (s : state) : state :=
  bad_fork_cleanup_sighand p (if negb (flag_set fl CLONE_THREAD) then use Ksignal (p_signal p) (-1) s else s).
Definition bad_fork_cleanup_mm (p : ptask) (s : state) : state :=
  bad_fork_cleanup_signal p (put_obj Kmm (p_mm p) s).
Definition bad_fork_cleanup_namespaces (p : ptask) (s : state) : state :=
  bad_fork_cleanup_mm p (hold Snamespaces (-1) s).
Definition bad_fork_cleanup_io (p : ptask) (s : state) : state :=
  bad_fork_cleanup_namespaces p (if p_io p then hold Sio (-1) s else s).
Definition bad_fork_cleanup_thread (p : ptask) (s : state) : state :=
  bad_fork_cleanup_io p (hold Sthread (-1) s).
Definition bad_fork_free_pid (p : ptask) (s : state) : state :=
  bad_fork_cleanup_thread p (if own_pid then hold Spid (-1) s else s).
Definition bad_fork_put_pidfd (p : ptask) (s : state) : state :=
  bad_fork_free_pid p
    (if flag_set fl CLONE_PIDFD then hold Sfd (-1) (hold Spidfile (-1) s) else s).
Definition bad_fork_cancel_cgroup (p : ptask) (s : state) : state :=
  bad_fork_put_pidfd p (hold Scgroup (-1) (hold Stasklist (-1) (hold Ssiglock (-1) s))).

(** ** [copy_process] *)

Definition result : Type := (Z + (ptask * Z)) * state.

(** The flags and thread-id addresses of the new task; [dup_task_struct] copied the rest. *)
Definition new_task : ptask :=
  let f := Z.ldiff (p_flags me) PF_KTHREAD in
  let f := if kthread args then Z.lor f PF_KTHREAD else f in
  let f := if user_worker args then Z.lor f PF_USER_WORKER else f in
  let f := if io_thread args then Z.lor f PF_IO_WORKER else f in
  set_tids (if flag_set fl CLONE_CHILD_SETTID then child_tid args else 0)
           (if flag_set fl CLONE_CHILD_CLEARTID then child_tid args else 0)
           (set_pflags f me).

(** Making it visible, under both locks; no error is possible after the two checks. *)
Definition enter_task (p : ptask) (pid : Z) (s : state) : result :=
  let s := hold Ssiglock 1 (hold Stasklist 1 s) in
  if pid_ns_dying e then (inl (- ENOMEM), bad_fork_cancel_cgroup p s)
  else if fatal_signal_pending e then (inl (- EINTR), bad_fork_cancel_cgroup p s)
  else
    let s :=
      if own_pid then
        let s := if flag_set fl CLONE_THREAD then use Ksignal (p_signal p) 1 s else s in
        State (held s) (users s) (next_obj s) (nr_threads s + 1) (total_forks s) (cur_flags s)
              (Task.attach_new_task cur pid fl (tab s))
      else s in
    let s := State (held s) (users s) (next_obj s) (nr_threads s) (total_forks s + 1) (cur_flags s) (tab s) in
    let s := fork_out s in
    let s := hold Stasklist (-1) (hold Ssiglock (-1) s) in
    let s := hold Scgroup (-1) s in
    (inr (p, pid), s).

(** [__pidfd_prepare]: an error, or the descriptor. *)
Definition pidfd_prepare (s : state) : Z * state :=
  if get_unused_fd e <? 0 then (get_unused_fd e, s)
  else
    let s := hold Sfd 1 s in
    if negb (anon_inode_getfile e =? 0) then (anon_inode_getfile e, hold Sfd (-1) s)
    else (get_unused_fd e, hold Spidfile 1 s).

(** The pid, the descriptor for it and the control groups. *)
Definition copy_pid (p : ptask) (s : state) : result :=
  match (if own_pid then alloc_pid e else inr 0) with
  | inl err => (inl err, bad_fork_cleanup_thread p s)
  | inr pid =>
      let s := if own_pid then hold Spid 1 s else s in
      let '(retval, bad_put, s) :=
        if flag_set fl CLONE_PIDFD then
          let '(r, s) := pidfd_prepare s in
          if r <? 0 then (r, false, s)
          else if negb (put_user_pidfd e =? 0) then (put_user_pidfd e, true, s)
          else (0, false, s)
        else (0, false, s) in
      if negb (retval =? 0)
      then (inl retval, if bad_put : bool then bad_fork_put_pidfd p s else bad_fork_free_pid p s)
      else if negb (cgroup_can_fork e =? 0) then (inl (cgroup_can_fork e), bad_fork_put_pidfd p s)
      else enter_task p pid (hold Scgroup 1 s)
  end.

(** From [sched_fork] to [copy_thread]. *)
Definition copy_objects (p : ptask) (s : state) : result :=
  let '(retval, p, s) := copy_files p s in
  if negb (retval =? 0) then (inl retval, bad_fork_cleanup_semundo s)
  else
  let '(retval, p, s) := copy_fs p s in
  if negb (retval =? 0) then (inl retval, bad_fork_cleanup_files p s)
  else
  let '(retval, p, s) := copy_sighand p s in
  if negb (retval =? 0) then (inl retval, bad_fork_cleanup_fs p s)
  else
  let '(retval, p, s) := copy_signal p s in
  if negb (retval =? 0) then (inl retval, bad_fork_cleanup_sighand p s)
  else
  let '(retval, p, s) := copy_mm p s in
  if negb (retval =? 0) then (inl retval, bad_fork_cleanup_signal p s)
  else
  if negb (copy_namespaces e =? 0) then (inl (copy_namespaces e), bad_fork_cleanup_mm p s)
  else
  let s := hold Snamespaces 1 s in
  if negb (copy_io e =? 0) then (inl (copy_io e), bad_fork_cleanup_namespaces p s)
  else
  let p := set_io (has_io_context e) p in
  let s := if has_io_context e then hold Sio 1 s else s in
  if negb (copy_thread e =? 0) then (inl (copy_thread e), bad_fork_cleanup_io p s)
  else copy_pid p (hold Sthread 1 s).

Definition copy_context (p : ptask) (s : state) : result :=
  if negb (sched_fork e =? 0) then (inl (sched_fork e), bad_fork_cleanup_policy s)
  else if negb (perf_event_init_task e =? 0) then (inl (perf_event_init_task e), bad_fork_cleanup_policy s)
  else
  let s := hold Sperf 1 s in
  if negb (audit_alloc e =? 0) then (inl (audit_alloc e), bad_fork_cleanup_perf s)
  else
  let s := hold Saudit 1 s in
  if negb (security_task_alloc e =? 0) then (inl (security_task_alloc e), bad_fork_cleanup_audit s)
  else
  let s := hold Ssecurity 1 s in
  if negb (copy_semundo e =? 0) then (inl (copy_semundo e), bad_fork_cleanup_security s)
  else copy_objects p (hold Ssemundo 1 s).

Definition copy_process (s : state) : result :=
  if negb clone_flags_ok then (inl (- EINVAL), s)
  else
  let s := if negb (flag_set fl CLONE_THREAD) then hold Sdelayed 1 s else s in
  if task_sigpending e then (inl (- ERESTARTNOINTR), fork_out s)
  else if negb (dup_task_ok e) then (inl (- ENOMEM), fork_out s)
  else
  let s := hold Stask 1 s in
  let p := new_task in
  if copy_creds e <? 0 then (inl (copy_creds e), bad_fork_free s)
  else
  let s := hold Snproc 1 (hold Screds 1 s) in
  if nproc_overlimit e && negb (user_is_init e) && negb (capable_resource_or_admin e)
  then (inl (- EAGAIN), bad_fork_cleanup_count s)
  else
  let s := set_cur_flags (Z.ldiff (cur_flags s) PF_NPROC_EXCEEDED) s in
  if max_threads e <=? nr_threads s then (inl (- EAGAIN), bad_fork_cleanup_count s)
  else
  let s := hold Sdelayacct 1 s in
  let p := set_pflags (Task.child_flags (p_flags p)) p in
  if kthread args && negb (set_kthread_ok e) then (inl (- EAGAIN), bad_fork_cleanup_delayacct s)
  else if negb (mpol_dup e =? 0) then (inl (mpol_dup e), bad_fork_cleanup_delayacct s)
  else copy_context p (hold Smempolicy 1 s).
End copy.

(** ** [kernel_clone] and its callers *)

(** The event to report to a tracer, [0] for none. *)
Definition clone_trace (e : fork_env) (args : kargs) : Z :=
  if flag_set (flags args) CLONE_UNTRACED then 0
  else
    let trace := if flag_set (flags args) CLONE_VFORK then PTRACE_EVENT_VFORK
                 else if negb (exit_signal args =? SIGCHLD) then PTRACE_EVENT_CLONE
                 else PTRACE_EVENT_FORK in
    if ptrace_event_enabled e trace then trace else 0.

(** Waiting for a [vfork] child drops the reference taken for it. *)
Definition wait_for_vfork_done (e : fork_env) (s : state) : bool * state :=
  (vfork_killed e, hold Stask_ref (-1) s).

(** The number or the error, the thread id written for [CLONE_PARENT_SETTID] and the
    events reported. *)
Definition kernel_clone (e : fork_env) (args : kargs) (me : ptask) (cur : Z) (s : state)
    : Z * option Z * list Z * state :=
  if flag_set (flags args) CLONE_PIDFD && flag_set (flags args) CLONE_PARENT_SETTID
     && (pidfd args =? parent_tid args)
  then (- EINVAL, None, [], s)
  else
    let trace := clone_trace e args in
    match copy_process e args true me cur s with
    | (inl err, s) => (err, None, [], s)
    | (inr (p, pid), s) =>
        let s := hold Spid_ref 1 s in
        let nr := pid_vnr e pid in
        let settid := if flag_set (flags args) CLONE_PARENT_SETTID then Some nr else None in
        let s := if flag_set (flags args) CLONE_VFORK then hold Stask_ref 1 s else s in
        let events := if negb (trace =? 0) then [trace] else [] in
        let '(events, s) :=
          if flag_set (flags args) CLONE_VFORK then
            let '(killed, s) := wait_for_vfork_done e s in
            (events ++ if killed then [] else [5], s)
          else (events, s) in
        (nr, settid, events, hold Spid_ref (-1) s)
    end.

(** Arguments of the kernel's own clones. *)
Definition kernel_flags (fl : Z) : Z :=
  Z.ldiff (Z.lor (Z.lor (u32 fl) CLONE_VM) CLONE_UNTRACED) CSIGNAL.
Definition thread_args (fl : Z) (kt : bool) : kargs :=
  Kargs (kernel_flags fl) 0 0 0 (Z.land (u32 fl) CSIGNAL) 0 0 0 [] 0 0 kt false false false.
Definition kernel_thread (e : fork_env) (fl : Z) := kernel_clone e (thread_args fl true).
Definition user_mode_thread (e : fork_env) (fl : Z) := kernel_clone e (thread_args fl false).
Definition vfork_args : kargs :=
  Kargs (Z.lor CLONE_VFORK CLONE_VM) 0 0 0 SIGCHLD 0 0 0 [] 0 0 false false false false.
Definition sys_vfork (e : fork_env) := kernel_clone e vfork_args.
Definition io_thread_args : kargs :=
  let fl := Z.lor (Z.lor (Z.lor CLONE_FS CLONE_FILES) (Z.lor CLONE_SIGHAND CLONE_THREAD)) CLONE_IO in
  Kargs (kernel_flags fl) 0 0 0 (Z.land (u32 fl) CSIGNAL) 0 0 0 [] 0 0 false true true false.
Definition create_io_thread (e : fork_env) := copy_process e io_thread_args true.
Definition idle_args : kargs := Kargs CLONE_VM 0 0 0 0 0 0 0 [] 0 0 true false false false.
Definition fork_idle (e : fork_env) := copy_process e idle_args false.

(** ** [clone3] *)

Definition CLONE_ARGS_SIZE_VER0 : Z := 64.
Definition CLONE_ARGS_SIZE_VER2 : Z := 88.
Definition MAX_PID_NS_LEVEL : Z := 32.
Definition INT_MAX : Z := 2 ^ 31 - 1.

(** [struct clone_args], the caller's. *)
Record uargs := Uargs {
  a_flags : Z; a_pidfd : Z; a_child_tid : Z; a_parent_tid : Z; a_exit_signal : Z; a_stack : Z;
  a_stack_size : Z; a_tls : Z; a_set_tid : Z; a_set_tid_size : Z; a_cgroup : Z
}.

Record clone3_env := {
  copy_struct_from_user : Z -> Z + uargs;  (* by size, zero filled *)
  copy_set_tid : Z -> Z -> option (list Z);
  access_ok : Z -> Z -> bool
}.

Section clone3.
Context (c : clone3_env).

Definition copy_clone_args_from_user (usize : Z) : Z + kargs :=
  if PAGE_SIZE <? usize then inl (- E2BIG)
  else if usize <? CLONE_ARGS_SIZE_VER0 then inl (- EINVAL)
  else
    let! a := copy_struct_from_user c usize in
    if MAX_PID_NS_LEVEL <? a_set_tid_size a then inl (- EINVAL)
    else if (a_set_tid a =? 0) && (0 <? a_set_tid_size a) then inl (- EINVAL)
    else if negb (a_set_tid a =? 0) && (a_set_tid_size a =? 0) then inl (- EINVAL)
    else if flag_set (a_exit_signal a) (Z.lnot CSIGNAL) || negb (a_exit_signal a <=? _NSIG)
    then inl (- EINVAL)
    else if flag_set (a_flags a) CLONE_INTO_CGROUP
            && ((INT_MAX <? a_cgroup a) || (usize <? CLONE_ARGS_SIZE_VER2))
    then inl (- EINVAL)
    else
      let k tids := Kargs (a_flags a) (a_pidfd a) (a_child_tid a) (a_parent_tid a) (a_exit_signal a)
                          (a_stack a) (a_stack_size a) (a_tls a) tids (a_set_tid_size a) (a_cgroup a)
                          false false false false in
      if negb (a_set_tid a =? 0) then
        match copy_set_tid c (a_set_tid a) (a_set_tid_size a * 4) with
        | Some tids => inr (k tids)
        | None => inl (- EFAULT)
        end
      else inr (k []).

Definition set_stack (v : Z) (k : kargs) : kargs :=
  Kargs (flags k) (pidfd k) (child_tid k) (parent_tid k) (exit_signal k) v (stack_size k) (tls k)
        (set_tid k) (set_tid_size k) (cgroup k) (kthread k) (io_thread k) (user_worker k) (no_files k).

(** The arguments with the stack pointer at its end, or [None]. *)
Definition clone3_stack_valid (k : kargs) : option kargs :=
  if stack k =? 0 then if 0 <? stack_size k then None else Some k
  else if stack_size k =? 0 then None
  else if negb (access_ok c (stack k) (stack_size k)) then None
  else Some (set_stack (stack k +u stack_size k) k).

Definition clone3_args_valid (k : kargs) : option kargs :=
  if flag_set (flags k) (Z.lnot (Z.lor CLONE_LEGACY_FLAGS (Z.lor CLONE_CLEAR_SIGHAND CLONE_INTO_CGROUP)))
  then None
  else if flag_set (flags k) (Z.lor CLONE_DETACHED (Z.ldiff CSIGNAL CLONE_NEWTIME)) then None
  else if all_set (flags k) (Z.lor CLONE_SIGHAND CLONE_CLEAR_SIGHAND) then None
  else if flag_set (flags k) (Z.lor CLONE_THREAD CLONE_PARENT) && negb (exit_signal k =? 0) then None
  else clone3_stack_valid k.

Definition sys_clone3 (e : fork_env) (size : Z) (me : ptask) (cur : Z) (s : state)
    : Z * option Z * list Z * state :=
  match copy_clone_args_from_user size with
  | inl err => (err, None, [], s)
  | inr k =>
      match clone3_args_valid k with
      | None => (- EINVAL, None, [], s)
      | Some k => kernel_clone e k me cur s
      end
  end.
End clone3.

(** ** [unshare] *)

Record unshare_env := {
  thread_group_empty : bool; sighand_count : Z; single_threaded : bool;
  u_copy_fs_ok : bool; u_dup_fd : Z;
  unshare_userns : Z -> Z + bool;          (* the error, or whether there are new credentials *)
  unshare_nsproxy : Z -> Z + option Z;     (* the error, or the new namespaces *)
  u_set_cred_ucounts : Z
}.

Section unshare.
Context (e : unshare_env).

Definition unshare_known : Z :=
  fold_right Z.lor 0 [CLONE_THREAD; CLONE_FS; CLONE_NEWNS; CLONE_SIGHAND; CLONE_VM; CLONE_FILES;
    CLONE_SYSVSEM; CLONE_NEWUTS; CLONE_NEWIPC; CLONE_NEWNET; CLONE_NEWUSER; CLONE_NEWPID;
    CLONE_NEWCGROUP; CLONE_NEWTIME].

Definition check_unshare_flags (fl : Z) : Z :=
  if flag_set fl (Z.lnot unshare_known) then - EINVAL
  else if flag_set fl (Z.lor CLONE_THREAD (Z.lor CLONE_SIGHAND CLONE_VM)) && negb (thread_group_empty e)
  then - EINVAL
  else if flag_set fl (Z.lor CLONE_SIGHAND CLONE_VM) && (1 <? sighand_count e) then - EINVAL
  else if flag_set fl CLONE_VM && negb (single_threaded e) then - EINVAL
  else 0.

(** What follows from a flag is unshared with it. *)
Definition implied_flags (fl : Z) : Z :=
  let fl := if flag_set fl CLONE_NEWUSER then Z.lor fl (Z.lor CLONE_THREAD CLONE_FS) else fl in
  let fl := if flag_set fl CLONE_VM then Z.lor fl CLONE_SIGHAND else fl in
  let fl := if flag_set fl CLONE_SIGHAND then Z.lor fl CLONE_THREAD else fl in
  if flag_set fl CLONE_NEWNS then Z.lor fl CLONE_FS else fl.

Definition unshare_fs (fl : Z) (me : ptask) (s : state) : Z * option Z * state :=
  match p_fs me with
  | None => (0, None, s)
  | Some fs =>
      if negb (flag_set fl CLONE_FS) then (0, None, s)
      else if users s Kfs fs =? 1 then (0, None, s)
      else if negb (u_copy_fs_ok e) then (- ENOMEM, None, s)
      else let '(n, s) := fresh Kfs s in (0, Some n, s)
  end.

Definition unshare_fd (fl : Z) (me : ptask) (s : state) : Z * option Z * state :=
  match p_files me with
  | None => (0, None, s)
  | Some fd =>
      if flag_set fl CLONE_FILES && (1 <? users s Kfiles fd) then
        if negb (u_dup_fd e =? 0) then (u_dup_fd e, None, s)
        else let '(n, s) := fresh Kfiles s in (0, Some n, s)
      else (0, None, s)
  end.

(** [free_fs_struct] destroys an object, whatever its users. *)
Definition destroy (k : kind) (o : option Z) (s : state) : state :=
  match o with Some o => use k o (- users s k o) s | None => s end.
Definition put_hold (x : slot) (b : bool) (s : state) : state := if b then hold x (-1) s else s.

(** The labels. *)
Definition bad_unshare_cleanup_fs (new_fs : option Z) (s : state) : state := destroy Kfs new_fs s.
Definition bad_unshare_cleanup_fd (new_fd new_fs : option Z) (s : state) : state :=
  bad_unshare_cleanup_fs new_fs (put_obj Kfiles new_fd s).
Definition bad_unshare_cleanup_cred (new_cred : bool) (new_fd new_fs : option Z) (s : state) : state :=
  bad_unshare_cleanup_fd new_fd new_fs (put_hold Scred_new new_cred s).

(** Installing the copies; the table and the directories that are left over are what the
    labels then release. *)
Definition set_nsproxy v p := Ptask (p_files p) (p_fs p) (p_sighand p) (p_signal p) (p_mm p) (p_io p) (p_flags p) (p_set_child_tid p) (p_clear_child_tid p) v.

Definition install (new_cred : bool) (new_fs new_fd nsproxy : option Z) (me : ptask) (s : state)
    : option Z * option Z * ptask * state :=
  let '(me, s) := match nsproxy with Some n => (set_nsproxy n me, hold Snsproxy_new (-1) s) | None => (me, s) end in
  let '(left_fs, me, s) :=
    match new_fs, p_fs me with
    | Some n, Some fs =>
        let s := use Kfs fs (-1) s in
        (if negb (users s Kfs fs =? 0) then None else Some fs, set_fs (Some n) me, s)
    | _, _ => (None, me, s)
    end in
  let '(left_fd, me) :=
    match new_fd with Some n => (p_files me, set_files (Some n) me) | None => (None, me) end in
  (left_fs, left_fd, me, put_hold Scred_new new_cred s).

Definition ksys_unshare (fl : Z) (me : ptask) (s : state) : Z * ptask * state :=
  let fl := implied_flags fl in
  let err := check_unshare_flags fl in
  if negb (err =? 0) then (err, me, s)
  else
  let do_sysvsem := flag_set fl (Z.lor CLONE_NEWIPC CLONE_SYSVSEM) in
  let '(err, new_fs, s) := unshare_fs fl me s in
  if negb (err =? 0) then (err, me, s)
  else
  let '(err, new_fd, s) := unshare_fd fl me s in
  if negb (err =? 0) then (err, me, bad_unshare_cleanup_fs new_fs s)
  else match unshare_userns e fl with
  | inl err => (err, me, bad_unshare_cleanup_fd new_fd new_fs s)
  | inr new_cred =>
      let s := if new_cred then hold Scred_new 1 s else s in
      match unshare_nsproxy e fl with
      | inl err => (err, me, bad_unshare_cleanup_cred new_cred new_fd new_fs s)
      | inr nsproxy =>
          let s := match nsproxy with Some _ => hold Snsproxy_new 1 s | None => s end in
          if new_cred && negb (u_set_cred_ucounts e =? 0)
          then (u_set_cred_ucounts e, me, bad_unshare_cleanup_cred new_cred new_fd new_fs s)
          else
            let '(left_fs, left_fd, me, s) :=
              if bool_decide (is_Some new_fs) || bool_decide (is_Some new_fd) || do_sysvsem || new_cred
                 || bool_decide (is_Some nsproxy)
              then install new_cred new_fs new_fd nsproxy me s
              else (new_fs, new_fd, me, s) in
            (0, me, bad_unshare_cleanup_cred false left_fd left_fs s)
      end
  end.

Definition unshare_files (me : ptask) (s : state) : Z * ptask * state :=
  let '(error, copy, s) := unshare_fd CLONE_FILES me s in
  match copy with
  | None => (error, me, s)
  | Some n => (0, set_files (Some n) me, put_obj Kfiles (p_files me) s)
  end.
End unshare.
End Fork.
