(* ===== verification/ForkSpec.v ===== *)
(** * Correctness of process creation

    On every error path [copy_process] gives back exactly what it took; on success the
    new task holds exactly the references it points to, shared with its parent where the
    flags say so. *)
From S2P Require Import Prelude Task Fork.

Module ForkSpec.
Import Fork.

Section copy.
Context (e : fork_env) (args : kargs) (own_pid : bool) (me : ptask) (cur : Z).
(** [anon_inode_getfile] returns a file or a negative error, and a task has working
    directories. *)
Context (Hfile : anon_inode_getfile e <= 0) (Hfs : p_fs me <> None).
Notation fl := (flags args).
Notation threaded := (flag_set (flags args) CLONE_THREAD).

(** ** Accounting *)

(** [s] is [s0] after acquiring [h] and the references [u]. *)
Record gained (s0 s : state) (h : slot -> Z) (u : kind -> Z -> Z) : Prop := {
  g_held : forall x, held s x = held s0 x + h x;
  g_users : forall k o, users s k o = users s0 k o + u k o;
  g_next : next_obj s0 <= next_obj s;
  g_threads : nr_threads s = nr_threads s0 /\ total_forks s = total_forks s0;
  g_tab : tab s = tab s0;
  g_flags : cur_flags s = cur_flags s0 \/ cur_flags s = Z.ldiff (cur_flags s0) PF_NPROC_EXCEEDED
}.
Definition restored (s0 s : state) : Prop := gained s0 s (fun _ => 0) (fun _ _ => 0).

Lemma gained_hold s0 s h u x d h' :
  gained s0 s h u -> (forall y, h' y = h y + d * delta x y) -> gained s0 (hold x d s) h' u.
Proof. intros [H1 H2 H3 H4 H5 H6] Hh. split; cbn; try done. intros y. rewrite H1, Hh. lia. Qed.

Lemma gained_use s0 s h u k o d u' :
  gained s0 s h u -> (forall k' o', u' k' o' = u k' o' + d * delta (k, o) (k', o')) ->
  gained s0 (use k o d s) h u'.
Proof. intros [H1 H2 H3 H4 H5 H6] Hu. split; cbn; try done. intros k' o'. rewrite H2, Hu. lia. Qed.

Lemma gained_fresh s0 s h u k u' :
  gained s0 s h u ->
  (forall k' o', u' k' o' = u k' o' + delta (k, next_obj s) (k', o')) ->
  gained s0 (fresh k s).2 h u' /\ next_obj s0 <= (fresh k s).1.
Proof.
  intros [H1 H2 H3 H4 H5 H6] Hu. split; [|cbn; lia]. split; cbn; try done; [|lia].
  intros k' o'. rewrite H2, Hu. lia.
Qed.

Lemma gained_ext s0 s h u h' u' :
  gained s0 s h u -> (forall x, h' x = h x) -> (forall k o, u' k o = u k o) -> gained s0 s h' u'.
Proof. intros [H1 H2 H3 H4 H5 H6] Hh Hu. split; try done; intros; rewrite ?Hh, ?Hu; auto. Qed.

(** What has been acquired when each label is the one to jump to. *)
Definition h_out (x : slot) : Z := if threaded then 0 else delta Sdelayed x.
Definition h_free (x : slot) : Z := h_out x + delta Stask x.
Definition h_count (x : slot) : Z := h_free x + delta Screds x + delta Snproc x.
Definition h_delayacct (x : slot) : Z := h_count x + delta Sdelayacct x.
Definition h_policy (x : slot) : Z := h_delayacct x + delta Smempolicy x.
Definition h_perf (x : slot) : Z := h_policy x + delta Sperf x.
Definition h_audit (x : slot) : Z := h_perf x + delta Saudit x.
Definition h_security (x : slot) : Z := h_audit x + delta Ssecurity x.
Definition h_semundo (x : slot) : Z := h_security x + delta Ssemundo x.
Definition h_namespaces (x : slot) : Z := h_semundo x + delta Snamespaces x.
Definition h_io (p : ptask) (x : slot) : Z := h_namespaces x + (if p_io p then delta Sio x else 0).
Definition h_thread (p : ptask) (x : slot) : Z := h_io p x + delta Sthread x.
Definition h_pid (p : ptask) (x : slot) : Z := h_thread p x + (if own_pid then delta Spid x else 0).
Definition h_pidfd (p : ptask) (x : slot) : Z :=
  h_pid p x + (if flag_set fl CLONE_PIDFD then delta Sfd x + delta Spidfile x else 0).
Definition h_cgroup (p : ptask) (x : slot) : Z := h_pidfd p x + delta Scgroup x.
Definition h_locked (p : ptask) (x : slot) : Z := h_cgroup p x + delta Stasklist x + delta Ssiglock x.

Definition ref (k : kind) (o : option Z) (k' : kind) (o' : Z) : Z :=
  match o with Some o => delta (k, o) (k', o') | None => 0 end.
Definition u_files (p : ptask) (k : kind) (o : Z) : Z := ref Kfiles (p_files p) k o.
Definition u_fs (p : ptask) (k : kind) (o : Z) : Z := u_files p k o + ref Kfs (p_fs p) k o.
Definition u_sighand (p : ptask) (k : kind) (o : Z) : Z := u_fs p k o + delta (Ksighand, p_sighand p) (k, o).
Definition u_signal (p : ptask) (k : kind) (o : Z) : Z :=
  u_sighand p k o + (if threaded then 0 else delta (Ksignal, p_signal p) (k, o)).
Definition u_mm (p : ptask) (k : kind) (o : Z) : Z := u_signal p k o + ref Kmm (p_mm p) k o.

Lemma put_obj_gained s0 s h u k o u' :
  gained s0 s h u -> (forall k' o', u k' o' = u' k' o' + ref k o k' o') -> gained s0 (put_obj k o s) h u'.
Proof.
  intros Hg Hu. destruct o as [o|]; cbn in *.
  - apply (gained_use _ _ _ _ _ _ _ _ Hg). intros. rewrite Hu. lia.
  - apply (gained_ext _ _ _ _ _ _ Hg); [done|]. intros. rewrite Hu. lia.
Qed.

(** ** The ladder *)

Lemma fork_out_gained s0 s h u : gained s0 s (fun x => h x + h_out x) u -> gained s0 (fork_out args s) h u.
Proof.
  intros Hg. unfold fork_out, h_out in *. destruct threaded; cbn.
  - apply (gained_ext _ _ _ _ _ _ Hg); [intros; lia|done].
  - apply (gained_hold _ _ _ _ _ _ _ Hg). intros. lia.
Qed.

Lemma fork_out_ok s0 s : gained s0 s h_out (fun _ _ => 0) -> restored s0 (fork_out args s).
Proof. intros Hg. apply fork_out_gained. by apply (gained_ext _ _ _ _ _ _ Hg). Qed.

Lemma free_ok s0 s : gained s0 s h_free (fun _ _ => 0) -> restored s0 (bad_fork_free args s).
Proof.
  intros Hg. apply fork_out_ok, (gained_hold _ _ _ _ _ _ _ Hg). intros. unfold h_free. lia.
Qed.

Lemma count_ok s0 s : gained s0 s h_count (fun _ _ => 0) -> restored s0 (bad_fork_cleanup_count args s).
Proof.
  intros Hg. apply free_ok. eapply gained_hold; [apply (gained_hold _ _ _ _ _ _ _ Hg); reflexivity|].
  intros. cbn. unfold h_count. lia.
Qed.

(** One more rung of the ladder: it does [f] and falls into the label below. *)
Lemma rung_any (f label label' : state -> state) (h h' : slot -> Z) u s0 s :
  (forall s, label' s = label (f s)) -> (forall s, gained s0 s h' u -> gained s0 (f s) h u) ->
  (forall s, gained s0 s h u -> restored s0 (label s)) ->
  gained s0 s h' u -> restored s0 (label' s).
Proof. intros Hl Hf Hprev Hg. rewrite Hl. auto. Qed.

(** A rung that releases one slot, and one that does so under a condition. *)
Lemma rung_ok (label label' : state -> state) x (h h' : slot -> Z) u s0 s :
  (forall s, label' s = label (hold x (-1) s)) -> (forall y, h' y = h y + delta x y) ->
  (forall s, gained s0 s h u -> restored s0 (label s)) ->
  gained s0 s h' u -> restored s0 (label' s).
Proof.
  intros Hl Hh. apply (rung_any _ label label' h h' u s0 s Hl). intros s1 Hg.
  apply (gained_hold _ _ _ _ _ _ _ Hg). intros. rewrite Hh. lia.
Qed.

Lemma rung_if (b : bool) (label label' : state -> state) x (h h' : slot -> Z) u s0 s :
  (forall s, label' s = label (if b then hold x (-1) s else s)) ->
  (forall y, h' y = h y + (if b then delta x y else 0)) ->
  (forall s, gained s0 s h u -> restored s0 (label s)) ->
  gained s0 s h' u -> restored s0 (label' s).
Proof.
  intros Hl Hh. apply (rung_any _ label label' h h' u s0 s Hl). intros s1 Hg. destruct b.
  - apply (gained_hold _ _ _ _ _ _ _ Hg). intros. rewrite Hh. lia.
  - apply (gained_ext _ _ _ _ _ _ Hg); [intros; rewrite Hh; lia|done].
Qed.

Lemma delayacct_ok s0 s :
  gained s0 s h_delayacct (fun _ _ => 0) -> restored s0 (bad_fork_cleanup_delayacct args s).
Proof. apply (rung_ok (bad_fork_cleanup_count args) _ Sdelayacct h_count); done || apply count_ok. Qed.
Lemma policy_ok s0 s :
  gained s0 s h_policy (fun _ _ => 0) -> restored s0 (bad_fork_cleanup_policy args s).
Proof. apply (rung_ok (bad_fork_cleanup_delayacct args) _ Smempolicy h_delayacct); done || apply delayacct_ok. Qed.
Lemma perf_ok s0 s : gained s0 s h_perf (fun _ _ => 0) -> restored s0 (bad_fork_cleanup_perf args s).
Proof. apply (rung_ok (bad_fork_cleanup_policy args) _ Sperf h_policy); done || apply policy_ok. Qed.
Lemma audit_ok s0 s : gained s0 s h_audit (fun _ _ => 0) -> restored s0 (bad_fork_cleanup_audit args s).
Proof. apply (rung_ok (bad_fork_cleanup_perf args) _ Saudit h_perf); done || apply perf_ok. Qed.
Lemma security_ok s0 s :
  gained s0 s h_security (fun _ _ => 0) -> restored s0 (bad_fork_cleanup_security args s).
Proof. apply (rung_ok (bad_fork_cleanup_audit args) _ Ssecurity h_audit); done || apply audit_ok. Qed.
Lemma semundo_ok s0 s :
  gained s0 s h_semundo (fun _ _ => 0) -> restored s0 (bad_fork_cleanup_semundo args s).
Proof. apply (rung_ok (bad_fork_cleanup_security args) _ Ssemundo h_security); done || apply security_ok. Qed.

Lemma files_ok p s0 s : gained s0 s h_semundo (u_files p) -> restored s0 (bad_fork_cleanup_files args p s).
Proof. intros Hg. apply semundo_ok, (put_obj_gained _ _ _ _ _ _ _ Hg). done. Qed.
Lemma fs_ok p s0 s : gained s0 s h_semundo (u_fs p) -> restored s0 (bad_fork_cleanup_fs args p s).
Proof. intros Hg. apply files_ok, (put_obj_gained _ _ _ _ _ _ _ Hg). done. Qed.
Lemma sighand_ok p s0 s :
  gained s0 s h_semundo (u_sighand p) -> restored s0 (bad_fork_cleanup_sighand args p s).
Proof. intros Hg. apply fs_ok, (gained_use _ _ _ _ _ _ _ _ Hg). intros. unfold u_sighand. lia. Qed.
Lemma signal_ok p s0 s :
  gained s0 s h_semundo (u_signal p) -> restored s0 (bad_fork_cleanup_signal args p s).
Proof.
  intros Hg. apply sighand_ok. unfold u_signal in Hg. destruct threaded; cbn [negb].
  - apply (gained_ext _ _ _ _ _ _ Hg); [done|intros; lia].
  - apply (gained_use _ _ _ _ _ _ _ _ Hg). intros. lia.
Qed.
Lemma mm_ok p s0 s : gained s0 s h_semundo (u_mm p) -> restored s0 (bad_fork_cleanup_mm args p s).
Proof. intros Hg. apply signal_ok, (put_obj_gained _ _ _ _ _ _ _ Hg). done. Qed.
Lemma namespaces_ok p s0 s :
  gained s0 s h_namespaces (u_mm p) -> restored s0 (bad_fork_cleanup_namespaces args p s).
Proof. apply (rung_ok (bad_fork_cleanup_mm args p) _ Snamespaces h_semundo); done || apply mm_ok. Qed.
Lemma io_ok p s0 s : gained s0 s (h_io p) (u_mm p) -> restored s0 (bad_fork_cleanup_io args p s).
Proof.
  apply (rung_if (p_io p) (bad_fork_cleanup_namespaces args p) _ Sio h_namespaces);
    done || apply namespaces_ok.
Qed.
Lemma thread_ok p s0 s :
  gained s0 s (h_thread p) (u_mm p) -> restored s0 (bad_fork_cleanup_thread args p s).
Proof. apply (rung_ok (bad_fork_cleanup_io args p) _ Sthread (h_io p)); done || apply io_ok. Qed.
Lemma free_pid_ok p s0 s :
  gained s0 s (h_pid p) (u_mm p) -> restored s0 (bad_fork_free_pid args own_pid p s).
Proof.
  apply (rung_if own_pid (bad_fork_cleanup_thread args p) _ Spid (h_thread p)); done || apply thread_ok.
Qed.
Lemma put_fds_gained (b : bool) h u s0 s :
  gained s0 s (fun x => h x + (if b then delta Sfd x + delta Spidfile x else 0)) u ->
  gained s0 (if b then hold Sfd (-1) (hold Spidfile (-1) s) else s) h u.
Proof.
  intros Hg. destruct b.
  - eapply gained_hold; [apply (gained_hold _ _ _ _ _ _ _ Hg); reflexivity|]. intros. cbn. lia.
  - apply (gained_ext _ _ _ _ _ _ Hg); [intros; lia|done].
Qed.
Lemma put_pidfd_ok p s0 s :
  gained s0 s (h_pidfd p) (u_mm p) -> restored s0 (bad_fork_put_pidfd args own_pid p s).
Proof.
  apply (rung_any (fun s => if flag_set fl CLONE_PIDFD then hold Sfd (-1) (hold Spidfile (-1) s) else s)
           (bad_fork_free_pid args own_pid p) _ (h_pid p)); [done|intros s1; apply put_fds_gained|apply free_pid_ok].
Qed.
Lemma cancel_cgroup_ok p s0 s :
  gained s0 s (h_locked p) (u_mm p) -> restored s0 (bad_fork_cancel_cgroup args own_pid p s).
Proof.
  intros Hg. apply put_pidfd_ok.
  eapply gained_hold; [eapply gained_hold; [apply (gained_hold _ _ _ _ _ _ _ Hg); reflexivity|reflexivity]|].
  intros. cbn. unfold h_locked, h_cgroup. lia.
Qed.

(** ** The copies *)

(** An object shared with the caller when [b], else a new one where the caller has one. *)
Definition shared_or_new (s0 : state) (b : bool) (old new : option Z) : Prop :=
  if b then new = old
  else match old with None => new = None | Some _ => exists n, new = Some n /\ next_obj s0 <= n end.

(** [p'] differs from [p] at most in the object of kind [k]. *)
Definition only (k : kind) (p p' : ptask) : Prop :=
  (k <> Kfiles -> p_files p' = p_files p) /\ (k <> Kfs -> p_fs p' = p_fs p) /\
  (k <> Ksighand -> p_sighand p' = p_sighand p) /\ (k <> Ksignal -> p_signal p' = p_signal p) /\
  (k <> Kmm -> p_mm p' = p_mm p).

Lemma ref_fresh k o : ref k (Some o) = fun k' o' => delta (k, o) (k', o').
Proof. done. Qed.

Lemma copy_files_ok s0 s h p :
  gained s0 s h (fun _ _ => 0) -> p_files p = p_files me ->
  let '(r, p', s') := copy_files e args me p s in
  only Kfiles p p' /\
  (r <> 0 -> gained s0 s' h (fun _ _ => 0)) /\
  (r = 0 -> gained s0 s' h (u_files p') /\
            (no_files args = true /\ p_files p' = None \/
             shared_or_new s0 (flag_set fl CLONE_FILES) (p_files me) (p_files p'))).
Proof.
  intros Hg Hp. unfold copy_files. destruct (p_files me) as [f|] eqn:Ef.
  2: { split_and!; [done|done|]. intros _. split.
       - apply (gained_ext _ _ _ _ _ _ Hg); [done|]. intros. unfold u_files. by rewrite Hp.
       - right. unfold shared_or_new. by destruct (flag_set _ _). }
  destruct (no_files args).
  { split_and!; [done|done|]. intros _. split; [by apply (gained_ext _ _ _ _ _ _ Hg)|by left]. }
  destruct (flag_set fl CLONE_FILES).
  { split_and!; [done|done|]. intros _. split; [|by right].
    apply (gained_use _ _ _ _ _ _ _ _ Hg). intros. unfold u_files. rewrite Hp. cbn [ref]. lia. }
  destruct (negb (dup_fd e =? 0)) eqn:Ed; [split_and!; [done|done|]; intros E; by rewrite E in Ed|].
  destruct (gained_fresh s0 s h _ Kfiles (ref Kfiles (Some (next_obj s))) Hg) as [Hf Hn]; [done|].
  split_and!; [done|done|]. intros _. split; [done|]. right. by eexists.
Qed.

Lemma copy_fs_ok s0 s h p :
  gained s0 s h (u_files p) -> p_fs p = p_fs me ->
  let '(r, p', s') := copy_fs e args me p s in
  only Kfs p p' /\
  (r <> 0 -> gained s0 s' h (u_files p')) /\
  (r = 0 -> gained s0 s' h (u_fs p') /\ shared_or_new s0 (flag_set fl CLONE_FS) (p_fs me) (p_fs p')).
Proof.
  intros Hg Hp. unfold copy_fs. destruct (flag_set fl CLONE_FS).
  - destruct (fs_in_exec e); [split_and!; done|]. destruct (p_fs me) as [f|] eqn:Ef; [|done].
    split_and!; [done|done|]. intros _. split; [|done].
    apply (gained_use _ _ _ _ _ _ _ _ Hg). intros. unfold u_fs. rewrite Hp. cbn [ref]. lia.
  - destruct (copy_fs_struct_ok e); cbn [negb]; [|split_and!; done].
    destruct (gained_fresh s0 s h _ Kfs (fun k o => u_files p k o + ref Kfs (Some (next_obj s)) k o) Hg)
      as [Hf Hn]; [done|].
    split_and!; [done|done|]. intros _. split; [done|].
    destruct (p_fs me); [by eexists|done].
Qed.

Lemma copy_sighand_ok s0 s h p :
  gained s0 s h (u_fs p) -> p_sighand p = p_sighand me ->
  let '(r, p', s') := copy_sighand e args me p s in
  only Ksighand p p' /\
  (r <> 0 -> gained s0 s' h (u_fs p')) /\
  (r = 0 -> gained s0 s' h (u_sighand p') /\
            shared_or_new s0 (flag_set fl CLONE_SIGHAND) (Some (p_sighand me)) (Some (p_sighand p'))).
Proof.
  intros Hg Hp. unfold copy_sighand. destruct (flag_set fl CLONE_SIGHAND).
  - split_and!; [done|done|]. intros _. split; [|cbn; congruence].
    apply (gained_use _ _ _ _ _ _ _ _ Hg). intros. unfold u_sighand. rewrite Hp. lia.
  - destruct (sighand_alloc_ok e); cbn [negb]; [|split_and!; done].
    destruct (gained_fresh s0 s h _ Ksighand
      (fun k o => u_fs p k o + delta (Ksighand, next_obj s) (k, o)) Hg) as [Hf Hn]; [done|].
    split_and!; [done|done|]. intros _. split; [done|]. by eexists.
Qed.

Lemma copy_signal_ok s0 s h p :
  gained s0 s h (u_sighand p) -> p_signal p = p_signal me ->
  let '(r, p', s') := copy_signal e args p s in
  only Ksignal p p' /\
  (r <> 0 -> gained s0 s' h (u_sighand p')) /\
  (r = 0 -> gained s0 s' h (u_signal p') /\
            shared_or_new s0 threaded (Some (p_signal me)) (Some (p_signal p'))).
Proof.
  intros Hg Hp. unfold copy_signal, u_signal. destruct threaded.
  - split_and!; [done|done|]. intros _. split; [|cbn; congruence].
    apply (gained_ext _ _ _ _ _ _ Hg); [done|intros; lia].
  - destruct (signal_alloc_ok e); cbn [negb]; [|split_and!; done].
    destruct (gained_fresh s0 s h _ Ksignal
      (fun k o => u_sighand p k o + delta (Ksignal, next_obj s) (k, o)) Hg) as [Hf Hn]; [done|].
    split_and!; [done|done|]. intros _. split; [done|]. by eexists.
Qed.

Lemma copy_mm_ok s0 s h p :
  gained s0 s h (u_signal p) ->
  let '(r, p', s') := copy_mm e args me p s in
  only Kmm p p' /\
  (r <> 0 -> gained s0 s' h (u_signal p')) /\
  (r = 0 -> gained s0 s' h (u_mm p') /\ shared_or_new s0 (flag_set fl CLONE_VM) (p_mm me) (p_mm p')).
Proof.
  intros Hg. unfold copy_mm. destruct (p_mm me) as [m|].
  2: { split_and!; [done|done|]. intros _. split.
       - apply (gained_ext _ _ _ _ _ _ Hg); [done|]. intros. unfold u_mm. cbn [p_mm set_mm ref].
         change (u_signal (set_mm None p) k o) with (u_signal p k o). lia.
       - unfold shared_or_new. by destruct (flag_set _ _). }
  destruct (flag_set fl CLONE_VM).
  { split_and!; [done|done|]. intros _. split; [|done].
    apply (gained_use _ _ _ _ _ _ _ _ Hg). intros. unfold u_mm. cbn [p_mm set_mm ref].
    change (u_signal (set_mm (Some m) (set_mm None p)) k' o') with (u_signal p k' o'). lia. }
  destruct (dup_mm_ok e); cbn [negb]; [|split_and!; done].
  destruct (gained_fresh s0 s h _ Kmm (fun k o => u_signal p k o + ref Kmm (Some (next_obj s)) k o) Hg)
    as [Hf Hn]; [done|].
  split_and!; [done|done|]. intros _. split; [done|]. by eexists.
Qed.

(** ** The whole *)

(** The objects of the new task: the caller's where a flag shares them, else new ones. *)
Definition shares (s0 : state) (p : ptask) : Prop :=
  (no_files args = true /\ p_files p = None \/
   shared_or_new s0 (flag_set fl CLONE_FILES) (p_files me) (p_files p)) /\
  shared_or_new s0 (flag_set fl CLONE_FS) (p_fs me) (p_fs p) /\
  shared_or_new s0 (flag_set fl CLONE_SIGHAND) (Some (p_sighand me)) (Some (p_sighand p)) /\
  shared_or_new s0 threaded (Some (p_signal me)) (Some (p_signal p)) /\
  shared_or_new s0 (flag_set fl CLONE_VM) (p_mm me) (p_mm p).

(** The references a finished task holds. *)
Definition references (p : ptask) (k : kind) (o : Z) : Z :=
  ref Kfiles (p_files p) k o + ref Kfs (p_fs p) k o + delta (Ksighand, p_sighand p) (k, o) +
  (if threaded && negb own_pid then 0 else delta (Ksignal, p_signal p) (k, o)) + ref Kmm (p_mm p) k o.

(** What a finished task keeps: no lock, no signal node, no pending control group. *)
Definition owns (p : ptask) (x : slot) : Z :=
  delta Stask x + delta Screds x + delta Snproc x + delta Sdelayacct x + delta Smempolicy x +
  delta Sperf x + delta Saudit x + delta Ssecurity x + delta Ssemundo x + delta Snamespaces x +
  (if p_io p then delta Sio x else 0) + delta Sthread x + (if own_pid then delta Spid x else 0) +
  (if flag_set fl CLONE_PIDFD then delta Sfd x + delta Spidfile x else 0).

Record created (s0 : state) (p : ptask) (pid : Z) (s : state) : Prop := {
  c_held : forall x, held s x = held s0 x + owns p x;
  c_users : forall k o, users s k o = users s0 k o + references p k o;
  c_shares : shares s0 p;
  c_threads : nr_threads s = nr_threads s0 + (if own_pid then 1 else 0);
  c_forks : total_forks s = total_forks s0 + 1;
  c_tab : tab s = if own_pid then Task.attach_new_task cur pid fl (tab s0) else tab s0
}.

Definition outcome (s0 : state) (r : result) : Prop :=
  match r.1 with inl _ => restored s0 r.2 | inr (p, pid) => created s0 p pid r.2 end.

Lemma enter_task_ok s0 s p pid :
  gained s0 s (h_cgroup p) (u_mm p) -> shares s0 p ->
  outcome s0 (enter_task e args own_pid cur p pid s).
Proof.
  intros Hg Hsh. unfold enter_task.
  assert (Hl : gained s0 (hold Ssiglock 1 (hold Stasklist 1 s)) (h_locked p) (u_mm p)).
  { eapply gained_hold; [apply (gained_hold _ _ _ _ _ _ _ Hg); reflexivity|].
    intros. cbn. unfold h_locked. lia. }
  destruct (pid_ns_dying e); [by apply cancel_cgroup_ok|].
  destruct (fatal_signal_pending e); [by apply cancel_cgroup_ok|].
  destruct Hl as [H1 H2 _ [H4 H4'] H5 _]. unfold outcome. cbn [fst snd].
  split; [| |done| | |].
  - intros x. specialize (H1 x). revert H1. unfold h_locked, h_cgroup, h_pidfd, h_pid, h_thread, h_io,
      h_namespaces, h_semundo, h_security, h_audit, h_perf, h_policy, h_delayacct, h_count, h_free, h_out, owns.
    unfold fork_out. destruct own_pid, threaded; cbn; lia.
  - intros k o. specialize (H2 k o). revert H2. unfold u_mm, u_signal, u_sighand, u_fs, u_files, references.
    unfold fork_out. destruct own_pid, threaded; cbn; lia.
  - unfold fork_out. destruct own_pid, threaded; cbn in *; lia.
  - unfold fork_out. destruct own_pid, threaded; cbn in *; lia.
  - unfold fork_out. cbn in H5. destruct own_pid, threaded; cbn; congruence.
Qed.

Lemma copy_pid_ok s0 s p :
  gained s0 s (h_thread p) (u_mm p) -> shares s0 p -> outcome s0 (copy_pid e args own_pid cur p s).
Proof.
  intros Hg Hsh. unfold copy_pid.
  destruct (if own_pid then alloc_pid e else inr 0) as [err|pid]; [by apply thread_ok|].
  assert (Hp : gained s0 (if own_pid then hold Spid 1 s else s) (h_pid p) (u_mm p)).
  { unfold h_pid. destruct own_pid.
    - apply (gained_hold _ _ _ _ _ _ _ Hg). intros. lia.
    - apply (gained_ext _ _ _ _ _ _ Hg); [intros; lia|done]. }
  revert Hp. generalize (if own_pid then hold Spid 1 s else s). clear s Hg. intros s Hg.
  assert (Hfd : forall s', flag_set fl CLONE_PIDFD = true -> s' = hold Spidfile 1 (hold Sfd 1 s) ->
    gained s0 s' (h_pidfd p) (u_mm p)).
  { intros s' Hf ->. eapply gained_hold; [apply (gained_hold _ _ _ _ _ _ _ Hg); reflexivity|].
    intros. unfold h_pidfd. rewrite Hf. lia. }
  assert (Hcg : forall s', gained s0 s' (h_pidfd p) (u_mm p) ->
    outcome s0 (if negb (cgroup_can_fork e =? 0)
                then (inl (cgroup_can_fork e), bad_fork_put_pidfd args own_pid p s')
                else enter_task e args own_pid cur p pid (hold Scgroup 1 s'))).
  { intros s' Hs'. destruct (negb _); [by apply put_pidfd_ok|].
    apply enter_task_ok; [|done]. apply (gained_hold _ _ _ _ _ _ _ Hs'). intros. unfold h_cgroup. lia. }
  destruct (flag_set fl CLONE_PIDFD) eqn:Ef.
  2: { cbn [negb Z.eqb]. apply Hcg. apply (gained_ext _ _ _ _ _ _ Hg); [|done].
       intros. unfold h_pidfd. rewrite Ef. lia. }
  unfold pidfd_prepare.
  destruct (Z.ltb_spec (get_unused_fd e) 0) as [Hn|Hn].
  { rewrite (proj2 (Z.ltb_lt _ _) Hn). destruct (Z.eqb_spec (get_unused_fd e) 0); [lia|]. by apply free_pid_ok. }
  destruct (Z.eqb_spec (anon_inode_getfile e) 0) as [Ha|Ha]; cbn [negb].
  2: { rewrite (proj2 (Z.ltb_lt (anon_inode_getfile e) 0)) by lia.
       destruct (Z.eqb_spec (anon_inode_getfile e) 0); [done|]. cbn [negb]. apply free_pid_ok.
       eapply gained_hold; [apply (gained_hold _ _ _ _ _ _ _ Hg); reflexivity|]. intros. cbn. lia. }
  destruct (Z.ltb_spec (get_unused_fd e) 0); [lia|].
  destruct (Z.eqb_spec (put_user_pidfd e) 0) as [Hu|Hu]; cbn [negb].
  - cbn [Z.eqb negb]. apply Hcg. by apply Hfd.
  - destruct (Z.eqb_spec (put_user_pidfd e) 0); [done|]. cbn [negb]. apply put_pidfd_ok. by apply Hfd.
Qed.

Lemma copy_objects_ok s0 s p :
  gained s0 s h_semundo (fun _ _ => 0) -> p_files p = p_files me -> p_fs p = p_fs me ->
  p_sighand p = p_sighand me -> p_signal p = p_signal me ->
  outcome s0 (copy_objects e args own_pid me cur p s).
Proof.
  intros Hg Hf Hd Hh Hs. unfold copy_objects.
  pose proof (copy_files_ok s0 s h_semundo p Hg Hf) as H1.
  destruct (copy_files e args me p s) as [[r1 p1] s1]. destruct H1 as (Ho1 & He1 & Hk1).
  destruct (Z.eqb_spec r1 0) as [E1|E1]; cbn [negb]; [|by apply semundo_ok, He1].
  destruct (Hk1 E1) as [Hg1 Hsh1]. clear Hk1 He1. destruct Ho1 as (_ & Od1 & Oh1 & Os1 & _).
  pose proof (copy_fs_ok s0 s1 h_semundo p1 Hg1) as H2.
  destruct (copy_fs e args me p1 s1) as [[r2 p2] s2]. destruct H2 as (Ho2 & He2 & Hk2); [rewrite Od1; done|].
  destruct (Z.eqb_spec r2 0) as [E2|E2]; cbn [negb]; [|by apply files_ok, He2].
  destruct (Hk2 E2) as [Hg2 Hsh2]. clear Hk2 He2. destruct Ho2 as (Of2 & _ & Oh2 & Os2 & _).
  pose proof (copy_sighand_ok s0 s2 h_semundo p2 Hg2) as H3.
  destruct (copy_sighand e args me p2 s2) as [[r3 p3] s3].
  destruct H3 as (Ho3 & He3 & Hk3); [rewrite Oh2, Oh1; done|].
  destruct (Z.eqb_spec r3 0) as [E3|E3]; cbn [negb]; [|by apply fs_ok, He3].
  destruct (Hk3 E3) as [Hg3 Hsh3]. clear Hk3 He3. destruct Ho3 as (Of3 & Od3 & _ & Os3 & _).
  pose proof (copy_signal_ok s0 s3 h_semundo p3 Hg3) as H4.
  destruct (copy_signal e args p3 s3) as [[r4 p4] s4].
  destruct H4 as (Ho4 & He4 & Hk4); [rewrite Os3, Os2, Os1; done|].
  destruct (Z.eqb_spec r4 0) as [E4|E4]; cbn [negb]; [|by apply sighand_ok, He4].
  destruct (Hk4 E4) as [Hg4 Hsh4]. clear Hk4 He4. destruct Ho4 as (Of4 & Od4 & Oh4 & _ & _).
  pose proof (copy_mm_ok s0 s4 h_semundo p4 Hg4) as H5.
  destruct (copy_mm e args me p4 s4) as [[r5 p5] s5]. destruct H5 as (Ho5 & He5 & Hk5).
  destruct (Z.eqb_spec r5 0) as [E5|E5]; cbn [negb]; [|by apply signal_ok, He5].
  destruct (Hk5 E5) as [Hg5 Hsh5]. clear Hk5 He5. destruct Ho5 as (Of5 & Od5 & Oh5 & Os5 & _).
  assert (Hsh : shares s0 p5).
  { split_and!; rewrite ?Of5, ?Of4, ?Of3, ?Of2, ?Od5, ?Od4, ?Od3, ?Oh5, ?Oh4, ?Os5; done. }
  destruct (negb (copy_namespaces e =? 0)); [by apply mm_ok|].
  assert (Hn : gained s0 (hold Snamespaces 1 s5) h_namespaces (u_mm p5)).
  { apply (gained_hold _ _ _ _ _ _ _ Hg5). intros. unfold h_namespaces. lia. }
  destruct (negb (copy_io e =? 0)); [by apply namespaces_ok|].
  set (p6 := set_io (has_io_context e) p5). set (s6 := if has_io_context e then _ else _).
  assert (Hio : gained s0 s6 (h_io p6) (u_mm p6)).
  { subst s6 p6. unfold h_io. cbn [p_io set_io]. destruct (has_io_context e).
    - apply (gained_hold _ _ _ _ _ _ _ Hn). intros. lia.
    - apply (gained_ext _ _ _ _ _ _ Hn); [intros; lia|done]. }
  destruct (negb (copy_thread e =? 0)); [by apply io_ok|].
  apply copy_pid_ok; [|done]. apply (gained_hold _ _ _ _ _ _ _ Hio). intros. unfold h_thread. lia.
Qed.

Lemma copy_context_ok s0 s p :
  gained s0 s h_policy (fun _ _ => 0) -> p_files p = p_files me -> p_fs p = p_fs me ->
  p_sighand p = p_sighand me -> p_signal p = p_signal me ->
  outcome s0 (copy_context e args own_pid me cur p s).
Proof.
  intros Hg Hf Hd Hh Hs. unfold copy_context.
  destruct (negb (sched_fork e =? 0)); [by apply policy_ok|].
  destruct (negb (perf_event_init_task e =? 0)); [by apply policy_ok|].
  assert (H1 : gained s0 (hold Sperf 1 s) h_perf (fun _ _ => 0)).
  { apply (gained_hold _ _ _ _ _ _ _ Hg). intros. unfold h_perf. lia. }
  destruct (negb (audit_alloc e =? 0)); [by apply perf_ok|].
  assert (H2 : gained s0 (hold Saudit 1 (hold Sperf 1 s)) h_audit (fun _ _ => 0)).
  { apply (gained_hold _ _ _ _ _ _ _ H1). intros. unfold h_audit. lia. }
  destruct (negb (security_task_alloc e =? 0)); [by apply audit_ok|].
  assert (H3 : gained s0 (hold Ssecurity 1 (hold Saudit 1 (hold Sperf 1 s))) h_security (fun _ _ => 0)).
  { apply (gained_hold _ _ _ _ _ _ _ H2). intros. unfold h_security. lia. }
  destruct (negb (copy_semundo e =? 0)); [by apply security_ok|].
  apply copy_objects_ok; try done.
  apply (gained_hold _ _ _ _ _ _ _ H3). intros. unfold h_semundo. lia.
Qed.

Lemma gained_flags s0 s h u :
  gained s0 s h u -> cur_flags s = cur_flags s0 ->
  gained s0 (set_cur_flags (Z.ldiff (cur_flags s) PF_NPROC_EXCEEDED) s) h u.
Proof. intros [H1 H2 H3 H4 H5 H6] Hf. split; try done. cbn. right. by rewrite Hf. Qed.

Lemma copy_process_ok s0 : outcome s0 (copy_process e args own_pid me cur s0).
Proof.
  unfold copy_process.
  assert (H0 : restored s0 s0) by (split; auto; intros; lia).
  destruct (negb (clone_flags_ok e args)); [done|].
  set (s1 := if negb threaded then hold Sdelayed 1 s0 else s0).
  assert (H1 : gained s0 s1 h_out (fun _ _ => 0) /\ cur_flags s1 = cur_flags s0).
  { subst s1. unfold h_out. destruct threaded; cbn; split; try done.
    apply (gained_hold _ _ _ _ _ _ _ H0). intros. lia. }
  clearbody s1. destruct H1 as [H1 Hf1].
  destruct (task_sigpending e); [by apply fork_out_ok|].
  destruct (negb (dup_task_ok e)); [by apply fork_out_ok|].
  assert (H2 : gained s0 (hold Stask 1 s1) h_free (fun _ _ => 0)).
  { apply (gained_hold _ _ _ _ _ _ _ H1). intros. unfold h_free. lia. }
  destruct (copy_creds e <? 0); [by apply free_ok|].
  assert (H3 : gained s0 (hold Snproc 1 (hold Screds 1 (hold Stask 1 s1))) h_count (fun _ _ => 0)).
  { eapply gained_hold; [apply (gained_hold _ _ _ _ _ _ _ H2); reflexivity|]. intros. unfold h_count. lia. }
  destruct (_ && negb (capable_resource_or_admin e)); [by apply count_ok|].
  apply gained_flags in H3; [|done].
  set (s4 := set_cur_flags _ _) in *. clearbody s4.
  destruct (max_threads e <=? nr_threads s4); [by apply count_ok|].
  assert (H5 : gained s0 (hold Sdelayacct 1 s4) h_delayacct (fun _ _ => 0)).
  { apply (gained_hold _ _ _ _ _ _ _ H3). intros. unfold h_delayacct. lia. }
  destruct (kthread args && negb (set_kthread_ok e)); [by apply delayacct_ok|].
  destruct (negb (mpol_dup e =? 0)); [by apply delayacct_ok|].
  apply copy_context_ok; try done.
  apply (gained_hold _ _ _ _ _ _ _ H5). intros. unfold h_policy. lia.
Qed.

(** C23. A [copy_process] that fails, at whichever of its two dozen points, gives back
    exactly what it had taken: every resource, every reference to a descriptor table,
    directories, signal handlers, signal state and address space, both locks and the
    signal node; no thread is counted and the table of tasks is as it was. *)
Theorem copy_process_unwinds s err s' :
  copy_process e args own_pid me cur s = (inl err, s') ->
  (forall x, held s' x = held s x) /\ (forall k o, users s' k o = users s k o) /\
  nr_threads s' = nr_threads s /\ total_forks s' = total_forks s /\ tab s' = tab s.
Proof.
  intros Heq. pose proof (copy_process_ok s) as Ho. rewrite Heq in Ho. cbn in Ho.
  destruct Ho as [H1 H2 _ [H4 H4'] H5 _]. split_and!; try done; intros; rewrite ?H1, ?H2; lia.
Qed.

(** C24. A [copy_process] that succeeds leaves a task that owns one of each resource and no
    lock; every object gains exactly the references of the new task to it; an object is
    the caller's where the flag shares it and a new one otherwise; a thread shares the
    signal handlers and the address space of its process; the task is entered in the
    table and counted. *)
Theorem copy_process_shares s p pid s' :
  copy_process e args own_pid me cur s = (inr (p, pid), s') ->
  (forall x, held s' x = held s x + owns p x) /\
  (forall k o, users s' k o = users s k o + references p k o) /\ shares s p /\
  (threaded = true -> p_sighand p = p_sighand me /\ p_signal p = p_signal me /\ p_mm p = p_mm me) /\
  nr_threads s' = nr_threads s + (if own_pid then 1 else 0) /\
  tab s' = (if own_pid then Task.attach_new_task cur pid fl (tab s) else tab s).
Proof.
  intros Heq. pose proof (copy_process_ok s) as Ho. rewrite Heq in Ho. cbn in Ho.
  destruct Ho as [H1 H2 H3 H4 H5 H6]. split_and!; try done. intros Ht.
  assert (Hok : clone_flags_ok e args = true).
  { revert Heq. unfold copy_process. by destruct (clone_flags_ok e args). }
  unfold clone_flags_ok in Hok. rewrite Ht in Hok.
  destruct (all_set _ _); [done|]. destruct (all_set _ _); [done|].
  destruct (flag_set fl CLONE_SIGHAND) eqn:Es; [|done].
  destruct (flag_set fl CLONE_VM) eqn:Ev; [|done].
  destruct H3 as (_ & _ & Hsh & Hsg & Hmm). rewrite Es in Hsh. rewrite Ht in Hsg. rewrite Ev in Hmm.
  cbn in *. split_and!; congruence.
Qed.
End copy.

(** ** [kernel_clone] *)

(** A clone holds no reference of its own when it returns: what remains is the new task's,
    or nothing. *)
Lemma kernel_clone_balanced e args me cur s :
  anon_inode_getfile e <= 0 -> p_fs me <> None ->
  let '(nr, settid, events, s') := kernel_clone e args me cur s in
  held s' Spid_ref = held s Spid_ref /\ held s' Stask_ref = held s Stask_ref /\
  held s' Stasklist = held s Stasklist /\ held s' Ssiglock = held s Ssiglock.
Proof.
  intros Hfile Hfs. unfold kernel_clone. destruct (_ && _); [done|].
  pose proof (copy_process_ok e args true me cur Hfile Hfs s) as Ho.
  destruct (copy_process e args true me cur s) as [[err|[p pid]] s1]; cbn in Ho.
  - destruct Ho as [H1 _ _ _ _ _]. rewrite !H1. split_and!; lia.
  - destruct Ho as [H1 _ _ _ _ _].
    assert (Hz : forall x, owns args true p x = 0 -> held s1 x = held s x).
    { intros x Hx. rewrite H1. lia. }
    assert (Hn : owns args true p Spid_ref = 0 /\ owns args true p Stask_ref = 0 /\
      owns args true p Stasklist = 0 /\ owns args true p Ssiglock = 0).
    { unfold owns. by destruct (p_io p), (flag_set (flags args) CLONE_PIDFD). }
    destruct Hn as (O1 & O2 & O3 & O4).
    destruct (flag_set (flags args) CLONE_VFORK); cbn; rewrite !Hz by done; split_and!; lia.
Qed.

(** ** [clone3] *)

(** Arguments that are free of what [clone3] has no meaning for. *)
Record clone3_checked (c : clone3_env) (k : kargs) : Prop := {
  known_flags : Z.ldiff (flags k) (Z.lor CLONE_LEGACY_FLAGS (Z.lor CLONE_CLEAR_SIGHAND CLONE_INTO_CGROUP)) = 0;
  no_signal_bits : Z.land (flags k) 0x7f = 0;
  not_detached : flag_set (flags k) CLONE_DETACHED = false;
  one_handler_mode : flag_set (flags k) CLONE_SIGHAND = true -> flag_set (flags k) CLONE_CLEAR_SIGHAND = false;
  thread_signal : flag_set (flags k) CLONE_THREAD = true \/ flag_set (flags k) CLONE_PARENT = true ->
                  exit_signal k = 0;
  valid_exit_signal : exit_signal k <= _NSIG;
  tid_levels : set_tid_size k <= MAX_PID_NS_LEVEL;
  cgroup_fd : flag_set (flags k) CLONE_INTO_CGROUP = true -> cgroup k <= INT_MAX;
  stack_given : stack k = 0 \/ 0 < stack_size k;
  plain : kthread k = false /\ io_thread k = false /\ user_worker k = false /\ no_files k = false
}.

Lemma land_bit_set w n : 0 <= n -> Z.land w (2 ^ n) <> 0 -> Z.land w (2 ^ n) = 2 ^ n.
Proof. intros Hn. rewrite land_bit by done. by destruct (Z.testbit w n). Qed.

Lemma land_sub w a b : Z.land a b = b -> Z.land w a = 0 -> Z.land w b = 0.
Proof. intros Hab Hw. rewrite <- Hab, Z.land_assoc, Hw. apply Z.land_0_l. Qed.

Lemma flag_set_sub w a b : Z.land a b = b -> flag_set w a = false -> flag_set w b = false.
Proof.
  unfold flag_set. intros Hab Hw. apply negb_false_iff, Z.eqb_eq in Hw.
  apply negb_false_iff, Z.eqb_eq. by apply (land_sub w a).
Qed.

Lemma copy_clone_args_spec c usize k :
  (forall a, copy_struct_from_user c usize = inr a -> 0 <= a_stack_size a) ->
  copy_clone_args_from_user c usize = inr k ->
  exit_signal k <= _NSIG /\ set_tid_size k <= MAX_PID_NS_LEVEL /\ 0 <= stack_size k /\
  (flag_set (flags k) CLONE_INTO_CGROUP = true -> cgroup k <= INT_MAX) /\
  kthread k = false /\ io_thread k = false /\ user_worker k = false /\ no_files k = false.
Proof.
  intros Hsz. unfold copy_clone_args_from_user.
  destruct (PAGE_SIZE <? usize); [done|]. destruct (usize <? _); [done|].
  destruct (copy_struct_from_user c usize) as [err|a] eqn:Ea; [done|]. cbn [err_bind].
  specialize (Hsz a eq_refl).
  destruct (Z.ltb_spec MAX_PID_NS_LEVEL (a_set_tid_size a)); [done|].
  destruct (_ && _); [done|]. destruct (_ && _); [done|].
  destruct (_ || negb (a_exit_signal a <=? _NSIG)) eqn:Es; [done|].
  apply orb_false_iff in Es as [_ Es]. apply negb_false_iff, Z.leb_le in Es.
  destruct (flag_set (a_flags a) CLONE_INTO_CGROUP && _) eqn:Ec; [done|].
  assert (Hc : flag_set (a_flags a) CLONE_INTO_CGROUP = true -> a_cgroup a <= INT_MAX).
  { intros E. rewrite E in Ec. cbn in Ec. apply orb_false_iff in Ec as [Ec _]. lia. }
  destruct (negb (a_set_tid a =? 0)); [destruct (copy_set_tid _ _ _); [|done]|]; intros [= <-]; by split_and!.
Qed.

(** [clone3] either refuses its arguments and changes nothing, or runs [kernel_clone]
    with arguments that have no unknown or legacy flag bit, at most one mode for signal
    handlers, no exit signal for a thread or sibling, a valid signal otherwise, as many
    thread ids as there are namespace levels at most, and a stack with a size. *)
Theorem clone3_only_checked c e size me cur s :
  (forall a, copy_struct_from_user c size = inr a -> 0 <= a_stack_size a) ->
  (exists err, sys_clone3 c e size me cur s = (err, None, [], s)) \/
  exists k, clone3_checked c k /\ sys_clone3 c e size me cur s = kernel_clone e k me cur s.
Proof.
  intros Hsz. unfold sys_clone3.
  destruct (copy_clone_args_from_user c size) as [err|k] eqn:Ek; [left; by exists err|].
  destruct (copy_clone_args_spec c size k Hsz Ek) as (H1 & H2 & H3 & H4 & H5).
  unfold clone3_args_valid.
  destruct (flag_set (flags k) (Z.lnot _)) eqn:F1; [left; by eexists|].
  destruct (flag_set (flags k) (Z.lor CLONE_DETACHED _)) eqn:F2; [left; by eexists|].
  destruct (all_set _ _) eqn:F3; [left; by eexists|].
  destruct (flag_set (flags k) (Z.lor CLONE_THREAD CLONE_PARENT) && _) eqn:F4; [left; by eexists|].
  assert (Hall : forall k', flags k' = flags k -> exit_signal k' = exit_signal k ->
    set_tid_size k' = set_tid_size k -> cgroup k' = cgroup k ->
    (kthread k' = kthread k /\ io_thread k' = io_thread k /\ user_worker k' = user_worker k /\
     no_files k' = no_files k) -> (stack k' = 0 \/ 0 < stack_size k') -> clone3_checked c k').
  { intros k' Ef Ee Et Ec (Ep1 & Ep2 & Ep3 & Ep4) Est.
    split; rewrite ?Ef, ?Ee, ?Et, ?Ec, ?Ep1, ?Ep2, ?Ep3, ?Ep4; try done.
    - unfold flag_set in F1. apply negb_false_iff, Z.eqb_eq in F1. by rewrite Z.ldiff_land.
    - unfold flag_set in F2. apply negb_false_iff, Z.eqb_eq in F2. by apply (land_sub _ _ 0x7f) in F2.
    - by apply (flag_set_sub _ _ CLONE_DETACHED) in F2.
    - intros Hs. unfold all_set in F3. unfold flag_set in *. apply negb_true_iff in Hs.
      destruct (Z.land (flags k) CLONE_CLEAR_SIGHAND =? 0) eqn:Ecs; [done|]. exfalso.
      apply Z.eqb_neq in F3, Hs, Ecs. apply F3. rewrite Z.land_lor_distr_r.
      by rewrite (land_bit_set _ 11), (land_bit_set _ 32).
    - intros Ht. destruct (flag_set (flags k) (Z.lor CLONE_THREAD CLONE_PARENT)) eqn:Ft.
      + cbn in F4. apply negb_false_iff in F4. lia.
      + exfalso. destruct Ht as [Ht|Ht].
        * apply (flag_set_sub _ _ CLONE_THREAD) in Ft; [congruence|done].
        * apply (flag_set_sub _ _ CLONE_PARENT) in Ft; [congruence|done]. }
  unfold clone3_stack_valid. destruct (Z.eqb_spec (stack k) 0) as [E0|E0].
  - destruct (0 <? stack_size k); [left; by eexists|]. right. exists k. split; [|done].
    apply Hall; try done. by left.
  - destruct (Z.eqb_spec (stack_size k) 0); [left; by eexists|].
    destruct (negb (access_ok c _ _)); [left; by eexists|]. right. eexists. split; [|done].
    apply Hall; try done. right. cbn. lia.
Qed.

(** ** [unshare] *)

(** Objects not yet made have no users, and the task's own are older. *)
Definition objects_ok (me : ptask) (s : state) : Prop :=
  (forall k o, next_obj s <= o -> users s k o = 0) /\
  (forall o, p_fs me = Some o -> o < next_obj s) /\ (forall o, p_files me = Some o -> o < next_obj s).

(** The references of a task that [unshare] may replace. *)
Definition file_refs (p : ptask) (k : kind) (o : Z) : Z := ref Kfs (p_fs p) k o + ref Kfiles (p_files p) k o.

Lemma delta_same {A} `{EqDecision A} (x : A) : delta x x = 1.
Proof. unfold delta. by rewrite decide_True. Qed.

Lemma delta_neq {A} `{EqDecision A} (x y : A) : x <> y -> delta x y = 0.
Proof. intros. unfold delta. by rewrite decide_False. Qed.

(** A copy that was made is a new object with one user; else nothing happened. *)
Definition copied (k : kind) (s : state) (new : option Z) (s' : state) : Prop :=
  (forall x, held s' x = held s x) /\
  (forall k' o', users s' k' o' = users s k' o' + ref k new k' o') /\
  next_obj s' = next_obj s + (if bool_decide (is_Some new) then 1 else 0) /\
  (forall n, new = Some n -> n = next_obj s).

Lemma fresh_copied k s : copied k s (Some (next_obj s)) (fresh k s).2.
Proof.
  split_and!; try done.
  - intros k' o'. cbn. lia.
  - by intros n [= <-].
Qed.

Lemma unshare_fs_copied e fl me s :
  let '(err, new, s') := unshare_fs e fl me s in
  copied Kfs s new s' /\ (err <> 0 -> new = None) /\ (is_Some new -> is_Some (p_fs me)).
Proof.
  assert (Hn : copied Kfs s None s) by (split_and!; cbn; done || (intros; lia)).
  unfold unshare_fs. destruct (p_fs me) as [f|]; [|split_and!; try done; by intros [? ?]].
  destruct (negb _); [split_and!; done|]. destruct (_ =? 1); [split_and!; done|].
  destruct (negb _); [split_and!; done|]. cbn. split_and!; try done. apply fresh_copied.
Qed.

Lemma unshare_fd_copied e fl me s :
  let '(err, new, s') := unshare_fd e fl me s in
  copied Kfiles s new s' /\ (err <> 0 -> new = None) /\ (is_Some new -> is_Some (p_files me)).
Proof.
  assert (Hn : copied Kfiles s None s) by (split_and!; cbn; done || (intros; lia)).
  unfold unshare_fd. destruct (p_files me) as [f|]; [|split_and!; try done; by intros [? ?]].
  destruct (_ && _); [|split_and!; done]. destruct (negb _) eqn:E; [split_and!; done|].
  cbn. split_and!; try done. apply fresh_copied.
Qed.

(** Throwing the copies away. *)
Lemma ref_new k n k' o' : ref k (Some n) k' o' = delta (k, n) (k', o').
Proof. done. Qed.

(** Throwing the copies away. *)
Lemma cleanup_fd_restores me s new_fs s1 new_fd s2 s3 :
  objects_ok me s -> copied Kfs s new_fs s1 -> copied Kfiles s1 new_fd s2 ->
  (forall k o, users s3 k o = users s2 k o) ->
  (forall k o, users (bad_unshare_cleanup_fd new_fd new_fs s3) k o = users s k o) /\
  forall x, held (bad_unshare_cleanup_fd new_fd new_fs s3) x = held s3 x.
Proof.
  intros (Hz & _ & _) (_ & Hu1 & _ & Hn1) (_ & Hu2 & _ & Hn2) Hu3.
  set (s4 := put_obj Kfiles new_fd s3).
  assert (Hu4 : forall k o, users s4 k o = users s k o + ref Kfs new_fs k o).
  { intros k o. subst s4. destruct new_fd as [n|]; cbn; rewrite Hu3, Hu2, Hu1; cbn; lia. }
  assert (Hh4 : forall x, held s4 x = held s3 x) by (by destruct new_fd).
  unfold bad_unshare_cleanup_fd, bad_unshare_cleanup_fs. fold s4. clearbody s4.
  destruct new_fs as [n|]; cbn.
  - split; [|done]. intros k o. rewrite !Hu4, !ref_new, delta_same.
    rewrite (Hn1 n eq_refl), (Hz Kfs (next_obj s)) by lia. lia.
  - split; [|done]. intros k o. rewrite Hu4. cbn. lia.
Qed.

(** Installing the copies and releasing what they replace. *)
Lemma install_exchanges me s new_cred new_fs s1 new_fd s2 nsproxy s3 left_fs left_fd me' s4 :
  objects_ok me s -> copied Kfs s new_fs s1 -> copied Kfiles s1 new_fd s2 ->
  (is_Some new_fs -> is_Some (p_fs me)) -> (is_Some new_fd -> is_Some (p_files me)) ->
  (forall k o, users s3 k o = users s2 k o) ->
  install new_cred new_fs new_fd nsproxy me s3 = (left_fs, left_fd, me', s4) ->
  (forall k o, users (bad_unshare_cleanup_cred false left_fd left_fs s4) k o =
               users s k o - file_refs me k o + file_refs me' k o) /\
  (forall x, held (bad_unshare_cleanup_cred false left_fd left_fs s4) x =
     held s3 x - (if new_cred then delta Scred_new x else 0) -
     (if bool_decide (is_Some nsproxy) then delta Snsproxy_new x else 0)).
Proof.
  intros (Hz & Hf & Hd) (_ & Hu1 & _ & Hn1) (_ & Hu2 & _ & Hn2) Hfs Hfd Hu3 Hi.
  unfold install in Hi.
  set (ms := match nsproxy with Some n => _ | None => _ end) in Hi.
  assert (Hms : (forall k o, users ms.2 k o = users s k o + ref Kfs new_fs k o + ref Kfiles new_fd k o) /\
    (forall x, held ms.2 x = held s3 x - (if bool_decide (is_Some nsproxy) then delta Snsproxy_new x else 0)) /\
    p_fs ms.1 = p_fs me /\ p_files ms.1 = p_files me).
  { subst ms. destruct nsproxy; cbn; split_and!; try done; intros; rewrite ?Hu3, ?Hu2, ?Hu1; lia. }
  clearbody ms. destruct ms as [me1 s5]. cbn [fst snd] in Hms. destruct Hms as (Hu5 & Hh5 & Ef & Ed).
  set (fsr := match new_fs with Some n => _ | None => _ end) in Hi.
  assert (Hfsr : let '(left_fs, me2, s6) := fsr in
    (forall k o, users (destroy Kfs left_fs s6) k o =
       users s k o + ref Kfiles new_fd k o - ref Kfs (p_fs me) k o + ref Kfs (p_fs me2) k o) /\
    (forall x, held s6 x = held s5 x) /\ p_files me2 = p_files me /\
    (forall o, left_fs = Some o -> users s6 Kfs o = 0)).
  { subst fsr. rewrite Ef. destruct new_fs as [n|].
    - destruct Hfs as [f Hf']; [done|]. rewrite Hf'.
      assert (Hlt : f < next_obj s) by auto. cbn.
      destruct (Z.eqb_spec (users s5 Kfs f + -1 * delta (Kfs, f) (Kfs, f)) 0) as [E|E]; cbn.
      + split_and!; try done; [|by intros o [= <-]]. intros k o. rewrite E, Hu5. cbn. lia.
      + split_and!; try done. intros k o. rewrite Hu5. cbn. lia.
    - cbn. split_and!; try done. intros k o. rewrite Hu5, Ef. cbn. lia. }
  destruct fsr as [[l1 me2] s6]. destruct Hfsr as (Hu6 & Hh6 & Ed2 & Hl).
  rewrite Ed2 in Hi.
  set (fdr := match new_fd with Some n => _ | None => _ end) in Hi.
  assert (Hfdr : (forall k o, ref Kfiles fdr.1 k o = ref Kfiles (p_files me) k o + ref Kfiles new_fd k o
                              - ref Kfiles (p_files fdr.2) k o) /\ p_fs fdr.2 = p_fs me2).
  { subst fdr. destruct new_fd as [n|]; cbn; split; try done; intros; rewrite ?Ed2; lia. }
  clearbody fdr. destruct fdr as [l2 me3]. cbn [fst snd] in Hfdr. destruct Hfdr as [Hr Ep].
  injection Hi as <- <- <- <-.
  set (s7 := put_hold Scred_new new_cred s6).
  assert (Hu7 : users s7 = users s6) by (by subst s7; destruct new_cred).
  assert (Hh7 : forall x, held s7 x = held s6 x - (if new_cred then delta Scred_new x else 0)).
  { intros x. subst s7. destruct new_cred; cbn; lia. }
  clearbody s7. unfold bad_unshare_cleanup_cred, bad_unshare_cleanup_fd, bad_unshare_cleanup_fs.
  cbn [put_hold]. split.
  - intros k o. transitivity (users (destroy Kfs l1 s6) k o - ref Kfiles l2 k o).
    + destruct l1 as [f|], l2 as [d|]; cbn; rewrite ?Hu7; try lia.
      rewrite (delta_neq (Kfiles, d) (Kfs, f)) by done. lia.
    + rewrite Hu6, Hr. unfold file_refs. rewrite Ep. lia.
  - intros x. transitivity (held s7 x); [by destruct l1, l2|]. rewrite Hh7, Hh6, Hh5. lia.
Qed.

(** The last part of [unshare]: new objects are installed and the old ones dropped, or there are none. *)
Lemma unshare_finish me s (new_cred : bool) new_fs s1 new_fd s2 (nsproxy : option Z) s4 (sysvsem : bool) left_fs left_fd me' s5 :
  objects_ok me s -> copied Kfs s new_fs s1 -> copied Kfiles s1 new_fd s2 ->
  (is_Some new_fs -> is_Some (p_fs me)) -> (is_Some new_fd -> is_Some (p_files me)) ->
  (forall k o, users s4 k o = users s2 k o) ->
  (forall x, held s4 x = held s x + (if new_cred then delta Scred_new x else 0) +
    (if bool_decide (is_Some nsproxy) then delta Snsproxy_new x else 0)) ->
  (if bool_decide (is_Some new_fs) || bool_decide (is_Some new_fd) || sysvsem || new_cred || bool_decide (is_Some nsproxy)
   then install new_cred new_fs new_fd nsproxy me s4 else (new_fs, new_fd, me, s4)) = (left_fs, left_fd, me', s5) ->
  (forall x, held (bad_unshare_cleanup_cred false left_fd left_fs s5) x = held s x) /\
  (forall k o, users (bad_unshare_cleanup_cred false left_fd left_fs s5) k o = users s k o - file_refs me k o + file_refs me' k o).
Proof.
  intros Hok Hc1 Hc2 Hs1 Hs2 Hu4 Hh4. destruct (_ || bool_decide (is_Some nsproxy)) eqn:Eany.
  - intros Ei. destruct (install_exchanges me s new_cred new_fs s1 new_fd s2 nsproxy s4 left_fs left_fd me' s5
      Hok Hc1 Hc2 Hs1 Hs2 Hu4 Ei) as [Hu Hh].
    split; [|done]. intros x. rewrite Hh, Hh4. lia.
  - apply orb_false_iff in Eany as [[_ Ecr]%orb_false_iff Ens]. rewrite Ecr, Ens in Hh4. intros [= <- <- <- <-].
    destruct (cleanup_fd_restores me s new_fs s1 new_fd s2 s4 Hok Hc1 Hc2 Hu4) as [Hu Hh].
    unfold bad_unshare_cleanup_cred. cbn [put_hold]. split.
    + intros x. rewrite Hh, Hh4. lia.
    + intros k o. rewrite Hu. lia.
Qed.

(** [unshare] is all or nothing: a call that fails leaves the task and every reference
    count as they were; a call that succeeds exchanges the references of the task to its
    old descriptor table and directories for those to the new ones, to the last one, and
    keeps neither credentials nor namespaces in hand.  (Given that charging the new
    credentials works; see [unshare_leaks_nsproxy].) *)
Theorem unshare_all_or_nothing e fl me s err me' s' :
  objects_ok me s -> u_set_cred_ucounts e = 0 ->
  (forall f x, unshare_userns e f = inl x -> x <> 0) -> (forall f x, unshare_nsproxy e f = inl x -> x <> 0) ->
  ksys_unshare e fl me s = (err, me', s') ->
  (forall x, held s' x = held s x) /\
  (err <> 0 -> me' = me /\ forall k o, users s' k o = users s k o) /\
  (err = 0 -> forall k o, users s' k o = users s k o - file_refs me k o + file_refs me' k o).
Proof.
  intros Hok Hcred Hun Hns. unfold ksys_unshare.
  set (f := implied_flags fl). clearbody f.
  destruct (Z.eqb_spec (check_unshare_flags e f) 0) as [Ec|Ec]; cbn [negb].
  2: { intros [= <- <- <-]. by split_and!. }
  pose proof (unshare_fs_copied e f me s) as H1.
  destruct (unshare_fs e f me s) as [[r1 new_fs] s1]. destruct H1 as (Hc1 & He1 & Hs1).
  destruct (Z.eqb_spec r1 0) as [E1|E1]; cbn [negb].
  2: { intros [= <- <- <-]. rewrite (He1 E1) in Hc1. destruct Hc1 as (Hh & Hu & _).
       split_and!; try done. intros _. split; [done|]. intros. rewrite Hu. cbn. lia. }
  pose proof (unshare_fd_copied e f me s1) as H2.
  destruct (unshare_fd e f me s1) as [[r2 new_fd] s2]. destruct H2 as (Hc2 & He2 & Hs2).
  assert (Hh2 : forall x, held s2 x = held s x).
  { intros x. destruct Hc1 as (Hh1 & _), Hc2 as (Hh2 & _). by rewrite Hh2. }
  assert (Hclean : forall s3 err me' s', (forall k o, users s3 k o = users s2 k o) ->
    (forall x, held s3 x = held s x) -> err <> 0 ->
    (err, me, bad_unshare_cleanup_fd new_fd new_fs s3) = (err, me', s') ->
    (forall x, held s' x = held s x) /\ (err <> 0 -> me' = me /\ forall k o, users s' k o = users s k o) /\
    (err = 0 -> forall k o, users s' k o = users s k o - file_refs me k o + file_refs me' k o)).
  { intros s3 err0 me0 s0 Hu3 Hh3 Hne [= <- <-].
    destruct (cleanup_fd_restores me s new_fs s1 new_fd s2 s3 Hok Hc1 Hc2 Hu3) as [Hu Hh].
    split_and!; [|by auto|done]. intros x. by rewrite Hh. }
  destruct (Z.eqb_spec r2 0) as [E2|E2]; cbn [negb].
  2: { rewrite (He2 E2) in *. intros Heq. injection Heq as <- <- <-. by apply (Hclean s2 r2 me). }
  destruct (unshare_userns e f) as [x|new_cred] eqn:Eu.
  { intros Heq. injection Heq as <- <- <-. apply (Hclean s2 x me); try done. by apply (Hun f). }
  set (s3 := if new_cred then hold Scred_new 1 s2 else s2).
  assert (Hu3 : forall k o, users s3 k o = users s2 k o) by (intros; by subst s3; destruct new_cred).
  assert (Hh3 : forall x, held s3 x = held s x + (if new_cred then delta Scred_new x else 0)).
  { intros x. subst s3. destruct new_cred; cbn; rewrite Hh2; lia. }
  clearbody s3. destruct (unshare_nsproxy e f) as [x|nsproxy] eqn:En.
  { intros Heq. injection Heq as <- <- <-. apply (Hclean (put_hold Scred_new new_cred s3) x me).
    - intros. rewrite <- Hu3. by destruct new_cred.
    - intros y. specialize (Hh3 y). destruct new_cred; cbn in *; lia.
    - by apply (Hns f).
    - done. }
  rewrite Hcred. cbn [Z.eqb negb]. rewrite andb_false_r.
  set (s4 := match nsproxy with Some _ => hold Snsproxy_new 1 s3 | None => s3 end).
  assert (Hu4 : forall k o, users s4 k o = users s2 k o) by (intros; rewrite <- Hu3; by subst s4; destruct nsproxy).
  assert (Hh4 : forall x, held s4 x = held s x + (if new_cred then delta Scred_new x else 0) +
    (if bool_decide (is_Some nsproxy) then delta Snsproxy_new x else 0)).
  { intros x. specialize (Hh3 x). subst s4. destruct nsproxy; cbn; lia. }
  clearbody s4. destruct (if _ || bool_decide (is_Some nsproxy) then _ else _) as [[[l1 l2] me1] s5] eqn:Ei.
  intros Heq. injection Heq as <- <- <-.
  destruct (unshare_finish me s new_cred new_fs s1 new_fd s2 nsproxy s4 _ l1 l2 me1 s5 Hok Hc1 Hc2 Hs1 Hs2 Hu4 Hh4 Ei). by split_and!.
Qed.

(** When the new credentials cannot be charged, [unshare] fails and forgets the
    namespaces it had already made: no label puts them, so they are never freed. *)
Theorem unshare_leaks_nsproxy e fl me s n :
  check_unshare_flags e (implied_flags fl) = 0 ->
  (unshare_fs e (implied_flags fl) me s).1.1 = 0 ->
  (unshare_fd e (implied_flags fl) me (unshare_fs e (implied_flags fl) me s).2).1.1 = 0 ->
  unshare_userns e (implied_flags fl) = inr true -> unshare_nsproxy e (implied_flags fl) = inr (Some n) ->
  u_set_cred_ucounts e <> 0 ->
  let '(err, me', s') := ksys_unshare e fl me s in
  err = u_set_cred_ucounts e /\ me' = me /\ held s' Snsproxy_new = held s Snsproxy_new + 1.
Proof.
  intros H1 H2 H3 H4 H5 H6. unfold ksys_unshare. rewrite H1. cbn [Z.eqb negb].
  pose proof (unshare_fs_copied e (implied_flags fl) me s) as Hc1.
  destruct (unshare_fs e (implied_flags fl) me s) as [[r1 new_fs] s1]. cbn [fst snd] in *. subst r1. cbn [Z.eqb negb].
  pose proof (unshare_fd_copied e (implied_flags fl) me s1) as Hc2.
  destruct (unshare_fd e (implied_flags fl) me s1) as [[r2 new_fd] s2]. cbn [fst snd] in *. subst r2. cbn [Z.eqb negb].
  rewrite H4, H5. apply Z.eqb_neq in H6. rewrite H6. cbn [andb negb].
  destruct Hc1 as [(Hh1 & _) _], Hc2 as [(Hh2 & _) _].
  split_and!; try done.
  unfold bad_unshare_cleanup_cred, bad_unshare_cleanup_fd, bad_unshare_cleanup_fs, put_hold.
  specialize (Hh1 Snsproxy_new). specialize (Hh2 Snsproxy_new).
  destruct new_fs, new_fd; cbn [destroy put_obj hold use held]; rewrite Hh2, Hh1, delta_same; lia.
Qed.
End ForkSpec.

(** ** A process that forks and unshares *)
Module ForkDemo.
Import Fork ForkSpec.

Definition good_env : fork_env := {|
  signal_unkillable := false; other_pid_ns := false; task_sigpending := false; dup_task_ok := true;
  copy_creds := 0; nproc_overlimit := false; user_is_init := false; capable_resource_or_admin := false;
  max_threads := 100; set_kthread_ok := true; mpol_dup := 0; sched_fork := 0; perf_event_init_task := 0;
  audit_alloc := 0; security_task_alloc := 0; copy_semundo := 0; dup_fd := 0; fs_in_exec := false;
  copy_fs_struct_ok := true; sighand_alloc_ok := true; signal_alloc_ok := true; dup_mm_ok := true;
  copy_namespaces := 0; copy_io := 0; has_io_context := true; copy_thread := 0; alloc_pid := inr 5;
  get_unused_fd := 3; anon_inode_getfile := 0; put_user_pidfd := 0; cgroup_can_fork := 0;
  pid_ns_dying := false; fatal_signal_pending := false; ptrace_event_enabled := fun _ => false;
  vfork_killed := false; pid_vnr := fun p => p |}.

(** The same, except that a signal to die arrives at the very end. *)
Definition killed_env : fork_env := {|
  signal_unkillable := false; other_pid_ns := false; task_sigpending := false; dup_task_ok := true;
  copy_creds := 0; nproc_overlimit := false; user_is_init := false; capable_resource_or_admin := false;
  max_threads := 100; set_kthread_ok := true; mpol_dup := 0; sched_fork := 0; perf_event_init_task := 0;
  audit_alloc := 0; security_task_alloc := 0; copy_semundo := 0; dup_fd := 0; fs_in_exec := false;
  copy_fs_struct_ok := true; sighand_alloc_ok := true; signal_alloc_ok := true; dup_mm_ok := true;
  copy_namespaces := 0; copy_io := 0; has_io_context := true; copy_thread := 0; alloc_pid := inr 5;
  get_unused_fd := 3; anon_inode_getfile := 0; put_user_pidfd := 0; cgroup_can_fork := 0;
  pid_ns_dying := false; fatal_signal_pending := true; ptrace_event_enabled := fun _ => false;
  vfork_killed := false; pid_vnr := fun p => p |}.

Definition parent : ptask := Ptask (Some 1) (Some 2) 3 4 (Some 6) false 0 0 0 0.
Definition demo_state : state := {|
  held _ := 0; users k o := if o <? 10 then 2 else 0; next_obj := 10; nr_threads := 1; total_forks := 0;
  cur_flags := 0;
  tab := Task.Table [1] (fun _ => Task.MkTask 1 1 0 0 0 0 0) (fun _ => Task.MkSignal 1 1 true None) 0 [] |}.

(** A thread, and a process with a descriptor for it. *)
Definition with_flags (f : Z) : kargs := Kargs f 64 0 128 0 0 0 0 [] 0 0 false false false false.
Definition thread_flags : Z :=
  Z.lor (Z.lor CLONE_VM CLONE_FS) (Z.lor (Z.lor CLONE_FILES CLONE_SIGHAND) CLONE_THREAD).
Definition pidfd_flags : Z := Z.lor CLONE_PIDFD CLONE_FILES.

Lemma copy_process_unwinds_witness :
  exists s', copy_process killed_env (with_flags pidfd_flags) true parent 1 demo_state = (inl (- EINTR), s') /\
    users s' Kfiles 1 = users demo_state Kfiles 1.
Proof.
  destruct (copy_process killed_env (with_flags pidfd_flags) true parent 1 demo_state) as [r s'] eqn:E.
  assert (Hr : r = inl (- EINTR)).
  { change r with (r, s').1. rewrite <- E. clear E. vm_compute. reflexivity. }
  subst r. exists s'. split; [reflexivity|].
  exact (proj1 (proj2 (copy_process_unwinds killed_env (with_flags pidfd_flags) true parent 1
    ltac:(done) ltac:(done) demo_state (- EINTR) s' E)) Kfiles 1).
Defined.

Lemma copy_process_shares_witness :
  exists p s', copy_process good_env (with_flags thread_flags) true parent 1 demo_state = (inr (p, 5), s') /\
    p_mm p = Some 6.
Proof.
  destruct (copy_process good_env (with_flags thread_flags) true parent 1 demo_state) as [r s'] eqn:E.
  assert (Hr : match r with inr (_, pid) => pid =? 5 | inl _ => false end = true).
  { change r with (r, s').1. rewrite <- E. clear E. vm_compute. reflexivity. }
  destruct r as [|[p pid]]; [discriminate Hr|]. apply Z.eqb_eq in Hr. subst pid.
  exists p, s'. split; [reflexivity|].
  destruct (copy_process_shares good_env (with_flags thread_flags) true parent 1
    ltac:(done) ltac:(done) demo_state p 5 s' E) as (_ & _ & _ & H & _).
  destruct (H eq_refl) as (_ & _ & Hm). exact Hm.
Defined.

Definition demo_clone3 : clone3_env := {|
  copy_struct_from_user _ := inr (Uargs CLONE_VM 0 0 0 17 4096 8192 0 0 0 0);
  copy_set_tid _ _ := None; access_ok _ _ := true |}.

Lemma clone3_only_checked_witness :
  (exists err, sys_clone3 demo_clone3 good_env 88 parent 1 demo_state = (err, None, [], demo_state)) \/
  exists k, clone3_checked demo_clone3 k /\
    sys_clone3 demo_clone3 good_env 88 parent 1 demo_state = kernel_clone good_env k parent 1 demo_state.
Proof.
  apply (clone3_only_checked demo_clone3 good_env 88 parent 1 demo_state). intros a [= <-]. done.
Defined.

Definition demo_unshare (ucounts : Z) : unshare_env := {|
  thread_group_empty := true; sighand_count := 1; single_threaded := true; u_copy_fs_ok := true; u_dup_fd := 0;
  unshare_userns _ := inr true; unshare_nsproxy _ := inr (Some 50); u_set_cred_ucounts := ucounts |}.

Lemma demo_objects_ok : objects_ok parent demo_state.
Proof.
  split_and!; cbn.
  - intros k o Ho. destruct (Z.ltb_spec o 10); [lia|done].
  - by intros o [= <-].
  - by intros o [= <-].
Qed.

Lemma unshare_all_or_nothing_witness :
  exists me' s', ksys_unshare (demo_unshare 0) (Z.lor CLONE_NEWUSER CLONE_FILES) parent demo_state = (0, me', s') /\
    held s' Snsproxy_new = 0.
Proof.
  destruct (ksys_unshare (demo_unshare 0) (Z.lor CLONE_NEWUSER CLONE_FILES) parent demo_state)
    as [[err me'] s'] eqn:E.
  assert (Hr : err = 0).
  { change err with (err, me', s').1.1. rewrite <- E. clear E. vm_compute. reflexivity. }
  subst err. exists me', s'. split; [reflexivity|].
  destruct (unshare_all_or_nothing (demo_unshare 0) (Z.lor CLONE_NEWUSER CLONE_FILES) parent demo_state
    0 me' s' demo_objects_ok eq_refl ltac:(done) ltac:(done) E) as [H _].
  exact (H Snsproxy_new).
Defined.

Lemma unshare_leaks_nsproxy_witness :
  let '(err, me', s') := ksys_unshare (demo_unshare (- EAGAIN)) CLONE_NEWUSER parent demo_state in
  err = - EAGAIN /\ me' = parent /\ held s' Snsproxy_new = held demo_state Snsproxy_new + 1.
Proof.
  exact (unshare_leaks_nsproxy (demo_unshare (- EAGAIN)) CLONE_NEWUSER parent demo_state 50
    eq_refl eq_refl eq_refl eq_refl eq_refl ltac:(done)).
Defined.
End ForkDemo.
