(* ===== verification/CMem.v ===== *)
(** * Memory blocks and C strings

    What the start-up code does to memory: a block is a list of bytes, a pointer a block
    and an offset.  Every access returns [None] when it leaves its block, so that a
    result is also a proof that no access did.  The string functions are those of the C
    library, on NUL terminated strings. *)
From S2P Require Import Prelude Bytes.

Module CMem.
Export Bytes.

Record ptr := Ptr { blk : Z; off : Z }.
Notation mem := (gmap Z (list Z)).

#[export] Instance ptr_eq_dec : EqDecision ptr.
Proof. solve_decision. Defined.

Definition padd (p : ptr) (n : Z) : ptr := Ptr (blk p) (off p + n).

(** The characters before the first NUL. *)
Fixpoint cstr (l : list Z) : option (list Z) :=
  match l with
  | [] => None
  | c :: l => if c =? 0 then Some [] else (c ::.) <$> cstr l
  end.

(** The bytes from a pointer to the end of its block. *)
Definition rest (m : mem) (p : ptr) : option (list Z) :=
  l ← m !! blk p; if (0 <=? off p) && (off p <=? zlen l) then Some (zdrop (off p) l) else None.
Definition byte (m : mem) (p : ptr) : option Z := rest m p ≫= head.
Definition bytes (m : mem) (p : ptr) (n : Z) : option (list Z) :=
  l ← rest m p; if n <=? zlen l then Some (ztake n l) else None.
Definition str (m : mem) (p : ptr) : option (list Z) := rest m p ≫= cstr.
Definition strlen (m : mem) (p : ptr) : option Z := zlen <$> str m p.

Definition patch (l : list Z) (o : Z) (bs : list Z) : list Z := ztake o l ++ bs ++ zdrop (o + zlen bs) l.
Definition write (m : mem) (p : ptr) (bs : list Z) : option mem :=
  l ← m !! blk p;
  if (0 <=? off p) && (off p + zlen bs <=? zlen l) then Some (<[blk p := patch l (off p) bs]> m) else None.

Definition strcpy (m : mem) (dst src : ptr) : option mem := s ← str m src; write m dst (s ++ [0]).
(** [memmove(dst, src, strlen(src) + 1)]. *)
Definition move_str (m : mem) (dst src : ptr) : option mem := strcpy m dst src.

Definition strcmp_eq (s t : list Z) : bool := bool_decide (s = t).
(** [!strncmp(s, t, n)]: the NUL takes part in the comparison. *)
Definition strncmp_eq (s t : list Z) (n : Z) : bool := bool_decide (ztake n (s ++ [0]) = ztake n (t ++ [0])).
Definition strnchr (s : list Z) (n c : Z) : bool := bool_decide (c ∈ ztake n s).

Lemma zlen_cons c (l : list Z) : zlen (c :: l) = 1 + zlen l.
Proof. unfold zlen. cbn. lia. Qed.
Ltac zlens := repeat (rewrite zlen_app in * || rewrite zlen_cons in * || rewrite zlen_nil in * ).

(** ** Strings *)

(** A string holds no NUL. *)
Definition nonul (s : list Z) : Prop := Forall (fun c => c <> 0) s.
#[export] Instance nonul_dec s : Decision (nonul s).
Proof. unfold nonul. apply _. Defined.

Lemma cstr_spec s k : nonul s -> cstr (s ++ 0 :: k) = Some s.
Proof.
  induction 1 as [|c s Hc _ IH]; [done|]. cbn. rewrite IH. by apply Z.eqb_neq in Hc as ->.
Qed.

Lemma cstr_inv l s : cstr l = Some s -> nonul s /\ exists k, l = s ++ 0 :: k.
Proof.
  revert s. induction l as [|c l IH]; [done|]. intros s. cbn.
  destruct (Z.eqb_spec c 0) as [->|Hc].
  - intros [= <-]. split; [constructor|by exists l].
  - destruct (cstr l) as [t|]; [|done]. intros [= <-].
    destruct (IH t eq_refl) as [Ht [k ->]]. split; [by constructor|by exists k].
Qed.

Lemma str_nonul m p s : str m p = Some s -> nonul s.
Proof. unfold str. destruct (rest m p); [|done]. cbn. intros H. by apply cstr_inv in H as [? _]. Qed.

(** ** Segments

    [seg m p bs]: the bytes at [p] are [bs]. *)
Definition seg (m : mem) (p : ptr) (bs : list Z) : Prop :=
  exists a c, m !! blk p = Some (a ++ bs ++ c) /\ zlen a = off p.

Lemma drop_zlen (a b : list Z) : zdrop (zlen a) (a ++ b) = b.
Proof. unfold zdrop, zlen. rewrite Nat2Z.id. apply drop_app_length. Qed.
Lemma take_zlen (a b : list Z) : ztake (zlen a) (a ++ b) = a.
Proof. unfold ztake, zlen. rewrite Nat2Z.id. apply take_app_length. Qed.

Lemma split_at_z (l : list Z) (n : Z) : 0 <= n <= zlen l -> exists a b, l = a ++ b /\ zlen a = n.
Proof.
  intros Hn. exists (ztake n l), (zdrop n l). split; [symmetry; apply take_drop|].
  rewrite zlen_take; lia.
Qed.

Lemma seg_rest m p bs : seg m p bs -> exists c, rest m p = Some (bs ++ c).
Proof.
  intros (a & c & Hm & Ha). exists c. unfold rest. rewrite Hm. cbn.
  rewrite !zlen_app, <- Ha, drop_zlen. pose proof (zlen_nonneg a). pose proof (zlen_nonneg bs).
  pose proof (zlen_nonneg c).
  replace (0 <=? zlen a) with true by (symmetry; apply Z.leb_le; lia).
  by replace (zlen a <=? _) with true by (symmetry; apply Z.leb_le; lia).
Qed.

Lemma rest_seg m p l : rest m p = Some l -> seg m p l.
Proof.
  unfold rest. destruct (m !! blk p) as [k|] eqn:E; [|done]. cbn.
  destruct (Z.leb_spec 0 (off p)); [|done]. destruct (Z.leb_spec (off p) (zlen k)); [|done].
  cbn. intros [= <-]. destruct (split_at_z k (off p)) as (a & b & -> & Ha); [lia|].
  exists a, []. rewrite E, app_nil_r, <- Ha, drop_zlen. done.
Qed.

Lemma seg_str m p s : nonul s -> seg m p (s ++ [0]) -> str m p = Some s.
Proof.
  intros Hs Hseg. destruct (seg_rest _ _ _ Hseg) as [c Hr]. unfold str. rewrite Hr. cbn.
  rewrite <- app_assoc. by apply cstr_spec.
Qed.

Lemma str_seg m p s : str m p = Some s -> seg m p (s ++ [0]).
Proof.
  unfold str. destruct (rest m p) as [l|] eqn:E; [|done]. cbn. intros H.
  apply cstr_inv in H as [_ [k ->]]. apply rest_seg in E as (a & c & Hm & Ha).
  exists a, (k ++ c). rewrite Hm. split; [|done]. by rewrite <- !app_assoc.
Qed.

Lemma seg_app m p s t : seg m p (s ++ t) <-> seg m p s /\ seg m (padd p (zlen s)) t.
Proof.
  split.
  - intros (a & c & Hm & Ha). split.
    + exists a, (t ++ c). by rewrite Hm, <- app_assoc.
    + exists (a ++ s), c. cbn. rewrite Hm, zlen_app, <- !app_assoc. by rewrite Ha.
  - intros [(a & c & Hm & Ha) (a' & c' & Hm' & Ha')]. cbn in *. rewrite Hm in Hm'.
    injection Hm' as Heq. exists a, c'. split; [|done]. rewrite Hm. f_equal.
    assert (Hl : length a' = length (a ++ s)).
    { rewrite length_app. unfold zlen in *. lia. }
    rewrite app_assoc in Heq. apply app_inj_1 in Heq as [<- ->]; [|done]. by rewrite <- !app_assoc.
Qed.

(** Segments that share no byte. *)
Definition apart (p : ptr) (n : Z) (q : ptr) (k : Z) : Prop :=
  blk p <> blk q \/ off p + n <= off q \/ off q + k <= off p.

(** Writing over a segment: it holds the new bytes, other segments keep theirs. *)
Lemma write_seg m p old bs :
  seg m p old -> zlen bs = zlen old ->
  exists m', write m p bs = Some m' /\ seg m' p bs /\
    (forall q t, seg m q t -> apart p (zlen bs) q (zlen t) -> seg m' q t).
Proof.
  intros (a & c & Hm & Ha) Hl. pose proof (zlen_nonneg a). pose proof (zlen_nonneg bs).
  pose proof (zlen_nonneg c). unfold write. rewrite Hm. cbn. rewrite !zlen_app, <- Ha.
  replace (0 <=? zlen a) with true by (symmetry; apply Z.leb_le; lia).
  replace (zlen a + zlen bs <=? _) with true by (symmetry; apply Z.leb_le; lia). cbn.
  eexists. split; [done|].
  assert (Hp : patch (a ++ old ++ c) (zlen a) bs = a ++ bs ++ c).
  { unfold patch. rewrite take_zlen. do 2 f_equal. rewrite Hl, app_assoc, <- zlen_app. apply drop_zlen. }
  rewrite Hp. split.
  - exists a, c. by rewrite lookup_insert_eq.
  - intros q t (a' & c' & Hq & Ha') Hd. unfold seg.
    destruct (decide (blk p = blk q)) as [Eb|Eb]; [|rewrite lookup_insert_ne by done; by exists a', c'].
    rewrite <- Eb, lookup_insert_eq. rewrite <- Eb, Hm in Hq. injection Hq as Heq.
    destruct Hd as [?|[Hd|Hd]]; [done| |].
    + assert (exists x, a' = a ++ old ++ x /\ c = x ++ t ++ c') as (x & -> & ->).
      { assert (Hle : (length (a ++ old) <= length a')%nat).
        { rewrite length_app. unfold zlen in *. lia. }
        destruct (split_at_z a' (zlen (a ++ old))) as (u & x & -> & Hu).
        { unfold zlen in *. lia. }
        assert (Heq' : (a ++ old) ++ c = u ++ x ++ t ++ c').
        { rewrite <- !app_assoc in Heq |- *. exact Heq. }
        apply app_inj_1 in Heq' as [Hau Hx]; [|unfold zlen in *; lia]. subst u. exists x. by rewrite <- app_assoc. }
      exists (a ++ bs ++ x), c'. split; [by rewrite <- !app_assoc|].
      rewrite <- Ha', !zlen_app. lia.
    + assert (exists x, a = a' ++ t ++ x /\ c' = x ++ old ++ c) as (x & -> & ->).
      { assert (Hle : (length (a' ++ t) <= length a)%nat).
        { rewrite length_app. unfold zlen in *. lia. }
        destruct (split_at_z a (zlen (a' ++ t))) as (u & x & -> & Hu).
        { unfold zlen in *. lia. }
        assert (Heq' : (a' ++ t) ++ c' = u ++ x ++ old ++ c).
        { rewrite <- !app_assoc in Heq |- *. done. }
        apply app_inj_1 in Heq' as [Hau Hx]; [|unfold zlen in *; lia]. subst u. exists x. by rewrite <- app_assoc. }
      exists a', (x ++ bs ++ c). split; [by rewrite <- !app_assoc|done].
Qed.
End CMem.
