(* ===== verification/BootArgs.v ===== *)
(** * Boot parameters ([custom/main.c])

    What the start-up code does with the kernel's command line: the bootconfig at the end
    of the initial ramdisk and the command line made of its keys, the saved and the parsed
    command line, early parameters, and the parameters that are handed to the first
    program as its arguments and environment.

    [parse_args] is not part of the file: a run is given the parameters it finds, in
    order, as pointers into the command line.  The table of [__setup] and [early_param]
    functions is put together by the linker; this file's own functions are the
    constructors of [setup], the others are [Foreign]. *)
From S2P Require Import Prelude CMem.

Module BootArgs.
Export CMem.

(** Why a run ends: an access out of its block, [BUG()], a call through NULL, or
    [panic]. *)
Inductive fault := Oob | Bug | Panic.
Notation run A := (fault + A)%type.
Definition lift {A} (o : option A) : run A := match o with Some a => inr a | None => inl Oob end.

Inductive setup :=
  | Set_reset_devices | Init_setup | Rdinit_setup | Initcall_blacklist
  | Debug_kernel | Quiet_kernel | Loglevel | Warn_bootconfig | Set_debug_rodata
  | Early_randomize_kstack_offset
  | Foreign (id : Z).
Record obs_kernel_param := Obs { ostr : list Z; setup_func : option setup; early : bool }.

Inductive overflow := Too_many_init | Too_many_env.

(** The variables of the file.  [argv_init] and [envp_init] have room for
    [CONFIG_INIT_ENV_ARG_LIMIT] strings and two more. *)
Record boot := Boot {
  bmem : mem;
  argv_init : list (option ptr); envp_init : list (option ptr);
  panic_later : option overflow; panic_param : option ptr;
  execute_command : option ptr; ramdisk_execute_command : option ptr;
  reset_devices : bool; console_loglevel : Z; rodata_enabled : bool; randomize_kstack_offset : bool;
  blacklisted_initcalls : list (list Z); early_done : bool
}.

Record token := Tok { param : ptr; val : option ptr }.

Record boot_env := {
  CONFIG_INIT_ENV_ARG_LIMIT : Z; CONFIG_CONSOLE_LOGLEVEL_QUIET : Z;
  setup_table : list obs_kernel_param;
  parameqn : list Z -> list Z -> Z -> bool; parameq : list Z -> list Z -> bool;
  sysctl_is_alias : list Z -> bool;
  foreign_setup : Z -> option (list Z) -> Z;
  get_option : option (list Z) -> option Z; kstrtobool : option (list Z) -> Z + bool;
  arch_parse_debug_rodata : option (list Z) -> bool;
  memblock_ok : bool
}.

Definition CONSOLE_LOGLEVEL_DEBUG : Z := 10.
Definition EQUALS : Z := 61.
Definition DOT : Z := 46.
Definition COMMA : Z := 44.
Definition SPACE : Z := 32.
Definition QUOTE : Z := 34.

Definition set_bmem v b := Boot v (argv_init b) (envp_init b) (panic_later b) (panic_param b) (execute_command b) (ramdisk_execute_command b) (reset_devices b) (console_loglevel b) (rodata_enabled b) (randomize_kstack_offset b) (blacklisted_initcalls b) (early_done b).
Definition set_argv v b := Boot (bmem b) v (envp_init b) (panic_later b) (panic_param b) (execute_command b) (ramdisk_execute_command b) (reset_devices b) (console_loglevel b) (rodata_enabled b) (randomize_kstack_offset b) (blacklisted_initcalls b) (early_done b).
Definition set_envp v b := Boot (bmem b) (argv_init b) v (panic_later b) (panic_param b) (execute_command b) (ramdisk_execute_command b) (reset_devices b) (console_loglevel b) (rodata_enabled b) (randomize_kstack_offset b) (blacklisted_initcalls b) (early_done b).
Definition set_panic v p b := Boot (bmem b) (argv_init b) (envp_init b) (Some v) (Some p) (execute_command b) (ramdisk_execute_command b) (reset_devices b) (console_loglevel b) (rodata_enabled b) (randomize_kstack_offset b) (blacklisted_initcalls b) (early_done b).
Definition set_execute v b := Boot (bmem b) (argv_init b) (envp_init b) (panic_later b) (panic_param b) v (ramdisk_execute_command b) (reset_devices b) (console_loglevel b) (rodata_enabled b) (randomize_kstack_offset b) (blacklisted_initcalls b) (early_done b).
Definition set_ramdisk v b := Boot (bmem b) (argv_init b) (envp_init b) (panic_later b) (panic_param b) (execute_command b) v (reset_devices b) (console_loglevel b) (rodata_enabled b) (randomize_kstack_offset b) (blacklisted_initcalls b) (early_done b).
Definition set_reset b := Boot (bmem b) (argv_init b) (envp_init b) (panic_later b) (panic_param b) (execute_command b) (ramdisk_execute_command b) true (console_loglevel b) (rodata_enabled b) (randomize_kstack_offset b) (blacklisted_initcalls b) (early_done b).
Definition set_loglevel v b := Boot (bmem b) (argv_init b) (envp_init b) (panic_later b) (panic_param b) (execute_command b) (ramdisk_execute_command b) (reset_devices b) v (rodata_enabled b) (randomize_kstack_offset b) (blacklisted_initcalls b) (early_done b).
Definition set_rodata v b := Boot (bmem b) (argv_init b) (envp_init b) (panic_later b) (panic_param b) (execute_command b) (ramdisk_execute_command b) (reset_devices b) (console_loglevel b) v (randomize_kstack_offset b) (blacklisted_initcalls b) (early_done b).
Definition set_kstack v b := Boot (bmem b) (argv_init b) (envp_init b) (panic_later b) (panic_param b) (execute_command b) (ramdisk_execute_command b) (reset_devices b) (console_loglevel b) (rodata_enabled b) v (blacklisted_initcalls b) (early_done b).
Definition set_blacklist v b := Boot (bmem b) (argv_init b) (envp_init b) (panic_later b) (panic_param b) (execute_command b) (ramdisk_execute_command b) (reset_devices b) (console_loglevel b) (rodata_enabled b) (randomize_kstack_offset b) v (early_done b).
Definition set_early_done b := Boot (bmem b) (argv_init b) (envp_init b) (panic_later b) (panic_param b) (execute_command b) (ramdisk_execute_command b) (reset_devices b) (console_loglevel b) (rodata_enabled b) (randomize_kstack_offset b) (blacklisted_initcalls b) true.

Section args.
Context (e : boot_env).
Notation MAX_INIT_ARGS := (CONFIG_INIT_ENV_ARG_LIMIT e).
Notation MAX_INIT_ENVS := (CONFIG_INIT_ENV_ARG_LIMIT e).

(** ** The setup functions of the file *)

(** [for (i = 1; i < MAX_INIT_ARGS; i++) argv_init[i] = NULL]. *)
Definition clear_args (l : list (option ptr)) : list (option ptr) :=
  imap (fun i x => if (1 <=? Z.of_nat i) && (Z.of_nat i <? MAX_INIT_ARGS) then None else x) l.

Definition init_setup (s : ptr) (b : boot) : Z * boot :=
  (1, set_argv (clear_args (argv_init b)) (set_execute (Some s) b)).
Definition rdinit_setup (s : ptr) (b : boot) : Z * boot :=
  (1, set_argv (clear_args (argv_init b)) (set_ramdisk (Some s) b)).
Definition set_reset_devices (b : boot) : Z * boot := (1, set_reset b).
Definition debug_kernel (b : boot) : Z * boot := (0, set_loglevel CONSOLE_LOGLEVEL_DEBUG b).
Definition quiet_kernel (b : boot) : Z * boot := (0, set_loglevel (CONFIG_CONSOLE_LOGLEVEL_QUIET e) b).
Definition loglevel (s : option (list Z)) (b : boot) : Z * boot :=
  match get_option e s with Some newlevel => (0, set_loglevel newlevel b) | None => (- EINVAL, b) end.
Definition early_randomize_kstack_offset (s : option (list Z)) (b : boot) : Z * boot :=
  match kstrtobool e s with inl ret => (ret, b) | inr bool_result => (0, set_kstack bool_result b) end.
Definition str_on : list Z := [111; 110].
Definition str_off : list Z := [111; 102; 102].
Definition set_debug_rodata (s : option (list Z)) (b : boot) : Z * boot :=
  if arch_parse_debug_rodata e s then (0, b)
  else match s with
  | Some s =>
      if strcmp_eq s str_on then (0, set_rodata true b)
      else if strcmp_eq s str_off then (0, set_rodata false b) else (0, b)
  | None => (0, b)
  end.

(** [strsep] over a whole string: the entries between commas; the commas become NULs. *)
Fixpoint split_commas (s : list Z) : list (list Z) :=
  match s with
  | [] => [[]]
  | c :: s =>
      if c =? COMMA then [] :: split_commas s
      else match split_commas s with x :: xs => (c :: x) :: xs | [] => [[c]] end
  end.
Definition cut_commas (s : list Z) : list Z := (fun c => if c =? COMMA then 0 else c) <$> s.

(** Each entry is copied to memory of its own and added at the head. *)
Definition initcall_blacklist (p : ptr) (b : boot) : run (Z * boot) :=
  let! s := lift (str (bmem b) p) in
  if negb (memblock_ok e) then inl Panic
  else
    let! m := lift (write (bmem b) p (cut_commas s)) in
    inr (1, set_blacklist (rev (split_commas s) ++ blacklisted_initcalls b) (set_bmem m b)).

(** A setup function on the string at [p], or on NULL. *)
Definition call_setup (f : setup) (p : option ptr) (b : boot) : run (Z * boot) :=
  let! s := match p with Some p => let! s := lift (str (bmem b) p) in inr (Some s) | None => inr None end in
  match f, p with
  | Init_setup, Some p => inr (init_setup p b)
  | Rdinit_setup, Some p => inr (rdinit_setup p b)
  | Initcall_blacklist, Some p => initcall_blacklist p b
  | Set_reset_devices, _ => inr (set_reset_devices b)
  | Debug_kernel, _ => inr (debug_kernel b)
  | Quiet_kernel, _ => inr (quiet_kernel b)
  | Loglevel, _ => inr (loglevel s b)
  | Warn_bootconfig, _ => inr (0, b)
  | Set_debug_rodata, _ => inr (set_debug_rodata s b)
  | Early_randomize_kstack_offset, _ => inr (early_randomize_kstack_offset s b)
  | Foreign id, _ => inr (foreign_setup e id s, b)
  | _, None => inl Bug
  end.

(** The loop over the table; the table of a kernel with this file is not empty. *)
Fixpoint checksetup_loop (table : list obs_kernel_param) (line : ptr) (had_early_param : bool) (b : boot)
    : run (bool * boot) :=
  match table with
  | [] => inr (had_early_param, b)
  | p :: table =>
      let n := zlen (ostr p) in
      let! s := lift (str (bmem b) line) in
      if parameqn e s (ostr p) n then
        if early p then
          let! c := lift (byte (bmem b) (padd line n)) in
          checksetup_loop table line (had_early_param || (c =? 0) || (c =? EQUALS)) b
        else match setup_func p with
        | None => inr (true, b)
        | Some f =>
            let! (r, b) := call_setup f (Some (padd line n)) b in
            if negb (r =? 0) then inr (true, b) else checksetup_loop table line had_early_param b
        end
      else checksetup_loop table line had_early_param b
  end.
Definition obsolete_checksetup (line : ptr) (b : boot) : run (bool * boot) :=
  checksetup_loop (setup_table e) line false b.

(** ** Arguments and environment of the first program *)

Definition repair_env_string (param : ptr) (val : option ptr) (m : mem) : run mem :=
  match val with
  | None => inr m
  | Some val =>
      let! n := lift (strlen m param) in
      if bool_decide (val = padd param (n + 1)) then lift (write m (padd val (-1)) [EQUALS])
      else if bool_decide (val = padd param (n + 2)) then
        let! m := lift (write m (padd val (-2)) [EQUALS]) in
        lift (move_str m (padd val (-1)) val)
      else inl Bug
  end.

(** The first free place, or [None] after a string at [MAX_INIT_ARGS]. *)
Fixpoint init_arg_slot (i : Z) (l : list (option ptr)) : run (option Z) :=
  match l with
  | [] => inl Oob
  | None :: _ => inr (Some i)
  | Some _ :: l => if i =? MAX_INIT_ARGS then inr None else init_arg_slot (i + 1) l
  end.

Definition set_init_arg (t : token) (b : boot) : run boot :=
  match panic_later b with
  | Some _ => inr b
  | None =>
      let! m := repair_env_string (param t) (val t) (bmem b) in
      let b := set_bmem m b in
      let! slot := init_arg_slot 0 (argv_init b) in
      match slot with
      | None => inr (set_panic Too_many_init (param t) b)
      | Some i => inr (set_argv (<[Z.to_nat i := Some (param t)]> (argv_init b)) b)
      end
  end.

(** The place for an environment string, the one with the same name if there is one, and
    whether the loop came past the limit. *)
Fixpoint env_slot (m : mem) (text : list Z) (len i : Z) (l : list (option ptr)) (late : bool)
    : run (Z * bool) :=
  match l with
  | [] => inl Oob
  | None :: _ => inr (i, late)
  | Some q :: l =>
      let late := late || (i =? MAX_INIT_ENVS) in
      let! s := lift (str m q) in
      if strncmp_eq text s (len + 1) then inr (i, late) else env_slot m text len (i + 1) l late
  end.

Fixpoint arg_slot (i : Z) (l : list (option ptr)) (late : bool) : run (Z * bool) :=
  match l with
  | [] => inl Oob
  | None :: _ => inr (i, late)
  | Some _ :: l => arg_slot (i + 1) l (late || (i =? MAX_INIT_ARGS))
  end.

Definition unknown_bootoption (t : token) (b : boot) : run boot :=
  let! name := lift (str (bmem b) (param t)) in
  let len := zlen name in
  if sysctl_is_alias e name then inr b
  else
  let! m := repair_env_string (param t) (val t) (bmem b) in
  let! (known, b) := obsolete_checksetup (param t) (set_bmem m b) in
  if known : bool then inr b
  else
  let! text := lift (str (bmem b) (param t)) in
  if strnchr text len DOT then inr b
  else match panic_later b with
  | Some _ => inr b
  | None =>
      match val t with
      | Some _ =>
          let! (i, late) := env_slot (bmem b) text len 0 (envp_init b) false in
          let b := if late : bool then set_panic Too_many_env (param t) b else b in
          inr (set_envp (<[Z.to_nat i := Some (param t)]> (envp_init b)) b)
      | None =>
          let! (i, late) := arg_slot 0 (argv_init b) false in
          let b := if late : bool then set_panic Too_many_init (param t) b else b in
          inr (set_argv (<[Z.to_nat i := Some (param t)]> (argv_init b)) b)
      end
  end.

(** [parse_args] calls its handler on one parameter after the other. *)
Fixpoint parse_args (handler : token -> boot -> run boot) (ts : list token) (b : boot) : run boot :=
  match ts with [] => inr b | t :: ts => let! b := handler t b in parse_args handler ts b end.

(** ** Early parameters *)

Definition str_console : list Z := [99; 111; 110; 115; 111; 108; 101].
Definition str_earlycon : list Z := [101; 97; 114; 108; 121; 99; 111; 110].

Fixpoint early_loop (table : list obs_kernel_param) (name : list Z) (val : option ptr) (b : boot) : run boot :=
  match table with
  | [] => inr b
  | p :: table =>
      if (early p && parameq e name (ostr p)) || (strcmp_eq name str_console && strcmp_eq (ostr p) str_earlycon)
      then match setup_func p with
           | None => inl Bug
           | Some f => let! (_, b) := call_setup f val b in early_loop table name val b
           end
      else early_loop table name val b
  end.
Definition do_early_param (t : token) (b : boot) : run boot :=
  let! name := lift (str (bmem b) (param t)) in early_loop (setup_table e) name (val t) b.

(** [ts] are the parameters of the untouched command line. *)
Definition parse_early_param (ts : list token) (b : boot) : run boot :=
  if early_done b then inr b
  else let! b := parse_args do_early_param ts b in inr (set_early_done b).

(** ** [print_unknown_bootoptions] *)

(** The strings up to the first NULL. *)
Fixpoint entries (m : mem) (l : list (option ptr)) : run (list (list Z)) :=
  match l with
  | [] => inl Oob
  | None :: _ => inr []
  | Some q :: l => let! s := lift (str m q) in let! r := entries m l in inr (s :: r)
  end.

(** A local buffer and [sprintf(end, " %s", s)] into it. *)
Definition put_buf (l : list Z) (o : Z) (bs : list Z) : option (list Z) :=
  if (0 <=? o) && (o + zlen bs <=? zlen l) then Some (patch l o bs) else None.
Fixpoint print_all (l : list (list Z)) (stop : Z) (buf : list Z) : run (Z * list Z) :=
  match l with
  | [] => inr (stop, buf)
  | s :: l =>
      let! buf := lift (put_buf buf stop (SPACE :: s ++ [0])) in print_all l (stop + 1 + zlen s) buf
  end.

(** The message, if there is one. *)
Definition print_unknown_bootoptions (b : boot) : run (option (list Z)) :=
  let! a1 := lift (argv_init b !! 1%nat) in
  let! e2 := lift (envp_init b !! 2%nat) in
  if bool_decide (is_Some (panic_later b)) || (bool_decide (a1 = None) && bool_decide (e2 = None))
  then inr None
  else
    let! args := entries (bmem b) (drop 1 (argv_init b)) in
    let! envs := entries (bmem b) (drop 2 (envp_init b)) in
    let len := 1 + foldr (fun s n => n + 1 + zlen s) 0 (args ++ envs) in
    if negb (memblock_ok e) then inr None
    else
      let! (stop, buf) := print_all args 0 (replicate (Z.to_nat len) 0) in
      let! (_, buf) := print_all envs stop buf in
      let! msg := lift (cstr (zdrop 1 buf)) in
      inr (Some msg).
End args.
End BootArgs.
