(* ===== verification/BootConfig.v ===== *)
(** * Bootconfig and the command lines ([custom/main.c])

    The bootconfig data behind the initial ramdisk, the command line made of the keys in
    it, [setup_boot_config], [setup_command_line] and the part of [start_kernel] that
    handles parameters.  The parser of the bootconfig syntax and [parse_args] are other
    files: their answers are fields of [config_env]. *)
From S2P Require Import Prelude CMem BootArgs.

Module BootConfig.
Import BootArgs.

Definition BOOTCONFIG_MAGIC : list Z := [35; 66; 79; 79; 84; 67; 79; 78; 70; 73; 71; 10].
Definition BOOTCONFIG_MAGIC_LEN : Z := 12.
Definition XBC_DATA_MAX : Z := 32767.

(** The addresses of the ramdisk and the memory it is in. *)
Record initrd := Initrd { imem : memory; initrd_start : Z; initrd_end : Z }.

(** A key below the wanted root: the composed name or the error, and the values. *)
Record xbc_node := Node { compose_key : Z + list Z; values : list (list Z) }.

Record config_env := {
  xbc_calc_checksum : list Z -> Z;
  xbc_embedded : option (Z * Z);
  xbc_init : Z -> Z -> Z;                       (* data, size -> nodes or error *)
  xbc_find_node : list Z -> option (list xbc_node);
  CONFIG_BOOT_CONFIG_FORCE : bool;
  cmdline_names : list (list Z);                (* parameters on the boot command line *)
  cmdline_end : Z + option Z;                   (* error, or the offset after "--" *)
  tokenise : mem -> ptr -> mem * list token * option ptr
}.

Record lines := Lines {
  ramdisk : initrd; bootconfig_found : bool; initargs_offs : Z;
  extra_command_line : option (list Z); extra_init_args : option (list Z);
  saved_command_line : list Z; static_command_line : list Z
}.

Section config.
Context (e : boot_env) (c : config_env).

(** ** The bootconfig of the ramdisk *)

Definition le32 (m : memory) (a : Z) : Z := m a + 2 ^ 8 * m (a + 1) + 2 ^ 16 * m (a + 2) + 2 ^ 24 * m (a + 3).

Fixpoint find_magic (n : nat) (data : Z) (m : memory) : option Z :=
  match n with
  | O => None
  | S n =>
      if bool_decide (load m data BOOTCONFIG_MAGIC_LEN = BOOTCONFIG_MAGIC) then Some data
      else find_magic n (data -u 1) m
  end.

(** The address and size of the data, cut off the ramdisk. *)
Definition get_boot_config_from_initrd (r : initrd) : option (Z * Z) * initrd :=
  if initrd_end r =? 0 then (None, r)
  else match find_magic 4 (initrd_end r -u BOOTCONFIG_MAGIC_LEN) (imem r) with
  | None => (None, r)
  | Some data =>
      let hdr := data -u 8 in
      let size := le32 (imem r) hdr in
      let csum := le32 (imem r) (hdr + 4) in
      let data := hdr -u size in
      if data <? initrd_start r then (None, r)
      else if negb (xbc_calc_checksum c (load (imem r) data size) =? csum) then (None, r)
      else (Some (data, size), Initrd (imem r) (initrd_start r) data)
  end.

(** ** A command line from the keys *)

(** [snprintf] at [pos] of a buffer with [size] bytes: the characters that fit and a NUL,
    if there is room for that; the length of the whole text. *)
Definition snprintf (buf : list Z) (pos size : Z) (text : list Z) : run (Z * list Z) :=
  let n := if pos <? size then size - pos else 0 in
  if n =? 0 then inr (zlen text, buf)
  else let! buf := lift (put_buf buf pos (ztake (n - 1) text ++ [0])) in inr (zlen text, buf).

Definition key_text (key : list Z) : list Z := key ++ [SPACE].
Definition key_value_text (key v : list Z) : list Z := key ++ [EQUALS; QUOTE] ++ v ++ [QUOTE; SPACE].

Fixpoint print_values (key : list Z) (vs : list (list Z)) (size pos : Z) (buf : list Z) : run (Z * list Z) :=
  match vs with
  | [] => inr (pos, buf)
  | v :: vs =>
      let! (ret, buf) := snprintf buf pos size (key_value_text key v) in
      print_values key vs size (pos + ret) buf
  end.

(** The characters printed or an error, and the buffer. *)
Fixpoint print_nodes (root : list xbc_node) (size pos : Z) (buf : list Z) : run ((Z + Z) * list Z) :=
  match root with
  | [] => inr (inr pos, buf)
  | knode :: root =>
      match compose_key knode with
      | inl ret => inr (inl ret, buf)
      | inr key =>
          let! (pos, buf) :=
            match values knode with
            | [] => let! (ret, buf) := snprintf buf pos size (key_text key) in inr (pos + ret, buf)
            | vs => print_values key vs size pos buf
            end in
          print_nodes root size pos buf
      end
  end.
Definition xbc_snprint_cmdline (buf : list Z) (size : Z) (root : list xbc_node) : run (Z * list Z) :=
  let! (ret, buf) := print_nodes root size 0 buf in
  inr (match ret with inl err => err | inr n => i32 n end, buf).

Definition xbc_make_cmdline (key : list Z) : run (option (list Z)) :=
  match xbc_find_node c key with
  | None => inr None
  | Some root =>
      let! (len, _) := xbc_snprint_cmdline [] 0 root in
      if len <=? 0 then inr None
      else if negb (memblock_ok e) then inr None
      else
        let! (ret, new_cmdline) := xbc_snprint_cmdline (replicate (Z.to_nat (len + 1)) 0) (len + 1) root in
        if (ret <? 0) || (len <? ret) then inr None
        else let! s := lift (cstr new_cmdline) in inr (Some s)
  end.

(** ** [setup_boot_config] *)

Definition str_bootconfig : list Z := [98; 111; 111; 116; 99; 111; 110; 102; 105; 103].
Definition str_kernel : list Z := [107; 101; 114; 110; 101; 108].
Definition str_init : list Z := [105; 110; 105; 116].

Definition bootconfig_params (found : bool) (param : list Z) : bool :=
  if strcmp_eq param str_bootconfig then true else found.

Definition set_ramdisk_of r l := Lines r (bootconfig_found l) (initargs_offs l) (extra_command_line l) (extra_init_args l) (saved_command_line l) (static_command_line l).
Definition set_found v l := Lines (ramdisk l) v (initargs_offs l) (extra_command_line l) (extra_init_args l) (saved_command_line l) (static_command_line l).
Definition set_offs v l := Lines (ramdisk l) (bootconfig_found l) v (extra_command_line l) (extra_init_args l) (saved_command_line l) (static_command_line l).
Definition set_extra a i l := Lines (ramdisk l) (bootconfig_found l) (initargs_offs l) a i (saved_command_line l) (static_command_line l).
Definition set_lines a s l := Lines (ramdisk l) (bootconfig_found l) (initargs_offs l) (extra_command_line l) (extra_init_args l) a s.

Definition setup_boot_config (l : lines) : run lines :=
  let '(data, r) := get_boot_config_from_initrd (ramdisk l) in
  let l := set_ramdisk_of r l in
  let data := match data with None => xbc_embedded c | d => d end in
  let l := set_found (foldl bootconfig_params (bootconfig_found l) (cmdline_names c)) l in
  match cmdline_end c with
  | inl _ => inr l
  | inr err =>
      if negb (bootconfig_found l || CONFIG_BOOT_CONFIG_FORCE c) then inr l
      else
        let l := match err with Some o => set_offs o l | None => l end in
        match data with
        | None => inr l
        | Some (data, size) =>
            if XBC_DATA_MAX <=? size then inr l
            else if xbc_init c data size <? 0 then inr l
            else
              let! extra := xbc_make_cmdline str_kernel in
              let! init := xbc_make_cmdline str_init in
              inr (set_extra extra init l)
        end
  end.

(** ** [setup_command_line] *)

Definition strcpy_buf (buf : list Z) (o : Z) (s : list Z) : run (list Z) := lift (put_buf buf o (s ++ [0])).
Definition str_dashes : list Z := [SPACE; 45; 45; SPACE].

(** The strings are without their NUL; [boot_command_line] and [command_line] are the
    untouched line and the one of the architecture. *)
Definition setup_command_line (boot_command_line command_line : list Z) (l : lines) : run lines :=
  let xlen := match extra_command_line l with Some x => zlen x | None => 0 end in
  let ilen := match extra_init_args l with Some i => zlen i + 4 | None => 0 end in
  let len := xlen + zlen boot_command_line + 1 in
  if negb (memblock_ok e) then inl Panic
  else
  let saved := replicate (Z.to_nat (len + ilen)) 0 in
  let static := replicate (Z.to_nat len) 0 in
  let! (saved, static) :=
    match extra_command_line l with
    | Some x =>
        if negb (xlen =? 0) then
          let! saved := strcpy_buf saved 0 x in
          let! static := strcpy_buf static 0 x in inr (saved, static)
        else inr (saved, static)
    | None => inr (saved, static)
    end in
  let! saved := strcpy_buf saved xlen boot_command_line in
  let! static := strcpy_buf static xlen command_line in
  let! saved :=
    match extra_init_args l with
    | Some i =>
        if negb (ilen =? 0) then
          if negb (initargs_offs l =? 0) then
            let len := xlen + initargs_offs l in
            let! saved := strcpy_buf saved len i in
            let len := len + (ilen - 4) in
            let! tail := lift (cstr (zdrop (initargs_offs l - 1) (boot_command_line ++ [0]))) in
            strcpy_buf saved len tail
          else
            let! s := lift (cstr saved) in
            let len := zlen s in
            let! saved := strcpy_buf saved len str_dashes in
            strcpy_buf saved (len + 4) i
        else inr saved
    | None => inr saved
    end in
  inr (set_lines saved static l).

(** ** The parameters in [start_kernel]

    [static_ptr] and [extra_ptr] are where the parsed command line and the additional
    arguments are; [boot_tokens] are the parameters of the boot command line. *)
Definition parse_at (handler : token -> boot -> run boot) (p : ptr) (b : boot) : run (option ptr * boot) :=
  let '(m, ts, after) := tokenise c (bmem b) p in
  let! b := parse_args handler ts (set_bmem m b) in inr (after, b).

Definition start_kernel_params (boot_tokens : list token) (static_ptr : ptr) (extra_ptr : option ptr) (b : boot)
    : run boot :=
  let! b := parse_early_param e boot_tokens b in
  let! (after_dashes, b) := parse_at (unknown_bootoption e) static_ptr b in
  let! _ := print_unknown_bootoptions e b in
  let! b := match after_dashes with
            | Some p => let! (_, b) := parse_at (set_init_arg e) p b in inr b
            | None => inr b
            end in
  let! b := match extra_ptr with
            | Some p => let! (_, b) := parse_at (set_init_arg e) p b in inr b
            | None => inr b
            end in
  match panic_later b with Some _ => inl Panic | None => inr b end.
End config.
End BootConfig.
