(* ===== verification/BootArgsSpec.v ===== *)
(** * Correctness of the boot parameters

    The arguments and the environment of the first program are those of an abstract list
    and of an abstract association list: the handlers stay inside the command line and
    inside their two arrays, and what the arrays point to in the end is what the
    parameters say. *)
From S2P Require Import Prelude CMem BootArgs.

Module BootArgsSpec.
Import BootArgs.

(** ** Memory *)

(** [m'] is [m] outside [n] bytes at [p]. *)
Definition frame (p : ptr) (n : Z) (m m' : mem) : Prop :=
  forall q s, seg m q s -> apart p n q (zlen s) -> seg m' q s.

Lemma frame_refl p n m : frame p n m m.
Proof. by intros q s. Qed.
Lemma frame_trans p n m1 m2 m3 : frame p n m1 m2 -> frame p n m2 m3 -> frame p n m1 m3.
Proof. intros H1 H2 q s Hs Ha. auto. Qed.
Lemma frame_part p n p' n' m m' :
  blk p' = blk p -> off p <= off p' -> off p' + n' <= off p + n -> frame p' n' m m' -> frame p n m m'.
Proof.
  intros Eb H1 H2 Hf q s Hs Ha. apply Hf; [done|]. unfold apart in *. rewrite Eb.
  destruct Ha as [?|[?|?]]; [by left|right; left; lia|right; right; lia].
Qed.

(** Overwriting a part of a segment. *)
Lemma write_part m p a old c bs :
  seg m p (a ++ old ++ c) -> zlen bs = zlen old ->
  exists m', write m (padd p (zlen a)) bs = Some m' /\ seg m' p (a ++ bs ++ c) /\
    frame p (zlen (a ++ old ++ c)) m m'.
Proof.
  intros Hs Hl. pose proof Hs as Hs0. apply seg_app in Hs as [Ha Hs]. apply seg_app in Hs as [Ho Hc].
  destruct (write_seg m (padd p (zlen a)) old bs Ho Hl) as (m' & Hw & Hb & Hk).
  exists m'. split; [done|]. pose proof (zlen_nonneg a). pose proof (zlen_nonneg c).
  split.
  - rewrite !seg_app. split_and!; [|done|].
    + apply Hk; [done|]. right. right. cbn. lia.
    + rewrite Hl. apply Hk; [done|]. right. left. cbn. lia.
  - apply (frame_part _ _ (padd p (zlen a)) (zlen bs)); cbn; [done|lia|rewrite !zlen_app; lia|].
    exact Hk.
Qed.

(** ** Parameters in memory *)

(** A parameter with its name and value, the bytes it occupies and whether it is an option
    or an argument for the first program. *)
Record piece := Piece { tok : token; name : list Z; value : option (list Z); ext : Z; is_opt : bool }.

Definition text (d : piece) : list Z :=
  match value d with None => name d | Some v => name d ++ [EQUALS] ++ v end.

(** How [parse_args] leaves a parameter: the name, a NUL in place of the equals sign,
    perhaps a quote, and the value. *)
Definition layout (d : piece) (q : option Z) : list Z :=
  match value d with
  | None => name d ++ [0]
  | Some v => name d ++ [0] ++ match q with Some c => [c] | None => [] end ++ v ++ [0]
  end.
Definition piece_ok (m : mem) (d : piece) : Prop :=
  nonul (name d) /\ (EQUALS ∉ name d) /\
  exists q, seg m (param (tok d)) (layout d q) /\ ext d = zlen (layout d q) /\
    match value d with
    | None => val (tok d) = None
    | Some v => nonul v /\
        val (tok d) = Some (padd (param (tok d)) (zlen (name d) + match q with Some _ => 2 | None => 1 end))
    end.

Lemma nonul_app s t : nonul (s ++ t) <-> nonul s /\ nonul t.
Proof. apply Forall_app. Qed.
Lemma nonul_equals : nonul [EQUALS].
Proof. by repeat constructor. Qed.

Lemma text_nonul m d : piece_ok m d -> nonul (text d).
Proof.
  intros (Hn & _ & q & _ & _ & Hv). unfold text. destruct (value d); [|done].
  destruct Hv as [Hv _]. rewrite !nonul_app. auto using nonul_equals.
Qed.

Lemma text_ext m d : piece_ok m d -> zlen (text d) + 1 <= ext d.
Proof.
  intros (_ & _ & q & _ & -> & _). unfold text, layout. destruct (value d), q; zlens; lia.
Qed.

Lemma piece_name m d : piece_ok m d -> str m (param (tok d)) = Some (name d).
Proof.
  intros (Hn & _ & q & Hs & _ & _). apply seg_str; [done|]. unfold layout in Hs.
  destruct (value d); [|done]. rewrite app_assoc in Hs. by apply seg_app in Hs as [? _].
Qed.

(** [repair_env_string] makes the parameter one string again. *)
Lemma repair_ok m d :
  piece_ok m d ->
  exists m', repair_env_string (param (tok d)) (val (tok d)) m = inr m' /\
    seg m' (param (tok d)) (text d ++ [0]) /\ frame (param (tok d)) (ext d) m m'.
Proof.
  intros Hok. pose proof (piece_name m d Hok) as Hname. destruct Hok as (Hn & _ & q & Hs & -> & Hv).
  unfold repair_env_string, text, layout in *. destruct (value d) as [v|].
  2: { rewrite Hv. exists m. split_and!; [done|done|apply frame_refl]. }
  destruct Hv as [Hnv ->]. unfold strlen. rewrite Hname. cbn [fmap option_fmap option_map lift err_bind].
  set (p := param (tok d)) in *. set (n := zlen (name d)) in *. destruct q as [c|].
  - rewrite (bool_decide_eq_false_2 (padd p (n + 2) = padd p (n + 1))) by (unfold padd; intros [= ?]; lia).
    rewrite bool_decide_eq_true_2 by done.
    replace (padd (padd p (n + 2)) (-2)) with (padd p n) by (unfold padd; f_equal; cbn; lia).
    destruct (write_part m p (name d) [0] ([c] ++ v ++ [0]) [EQUALS] Hs eq_refl) as (m1 & Hw & Hs1 & Hf1).
    unfold n. rewrite Hw. cbn [lift err_bind]. fold n. unfold move_str, strcpy.
    assert (Hstr : str m1 (padd p (n + 2)) = Some v).
    { apply seg_str; [done|].
      assert (Hs1' : seg m1 p ((name d ++ [EQUALS; c]) ++ v ++ [0])) by (by rewrite <- app_assoc).
      apply seg_app in Hs1' as [_ Hs1']. zlens. exact Hs1'. }
    rewrite Hstr. cbn [mbind option_bind].
    replace (padd (padd p (n + 2)) (-1)) with (padd p (zlen (name d ++ [EQUALS])))
      by (unfold padd, n; f_equal; zlens; cbn [off]; lia).
    assert (Hs1' : seg m1 p ((name d ++ [EQUALS]) ++ ([c] ++ v) ++ [0])) by (by rewrite <- !app_assoc).
    destruct (write_part m1 p _ _ _ (v ++ [0]) Hs1') as (m2 & Hw2 & Hs2 & Hf2).
    { zlens. lia. }
    rewrite Hw2. exists m2. split; [done|]. split.
    + rewrite app_assoc in Hs2. apply seg_app in Hs2 as [Hs2 _]. by rewrite <- !app_assoc in Hs2 |- *.
    + apply (frame_trans _ _ _ m1); [done|]. eapply frame_part; [done|done| |exact Hf2]. zlens. lia.
  - rewrite bool_decide_eq_true_2 by done.
    replace (padd (padd p (n + 1)) (-1)) with (padd p n) by (unfold padd; f_equal; cbn; lia).
    destruct (write_part m p (name d) [0] (v ++ [0]) [EQUALS] Hs eq_refl) as (m1 & Hw & Hs1 & Hf1).
    unfold n. rewrite Hw. exists m1. split; [done|]. split; [|done]. by rewrite <- !app_assoc.
Qed.

(** ** The table of setup functions, on strings *)

(** [memblock_alloc] works, the arrays have room for a string, and a name is at least as
    long as what it was compared with. *)
Record env_ok (e : boot_env) : Prop := {
  limit_pos : 1 <= CONFIG_INIT_ENV_ARG_LIMIT e;
  memblock_works : memblock_ok e = true;
  parameqn_long : forall s t, parameqn e s t (zlen t) = true -> zlen t <= zlen s
}.

Section args.
Context (e : boot_env) (He : env_ok e).
Notation LIMIT := (CONFIG_INIT_ENV_ARG_LIMIT e).

(** What a setup function returns, and whether it forgets the arguments. *)
Definition setup_ret (f : setup) (s : list Z) : Z :=
  match f with
  | Set_reset_devices | Init_setup | Rdinit_setup | Initcall_blacklist => 1
  | Debug_kernel | Quiet_kernel | Warn_bootconfig | Set_debug_rodata => 0
  | Loglevel => match get_option e (Some s) with Some _ => 0 | None => - EINVAL end
  | Early_randomize_kstack_offset => match kstrtobool e (Some s) with inl r => r | inr _ => 0 end
  | Foreign id => foreign_setup e id (Some s)
  end.
Definition resets (f : setup) : bool := match f with Init_setup | Rdinit_setup => true | _ => false end.

(** Whether the table knows a parameter, and whether it forgets the arguments. *)
Fixpoint known_opt (table : list obs_kernel_param) (s : list Z) (had : bool) : bool * bool :=
  match table with
  | [] => (had, false)
  | p :: table =>
      if parameqn e s (ostr p) (zlen (ostr p)) then
        if early p then
          let c := default 0 ((s ++ [0]) !! Z.to_nat (zlen (ostr p))) in
          known_opt table s (had || (c =? 0) || (c =? EQUALS))
        else match setup_func p with
        | None => (true, false)
        | Some f =>
            if negb (setup_ret f (zdrop (zlen (ostr p)) s) =? 0) then (true, resets f)
            else known_opt table s had
        end
      else known_opt table s had
  end.

Definition effect (reset : bool) (b b' : boot) : Prop :=
  argv_init b' = (if reset then clear_args e (argv_init b) else argv_init b) /\
  envp_init b' = envp_init b /\ panic_later b' = panic_later b.

Lemma zlen_cut s : zlen (cut_commas s) = zlen s.
Proof. unfold zlen, cut_commas. by rewrite length_fmap. Qed.

Lemma blacklist_ok p b s :
  nonul s -> seg (bmem b) p (s ++ [0]) ->
  exists b', initcall_blacklist e p b = inr (1, b') /\ effect false b b' /\
    frame p (zlen s + 1) (bmem b) (bmem b').
Proof.
  intros Hs Hseg. unfold initcall_blacklist. rewrite (seg_str _ _ _ Hs Hseg), (memblock_works e He).
  cbn [lift err_bind negb].
  destruct (write_part (bmem b) p [] s [0] (cut_commas s)) as (m' & Hw & _ & Hf); [done|apply zlen_cut|].
  replace (padd p (zlen [])) with p in Hw by (unfold padd; rewrite zlen_nil, Z.add_0_r; by destruct p).
  rewrite Hw. cbn [lift err_bind]. eexists. split_and!; [done|done|].
  cbn [bmem set_bmem set_blacklist]. cbn [app] in Hf. zlens. by rewrite Z.add_0_r in Hf.
Qed.

Lemma call_setup_ok f p b s :
  nonul s -> seg (bmem b) p (s ++ [0]) ->
  exists b', call_setup e f (Some p) b = inr (setup_ret f s, b') /\ effect (resets f) b b' /\
    frame p (zlen s + 1) (bmem b) (bmem b') /\
    (setup_ret f s = 0 -> bmem b' = bmem b /\ resets f = false).
Proof.
  intros Hs Hseg. unfold call_setup. rewrite (seg_str _ _ _ Hs Hseg). cbn [lift err_bind].
  destruct (blacklist_ok p b s Hs Hseg) as (bb & Hbl & ? & ?).
  unfold loglevel, early_randomize_kstack_offset, set_debug_rodata, setup_ret.
  destruct f; rewrite ?Hbl;
    try (by eexists; split_and!; [done..| |done]; apply frame_refl); try (by eexists).
  - destruct (get_option e (Some s)); by eexists; split_and!; [done..|apply frame_refl|].
  - destruct (arch_parse_debug_rodata e (Some s)); [by eexists; split_and!; [done..|apply frame_refl|]|].
    destruct (strcmp_eq s str_on); [by eexists; split_and!; [done..|apply frame_refl|]|].
    destruct (strcmp_eq s str_off); by eexists; split_and!; [done..|apply frame_refl|].
  - destruct (kstrtobool e (Some s)); by eexists; split_and!; [done..|apply frame_refl|].
Qed.

(** The string behind the first [n] characters. *)
Lemma seg_suffix m p s n :
  nonul s -> seg m p (s ++ [0]) -> 0 <= n <= zlen s ->
  nonul (zdrop n s) /\ seg m (padd p n) (zdrop n s ++ [0]).
Proof.
  intros Hs Hseg Hn. destruct (split_at_z s n Hn) as (a & c & -> & Ha).
  rewrite <- Ha, drop_zlen. apply nonul_app in Hs as [_ Hc]. split; [done|].
  rewrite <- app_assoc in Hseg. by apply seg_app in Hseg as [_ ?].
Qed.

Lemma byte_at m p s n :
  seg m p s -> 0 <= n < zlen s -> byte m (padd p n) = Some (default 0 (s !! Z.to_nat n)).
Proof.
  intros Hseg Hn. destruct (split_at_z s n) as (a & c & -> & Ha); [lia|].
  destruct c as [|x c]; [rewrite app_nil_r in Hn; lia|].
  apply seg_app in Hseg as [_ Hseg]. rewrite Ha in Hseg. unfold byte.
  destruct (seg_rest _ _ _ Hseg) as [k ->]. cbn. rewrite <- Ha. unfold zlen. rewrite Nat2Z.id.
  rewrite lookup_app_r by lia. by rewrite Nat.sub_diag.
Qed.

Lemma checksetup_ok table b line s had :
  nonul s -> seg (bmem b) line (s ++ [0]) ->
  exists b', checksetup_loop e table line had b = inr ((known_opt table s had).1, b') /\
    effect (known_opt table s had).2 b b' /\ frame line (zlen s + 1) (bmem b) (bmem b') /\
    ((known_opt table s had).1 = false -> bmem b' = bmem b).
Proof.
  intros Hs. revert b had. induction table as [|p table IH]; intros b had Hseg; cbn.
  { exists b. split_and!; try done. apply frame_refl. }
  rewrite (seg_str _ _ _ Hs Hseg). cbn [lift err_bind].
  destruct (parameqn e s (ostr p) (zlen (ostr p))) eqn:Ep; [|by apply IH].
  apply (parameqn_long e He) in Ep. pose proof (zlen_nonneg (ostr p)).
  destruct (early p).
  { rewrite (byte_at _ _ _ (zlen (ostr p)) Hseg) by (zlens; lia). by apply IH. }
  destruct (setup_func p) as [f|]; [|by exists b; split_and!; try done; apply frame_refl].
  destruct (seg_suffix _ _ _ (zlen (ostr p)) Hs Hseg) as [Hs' Hseg']; [lia|].
  destruct (call_setup_ok f (padd line (zlen (ostr p))) b _ Hs' Hseg') as (b1 & -> & He1 & Hf & H0).
  cbn [err_bind]. assert (Hfr : frame line (zlen s + 1) (bmem b) (bmem b1)).
  { apply (frame_part line _ (padd line (zlen (ostr p))) (zlen (zdrop (zlen (ostr p)) s) + 1)); cbn; [done|lia| |done]. rewrite zlen_drop by done. lia. }
  destruct (Z.eqb_spec (setup_ret f (zdrop (zlen (ostr p)) s)) 0) as [E0|E0]; cbn [negb].
  2: { by exists b1. }
  destruct (H0 E0) as [Hm Hr]. rewrite Hr in He1. destruct He1 as (Ea & Ee & Epl).
  destruct (IH b1 had) as (b2 & -> & He2 & Hf2 & H2); [by rewrite Hm|].
  exists b2. split; [done|]. rewrite <- Hm. split_and!; [|done|done].
  unfold effect in *. by rewrite Ea, Ee, Epl in He2.
Qed.

(** ** The abstract arguments and environment *)

Fixpoint env_set (n v : list Z) (env : list (list Z * list Z)) : list (list Z * list Z) :=
  match env with
  | [] => [(n, v)]
  | x :: env => if decide (x.1 = n) then (n, v) :: env else x :: env_set n v env
  end.
Definition env_text (x : list Z * list Z) : list Z := x.1 ++ [EQUALS] ++ x.2.
Arguments env_text : simpl never.

(** What becomes of a parameter: nothing, the arguments are forgotten, or it is kept. *)
Inductive verdict := Skip | Reset | Keep.
Definition verdict_of (d : piece) : verdict :=
  if negb (is_opt d) then Keep
  else if sysctl_is_alias e (name d) then Skip
  else
    let k := known_opt (setup_table e) (text d) false in
    if k.1 then (if k.2 then Reset else Skip)
    else if bool_decide (DOT ∈ name d) then Skip else Keep.

(** An option with a value is for the environment, everything else an argument. *)
Definition is_env (d : piece) : bool := is_opt d && bool_decide (is_Some (value d)).
Definition spec_step (a : list (list Z) * list (list Z * list Z)) (d : piece) :=
  match verdict_of d with
  | Skip => a
  | Reset => ([], a.2)
  | Keep => if is_env d then (a.1, env_set (name d) (default [] (value d)) a.2) else (a.1 ++ [text d], a.2)
  end.

(** ** Places in the arrays *)

(** Pointers, then NULLs. *)
Definition filled (ps : list ptr) (k : nat) : list (option ptr) := (Some <$> ps) ++ replicate k None.

Lemma insert_filled ps k p : <[length ps := Some p]> (filled ps (S k)) = filled (ps ++ [p]) k.
Proof.
  unfold filled. rewrite insert_app_r_alt by (by rewrite length_fmap).
  rewrite length_fmap, Nat.sub_diag, fmap_app, <- app_assoc. done.
Qed.

Lemma arg_slot_spec ps k i late :
  arg_slot e i (filled ps (S k)) late =
  inr (i + Z.of_nat (length ps), late || bool_decide (i <= LIMIT < i + Z.of_nat (length ps))).
Proof.
  revert i late. induction ps as [|p ps IH]; intros i late; cbn.
  { rewrite bool_decide_eq_false_2 by lia. by rewrite orb_false_r, Z.add_0_r. }
  unfold filled in IH. rewrite IH. do 2 f_equal; [lia|]. rewrite <- orb_assoc. f_equal.
  destruct (Z.eqb_spec i LIMIT); repeat case_bool_decide; try done; lia.
Qed.

Lemma init_arg_slot_spec ps k i :
  i <= LIMIT ->
  init_arg_slot e i (filled ps (S k)) =
  inr (if bool_decide (i <= LIMIT < i + Z.of_nat (length ps)) then None
       else Some (i + Z.of_nat (length ps))).
Proof.
  revert i. induction ps as [|p ps IH]; intros i Hi; cbn.
  { by rewrite bool_decide_eq_false_2, Z.add_0_r by lia. }
  destruct (Z.eqb_spec i LIMIT); [by rewrite bool_decide_eq_true_2 by lia|].
  unfold filled in IH. rewrite IH by lia. f_equal. repeat case_bool_decide; try lia; [done|f_equal; lia].
Qed.

Lemma clear_filled p ps k :
  Z.of_nat (length ps) < LIMIT -> clear_args e (filled (p :: ps) k) = filled [p] (length ps + k).
Proof.
  intros Hp. unfold clear_args, filled. cbn. f_equal. apply list_eq. intros i.
  rewrite list_lookup_imap. destruct (decide (i < length ps + k)%nat) as [Hi|Hi].
  2: { rewrite !lookup_ge_None_2; [done|..]; rewrite ?length_app, ?length_fmap, ?length_replicate; lia. }
  rewrite lookup_replicate_2 by done. destruct (decide (i < length ps)%nat).
  - destruct (((Some <$> ps) ++ replicate k None) !! i) as [x|] eqn:E.
    + cbn [fmap option_fmap option_map compose].
      replace (1 <=? Z.of_nat (S i)) with true by (symmetry; apply Z.leb_le; lia).
      by replace (Z.of_nat (S i) <? LIMIT) with true by (symmetry; apply Z.ltb_lt; lia).
    + apply lookup_ge_None in E. rewrite length_app, length_fmap in E. lia.
  - rewrite lookup_app_r, length_fmap, lookup_replicate_2 by (rewrite ?length_fmap; lia).
    cbn [fmap option_fmap option_map compose]. by destruct (_ && _).
Qed.

(** Two names up to their equals signs. *)
Lemma name_prefix n n' r :
  EQUALS ∉ n -> EQUALS ∉ n' -> n ++ [EQUALS] `prefix_of` n' ++ EQUALS :: r -> n = n'.
Proof.
  revert n'. induction n as [|c n IH]; intros [|c' n'] Hn Hn' [k Hk]; cbn in Hk; [done|..].
  - injection Hk as E _. destruct Hn'. rewrite E. constructor.
  - injection Hk as E _. destruct Hn. rewrite <- E. constructor.
  - injection Hk as E Hk. apply not_elem_of_cons in Hn as [_ Hn], Hn' as [_ Hn'].
    rewrite E. f_equal. apply IH; [done|done|by exists k].
Qed.

Lemma strncmp_name n v n' v' :
  EQUALS ∉ n -> EQUALS ∉ n' ->
  strncmp_eq (n ++ [EQUALS] ++ v) (n' ++ [EQUALS] ++ v') (zlen n + 1) = bool_decide (n' = n).
Proof.
  intros Hn Hn'. unfold strncmp_eq.
  assert (Ht : forall w, ztake (zlen n + 1) ((n ++ [EQUALS] ++ w) ++ [0]) = n ++ [EQUALS]).
  { intros w. replace (zlen n + 1) with (zlen (n ++ [EQUALS])) by (zlens; lia).
    rewrite <- take_zlen with (b := w ++ [0]). f_equal. by rewrite <- !app_assoc. }
  rewrite Ht. case_bool_decide as H; symmetry.
  - apply bool_decide_eq_true_2. symmetry. apply (name_prefix n n' (v' ++ [0]) Hn Hn').
    rewrite H. unfold ztake. rewrite <- !app_assoc. cbn. apply prefix_take.
  - apply bool_decide_eq_false_2. intros ->. by rewrite Ht in H.
Qed.

(** ** The relation *)

(** [q] holds the string [s], away from the parameters still to come. *)
Definition holds (m : mem) (ds : list piece) (q : ptr) (s : list Z) : Prop :=
  nonul s /\ seg m q (s ++ [0]) /\
  Forall (fun d => apart (param (tok d)) (ext d) q (zlen s + 1)) ds.

Definition arg0 : list Z := [105; 110; 105; 116].
Record good (b : boot) (ds : list piece) (a : list (list Z) * list (list Z * list Z)) : Prop := {
  g_argv : exists ps k, argv_init b = filled ps (S k) /\ Z.of_nat (length (argv_init b)) = LIMIT + 2 /\
           Forall2 (holds (bmem b) ds) ps (arg0 :: a.1);
  g_envp : exists es j, envp_init b = filled es (S j) /\ Z.of_nat (length (envp_init b)) = LIMIT + 2 /\
           Forall2 (holds (bmem b) ds) es (env_text <$> a.2);
  g_names : Forall (fun x => EQUALS ∉ x.1) a.2
}.

Lemma length_filled ps k : length (filled ps k) = (length ps + k)%nat.
Proof. unfold filled. by rewrite length_app, length_fmap, length_replicate. Qed.

(** Where an environment string goes: over the one of the same name, or at the end. *)
Lemma env_slot_spec m ds p n v es j env i late :
  Forall2 (holds m ds) es (env_text <$> env) -> Forall (fun x => EQUALS ∉ x.1) env -> EQUALS ∉ n ->
  holds m ds p (env_text (n, v)) -> Z.of_nat (length (filled es (S j))) = LIMIT + 2 - i ->
  exists idx late', env_slot e m (env_text (n, v)) (zlen n) i (filled es (S j)) late = inr (i + Z.of_nat idx, late') /\
    (late = true -> late' = true) /\
    exists es' j', <[idx := Some p]> (filled es (S j)) = filled es' j' /\
      Forall2 (holds m ds) es' (env_text <$> env_set n v env) /\ (late' = false -> i <= LIMIT -> (1 <= j')%nat).
Proof.
  intros Hes Henv Hn Hp. revert es i late Hes.
  induction env as [|[n' v'] env IH]; intros es i late Hes Hlen; cbn in Hes.
  - apply Forall2_nil_inv_r in Hes as ->. exists 0%nat, late. cbn. rewrite Z.add_0_r. split_and!; try done.
    exists [p], j. split_and!; [done|by apply Forall2_cons_2; [|constructor]|]. intros _ Hi.
    rewrite length_filled in Hlen. cbn in Hlen. lia.
  - apply Forall2_cons_inv_r in Hes as (q & es1 & Hq & Hes & ->).
    apply Forall_cons in Henv as [Hn' Henv]. cbn in Hn'. destruct Hq as (Hnul & Hseg & Hap).
    cbn [env_slot filled fmap list_fmap app]. rewrite (seg_str _ _ _ Hnul Hseg). cbn [lift err_bind].
    unfold env_text at 1 2. cbn [fst snd]. rewrite strncmp_name by done. cbn [env_set fst].
    destruct (bool_decide_reflect (n' = n)) as [->|Hne].
    + rewrite decide_True by done. exists 0%nat. eexists. rewrite Z.add_0_r. split; [done|]. split; [by intros ->|].
      exists (p :: es1), (S j). split_and!; [done|by apply Forall2_cons_2|]. lia.
    + rewrite decide_False by done.
      destruct (IH Henv es1 (i + 1) (late || (i =? LIMIT)) Hes) as (idx & late' & Hslot & Hmono & es' & j' & Hins & Hall & Hj).
      { rewrite !length_filled in *. cbn in Hlen. lia. }
      unfold filled in Hslot. rewrite Hslot. exists (S idx), late'. split_and!; [do 2 f_equal; lia|..].
      { intros ->. apply Hmono. done. }
      exists (q :: es'), j'. split_and!.
      * change (Some q :: <[idx:=Some p]> (filled es1 (S j)) = Some q :: filled es' j'). by rewrite Hins.
      * by apply Forall2_cons_2.
      * intros Hl Hi. apply Hj; [done|]. destruct (Z.eqb_spec i LIMIT) as [->|]; [|lia].
        rewrite Hmono in Hl by apply orb_true_r. done.
Qed.

(** ** One parameter *)

Definition apart_pieces (d d' : piece) : Prop :=
  apart (param (tok d)) (ext d) (param (tok d')) (ext d').
Fixpoint separate (ds : list piece) : Prop :=
  match ds with [] => True | d :: ds => Forall (apart_pieces d) ds /\ separate ds end.

Lemma apart_sym p n q k : apart p n q k -> apart q k p n.
Proof. unfold apart. naive_solver. Qed.
Lemma apart_less p n q k k' : apart p n q k -> k' <= k -> apart p n q k'.
Proof. unfold apart. intros [?|[?|?]] ?; [by left|by right; left|right; right; lia]. Qed.

Lemma piece_frame d d' m m' :
  frame (param (tok d)) (ext d) m m' -> apart_pieces d d' -> piece_ok m d' -> piece_ok m' d'.
Proof.
  intros Hf Ha (Hn & Heq & q & Hs & Hx & Hv). split_and!; try done. exists q. split_and!; try done.
  apply Hf; [done|]. by rewrite <- Hx.
Qed.

Lemma holds_frame d ds m m' q s :
  frame (param (tok d)) (ext d) m m' -> holds m (d :: ds) q s -> holds m' ds q s.
Proof.
  intros Hf (Hn & Hs & Ha). apply Forall_cons in Ha as [Hd Ha]. split_and!; try done.
  apply Hf; [done|]. by zlens.
Qed.

Lemma good_frame d ds b b' a :
  frame (param (tok d)) (ext d) (bmem b) (bmem b') -> argv_init b' = argv_init b ->
  envp_init b' = envp_init b -> good b (d :: ds) a -> good b' ds a.
Proof.
  intros Hf Ea Ee [(ps & k & H1 & H2 & H3) (es & j & H4 & H5 & H6) H7]. split; [| |done].
  - exists ps, k. rewrite Ea. split_and!; try done. eapply Forall2_impl; [done|]. intros. by eapply holds_frame.
  - exists es, j. rewrite Ee. split_and!; try done. eapply Forall2_impl; [done|]. intros. by eapply holds_frame.
Qed.

(** The whole text of the parameter, once repaired. *)
Lemma text_holds d ds m m' :
  piece_ok m d -> Forall (apart_pieces d) ds -> seg m' (param (tok d)) (text d ++ [0]) ->
  holds m' ds (param (tok d)) (text d).
Proof.
  intros Hok Ha Hs. split_and!; [by eapply text_nonul|done|]. eapply Forall_impl; [exact Ha|].
  intros d' Hd. apply apart_sym. pose proof (text_ext m d Hok). apply apart_sym in Hd.
  apply apart_sym. by eapply apart_less.
Qed.

(** One more argument, unless there are too many. *)
Lemma good_arg b ds a p s :
  good b ds a -> holds (bmem b) ds p s ->
  exists i late, arg_slot e 0 (argv_init b) false = inr (Z.of_nat i, late) /\
    init_arg_slot e 0 (argv_init b) = inr (if late then None else Some (Z.of_nat i)) /\
    (late = false -> good (set_argv (<[i := Some p]> (argv_init b)) b) ds (a.1 ++ [s], a.2)).
Proof.
  intros [(ps & k & H1 & H2 & H3) H4 H5] Hp.
  exists (length ps), (bool_decide (0 <= LIMIT < Z.of_nat (length ps))).
  pose proof (Forall2_length _ _ _ H3) as Hl. cbn in Hl. pose proof (limit_pos e He).
  rewrite H1, arg_slot_spec, init_arg_slot_spec by lia. split_and!; [done|done|].
  - intros Hlate. apply bool_decide_eq_false in Hlate. split; [|done|done]. rewrite H1, length_filled in H2. exists (ps ++ [p]), (k - 1)%nat.
    cbn [argv_init set_argv bmem fst]. rewrite insert_filled, length_filled, length_app. cbn [length].
    split_and!; [f_equal; lia|lia|]. rewrite app_comm_cons. apply Forall2_app; [done|].
    by apply Forall2_cons_2; [|constructor].
Qed.

(** One more environment string. *)
Lemma good_env b ds a p n v :
  good b ds a -> EQUALS ∉ n -> holds (bmem b) ds p (env_text (n, v)) ->
  exists i late, env_slot e (bmem b) (env_text (n, v)) (zlen n) 0 (envp_init b) false = inr (Z.of_nat i, late) /\
    (late = false -> good (set_envp (<[i := Some p]> (envp_init b)) b) ds (a.1, env_set n v a.2)).
Proof.
  intros [H1 (es & j & H2 & H3 & H4) H5] Hn Hp. rewrite H2. rewrite H2 in H3.
  destruct (env_slot_spec (bmem b) ds p n v es j a.2 0 false H4 H5 Hn Hp) as
    (idx & late & Hs & _ & es' & j' & Hins & Hall & Hj); [lia|].
  exists idx, late. split; [done|]. intros ->. pose proof (limit_pos e He). split; [done| |].
  - exists es', (j' - 1)%nat. cbn [envp_init set_envp bmem snd]. rewrite Hins.
    specialize (Hj eq_refl). split_and!; [f_equal; lia| |done].
    rewrite <- Hins, length_insert. lia.
  - cbn [snd]. clear -H5 Hn. induction H5 as [|x env Hx Henv IH]; cbn; [by constructor|].
    destruct (decide (x.1 = n)); by constructor.
Qed.

(** [init=] and [rdinit=] forget the arguments. *)
Lemma good_reset b ds a :
  good b ds a -> Z.of_nat (length a.1) < LIMIT ->
  forall b', bmem b' = bmem b -> argv_init b' = clear_args e (argv_init b) -> envp_init b' = envp_init b ->
  good b' ds ([], a.2).
Proof.
  intros [(ps & k & H1 & H2 & H3) H4 H5] Hlt b' Em Ea Ee. split; [|by rewrite Em, Ee|done].
  apply Forall2_cons_inv_r in H3 as (p0 & ps' & Hp0 & Hps & ->).
  pose proof (Forall2_length _ _ _ Hps). rewrite Em, Ea, H1.
  exists [p0], (length ps' + k)%nat. rewrite clear_filled, length_filled by lia.
  rewrite H1, length_filled in H2. cbn [length fst] in *. split_and!; [f_equal; lia|lia|].
  by apply Forall2_cons_2; [|constructor].
Qed.

Definition call (d : piece) (b : boot) : run boot :=
  if is_opt d then unknown_bootoption e (tok d) b else set_init_arg e (tok d) b.

Lemma strnchr_name d : strnchr (text d) (zlen (name d)) DOT = bool_decide (DOT ∈ name d).
Proof.
  unfold strnchr, text. destruct (value d); [by rewrite take_zlen|]. by rewrite ztake_ge by lia.
Qed.

Lemma unknown_keeps table s had : (known_opt table s had).1 = false -> (known_opt table s had).2 = false.
Proof.
  revert had. induction table as [|p table IH]; intros had; cbn; [done|].
  destruct (parameqn e s (ostr p) (zlen (ostr p))); [|apply IH]. destruct (early p); [apply IH|].
  destruct (setup_func p); [|done]. destruct (negb _); [done|apply IH].
Qed.

(** What is done with a parameter that is kept. *)
Definition store_env (d : piece) (b : boot) : run boot :=
  let! (i, late) := env_slot e (bmem b) (text d) (zlen (name d)) 0 (envp_init b) false in
  let b := if late : bool then set_panic Too_many_env (param (tok d)) b else b in
  inr (set_envp (<[Z.to_nat i := Some (param (tok d))]> (envp_init b)) b).
Definition store_arg (d : piece) (b : boot) : run boot :=
  let! (i, late) := arg_slot e 0 (argv_init b) false in
  let b := if late : bool then set_panic Too_many_init (param (tok d)) b else b in
  inr (set_argv (<[Z.to_nat i := Some (param (tok d))]> (argv_init b)) b).
Definition store_init_arg (d : piece) (b : boot) : run boot :=
  let! slot := init_arg_slot e 0 (argv_init b) in
  match slot with
  | None => inr (set_panic Too_many_init (param (tok d)) b)
  | Some i => inr (set_argv (<[Z.to_nat i := Some (param (tok d))]> (argv_init b)) b)
  end.
Definition store (d : piece) : boot -> run boot :=
  if negb (is_opt d) then store_init_arg d else if is_env d then store_env d else store_arg d.

(** A handler runs up to the arrays without fault and touches the parameter only. *)
Record prepared (d : piece) (b b1 : boot) : Prop := {
  pr_frame : frame (param (tok d)) (ext d) (bmem b) (bmem b1);
  pr_argv : argv_init b1 = match verdict_of d with Reset => clear_args e (argv_init b) | _ => argv_init b end;
  pr_envp : envp_init b1 = envp_init b;
  pr_panic : panic_later b1 = panic_later b;
  pr_text : verdict_of d = Keep -> panic_later b = None -> seg (bmem b1) (param (tok d)) (text d ++ [0])
}.

Lemma call_prepared d b :
  piece_ok (bmem b) d ->
  exists b1, prepared d b b1 /\
    call d b = match verdict_of d, panic_later b with Keep, None => store d b1 | _, _ => inr b1 end.
Proof.
  intros Hd. destruct (repair_ok _ _ Hd) as (m & Hr & Hs & Hf).
  unfold call, store, is_env. destruct (is_opt d) eqn:Ho; cbn [negb].
  2: { unfold set_init_arg, verdict_of. rewrite Ho. cbn [negb]. destruct (panic_later b) eqn:Epl.
       - exists b. split; [|done]. split; rewrite ?Epl; try done; [apply frame_refl|].
         by unfold verdict_of; rewrite Ho.
       - exists (set_bmem m b). rewrite Hr. split; [|done]. split; try done.
         by unfold verdict_of; rewrite Ho. }
  unfold unknown_bootoption. rewrite (piece_name _ _ Hd). cbn [lift err_bind].
  destruct (sysctl_is_alias e (name d)) eqn:Eal.
  { exists b. unfold verdict_of. rewrite Ho, Eal. cbn [negb]. split; [|done].
    split; unfold verdict_of; rewrite ?Ho, ?Eal; try done. apply frame_refl. }
  rewrite Hr. cbn [err_bind].
  pose proof (text_nonul _ _ Hd) as Htn. pose proof (text_ext _ _ Hd) as Htx.
  pose proof (unknown_keeps (setup_table e) (text d) false) as Hu.
  destruct (checksetup_ok (setup_table e) (set_bmem m b) (param (tok d)) (text d) false Htn Hs)
    as (b1 & Hc & (Ea & Ee & Ep) & Hf1 & Hm1).
  unfold obsolete_checksetup. rewrite Hc. cbn [err_bind].
  assert (Hfr : frame (param (tok d)) (ext d) (bmem b) (bmem b1)).
  { eapply frame_trans; [exact Hf|]. cbn [bmem set_bmem] in Hf1.
    apply (frame_part (param (tok d)) _ (param (tok d)) (zlen (text d) + 1)); [done|lia|lia|done]. }
  cbn [argv_init envp_init panic_later set_bmem] in Ea, Ee, Ep. exists b1.
  assert (Ev : verdict_of d = let k := known_opt (setup_table e) (text d) false in
    if k.1 then (if k.2 then Reset else Skip) else if bool_decide (DOT ∈ name d) then Skip else Keep).
  { unfold verdict_of. by rewrite Ho, Eal. }
  destruct (known_opt (setup_table e) (text d) false) as [known reset]. cbn [fst snd] in *.
  destruct known; [split; [|by rewrite Ev; destruct reset]; split; rewrite ?Ev; try done; by destruct reset|].
  specialize (Hm1 eq_refl). cbn [bmem set_bmem] in Hm1. rewrite (Hu eq_refl) in Ea. split.
  - split; rewrite ?Ev, ?Hm1; try done; [by destruct (bool_decide (DOT ∈ name d))].
  - rewrite Hm1, (seg_str _ _ _ Htn Hs). cbn [lift err_bind]. rewrite strnchr_name, Ev, Ep.
    destruct (bool_decide (DOT ∈ name d)); [done|]. destruct (panic_later b); [done|].
    destruct Hd as (_ & _ & q & _ & _ & Hv). unfold store_env, store_arg. rewrite <- Hm1.
    destruct (value d); [destruct Hv as [_ ->]|rewrite Hv]; done.
Qed.

(** ** Many parameters *)

(** Between two parameters: those to come are untouched, and [G] holds unless the boot
    is to be given up. *)
Record between (G : boot -> list piece -> Prop) (b : boot) (ds : list piece) : Prop := {
  b_pieces : Forall (piece_ok (bmem b)) ds; b_separate : separate ds;
  b_good : panic_later b = None -> G b ds
}.

Lemma between_next (G G' : boot -> list piece -> Prop) d ds b b' :
  between G b (d :: ds) -> frame (param (tok d)) (ext d) (bmem b) (bmem b') ->
  (panic_later b' = None -> G' b' ds) -> between G' b' ds.
Proof.
  intros [Hp [Ha Hs] _] Hf Hg. split; [|done|done]. apply Forall_cons in Hp as [_ Hp].
  rewrite Forall_forall in *. intros d' Hd. eapply piece_frame; [done|by apply Ha|by apply Hp].
Qed.

(** One handler, for a [G] kept by what leaves the arrays alone, and by storing. *)
Lemma call_between (G G' : boot -> list piece -> Prop) d ds b :
  between G b (d :: ds) ->
  (forall b1, prepared d b b1 -> G b (d :: ds) ->
     match verdict_of d with
     | Keep => holds (bmem b1) ds (param (tok d)) (text d) ->
         exists b', store d b1 = inr b' /\ bmem b' = bmem b1 /\ (panic_later b' = None -> G' b' ds)
     | _ => G' b1 ds
     end) ->
  exists b', call d b = inr b' /\ between G' b' ds.
Proof.
  intros Hb Hstep. pose proof (b_pieces _ _ _ Hb) as Hp. apply Forall_cons in Hp as [Hd _].
  destruct (call_prepared d b Hd) as (b1 & Hpr & ->). specialize (Hstep b1 Hpr).
  pose proof Hpr as [Hf Ha Ee Ep Ht]. destruct (panic_later b) eqn:Epl.
  { exists b1. split; [by destruct (verdict_of d)|]. eapply between_next; [done|done|by rewrite Ep]. }
  specialize (Hstep (b_good _ _ _ Hb Epl)). destruct (verdict_of d).
  1,2: exists b1; split; [done|]; by eapply between_next.
  destruct Hstep as (b' & -> & Hm & Hg').
  { eapply text_holds; [done|apply (b_separate _ _ _ Hb)|by apply Ht]. }
  exists b'. split; [done|]. eapply between_next; [done|by rewrite Hm|done].
Qed.

Fixpoint calls (ds : list piece) (b : boot) : run boot :=
  match ds with [] => inr b | d :: ds => let! b := call d b in calls ds b end.

Lemma calls_app ds ds' b : calls (ds ++ ds') b = let! b := calls ds b in calls ds' b.
Proof. revert b. induction ds as [|d ds IH]; intros b; cbn; [done|]. destruct (call d b); cbn; auto. Qed.

Lemma calls_options ds b :
  Forall (fun d => is_opt d = true) ds -> parse_args (unknown_bootoption e) (tok <$> ds) b = calls ds b.
Proof.
  intros H. revert b. induction H as [|d ds Hd _ IH]; intros b; cbn; [done|]. unfold call. rewrite Hd.
  destruct (unknown_bootoption e (tok d) b); [done|]. cbn. apply IH.
Qed.
Lemma calls_init_args ds b :
  Forall (fun d => is_opt d = false) ds -> parse_args (set_init_arg e) (tok <$> ds) b = calls ds b.
Proof.
  intros H. revert b. induction H as [|d ds Hd _ IH]; intros b; cbn; [done|]. unfold call. rewrite Hd.
  destruct (set_init_arg e (tok d) b); [done|]. cbn. apply IH.
Qed.

(** ** Refinement *)

(** No [init=] or [rdinit=] comes when the arguments kept so far fill the array. *)
Definition resets_in_time (a : list (list Z) * list (list Z * list Z)) (ds : list piece) : Prop :=
  forall ds1 d ds2, ds = ds1 ++ d :: ds2 -> verdict_of d = Reset ->
    Z.of_nat (length (foldl spec_step a ds1).1) < LIMIT.

Lemma store_good d ds m b a :
  piece_ok m d -> good b ds a -> holds (bmem b) ds (param (tok d)) (text d) ->
  exists b', store d b = inr b' /\ bmem b' = bmem b /\
    (panic_later b' = None ->
     good b' ds (if is_env d then (a.1, env_set (name d) (default [] (value d)) a.2) else (a.1 ++ [text d], a.2))).
Proof.
  intros (Hn & Heq & q & _ & _ & Hv) Hg Hh. unfold store.
  destruct (good_arg b ds a _ _ Hg Hh) as (i & full & H1 & H2 & H3).
  unfold is_env in *. destruct (is_opt d); cbn [negb andb].
  2: { unfold store_init_arg. rewrite H2. cbn [err_bind]. destruct full; [by eexists|].
       rewrite Nat2Z.id. eexists. split_and!; [done..|auto]. }
  destruct (value d) as [v|] eqn:Ev.
  2: { rewrite bool_decide_eq_false_2 by (by intros [? ?]). unfold store_arg. rewrite H1. cbn [err_bind].
       rewrite Nat2Z.id. destruct full; eexists; (split_and!; [done..|]); [done|auto]. }
  rewrite bool_decide_eq_true_2 by (by eexists). unfold store_env, text in *. rewrite Ev in *.
  destruct (good_env b ds a _ (name d) v Hg Heq Hh) as (j & late & Hs & Hl).
  unfold env_text in Hs. cbn [fst snd] in Hs. rewrite Hs. cbn [err_bind]. rewrite Nat2Z.id.
  destruct late; eexists; (split_and!; [done..|]); [done|auto].
Qed.

Lemma good_call d ds b a :
  between (fun b ds => good b ds a) b (d :: ds) ->
  (verdict_of d = Reset -> Z.of_nat (length a.1) < LIMIT) ->
  exists b', call d b = inr b' /\ between (fun b ds => good b ds (spec_step a d)) b' ds.
Proof.
  intros Hb Hlt. apply (call_between _ _ d ds b Hb). intros b1 [Hf Ea Ee Ep Ht] Hg. unfold spec_step.
  pose proof (b_pieces _ _ _ Hb) as Hp. apply Forall_cons in Hp as [Hd _].
  destruct (verdict_of d).
  - by apply (good_frame d ds b).
  - apply (good_frame d ds b (set_argv (argv_init b) b1) a) in Hg; [|done..].
    by apply (good_reset _ _ _ Hg (Hlt eq_refl)).
  - intros Hh. apply (store_good d ds (bmem b)); [done| |done]. by apply (good_frame d ds b).
Qed.

Lemma good_calls ds b a :
  between (fun b ds => good b ds a) b ds -> resets_in_time a ds ->
  exists b', calls ds b = inr b' /\ between (fun b0 ds0 => good b0 ds0 (foldl spec_step a ds)) b' [].
Proof.
  revert b a. induction ds as [|d ds IH]; intros b a Hb Hc; [exists b; split; [done|exact Hb]|]; cbn.
  destruct (good_call d ds b a Hb) as (b1 & -> & Hb1); [by apply (Hc [] d ds)|]. cbn [err_bind].
  apply IH; [done|]. intros ds1 d' ds2 -> Hd. by apply (Hc (d :: ds1) d' ds2).
Qed.

Lemma no_reset_arg d : is_opt d = false -> verdict_of d <> Reset.
Proof. unfold verdict_of. by intros ->. Qed.

(** The strings an array of pointers stands for. *)
Lemma entries_filled m ps k ss :
  Forall2 (holds m []) ps ss -> entries m (filled ps (S k)) = inr ss.
Proof.
  intros H. induction H as [|p s ps ss (Hn & Hs & _) _ IH]; [done|].
  change (filled (p :: ps) (S k)) with (Some p :: filled ps (S k)). cbn [entries].
  by rewrite (seg_str _ _ _ Hn Hs), IH.
Qed.

(** C25. On a command line on which no [init=] or [rdinit=] stands behind as many arguments
    as the array holds, the handlers return, and unless the boot is given up for too many
    of them the first program gets: the unknown options without a value from the last
    [init=] or [rdinit=] on, then the arguments behind the dashes, then those of the
    bootconfig, each with its value put back; and [HOME], [TERM] and the unknown options
    with a value, each name once and with the last value given.  (On the other command
    lines an argument from before [init=] can be passed on: [argument_survives_init].  The
    order of the last two groups is the one of the calls in [start_kernel], the opposite
    of the one in the comment of [setup_command_line].) *)
Theorem boot_args_refine opts inits extra b a :
  Forall (fun d => is_opt d = true) opts -> Forall (fun d => is_opt d = false) (inits ++ extra) ->
  between (fun b ds => good b ds a) b (opts ++ inits ++ extra) ->
  resets_in_time a opts ->
  exists b', (let! b := parse_args (unknown_bootoption e) (tok <$> opts) b in
              let! b := parse_args (set_init_arg e) (tok <$> inits) b in
              parse_args (set_init_arg e) (tok <$> extra) b) = inr b' /\
    (panic_later b' = None ->
     entries (bmem b') (argv_init b') =
       inr (arg0 :: (foldl spec_step a opts).1 ++ (text <$> inits) ++ (text <$> extra)) /\
     entries (bmem b') (envp_init b') = inr (env_text <$> (foldl spec_step a opts).2)).
Proof.
  intros Hopt Hinit Hb Hc. pose proof Hinit as Hi. apply Forall_app in Hi as [Hi Hx].
  assert (Hc' : resets_in_time a (opts ++ inits ++ extra)).
  { intros ds1 d ds2 Heq Hd. rewrite Forall_forall in Hinit.
    apply app_eq_inv in Heq as [(k & H1 & H2)|(k & -> & H2)].
    - destruct k as [|d' k].
      + rewrite app_nil_r in H1. subst ds1. cbn in H2. exfalso. eapply no_reset_arg; [apply (Hinit d)|done].
        rewrite <- H2. left.
      + cbn in H2. simplify_eq. by apply (Hc ds1 d' k).
    - exfalso. eapply no_reset_arg; [apply (Hinit d)|done]. rewrite H2.
      apply elem_of_app. right. left. }
  destruct (good_calls _ b a Hb Hc') as (b' & Hrun & Hb').
  exists b'. rewrite calls_options by done. rewrite calls_app in Hrun.
  split.
  - destruct (calls opts b) as [|b1]; [done|]. cbn [err_bind] in *.
    rewrite calls_init_args by done. rewrite calls_app in Hrun. destruct (calls inits b1) as [|b2]; [done|]. cbn [err_bind] in *.
    by rewrite calls_init_args.
  - intros Hn. destruct (b_good _ _ _ Hb' Hn) as [(ps & k & -> & _ & Hps) (es & j & -> & _ & Hes) _].
    rewrite (entries_filled _ _ _ _ Hps), (entries_filled _ _ _ _ Hes).
    assert (Hstep : forall ds a, Forall (fun d => is_opt d = false) ds ->
      foldl spec_step a ds = (a.1 ++ (text <$> ds), a.2)).
    { clear. intros ds a Hds. revert a. induction Hds as [|d ds Hd _ IH]; intros [x y]; cbn.
      - by rewrite app_nil_r.
      - rewrite IH. clear IH. unfold spec_step, verdict_of, is_env. rewrite Hd. cbn. by rewrite <- (app_assoc x [text d]). }
    rewrite foldl_app, Hstep by done. cbn [fst snd]. by rewrite fmap_app.
Qed.

(** ** Any number of parameters *)

(** An array of the right size that ends in NULL and points to strings. *)
Definition safe_array (m : mem) (ds : list piece) (l : list (option ptr)) : Prop :=
  Z.of_nat (length l) = LIMIT + 2 /\ l !! Z.to_nat (LIMIT + 1) = Some None /\
  forall q, Some q ∈ l -> exists s, holds m ds q s.
Definition safe (b : boot) (ds : list piece) : Prop :=
  safe_array (bmem b) ds (argv_init b) /\ safe_array (bmem b) ds (envp_init b).

(** A place found from [i] on; without overflow it is not the last one. *)
Definition found (l : list (option ptr)) (i : Z) (late : bool) (r : run (Z * bool)) : Prop :=
  exists idx late', r = inr (i + Z.of_nat idx, late') /\ (idx < length l)%nat /\
    (late = true -> late' = true) /\ (late' = false -> i <= LIMIT -> i + Z.of_nat idx <= LIMIT).

Lemma found_next x l i late late1 r :
  found l (i + 1) late1 r -> (late = true -> late1 = true) -> (i = LIMIT -> late1 = true) ->
  found (x :: l) i late r.
Proof.
  intros (idx & late' & -> & Hi & Hm & Hl) H1 H2. exists (S idx), late'. split_and!.
  - do 2 f_equal. lia.
  - cbn. lia.
  - auto.
  - intros E Hle. destruct (decide (i = LIMIT)) as [->|]; [by rewrite Hm in E; [|auto]|]. specialize (Hl E). lia.
Qed.

Lemma found_here x l i late late1 :
  (late = true -> late1 = true) -> found (x :: l) i late (inr (i, late1)).
Proof. exists 0%nat, late1. rewrite Z.add_0_r. cbn. split_and!; [done|lia|done|lia]. Qed.

Lemma arg_slot_found l i late n : l !! n = Some None -> found l i late (arg_slot e i l late).
Proof.
  revert i late n. induction l as [|[q|] l IH]; intros i late n Hn; [done| |by apply found_here].
  destruct n as [|n]; [done|]. cbn. apply (found_next _ _ _ _ (late || (i =? LIMIT))).
  - by apply (IH _ _ n).
  - by intros ->.
  - intros ->. by rewrite Z.eqb_refl, orb_true_r.
Qed.

Lemma env_slot_found m ds s k l i late n :
  (forall q, Some q ∈ l -> exists s, holds m ds q s) -> l !! n = Some None ->
  found l i late (env_slot e m s k i l late).
Proof.
  intros Hl. revert i late n. induction l as [|[q|] l IH]; intros i late n Hn; [done| |by apply found_here].
  destruct n as [|n]; [done|]. cbn. destruct (Hl q) as (t & Ht & Hs & _); [by left|].
  rewrite (seg_str _ _ _ Ht Hs). cbn. destruct (strncmp_eq s t (k + 1)); [apply found_here; by intros ->|].
  apply (found_next _ _ _ _ (late || (i =? LIMIT))).
  - apply (IH) with (n := n); [|done]. intros q' Hq. apply Hl. by right.
  - by intros ->.
  - intros ->. by rewrite Z.eqb_refl, orb_true_r.
Qed.

Lemma init_arg_slot_found l i n :
  l !! n = Some None -> i <= LIMIT ->
  exists o, init_arg_slot e i l = inr o /\ forall k, o = Some k -> i <= k <= LIMIT.
Proof.
  revert i n. induction l as [|[q|] l IH]; intros i n Hn Hi; [done| |].
  2: { exists (Some i). split; [done|]. intros k [= <-]. lia. }
  destruct n as [|n]; [done|]. cbn. destruct (Z.eqb_spec i LIMIT); [by exists None|].
  destruct (IH (i + 1) n Hn) as (o & -> & Ho); [lia|]. exists o. split; [done|]. intros k Hk.
  specialize (Ho k Hk). lia.
Qed.

Lemma safe_insert m ds l i q s :
  safe_array m ds l -> 0 <= i <= LIMIT -> holds m ds q s -> safe_array m ds (<[Z.to_nat i := Some q]> l).
Proof.
  intros (Hl & Hlast & Hq) Hi Hh. split_and!.
  - by rewrite length_insert.
  - rewrite list_lookup_insert_ne by lia. done.
  - intros q' Hin. apply list_elem_of_lookup in Hin as [k Hk].
    apply list_lookup_insert_Some in Hk as [(_ & [= <-] & _)|[_ Hk]]; [by exists s|].
    apply Hq. apply list_elem_of_lookup. by exists k.
Qed.

Lemma safe_frame d ds m m' l :
  frame (param (tok d)) (ext d) m m' -> safe_array m (d :: ds) l -> safe_array m' ds l.
Proof.
  intros Hf (Hl & Hlast & Hq). split_and!; try done. intros q Hin. destruct (Hq q Hin) as [s Hs].
  exists s. by eapply holds_frame.
Qed.

Lemma safe_clear m ds l : safe_array m ds l -> safe_array m ds (clear_args e l).
Proof.
  intros (Hl & Hlast & Hq). unfold clear_args. split_and!.
  - by rewrite length_imap.
  - rewrite list_lookup_imap, Hlast. cbn. by destruct (_ && _).
  - intros q Hin. apply list_elem_of_lookup in Hin as [k Hk]. rewrite list_lookup_imap in Hk.
    destruct (l !! k) as [x|] eqn:E; [|done]. cbn in Hk. apply Hq, list_elem_of_lookup. exists k.
    destruct (_ && _); naive_solver.
Qed.

Lemma store_safe d ds b :
  safe b ds -> holds (bmem b) ds (param (tok d)) (text d) ->
  exists b', store d b = inr b' /\ bmem b' = bmem b /\ (panic_later b' = None -> safe b' ds).
Proof.
  intros [Ha Hen] Hh. pose proof (limit_pos e He). unfold store. destruct (negb (is_opt d)); [|destruct (is_env d)].
  - unfold store_init_arg. destruct (init_arg_slot_found (argv_init b) 0 _ (proj1 (proj2 Ha))) as (o & -> & Ho); [lia|].
    cbn [err_bind]. destruct o as [i|]; [|by eexists].
    eexists. split_and!; [done|done|]. intros _. split; [|done]. eapply safe_insert; [done|by apply Ho|done].
  - unfold store_env. destruct (env_slot_found (bmem b) ds (text d) (zlen (name d)) (envp_init b) 0 false _
      (proj2 (proj2 Hen)) (proj1 (proj2 Hen))) as (idx & late & -> & Hi & _ & Hl). cbn [err_bind].
    destruct late; [by eexists|]. eexists. split_and!; [done|done|]. intros _. split; [done|].
    eapply safe_insert; [done|specialize (Hl eq_refl); lia|done].
  - unfold store_arg. destruct (arg_slot_found (argv_init b) 0 false _ (proj1 (proj2 Ha)))
      as (idx & late & -> & Hi & _ & Hl). cbn [err_bind].
    destruct late; [by eexists|]. eexists. split_and!; [done|done|]. intros _. split; [|done].
    eapply safe_insert; [done|specialize (Hl eq_refl); lia|done].
Qed.

Lemma safe_calls ds b :
  between safe b ds -> exists b', calls ds b = inr b' /\ between safe b' [].
Proof.
  revert b. induction ds as [|d ds IH]; intros b Hb; [by exists b|]. cbn.
  destruct (call_between safe safe d ds b Hb) as (b1 & -> & Hb1); [|by apply IH].
  intros b1 [Hf Ea Ee Ep Ht] [H1 H2].
  assert (Henv : safe_array (bmem b1) ds (envp_init b1)) by (rewrite Ee; by eapply safe_frame).
  assert (Hargv : safe_array (bmem b1) ds (argv_init b)) by (by eapply safe_frame).
  destruct (verdict_of d).
  - split; [by rewrite Ea|done].
  - split; [rewrite Ea; by apply safe_clear|done].
  - intros Hh. apply store_safe; [split; [by rewrite Ea|done]|done].
Qed.

(** The arrays keep their sizes, whatever happens. *)
Definition sized (b : boot) : Prop :=
  Z.of_nat (length (argv_init b)) = LIMIT + 2 /\ Z.of_nat (length (envp_init b)) = LIMIT + 2.

Lemma store_sized d b b' : sized b -> store d b = inr b' -> bmem b' = bmem b /\ sized b'.
Proof.
  unfold store, store_init_arg, store_env, store_arg, sized. intros Hs.
  destruct (negb (is_opt d)); [|destruct (is_env d)]; intros H; apply err_bind_inr in H as (x & _ & H).
  - destruct x; injection H as <-; cbn; by rewrite ?length_insert.
  - destruct x as [i []]; injection H as <-; cbn; by rewrite ?length_insert.
  - destruct x as [i []]; injection H as <-; cbn; by rewrite ?length_insert.
Qed.

Lemma calls_sized ds b b' :
  Forall (piece_ok (bmem b)) ds -> separate ds -> sized b -> calls ds b = inr b' -> sized b'.
Proof.
  revert b. induction ds as [|d ds IH]; intros b Hp Hsep Hs; [by intros [= <-]|]. cbn. intros H.
  apply err_bind_inr in H as (b2 & Hc & Hr). pose proof Hp as Hp'. apply Forall_cons in Hp as [Hd Hp].
  destruct (call_prepared d b Hd) as (b1 & [Hf Ea Ee Ep Ht] & Hcall). rewrite Hcall in Hc.
  assert (Hs1 : sized b1).
  { unfold sized in *. rewrite Ea, Ee. destruct (verdict_of d); unfold clear_args; by rewrite ?length_imap. }
  assert (bmem b2 = bmem b1 /\ sized b2) as [Hm Hs2].
  { pose proof (store_sized d b1 b2 Hs1) as Hst.
    destruct (verdict_of d), (panic_later b); try (injection Hc as <-; done); auto. }
  destruct Hsep as [Ha Hsep]. apply (IH b2); [|done|done|done]. rewrite Hm.
  rewrite Forall_forall in *. intros d' Hd'. eapply piece_frame; [done|by apply Ha|by apply Hp].
Qed.

(** ** The message about unknown options *)

Lemma entries_safe m ds l n :
  (forall q, Some q ∈ l -> exists s, holds m ds q s) -> l !! n = Some None ->
  exists ss, entries m l = inr ss /\ Forall nonul ss.
Proof.
  intros Hl. revert n. induction l as [|[q|] l IH]; intros n Hn; [done| |by exists []; split; [|constructor]].
  destruct n as [|n]; [done|]. destruct (Hl q) as (s & Hs & Hseg & _); [by left|].
  destruct IH with (n := n) as (ss & Hss & Hall); [|done|].
  { intros q' Hq'. apply Hl. by right. }
  exists (s :: ss). cbn. rewrite (seg_str _ _ _ Hs Hseg). cbn. rewrite Hss. split; [done|by constructor].
Qed.

(** Each string behind a space. *)
Definition joined (l : list (list Z)) : list Z := l ≫= (fun s => SPACE :: s).

Lemma joined_app l k : joined (l ++ k) = joined l ++ joined k.
Proof. apply bind_app. Qed.
Lemma joined_nonul l : Forall nonul l -> nonul (joined l).
Proof.
  induction 1 as [|s l Hs _ IH]; [constructor|]. change (joined (s :: l)) with ((SPACE :: s) ++ joined l).
  apply nonul_app. split; [by constructor|done].
Qed.
Lemma joined_len l : zlen (joined l) = foldr (fun s n => n + 1 + zlen s) 0 l.
Proof.
  induction l as [|s l IH]; [done|]. change (joined (s :: l)) with ((SPACE :: s) ++ joined l).
  zlens. cbn. lia.
Qed.

Lemma put_text a c s :
  1 + zlen s <= zlen c ->
  put_buf (a ++ 0 :: c) (zlen a) (SPACE :: s ++ [0]) = Some ((a ++ SPACE :: s) ++ 0 :: zdrop (1 + zlen s) c).
Proof.
  intros Hc. pose proof (zlen_nonneg a). pose proof (zlen_nonneg s). unfold put_buf, patch.
  replace ((0 <=? zlen a) && (zlen a + zlen (SPACE :: s ++ [0]) <=? zlen (a ++ 0 :: c))) with true.
  2: { symmetry. apply andb_true_iff. split; [by apply Z.leb_le|]. apply Z.leb_le. zlens. lia. }
  f_equal. rewrite take_zlen, <- zdrop_zdrop, drop_zlen by (zlens; lia). rewrite <- app_assoc. cbn. do 2 f_equal.
  rewrite <- app_assoc. do 2 f_equal. cbn. zlens. unfold zdrop.
  by replace (Z.to_nat (1 + (zlen s + (1 + 0)))) with (S (Z.to_nat (1 + zlen s))) by lia.
Qed.

Lemma print_all_spec l a c :
  zlen (joined l) <= zlen c ->
  print_all l (zlen a) (a ++ 0 :: c) =
  inr (zlen a + zlen (joined l), (a ++ joined l) ++ 0 :: zdrop (zlen (joined l)) c).
Proof.
  revert a c. induction l as [|s l IH]; intros a c Hc.
  { cbn. by rewrite Z.add_0_r, app_nil_r. }
  change (joined (s :: l)) with ((SPACE :: s) ++ joined l) in *. pose proof (zlen_nonneg (joined l)).
  pose proof (zlen_nonneg s). cbn [print_all]. rewrite put_text by (zlens; lia). cbn [lift err_bind].
  replace (zlen a + 1 + zlen s) with (zlen (a ++ SPACE :: s)) by (zlens; lia).
  rewrite IH by (rewrite zlen_drop by lia; zlens; lia).
  rewrite zdrop_zdrop by lia.
  replace (1 + zlen s + zlen (joined l)) with (zlen ((SPACE :: s) ++ joined l)) by (zlens; lia).
  rewrite <- (app_assoc a). do 2 f_equal. zlens. lia.
Qed.

Lemma print_spec b :
  sized b -> (panic_later b = None -> safe b []) ->
  exists o, print_unknown_bootoptions e b = inr o /\
    forall msg, o = Some msg -> exists args envs, entries (bmem b) (drop 1 (argv_init b)) = inr args /\
      entries (bmem b) (drop 2 (envp_init b)) = inr envs /\ SPACE :: msg = joined (args ++ envs).
Proof.
  intros [Hla Hle] Hsafe. pose proof (limit_pos e He) as HL. unfold print_unknown_bootoptions.
  destruct (lookup_lt_is_Some_2 (argv_init b) 1) as [a1 E1]; [lia|].
  destruct (lookup_lt_is_Some_2 (envp_init b) 2) as [e2 E2]; [lia|].
  rewrite E1, E2. cbn [lift err_bind]. destruct (panic_later b) eqn:Ep.
  { rewrite bool_decide_eq_true_2 by (by eexists). cbn. by exists None. }
  destruct (Hsafe eq_refl) as [(_ & La & Ha) (_ & Le & Hen)].
  rewrite (bool_decide_eq_false_2 (is_Some None)) by (by intros [? ?]). cbn [orb].
  destruct (bool_decide (a1 = None) && bool_decide (e2 = None)) eqn:Enone; [by exists None|].
  destruct (entries_safe (bmem b) [] (drop 1 (argv_init b)) (Z.to_nat (LIMIT + 1) - 1)) as (args & Ha' & Hna).
  { intros q Hq. apply Ha. rewrite <- (take_drop 1). apply elem_of_app. by right. }
  { rewrite lookup_drop. by replace (1 + _)%nat with (Z.to_nat (LIMIT + 1)) by lia. }
  destruct (entries_safe (bmem b) [] (drop 2 (envp_init b)) (Z.to_nat (LIMIT + 1) - 2)) as (envs & He' & Hne).
  { intros q Hq. apply Hen. rewrite <- (take_drop 2). apply elem_of_app. by right. }
  { rewrite lookup_drop. by replace (2 + _)%nat with (Z.to_nat (LIMIT + 1)) by lia. }
  rewrite Ha', He', (memblock_works e He). cbn [err_bind negb]. rewrite <- joined_len, joined_app.
  pose proof (zlen_nonneg (joined args)). pose proof (zlen_nonneg (joined envs)).
  set (n := Z.to_nat (zlen (joined args ++ joined envs))).
  replace (Z.to_nat (1 + zlen (joined args ++ joined envs))) with (S n) by (unfold n; zlens; lia). cbn [replicate].
  assert (Hn : zlen (replicate n 0) = zlen (joined args) + zlen (joined envs)).
  { unfold zlen at 1. rewrite length_replicate. unfold n. zlens. lia. }
  pose proof (print_all_spec args [] (replicate n 0)) as Hpa. cbn [app zlen] in Hpa.
  change (zlen []) with 0 in Hpa. rewrite Hpa by lia. cbn [err_bind]. rewrite Z.add_0_l.
  rewrite print_all_spec by (rewrite zlen_drop by lia; lia). cbn [err_bind].
  assert (Hj : exists s r, args ++ envs = s :: r).
  { apply andb_false_iff in Enone as [Hx|Hx]; apply bool_decide_eq_false in Hx.
    - destruct a1 as [q|]; [|done]. destruct (argv_init b) as [|x [|y l]]; [done..|]. injection E1 as ->.
      cbn in Ha'. apply err_bind_inr in Ha' as (s & _ & Ha'). apply err_bind_inr in Ha' as (r & _ & [= <-]).
      by eexists _, _.
    - destruct e2 as [q|]; [|done]. destruct (envp_init b) as [|x [|y [|z l]]]; [done..|]. injection E2 as ->.
      cbn in He'. apply err_bind_inr in He' as (s & _ & He'). apply err_bind_inr in He' as (r & _ & [= <-]).
      destruct args; by eexists _, _. }
  destruct Hj as (s & r & Hj). rewrite <- joined_app, Hj in *. change (joined (s :: r)) with (SPACE :: s ++ joined r).
  cbn [app]. unfold zdrop at 1. change (Z.to_nat 1) with 1%nat. cbn [drop].
  assert (Hnul : nonul (joined (args ++ envs))) by (apply joined_nonul, Forall_app; done).
  rewrite Hj in Hnul. apply (Forall_cons_1 _ SPACE) in Hnul as [_ Hnul].
  rewrite drop_0, cstr_spec by exact Hnul. cbn [lift err_bind]. eexists. split; [done|]. intros msg [= <-].
  exists args, envs. by rewrite Hj.
Qed.

Lemma filled_safe m ds ps k ss :
  Z.of_nat (length (filled ps (S k))) = LIMIT + 2 -> Forall2 (holds m ds) ps ss -> safe_array m ds (filled ps (S k)).
Proof.
  intros Hl H. split_and!; [done| |].
  - rewrite length_filled in Hl. unfold filled. rewrite lookup_app_r; rewrite length_fmap; [|lia].
    apply lookup_replicate_2. lia.
  - intros q Hq. unfold filled in Hq. apply elem_of_app in Hq as [Hq|Hq].
    + apply list_elem_of_fmap in Hq as (p & [= <-] & Hp). apply list_elem_of_lookup in Hp as [i Hi].
      destruct (Forall2_lookup_l _ _ _ _ _ H Hi) as (s & _ & Hs). by exists s.
    + by apply elem_of_replicate in Hq as [? _].
Qed.
Lemma good_safe b ds a : good b ds a -> safe b ds.
Proof.
  intros [(ps & k & Ea & Hl & Hp) (es & j & Ee & Hl' & He') _].
  split; [rewrite Ea in *|rewrite Ee in *]; by eapply filled_safe.
Qed.

Lemma separate_app ds ds' : separate (ds ++ ds') -> separate ds.
Proof.
  induction ds as [|d ds IH]; [done|]. cbn. intros [Ha Hs]. apply Forall_app in Ha as [Ha _]. auto.
Qed.
Lemma safe_fewer ds ds' b : safe b (ds ++ ds') -> safe b ds.
Proof.
  unfold safe, safe_array. intros [(H1 & H2 & H3) (H4 & H5 & H6)].
  assert (Hh : forall q s, holds (bmem b) (ds ++ ds') q s -> holds (bmem b) ds q s).
  { intros q s (? & ? & Hf). apply Forall_app in Hf as [? _]. by split_and!. }
  split_and!; try done; intros q Hq; [destruct (H3 q Hq)|destruct (H6 q Hq)]; eauto.
Qed.

(** C26. Whatever the command line holds, the handlers stay inside their two arrays and the
    parameters they are given, and the list of unknown options fits the buffer that was
    counted for it; unless the boot is given up for too many strings, both arrays end
    with NULL in the end. *)
Theorem boot_arrays_safe opts inits extra b :
  Forall (fun d => is_opt d = true) opts -> Forall (fun d => is_opt d = false) (inits ++ extra) ->
  between safe b (opts ++ inits ++ extra) -> sized b ->
  exists b1 o b', parse_args (unknown_bootoption e) (tok <$> opts) b = inr b1 /\
    print_unknown_bootoptions e b1 = inr o /\
    (let! b2 := parse_args (set_init_arg e) (tok <$> inits) b1 in
     parse_args (set_init_arg e) (tok <$> extra) b2) = inr b' /\
    (panic_later b' = None -> exists args envs,
       entries (bmem b') (argv_init b') = inr args /\ entries (bmem b') (envp_init b') = inr envs).
Proof.
  intros Hopt Hinit Hb Hs. apply Forall_app in Hinit as [Hi Hx].
  destruct (safe_calls _ b Hb) as (b' & Hrun & Hb'). rewrite calls_app in Hrun.
  destruct (safe_calls opts b) as (b1 & Hrun1 & Hb1).
  { destruct Hb as [Hp Hsep Hg]. apply Forall_app in Hp as [Hp _]. split; [done|by eapply separate_app|].
    intros Hn. by eapply safe_fewer, Hg. }
  rewrite Hrun1 in Hrun. cbn [err_bind] in Hrun.
  assert (Hs1 : sized b1).
  { eapply calls_sized; [| |exact Hs|exact Hrun1].
    - destruct Hb as [Hp _ _]. by apply Forall_app in Hp as [Hp _].
    - destruct Hb as [_ Hsep _]. by eapply separate_app. }
  destruct (print_spec b1 Hs1 (b_good _ _ _ Hb1)) as (o & Hpr & _).
  exists b1, o, b'. rewrite calls_options by done. split_and!; [done|done| |].
  - rewrite calls_init_args by done. rewrite calls_app in Hrun. destruct (calls inits b1) as [|b2]; [done|].
    cbn [err_bind] in *. by rewrite calls_init_args.
  - intros Hn. destruct (b_good _ _ _ Hb' Hn) as [(_ & La & Ha) (_ & Le & Hen)].
    destruct (entries_safe _ _ _ _ Ha La) as (args & -> & _), (entries_safe _ _ _ _ Hen Le) as (envs & -> & _).
    by eexists _, _.
Qed.
End args.
End BootArgsSpec.

(** ** A small command line *)
Module BootDemo.
Import BootArgs BootArgsSpec.

(** A table with [init=] only; names are compared as they are. *)
Definition init_eq : list Z := [105; 110; 105; 116; EQUALS].
Definition demo_env (limit : Z) : boot_env := {|
  CONFIG_INIT_ENV_ARG_LIMIT := limit; CONFIG_CONSOLE_LOGLEVEL_QUIET := 4;
  setup_table := [Obs init_eq (Some Init_setup) false];
  parameqn s t n := bool_decide (ztake n s = t); parameq s t := bool_decide (s = t);
  sysctl_is_alias _ := false; foreign_setup _ _ := 0; get_option _ := None; kstrtobool _ := inr true;
  arch_parse_debug_rodata _ := false; memblock_ok := true |}.

Lemma demo_env_good limit : 1 <= limit -> env_ok (demo_env limit).
Proof.
  intros Hl. split; [done|done|]. intros s t H. apply bool_decide_eq_true in H.
  assert (Hz : zlen (ztake (zlen t) s) = zlen t) by (by rewrite H).
  rewrite zlen_take in Hz by apply zlen_nonneg. lia.
Qed.

(** The strings of the file in block 0: [init], [HOME=/] and [TERM=linux]. *)
Definition HOME : list Z := [72; 79; 77; 69].
Definition TERM : list Z := [84; 69; 82; 77].
Definition linux : list Z := [108; 105; 110; 117; 120].
Definition literals : list Z :=
  arg0 ++ [0] ++ (HOME ++ [EQUALS; 47]) ++ [0] ++ (TERM ++ [EQUALS] ++ linux) ++ [0].

(** [z init=s a X=1 TERM="vt" -- b] after [parse_args]. *)
Definition static_line : list Z :=
  [122; 0; 105; 110; 105; 116; 0; 115; 0; 97; 0; 88; 0; 49; 0] ++ TERM ++ [0; QUOTE; 118; 116; 0; 98; 0].
Definition demo_boot (limit : nat) (line : list Z) : boot :=
  Boot (<[0 := literals]> {[ 1 := line ]}) (filled [Ptr 0 0] (S limit)) (filled [Ptr 0 5; Ptr 0 12] limit)
       None None None None false 7 true false [] false.

Definition demo_opts : list piece := [
  Piece (Tok (Ptr 1 0) None) [122] None 2 true;
  Piece (Tok (Ptr 1 2) (Some (Ptr 1 7))) [105; 110; 105; 116] (Some [115]) 7 true;
  Piece (Tok (Ptr 1 9) None) [97] None 2 true;
  Piece (Tok (Ptr 1 11) (Some (Ptr 1 13))) [88] (Some [49]) 4 true;
  Piece (Tok (Ptr 1 15) (Some (Ptr 1 21))) TERM (Some [118; 116]) 9 true].
Definition demo_inits : list piece := [Piece (Tok (Ptr 1 24) None) [98] None 2 false].

Lemma seg_bytes m p bs : bytes m p (zlen bs) = Some bs -> seg m p bs.
Proof.
  unfold bytes. destruct (rest m p) as [l|] eqn:E; [|done]. cbn. destruct (Z.leb_spec (zlen bs) (zlen l)); [|done].
  intros [= Ht]. apply rest_seg in E. destruct (split_at_z l (zlen bs)) as (a & c & -> & Ha).
  { split; [apply zlen_nonneg|done]. }
  rewrite <- Ha, take_zlen in Ht. subst a. by apply seg_app in E as [? _].
Qed.

#[local] Instance apart_dec p n q k : Decision (apart p n q k).
Proof. unfold apart. apply _. Defined.

(** A parameter and a stored string, checked by evaluation. *)
Definition piece_b (m : mem) (d : piece) (q : option Z) : bool :=
  bool_decide (nonul (name d)) && bool_decide (EQUALS ∉ name d)
  && bool_decide (bytes m (param (tok d)) (zlen (layout d q)) = Some (layout d q))
  && (ext d =? zlen (layout d q))
  && match value d with
     | None => bool_decide (val (tok d) = None)
     | Some v => bool_decide (nonul v) &&
         bool_decide (val (tok d) = Some (padd (param (tok d)) (zlen (name d) + match q with Some _ => 2 | None => 1 end)))
     end.
Lemma piece_b_ok m d q : piece_b m d q = true -> piece_ok m d.
Proof.
  unfold piece_b. intros H. split_bools. split_and!.
  - by eapply bool_decide_eq_true.
  - by eapply bool_decide_eq_true.
  - exists q. split_and!; [by eapply seg_bytes, bool_decide_eq_true|by apply Z.eqb_eq|].
    destruct (value d); split_bools; [split|]; by eapply bool_decide_eq_true.
Qed.

Definition holds_b (m : mem) (ds : list piece) (q : ptr) (s : list Z) : bool :=
  bool_decide (nonul s) && bool_decide (bytes m q (zlen (s ++ [0])) = Some (s ++ [0]))
  && bool_decide (Forall (fun d => apart (param (tok d)) (ext d) q (zlen s + 1)) ds).
Lemma holds_b_ok m ds q s : holds_b m ds q s = true -> holds m ds q s.
Proof.
  unfold holds_b. intros H. split_bools. split_and!; [|apply seg_bytes|]; by eapply bool_decide_eq_true.
Qed.

#[local] Instance separate_dec ds : Decision (separate ds).
Proof. induction ds as [|d ds IH]; cbn; [apply _|]. unfold apart_pieces. apply _. Defined.

Definition demo_pieces : list piece := demo_opts ++ demo_inits ++ [].
Lemma demo_pieces_ok : Forall (piece_ok (bmem (demo_boot 4 static_line))) demo_pieces /\ separate demo_pieces.
Proof.
  split; [|by apply (bool_decide_unpack _); vm_compute].
  repeat apply Forall_cons_2; [..|constructor].
  1,2,3,4,6: apply (piece_b_ok _ _ None); by vm_compute.
  apply (piece_b_ok _ _ (Some QUOTE)). by vm_compute.
Qed.

Definition env0 : list (list Z * list Z) := [(HOME, [47]); (TERM, linux)].
Lemma demo_good : good (demo_env 4) (demo_boot 4 static_line) demo_pieces ([], env0).
Proof.
  split.
  - exists [Ptr 0 0], 4%nat. split_and!; [done|done|].
    repeat apply Forall2_cons_2; [..|constructor]; apply holds_b_ok; by vm_compute.
  - exists [Ptr 0 5; Ptr 0 12], 3%nat. split_and!; [done|done|].
    repeat apply Forall2_cons_2; [..|constructor]; apply holds_b_ok; by vm_compute.
  - by apply (bool_decide_unpack _); vm_compute.
Qed.

Definition demo_run : run boot :=
  let! b := parse_args (unknown_bootoption (demo_env 4)) (tok <$> demo_opts) (demo_boot 4 static_line) in
  let! b := parse_args (set_init_arg (demo_env 4)) (tok <$> demo_inits) b in
  parse_args (set_init_arg (demo_env 4)) (tok <$> []) b.

Lemma demo_in_time : resets_in_time (demo_env 4) ([], env0) demo_opts.
Proof.
  intros ds1 d ds2 Heq Hd.
  do 5 (destruct ds1 as [|? ds1]; cbn in Heq; [injection Heq as <- <-; by vm_compute in Hd |- *
    |injection Heq as <- Heq]). by destruct ds1.
Qed.

Lemma boot_args_refine_witness :
  exists b', demo_run = inr b' /\ entries (bmem b') (argv_init b') = inr [arg0; [97]; [98]] /\
    entries (bmem b') (envp_init b') =
      inr [HOME ++ [EQUALS; 47]; TERM ++ [EQUALS; 118; 116]; [88; EQUALS; 49]].
Proof.
  destruct (boot_args_refine (demo_env 4) (demo_env_good 4 ltac:(lia)) demo_opts demo_inits []
    (demo_boot 4 static_line) ([], env0)) as (b' & Hrun & H).
  - by apply (bool_decide_unpack _); vm_compute.
  - by apply (bool_decide_unpack _); vm_compute.
  - split; [apply demo_pieces_ok|apply demo_pieces_ok|intros _; apply demo_good].
  - apply demo_in_time.
  - exists b'. split; [exact Hrun|]. apply H.
    assert (Hp : match demo_run with inr b => panic_later b | inl _ => Some Too_many_env end = None)
      by (vm_compute; reflexivity).
    unfold demo_run in Hp. rewrite Hrun in Hp. exact Hp.
Defined.

Lemma boot_arrays_safe_witness :
  exists b1 o, parse_args (unknown_bootoption (demo_env 4)) (tok <$> demo_opts) (demo_boot 4 static_line) = inr b1 /\
    print_unknown_bootoptions (demo_env 4) b1 = inr o.
Proof.
  destruct (boot_arrays_safe (demo_env 4) (demo_env_good 4 ltac:(lia)) demo_opts demo_inits []
    (demo_boot 4 static_line)) as (b1 & o & b' & H1 & H2 & _).
  - by apply (bool_decide_unpack _); vm_compute.
  - by apply (bool_decide_unpack _); vm_compute.
  - split; [apply demo_pieces_ok|apply demo_pieces_ok|intros _; eapply good_safe, demo_good].
  - by split.
  - by exists b1, o.
Defined.

(** [a b init=s c] with room for two arguments: [init_setup] clears the places before the
    last one only, so that [b], given before [init=], comes after [c]. *)
Definition late_line : list Z := [97; 0; 98; 0; 105; 110; 105; 116; 0; 115; 0; 99; 0].
Definition late_tokens : list token :=
  [Tok (Ptr 1 0) None; Tok (Ptr 1 2) None; Tok (Ptr 1 4) (Some (Ptr 1 9)); Tok (Ptr 1 11) None].

(** An argument from before [init=] can reach the first program: the loop that forgets the
    arguments stops one place early. *)
Theorem argument_survives_init :
  (let! b := parse_args (unknown_bootoption (demo_env 2)) late_tokens (demo_boot 2 late_line) in
   let! args := entries (bmem b) (argv_init b) in inr (args, execute_command b, panic_later b)) =
  inr ([arg0; [99]; [98]], Some (Ptr 1 9), None).
Proof. vm_compute. reflexivity. Qed.
End BootDemo.
