(* ===== verification/BootConfigSpec.v ===== *)
(** * Correctness of the command lines

    The buffers of [setup_command_line] and [xbc_make_cmdline] hold exactly what is
    copied into them, and the bootconfig that is cut off a ramdisk lies inside it. *)
From S2P Require Import Prelude CMem BootArgs BootConfig.

Module BootConfigSpec.
Import BootArgs BootConfig.

(** ** Buffers *)

(** Writing [bs] where a buffer has room for it. *)
Lemma put_buf_room a c bs :
  zlen bs <= zlen c -> put_buf (a ++ c) (zlen a) bs = Some (a ++ bs ++ zdrop (zlen bs) c).
Proof.
  intros Hc. pose proof (zlen_nonneg a). pose proof (zlen_nonneg bs). unfold put_buf, patch.
  replace ((0 <=? zlen a) && (zlen a + zlen bs <=? zlen (a ++ c))) with true.
  2: { symmetry. apply andb_true_iff. split; apply Z.leb_le; zlens; lia. }
  rewrite take_zlen. do 3 f_equal. unfold zdrop, zlen in *.
  replace (Z.to_nat (Z.of_nat (length a) + Z.of_nat (length bs))) with (length a + length bs)%nat by lia.
  rewrite Nat2Z.id. rewrite drop_app_ge by lia. f_equal. lia.
Qed.

Lemma strcpy_room a c s :
  zlen s + 1 <= zlen c -> strcpy_buf (a ++ c) (zlen a) s = inr (a ++ s ++ 0 :: zdrop (zlen s + 1) c).
Proof.
  intros Hc. unfold strcpy_buf. rewrite put_buf_room by (zlens; lia). cbn.
  replace (zlen (s ++ [0])) with (zlen s + 1) by (zlens; lia). by rewrite <- app_assoc.
Qed.

Lemma zlen_replicate n (x : Z) : 0 <= n -> zlen (replicate (Z.to_nat n) x) = n.
Proof. intros. unfold zlen. rewrite length_replicate. lia. Qed.

Lemma ztake_zdrop n (l : list Z) : ztake n l ++ zdrop n l = l.
Proof. apply take_drop. Qed.

Section config.
Context (e : boot_env) (c : config_env).
Context (Hmem : memblock_ok e = true).

(** ** [setup_command_line] *)

Definition or_empty (o : option (list Z)) : list Z := default [] o.

(** The line for [/proc]: the additional parameters first, and the additional arguments
    behind the dashes, or behind dashes of their own. *)
Definition saved_spec (l : lines) (boot : list Z) : list Z :=
  or_empty (extra_command_line l) ++
  match extra_init_args l with
  | None => boot
  | Some i =>
      if initargs_offs l =? 0 then boot ++ str_dashes ++ i
      else ztake (initargs_offs l) boot ++ i ++ zdrop (initargs_offs l - 1) boot
  end.

(** The first two copies into a buffer of zeros. *)
Definition first_copy (x : option (list Z)) (buf : list Z) : run (list Z) :=
  match x with Some x => if negb (zlen x =? 0) then strcpy_buf buf 0 x else inr buf | None => inr buf end.

Lemma first_copies (x : option (list Z)) n s :
  zlen (or_empty x) + zlen s + 1 <= n ->
  exists buf k, first_copy x (replicate (Z.to_nat n) 0) = inr buf /\
    strcpy_buf buf (zlen (or_empty x)) s = inr ((or_empty x ++ s) ++ 0 :: k) /\
    zlen k = n - zlen (or_empty x) - zlen s - 1.
Proof.
  intros Hn. pose proof (zlen_nonneg s). pose proof (zlen_nonneg (or_empty x)).
  pose proof (zlen_replicate n 0) as Hz. set (z := replicate (Z.to_nat n) 0) in *.
  destruct (decide (zlen (or_empty x) = 0)) as [E|E].
  - exists z, (zdrop (zlen s + 1) z). rewrite E. split_and!.
    + destruct x as [x|]; [|done]. cbn in *. by rewrite E.
    + apply zlen_0 in E. rewrite E. pose proof (strcpy_room [] z s) as Hs. cbn [app] in *.
      apply Hs. lia.
    + rewrite zlen_drop by lia. lia.
  - destruct x as [x|]; [|done]. cbn [or_empty default from_option id first_copy] in *.
    apply Z.eqb_neq in E. rewrite E. cbn [negb].
    pose proof (strcpy_room [] z x) as H1. cbn [app] in H1. change (zlen []) with 0 in H1.
    rewrite H1 by lia. eexists _, _. split; [done|].
    rewrite strcpy_room by (rewrite zlen_cons, zlen_drop by lia; lia). split; [by rewrite <- app_assoc|].
    rewrite zlen_drop, zlen_cons, zlen_drop by lia. lia.
Qed.

(** The additional arguments, before those that were behind the dashes. *)
Lemma copy_after_dashes x boot i k offs :
  nonul boot -> 1 <= offs <= zlen boot -> zlen k = zlen i + 4 ->
  exists k', (let! saved := strcpy_buf ((x ++ boot) ++ 0 :: k) (zlen x + offs) i in
     let! tail := lift (cstr (zdrop (offs - 1) (boot ++ [0]))) in
     strcpy_buf saved (zlen x + offs + zlen i) tail) =
    inr ((x ++ ztake offs boot ++ i ++ zdrop (offs - 1) boot) ++ 0 :: k').
Proof.
  intros Hb Ho Hk. pose proof (zlen_nonneg i).
  assert (Hcut : (x ++ boot) ++ 0 :: k = (x ++ ztake offs boot) ++ zdrop offs boot ++ 0 :: k).
  { rewrite <- !app_assoc. f_equal. by rewrite (app_assoc (ztake offs boot)), ztake_zdrop. }
  assert (Hla : zlen (x ++ ztake offs boot) = zlen x + offs) by (rewrite zlen_app, zlen_take by lia; lia).
  rewrite Hcut, <- Hla, strcpy_room by (rewrite zlen_app, zlen_drop, zlen_cons by lia; lia). cbn [err_bind].
  assert (Htail : cstr (zdrop (offs - 1) (boot ++ [0])) = Some (zdrop (offs - 1) boot)).
  { unfold zdrop. rewrite drop_app_le by (unfold zlen in *; lia). apply cstr_spec, Forall_drop, Hb. }
  rewrite Htail. cbn [lift err_bind]. rewrite <- zlen_app, app_assoc, strcpy_room.
  2: { rewrite zlen_cons, !zlen_drop by lia. rewrite zlen_app, zlen_drop, zlen_cons by lia. lia. }
  eexists. by rewrite <- !app_assoc.
Qed.

(** The additional arguments behind dashes of their own. *)
Lemma copy_own_dashes x i k :
  nonul x -> zlen k = zlen i + 4 ->
  exists k', (let! s := lift (cstr (x ++ 0 :: k)) in
     let! saved := strcpy_buf (x ++ 0 :: k) (zlen s) str_dashes in
     strcpy_buf saved (zlen s + 4) i) = inr ((x ++ str_dashes ++ i) ++ 0 :: k').
Proof.
  intros Hx Hk. pose proof (zlen_nonneg i). rewrite cstr_spec by done. cbn [lift err_bind].
  rewrite strcpy_room by (rewrite zlen_cons; change (zlen str_dashes) with 4; lia). cbn [err_bind].
  replace (zlen x + 4) with (zlen (x ++ str_dashes)) by (rewrite zlen_app; done).
  rewrite app_assoc, strcpy_room.
  2: { rewrite zlen_cons, zlen_drop, zlen_cons; change (zlen str_dashes) with 4; lia. }
  eexists. by rewrite <- !app_assoc.
Qed.

(** [setup_command_line] never writes outside its two buffers, and leaves in them the
    line for [/proc], with the arguments of the bootconfig in front of those behind the
    dashes, and the line to be parsed. *)
Theorem setup_command_line_spec l boot line :
  nonul boot -> nonul line -> nonul (or_empty (extra_command_line l)) -> nonul (or_empty (extra_init_args l)) ->
  zlen line <= zlen boot -> 0 <= initargs_offs l <= zlen boot ->
  exists l', setup_command_line e boot line l = inr l' /\
    cstr (saved_command_line l') = Some (saved_spec l boot) /\
    cstr (static_command_line l') = Some (or_empty (extra_command_line l) ++ line).
Proof.
  intros Hb Hl Hx Hi Hle Hoff. unfold setup_command_line. rewrite Hmem. cbn [negb].
  set (xlen := match extra_command_line l with Some x => zlen x | None => 0 end).
  assert (Ex : xlen = zlen (or_empty (extra_command_line l))) by (unfold xlen; by destruct (extra_command_line l)).
  set (ilen := match extra_init_args l with Some i => zlen i + 4 | None => 0 end).
  set (len := xlen + zlen boot + 1).
  assert (Hilen : 0 <= ilen) by (unfold ilen; destruct (extra_init_args l) as [i|]; [pose proof (zlen_nonneg i)|]; lia).
  destruct (first_copies (extra_command_line l) (len + ilen) boot) as (buf1 & k1 & F1 & S1 & K1); [lia|].
  destruct (first_copies (extra_command_line l) len line) as (buf2 & k2 & F2 & S2 & K2); [lia|].
  assert (Hpair : match extra_command_line l with
    | Some x => if negb (xlen =? 0) then
        let! saved := strcpy_buf (replicate (Z.to_nat (len + ilen)) 0) 0 x in
        let! static := strcpy_buf (replicate (Z.to_nat len) 0) 0 x in inr (saved, static)
      else inr (replicate (Z.to_nat (len + ilen)) 0, replicate (Z.to_nat len) 0)
    | None => inr (replicate (Z.to_nat (len + ilen)) 0, replicate (Z.to_nat len) 0)
    end = inr (buf1, buf2)).
  { unfold first_copy in F1, F2. rewrite Ex in *. destruct (extra_command_line l) as [x|]; [|by simplify_eq].
    cbn [or_empty default from_option id] in *. destruct (negb (zlen x =? 0)); [|by simplify_eq].
    by rewrite F1, F2. }
  rewrite Hpair. cbn [err_bind]. rewrite Ex, S1. cbn [err_bind]. rewrite S2. cbn [err_bind].
  set (x := or_empty (extra_command_line l)) in *.
  assert (Hstatic : cstr ((x ++ line) ++ 0 :: k2) = Some (x ++ line)).
  { apply cstr_spec, Forall_app. done. }
  unfold saved_spec. fold x. assert (Hxb : nonul (x ++ boot)) by (by apply Forall_app).
  destruct (extra_init_args l) as [i|] eqn:Ei; unfold ilen in *; cbn [or_empty default from_option id] in Hi.
  2: { eexists. split; [done|]. cbn. by rewrite cstr_spec. }
  pose proof (zlen_nonneg i). rewrite (proj2 (Z.eqb_neq (zlen i + 4) 0)) by lia. cbn [negb].
  destruct (Z.eqb_spec (initargs_offs l) 0) as [E0|E0]; cbn [negb].
  - destruct (copy_own_dashes (x ++ boot) i k1 Hxb) as (k' & Hc); [lia|]. rewrite Hc. cbn [err_bind].
    eexists. split; [done|]. cbn [saved_command_line static_command_line set_lines]. split; [|done]. rewrite <- (app_assoc x).
    apply cstr_spec. rewrite app_assoc. apply Forall_app. split; [done|]. apply Forall_app. split; [|done].
    by repeat constructor.
  - destruct (copy_after_dashes x boot i k1 (initargs_offs l) Hb) as (k' & Hc); [lia|lia|].
    replace (zlen x + initargs_offs l + (zlen i + 4 - 4)) with (zlen x + initargs_offs l + zlen i) by lia.
    rewrite Hc. cbn [err_bind]. eexists. split; [done|]. cbn [saved_command_line static_command_line set_lines]. split; [|done].
    apply cstr_spec. unfold nonul. rewrite !Forall_app. split_and!; [done|by apply Forall_take|done|by apply Forall_drop].
Qed.

(** ** [xbc_make_cmdline] *)

Definition node_text (key : list Z) (vs : list (list Z)) : list Z :=
  match vs with [] => key_text key | _ => vs ≫= key_value_text key end.
(** The whole text, if every key can be composed. *)
Fixpoint root_text (root : list xbc_node) : option (list Z) :=
  match root with
  | [] => Some []
  | n :: root => match compose_key n with inl _ => None | inr key => (node_text key (values n) ++.) <$> root_text root end
  end.

(** Counting: nothing is written. *)
Lemma count_values key vs pos buf : print_values key vs 0 pos buf = inr (pos + zlen (vs ≫= key_value_text key), buf) \/ pos < 0.
Proof.
  revert pos. induction vs as [|v vs IH]; intros pos; [left; cbn; by rewrite Z.add_0_r|].
  destruct (Z.ltb_spec pos 0); [by right|left]. cbn [print_values]. unfold snprintf.
  rewrite (proj2 (Z.ltb_ge pos 0)) by lia. cbn [Z.eqb err_bind]. pose proof (zlen_nonneg (key_value_text key v)).
  destruct (IH (pos + zlen (key_value_text key v))) as [->|]; [|lia]. rewrite bind_cons. zlens. do 2 f_equal. lia.
Qed.

Lemma count_nodes root pos buf :
  0 <= pos -> (forall n ret, n ∈ root -> compose_key n = inl ret -> ret < 0) ->
  exists r, print_nodes root 0 pos buf = inr (r, buf) /\
    match root_text root with Some s => r = inr (pos + zlen s) | None => exists ret, r = inl ret /\ ret < 0 end.
Proof.
  revert pos. induction root as [|n root IH]; intros pos Hp Herr; cbn.
  { eexists. split; [done|]. by rewrite Z.add_0_r. }
  destruct (compose_key n) as [ret|key] eqn:Ek.
  { eexists. split; [done|]. exists ret. split; [done|]. eapply Herr; [by left|done]. }
  assert (Hn : forall {A} (f : Z * list Z -> run A),
    (let! x := match values n with
     | [] => let! (ret, buf) := snprintf buf pos 0 (key_text key) in inr (pos + ret, buf)
     | (_ :: _) as vs => print_values key vs 0 pos buf end in f x) = f (pos + zlen (node_text key (values n)), buf)).
  { intros A f. unfold node_text. destruct (values n) as [|v vs].
    - unfold snprintf. rewrite (proj2 (Z.ltb_ge pos 0)) by lia. done.
    - destruct (count_values key (v :: vs) pos buf) as [->|]; [done|lia]. }
  rewrite Hn. pose proof (zlen_nonneg (node_text key (values n))).
  destruct (IH (pos + zlen (node_text key (values n)))) as (r & -> & Hr); [lia| |].
  { intros n' ret Hin. apply Herr. by right. }
  exists r. split; [done|]. destruct (root_text root); cbn; [|done]. subst r. f_equal. zlens. lia.
Qed.

(** Printing into a buffer with room for it. *)
Lemma snprintf_room a d s :
  zlen s < zlen d ->
  snprintf (a ++ d) (zlen a) (zlen (a ++ d)) s = inr (zlen s, a ++ s ++ 0 :: zdrop (zlen s + 1) d).
Proof.
  intros Hd. pose proof (zlen_nonneg s). unfold snprintf. zlens.
  rewrite (proj2 (Z.ltb_lt (zlen a) (zlen a + zlen d))) by lia.
  rewrite (proj2 (Z.eqb_neq (zlen a + zlen d - zlen a) 0)) by lia.
  rewrite ztake_ge by lia. rewrite put_buf_room by (zlens; lia). cbn. zlens. by rewrite <- app_assoc.
Qed.

(** [r] prints [s] behind [a] of a buffer [a ++ d] that has a NUL after it. *)
Definition printed (a d s : list Z) (r : run (Z * list Z)) : Prop :=
  exists d', r = inr (zlen (a ++ s), a ++ s ++ 0 :: d') /\ zlen (0 :: d') = zlen d - zlen s.

Lemma print_values_room key vs a d s size :
  s = vs ≫= key_value_text key -> zlen s < zlen (0 :: d) -> size = zlen (a ++ 0 :: d) ->
  printed a (0 :: d) s (print_values key vs size (zlen a) (a ++ 0 :: d)).
Proof.
  revert a d s. induction vs as [|v vs IH]; intros a d s -> Hs ->.
  { exists d. cbn. rewrite app_nil_r. split; [done|]. rewrite zlen_nil. lia. }
  rewrite bind_cons in *. set (t1 := key_value_text key v) in *. set (t2 := vs ≫= _) in *.
  pose proof (zlen_nonneg t1). pose proof (zlen_nonneg t2). cbn [print_values]. fold t1.
  rewrite snprintf_room by (zlens; lia). cbn [err_bind].
  replace (zlen a + zlen t1) with (zlen (a ++ t1)) by (zlens; lia). rewrite app_assoc.
  destruct (IH (a ++ t1) (zdrop (zlen t1 + 1) (0 :: d)) t2 eq_refl) as (d' & Hr & Hd').
  - rewrite zlen_cons, zlen_drop by lia. zlens. lia.
  - zlens. rewrite zlen_drop by lia. zlens. lia.
  - rewrite Hr. exists d'. split; [do 2 f_equal; [by rewrite app_assoc|by rewrite <- !app_assoc]|]. rewrite Hd', zlen_cons, zlen_drop by lia. zlens. lia.
Qed.

Lemma print_node_room n key a d size :
  zlen (node_text key (values n)) < zlen (0 :: d) -> size = zlen (a ++ 0 :: d) ->
  printed a (0 :: d) (node_text key (values n))
    match values n with
    | [] => let! (ret, buf) := snprintf (a ++ 0 :: d) (zlen a) size (key_text key) in inr (zlen a + ret, buf)
    | (_ :: _) as vs => print_values key vs size (zlen a) (a ++ 0 :: d)
    end.
Proof.
  intros Hs ->. unfold node_text in *. destruct (values n) as [|v vs]; [|by apply print_values_room].
  rewrite snprintf_room by done. cbn [err_bind]. pose proof (zlen_nonneg (key_text key)).
  eexists. split; [by rewrite zlen_app|]. rewrite zlen_cons, zlen_drop by lia. lia.
Qed.

Lemma print_nodes_room root a d s size :
  root_text root = Some s -> zlen s < zlen (0 :: d) -> size = zlen (a ++ 0 :: d) ->
  exists d', print_nodes root size (zlen a) (a ++ 0 :: d) = inr (inr (zlen (a ++ s)), a ++ s ++ 0 :: d').
Proof.
  revert a d s. induction root as [|n root IH]; intros a d s Ht Hs Hsz; cbn in Ht.
  { injection Ht as <-. exists d. cbn. by rewrite app_nil_r. }
  destruct (compose_key n) as [|key] eqn:Ek; [done|]. destruct (root_text root) as [t|]; [|done]. injection Ht as <-.
  pose proof (zlen_nonneg t). pose proof (zlen_nonneg (node_text key (values n))). zlens.
  destruct (print_node_room n key a d size) as (d1 & Hr & Hd1); [zlens; lia|by zlens|].
  cbn [print_nodes]. rewrite Ek, Hr. cbn [err_bind].
  destruct (IH (a ++ node_text key (values n)) d1 t eq_refl) as (d' & Hr').
  - rewrite Hd1. zlens. lia.
  - rewrite zlen_app, Hd1. zlens. lia.
  - rewrite (app_assoc a), Hr'. exists d'. rewrite !zlen_app, <- !app_assoc. do 3 f_equal. lia.
Qed.

(** The command line made of the keys of a bootconfig is the text of all its keys and
    values: the pass that prints it fits exactly the buffer that the first pass
    measured, and there is no line when a key is too long or there is no key. *)
Theorem xbc_make_cmdline_spec key :
  (forall root n ret, xbc_find_node c key = Some root -> n ∈ root -> compose_key n = inl ret -> ret < 0) ->
  (forall root s, xbc_find_node c key = Some root -> root_text root = Some s -> nonul s /\ zlen s < 2 ^ 31) ->
  xbc_make_cmdline e c key =
  inr (s ← xbc_find_node c key ≫= root_text; if zlen s =? 0 then None else Some s).
Proof.
  intros Herr Htext. unfold xbc_make_cmdline. destruct (xbc_find_node c key) as [root|]; [|done].
  cbn [mbind option_bind].
  destruct (count_nodes root 0 []) as (r & Hc & Hr); [done|intros n ret; by apply Herr|].
  unfold xbc_snprint_cmdline. rewrite Hc. cbn [err_bind]. destruct (root_text root) as [s|] eqn:Es.
  2: { destruct Hr as (ret & -> & Hneg). by rewrite (proj2 (Z.leb_le ret 0)) by lia. }
  subst r. destruct (Htext root s eq_refl Es) as [Hn Hlt]. pose proof (zlen_nonneg s).
  rewrite Z.add_0_l, i32_small by (unfold is_i32; lia). cbn [mbind option_bind].
  destruct (Z.eqb_spec (zlen s) 0) as [E|E]; [by rewrite E|].
  rewrite (proj2 (Z.leb_gt (zlen s) 0)), Hmem by lia. cbn [negb].
  replace (Z.to_nat (zlen s + 1)) with (S (Z.to_nat (zlen s))) by lia. cbn [replicate].
  destruct (print_nodes_room root [] (replicate (Z.to_nat (zlen s)) 0) s (zlen s + 1) Es) as (d' & Hp).
  - rewrite zlen_cons, zlen_replicate; lia.
  - cbn [app]. rewrite zlen_cons, zlen_replicate; lia.
  - cbn [app] in Hp. change (zlen []) with 0 in Hp. rewrite Hp. cbn [err_bind].
    rewrite i32_small by (unfold is_i32; lia).
    rewrite (proj2 (Z.ltb_ge (zlen s) 0)), Z.ltb_irrefl by lia. cbn [orb]. by rewrite cstr_spec.
Qed.

(** ** The bootconfig of a ramdisk *)

Lemma find_magic_spec n data m a :
  find_magic n data m = Some a ->
  exists k, 0 <= k < Z.of_nat n /\ a = (if k =? 0 then data else u64 (data - k)) /\
    load m a BOOTCONFIG_MAGIC_LEN = BOOTCONFIG_MAGIC.
Proof.
  revert data. induction n as [|n IH]; intros data; cbn [find_magic]; [done|].
  case_bool_decide as Hm; [intros [= <-]; exists 0; split_and!; [lia|lia|done|done]|].
  intros H. apply IH in H as (k & Hk & Ha & Hl). exists (k + 1). split_and!; [lia|lia| |done].
  rewrite (proj2 (Z.eqb_neq (k + 1) 0)) by lia. rewrite Ha.
  destruct (Z.eqb_spec k 0) as [->|]; [f_equal; lia|]. rewrite u64_sub_l. f_equal. lia.
Qed.

Definition ramdisk_ok (r : initrd) : Prop :=
  2 ^ 33 <= initrd_start r <= initrd_end r /\ initrd_end r < 2 ^ 64 /\ (forall x, 0 <= imem r x < 256).

Lemma le32_range m a : (forall x, 0 <= m x < 256) -> 0 <= le32 m a < 2 ^ 32.
Proof.
  intros Hm. unfold le32. pose proof (Hm a). pose proof (Hm (a + 1)). pose proof (Hm (a + 2)).
  pose proof (Hm (a + 3)). lia.
Qed.

(** C27. Bootconfig data that is taken from a ramdisk lies inside it: behind the data are
    its size, its checksum, the magic word and at most three bytes of padding, and the
    ramdisk now ends where the data begins.  Otherwise the ramdisk is as it was. *)
Theorem bootconfig_inside r d r' :
  ramdisk_ok r -> get_boot_config_from_initrd c r = (d, r') ->
  match d with
  | None => r' = r
  | Some (data, size) =>
      r' = Initrd (imem r) (initrd_start r) data /\ initrd_start r <= data /\ 0 <= size /\
      data + size + 8 + BOOTCONFIG_MAGIC_LEN <= initrd_end r <= data + size + 8 + BOOTCONFIG_MAGIC_LEN + 3 /\
      le32 (imem r) (data + size) = size /\
      xbc_calc_checksum c (load (imem r) data size) = le32 (imem r) (data + size + 4) /\
      load (imem r) (data + size + 8) BOOTCONFIG_MAGIC_LEN = BOOTCONFIG_MAGIC
  end.
Proof.
  intros (Hs & He & Hm). unfold get_boot_config_from_initrd.
  rewrite (proj2 (Z.eqb_neq (initrd_end r) 0)) by lia.
  destruct (find_magic 4 _ (imem r)) as [a|] eqn:Ef; [|by intros [= <- <-]].
  apply find_magic_spec in Ef as (k & Hk & Ha & Hmagic). unfold BOOTCONFIG_MAGIC_LEN in *.
  assert (Ea : a = initrd_end r - 12 - k).
  { rewrite Ha, u64_sub_l. destruct (Z.eqb_spec k 0); rewrite u64_small; lia. }
  pose proof (le32_range (imem r) (a -u 8) Hm) as Hsz.
  assert (Eh : a -u 8 = a - 8) by (apply u64_small; lia). rewrite Eh in *.
  set (size := le32 (imem r) (a - 8)) in *.
  rewrite (u64_small (a - 8 - size)) by lia. set (data := a - 8 - size).
  destruct (Z.ltb_spec data (initrd_start r)); [by intros [= <- <-]|].
  destruct (Z.eqb_spec (xbc_calc_checksum c (load (imem r) data size)) (le32 (imem r) (a - 8 + 4))) as [Ec|Ec];
    cbn [negb]; [|by intros [= <- <-]].
  intros [= <- <-]. split_and!; try done; try lia.
  - f_equal. unfold data. lia.
  - rewrite Ec. f_equal. unfold data. lia.
  - rewrite <- Hmagic. f_equal. unfold data. lia.
Qed.
End config.
End BootConfigSpec.

(** ** A small ramdisk *)
Module ConfigDemo.
Import BootArgs BootConfig BootConfigSpec.

Definition plain_env : boot_env := {|
  CONFIG_INIT_ENV_ARG_LIMIT := 32; CONFIG_CONSOLE_LOGLEVEL_QUIET := 4; setup_table := [];
  parameqn _ _ _ := false; parameq _ _ := false; sysctl_is_alias _ := false; foreign_setup _ _ := 0;
  get_option _ := None; kstrtobool _ := inr true; arch_parse_debug_rodata _ := false; memblock_ok := true |}.

(** The key [a] with the values [1] and [2], and the key [b] without one. *)
Definition demo_root : list xbc_node := [Node (inr [97]) [[49]; [50]]; Node (inr [98]) []].
Definition demo_config : config_env := {|
  xbc_calc_checksum l := foldr Z.add 0 l; xbc_embedded := None; xbc_init _ _ := 1;
  xbc_find_node _ := Some demo_root; CONFIG_BOOT_CONFIG_FORCE := false; cmdline_names := [str_bootconfig];
  cmdline_end := inr None; tokenise m _ := (m, [], None) |}.

Lemma xbc_make_cmdline_spec_witness :
  xbc_make_cmdline plain_env demo_config str_kernel =
  inr (Some (key_value_text [97] [49] ++ key_value_text [97] [50] ++ key_text [98])).
Proof.
  rewrite (xbc_make_cmdline_spec plain_env demo_config eq_refl str_kernel).
  - reflexivity.
  - intros root n ret [= <-] Hn. repeat (apply elem_of_cons in Hn as [->|Hn]; [done|]). by apply elem_of_nil in Hn.
  - intros root s [= <-] [= <-]. split; [|done]. by apply (bool_decide_unpack _); vm_compute.
Defined.

(** [x -- y] with the argument [z] of a bootconfig. *)
Definition demo_lines : lines :=
  Lines (Initrd (fun _ => 0) 0 0) true 5 (Some [107; 32]) (Some [122]) [] [].
Lemma setup_command_line_spec_witness :
  exists l', setup_command_line plain_env [120; 32; 45; 45; 32; 121] [120; 32; 45; 45; 32; 121] demo_lines = inr l' /\
    cstr (saved_command_line l') = Some [107; 32; 120; 32; 45; 45; 32; 122; 32; 121].
Proof.
  destruct (setup_command_line_spec plain_env eq_refl demo_lines [120; 32; 45; 45; 32; 121] [120; 32; 45; 45; 32; 121])
    as (l' & H1 & H2 & _).
  1-4: by apply (bool_decide_unpack _); vm_compute.
  - done.
  - done.
  - by exists l'.
Defined.

Definition disk_bytes : list Z := [1; 2; 3; 97; 98; 2; 0; 0; 0; 195; 0; 0; 0] ++ BOOTCONFIG_MAGIC ++ [0].
Definition demo_disk : initrd := Initrd (store (fun _ => 0) (2 ^ 33) disk_bytes) (2 ^ 33) (2 ^ 33 + 26).

Lemma demo_disk_ok : ramdisk_ok demo_disk.
Proof.
  split_and!; [done|done|done|]. intros x. cbn [imem demo_disk]. unfold store. destruct (_ && _); [|done].
  assert (H : Forall (fun b => 0 <= b < 256) disk_bytes) by (by apply (bool_decide_unpack _); vm_compute).
  destruct (disk_bytes !! Z.to_nat (x - 2 ^ 33)) as [b|] eqn:E; [|done]. by apply (Forall_lookup_1 _ _ _ _ H E).
Qed.

Lemma bootconfig_inside_witness :
  exists r', get_boot_config_from_initrd demo_config demo_disk = (Some (2 ^ 33 + 3, 2), r') /\
    initrd_end r' = 2 ^ 33 + 3.
Proof.
  destruct (get_boot_config_from_initrd demo_config demo_disk) as [d r'] eqn:E.
  assert (Hd : d = Some (2 ^ 33 + 3, 2)).
  { change d with (d, r').1. rewrite <- E. clear E. vm_compute. reflexivity. }
  subst d. exists r'. split; [reflexivity|].
  pose proof (bootconfig_inside demo_config demo_disk _ r' demo_disk_ok E) as (-> & _). reflexivity.
Defined.
End ConfigDemo.
