(* ===== verification/BootInit.v ===== *)
(** * From the initcalls to the first program ([custom/main.c])

    [do_initcalls] and what it is made of, the blacklist, the console, the search for a
    first program in [kernel_init], and the two threads of [rest_init].  What an initcall
    does to the interrupt state, what [parse_args] leaves of its line and what the file
    system answers are fields of [init_env]. *)
From S2P Require Import Prelude CMem BootArgs BootConfig.

Module BootInit.
Import BootArgs BootConfig.

Inductive system_states := SYSTEM_BOOTING | SYSTEM_SCHEDULING | SYSTEM_FREEING_INITMEM | SYSTEM_RUNNING.

(** The processor as an initcall can leave it. *)
Record cpu := Cpu { preempt_count : Z; irqs_disabled : bool }.

(** Initcalls are named by their addresses. *)
Record init_env := {
  initcalls_early : list Z; initcall_levels : list (list Z);
  initcall : Z -> cpu -> Z * cpu;
  sprint_symbol_no_offset : Z -> list Z;
  parse_level : nat -> list Z -> list Z;        (* the line after parse_args at a level *)
  kzalloc_ok : bool;
  init_eaccess : list Z -> Z; filp_open_console : bool; init_dup : nat -> bool;
  CONFIG_DEFAULT_INIT : list Z;
  kernel_execve : list Z -> list (list Z) -> list (list Z) -> Z
}.

(** [ran] are the initcalls called so far, [warned] those that left an imbalance, [seen]
    the line each level was given, [tried] the programs tried. *)
Record kernel := Kernel {
  kcpu : cpu; ran : list Z; warned : list Z; seen : list (nat * list Z);
  console_refs : Z; console_fds : Z;
  ramdisk_cmd : option (list Z); namespace_prepared : bool; execute_cmd : option (list Z);
  args : list (list Z); envs : list (list Z); tried : list (list Z)
}.

Definition set_calls c r w k := Kernel c r w (seen k) (console_refs k) (console_fds k) (ramdisk_cmd k) (namespace_prepared k) (execute_cmd k) (args k) (envs k) (tried k).
Definition set_seen s k := Kernel (kcpu k) (ran k) (warned k) s (console_refs k) (console_fds k) (ramdisk_cmd k) (namespace_prepared k) (execute_cmd k) (args k) (envs k) (tried k).
Definition set_console r f k := Kernel (kcpu k) (ran k) (warned k) (seen k) r f (ramdisk_cmd k) (namespace_prepared k) (execute_cmd k) (args k) (envs k) (tried k).
Definition no_ramdisk k := Kernel (kcpu k) (ran k) (warned k) (seen k) (console_refs k) (console_fds k) None true (execute_cmd k) (args k) (envs k) (tried k).
Definition set_tried a t k := Kernel (kcpu k) (ran k) (warned k) (seen k) (console_refs k) (console_fds k) (ramdisk_cmd k) (namespace_prepared k) (execute_cmd k) a (envs k) t.

Section init.
Context (e : init_env).

(** ** Initcalls *)

(** [strreplace(fn_name, ' ', '\0')], read as a string. *)
Fixpoint until_space (s : list Z) : list Z :=
  match s with [] => [] | c :: s => if c =? SPACE then [] else c :: until_space s end.

Definition initcall_blacklisted (blacklist : list (list Z)) (fn : Z) : bool :=
  match blacklist with
  | [] => false
  | _ => existsb (strcmp_eq (until_space (sprint_symbol_no_offset e fn))) blacklist
  end.

Definition do_one_initcall (blacklist : list (list Z)) (fn : Z) (k : kernel) : Z * kernel :=
  let count := preempt_count (kcpu k) in
  if initcall_blacklisted blacklist fn then (- EPERM, k)
  else
    let '(ret, c) := initcall e fn (kcpu k) in
    let bad_count := negb (preempt_count c =? count) in
    let c' := if bad_count then Cpu count (irqs_disabled c) else c in
    let bad_irqs := irqs_disabled c' in
    let c'' := if bad_irqs then Cpu (preempt_count c') false else c' in
    (ret, set_calls c'' (ran k ++ [fn]) (if bad_count || bad_irqs then warned k ++ [fn] else warned k) k).

Definition run_initcalls (blacklist : list (list Z)) (fns : list Z) (k : kernel) : kernel :=
  foldl (fun k fn => (do_one_initcall blacklist fn k).2) k fns.

Definition do_pre_smp_initcalls (blacklist : list (list Z)) (k : kernel) : kernel :=
  run_initcalls blacklist (initcalls_early e) k.

(** The line as the parser leaves it. *)
Definition do_initcall_level (blacklist : list (list Z)) (level : nat) (fns command_line : list Z) (k : kernel)
    : list Z * kernel :=
  let k := set_seen (seen k ++ [(level, command_line)]) k in
  (parse_level e level command_line, run_initcalls blacklist fns k).

Fixpoint levels_loop (blacklist : list (list Z)) (saved : list Z) (level : nat) (tables : list (list Z))
    (command_line : list Z) (k : kernel) : run kernel :=
  match tables with
  | [] => inr k
  | fns :: tables =>
      let! command_line := strcpy_buf command_line 0 saved in
      let '(command_line, k) := do_initcall_level blacklist level fns command_line k in
      levels_loop blacklist saved (S level) tables command_line k
  end.
Definition do_initcalls (blacklist : list (list Z)) (saved : list Z) (k : kernel) : run kernel :=
  let len := zlen saved + 1 in
  if negb (kzalloc_ok e) then inl Panic
  else levels_loop blacklist saved 0 (initcall_levels e) (replicate (Z.to_nat len) 0) k.

(** ** [kernel_init_freeable] *)

Definition dup_console (n : nat) (k : kernel) : kernel :=
  if init_dup e n then set_console (console_refs k + 1) (console_fds k + 1) k else k.
Definition console_on_rootfs (k : kernel) : kernel :=
  if negb (filp_open_console e) then k
  else
    let k := set_console (console_refs k + 1) (console_fds k) k in
    let k := dup_console 2 (dup_console 1 (dup_console 0 k)) in
    set_console (console_refs k - 1) (console_fds k) k.

Definition kernel_init_freeable (blacklist : list (list Z)) (saved : list Z) (k : kernel) : run kernel :=
  let k := do_pre_smp_initcalls blacklist k in
  let! k := do_initcalls blacklist saved k in
  let k := console_on_rootfs k in
  inr match ramdisk_cmd k with
      | Some r => if negb (init_eaccess e r =? 0) then no_ramdisk k else k
      | None => no_ramdisk k
      end.

(** ** The first program *)

Definition sbin_init : list Z := [47; 115; 98; 105; 110; 47; 105; 110; 105; 116].
Definition etc_init : list Z := [47; 101; 116; 99; 47; 105; 110; 105; 116].
Definition bin_init : list Z := [47; 98; 105; 110; 47; 105; 110; 105; 116].
Definition bin_sh : list Z := [47; 98; 105; 110; 47; 115; 104].

Definition run_init_process (init_filename : list Z) (k : kernel) : Z * kernel :=
  let argv := match args k with [] => [] | _ :: l => init_filename :: l end in
  (kernel_execve e init_filename argv (envs k), set_tried argv (tried k ++ [init_filename]) k).
Definition try_to_run_init_process (init_filename : list Z) (k : kernel) : Z * kernel :=
  run_init_process init_filename k.

Inductive boot_end := Runs (program : list Z) | Panics.

(** [!try(a) || !try(b) || ...]. *)
Fixpoint try_each (l : list (list Z)) (k : kernel) : boot_end * kernel :=
  match l with
  | [] => (Panics, k)
  | f :: l =>
      let '(ret, k) := try_to_run_init_process f k in
      if ret =? 0 then (Runs f, k) else try_each l k
  end.

Definition exec_default (k : kernel) : boot_end * kernel :=
  if negb (bool_decide (CONFIG_DEFAULT_INIT e = [])) then
    let '(ret, k) := run_init_process (CONFIG_DEFAULT_INIT e) k in
    if negb (ret =? 0) then try_each [sbin_init; etc_init; bin_init; bin_sh] k
    else (Runs (CONFIG_DEFAULT_INIT e), k)
  else try_each [sbin_init; etc_init; bin_init; bin_sh] k.

Definition exec_command (k : kernel) : boot_end * kernel :=
  match execute_cmd k with
  | Some f => let '(ret, k) := run_init_process f k in if ret =? 0 then (Runs f, k) else (Panics, k)
  | None => exec_default k
  end.

Definition kernel_init_exec (k : kernel) : boot_end * kernel :=
  match ramdisk_cmd k with
  | Some f => let '(ret, k) := run_init_process f k in if ret =? 0 then (Runs f, k) else exec_command k
  | None => exec_command k
  end.

(** ** The two threads

    [rest_init] makes the thread of the first program, then [kthreadd], and lets the
    first go on; [kernel_init] waits for that.  Both change [system_state]. *)
Inductive rest_pc := R_start | R_init_made | R_kthreadd_made | R_scheduling | R_idle.
Inductive init_pc := I_none | I_waiting | I_setup | I_freeing | I_running | I_done (r : boot_end).

Record system := System {
  rpc : rest_pc; ipc : init_pc; kthreadd_done : bool; kthreadd_task : bool;
  system_state : system_states; kst : kernel
}.

Inductive step (blacklist : list (list Z)) (saved : list Z) : system -> system -> Prop :=
  (* rest_init *)
  | Make_init i d t st k :
      step blacklist saved (System R_start i d t st k) (System R_init_made I_waiting d t st k)
  | Make_kthreadd i d t st k :
      step blacklist saved (System R_init_made i d t st k) (System R_kthreadd_made i d true st k)
  | Set_scheduling i d t st k :
      step blacklist saved (System R_kthreadd_made i d t st k) (System R_scheduling i d t SYSTEM_SCHEDULING k)
  | Complete i d t st k :
      step blacklist saved (System R_scheduling i d t st k) (System R_idle i true t st k)
  (* kernel_init *)
  | Woken r t st k k' :
      kernel_init_freeable blacklist saved k = inr k' ->
      step blacklist saved (System r I_waiting true t st k) (System r I_setup false t st k')
  | Woken_panic r t st k f :
      kernel_init_freeable blacklist saved k = inl f ->
      step blacklist saved (System r I_waiting true t st k) (System r (I_done Panics) false t st k)
  | Free_initmem r d t st k :
      step blacklist saved (System r I_setup d t st k) (System r I_freeing d t SYSTEM_FREEING_INITMEM k)
  | Set_running r d t st k :
      step blacklist saved (System r I_freeing d t st k) (System r I_running d t SYSTEM_RUNNING k)
  | Exec r d t st k :
      step blacklist saved (System r I_running d t st k)
        (System r (I_done (kernel_init_exec k).1) d t st (kernel_init_exec k).2).

Definition boot_state (k : kernel) : system := System R_start I_none false false SYSTEM_BOOTING k.
End init.
End BootInit.
