(* ===== verification/BootInitSpec.v ===== *)
(** * Correctness of the last part of the boot

    Every initcall that is not on a blacklist runs once and in order; the first program
    is the first candidate that can be executed; and every run of the two threads of
    [rest_init] ends with a first program or with a panic. *)
From S2P Require Import Prelude CMem BootArgs BootConfig BootArgsSpec BootConfigSpec BootInit.

Module BootInitSpec.
Import BootArgs BootConfig BootInit.

(** ** The blacklist *)

Fixpoint comma_joined (l : list (list Z)) : list Z :=
  match l with [] => [] | [x] => x | x :: l => x ++ COMMA :: comma_joined l end.

Lemma split_plain s : COMMA ∉ s -> split_commas s = [s].
Proof.
  induction s as [|c s IH]; [done|]. intros H. apply not_elem_of_cons in H as [Hc Hs]. cbn.
  rewrite (proj2 (Z.eqb_neq c COMMA)) by done. by rewrite IH.
Qed.

Lemma split_first x s : COMMA ∉ x -> split_commas (x ++ COMMA :: s) = x :: split_commas s.
Proof.
  induction x as [|c x IH]; [done|]. intros H. apply not_elem_of_cons in H as [Hc Hs]. cbn.
  rewrite (proj2 (Z.eqb_neq c COMMA)) by done. by rewrite IH.
Qed.

(** A list of names without commas survives being written as one string. *)
Lemma split_joined l : l <> [] -> Forall (fun x => COMMA ∉ x) l -> split_commas (comma_joined l) = l.
Proof.
  intros Hl. induction l as [|x [|y l] IH]; [done|..]; intros H; apply Forall_cons in H as [Hx H].
  - by apply split_plain.
  - change (comma_joined (x :: y :: l)) with (x ++ COMMA :: comma_joined (y :: l)).
    rewrite split_first by done. f_equal. by apply IH.
Qed.

Section init.
Context (e : init_env).

Lemma blacklisted_spec bl fn :
  initcall_blacklisted e bl fn = bool_decide (until_space (sprint_symbol_no_offset e fn) ∈ bl).
Proof.
  unfold initcall_blacklisted. set (s := until_space _). destruct bl as [|x bl]; [by rewrite bool_decide_eq_false_2 by (apply not_elem_of_nil)|].
  generalize (x :: bl). clear. intros l. induction l as [|y l IH]; cbn.
  - by rewrite bool_decide_eq_false_2 by (apply not_elem_of_nil).
  - rewrite IH. unfold strcmp_eq. repeat case_bool_decide; try done; set_solver.
Qed.

(** ** Initcalls *)

(** One initcall leaves the preemption count as it was and interrupts on. *)
Lemma one_initcall_spec bl fn k :
  let k' := (do_one_initcall e bl fn k).2 in
  ran k' = ran k ++ (if initcall_blacklisted e bl fn then [] else [fn]) /\
  preempt_count (kcpu k') = preempt_count (kcpu k) /\
  (irqs_disabled (kcpu k) = false -> irqs_disabled (kcpu k') = false) /\
  seen k' = seen k.
Proof.
  unfold do_one_initcall. destruct (initcall_blacklisted e bl fn); [by rewrite app_nil_r|].
  destruct (initcall e fn (kcpu k)) as [ret c].
  destruct (Z.eqb_spec (preempt_count c) (preempt_count (kcpu k))) as [E|E]; cbn [negb];
    destruct (irqs_disabled c) eqn:Ei; cbn; rewrite ?Ei; cbn; auto.
Qed.

Lemma run_initcalls_spec bl fns k :
  let k' := run_initcalls e bl fns k in
  ran k' = ran k ++ filter (fun fn => initcall_blacklisted e bl fn = false) fns /\
  preempt_count (kcpu k') = preempt_count (kcpu k) /\
  (irqs_disabled (kcpu k) = false -> irqs_disabled (kcpu k') = false) /\
  seen k' = seen k.
Proof.
  revert k. induction fns as [|fn fns IH]; intros k; [cbn; by rewrite app_nil_r|].
  change (run_initcalls e bl (fn :: fns) k) with (run_initcalls e bl fns (do_one_initcall e bl fn k).2).
  destruct (one_initcall_spec bl fn k) as (H1 & H2 & H3 & H4).
  destruct (IH (do_one_initcall e bl fn k).2) as (I1 & I2 & I3 & I4).
  cbn zeta. rewrite I1, I2, I4, H1, H2, H4. split_and!; auto. rewrite <- app_assoc. f_equal.
  rewrite filter_cons. destruct (initcall_blacklisted e bl fn); by case_decide.
Qed.

Lemma levels_spec bl saved level tables line k :
  (forall i l, zlen (parse_level e i l) = zlen l) -> zlen line = zlen saved + 1 ->
  exists k', levels_loop e bl saved level tables line k = inr k' /\
    ran k' = ran k ++ filter (fun fn => initcall_blacklisted e bl fn = false) (mjoin tables) /\
    preempt_count (kcpu k') = preempt_count (kcpu k) /\
    (irqs_disabled (kcpu k) = false -> irqs_disabled (kcpu k') = false) /\
    seen k' = seen k ++ ((fun i => (i, saved ++ [0])) <$> seq level (length tables)).
Proof.
  intros Hp. revert level line k. induction tables as [|fns tables IH]; intros level line k Hl.
  { exists k. cbn. by rewrite !app_nil_r. }
  cbn [levels_loop]. pose proof (BootConfigSpec.strcpy_room [] line saved) as Hc. cbn [app] in Hc.
  change (zlen []) with 0 in Hc. rewrite Hc by lia. cbn [err_bind do_initcall_level].
  replace (zdrop (zlen saved + 1) line) with ([] : list Z).
  2: { symmetry. apply zlen_0. rewrite zlen_drop; pose proof (zlen_nonneg saved); lia. }
  set (k1 := set_seen _ k). destruct (run_initcalls_spec bl fns k1) as (H1 & H2 & H3 & H4).
  destruct (IH (S level) (parse_level e level (saved ++ [0])) (run_initcalls e bl fns k1)) as (k' & -> & I1 & I2 & I3 & I4).
  { rewrite Hp. zlens. lia. }
  exists k'. split; [done|]. rewrite I1, I2, I4, H1, H2, H4. cbn [mjoin list_join].
  split_and!; [by rewrite filter_app, app_assoc|done|auto|]. cbn. by rewrite <- app_assoc.
Qed.

(** The options [initcall_blacklist=], each a list of names, handled one after the other
    from [b] to [b']; an ordinary boot has none. *)
Inductive blacklisting (be : boot_env) : list (list (list Z)) -> boot -> boot -> Prop :=
  | bl_none b : blacklisting be [] b b
  | bl_option names opts p b b1 b' :
      names <> [] -> Forall (fun x => COMMA ∉ x) names ->
      str (bmem b) p = Some (comma_joined names) ->
      initcall_blacklist be p b = inr (1, b1) ->
      blacklisting be opts b1 b' -> blacklisting be (names :: opts) b b'.

Lemma blacklisting_names be opts b b' :
  blacklisting be opts b b' ->
  forall x, x ∈ blacklisted_initcalls b' <-> x ∈ mjoin opts \/ x ∈ blacklisted_initcalls b.
Proof.
  induction 1 as [b|names opts p b b1 b' Hn Hc Hs Hi _ IH]; intros x; [set_solver|].
  unfold initcall_blacklist in Hi. rewrite Hs in Hi. cbn [lift err_bind] in Hi.
  destruct (memblock_ok be); [|done]. cbn [negb] in Hi. destruct (write _ _ _) as [m|]; [|done].
  cbn [lift err_bind] in Hi. injection Hi as <-. rewrite IH. cbn [blacklisted_initcalls set_blacklist].
  rewrite split_joined by done. cbn [mjoin list_join].
  rewrite !elem_of_app, (list_elem_of_In (rev names)), <- in_rev, <- list_elem_of_In. tauto.
Qed.

(** What comes after the initcalls leaves their record and the processor. *)
Lemma freeable_initcalls bl saved k k1 :
  do_initcalls e bl saved (do_pre_smp_initcalls e bl k) = inr k1 ->
  exists k', kernel_init_freeable e bl saved k = inr k' /\
    ran k' = ran k1 /\ kcpu k' = kcpu k1 /\ seen k' = seen k1.
Proof.
  intros H. unfold kernel_init_freeable. rewrite H. cbn [err_bind]. eexists. split; [reflexivity|].
  unfold console_on_rootfs, dup_console.
  by repeat case_match.
Qed.

(** C28. A boot runs every initcall exactly once, the early ones and then those of the
    levels, in the order of the levels and of the link order within them, except those
    whose symbol is on a list given as [initcall_blacklist=]; without such an option all
    of them run.  Each level parses the whole command line, whatever the level before did
    to it; and no initcall leaves preemption or interrupts off. *)
Theorem initcalls_in_order be opts b b' saved k :
  kzalloc_ok e = true -> (forall i l, zlen (parse_level e i l) = zlen l) ->
  blacklisted_initcalls b = [] -> blacklisting be opts b b' ->
  exists k', kernel_init_freeable e (blacklisted_initcalls b') saved k = inr k' /\
    ran k' = ran k ++ filter (fun fn => until_space (sprint_symbol_no_offset e fn) ∉ mjoin opts)
                             (initcalls_early e ++ mjoin (initcall_levels e)) /\
    preempt_count (kcpu k') = preempt_count (kcpu k) /\
    (irqs_disabled (kcpu k) = false -> irqs_disabled (kcpu k') = false) /\
    seen k' = seen k ++ ((fun i => (i, saved ++ [0])) <$> seq 0 (length (initcall_levels e))).
Proof.
  intros Hk Hp Hb0 Hbl. set (bl := blacklisted_initcalls b').
  destruct (run_initcalls_spec bl (initcalls_early e) k) as (E1 & E2 & E3 & E4). pose proof (zlen_nonneg saved).
  destruct (levels_spec bl saved 0 (initcall_levels e) (replicate (Z.to_nat (zlen saved + 1)) 0)
    (do_pre_smp_initcalls e bl k) Hp) as (k1 & H0 & H1 & H2 & H3 & H4); [apply BootConfigSpec.zlen_replicate; lia|].
  destruct (freeable_initcalls bl saved k k1) as (k' & Hf & F1 & F2 & F3).
  { unfold do_initcalls. by rewrite Hk. }
  exists k'. split; [done|]. rewrite F1, F2, F3, H1, H2, H4. unfold do_pre_smp_initcalls in *.
  rewrite E1, E2, E4. split_and!; [|done|auto|done]. rewrite <- app_assoc, <- filter_app. f_equal.
  apply list_filter_iff. intros fn. rewrite blacklisted_spec, bool_decide_eq_false. unfold bl.
  rewrite (blacklisting_names _ _ _ _ Hbl), Hb0. set_solver.
Qed.

(** ** The first program *)

(** What can become the first program, in order. *)
Definition candidates (k : kernel) : list (list Z) :=
  option_list (ramdisk_cmd k) ++
  match execute_cmd k with
  | Some f => [f]
  | None => (if bool_decide (CONFIG_DEFAULT_INIT e = []) then [] else [CONFIG_DEFAULT_INIT e]) ++
            [sbin_init; etc_init; bin_init; bin_sh]
  end.

(** A program is started with its own name and the arguments of the command line. *)
Definition starts (k : kernel) (f : list Z) : bool :=
  kernel_execve e f (match args k with [] => [] | _ :: l => f :: l end) (envs k) =? 0.
Fixpoint first_start (k : kernel) (l : list (list Z)) : boot_end :=
  match l with [] => Panics | f :: l => if starts k f then Runs f else first_start k l end.
Fixpoint attempts (k : kernel) (l : list (list Z)) : list (list Z) :=
  match l with [] => [] | f :: l => f :: if starts k f then [] else attempts k l end.

Lemma exec_is_try_each k : kernel_init_exec e k = try_each e (candidates k) k.
Proof.
  assert (Hd : forall k', exec_default e k' =
    try_each e ((if bool_decide (CONFIG_DEFAULT_INIT e = []) then [] else [CONFIG_DEFAULT_INIT e]) ++
                [sbin_init; etc_init; bin_init; bin_sh]) k').
  { intros k'. unfold exec_default. destruct (bool_decide (CONFIG_DEFAULT_INIT e = [])); [done|].
    cbn [negb app]. cbn [try_each]. unfold try_to_run_init_process.
    destruct (run_init_process e (CONFIG_DEFAULT_INIT e) k') as [ret k1]. by destruct (ret =? 0). }
  assert (Hc : forall k', execute_cmd k' = execute_cmd k -> exec_command e k' =
    try_each e match execute_cmd k with
      | Some f => [f]
      | None => (if bool_decide (CONFIG_DEFAULT_INIT e = []) then [] else [CONFIG_DEFAULT_INIT e]) ++
                [sbin_init; etc_init; bin_init; bin_sh]
      end k').
  { intros k' Ek. unfold exec_command. rewrite Ek. destruct (execute_cmd k); [|apply Hd].
    cbn [try_each]. unfold try_to_run_init_process. by destruct (run_init_process e _ k'). }
  unfold kernel_init_exec, candidates. destruct (ramdisk_cmd k) as [f|]; [|by apply Hc].
  change (option_list (Some f)) with [f]. cbn [app try_each]. unfold try_to_run_init_process.
  assert (Ek : execute_cmd (run_init_process e f k).2 = execute_cmd k) by done.
  destruct (run_init_process e f k) as [ret k1]. destruct (ret =? 0); [done|]. by apply Hc.
Qed.

Lemma try_each_spec l k k0 :
  (forall f, starts k f = starts k0 f) -> args k <> [] ->
  let r := try_each e l k in r.1 = first_start k0 l /\ tried r.2 = tried k ++ attempts k0 l.
Proof.
  revert k. induction l as [|f l IH]; intros k Hs Ha; cbn; [by rewrite app_nil_r|].
  rewrite <- Hs. unfold try_to_run_init_process, run_init_process, starts at 1 2.
  destruct (args k) as [|a0 al] eqn:Ea; [done|].
  destruct (kernel_execve e f (f :: al) (envs k) =? 0) eqn:Ex; [done|]. cbn zeta.
  destruct (IH (set_tried (f :: al) (tried k ++ [f]) k)) as [H1 H2]; [|done|].
  - intros g. rewrite <- Hs. unfold starts. cbn. by rewrite Ea.
  - split; [done|]. rewrite H2. cbn. by rewrite <- app_assoc.
Qed.

(** [kernel_init] starts the first candidate that can be executed, each with its own
    name in front of the arguments of the command line: the program of the ramdisk, then
    the one of [init=] and nothing else, or else the built-in default and the four usual
    ones; it panics exactly when none of them can. *)
Theorem first_program_correct k :
  args k <> [] ->
  let r := kernel_init_exec e k in
  r.1 = first_start k (candidates k) /\ tried r.2 = tried k ++ attempts k (candidates k) /\
  (r.1 = Panics <-> forall f, f ∈ candidates k -> starts k f = false).
Proof.
  intros Ha r. subst r. rewrite exec_is_try_each.
  destruct (try_each_spec (candidates k) k k (fun _ => eq_refl) Ha) as [H1 H2]. split_and!; [done|done|].
  rewrite H1. generalize (candidates k). clear. intros l. induction l as [|f l IH]; cbn.
  - split; [|done]. intros _ f Hf. by apply elem_of_nil in Hf.
  - destruct (starts k f) eqn:Es.
    + split; [done|]. intros H. by rewrite H in Es by left.
    + rewrite IH. split; [|intros H g Hg; apply H; by right].
      intros H g Hg. apply elem_of_cons in Hg as [->|Hg]; auto.
Qed.

(** ** The two threads *)

Section threads.
Context (bl : list (list Z)) (saved : list Z).
Notation step := (step e bl saved).

Definition rank (st : system_states) : Z :=
  match st with SYSTEM_BOOTING => 0 | SYSTEM_SCHEDULING => 1 | SYSTEM_FREEING_INITMEM => 2 | SYSTEM_RUNNING => 3 end.

(** Where the two threads can be, and the flag, the task and the state there. *)
Definition rest_at (r : rest_pc) : bool * system_states :=
  match r with
  | R_start | R_init_made => (false, SYSTEM_BOOTING)
  | R_kthreadd_made => (true, SYSTEM_BOOTING)
  | R_scheduling | R_idle => (true, SYSTEM_SCHEDULING)
  end.
Definition ordered (s : system) : Prop :=
  match ipc s with
  | I_none => rpc s = R_start /\ kthreadd_done s = false /\
      (kthreadd_task s, system_state s) = (false, SYSTEM_BOOTING)
  | I_waiting => rpc s <> R_start /\ kthreadd_done s = (match rpc s with R_idle => true | _ => false end) /\
      (kthreadd_task s, system_state s) = rest_at (rpc s)
  | I_setup => rpc s = R_idle /\ kthreadd_done s = false /\
      (kthreadd_task s, system_state s) = (true, SYSTEM_SCHEDULING)
  | I_freeing => rpc s = R_idle /\ kthreadd_done s = false /\
      (kthreadd_task s, system_state s) = (true, SYSTEM_FREEING_INITMEM)
  | I_running => rpc s = R_idle /\ kthreadd_done s = false /\
      (kthreadd_task s, system_state s) = (true, SYSTEM_RUNNING)
  | I_done r => rpc s = R_idle /\ kthreadd_done s = false /\ kthreadd_task s = true /\
      (r = Panics \/ system_state s = SYSTEM_RUNNING)
  end.

Lemma step_ordered s s' : ordered s -> step s s' -> ordered s' /\ rank (system_state s) <= rank (system_state s').
Proof.
  intros Ho Hs. unfold ordered in *. destruct Hs as [i|i|i|i| | | | | ]; cbn in *;
    try (destruct i; cbn in * ); destruct_and?; simplify_eq; try done.
  all: try (split_and!; try done; by auto).
  all: destruct r; try done; cbn in *; simplify_eq; split_and!; auto; done || lia.
Qed.

(** What is left to do. *)
Definition todo (s : system) : nat :=
  match rpc s with R_start => 12 | R_init_made => 10 | R_kthreadd_made => 8 | R_scheduling => 6 | R_idle => 0 end +
  match ipc s with I_none => 6 | I_waiting => 5 | I_setup => 4 | I_freeing => 3 | I_running => 2 | I_done _ => 0 end.

Lemma step_todo s s' : ordered s -> step s s' -> (todo s' < todo s)%nat.
Proof.
  intros Ho Hs. unfold ordered, todo in *. destruct Hs as [i|i|i|i| | | | | ]; cbn in *; try lia.
  destruct i; destruct_and?; try done; lia.
Qed.

Definition settled (s : system) : Prop := exists r, ipc s = I_done r.

Lemma step_exists s : ordered s -> settled s \/ exists s', step s s'.
Proof.
  destruct s as [r i d t st k]. unfold ordered, settled. cbn.
  destruct i; try (right; eexists; by constructor); intros Ho.
  - destruct Ho as (-> & _). right. eexists. constructor.
  - destruct Ho as (Hr & -> & Ht). right. destruct r; try (by eexists; constructor).
    destruct (kernel_init_freeable e bl saved k) eqn:Ek; eexists; [by eapply Woken_panic|by eapply Woken].
  - left. by eexists.
Qed.

(** Every run reaches [P]: it cannot end before, nor go on forever. *)
Inductive eventually (P : system -> Prop) : system -> Prop :=
  | ev_now s : P s -> eventually P s
  | ev_later s : (exists s', step s s') -> (forall s', step s s' -> eventually P s') -> eventually P s.

Definition reached (k : kernel) : system -> Prop := rtc step (boot_state k).

Lemma reached_ordered k s : reached k s -> ordered s.
Proof.
  intros H. assert (H0 : ordered (boot_state k)) by done. revert H0.
  unfold reached in H. induction H as [|s0 s1 s2 Hs _ IH]; [done|]. intros H0. apply IH. by eapply step_ordered.
Qed.

Lemma ordered_eventually s : ordered s -> eventually settled s.
Proof.
  remember (todo s) as n eqn:En. revert s En. induction n as [n IH] using lt_wf_ind. intros s -> Ho.
  destruct (step_exists s Ho) as [Hs|Hs]; [by apply ev_now|]. apply ev_later; [done|]. intros s' Hs'.
  eapply IH; [by apply step_todo|done|]. by eapply step_ordered.
Qed.

(** C29. However the two threads interleave, the boot ends: from every state it can reach,
    every way to go on comes to a first program or to a panic, in finitely many steps
    and without getting stuck. *)
Theorem boot_reaches_init k s : reached k s -> eventually settled s.
Proof. intros H. by eapply ordered_eventually, reached_ordered. Qed.

(** However the two threads interleave, the initcalls and the programs of user space
    run only after [kthreadd] exists, [system_state] never goes back, and the first
    program starts in state [SYSTEM_RUNNING]. *)
Theorem boot_order_safe k s s' :
  reached k s -> step s s' ->
  rank (system_state s) <= rank (system_state s') /\
  (kst s' <> kst s -> kthreadd_task s = true) /\
  (forall f, ipc s' = I_done (Runs f) -> system_state s = SYSTEM_RUNNING).
Proof.
  intros Hr Hs. pose proof (reached_ordered k s Hr) as Ho.
  destruct (step_ordered s s' Ho Hs) as [Ho' Hrank]. split; [done|]. unfold ordered in Ho.
  destruct Hs as [i|i|i|i|r t st k0 k' Hk|r t st k0 f Hk| | |r d t st k0]; cbn in *; split; try done;
    try (intros f ->; destruct_and!; simplify_eq; naive_solver).
  - destruct Ho' as (_ & _ & Ht). by injection Ht.
  - destruct Ho as (_ & _ & Ht). by injection Ht.
  - destruct Ho as (_ & _ & Ht). by injection Ht.
Qed.
End threads.
End init.
End BootInitSpec.

(** ** A machine with a shell *)
Module InitDemo.
Import BootArgs BootConfig BootInit BootInitSpec.

(** Six initcalls, of which the fourth turns interrupts off; only the shell exists. *)
Definition demo_init : init_env := {|
  initcalls_early := [1]; initcall_levels := [[2]; [3; 4]; []; [5]; []; []; []; [6]];
  initcall fn c := if fn =? 4 then (0, Cpu (preempt_count c + 1) true) else (0, c);
  sprint_symbol_no_offset fn := [97; 48 + fn];
  parse_level _ l := (fun c => if c =? SPACE then 0 else c) <$> l;
  kzalloc_ok := true; init_eaccess _ := - 2; filp_open_console := true; init_dup _ := true;
  CONFIG_DEFAULT_INIT := []; kernel_execve f _ _ := if bool_decide (f = bin_sh) then 0 else - 2 |}.
Definition demo_kernel : kernel :=
  Kernel (Cpu 0 false) [] [] [] 0 0 (Some [47; 105; 110; 105; 116]) false None [[105; 110; 105; 116]; [97]] [] [].

(** [initcall_blacklist=a3,a6], and no such option. *)
Definition bl_line : list Z := [97; 51; COMMA; 97; 54; 0].
Definition bl_boot : boot := BootDemo.demo_boot 4 bl_line.
Lemma demo_blacklisting :
  exists b', blacklisting (BootDemo.demo_env 4) [[[97; 51]; [97; 54]]] bl_boot b'.
Proof.
  eexists. eapply (bl_option _ _ _ (Ptr 1 0)); [discriminate| |vm_compute; reflexivity..|apply bl_none].
  by apply (bool_decide_unpack _); vm_compute.
Qed.

Lemma initcalls_in_order_witness :
  (exists b' k', blacklisting (BootDemo.demo_env 4) [[[97; 51]; [97; 54]]] bl_boot b' /\
    kernel_init_freeable demo_init (blacklisted_initcalls b') [113; 32] demo_kernel = inr k' /\
    ran k' = [1; 2; 4; 5] /\ irqs_disabled (kcpu k') = false) /\
  exists k', kernel_init_freeable demo_init [] [113; 32] demo_kernel = inr k' /\ ran k' = [1; 2; 3; 4; 5; 6].
Proof.
  assert (Hp : forall i l, zlen (parse_level demo_init i l) = zlen l).
  { intros i l. cbn. unfold zlen. by rewrite length_fmap. }
  split.
  - destruct demo_blacklisting as (b' & Hb).
    destruct (initcalls_in_order demo_init (BootDemo.demo_env 4) _ bl_boot b' [113; 32] demo_kernel
      eq_refl Hp eq_refl Hb) as (k' & H1 & H2 & _ & H3 & _).
    exists b', k'. split; [exact Hb|]. split; [exact H1|]. split; [|by apply H3].
    rewrite H2. vm_compute. reflexivity.
  - destruct (initcalls_in_order demo_init (BootDemo.demo_env 4) [] bl_boot bl_boot [113; 32] demo_kernel
      eq_refl Hp eq_refl (bl_none _ _)) as (k' & H1 & H2 & _).
    exists k'. split; [exact H1|]. rewrite H2. vm_compute. reflexivity.
Defined.

Lemma first_program_correct_witness :
  (kernel_init_exec demo_init demo_kernel).1 = Runs bin_sh /\
  (kernel_init_exec demo_init demo_kernel).1 = first_start demo_init demo_kernel (candidates demo_init demo_kernel).
Proof.
  split; [vm_compute; reflexivity|].
  exact (proj1 (first_program_correct demo_init demo_kernel ltac:(discriminate))).
Defined.

Lemma boot_reaches_init_witness : eventually demo_init [] [113] settled (boot_state demo_kernel).
Proof. exact (boot_reaches_init demo_init [] [113] demo_kernel _ (rtc_refl _ _)). Defined.

Lemma boot_order_safe_witness :
  rank (system_state (boot_state demo_kernel)) <=
  rank (system_state (System R_init_made I_waiting false false SYSTEM_BOOTING demo_kernel)).
Proof.
  exact (proj1 (boot_order_safe demo_init [] [113] demo_kernel _ _ (rtc_refl _ _)
    (Make_init demo_init [] [113] I_none false false SYSTEM_BOOTING demo_kernel))).
Defined.
End InitDemo.
