(* ===== verification/DupMm.v ===== *)
(** * Copying and releasing an address space ([kernel/fork.c], [mm/mmap.c])

    [dup_mm] with [mm_init], [dup_mmap] and [vm_area_dup], and what undoes it: [mmput] down
    to [exit_mmap] and [remove_vma].  The tree of the new address space is a list of
    entries in address order: an area, or the zero entry that marks where copying
    stopped.  [held] counts everything that is allocated or referenced, and the calls made
    of the areas' operations; what other files
    answer is in [dup_env]. *)
From S2P Require Import Prelude Vma Mm Mmap.

Module DupMm.
Import Mm Mmap.

Definition VM_DONTCOPY : Z := 0x20000.
Definition VM_WIPEONFORK : Z := 0x2000000.

(** What an address space and its areas hold. *)
Inductive res :=
  | Rarea | Rlock | Rname | Rpolicy | Ranon | Rfile (f : Z) | Rwritable (f : Z)
  | Rmm | Rpgd | Rcontext | Rcid | Rpercpu | Ruserns | Rexe (f : Z) | Rdeny (f : Z) | Rmodule
  | Ropen (o : Z) | Rclose (o : Z).                (* calls of open and of close made *)
#[export] Instance res_eq_dec : EqDecision res.
Proof. solve_decision. Defined.

(** [committed_as] is [vm_committed_as]; [fresh] the next address of the area allocator. *)
Record world := World { held : res -> Z; committed_as : Z; fresh : Z }.

Definition one (r x : res) : Z := if decide (r = x) then 1 else 0.
Definition hold (r : res) (d : Z) (w : world) : world :=
  World (fun x => held w x + d * one r x) (committed_as w) (fresh w).
Definition take_all (l : list res) (w : world) : world := foldr (fun r w => hold r 1 w) w l.
Definition give_all (l : list res) (w : world) : world := foldr (fun r w => hold r (-1) w) w l.
Definition charge (n : Z) (w : world) : world := World (held w) (committed_as w + n) (fresh w).

(** The address space being made. *)
Record newmm := NewMm {
  tree : list (option vma); count : Z; stats : counters; exe : option Z; binfmt : bool
}.

Record dup_env := {
  vme : vm_env;
  old_exe : option Z; old_binfmt : bool; try_module_get : bool; deny_write_access : bool;
  lock_killable : bool; ksm_fork : Z; mt_dup : Z; arch_dup_mmap : Z;
  clear_entry : vma -> Z; fatal_signal : vma -> bool; enough_for : vma -> bool;
  area_alloc : vma -> bool; lock_alloc : vma -> bool; dup_policy : vma -> Z;
  dup_userfaultfd : vma -> Z + (option Z * Z);     (* the context and the flags *)
  anon_vma_fork : vma -> Z + Z; copy_page_range : vma -> Z;
  has_open : Z -> bool; has_close : Z -> bool;     (* of the [vm_ops] *)
  allocate_mm : bool; pgd_alloc : bool; init_new_context : bool; mm_alloc_cid : bool; percpu_init : bool
}.

Section dup.
Context (e : dup_env).

Definition if_some {A} (o : option A) (r : res) : list res := match o with Some _ => [r] | None => [] end.

(** ** Areas *)

Definition own_res (v : vma) : list res := [Rarea; Rlock] ++ if_some (anon_name v) Rname.
Definition vm_area_dup (orig : vma) (w : world) : option vma * world :=
  if negb (area_alloc e orig) then (None, w)
  else
    let w := hold Rarea 1 w in
    if negb (lock_alloc e orig) then (None, hold Rarea (-1) w)
    else
      let new := set_id (fresh w) orig in
      (Some new, take_all (if_some (anon_name orig) Rname)
                   (hold Rlock 1 (World (held w) (committed_as w) (fresh w + 1)))).
(** [vma_init]: all fields zero. *)
Definition blank : vma := Vma 0 0 0 0 0 None None None false None None None.
Definition vm_area_alloc (w : world) : option vma * world :=
  if negb (area_alloc e blank) then (None, w)
  else
    let w := hold Rarea 1 w in
    if negb (lock_alloc e blank) then (None, hold Rarea (-1) w)
    else (Some (set_id (fresh w) blank), hold Rlock 1 (World (held w) (committed_as w) (fresh w + 1))).
(** Freeing an area, at once or after a grace period. *)
Definition vm_area_free (v : vma) (w : world) : world := give_all (own_res v) w.
Definition mpol_put (v : vma) (w : world) : world := give_all (if_some (vm_policy v) Rpolicy) w.

Definition set_uffd (u : option Z) (v : vma) : vma :=
  Vma (vm_id v) (vm_start v) (vm_end v) (vm_flags v) (vm_pgoff v) (vm_file v) (vm_ops v) (anon_vma v)
      (anon_singular v) (vm_policy v) u (anon_name v).

Definition file_res (v : vma) : list res :=
  match vm_file v with
  | Some f => Rfile f :: if vma_is_shared_maywrite v then [Rwritable f] else []
  | None => []
  end.

(** The call of [vm_ops->open] or of [vm_ops->close], where the table has it; a table may
    have one without the other, as [special_mapping_vmops]. *)
Definition ops_call (has : Z -> bool) (call : Z -> res) (v : vma) : list res :=
  match vm_ops v with Some o => if has o then [call o] else [] | None => [] end.

(** The labels [fail_nomem_anon_vma_fork], [fail_nomem_policy] and [fail_nomem]. *)
Definition fail_nomem (chg : Z) (w : world) : (Z + vma) * world := (inl (- ENOMEM), charge (- chg) w).
Definition fail_nomem_policy (tmp : vma) (chg : Z) (w : world) : (Z + vma) * world :=
  fail_nomem chg (vm_area_free tmp w).
Definition fail_nomem_anon_vma_fork (tmp : vma) (chg : Z) (w : world) : (Z + vma) * world :=
  fail_nomem_policy tmp chg (mpol_put tmp w).

(** The body of the loop up to the store: the new area or the error. *)
Definition dup_area (mpnt : vma) (w : world) : (Z + vma) * world :=
  let acct := flag_set (vm_flags mpnt) VM_ACCOUNT in
  if acct && negb (enough_for e mpnt) then fail_nomem 0 w
  else
  let chg := if acct then vma_pages mpnt else 0 in
  let w := charge chg w in
  match vm_area_dup mpnt w with
  | (None, w) => fail_nomem chg w
  | (Some tmp, w) =>
      if negb (dup_policy e mpnt =? 0) then fail_nomem_policy tmp chg w
      else
      let w := take_all (if_some (vm_policy mpnt) Rpolicy) w in
      match dup_userfaultfd e tmp with
      | inl _ => fail_nomem_anon_vma_fork tmp chg w
      | inr (uffd, flags) =>
          let tmp := set_flags flags (set_uffd uffd tmp) in
          let anon :=
            if flag_set (vm_flags tmp) VM_WIPEONFORK then inr None
            else match anon_vma mpnt with
                 | None => inr None
                 | Some _ => match anon_vma_fork e mpnt with inl err => inl err | inr a => inr (Some a) end
                 end in
          match anon with
          | inl _ => fail_nomem_anon_vma_fork tmp chg w
          | inr a =>
              let w := take_all (if_some a Ranon) w in
              let tmp := set_anon_vma a tmp in
              let tmp := set_flags (Z.ldiff (vm_flags tmp) VM_LOCKED_MASK) tmp in
              (inr tmp, take_all (file_res tmp) w)
          end
      end
  end.

(** ** [dup_mmap] *)

Definition marked (done : list (option vma)) (rest : list vma) : list (option vma) :=
  done ++ None :: (Some <$> rest).
Definition set_tree t n s mm := NewMm t n s (exe mm) (binfmt mm).

(** The loop over the copied tree; [done] are the entries behind. *)
Fixpoint dup_loop (olds : list vma) (done : list (option vma)) (mm : newmm) (w : world)
    : Z * newmm * world :=
  match olds with
  | [] => (arch_dup_mmap e, set_tree done (count mm) (stats mm) mm, w)
  | mpnt :: olds =>
      if flag_set (vm_flags mpnt) VM_DONTCOPY then
        let retval := clear_entry e mpnt in
        if negb (retval =? 0) then (retval, set_tree (marked done olds) (count mm) (stats mm) mm, w)
        else
          let stats := vm_stat_account (vme e) (vm_flags mpnt) (- vma_pages mpnt) (stats mm) in
          dup_loop olds done (set_tree [] (count mm) stats mm) w
      else if fatal_signal e mpnt then (- EINTR, set_tree (marked done olds) (count mm) (stats mm) mm, w)
      else
        match dup_area mpnt w with
        | (inl err, w) => (err, set_tree (marked done olds) (count mm) (stats mm) mm, w)
        | (inr tmp, w) =>
            let retval := if flag_set (vm_flags tmp) VM_WIPEONFORK then 0 else copy_page_range e mpnt in
            let mm := set_tree [] (count mm + 1) (stats mm) mm in
            let done := done ++ [Some tmp] in
            let w := take_all (ops_call (has_open e) Ropen tmp) w in
            if negb (retval =? 0) then
              let t := match olds with [] => done | _ :: olds => marked done olds end in
              (retval, set_tree t (count mm) (stats mm) mm, w)
            else dup_loop olds done mm w
        end
  end.

(** [get_mm_exe_file] and [deny_write_access]. *)
Definition dup_mm_exe_file (mm : newmm) (w : world) : newmm * world :=
  let w := match old_exe e with Some f => hold (Rexe f) 1 w | None => w end in
  let w := match old_exe e with
           | Some f => if deny_write_access e then hold (Rdeny f) 1 w else w
           | None => w
           end in
  (NewMm (tree mm) (count mm) (stats mm) (old_exe e) (binfmt mm), w).

(** The result, the new and the old address space. *)
Definition dup_mmap {T} `{VmaTree T} (mm : newmm) (oldmm : mm_struct T) (w : world)
    : Z * newmm * mm_struct T * world :=
  if lock_killable e then (- EINTR, mm, oldmm, w)
  else
    let oldmm := set_lock WriteLocked oldmm in
    let '(mm, w) := dup_mm_exe_file mm w in
    let c := ctr oldmm in
    let mm := set_tree (tree mm) (count mm)
      (Counters (total_vm c) (locked_vm (stats mm)) (data_vm c) (exec_vm c) (stack_vm c)) mm in
    let '(retval, mm, w) :=
      if negb (ksm_fork e =? 0) then (ksm_fork e, mm, w)
      else if negb (mt_dup e =? 0) then (mt_dup e, mm, w)
      else dup_loop (vmas (mm_mt oldmm)) [] mm w in
    (retval, mm, set_lock Unlocked oldmm, w).

(** ** Releasing an address space *)

Definition area_res (v : vma) : list res :=
  own_res v ++ if_some (vm_policy v) Rpolicy ++ if_some (anon_vma v) Ranon ++ file_res v
    ++ ops_call (has_open e) Ropen v.

(** [unlink_anon_vmas] and [unlink_file_vma] of [free_pgtables], and [remove_vma]. *)
Definition unlink_file_vma (v : vma) (w : world) : world :=
  match vm_file v with
  | Some f => if vma_is_shared_maywrite v then hold (Rwritable f) (-1) w else w
  | None => w
  end.
Definition free_pgtables (v : vma) (w : world) : world :=
  unlink_file_vma v (give_all (if_some (anon_vma v) Ranon) w).
Definition remove_vma (v : vma) (w : world) : world :=
  let w := take_all (ops_call (has_close e) Rclose v) w in
  let w := match vm_file v with Some f => hold (Rfile f) (-1) w | None => w end in
  vm_area_free v (mpol_put v w).

(** The areas up to the end or the zero entry. *)
Fixpoint until_zero (t : list (option vma)) : list vma :=
  match t with Some v :: t => v :: until_zero t | _ => [] end.

(** [None] is the [BUG_ON] about [map_count]. *)
Definition exit_mmap (mm : newmm) (w : world) : option world :=
  match until_zero (tree mm) with
  | [] => Some w
  | l =>
      let w := foldl (fun w v => free_pgtables v w) w l in
      let nr_accounted :=
        foldl (fun n v => if flag_set (vm_flags v) VM_ACCOUNT then n +u vma_pages v else n) 0 l in
      let w := foldl (fun w v => remove_vma v w) w l in
      if negb (Z.of_nat (length l) =? count mm) then None else Some (charge (- nr_accounted) w)
  end.

Definition mm_res : list res := [Rmm; Rpgd; Rcontext; Rcid; Rpercpu; Ruserns].
Definition mm_free_pgd (w : world) : world := hold Rpgd (-1) w.
Definition __mmdrop (w : world) : world :=
  hold Rmm (-1) (hold Rpercpu (-1) (hold Rcid (-1) (hold Ruserns (-1)
    (hold Rcontext (-1) (mm_free_pgd w))))).

Definition set_mm_exe_file (new_exe_file : option Z) (mm : newmm) (w : world) : Z * newmm * world :=
  let old_exe_file := exe mm in
  let denied := match new_exe_file with Some _ => negb (deny_write_access e) | None => false end in
  if denied then (- EACCES, mm, w)
  else
    let w := match new_exe_file with Some f => hold (Rexe f) 1 (hold (Rdeny f) 1 w) | None => w end in
    let mm := NewMm (tree mm) (count mm) (stats mm) new_exe_file (binfmt mm) in
    (0, mm, match old_exe_file with Some f => hold (Rexe f) (-1) (hold (Rdeny f) (-1) w) | None => w end).

(** The last user is gone. *)
Definition __mmput (mm : newmm) (w : world) : option world :=
  match exit_mmap mm w with
  | None => None
  | Some w =>
      let '(_, mm, w) := set_mm_exe_file None mm w in
      let w := if binfmt mm then hold Rmodule (-1) w else w in
      Some (__mmdrop w)
  end.

(** ** [mm_init] and [dup_mm] *)

Definition fail_nopgd (w : world) : world := hold Rmm (-1) w.
Definition fail_nocontext (w : world) : world := fail_nopgd (mm_free_pgd w).
Definition fail_cid (w : world) : world := fail_nocontext (hold Rcontext (-1) w).
Definition fail_pcpu (w : world) : world := fail_cid (hold Rcid (-1) w).

Definition no_stats (c : counters) : counters :=
  Counters (total_vm c) 0 (data_vm c) (exec_vm c) (stack_vm c).

Definition mm_alloc_pgd (w : world) : Z * world :=
  if negb (pgd_alloc e) then (- ENOMEM, w) else (0, hold Rpgd 1 w).

Definition mm_init (mm : newmm) (w : world) : option newmm * world :=
  let mm := NewMm [] 0 (no_stats (stats mm)) None (binfmt mm) in
  let '(err, w) := mm_alloc_pgd w in
  if negb (err =? 0) then (None, fail_nopgd w)
  else
  if negb (init_new_context e) then (None, fail_nocontext w)
  else
  let w := hold Rcontext 1 w in
  if negb (mm_alloc_cid e) then (None, fail_cid w)
  else
  let w := hold Rcid 1 w in
  if negb (percpu_init e) then (None, fail_pcpu w)
  else (Some mm, hold Ruserns 1 (hold Rpercpu 1 w)).

Definition mm_alloc (w : world) : option newmm * world :=
  if negb (allocate_mm e) then (None, w)
  else mm_init (NewMm [] 0 (Counters 0 0 0 0 0) None false) (hold Rmm 1 w).

(** Label [free_pt]: the new address space has one user. *)
Definition free_pt (mm : newmm) (w : world) : option world :=
  __mmput (NewMm (tree mm) (count mm) (stats mm) (exe mm) false) w.

(** The new address space or NULL, the old one; [None] for the [BUG_ON]. *)
Definition dup_mm {T} `{VmaTree T} (oldmm : mm_struct T) (w : world)
    : option (option newmm * mm_struct T * world) :=
  if negb (allocate_mm e) then Some (None, oldmm, w)
  else
    let w := hold Rmm 1 w in
    match mm_init (NewMm [] (map_count oldmm) (ctr oldmm) (old_exe e) (old_binfmt e)) w with
    | (None, w) => Some (None, oldmm, w)
    | (Some mm, w) =>
        let '(err, mm, oldmm, w) := dup_mmap mm oldmm w in
        if negb (err =? 0) then
          match free_pt mm w with None => None | Some w => Some (None, oldmm, w) end
        else if binfmt mm && negb (try_module_get e) then
          match free_pt mm w with None => None | Some w => Some (None, oldmm, w) end
        else Some (Some mm, oldmm, if binfmt mm then hold Rmodule 1 w else w)
    end.
End dup.
End DupMm.
