(* ===== verification/DupMmSpec.v ===== *)
(** * Properties of copying an address space

    What [dup_mm] does is all or nothing: when it fails everything taken on the way is
    given back, whatever step failed, and when it succeeds the child is a well-formed
    copy of its parent. *)
From S2P Require Import Prelude Vma Mm MmSpec Mmap DupMm.

Module DupMmSpec.
Import Mm MmSpec Mmap DupMm.

(** ** What is held *)

Definition sum_res (l : list res) (x : res) : Z := foldr (fun r s => one r x + s) 0 l.

Lemma sum_res_app l k x : sum_res (l ++ k) x = sum_res l x + sum_res k x.
Proof. induction l as [|r l IH]; cbn; [done|]. fold (sum_res (l ++ k) x) (sum_res l x). lia. Qed.

Lemma sum_res_cons r l x : sum_res (r :: l) x = one r x + sum_res l x.
Proof. done. Qed.
Lemma sum_res_nil x : sum_res [] x = 0.
Proof. done. Qed.

Lemma held_take_all l w x : held (take_all l w) x = held w x + sum_res l x.
Proof. induction l as [|r l IH]; cbn; [lia|]. fold (take_all l w) (sum_res l x). lia. Qed.
Lemma held_give_all l w x : held (give_all l w) x = held w x - sum_res l x.
Proof. induction l as [|r l IH]; cbn; [lia|]. fold (give_all l w) (sum_res l x). lia. Qed.

Lemma committed_take_all l w : committed_as (take_all l w) = committed_as w.
Proof. by induction l. Qed.
Lemma committed_give_all l w : committed_as (give_all l w) = committed_as w.
Proof. by induction l. Qed.
Lemma fresh_take_all l w : fresh (take_all l w) = fresh w.
Proof. by induction l. Qed.
Lemma fresh_give_all l w : fresh (give_all l w) = fresh w.
Proof. by induction l. Qed.

Create Rewrite HintDb held.
#[export] Hint Rewrite held_take_all held_give_all committed_take_all committed_give_all fresh_take_all
  fresh_give_all sum_res_app sum_res_cons sum_res_nil : held.

Arguments take_all : simpl never.
Arguments give_all : simpl never.
Arguments sum_res : simpl never.
Ltac count_res := intros; repeat (progress (autorewrite with held; cbn)); try lia.

(** [w'] holds the resources of [l] and [n] committed pages more than [w]. *)
Record gained (l : list res) (n : Z) (w w' : world) : Prop := {
  g_held : forall x, held w' x = held w x + sum_res l x;
  g_pages : committed_as w' = committed_as w + n;
  g_fresh : fresh w <= fresh w'
}.

Lemma gained_refl w : gained [] 0 w w.
Proof. split; count_res. Qed.
Lemma gained_trans l1 l2 n1 n2 w1 w2 w3 :
  gained l1 n1 w1 w2 -> gained l2 n2 w2 w3 -> gained (l1 ++ l2) (n1 + n2) w1 w3.
Proof.
  intros [H1 H2 H3] [G1 G2 G3]. split; [intros x|lia|lia]. rewrite G1, H1, sum_res_app. lia.
Qed.

(** ** Copies of areas *)

(** Flags a copy shares with the original: access, sharing, accounting, fork behaviour. *)
Definition COPY_KEPT : Z :=
  Z.lor (Z.lor 0x1ff VM_ACCOUNT) (Z.lor VM_NORESERVE (Z.lor VM_DONTCOPY VM_WIPEONFORK)).

Record copy_of (p c : vma) : Prop := {
  cp_start : vm_start c = vm_start p; cp_end : vm_end c = vm_end p;
  cp_pgoff : vm_pgoff c = vm_pgoff p; cp_file : vm_file c = vm_file p;
  cp_ops : vm_ops c = vm_ops p; cp_policy : vm_policy c = vm_policy p;
  cp_name : anon_name c = anon_name p;
  cp_flags : Z.land (vm_flags c) COPY_KEPT = Z.land (vm_flags p) COPY_KEPT;
  cp_unlocked : Z.land (vm_flags c) VM_LOCKED_MASK = 0;
  cp_anon : is_Some (anon_vma c) <->
            is_Some (anon_vma p) /\ flag_set (vm_flags p) VM_WIPEONFORK = false
}.

Lemma kept_ldiff f m k : Z.land m k = 0 -> Z.land (Z.ldiff f m) k = Z.land f k.
Proof.
  intros Hm. apply Z.bits_inj. intros i. apply (f_equal (fun z => Z.testbit z i)) in Hm.
  rewrite Z.land_spec, Z.bits_0 in Hm. rewrite !Z.land_spec, Z.ldiff_spec.
  destruct (Z.testbit f i), (Z.testbit m i), (Z.testbit k i); done.
Qed.

Lemma ldiff_land f m : Z.land (Z.ldiff f m) m = 0.
Proof.
  apply Z.bits_inj. intros i. rewrite Z.land_spec, Z.ldiff_spec, Z.bits_0.
  by destruct (Z.testbit f i), (Z.testbit m i).
Qed.

Lemma copy_flag p c b :
  Z.land COPY_KEPT b = b -> Z.land c COPY_KEPT = Z.land p COPY_KEPT -> flag_set c b = flag_set p b.
Proof. intros Hb Hk. unfold flag_set. by rewrite <- Hb, !Z.land_assoc, Hk. Qed.

Section spec.
Context (e : dup_env).

(** ** Releasing *)

Definition all_res (l : list vma) : list res := l ≫= area_res e.

Lemma all_res_cons v l : all_res (v :: l) = area_res e v ++ all_res l.
Proof. done. Qed.

(** A pass that gives back [g] and makes the calls [t]. *)
Record gives (g t : list res) (w w' : world) : Prop := {
  gv_held : forall x, held w' x = held w x - sum_res g x + sum_res t x;
  gv_pages : committed_as w' = committed_as w
}.

Lemma gives_trans g1 g2 t1 t2 w1 w2 w3 :
  gives g1 t1 w1 w2 -> gives g2 t2 w2 w3 -> gives (g1 ++ g2) (t1 ++ t2) w1 w3.
Proof. intros [H1 H2] [G1 G2]. split; [intros x|congruence]. rewrite G1, H1, !sum_res_app. lia. Qed.

Lemma gives_fold (f : vma -> world -> world) (g t : vma -> list res) l w :
  (forall v w, gives (g v) (t v) w (f v w)) ->
  gives (l ≫= g) (l ≫= t) w (foldl (fun w v => f v w) w l).
Proof.
  intros Hf. revert w. induction l as [|v l IH]; intros w; cbn.
  - split; count_res.
  - eapply gives_trans; [apply Hf|apply IH].
Qed.

Lemma gives_give_all g w : gives g [] w (give_all g w).
Proof. split; count_res. Qed.
Lemma gives_take_all t w : gives [] t w (take_all t w).
Proof. split; count_res. Qed.

Definition pgtables_res (v : vma) : list res :=
  if_some (anon_vma v) Ranon ++
  match vm_file v with Some f => if vma_is_shared_maywrite v then [Rwritable f] else [] | None => [] end.
Definition removed_res (v : vma) : list res :=
  match vm_file v with Some f => [Rfile f] | None => [] end
  ++ if_some (vm_policy v) Rpolicy ++ own_res v.
(** The calls of the area's operations. *)
Definition opens : vma -> list res := ops_call (has_open e) Ropen.
Definition closes : vma -> list res := ops_call (has_close e) Rclose.

Lemma free_pgtables_gives v w : gives (pgtables_res v) [] w (free_pgtables v w).
Proof.
  unfold free_pgtables, pgtables_res, unlink_file_vma. apply (gives_trans _ _ [] []
    _ (give_all (if_some (anon_vma v) Ranon) w)); [apply gives_give_all|].
  repeat case_match; split; count_res.
Qed.
Lemma remove_vma_gives v w : gives (removed_res v) (closes v) w (remove_vma e v w).
Proof.
  unfold remove_vma, removed_res, closes, vm_area_free, mpol_put. split; [intros x|];
    destruct (vm_file v); count_res.
Qed.

Lemma no_calls (l : list vma) x : sum_res (l ≫= fun _ => []) x = 0.
Proof. by induction l. Qed.

Lemma area_res_split l x :
  sum_res (all_res l) x =
    sum_res (l ≫= pgtables_res) x + sum_res (l ≫= removed_res) x + sum_res (l ≫= opens) x.
Proof.
  induction l as [|v l IH]; [done|].
  change ((v :: l) ≫= pgtables_res) with (pgtables_res v ++ (l ≫= pgtables_res)).
  change ((v :: l) ≫= removed_res) with (removed_res v ++ (l ≫= removed_res)).
  change ((v :: l) ≫= opens) with (opens v ++ (l ≫= opens)).
  rewrite all_res_cons, !sum_res_app, IH.
  cut (sum_res (area_res e v) x = sum_res (pgtables_res v) x + sum_res (removed_res v) x + sum_res (opens v) x);
    [lia|].
  unfold area_res, pgtables_res, removed_res, opens, file_res. autorewrite with held.
  destruct (vm_file v); [destruct (vma_is_shared_maywrite v)|]; count_res.
Qed.

(** Releasing the areas gives back what they hold; the calls made of their operations
    stay made. *)
Definition calls_of (l : list vma) (x : res) : Z := sum_res (l ≫= opens) x + sum_res (l ≫= closes) x.

Lemma exit_mmap_spec mm w l :
  until_zero (tree mm) = l -> count mm = Z.of_nat (length l) -> areas_ok l ->
  exists w', exit_mmap e mm w = Some w' /\
    (forall x, held w' x = held w x - sum_res (all_res l) x + calls_of l x) /\
    committed_as w' = committed_as w - accounted l.
Proof.
  intros Hl Hc Hok. unfold exit_mmap. rewrite Hl.
  assert (Hg : gives ((l ≫= pgtables_res) ++ (l ≫= removed_res)) ((l ≫= fun _ => []) ++ (l ≫= closes)) w
    (foldl (fun w v => remove_vma e v w) (foldl (fun w v => free_pgtables v w) w l) l)).
  { eapply gives_trans; apply gives_fold; [apply free_pgtables_gives|apply remove_vma_gives]. }
  assert (Hacc := accounted_range l Hok). assert (Hpg := pages_range l Hok).
  destruct l as [|v l].
  - eexists. split; [done|]. split; [intros x; unfold calls_of|]; cbn; count_res.
  - rewrite Hc, Z.eqb_refl. cbn [negb]. eexists. split; [done|].
    rewrite sum_accounted by (try apply Hok; lia). destruct Hg as [Hh Hp]. split.
    + intros x. specialize (Hh x). rewrite !sum_res_app, no_calls in Hh. unfold calls_of.
      rewrite area_res_split. cbn [held charge]. lia.
    + unfold charge. cbn [committed_as]. rewrite Hp. lia.
Qed.

(** ** One area *)

Definition committed_for (v : vma) : Z := if flag_set (vm_flags v) VM_ACCOUNT then vma_pages v else 0.

(** The resources of an area before the driver is told about it. *)
Definition base_res (v : vma) : list res :=
  own_res v ++ if_some (vm_policy v) Rpolicy ++ if_some (anon_vma v) Ranon ++ file_res v.

(** [dup_userfaultfd] clears its own flags, if any. *)
Hypothesis uffd_flags : forall v u f, dup_userfaultfd e v = inr (u, f) ->
  exists m, f = Z.ldiff (vm_flags v) m /\ Z.land m COPY_KEPT = 0.

Lemma dup_area_spec p w :
  match dup_area e p w with
  | (inl err, w') => err = - ENOMEM /\ gained [] 0 w w'
  | (inr c, w') => copy_of p c /\ vm_id c = fresh w /\ fresh w' = fresh w + 1 /\
                   gained (base_res c) (committed_for c) w w'
  end.
Proof.
  unfold dup_area. set (acct := flag_set (vm_flags p) VM_ACCOUNT).
  destruct (acct && negb (enough_for e p)).
  { split; [done|]. split; count_res. }
  set (chg := if acct then vma_pages p else 0).
  unfold vm_area_dup. destruct (area_alloc e p); cbn [negb].
  2: { split; [done|]. split; count_res. }
  destruct (lock_alloc e p); cbn [negb].
  2: { split; [done|]. split; count_res. }
  destruct (dup_policy e p =? 0); cbn [negb].
  2: { unfold fail_nomem_policy, fail_nomem, vm_area_free, own_res. split; [done|]. split; count_res.
 }
  set (tmp := set_id _ p).
  destruct (dup_userfaultfd e tmp) as [err|[u f]] eqn:Hu.
  { unfold fail_nomem_anon_vma_fork, fail_nomem_policy, fail_nomem, vm_area_free, mpol_put, own_res.
    split; [done|]. split; count_res. }
  destruct (uffd_flags _ _ _ Hu) as (m & Hf & Hm).
  set (tmp' := set_flags f (set_uffd u tmp)).
  assert (Hwipe : flag_set (vm_flags tmp') VM_WIPEONFORK = flag_set (vm_flags p) VM_WIPEONFORK).
  { apply copy_flag; [done|]. cbn. rewrite Hf. by apply kept_ldiff. }
  rewrite Hwipe.
  set (anon := if flag_set (vm_flags p) VM_WIPEONFORK then inr None else _).
  assert (Hanon : match anon with
    | inl _ => True
    | inr a => is_Some a <-> is_Some (anon_vma p) /\ flag_set (vm_flags p) VM_WIPEONFORK = false
    end).
  { unfold anon. destruct (flag_set (vm_flags p) VM_WIPEONFORK).
    - split; [by intros []|by intros []].
    - destruct (anon_vma p); [destruct (anon_vma_fork e p); [done|]|]; split; try done; by intros []. }
  destruct anon as [err|a].
  { unfold fail_nomem_anon_vma_fork, fail_nomem_policy, fail_nomem, vm_area_free, mpol_put, own_res.
    split; [done|]. split; count_res. }
  set (c := set_flags _ (set_anon_vma a tmp')).
  assert (Hkept : Z.land (vm_flags c) COPY_KEPT = Z.land (vm_flags p) COPY_KEPT).
  { cbn -[Z.ldiff COPY_KEPT VM_LOCKED_MASK]. rewrite kept_ldiff by done. rewrite Hf. by apply kept_ldiff. }
  assert (Hacct : committed_for c = chg).
  { unfold committed_for, chg, acct. by rewrite (copy_flag (vm_flags p) (vm_flags c)). }
  split; [|split; [|split; [|split]]].
  - split; try done. apply ldiff_land.
  - done.
  - count_res.
  - unfold base_res, own_res. count_res.
  - count_res.
  - count_res.
Qed.

(** ** The loop *)

Lemma until_zero_marked d k : until_zero (marked (Some <$> d) k) = d.
Proof. induction d as [|v d IH]; cbn; [done|]. f_equal. exact IH. Qed.
Lemma until_zero_all d : until_zero (Some <$> d) = d.
Proof. induction d as [|v d IH]; cbn; [done|]. f_equal. exact IH. Qed.

Definition copied (v : vma) : Prop := flag_set (vm_flags v) VM_DONTCOPY = false.
#[local] Instance copied_dec v : Decision (copied v).
Proof. unfold copied. apply _. Defined.

Definition drop_account (c : counters) (v : vma) : counters :=
  vm_stat_account (vme e) (vm_flags v) (- vma_pages v) c.

(** What the loop over [olds] did after [d] was made: the copies [d'], whole on success. *)
Record looped (olds d : list vma) (mm : newmm) (w : world) (r : Z) (mm' : newmm) (w' : world)
    (d' : list vma) : Prop := {
  lp_tree : until_zero (tree mm') = d ++ d';
  lp_count : count mm' = count mm + Z.of_nat (length d');
  lp_exe : exe mm' = exe mm; lp_binfmt : binfmt mm' = binfmt mm;
  lp_gained : gained (all_res d') (accounted d') w w';
  lp_copies : exists pre post, filter copied olds = pre ++ post /\ Forall2 copy_of pre d';
  lp_ids : Forall (fun v => fresh w <= vm_id v < fresh w') d';
  lp_nodup : NoDup (vm_id <$> d');
  lp_done : r = 0 -> tree mm' = Some <$> (d ++ d') /\ Forall2 copy_of (filter copied olds) d' /\
    stats mm' = foldl drop_account (stats mm) (filter (fun v => ~ copied v) olds)
}.

Lemma looped_stop olds d mm w w' r t :
  r <> 0 -> until_zero t = d -> gained [] 0 w w' ->
  looped olds d mm w r (set_tree t (count mm) (stats mm) mm) w' [].
Proof.
  intros Hr Ht Hg. split; try done.
  - cbn. by rewrite Ht, app_nil_r.
  - cbn. lia.
  - by exists [], (filter copied olds).
  - constructor.
Qed.

Lemma looped_cons p olds d c mm w w1 r mm' w' d' :
  copied p -> copy_of p c -> vm_id c = fresh w -> fresh w1 = fresh w + 1 ->
  gained (area_res e c) (committed_for c) w w1 ->
  looped olds (d ++ [c]) (set_tree [] (count mm + 1) (stats mm) mm) w1 r mm' w' d' ->
  looped (p :: olds) d mm w r mm' w' (c :: d').
Proof.
  intros Hp Hc Hid Hf Hg [L1 L2 L3 L4 L5 (pre & post & L6 & L6') L7 L8 L9].
  assert (Hfr := g_fresh _ _ _ _ L5).
  split.
  - by rewrite L1, <- app_assoc.
  - rewrite L2. cbn. lia.
  - done.
  - done.
  - rewrite all_res_cons. exact (gained_trans _ _ _ _ _ _ _ Hg L5).
  - exists (p :: pre), post. rewrite filter_cons_True, L6 by done. by split; [|constructor].
  - constructor; [lia|]. eapply Forall_impl; [exact L7|]. cbn. lia.
  - cbn. constructor; [|done]. intros Hin. apply list_elem_of_fmap in Hin as (v & Hv & Hin).
    rewrite Forall_forall in L7. specialize (L7 v Hin). lia.
  - intros Hr. destruct (L9 Hr) as (M1 & M2 & M3). rewrite M1, <- app_assoc. split; [done|].
    rewrite filter_cons_True by done. rewrite (filter_cons_False (fun v => ~ copied v)) by (intros Hn; by apply Hn).
    split; [by constructor|done].
Qed.

Lemma looped_skip p olds d mm w r mm' w' d' :
  ~ copied p ->
  looped olds d (set_tree [] (count mm) (drop_account (stats mm) p) mm) w r mm' w' d' ->
  looped (p :: olds) d mm w r mm' w' d'.
Proof.
  intros Hp [L1 L2 L3 L4 L5 (pre & post & L6 & L6') L7 L8 L9]. split; try done.
  - exists pre, post. by rewrite filter_cons_False.
  - intros Hr. rewrite filter_cons_False by done.
    rewrite (filter_cons_True (fun v => ~ copied v)) by done. by apply L9.
Qed.

Lemma dup_loop_spec olds d mm w :
  exists r mm' w' d', dup_loop e olds (Some <$> d) mm w = (r, mm', w') /\ looped olds d mm w r mm' w' d'.
Proof.
  revert d mm w. induction olds as [|p olds IH]; intros d mm w; cbn [dup_loop].
  { eexists _, _, _, []. split; [done|]. split; try done; cbn.
    - by rewrite app_nil_r, until_zero_all.
    - lia.
    - apply gained_refl.
    - by exists [], [].
    - constructor.
    - by rewrite app_nil_r. }
  destruct (flag_set (vm_flags p) VM_DONTCOPY) eqn:Hd.
  { destruct (clear_entry e p =? 0) eqn:Hz; cbn [negb].
    - destruct (IH d (set_tree [] (count mm) (drop_account (stats mm) p) mm) w) as (r & mm' & w' & d' & Hl & L).
      exists r, mm', w', d'. split; [exact Hl|]. apply looped_skip; [|done]. unfold copied. congruence.
    - eexists _, _, _, []. split; [done|]. apply looped_stop; [lia|apply until_zero_marked|apply gained_refl]. }
  destruct (fatal_signal e p).
  { eexists _, _, _, []. split; [done|]. apply looped_stop; [done|apply until_zero_marked|apply gained_refl]. }
  pose proof (dup_area_spec p w) as Ha. destruct (dup_area e p w) as [[err|c] w1].
  - destruct Ha as [-> Hg]. eexists _, _, _, []. split; [done|].
    apply looped_stop; [done|apply until_zero_marked|done].
  - destruct Ha as (Hc & Hid & Hf & Hg).
    set (retval := if flag_set _ _ then 0 else _).
    set (w2 := take_all _ w1).
    assert (Hw2 : gained (area_res e c) (committed_for c) w w2).
    { split; destruct Hg as [G1 G2 G3]; unfold w2; autorewrite with held; try lia.
      intros x. unfold area_res. autorewrite with held. rewrite G1. unfold base_res. count_res. }
    assert (Hf2 : fresh w2 = fresh w + 1) by (unfold w2; by autorewrite with held).
    change [Some c] with (Some <$> [c]). rewrite <- fmap_app.
    destruct (retval =? 0) eqn:Hz; cbn [negb].
    + destruct (IH (d ++ [c]) (set_tree [] (count mm + 1) (stats mm) mm) w2) as (r & mm' & w' & d' & Hl & L).
      exists r, mm', w', (c :: d'). split; [exact Hl|]. by eapply looped_cons.
    + eexists _, _, _, [c]. split; [done|]. eapply looped_cons; try done.
      apply (looped_stop _ _ (set_tree [] (count mm + 1) (stats mm) mm)); [lia| |apply gained_refl].
      destruct olds; [apply until_zero_all|apply until_zero_marked].
Qed.

(** ** Copies of well-formed areas *)

Lemma copies_pages l k : Forall2 copy_of l k -> pages k = pages l.
Proof.
  induction 1 as [|p c l k Hc _ IH]; [done|]. rewrite !pages_cons, IH. f_equal.
  unfold vma_pages. by rewrite (cp_start _ _ Hc), (cp_end _ _ Hc).
Qed.

Lemma copies_ok l k : Forall2 copy_of l k -> areas_ok l -> areas_ok k.
Proof.
  induction 1 as [|p c l k Hc Hk IH]; intros Hok; [apply areas_ok_nil|].
  apply areas_ok_cons in Hok as (Hp & Hl & Hb). apply areas_ok_cons. split; [|split].
  - destruct Hp, Hc as [E1 E2]. by split; rewrite ?E1, ?E2.
  - by apply IH.
  - intros y Hy. apply list_elem_of_lookup in Hy as [i Hi].
    destruct (Forall2_lookup_r _ _ _ _ _ Hk Hi) as (x & Hx & Hxy).
    unfold before. rewrite (cp_end _ _ Hc), (cp_start _ _ Hxy). apply Hb. by eapply list_elem_of_lookup_2.
Qed.

Lemma copied_ok l pre post : areas_ok l -> filter copied l = pre ++ post -> areas_ok pre.
Proof.
  intros Hok He. assert (Hf : areas_ok (filter copied l)).
  { clear He. induction l as [|v l IH]; [done|]. apply areas_ok_cons in Hok as (Hv & Hl & Hb).
    rewrite filter_cons. case_decide; [|by apply IH]. apply areas_ok_cons. split; [done|].
    split; [by apply IH|]. intros y Hy. apply Hb. by apply list_elem_of_filter in Hy as [_ ?]. }
  rewrite He in Hf. by apply areas_ok_app in Hf as (? & _).
Qed.

Lemma copied_pages l :
  pages l = pages (filter copied l) + pages (filter (fun v => ~ copied v) l).
Proof.
  induction l as [|v l IH]; [done|]. rewrite pages_cons.
  destruct (decide (copied v)) as [Hv|Hv].
  - rewrite filter_cons_True, (filter_cons_False (fun v => ~ copied v)), pages_cons by (try done; by intros []). lia.
  - rewrite filter_cons_False, (filter_cons_True (fun v => ~ copied v)), pages_cons by done. lia.
Qed.

(** ** The whole address space *)

Definition exe_res (o : option Z) : list res := match o with Some f => [Rexe f; Rdeny f] | None => [] end.
Definition module_res (b : bool) : list res := if b then [Rmodule] else [].

(** The parent already denies writing to the executable, as [dup_mm_exe_file] says. *)
Context (exe_denied : deny_write_access e = true).

(** Everything held is as in [w]; of each table of operations, [open] and [close] were
    called for the same areas, once each and where the table has them. *)
Record undone (w w' : world) : Prop := {
  un_held : forall x, (forall o, x <> Ropen o /\ x <> Rclose o) -> held w' x = held w x;
  un_calls : forall o, exists n, 0 <= n /\
    held w' (Ropen o) = held w (Ropen o) + (if has_open e o then n else 0) /\
    held w' (Rclose o) = held w (Rclose o) + (if has_close e o then n else 0);
  un_pages : committed_as w' = committed_as w
}.

(** How many of the areas have the table [o]. *)
Definition users (o : Z) (l : list vma) : Z :=
  foldr (fun v n => (if decide (vm_ops v = Some o) then 1 else 0) + n) 0 l.

Lemma users_nonneg o l : 0 <= users o l.
Proof. induction l as [|v l IH]; cbn; [lia|]. fold (users o l). case_decide; lia. Qed.

Lemma ops_call_count has (call : Z -> res) (l : list vma) x :
  (forall o o', call o = call o' -> o = o') ->
  (forall o, x = call o -> sum_res (l ≫= ops_call has call) x = if has o then users o l else 0) /\
  ((forall o, x <> call o) -> sum_res (l ≫= ops_call has call) x = 0).
Proof.
  intros Hinj. induction l as [|v l [IH1 IH2]]; [by split; [intros o _; destruct (has o)|]|].
  change ((v :: l) ≫= ops_call has call) with (ops_call has call v ++ (l ≫= ops_call has call)).
  split; intros; rewrite sum_res_app.
  - rewrite (IH1 o) by done. cbn [users foldr]. fold (users o l). unfold ops_call. subst x.
    destruct (vm_ops v) as [o'|]; [|case_decide; [done|]; destruct (has o); count_res].
    destruct (decide (Some o' = Some o)) as [[= ->]|Hne].
    + destruct (has o); count_res. unfold one. case_decide; [lia|done].
    + assert (sum_res (if has o' then [call o'] else []) (call o) = 0) as ->; [|by destruct (has o)].
      destruct (has o'); [|done]. count_res. unfold one. case_decide as E; [|lia].
      apply Hinj in E. congruence.
  - rewrite IH2 by done. unfold ops_call. destruct (vm_ops v) as [o'|]; [|done].
    destruct (has o'); [|done]. count_res. unfold one. case_decide; [|lia]. naive_solver.
Qed.

Lemma undone_calls l w w' :
  (forall x, held w' x = held w x + calls_of l x) -> committed_as w' = committed_as w -> undone w w'.
Proof.
  intros Hh Hp. assert (Ho := ops_call_count (has_open e) Ropen l). assert (Hc := ops_call_count (has_close e) Rclose l).
  split; [intros x Hx|intros o; exists (users o l)|done].
  - rewrite Hh. unfold calls_of, opens, closes.
    rewrite (proj2 (Ho x ltac:(congruence))), (proj2 (Hc x ltac:(congruence))) by (intros o; apply (Hx o)). lia.
  - split; [apply users_nonneg|]. rewrite !Hh. unfold calls_of, opens, closes.
    rewrite (proj1 (Ho (Ropen o) ltac:(congruence)) o eq_refl), (proj2 (Hc (Ropen o) ltac:(congruence))) by done.
    rewrite (proj2 (Ho (Rclose o) ltac:(congruence))), (proj1 (Hc (Rclose o) ltac:(congruence)) o eq_refl) by done.
    lia.
Qed.

(** Releasing the last use gives back what the address space holds. *)
Lemma mmput_spec mm w l :
  until_zero (tree mm) = l -> count mm = Z.of_nat (length l) -> areas_ok l ->
  exists w', __mmput e mm w = Some w' /\
    (forall x, held w' x = held w x
       - sum_res (all_res l ++ exe_res (exe mm) ++ module_res (binfmt mm) ++ mm_res) x + calls_of l x) /\
    committed_as w' = committed_as w - accounted l.
Proof.
  intros Hl Hc Hok. unfold __mmput.
  destruct (exit_mmap_spec mm w l Hl Hc Hok) as (w1 & -> & Hh & Hp).
  unfold set_mm_exe_file. cbn [negb]. eexists. split; [done|]. cbn [binfmt]. unfold __mmdrop, mm_free_pgd, exe_res, module_res, mm_res.
  split; [intros x|]; destruct (exe mm), (binfmt mm); count_res; rewrite ?Hh, ?Hp; count_res.
Qed.

Context {T : Type} `{VmaTree T}.
Implicit Types m : mm_struct T.

(** The counters the loop starts from. *)
Definition start_stats (c : counters) : counters :=
  Counters (total_vm c) 0 (data_vm c) (exec_vm c) (stack_vm c).

(** An address space under construction that holds the areas [d], of which [w'] has the
    resources more than [w]. *)
Record holds (m : mm_struct T) (w : world) (mm : newmm) (w' : world) (d : list vma) : Prop := {
  ho_tree : until_zero (tree mm) = d;
  ho_count : count mm = Z.of_nat (length d);
  ho_ok : areas_ok d;
  ho_gained : gained (mm_res ++ exe_res (exe mm) ++ all_res d) (accounted d) w w'
}.

(** The child is a copy of [m]. *)
Record child_of (m : mm_struct T) (w w' : world) (mm : newmm) (d : list vma) : Prop := {
  ch_tree : tree mm = Some <$> d;
  ch_copies : Forall2 copy_of (filter copied (vmas (mm_mt m))) d;
  ch_ids : NoDup (vm_id <$> d);
  ch_fresh : Forall (fun v => fresh w <= vm_id v < fresh w') d;
  ch_exe : exe mm = old_exe e;
  ch_stats : stats mm
    = foldl drop_account (start_stats (ctr m)) (filter (fun v => ~ copied v) (vmas (mm_mt m)))
}.

Lemma set_unlocked m : mmap_lock m = Unlocked -> set_lock Unlocked (set_lock WriteLocked m) = m.
Proof. destruct m; cbn. by intros ->. Qed.

Lemma holds_nothing m w mm w' :
  until_zero (tree mm) = [] -> count mm = 0 -> gained (mm_res ++ exe_res (exe mm)) 0 w w' ->
  holds m w mm w' [].
Proof. intros Ht Hc Hg. split; try done; [apply areas_ok_nil|]. by rewrite app_nil_r. Qed.

Lemma dup_mmap_spec m mm0 w0 w :
  mmap_lock m = Unlocked -> areas_ok (vmas (mm_mt m)) -> gained mm_res 0 w0 w ->
  tree mm0 = [] -> count mm0 = 0 -> exe mm0 = None -> locked_vm (stats mm0) = 0 ->
  exists r mm w' d, dup_mmap e mm0 m w = (r, mm, m, w') /\ holds m w0 mm w' d /\
    binfmt mm = binfmt mm0 /\ (r = 0 -> child_of m w0 w' mm d).
Proof.
  intros Hlock Hok Hg Ht Hc He Hlv. unfold dup_mmap. destruct (lock_killable e).
  { eexists _, mm0, w, []. split; [done|]. split; [|done].
    apply holds_nothing; [by rewrite Ht|done|]. by rewrite He. }
  unfold dup_mm_exe_file. rewrite exe_denied.
  set (w1 := match old_exe e with Some f => hold (Rdeny f) 1 _ | None => _ end).
  assert (Hw1 : gained (mm_res ++ exe_res (old_exe e)) 0 w0 w1).
  { apply (gained_trans _ _ 0 0 _ w); [done|]. unfold w1. destruct (old_exe e); split; count_res. }
  rewrite set_unlocked by done. cbv zeta.
  set (mm1 := set_tree _ _ (Counters _ _ _ _ _) _).
  assert (Hmm1 : tree mm1 = [] /\ count mm1 = 0 /\ exe mm1 = old_exe e /\
                 stats mm1 = start_stats (ctr m) /\ binfmt mm1 = binfmt mm0).
  { unfold mm1. cbn. by rewrite Ht, Hc, Hlv. }
  destruct Hmm1 as (H1 & H2 & H3 & H4 & H5).
  assert (Hnone : holds m w0 mm1 w1 []).
  { apply holds_nothing; [by rewrite H1|done|]. by rewrite H3. }
  destruct (ksm_fork e =? 0) eqn:Hk; cbn [negb].
  2: { eexists _, mm1, w1, []. split; [done|]. split; [done|]. split; [done|]. lia. }
  destruct (mt_dup e =? 0) eqn:Hm; cbn [negb].
  2: { eexists _, mm1, w1, []. split; [done|]. split; [done|]. split; [done|]. lia. }
  destruct (dup_loop_spec (vmas (mm_mt m)) [] mm1 w1) as (r & mm & w' & d & Hl & L).
  cbn [fmap list_fmap] in Hl. change (mm_mt (set_lock WriteLocked m)) with (mm_mt m). rewrite Hl.
  exists r, mm, w', d. split; [done|]. destruct L as [L1 L2 L3 L4 L5 (pre & post & L6 & L6') L7 L8 L9].
  assert (Hfr := g_fresh _ _ _ _ Hw1). split; [|split; [congruence|]].
  - split; [done|lia| |].
    + eapply copies_ok; [done|]. by eapply copied_ok.
    + rewrite L3, H3, app_assoc. exact (gained_trans _ _ _ _ _ _ _ Hw1 L5).
  - intros Hr. destruct (L9 Hr) as (M1 & M2 & M3). split; try done; [|congruence].
    eapply Forall_impl; [exact L7|]. cbn. lia.
Qed.

Lemma mm_init_spec mm w0 :
  match mm_init e mm (hold Rmm 1 w0) with
  | (None, w) => gained [] 0 w0 w
  | (Some mm', w) => gained mm_res 0 w0 w /\ tree mm' = [] /\ count mm' = 0 /\ exe mm' = None /\
                     locked_vm (stats mm') = 0 /\ binfmt mm' = binfmt mm
  end.
Proof.
  unfold mm_init, mm_alloc_pgd, fail_pcpu, fail_cid, fail_nocontext, fail_nopgd, mm_free_pgd, mm_res.
  destruct (pgd_alloc e), (init_new_context e), (mm_alloc_cid e), (percpu_init e); cbn [negb];
    try (split; [|done]); split; count_res.
Qed.

Lemma holds_put m w0 mm w d :
  holds m w0 mm w d -> exists w', free_pt e mm w = Some w' /\ undone w0 w'.
Proof.
  intros [H1 H2 H3 [G1 G2 G3]]. unfold free_pt.
  destruct (mmput_spec (NewMm (tree mm) (count mm) (stats mm) (exe mm) false) w d H1 H2 H3)
    as (w' & -> & Hh & Hp).
  exists w'. split; [done|]. apply (undone_calls d); [intros x; rewrite Hh, G1|rewrite Hp, G2; lia].
  cbn [exe binfmt]. unfold module_res. count_res.
Qed.

(** What [dup_mm] returns, in one statement. *)
Record duplicated m (w w' : world) (mm : newmm) (d : list vma) : Prop := {
  du_child : child_of m w w' mm d;
  du_count : count mm = Z.of_nat (length d);
  du_ok : areas_ok d;
  du_binfmt : binfmt mm = old_binfmt e;
  du_gained : gained (mm_res ++ exe_res (exe mm) ++ all_res d ++ module_res (binfmt mm)) (accounted d) w w'
}.

Lemma dup_mm_cases m w :
  mmap_lock m = Unlocked -> areas_ok (vmas (mm_mt m)) ->
  exists r w', dup_mm e m w = Some (r, m, w') /\
    match r with
    | None => undone w w'
    | Some mm => exists d, duplicated m w w' mm d
    end.
Proof.
  intros Hlock Hok. unfold dup_mm. destruct (allocate_mm e); cbn [negb].
  2: { exists None, w. split; [done|]. apply (undone_calls []); [intros x; unfold calls_of|]; count_res. }
  set (mmi := NewMm _ _ _ _ _). pose proof (mm_init_spec mmi w) as Hi.
  destruct (mm_init e mmi (hold Rmm 1 w)) as [[mm0|] w1].
  2: { exists None, w1. split; [done|]. destruct Hi as [I1 I2 _].
       apply (undone_calls []); [intros x; rewrite I1; unfold calls_of|rewrite I2]; count_res. }
  destruct Hi as (Hg & I1 & I2 & I3 & I4 & I5).
  destruct (dup_mmap_spec m mm0 w w1 Hlock Hok Hg I1 I2 I3 I4) as (r & mm & w2 & d & -> & Hh & Hb & Hch).
  destruct (holds_put _ _ _ _ _ Hh) as (w3 & Hput & Hfree). rewrite Hput.
  destruct (r =? 0) eqn:Hr; cbn [negb]; [|by exists None, w3].
  destruct (binfmt mm && negb (try_module_get e)); [by exists None, w3|].
  eexists (Some mm), _. split; [done|]. exists d. destruct Hh as [H1 H2 H3 [G1 G2 G3]].
  destruct (Hch ltac:(lia)) as [C1 C2 C3 C4 C5 C6].
  assert (Hw : forall f : world -> Z, f = committed_as \/ f = fresh ->
    f (if binfmt mm then hold Rmodule 1 w2 else w2) = f w2).
  { intros f [-> | ->]; by destruct (binfmt mm). }
  split; [split|..]; try done.
  - rewrite Hw by auto. done.
  - by rewrite Hb, I5.
  - split; [intros x|rewrite Hw; auto|rewrite Hw; auto]. specialize (G1 x).
    autorewrite with held in *. unfold module_res. destruct (binfmt mm); count_res.
Qed.

Lemma pages_nonneg l : Forall vma_ok l -> 0 <= pages l.
Proof.
  induction 1 as [|v l Hv _ IH]; [done|]. rewrite pages_cons. pose proof (vma_pages_nonneg v Hv). lia.
Qed.

Lemma drop_account_locked l c : locked_vm (foldl drop_account c l) = locked_vm c.
Proof.
  revert c. induction l as [|v l IH]; intros c; cbn; [done|]. rewrite IH.
  unfold drop_account, vm_stat_account. by repeat case_match.
Qed.

Lemma child_total m w w' mm d :
  mm_wf m -> child_of m w w' mm d -> total_vm (stats mm) = pages d.
Proof.
  intros Hwf [C1 C2 C3 C4 C5 C6]. pose proof (copied_pages (vmas (mm_mt m))) as Hp.
  pose proof (pages_range _ (wf_areas m Hwf)) as Hr. pose proof (wf_total m Hwf) as Ht.
  assert (Hc : 0 <= pages (filter copied (vmas (mm_mt m)))).
  { apply pages_range. apply (copied_ok (vmas (mm_mt m)) _ []); [apply Hwf|by rewrite app_nil_r]. }
  rewrite C6, (copies_pages _ _ C2).
  assert (Hdrop : Forall vma_ok (filter (fun v => ~ copied v) (vmas (mm_mt m)))).
  { apply Forall_forall. intros v Hv. apply list_elem_of_filter in Hv as [_ Hv].
    destruct (wf_areas m Hwf) as [_ Hf]. rewrite Forall_forall in Hf. by apply Hf. }
  pose proof (pages_nonneg _ Hdrop).
  unfold drop_account. rewrite remove_total; cbn [start_stats total_vm]; [lia|done|lia|lia].
Qed.

(** ** The claims *)

(** C30. Copying an address space is all or nothing: whatever step fails, no [BUG_ON]
    fires, the parent is left as it was and unlocked, and every structure, reference and
    committed page taken on the way is given back; and the last [mmput] of a child that
    was made gives back exactly what making it took.  The operations of the areas are
    called in step: [close] for exactly the copies [open] was called for, each where the
    table has it. *)
Theorem dup_mm_all_or_nothing m w :
  mm_wf m -> mmap_lock m = Unlocked ->
  exists r w', dup_mm e m w = Some (r, m, w') /\
    match r with
    | None => undone w w'
    | Some mm => exists w2, __mmput e mm w' = Some w2 /\ undone w w2
    end.
Proof.
  intros Hwf Hlock. destruct (dup_mm_cases m w Hlock (wf_areas m Hwf)) as (r & w' & Hd & Hr).
  exists r, w'. split; [done|]. destruct r as [mm|]; [|done].
  destruct Hr as [d [D1 D2 D3 D4 [G1 G2 _]]].
  assert (Ht : until_zero (tree mm) = d) by (rewrite (ch_tree _ _ _ _ _ D1); apply until_zero_all).
  destruct (mmput_spec mm w' d Ht D2 D3) as (w2 & Hp & Hh & Hc). exists w2. split; [done|].
  apply (undone_calls d); [intros x; rewrite Hh, G1|rewrite Hc, G2; lia]. count_res.
Qed.

(** C31. The child of a successful copy is a well-formed address space: its tree holds
    ordered, disjoint, page-aligned areas with fresh structures and no marker, as many as
    [map_count] says; they are the areas of the parent without the [VM_DONTCOPY] ones, at
    the same addresses with the same access, file and policy, not locked in memory;
    [total_vm] counts their pages, [locked_vm] is zero, and their accounted pages have
    been charged. *)
Theorem dup_mm_child_wf m w mm m' w' :
  mm_wf m -> mmap_lock m = Unlocked -> dup_mm e m w = Some (Some mm, m', w') ->
  exists d, tree mm = Some <$> d /\ areas_ok d /\ count mm = Z.of_nat (length d) /\
    NoDup (vm_id <$> d) /\ Forall (fun v => fresh w <= vm_id v < fresh w') d /\
    Forall2 copy_of (filter copied (vmas (mm_mt m))) d /\
    total_vm (stats mm) = pages d /\ locked_vm (stats mm) = 0 /\
    committed_as w' = committed_as w + accounted d.
Proof.
  intros Hwf Hlock Hd. destruct (dup_mm_cases m w Hlock (wf_areas m Hwf)) as (r & w1 & Hd1 & Hr).
  rewrite Hd in Hd1. injection Hd1 as <- -> <-. destruct Hr as [d [D1 D2 D3 D4 [G1 G2 _]]].
  exists d. pose proof (child_total _ _ _ _ _ Hwf D1) as Ht. destruct D1 as [C1 C2 C3 C4 C5 C6].
  repeat split; try done; try apply D3. by rewrite C6, drop_account_locked.
Qed.
End spec.
End DupMmSpec.

(** ** A concrete parent: a shared file area, one that is not copied, a locked private one,
    and one with a table that has [close] only, as the special mappings have *)

Module DupDemo.
Import Mm MmSpec DupMm DupMmSpec.

Definition parent : mm_struct (list vma) :=
  MmStruct [Vma 1 65536 98304 0x2b 0 (Some 7) (Some 5) None true (Some 2) None None;
            Vma 2 98304 131072 0x20003 24 None None None true None None None;
            Vma 3 1048576 1056768 0x102003 256 None None (Some 4) true None None (Some 9);
            Vma 4 2097152 2101248 0x71 512 None (Some 6) None true None None None]
    4 (Counters 19 2 10 0 2) 32768 32768 0 0 0 8388608 Unlocked 10 5.

(** [fails] tells whether copying the pages of the area fails. *)
Definition demo_env (fails : vma -> bool) : dup_env := {|
  vme := env0; old_exe := Some 7; old_binfmt := true; try_module_get := true; deny_write_access := true;
  lock_killable := false; ksm_fork := 0; mt_dup := 0; arch_dup_mmap := 0;
  clear_entry := fun _ => 0; fatal_signal := fun _ => false; enough_for := fun _ => true;
  area_alloc := fun _ => true; lock_alloc := fun _ => true; dup_policy := fun _ => 0;
  dup_userfaultfd := fun v => inr (None, vm_flags v); anon_vma_fork := fun v => inr (vm_id v);
  copy_page_range := fun v => if fails v then - ENOMEM else 0;
  has_open := fun o => o =? 5; has_close := fun _ => true;
  allocate_mm := true; pgd_alloc := true; init_new_context := true; mm_alloc_cid := true;
  percpu_init := true |}.

Definition world0 : world := World (fun _ => 1) 10 5.

Lemma demo_flags f v u g : dup_userfaultfd (demo_env f) v = inr (u, g) ->
  exists m, g = Z.ldiff (vm_flags v) m /\ Z.land m COPY_KEPT = 0.
Proof. intros [= _ <-]. exists 0. by rewrite Z.ldiff_0_r. Qed.

Lemma parent_wf : mm_wf parent.
Proof.
  constructor.
  - split; repeat constructor; by compute.
  - cbn. repeat (constructor; [set_solver|]). constructor.
  - repeat constructor.
  - done.
  - vm_compute. done.
Qed.

(** Whether a child was made. *)
Definition made {A B} (r : option (option newmm * A * B)) : option bool :=
  match r with Some (Some _, _, _) => Some true | Some (None, _, _) => Some false | None => None end.

Definition env_fail : dup_env := demo_env (fun v => vm_id v =? 4).
Definition env_ok : dup_env := demo_env (fun _ => false).

Lemma dup_mm_all_or_nothing_witness :
  made (dup_mm env_fail parent world0) = Some false /\
  exists r w', dup_mm env_fail parent world0 = Some (r, parent, w') /\
    match r with
    | None => undone env_fail world0 w'
    | Some mm => exists w2, __mmput env_fail mm w' = Some w2 /\ undone env_fail world0 w2
    end.
Proof.
  split; [vm_compute; reflexivity|].
  exact (dup_mm_all_or_nothing env_fail (demo_flags _) eq_refl parent world0 parent_wf eq_refl).
Defined.

Lemma dup_mm_child_wf_witness :
  exists mm m' w', dup_mm env_ok parent world0 = Some (Some mm, m', w') /\
  exists d, tree mm = Some <$> d /\ areas_ok d /\ count mm = Z.of_nat (length d) /\
    NoDup (vm_id <$> d) /\ Forall (fun v => fresh world0 <= vm_id v < fresh w') d /\
    Forall2 copy_of (filter copied (vmas (mm_mt parent))) d /\
    total_vm (stats mm) = pages d /\ locked_vm (stats mm) = 0 /\
    committed_as w' = committed_as world0 + accounted d.
Proof.
  assert (Hm : made (dup_mm env_ok parent world0) = Some true) by (vm_compute; reflexivity).
  destruct (dup_mm env_ok parent world0) as [[[[mm|] m'] w']|] eqn:Hd; [|discriminate Hm|discriminate Hm].
  exists mm, m', w'. split; [reflexivity|].
  exact (dup_mm_child_wf env_ok (demo_flags _) eq_refl parent world0 mm m' w' parent_wf eq_refl Hd).
Defined.
End DupDemo.
