(* ===== verification/Stacks.v ===== *)
(** * Task structures and their kernel stacks ([kernel/fork.c])

    [dup_task_struct] and [free_task], the allocation of kernel stacks with the two cached
    stacks of each CPU, their memory-cgroup charges, and the limit on the number of
    threads; the configuration is that of x86-64 ([CONFIG_VMAP_STACK],
    [CONFIG_THREAD_INFO_IN_TASK]).  A stack is named by its [vm_struct]; the memory of a
    stack is only known to hold old data or not.  [None] stands for the use of a missing
    stack or a second [call_rcu] on a queued one. *)
From stdpp Require Import gmap functions.
From S2P Require Import Prelude.

Module Stacks.

Definition NR_CACHED_STACKS : nat := 2.
Definition THREAD_SIZE : Z := 16384.
Definition THREAD_PAGES : Z := THREAD_SIZE / PAGE_SIZE.

(** [exiting] is PF_EXITING, set by [do_exit]; [dead] is the state TASK_DEAD. *)
Record task := Task {
  stack_vm_area : option Z; stack_refcount : Z; exiting : bool; dead : bool
}.

(** [charged v i] are the charges of page [i] of stack [v], [stack_kb] is
    NR_KERNEL_STACK_KB, [rcu] the stacks queued by [call_rcu], [live] those that
    [vmalloc] handed out, [stale] those with old data. *)
Record kernel := Kernel {
  tasks : gmap Z task; cached : Z * nat -> option Z; rcu : gset Z; live : gset Z;
  charged : Z -> Z -> Z; stack_kb : Z; stale : gset Z; next_stack : Z; next_task : Z
}.

Definition set_tasks x s := Kernel x (cached s) (rcu s) (live s) (charged s) (stack_kb s) (stale s) (next_stack s) (next_task s).
Definition set_cached x s := Kernel (tasks s) x (rcu s) (live s) (charged s) (stack_kb s) (stale s) (next_stack s) (next_task s).
Definition set_rcu x s := Kernel (tasks s) (cached s) x (live s) (charged s) (stack_kb s) (stale s) (next_stack s) (next_task s).
Definition set_charged x s := Kernel (tasks s) (cached s) (rcu s) (live s) x (stack_kb s) (stale s) (next_stack s) (next_task s).
Definition set_kb x s := Kernel (tasks s) (cached s) (rcu s) (live s) (charged s) x (stale s) (next_stack s) (next_task s).
Definition set_stale x s := Kernel (tasks s) (cached s) (rcu s) (live s) (charged s) (stack_kb s) x (next_stack s) (next_task s).

(** What the allocators and other subsystems answer. *)
Record answers := {
  task_alloc : bool; arch_dup : Z; vmalloc_ok : bool; charge_page : Z -> Z -> Z; scs_prepare : Z
}.

(** ** [vmalloc] *)

Definition vmalloc (s : kernel) : Z * kernel :=
  let v := next_stack s in
  (v, Kernel (tasks s) (cached s) (rcu s) ({[ v ]} ∪ live s) (charged s) (stack_kb s)
             (stale s ∖ {[ v ]}) (v + 1) (next_task s)).
Definition vfree (v : Z) (s : kernel) : kernel :=
  Kernel (tasks s) (cached s) (rcu s) (live s ∖ {[ v ]}) (charged s) (stack_kb s) (stale s)
         (next_stack s) (next_task s).

(** ** The cache *)

Fixpoint release_loop (slots : list nat) (cpu vm : Z) (s : kernel) : bool * kernel :=
  match slots with
  | [] => (false, s)
  | i :: slots =>
      match cached s (cpu, i) with
      | Some _ => release_loop slots cpu vm s
      | None => (true, set_cached (<[(cpu, i) := Some vm]> (cached s)) s)
      end
  end.
Definition try_release_thread_stack_to_cache (cpu vm : Z) (s : kernel) : bool * kernel :=
  release_loop (seq 0 NR_CACHED_STACKS) cpu vm s.

(** The callback, for a stack taken off the queue. *)
Definition thread_stack_free_rcu (cpu vm : Z) (s : kernel) : kernel :=
  let s := set_rcu (rcu s ∖ {[ vm ]}) s in
  match try_release_thread_stack_to_cache cpu vm s with
  | (true, s) => s
  | (false, s) => vfree vm s
  end.

Definition thread_stack_delayed_free (vm : Z) (s : kernel) : option kernel :=
  if decide (vm ∈ rcu s) then None else Some (set_rcu ({[ vm ]} ∪ rcu s) s).

Definition free_slot (cpu : Z) (i : nat) (s : kernel) : kernel :=
  match cached s (cpu, i) with
  | None => s
  | Some vm => set_cached (<[(cpu, i) := None]> (cached s)) (vfree vm s)
  end.
Definition free_vm_stack_cache (cpu : Z) (s : kernel) : kernel :=
  foldl (fun s i => free_slot cpu i s) s (seq 0 NR_CACHED_STACKS).

(** ** Charges *)

Definition add_charge (vm i d : Z) (s : kernel) : kernel :=
  set_charged (<[vm := <[i := charged s vm i + d]> (charged s vm)]> (charged s)) s.
Definition memcg_kmem_uncharge_page (vm i : Z) (s : kernel) : kernel := add_charge vm i (-1) s.

Fixpoint charge_loop (e : answers) (pages : list Z) (vm nr_charged : Z) (s : kernel) : Z * Z * kernel :=
  match pages with
  | [] => (0, nr_charged, s)
  | i :: pages =>
      let ret := charge_page e vm i in
      if negb (ret =? 0) then (ret, nr_charged, s)
      else charge_loop e pages vm (nr_charged + 1) (add_charge vm i 1 s)
  end.
Definition uncharge_first (vm n : Z) (s : kernel) : kernel :=
  foldl (fun s i => memcg_kmem_uncharge_page vm i s) s (seqZ 0 n).
Definition memcg_charge_kernel_stack (e : answers) (vm : Z) (s : kernel) : Z * kernel :=
  let '(ret, nr_charged, s) := charge_loop e (seqZ 0 THREAD_PAGES) vm 0 s in
  if negb (ret =? 0) then (ret, uncharge_first vm nr_charged s) else (0, s).

(** ** Stacks of tasks *)

Fixpoint take_cached (slots : list nat) (cpu : Z) (s : kernel) : option Z * kernel :=
  match slots with
  | [] => (None, s)
  | i :: slots =>
      match cached s (cpu, i) with
      | None => take_cached slots cpu s
      | Some vm => (Some vm, set_cached (<[(cpu, i) := None]> (cached s)) s)
      end
  end.

Definition set_stack (o : option Z) (k : task) : task := Task o (stack_refcount k) (exiting k) (dead k).
Definition set_refcount (n : Z) (k : task) : task := Task (stack_vm_area k) n (exiting k) (dead k).
Definition upd_task (t : Z) (f : task -> task) (s : kernel) : kernel := set_tasks (alter f t (tasks s)) s.

Definition alloc_thread_stack_node (e : answers) (cpu t : Z) (s : kernel) : Z * kernel :=
  match take_cached (seq 0 NR_CACHED_STACKS) cpu s with
  | (Some vm, s) =>
      let s := set_stale (stale s ∖ {[ vm ]}) s in
      let '(ret, s) := memcg_charge_kernel_stack e vm s in
      if negb (ret =? 0) then (- ENOMEM, vfree vm s)
      else (0, upd_task t (set_stack (Some vm)) s)
  | (None, s) =>
      if negb (vmalloc_ok e) then (- ENOMEM, s)
      else
        let '(vm, s) := vmalloc s in
        let '(ret, s) := memcg_charge_kernel_stack e vm s in
        if negb (ret =? 0) then (- ENOMEM, vfree vm s)
        else (0, upd_task t (set_stack (Some vm)) s)
  end.

Definition task_stack_vm_area (t : Z) (s : kernel) : option Z := tasks s !! t ≫= stack_vm_area.

Definition free_thread_stack (cpu t : Z) (s : kernel) : option kernel :=
  vm ← task_stack_vm_area t s;
  let '(ok, s) := try_release_thread_stack_to_cache cpu vm s in
  s ← (if ok then Some s else thread_stack_delayed_free vm s);
  Some (upd_task t (set_stack None) s).

(** Page by page. *)
Definition account_kernel_stack (t account : Z) (s : kernel) : option kernel :=
  _ ← task_stack_vm_area t s;
  Some (foldl (fun s _ => set_kb (stack_kb s + account * (PAGE_SIZE / 1024)) s) s (seqZ 0 THREAD_PAGES)).

Definition exit_task_stack_account (t : Z) (s : kernel) : option kernel :=
  s ← account_kernel_stack t (-1) s;
  vm ← task_stack_vm_area t s;
  Some (uncharge_first vm THREAD_PAGES s).

Definition release_task_stack (cpu t : Z) (s : kernel) : option kernel :=
  k ← tasks s !! t;
  if negb (dead k) then Some s else free_thread_stack cpu t s.

Definition put_task_stack (cpu t : Z) (s : kernel) : option kernel :=
  k ← tasks s !! t;
  let n := stack_refcount k - 1 in
  let s := upd_task t (set_refcount n) s in
  if n =? 0 then release_task_stack cpu t s else Some s.

(** ** Task structures *)

Definition alloc_task_struct_node (s : kernel) : Z * kernel :=
  let t := next_task s in
  (t, Kernel (<[t := Task None 0 false false]> (tasks s)) (cached s) (rcu s) (live s) (charged s)
             (stack_kb s) (stale s) (next_stack s) (t + 1)).
Definition free_task_struct (t : Z) (s : kernel) : kernel := set_tasks (delete t (tasks s)) s.
Definition free_task (t : Z) (s : kernel) : kernel := free_task_struct t s.

(** Label [free_stack]. *)
Definition free_stack (cpu t : Z) (s : kernel) : option kernel :=
  s ← exit_task_stack_account t s;
  s ← free_thread_stack cpu t s;
  Some (free_task_struct t s).

(** The new structure or NULL.  The copied fields of [orig] that matter here are those
    that are reset at once: the stack, its count and the exit flags. *)
Definition dup_task_struct (e : answers) (cpu : Z) (s : kernel) : option (option Z * kernel) :=
  if negb (task_alloc e) then Some (None, s)
  else
    let '(t, s) := alloc_task_struct_node s in
    if negb (arch_dup e =? 0) then Some (None, free_task_struct t s)
    else
      let '(err, s) := alloc_thread_stack_node e cpu t s in
      if negb (err =? 0) then Some (None, free_task_struct t s)
      else
        let s := upd_task t (set_refcount 1) s in
        s ← account_kernel_stack t 1 s;
        if negb (scs_prepare e =? 0) then s ← free_stack cpu t s; Some (None, s)
        else Some (Some t, s).

(** What [copy_process] does with the structure at its label [bad_fork_free]. *)
Definition bad_fork_free_task (cpu t : Z) (s : kernel) : option kernel :=
  let s := upd_task t (fun k => Task (stack_vm_area k) (stack_refcount k) (exiting k) true) s in
  s ← exit_task_stack_account t s;
  s ← put_task_stack cpu t s;
  Some (free_task t s).

(** ** The limit on threads *)

Definition MIN_THREADS : Z := 20.
Definition MAX_THREADS : Z := 0x3fffffff.
Definition fls64 (x : Z) : Z := if x =? 0 then 0 else Z.log2 x + 1.
Definition clamp (x lo hi : Z) : Z := Z.max lo (Z.min x hi).

Definition set_max_threads (nr_pages max_threads_suggested : Z) : Z :=
  let threads :=
    if 64 <? fls64 nr_pages + fls64 PAGE_SIZE then MAX_THREADS
    else (nr_pages *u PAGE_SIZE) / (THREAD_SIZE *u 8) in
  let threads := if max_threads_suggested <? threads then max_threads_suggested else threads in
  clamp threads MIN_THREADS MAX_THREADS.

(** [max_threads] and the limits on processes and pending signals of the first task. *)
Definition fork_init (nr_pages : Z) : Z * (Z * Z) * (Z * Z) :=
  let max_threads := set_max_threads nr_pages MAX_THREADS in
  let nproc := (max_threads / 2, max_threads / 2) in
  (max_threads, nproc, nproc).

(** [parse] is what [proc_dointvec_minmax] makes of the buffer; on a write it stores a
    value between the two bounds. *)
Definition sysctl_max_threads (parse : Z -> Z -> Z -> Z * Z) (write : bool) (max_threads : Z) : Z * Z :=
  let '(ret, threads) := parse max_threads 1 MAX_THREADS in
  if negb (ret =? 0) || negb write then (ret, max_threads) else (0, threads).
End Stacks.
