(* ===== verification/StacksSpec.v ===== *)
(** * Properties of kernel stacks

    Every stack that was allocated has exactly one owner: a task, a slot of a CPU's cache
    or the queue of delayed frees.  No stack is used by two tasks, none is lost, none is
    freed while it is in use, and the charges are those of the tasks that have not
    exited, whatever the order of forks, exits, references and callbacks. *)
From stdpp Require Import gmap functions.
From S2P Require Import Prelude Stacks.

Module StacksSpec.
Import Stacks.

(** ** Ownership *)

Inductive place := PTask (t : Z) | PCache (cpu : Z) (i : nat) | PRcu (v : Z).
#[export] Instance place_eq_dec : EqDecision place.
Proof. solve_decision. Defined.

Definition at_ (s : kernel) (p : place) : option Z :=
  match p with
  | PTask t => task_stack_vm_area t s
  | PCache cpu i => cached s (cpu, i)
  | PRcu v => if decide (v ∈ rcu s) then Some v else None
  end.

(** [h] is the stack a function holds that has not found its place yet. *)
Record owned (h : option Z) (s : kernel) : Prop := {
  ow_one : forall p q v, at_ s p = Some v -> at_ s q = Some v -> p = q;
  ow_hand : forall p v, h = Some v -> at_ s p <> Some v;
  ow_live : forall v, v ∈ live s <-> h = Some v \/ exists p, at_ s p = Some v;
  ow_fresh : forall v, v ∈ live s -> v < next_stack s;
  ow_slots : forall cpu i, (NR_CACHED_STACKS <= i)%nat -> cached s (cpu, i) = None
}.

(** Two states with the same places. *)
Record same_places (s s' : kernel) : Prop := {
  sp_at : forall p, at_ s' p = at_ s p;
  sp_live : live s' = live s; sp_next : next_stack s' = next_stack s
}.

Lemma owned_same h s s' : same_places s s' -> owned h s -> owned h s'.
Proof.
  intros [H1 H2 H3] [O1 O2 O3 O4 O5]. split.
  - intros p q v. rewrite !H1. apply O1.
  - intros p v. rewrite H1. apply O2.
  - intros v. rewrite H2, O3. by setoid_rewrite H1.
  - intros v. rewrite H2, H3. apply O4.
  - intros cpu i Hi. specialize (H1 (PCache cpu i)). cbn in H1. rewrite H1. by apply O5.
Qed.

(** Taking a stack out of a place, and putting it into an empty one. *)
Lemma owned_take s s' p v :
  owned None s -> at_ s p = Some v -> live s' = live s -> next_stack s' = next_stack s ->
  (forall q, at_ s' q = if decide (q = p) then None else at_ s q) -> owned (Some v) s'.
Proof.
  intros [O1 O2 O3 O4 O5] Hp Hl Hn Ha. split.
  - intros q r u. rewrite !Ha. repeat case_decide; try done. apply O1.
  - intros q u [= <-]. rewrite Ha. case_decide as Hd; [done|]. intros Hq. apply Hd. by eapply O1.
  - intros u. rewrite Hl, O3. split.
    + intros [[=]|[q Hq]]. destruct (decide (q = p)) as [->|Hd]; [left; congruence|].
      right. exists q. rewrite Ha. by rewrite decide_False.
    + intros [[= <-]|[q Hq]]; right; [by exists p|]. rewrite Ha in Hq. case_decide; [done|]. by exists q.
  - rewrite Hl, Hn. done.
  - intros cpu i Hi. specialize (Ha (PCache cpu i)). cbn in Ha. rewrite Ha. case_decide; [done|]. by apply O5.
Qed.

Lemma owned_put s s' p v :
  owned (Some v) s -> at_ s p = None -> live s' = live s -> next_stack s' = next_stack s ->
  (forall cpu i, p = PCache cpu i -> (i < NR_CACHED_STACKS)%nat) ->
  (forall q, at_ s' q = if decide (q = p) then Some v else at_ s q) -> owned None s'.
Proof.
  intros [O1 O2 O3 O4 O5] Hp Hl Hn Hs Ha. split.
  - intros q r u. rewrite !Ha. repeat case_decide; try done.
    + congruence.
    + intros [= <-] Hr. by destruct (O2 r v eq_refl).
    + intros Hq [= <-]. by destruct (O2 q v eq_refl).
    + apply O1.
  - done.
  - intros u. rewrite Hl, O3. split.
    + intros [[= <-]|[q Hq]]; right.
      * exists p. rewrite Ha. by rewrite decide_True.
      * exists q. rewrite Ha. rewrite decide_False; [done|]. intros ->. congruence.
    + intros [[=]|[q Hq]]. rewrite Ha in Hq. case_decide; [left; congruence|]. right. by exists q.
  - rewrite Hl, Hn. done.
  - intros cpu i Hi. specialize (Ha (PCache cpu i)). cbn in Ha. rewrite Ha. case_decide as Hd; [|by apply O5].
    symmetry in Hd. apply Hs in Hd. lia.
Qed.

Lemma owned_vfree s v : owned (Some v) s -> owned None (vfree v s).
Proof.
  intros [O1 O2 O3 O4 O5].
  assert (Ha : forall q, at_ (vfree v s) q = at_ s q) by (by intros []).
  split; try setoid_rewrite Ha; try done.
  - intros u. cbn. rewrite elem_of_difference, elem_of_singleton, O3. split.
    + intros [[[= <-]|Hq] Hne]; [done|by right].
    + intros [[=]|[q Hq]]. split; [right; by exists q|]. intros ->. by apply (O2 q v).
  - intros u Hu. cbn in *. apply O4. set_solver.
Qed.

Lemma owned_vmalloc s v s' : owned None s -> vmalloc s = (v, s') -> owned (Some v) s'.
Proof.
  intros [O1 O2 O3 O4 O5] [= <- <-].
  assert (Hnew : forall q, at_ s q <> Some (next_stack s)).
  { intros q Hq. assert (Hl : next_stack s ∈ live s) by (apply O3; right; by exists q).
    apply O4 in Hl. lia. }
  split; cbn [live next_stack].
  - exact O1.
  - intros p v [= <-]. exact (Hnew p).
  - intros u. rewrite elem_of_union, elem_of_singleton, O3. split.
    + intros [->|[[=]|Hq]]; [by left|by right].
    + intros [[= ->]|Hq]; [by left|right; by right].
  - intros u Hu. apply elem_of_union in Hu as [Hu%elem_of_singleton|Hu]; [lia|]. apply O4 in Hu. lia.
  - exact O5.
Qed.

(** ** The places an operation changes *)

Lemma at_set_cached s cpu i o q :
  at_ (set_cached (<[(cpu, i) := o]> (cached s)) s) q = if decide (q = PCache cpu i) then o else at_ s q.
Proof.
  destruct (decide (q = PCache cpu i)) as [->|Hq]; cbn; [by rewrite fn_lookup_insert|].
  destruct q as [t|c j|v]; cbn; try done. rewrite fn_lookup_insert_ne; [done|]. congruence.
Qed.

Lemma at_set_stack s t o q :
  is_Some (tasks s !! t) ->
  at_ (upd_task t (set_stack o) s) q = if decide (q = PTask t) then o else at_ s q.
Proof.
  intros [k Hk]. destruct (decide (q = PTask t)) as [->|Hq]; cbn; unfold task_stack_vm_area; cbn.
  - by rewrite lookup_alter_eq, Hk.
  - destruct q as [u|c j|v]; cbn; try done. unfold task_stack_vm_area. cbn. rewrite lookup_alter_ne; congruence.
Qed.

Lemma at_set_task s t f q :
  (forall k, stack_vm_area (f k) = stack_vm_area k) -> at_ (upd_task t f s) q = at_ s q.
Proof.
  intros Hf. destruct q as [u|c j|v]; cbn; try done. unfold task_stack_vm_area. cbn.
  destruct (decide (u = t)) as [->|Hne]; [|by rewrite lookup_alter_ne].
  rewrite lookup_alter_eq. destruct (tasks s !! t); cbn; [apply Hf|done].
Qed.

Lemma at_rcu_add s v q : at_ (set_rcu ({[ v ]} ∪ rcu s) s) q = if decide (q = PRcu v) then Some v else at_ s q.
Proof.
  destruct (decide (q = PRcu v)) as [->|Hq]; cbn; [rewrite decide_True; set_solver|].
  destruct q as [t|c j|u]; cbn; try done.
  rewrite (decide_ext (u ∈ {[ v ]} ∪ rcu s) (u ∈ rcu s)); [done|]. set_solver.
Qed.

Lemma at_rcu_remove s v q :
  at_ (set_rcu (rcu s ∖ {[ v ]}) s) q = if decide (q = PRcu v) then None else at_ s q.
Proof.
  destruct (decide (q = PRcu v)) as [->|Hq]; cbn; [rewrite decide_False; set_solver|].
  destruct q as [t|c j|u]; cbn; try done.
  rewrite (decide_ext (u ∈ rcu s ∖ {[ v ]}) (u ∈ rcu s)); [done|]. set_solver.
Qed.

(** ** The cache *)

(** Nothing but places of stacks without a task changes. *)
Record quiet (s s' : kernel) : Prop := {
  qu_tasks : tasks s' = tasks s; qu_charged : charged s' = charged s;
  qu_kb : stack_kb s' = stack_kb s; qu_next : next_task s' = next_task s
}.
Lemma quiet_refl s : quiet s s.
Proof. done. Qed.
Lemma quiet_trans s1 s2 s3 : quiet s1 s2 -> quiet s2 s3 -> quiet s1 s3.
Proof. intros [] []. split; congruence. Qed.

Lemma try_release_spec cpu v s :
  owned (Some v) s ->
  match try_release_thread_stack_to_cache cpu v s with
  | (true, s') => owned None s' /\ quiet s s' /\ stale s' = stale s
  | (false, s') => s' = s
  end.
Proof.
  intros Ho. unfold try_release_thread_stack_to_cache.
  assert (Hin : Forall (fun i => (i < NR_CACHED_STACKS)%nat) (seq 0 NR_CACHED_STACKS)).
  { apply Forall_forall. intros i Hi. apply elem_of_seq in Hi. lia. }
  induction Hin as [|i l Hi _ IH]; cbn [release_loop]; [done|].
  destruct (cached s (cpu, i)) eqn:Hc; [exact IH|]. split; [|done].
  apply (owned_put s _ (PCache cpu i) v); try done; [|apply at_set_cached].
  intros c j [= -> ->]. done.
Qed.

Lemma take_cached_spec slots cpu s :
  owned None s ->
  match take_cached slots cpu s with
  | (Some v, s') => owned (Some v) s' /\ quiet s s' /\ stale s' = stale s /\ exists i, cached s (cpu, i) = Some v
  | (None, s') => s' = s
  end.
Proof.
  intros Ho. induction slots as [|i l IH]; cbn [take_cached]; [done|].
  destruct (cached s (cpu, i)) as [v|] eqn:Hc; [|exact IH]. split; [|split; [done|split; [done|by exists i]]].
  apply (owned_take s _ (PCache cpu i) v); try done. apply at_set_cached.
Qed.

Lemma free_rcu_spec cpu v s :
  owned None s -> v ∈ rcu s ->
  owned None (thread_stack_free_rcu cpu v s) /\ quiet s (thread_stack_free_rcu cpu v s).
Proof.
  intros Ho Hv. unfold thread_stack_free_rcu. set (s1 := set_rcu _ s).
  assert (Ho1 : owned (Some v) s1).
  { apply (owned_take s _ (PRcu v) v); try done; [|apply at_rcu_remove]. cbn. by rewrite decide_True. }
  pose proof (try_release_spec cpu v s1 Ho1) as Hr.
  destruct (try_release_thread_stack_to_cache cpu v s1) as [[] s2].
  - destruct Hr as (H1 & H2 & _). split; [done|]. by apply (quiet_trans _ s1).
  - subst s2. split; [by apply owned_vfree|done].
Qed.

Lemma free_slot_spec cpu i s :
  owned None s -> owned None (free_slot cpu i s) /\ quiet s (free_slot cpu i s).
Proof.
  intros Ho. unfold free_slot. destruct (cached s (cpu, i)) as [v|] eqn:Hc; [|done]. split; [|done].
  change (owned None (vfree v (set_cached (<[(cpu, i) := None]> (cached s)) s))). apply owned_vfree.
  apply (owned_take s _ (PCache cpu i) v); try done. apply at_set_cached.
Qed.

Lemma free_cache_spec cpu s :
  owned None s -> owned None (free_vm_stack_cache cpu s) /\ quiet s (free_vm_stack_cache cpu s) /\
  forall i, cached (free_vm_stack_cache cpu s) (cpu, i) = None.
Proof.
  intros Ho. change (free_vm_stack_cache cpu s) with (free_slot cpu 1 (free_slot cpu 0 s)).
  destruct (free_slot_spec cpu 0 s Ho) as [H1 H2]. destruct (free_slot_spec cpu 1 _ H1) as [H3 H4].
  split; [done|]. split; [by eapply quiet_trans|].
  assert (Hslot : forall i j s, cached (free_slot cpu i s) (cpu, j) = if decide (j = i) then None else cached s (cpu, j)).
  { clear. intros i j s. unfold free_slot. destruct (cached s (cpu, i)) eqn:Hc; case_decide as Hj; subst; try done; cbn.
    - by rewrite fn_lookup_insert.
    - rewrite fn_lookup_insert_ne; congruence. }
  intros i. rewrite !Hslot. destruct (decide (i = 1%nat)); [done|]. destruct (decide (i = 0%nat)); [done|].
  apply Ho. unfold NR_CACHED_STACKS. lia.
Qed.

(** ** Charges *)

(** The charges of [s'] are those of [s] with [d] more on each of the first [n] pages of [v]. *)
Definition charges_plus (v n d : Z) (s s' : kernel) : Prop :=
  forall u i, charged s' u i = charged s u i + (if bool_decide (u = v /\ 0 <= i < n) then d else 0).

(** Only the charges change. *)
Definition only_charged (s s' : kernel) : Prop := s' = set_charged (charged s') s.

Lemma add_charge_spec v j d s u i :
  charged (add_charge v j d s) u i = charged s u i + (if bool_decide (u = v /\ i = j) then d else 0).
Proof.
  cbn. destruct (decide (u = v)) as [->|Hu].
  - rewrite fn_lookup_insert. destruct (decide (i = j)) as [->|Hi].
    + by rewrite fn_lookup_insert, bool_decide_true.
    + rewrite fn_lookup_insert_ne by congruence. rewrite bool_decide_false by naive_solver. lia.
  - rewrite fn_lookup_insert_ne by congruence. rewrite bool_decide_false by naive_solver. lia.
Qed.

Lemma uncharge_first_spec v n s :
  0 <= n -> charges_plus v n (-1) s (uncharge_first v n s) /\ only_charged s (uncharge_first v n s).
Proof.
  intros Hn. unfold uncharge_first. rewrite <- (Z2Nat.id n) by done. generalize (Z.to_nat n). clear n Hn.
  intros n. unfold seqZ. rewrite Nat2Z.id. revert s. 
  induction n as [|n IH]; intros s.
  - split; [|by destruct s]. intros u i. rewrite bool_decide_false by lia. cbn. lia.
  - rewrite seq_S, fmap_app, foldl_app. cbn [fmap list_fmap foldl].
    destruct (IH s) as [H1 H2]. set (s1 := foldl _ s _) in *. split.
    + intros u i. unfold memcg_kmem_uncharge_page. rewrite add_charge_spec, H1.
      repeat case_bool_decide; lia.
    + unfold only_charged in *. unfold memcg_kmem_uncharge_page, add_charge. cbn. by rewrite H2.
Qed.

Lemma charge_loop_spec e v n k s :
  match charge_loop e (seqZ k (Z.of_nat n)) v k s with
  | (ret, nr, s') => k <= nr <= k + Z.of_nat n /\ (ret = 0 -> nr = k + Z.of_nat n) /\ only_charged s s' /\
      forall u i, charged s' u i = charged s u i + (if bool_decide (u = v /\ k <= i < nr) then 1 else 0)
  end.
Proof.
  revert k s. induction n as [|n IH]; intros k s.
  - rewrite seqZ_nil by lia. cbn. split; [lia|]. split; [lia|]. split; [by destruct s|].
    intros u i. rewrite bool_decide_false by lia. lia.
  - rewrite seqZ_cons by lia. replace (Z.pred (Z.of_nat (S n))) with (Z.of_nat n) by lia. cbn [charge_loop].
    destruct (charge_page e v k =? 0) eqn:Hc; cbn [negb].
    + specialize (IH (k + 1) (add_charge v k 1 s)). change (Z.succ k) with (k + 1).
      destruct (charge_loop e (seqZ (k + 1) (Z.of_nat n)) v (k + 1) (add_charge v k 1 s)) as [[ret nr] s'].
      destruct IH as (H1 & H2 & H3 & H4). split; [lia|]. split; [lia|]. split.
      * unfold only_charged in *. rewrite H3. done.
      * intros u i. rewrite H4, add_charge_spec. repeat case_bool_decide; lia.
    + split; [lia|]. split; [lia|]. split; [by destruct s|].
      intros u i. rewrite bool_decide_false by lia. lia.
Qed.

Lemma memcg_charge_spec e v s :
  match memcg_charge_kernel_stack e v s with
  | (ret, s') => only_charged s s' /\ charges_plus v (if ret =? 0 then THREAD_PAGES else 0) 1 s s'
  end.
Proof.
  unfold memcg_charge_kernel_stack. pose proof (charge_loop_spec e v 4 0 s) as Hl.
  change (seqZ 0 (Z.of_nat 4)) with (seqZ 0 THREAD_PAGES) in Hl.
  destruct (charge_loop e (seqZ 0 THREAD_PAGES) v 0 s) as [[ret nr] s1].
  destruct Hl as (H1 & H2 & H3 & H4). destruct (ret =? 0) eqn:Hr; cbn [negb].
  - change (0 =? 0) with true. split; [done|]. intros u i. rewrite H4, H2 by lia. done.
  - rewrite Hr. destruct (uncharge_first_spec v nr s1) as [G1 G2]; [lia|]. split.
    + unfold only_charged in *. rewrite G2, H3. done.
    + intros u i. rewrite G1, H4. repeat case_bool_decide; lia.
Qed.

Lemma only_charged_same s s' : only_charged s s' -> same_places s s'.
Proof. intros ->. split; try done; by intros []. Qed.

(** ** New tasks *)

Definition fresh_task : task := Task None 0 false false.

(** The outcome of giving a stack to [t]: on success a clean one that no task had. *)
Definition stack_given (t : Z) (s : kernel) (r : Z * kernel) : Prop :=
  owned None r.2 /\ stack_kb r.2 = stack_kb s /\ next_task r.2 = next_task s /\
  if r.1 =? 0 then
    exists v, tasks r.2 = <[t := Task (Some v) 0 false false]> (tasks s) /\
      (forall u, task_stack_vm_area u s <> Some v) /\ v ∉ stale r.2 /\ charges_plus v THREAD_PAGES 1 s r.2
  else tasks r.2 = tasks s /\ charges_plus 0 0 0 s r.2.

Lemma assign_stack_spec e t v s s1 :
  tasks s !! t = Some fresh_task -> owned (Some v) s1 -> quiet s s1 -> v ∉ stale s1 ->
  (forall u, task_stack_vm_area u s <> Some v) ->
  stack_given t s (let '(ret, s) := memcg_charge_kernel_stack e v s1 in
                   if negb (ret =? 0) then (- ENOMEM, vfree v s) else (0, upd_task t (set_stack (Some v)) s)).
Proof.
  intros Ht Ho1 [Q1 Q2 Q3 Q4] Hst Hno. pose proof (memcg_charge_spec e v s1) as Hc.
  destruct (memcg_charge_kernel_stack e v s1) as [ret s2]. destruct Hc as [C1 C2].
  assert (Ho2 : owned (Some v) s2) by (by apply (owned_same _ s1); [apply only_charged_same|]).
  assert (E1 : tasks s2 = tasks s) by (rewrite C1; exact Q1).
  assert (E2 : stack_kb s2 = stack_kb s /\ next_task s2 = next_task s /\ stale s2 = stale s1) by (by rewrite C1).
  destruct E2 as (E2 & E3 & E4).
  destruct (ret =? 0) eqn:Hr; cbn [negb]; unfold stack_given; cbn [fst snd].
  - split; [|split; [done|split; [done|]]].
    + apply (owned_put s2 _ (PTask t) v); try done.
      * cbn. unfold task_stack_vm_area. by rewrite E1, Ht.
      * intros q. apply at_set_stack. rewrite E1, Ht. by eexists.
    + exists v. split; [|split; [done|split; [by cbn; rewrite E4|]]].
      * cbn. rewrite E1. apply map_eq. intros u. destruct (decide (u = t)) as [->|Hu].
        -- by rewrite lookup_alter_eq, lookup_insert_eq, Ht.
        -- by rewrite lookup_alter_ne, lookup_insert_ne.
      * intros u i. cbn. rewrite C2, Q2. done.
  - split; [by apply owned_vfree|]. split; [done|]. split; [done|]. split; [done|].
    intros u i. cbn. rewrite C2, Q2. repeat case_bool_decide; lia.
Qed.

Lemma alloc_thread_stack_spec e cpu t s :
  owned None s -> tasks s !! t = Some fresh_task -> stack_given t s (alloc_thread_stack_node e cpu t s).
Proof.
  intros Ho Ht. unfold alloc_thread_stack_node.
  pose proof (take_cached_spec (seq 0 NR_CACHED_STACKS) cpu s Ho) as Hc.
  destruct (take_cached (seq 0 NR_CACHED_STACKS) cpu s) as [[v|] s1].
  - destruct Hc as (C1 & C2 & C3 & i & Hi). apply assign_stack_spec; try done.
    + by apply (owned_same _ s1); [split; try done; by intros []|].
    + destruct C2. by split.
    + cbn. set_solver.
    + intros u Hu. by pose proof (ow_one _ _ Ho (PTask u) (PCache cpu i) v Hu Hi).
  - subst s1. destruct (vmalloc_ok e); cbn [negb].
    + destruct (vmalloc s) as [v s1] eqn:Hv. pose proof (owned_vmalloc _ _ _ Ho Hv) as Ho1.
      injection Hv as <- <-. apply assign_stack_spec; try done; [cbn; set_solver|].
      intros u Hu. assert (Hl : next_stack s ∈ live s) by (apply Ho; right; by exists (PTask u)).
      apply (ow_fresh _ _ Ho) in Hl. lia.
    + split; [done|]. split; [done|]. split; [done|]. split; [done|].
      intros u i. rewrite bool_decide_false by lia. cbn. lia.
Qed.

Lemma try_release_task cpu v t f s :
  try_release_thread_stack_to_cache cpu v (upd_task t f s)
  = let '(ok, s') := try_release_thread_stack_to_cache cpu v s in (ok, upd_task t f s').
Proof.
  unfold try_release_thread_stack_to_cache. induction (seq 0 NR_CACHED_STACKS) as [|i l IH]; cbn; [done|].
  by destruct (cached s (cpu, i)).
Qed.

Lemma try_release_full cpu v s s' : try_release_thread_stack_to_cache cpu v s = (false, s') -> s' = s.
Proof.
  unfold try_release_thread_stack_to_cache. induction (seq 0 NR_CACHED_STACKS) as [|i l IH]; cbn; [congruence|].
  by destruct (cached s (cpu, i)).
Qed.

(** Giving the stack of a task back. *)
Lemma free_thread_stack_spec cpu t v s :
  owned None s -> task_stack_vm_area t s = Some v ->
  exists s', free_thread_stack cpu t s = Some s' /\ owned None s' /\
    tasks s' = alter (set_stack None) t (tasks s) /\ charged s' = charged s /\ stack_kb s' = stack_kb s /\
    next_task s' = next_task s.
Proof.
  intros Ho Hv. unfold free_thread_stack. rewrite Hv. cbn [mbind option_bind].
  assert (Hk : is_Some (tasks s !! t)).
  { unfold task_stack_vm_area in Hv. destruct (tasks s !! t); [by eexists|done]. }
  set (s0 := upd_task t (set_stack None) s).
  assert (Ho0 : owned (Some v) s0).
  { apply (owned_take s _ (PTask t) v); try done. intros q. by apply at_set_stack. }
  pose proof (try_release_spec cpu v s0 Ho0) as Hr.
  unfold s0 in Hr. rewrite try_release_task in Hr. fold s0 in Hr.
  destruct (try_release_thread_stack_to_cache cpu v s) as [[] s1] eqn:Hs.
  - destruct Hr as (R1 & [R2 R3 R4 R5] & _). cbn [mbind option_bind]. by eexists.
  - apply try_release_full in Hs as ->. unfold thread_stack_delayed_free.
    assert (Hq : v ∉ rcu s).
    { intros Hq. assert (Hrc : at_ s0 (PRcu v) = Some v) by (cbn; by rewrite decide_True).
      by apply (ow_hand _ _ Ho0 (PRcu v) v). }
    rewrite decide_False by done. cbn [mbind option_bind]. eexists. split; [done|]. split; [|done].
    apply (owned_put s0 _ (PRcu v) v); try done; [cbn; by rewrite decide_False|].
    intros q. exact (at_rcu_add s0 v q).
Qed.

(** ** Accounts *)

Definition stack_total : Z := THREAD_SIZE / 1024.

Lemma account_spec t a v s :
  task_stack_vm_area t s = Some v ->
  account_kernel_stack t a s = Some (set_kb (stack_kb s + a * stack_total) s).
Proof.
  intros Hv. unfold account_kernel_stack. rewrite Hv. cbn [mbind option_bind]. f_equal.
  change (seqZ 0 THREAD_PAGES) with [0; 1; 2; 3]. cbn [foldl]. unfold set_kb. cbn [stack_kb tasks cached rcu live charged stale next_stack next_task].
  f_equal. change (PAGE_SIZE / 1024) with 4. change stack_total with 16. lia.
Qed.

Lemma exit_account_spec t v s :
  task_stack_vm_area t s = Some v ->
  exists s', exit_task_stack_account t s = Some s' /\
    s' = set_charged (charged s') (set_kb (stack_kb s - stack_total) s) /\
    charges_plus v THREAD_PAGES (-1) s s'.
Proof.
  intros Hv. unfold exit_task_stack_account. rewrite (account_spec _ _ _ _ Hv). cbn [mbind option_bind].
  set (s1 := set_kb _ s). change (task_stack_vm_area t s1) with (task_stack_vm_area t s). rewrite Hv. cbn [option_bind].
  destruct (uncharge_first_spec v THREAD_PAGES s1) as [H1 H2]; [done|].
  eexists. split; [done|]. split; [|exact H1]. unfold only_charged in H2. rewrite H2. cbn.
  done.
Qed.

(** ** [dup_task_struct] *)

Record forked (s : kernel) (t v : Z) (s' : kernel) : Prop := {
  fo_id : t = next_task s; fo_next : next_task s' = t + 1;
  fo_tasks : tasks s' = <[t := Task (Some v) 1 false false]> (tasks s);
  fo_unused : forall u, task_stack_vm_area u s <> Some v;
  fo_clean : v ∉ stale s';
  fo_charged : charges_plus v THREAD_PAGES 1 s s';
  fo_kb : stack_kb s' = stack_kb s + stack_total
}.

(** Back where it started, but for free stacks and the allocator of structures. *)
Record unforked (s s' : kernel) : Prop := {
  un_tasks : tasks s' = tasks s; un_charged : forall v i, charged s' v i = charged s v i;
  un_kb : stack_kb s' = stack_kb s; un_next : next_task s <= next_task s'
}.

Lemma same_no_stack s s' :
  cached s' = cached s -> rcu s' = rcu s -> live s' = live s -> next_stack s' = next_stack s ->
  (forall u, task_stack_vm_area u s' = task_stack_vm_area u s) -> same_places s s'.
Proof. intros E1 E2 E3 E4 E5. split; try done. intros [t|c i|v]; cbn; [apply E5|by rewrite E1|by rewrite E2]. Qed.

Lemma stack_insert s u t k :
  (<[t := k]> (tasks s) !! u ≫= stack_vm_area)
  = if decide (u = t) then stack_vm_area k else task_stack_vm_area u s.
Proof. case_decide as Hu; [subst; by rewrite lookup_insert_eq|by rewrite lookup_insert_ne]. Qed.

(** Giving back everything of a task and its structure. *)
Lemma free_stack_spec cpu t k v s :
  owned None s -> tasks s !! t = Some k -> stack_vm_area k = Some v ->
  exists s', free_stack cpu t s = Some s' /\ owned None s' /\ tasks s' = delete t (tasks s) /\
    charges_plus v THREAD_PAGES (-1) s s' /\ stack_kb s' = stack_kb s - stack_total /\
    next_task s' = next_task s.
Proof.
  intros Ho Hk Hv. assert (Hs : task_stack_vm_area t s = Some v) by (unfold task_stack_vm_area; by rewrite Hk).
  unfold free_stack. destruct (exit_account_spec t v s Hs) as (s1 & -> & E1 & E2). cbn [mbind option_bind].
  assert (Hsame : same_places s s1) by (rewrite E1; split; try done; by intros []).
  assert (Ht1 : tasks s1 = tasks s) by (by rewrite E1).
  destruct (free_thread_stack_spec cpu t v s1) as (s2 & -> & F1 & F2 & F3 & F4 & F5).
  { by eapply owned_same. } { unfold task_stack_vm_area. by rewrite Ht1, Hk. }
  cbn [mbind option_bind]. eexists. split; [done|].
  assert (Hd : delete t (tasks s2) = delete t (tasks s)) by (rewrite F2, Ht1; apply delete_alter_eq).
  split; [|split; [exact Hd|split; [|split]]].
  - eapply owned_same; [|exact F1]. apply same_no_stack; try done. intros u. unfold task_stack_vm_area. cbn.
    destruct (decide (u = t)) as [->|Hu]; [|by rewrite lookup_delete_ne].
    rewrite lookup_delete_eq, F2, lookup_alter_eq, Ht1, Hk. done.
  - intros u i. cbn. rewrite F3. apply E2.
  - cbn. rewrite F4, E1. done.
  - cbn. rewrite F5, E1. done.
Qed.

Lemma stack_upd_refcount s t v n :
  tasks s !! t = Some (Task (Some v) 0 false false) ->
  tasks (upd_task t (set_refcount n) s) = <[t := Task (Some v) n false false]> (tasks s).
Proof.
  intros Ht. cbn. apply map_eq. intros u. destruct (decide (u = t)) as [->|Hu].
  - by rewrite lookup_alter_eq, lookup_insert_eq, Ht.
  - by rewrite lookup_alter_ne, lookup_insert_ne.
Qed.

Lemma dup_task_struct_spec e cpu s :
  owned None s -> tasks s !! next_task s = None ->
  exists r s', dup_task_struct e cpu s = Some (r, s') /\ owned None s' /\
    match r with None => unforked s s' | Some t => exists v, forked s t v s' end.
Proof.
  intros Ho Hnew. unfold dup_task_struct. destruct (task_alloc e); cbn [negb].
  2: { exists None, s. split; [done|]. split; [done|]. by split. }
  unfold alloc_task_struct_node. set (t := next_task s) in *.
  set (s1 := Kernel _ (cached s) _ _ _ _ _ _ _).
  assert (Hs1 : same_places s s1).
  { apply same_no_stack; try done. intros u. unfold task_stack_vm_area at 1. cbn. rewrite stack_insert.
    case_decide; [subst; unfold task_stack_vm_area; by rewrite Hnew|done]. }
  assert (Ho1 : owned None s1) by (by eapply owned_same).
  assert (Hdel : forall s2, tasks s2 = tasks s1 -> owned None s2 -> owned None (free_task_struct t s2) /\
            tasks (free_task_struct t s2) = tasks s).
  { intros s2 Ht Ho2. assert (Hd : delete t (tasks s2) = tasks s) by (rewrite Ht; cbn; by rewrite delete_insert_id).
    split; [|exact Hd]. eapply owned_same; [|exact Ho2]. apply same_no_stack; try done.
    intros u. unfold task_stack_vm_area. cbn. rewrite Hd, Ht. cbn. rewrite stack_insert.
    case_decide; [subst; unfold task_stack_vm_area; by rewrite Hnew|done]. }
  destruct (arch_dup e =? 0); cbn [negb].
  2: { eexists None, _. split; [done|]. destruct (Hdel s1) as [H1 H2]; [done|done|].
       split; [done|]. split; try done. cbn. lia. }
  assert (Hf : tasks s1 !! t = Some fresh_task) by (cbn; by rewrite lookup_insert_eq).
  pose proof (alloc_thread_stack_spec e cpu t s1 Ho1 Hf) as Ha.
  destruct (alloc_thread_stack_node e cpu t s1) as [err s2]. destruct Ha as (A1 & A2 & A3 & A4). cbn [fst snd] in *.
  destruct (err =? 0); cbn [negb].
  2: { destruct A4 as [A4 A5]. eexists None, _. split; [done|]. destruct (Hdel s2) as [H1 H2]; [done|done|].
       split; [done|]. split; [done| |by cbn; rewrite A2|cbn; rewrite A3; cbn; lia].
       intros v i. cbn. rewrite A5. rewrite bool_decide_false by lia. cbn. lia. }
  destruct A4 as (v & V1 & V2 & V3 & V4). set (s3 := upd_task t (set_refcount 1) s2).
  assert (H3 : tasks s3 = <[t := Task (Some v) 1 false false]> (tasks s)).
  { unfold s3. rewrite (stack_upd_refcount _ _ v) by (rewrite V1; apply lookup_insert_eq).
    rewrite V1. cbn. by rewrite !insert_insert_eq. }
  assert (Ho3 : owned None s3) by (eapply owned_same; [|exact A1]; split; try done; intros q; by apply at_set_task).
  assert (Hk3 : tasks s3 !! t = Some (Task (Some v) 1 false false)) by (rewrite H3; apply lookup_insert_eq).
  rewrite (account_spec t 1 v) by (unfold task_stack_vm_area; by rewrite Hk3). cbn [mbind option_bind].
  set (s4 := set_kb _ s3).
  assert (Ho4 : owned None s4) by (eapply owned_same; [|exact Ho3]; split; try done; by intros []).
  destruct (scs_prepare e =? 0); cbn [negb].
  - exists (Some t), s4. split; [done|]. split; [done|]. exists v. split; try done.
    + intros u Hu. apply (V2 u). unfold task_stack_vm_area. cbn. rewrite stack_insert. case_decide; [|done].
      subst. unfold task_stack_vm_area in Hu. by rewrite Hnew in Hu.
    + cbn. rewrite A2. cbn. lia.
  - destruct (free_stack_spec cpu t _ v s4 Ho4 Hk3 eq_refl) as (s5 & -> & F1 & F2 & F3 & F4 & F5).
    cbn [mbind option_bind]. exists None, s5. split; [done|]. split; [done|]. split.
    + rewrite F2. change (tasks s4) with (tasks s3). rewrite H3. by apply delete_insert_id.
    + intros u i. rewrite F3. change (charged s4) with (charged s2). rewrite V4. cbn. repeat case_bool_decide; lia.
    + rewrite F4. change (stack_kb s4) with (stack_kb s2 + 1 * stack_total). rewrite A2. cbn. lia.
    + rewrite F5. change (next_task s4) with (next_task s2). rewrite A3. cbn. lia.
Qed.

(** ** The invariant *)

(** The task that pays for stack [v]: its owner, until it exits. *)
Definition payer (m : gmap Z task) (v : Z) : Prop :=
  exists t k, m !! t = Some k /\ exiting k = false /\ stack_vm_area k = Some v.

Definition paid (m : gmap Z task) (c : Z -> Z -> Z) : Prop :=
  (forall v i, payer m v -> 0 <= i < THREAD_PAGES -> c v i = 1) /\
  (forall v i, ~ (payer m v /\ 0 <= i < THREAD_PAGES) -> c v i = 0).

Definition running (m : gmap Z task) : Z := Z.of_nat (size (filter (fun x => exiting x.2 = false) m)).

Record task_ok (s : kernel) (t : Z) (k : task) : Prop := {
  tk_id : t < next_task s;
  tk_stack : is_Some (stack_vm_area k) <-> 0 < stack_refcount k;
  tk_count : 0 <= stack_refcount k;
  tk_alive : exiting k = false -> 0 < stack_refcount k;
  tk_dead : dead k = true -> exiting k = true
}.

Record inv (s : kernel) : Prop := {
  in_owned : owned None s;
  in_tasks : forall t k, tasks s !! t = Some k -> task_ok s t k;
  in_paid : paid (tasks s) (charged s);
  in_kb : stack_kb s = stack_total * running (tasks s)
}.

Lemma running_split m t k :
  m !! t = Some k -> running m = running (delete t m) + (if exiting k then 0 else 1).
Proof.
  intros Hk. unfold running. rewrite <- (insert_delete_id m t k Hk) at 1.
  destruct (exiting k) eqn:He.
  - rewrite map_filter_insert_False by (cbn; congruence). rewrite delete_delete_eq. lia.
  - rewrite map_filter_insert_True by done.
    rewrite map_size_insert_None; [lia|]. apply map_lookup_filter_None. left. apply lookup_delete_eq.
Qed.

Lemma running_alter m t k f :
  m !! t = Some k -> running (alter f t m)
    = running m - (if exiting k then 0 else 1) + (if exiting (f k) then 0 else 1).
Proof.
  intros Hk. rewrite (running_split (alter f t m) t (f k)) by (by rewrite lookup_alter_eq, Hk).
  rewrite (running_split m t k Hk), delete_alter_eq. lia.
Qed.

Lemma running_insert m t k :
  m !! t = None -> exiting k = false -> running (<[t := k]> m) = running m + 1.
Proof.
  intros Hn He. rewrite (running_split _ t k) by apply lookup_insert_eq. rewrite He, delete_insert_id by done. done.
Qed.

Lemma paid_same m m' c c' :
  paid m c -> (forall v, payer m' v <-> payer m v) -> (forall v i, c' v i = c v i) -> paid m' c'.
Proof. intros [P1 P2] Hp Hc. split; intros v i; rewrite Hp, Hc; auto. Qed.

Lemma paid_add m m' s s' v :
  paid m (charged s) -> ~ payer m v -> (forall u, payer m' u <-> payer m u \/ u = v) ->
  charges_plus v THREAD_PAGES 1 s s' -> paid m' (charged s').
Proof.
  intros [P1 P2] Hno Hp Hc. split; intros u i Hu.
  - intros Hi. rewrite Hc. apply Hp in Hu as [Hu| ->].
    + rewrite P1 by done. rewrite bool_decide_false; [lia|]. by intros [-> _].
    + rewrite P2 by tauto. by rewrite bool_decide_true.
  - rewrite Hc, P2; [|intros [H1 H2]; apply Hu; rewrite Hp; tauto].
    rewrite bool_decide_false; [done|]. intros [-> Hi]. apply Hu. rewrite Hp. tauto.
Qed.

Lemma paid_remove m m' s s' v :
  paid m (charged s) -> payer m v -> (forall u, payer m' u <-> payer m u /\ u <> v) ->
  charges_plus v THREAD_PAGES (-1) s s' -> paid m' (charged s').
Proof.
  intros [P1 P2] Hv Hp Hc. split; intros u i Hu.
  - intros Hi. rewrite Hc. apply Hp in Hu as [Hu Hne]. rewrite P1 by done.
    rewrite bool_decide_false; [lia|]. by intros [-> _].
  - rewrite Hc. destruct (decide (u = v /\ 0 <= i < THREAD_PAGES)) as [[-> Hi]|Hn].
    + rewrite P1 by done. by rewrite bool_decide_true.
    + rewrite bool_decide_false by done. rewrite P2; [done|]. rewrite Hp in Hu. intros [H1 H2].
      apply Hu. split; [|done]. split; [done|]. intros ->. by apply Hn.
Qed.

(** The payers after one task changed. *)
Lemma payer_alter m t k f u :
  m !! t = Some k -> payer (alter f t m) u <->
    (exiting (f k) = false /\ stack_vm_area (f k) = Some u) \/ payer (delete t m) u.
Proof.
  intros Hk. split.
  - intros (a & b & Ha & He & Hs). destruct (decide (a = t)) as [->|Hne].
    + rewrite lookup_alter_eq, Hk in Ha. injection Ha as <-. by left.
    + right. exists a, b. rewrite lookup_delete_ne by done. by rewrite lookup_alter_ne in Ha.
  - intros [[He Hs]|(a & b & Ha & He & Hs)].
    + exists t, (f k). by rewrite lookup_alter_eq, Hk.
    + apply lookup_delete_Some in Ha as [Hne Ha]. exists a, b. by rewrite lookup_alter_ne.
Qed.

Lemma payer_split m t k u :
  m !! t = Some k -> payer m u <->
    (exiting k = false /\ stack_vm_area k = Some u) \/ payer (delete t m) u.
Proof. intros Hk. rewrite <- (payer_alter m t k id u Hk). by rewrite alter_id. Qed.

(** No other task has the stack of [t]. *)
Lemma payer_other s t k v u :
  owned None s -> tasks s !! t = Some k -> stack_vm_area k = Some v ->
  payer (delete t (tasks s)) u -> u <> v.
Proof.
  intros Ho Hk Hv (a & b & Ha & He & Hs) ->. apply lookup_delete_Some in Ha as [Hne Ha].
  assert (PTask a = PTask t) as [= ->]; [|done].
  apply (ow_one _ _ Ho _ _ v); cbn; unfold task_stack_vm_area; [by rewrite Ha|by rewrite Hk].
Qed.

(** ** Steps *)

Definition set_exiting (k : task) : task := Task (stack_vm_area k) (stack_refcount k) true (dead k).
Definition set_dead (k : task) : task := Task (stack_vm_area k) (stack_refcount k) (exiting k) true.

(** What happens to tasks and stacks: forks that succeed or fail, [copy_process] giving up
    a task nobody has seen, [do_exit] (once for a task), the last switch away from a dead
    task, references to stacks, the release of a structure whose stack is gone, the
    callbacks, CPUs going offline, and tasks using their stacks.  The last reference to a
    stack is dropped when the task is dead: the scheduler holds one until then. *)
Inductive step (s : kernel) : kernel -> Prop :=
  | st_fork e cpu r s' : dup_task_struct e cpu s = Some (r, s') -> step s s'
  | st_unfork cpu t k s' : tasks s !! t = Some k -> exiting k = false -> stack_refcount k = 1 ->
      bad_fork_free_task cpu t s = Some s' -> step s s'
  | st_exit t k s' : tasks s !! t = Some k -> exiting k = false ->
      exit_task_stack_account t (upd_task t set_exiting s) = Some s' -> step s s'
  | st_dead t k : tasks s !! t = Some k -> exiting k = true -> step s (upd_task t set_dead s)
  | st_get t k : tasks s !! t = Some k -> 0 < stack_refcount k ->
      step s (upd_task t (set_refcount (stack_refcount k + 1)) s)
  | st_put cpu t k s' : tasks s !! t = Some k -> 0 < stack_refcount k ->
      dead k = true \/ 1 < stack_refcount k -> put_task_stack cpu t s = Some s' -> step s s'
  | st_free t k : tasks s !! t = Some k -> stack_refcount k = 0 -> step s (free_task t s)
  | st_rcu cpu v : v ∈ rcu s -> step s (thread_stack_free_rcu cpu v s)
  | st_offline cpu : step s (free_vm_stack_cache cpu s)
  | st_run t v : task_stack_vm_area t s = Some v -> step s (set_stale ({[ v ]} ∪ stale s) s).

Inductive reachable : kernel -> Prop :=
  | re_boot : reachable (Kernel ∅ (fun _ => None) ∅ ∅ (fun _ _ => 0) 0 ∅ 0 0)
  | re_step s s' : reachable s -> step s s' -> reachable s'.

Lemma inv_quiet s s' : inv s -> owned None s' -> quiet s s' -> inv s'.
Proof.
  intros [I1 I2 I3 I4] Ho [Q1 Q2 Q3 Q4]. split; [done| |by rewrite Q1, Q2|by rewrite Q1, Q3].
  intros t k. rewrite Q1. intros Hk. destruct (I2 t k Hk). by split; rewrite ?Q4.
Qed.

(** A change of a task that is not about its stack. *)
Lemma inv_task s t k f :
  inv s -> tasks s !! t = Some k -> (forall k, stack_vm_area (f k) = stack_vm_area k) ->
  exiting (f k) = exiting k -> task_ok s t (f k) -> inv (upd_task t f s).
Proof.
  intros [I1 I2 I3 I4] Hk Hf He Hok. split.
  - eapply owned_same; [|exact I1]. split; try done. intros q. by apply at_set_task.
  - intros u b. cbn. destruct (decide (u = t)) as [->|Hu].
    + rewrite lookup_alter_eq, Hk. cbn. intros [= <-]. destruct Hok. by split.
    + rewrite lookup_alter_ne by done. intros Hb. destruct (I2 u b Hb). by split.
  - cbn. eapply paid_same; [exact I3| |done]. intros v. rewrite (payer_alter _ t k), (payer_split (tasks s) t k) by done.
    by rewrite He, Hf.
  - cbn. rewrite (running_alter _ _ k) by done. rewrite He, I4. lia.
Qed.

Lemma inv_new s : inv s -> tasks s !! next_task s = None.
Proof.
  intros Hi. destruct (tasks s !! next_task s) as [k|] eqn:Hk; [|done].
  apply (in_tasks s Hi) in Hk as [Hid _ _ _ _]. lia.
Qed.

Lemma inv_forked s t v s' : inv s -> owned None s' -> forked s t v s' -> inv s'.
Proof.
  intros Hi Ho [F1 F2 F3 F4 F5 F6 F7]. pose proof (inv_new s Hi) as Hnew. rewrite <- F1 in Hnew.
  destruct Hi as [I1 I2 I3 I4]. split; [done| | |].
  - intros u b. rewrite F3. destruct (decide (u = t)) as [->|Hu].
    + rewrite lookup_insert_eq. intros [= <-]. split; cbn; [lia| |lia|lia|done].
      split; [lia|by intros _; eexists].
    + rewrite lookup_insert_ne by done. intros Hb. destruct (I2 u b Hb). split; try done. lia.
  - eapply (paid_add (tasks s) _ s); [done| | |exact F6].
    + intros (a & b & Ha & _ & Hs). apply (F4 a). unfold task_stack_vm_area. by rewrite Ha.
    + intros u. rewrite F3, (payer_split _ t (Task (Some v) 1 false false)) by apply lookup_insert_eq.
      rewrite delete_insert_id by done. cbn. naive_solver.
  - rewrite F3, F7, running_insert, I4 by done. lia.
Qed.

Lemma inv_unforked s s' : inv s -> owned None s' -> unforked s s' -> inv s'.
Proof.
  intros [I1 I2 I3 I4] Ho [U1 U2 U3 U4]. split; [done| | |by rewrite U1, U3].
  - intros t k. rewrite U1. intros Hk. destruct (I2 t k Hk). split; try done. lia.
  - by eapply paid_same; [exact I3|rewrite U1|exact U2].
Qed.

Lemma alive_stack s t k : inv s -> tasks s !! t = Some k -> 0 < stack_refcount k -> exists v, stack_vm_area k = Some v.
Proof. intros Hi Hk Hr. apply (in_tasks s Hi) in Hk as [_ [_ H] _ _ _]. by apply H. Qed.

Lemma upd_lookup t f s k : tasks s !! t = Some k -> tasks (upd_task t f s) !! t = Some (f k).
Proof. intros Hk. cbn. by rewrite lookup_alter_eq, Hk. Qed.

Lemma upd_owned t f s : (forall k, stack_vm_area (f k) = stack_vm_area k) -> owned None s -> owned None (upd_task t f s).
Proof. intros Hf. apply owned_same. split; try done. intros q. by apply at_set_task. Qed.

Lemma exit_inv s t k :
  inv s -> tasks s !! t = Some k -> exiting k = false ->
  exists s', exit_task_stack_account t (upd_task t set_exiting s) = Some s' /\ inv s'.
Proof.
  intros Hi Hk He. pose proof (in_tasks s Hi t k Hk) as Hok.
  destruct (alive_stack s t k Hi Hk) as [v Hv]; [by apply (tk_alive _ _ _ Hok)|].
  destruct (exit_account_spec t v (upd_task t set_exiting s)) as (s' & Hs & E1 & E2).
  { unfold task_stack_vm_area. by rewrite (upd_lookup _ _ _ k). }
  exists s'. split; [done|]. assert (Ht : tasks s' = alter set_exiting t (tasks s)) by (by rewrite E1).
  assert (Hn : next_task s' = next_task s) by (by rewrite E1).
  destruct Hi as [I1 I2 I3 I4]. split.
  - eapply owned_same; [|apply (upd_owned t set_exiting s); done]. by rewrite E1; split; intros; try done; destruct p.
  - intros u b. rewrite Ht. destruct (decide (u = t)) as [->|Hu].
    + rewrite lookup_alter_eq, Hk. intros [= <-]. destruct Hok. by split; rewrite ?Hn.
    + rewrite lookup_alter_ne by done. intros Hb. destruct (I2 u b Hb). by split; rewrite ?Hn.
  - apply (paid_remove (tasks s) _ s s' v); try done.
    + exists t, k. done.
    + intros u. rewrite Ht, (payer_alter _ t k), (payer_split (tasks s) t k) by done. cbn. split.
      * intros [[? _]|Hp]; [done|]. split; [by right|]. exact (payer_other s t k v u I1 Hk Hv Hp).
      * intros [[[_ Hu]|Hp] Hne]; [congruence|by right].
  - rewrite Ht, (running_alter _ _ k) by done. rewrite He, E1. cbn -[stack_total]. rewrite I4. lia.
Qed.

(** The last reference of a dead task. *)
Lemma put_last_spec cpu s t k v :
  owned None s -> tasks s !! t = Some k -> stack_refcount k = 1 -> dead k = true -> stack_vm_area k = Some v ->
  exists s', put_task_stack cpu t s = Some s' /\ owned None s' /\
    tasks s' = alter (fun k => set_stack None (set_refcount 0 k)) t (tasks s) /\
    charged s' = charged s /\ stack_kb s' = stack_kb s /\ next_task s' = next_task s.
Proof.
  intros Ho Hk Hr Hd Hv. unfold put_task_stack. rewrite Hk. cbn [mbind option_bind]. rewrite Hr.
  change (1 - 1 =? 0) with true. cbv iota. unfold release_task_stack. rewrite (upd_lookup _ _ _ k) by done.
  cbn [mbind option_bind]. cbn [set_refcount dead]. rewrite Hd. cbn [negb].
  destruct (free_thread_stack_spec cpu t v (upd_task t (set_refcount (1 - 1)) s)) as (s' & -> & F1 & F2 & F3).
  { by apply upd_owned. } { unfold task_stack_vm_area. by rewrite (upd_lookup _ _ _ k). }
  exists s'. split; [done|]. split; [done|]. split; [|done]. rewrite F2. cbn [upd_task set_tasks tasks].
  apply map_eq. intros u. destruct (decide (u = t)) as [->|Hu].
  - by rewrite !lookup_alter_eq, Hk.
  - by rewrite !lookup_alter_ne.
Qed.

Lemma put_inv cpu s t k :
  inv s -> tasks s !! t = Some k -> 0 < stack_refcount k -> dead k = true \/ 1 < stack_refcount k ->
  exists s', put_task_stack cpu t s = Some s' /\ inv s'.
Proof.
  intros Hi Hk Hr Hd. pose proof (in_tasks s Hi t k Hk) as Hok.
  destruct (decide (stack_refcount k = 1)) as [H1|H1].
  - assert (Hdd : dead k = true) by (destruct Hd; [done|lia]).
    assert (He : exiting k = true) by (by apply (tk_dead _ _ _ Hok)).
    destruct (alive_stack s t k Hi Hk Hr) as [v Hv].
    destruct (put_last_spec cpu s t k v (in_owned s Hi) Hk H1 Hdd Hv) as (s' & Hp & P1 & P2 & P3 & P4 & P5).
    exists s'. split; [done|]. destruct Hi as [I1 I2 I3 I4]. split; [done| | |].
    + intros u b. rewrite P2. destruct (decide (u = t)) as [->|Hu].
      * rewrite lookup_alter_eq, Hk. intros [= <-]. destruct Hok. split; cbn; rewrite ?P5;
          [done|split; [by intros []|lia]|lia|congruence|done].
      * rewrite lookup_alter_ne by done. intros Hb. destruct (I2 u b Hb). by split; rewrite ?P5.
    + rewrite P3. eapply paid_same; [exact I3| |done]. intros u.
      rewrite P2, (payer_alter _ t k), (payer_split (tasks s) t k) by done. cbn. rewrite He. naive_solver.
    + rewrite P2, P4, (running_alter _ _ k) by done. cbn. rewrite He, I4. lia.
  - unfold put_task_stack. rewrite Hk. cbn [mbind option_bind].
    rewrite (proj2 (Z.eqb_neq _ 0)) by lia. eexists. split; [done|].
    apply (inv_task s t k); try done. destruct Hok as [O1 O2 O3 O4 O5]. split; cbn; try done; try lia.
    rewrite O2. lia.
Qed.

Lemma unfork_inv cpu s t k :
  inv s -> tasks s !! t = Some k -> exiting k = false -> stack_refcount k = 1 ->
  exists s', bad_fork_free_task cpu t s = Some s' /\ inv s'.
Proof.
  intros Hi Hk He Hr. destruct (alive_stack s t k Hi Hk) as [v Hv]; [lia|]. destruct Hi as [I1 I2 I3 I4].
  unfold bad_fork_free_task. fold set_dead. set (s1 := upd_task t set_dead s).
  assert (Hk1 : tasks s1 !! t = Some (set_dead k)) by (by apply upd_lookup).
  destruct (exit_account_spec t v s1) as (s2 & -> & E1 & E2).
  { unfold task_stack_vm_area. by rewrite Hk1. }
  cbn [mbind option_bind].
  assert (Ht2 : tasks s2 = tasks s1) by (by rewrite E1).
  assert (Ho2 : owned None s2).
  { eapply owned_same; [|apply (upd_owned t set_dead s); done]. by rewrite E1; split; intros; try done; destruct p. }
  destruct (put_last_spec cpu s2 t (set_dead k) v Ho2) as (s3 & -> & P1 & P2 & P3 & P4 & P5); try done.
  { by rewrite Ht2. }
  cbn [mbind option_bind]. eexists. split; [done|].
  assert (Hd : tasks (free_task t s3) = delete t (tasks s)).
  { cbn. rewrite P2, delete_alter_eq, Ht2. cbn. apply delete_alter_eq. }
  assert (Hn : next_task (free_task t s3) = next_task s) by (cbn; by rewrite P5, E1).
  split.
  - eapply owned_same; [|exact P1]. apply same_no_stack; try done. intros u. unfold task_stack_vm_area. cbn.
    destruct (decide (u = t)) as [->|Hu]; [|by rewrite lookup_delete_ne].
    by rewrite lookup_delete_eq, P2, lookup_alter_eq, Ht2, Hk1.
  - intros u b. rewrite Hd. intros Hb. apply lookup_delete_Some in Hb as [_ Hb].
    destruct (I2 u b Hb). by split; rewrite ?Hn.
  - apply (paid_remove (tasks s) _ s _ v); try done.
    + by exists t, k.
    + intros u. rewrite Hd, (payer_split (tasks s) t k) by done. split.
      * intros Hp. split; [by right|]. exact (payer_other s t k v u I1 Hk Hv Hp).
      * intros [[[_ Hu]|Hp] Hne]; [congruence|done].
    + intros u i. cbn. rewrite P3. apply E2.
  - rewrite Hd. cbn. rewrite P4, E1. cbn -[stack_total]. rewrite I4, (running_split _ t k Hk), He. lia.
Qed.

Lemma free_inv s t k : inv s -> tasks s !! t = Some k -> stack_refcount k = 0 -> inv (free_task t s).
Proof.
  intros Hi Hk Hr. pose proof (in_tasks s Hi t k Hk) as [O1 O2 O3 O4 O5]. destruct Hi as [I1 I2 I3 I4].
  assert (Hst : stack_vm_area k = None).
  { destruct (stack_vm_area k) as [v|]; [|done]. assert (0 < stack_refcount k) by (apply O2; by eexists). lia. }
  assert (He : exiting k = true) by (destruct (exiting k); [done|]; specialize (O4 eq_refl); lia).
  split.
  - eapply owned_same; [|exact I1]. apply same_no_stack; try done. intros u. unfold task_stack_vm_area. cbn.
    destruct (decide (u = t)) as [->|Hu]; [|by rewrite lookup_delete_ne]. by rewrite lookup_delete_eq, Hk.
  - intros u b. cbn. intros Hb. apply lookup_delete_Some in Hb as [_ Hb]. destruct (I2 u b Hb). by split.
  - cbn. eapply paid_same; [exact I3| |done]. intros v. rewrite (payer_split (tasks s) t k) by done.
    rewrite He. naive_solver.
  - cbn. rewrite I4, (running_split _ t k Hk), He. lia.
Qed.

Lemma step_inv s s' : inv s -> step s s' -> inv s'.
Proof.
  intros Hi Hs. destruct Hs as [e cpu r s' H|cpu t k s' Hk He Hr H|t k s' Hk He H|t k Hk He|t k Hk Hr
    |cpu t k s' Hk Hr Hd H|t k Hk Hr|cpu v Hv|cpu|t v Hv].
  - destruct (dup_task_struct_spec e cpu s (in_owned s Hi) (inv_new s Hi)) as (r' & s1 & H1 & Ho & Hr).
    rewrite H in H1. injection H1 as <- <-. destruct r; [|by eapply inv_unforked].
    destruct Hr as [v Hf]. by eapply inv_forked.
  - destruct (unfork_inv cpu s t k Hi Hk He Hr) as (? & ? & ?). congruence.
  - destruct (exit_inv s t k Hi Hk He) as (? & ? & ?). congruence.
  - apply (inv_task s t k); try done. destruct (in_tasks s Hi t k Hk). by split.
  - apply (inv_task s t k); try done. destruct (in_tasks s Hi t k Hk) as [O1 O2 O3 O4 O5].
    split; cbn; try done; try lia. rewrite O2. lia.
  - destruct (put_inv cpu s t k Hi Hk Hr Hd) as (? & ? & ?). congruence.
  - by eapply free_inv.
  - destruct (free_rcu_spec cpu v s (in_owned s Hi) Hv). by eapply inv_quiet.
  - destruct (free_cache_spec cpu s (in_owned s Hi)) as (? & ? & _). by eapply inv_quiet.
  - eapply inv_quiet; [done| |done]. eapply owned_same; [|exact (in_owned s Hi)]. split; intros; try done; by destruct p.
Qed.

Lemma reachable_inv s : reachable s -> inv s.
Proof.
  induction 1 as [|s s' _ IH Hs]; [|by eapply step_inv].
  assert (Hno : forall p, at_ (Kernel ∅ (fun _ => None) ∅ ∅ (fun _ _ => 0) 0 ∅ 0 0) p = None).
  { by intros []. }
  split; try done.
  - split; try setoid_rewrite Hno; try done; cbn; set_solver.
  - split; [|done]. intros v i (t & k & Hk & _). done.
Qed.

(** ** The claims *)

(** C32. However forks, failed forks, exits, references, delayed frees and CPUs going
    offline interleave, every kernel stack that was allocated has exactly one owner (a
    task, a slot of a cache, the queue of delayed frees), a task has a stack as long as it
    is referenced, each page of a stack is charged exactly once while its task has not
    exited and not at all otherwise, and NR_KERNEL_STACK_KB is the memory of those
    stacks; no fork, exit or release uses a missing stack or queues one twice, and a new
    task gets a stack without old data. *)
Theorem kernel_stacks_owned s :
  reachable s ->
  (forall v, v ∈ live s <-> exists p, at_ s p = Some v) /\
  (forall p q v, at_ s p = Some v -> at_ s q = Some v -> p = q) /\
  (forall t k, tasks s !! t = Some k -> 0 < stack_refcount k <-> is_Some (stack_vm_area k)) /\
  paid (tasks s) (charged s) /\ stack_kb s = stack_total * running (tasks s) /\
  (forall e cpu, is_Some (dup_task_struct e cpu s)) /\
  (forall t k cpu, tasks s !! t = Some k ->
     (exiting k = false -> is_Some (exit_task_stack_account t (upd_task t set_exiting s))) /\
     (exiting k = false -> stack_refcount k = 1 -> is_Some (bad_fork_free_task cpu t s)) /\
     (0 < stack_refcount k -> dead k = true \/ 1 < stack_refcount k -> is_Some (put_task_stack cpu t s))) /\
  (forall e cpu t s', dup_task_struct e cpu s = Some (Some t, s') ->
     exists v, task_stack_vm_area t s' = Some v /\ v ∉ stale s').
Proof.
  intros Hr. pose proof (reachable_inv s Hr) as Hi. split; [|split; [|split; [|split; [|split; [|split; [|split]]]]]].
  - intros v. rewrite (ow_live _ _ (in_owned s Hi)). split; [by intros [|]|by right].
  - apply (in_owned s Hi).
  - intros t k Hk. symmetry. by apply (in_tasks s Hi t k Hk).
  - apply Hi.
  - apply Hi.
  - intros e cpu. destruct (dup_task_struct_spec e cpu s (in_owned s Hi) (inv_new s Hi)) as (? & ? & -> & _). by eexists.
  - intros t k cpu Hk. split; [|split].
    + intros He. destruct (exit_inv s t k Hi Hk He) as (? & -> & _). by eexists.
    + intros He H1. destruct (unfork_inv cpu s t k Hi Hk He H1) as (? & -> & _). by eexists.
    + intros H1 H2. destruct (put_inv cpu s t k Hi Hk H1 H2) as (? & -> & _). by eexists.
  - intros e cpu t s' Hd.
    destruct (dup_task_struct_spec e cpu s (in_owned s Hi) (inv_new s Hi)) as (r & s1 & H1 & _ & Hf).
    rewrite Hd in H1. injection H1 as <- <-. destruct Hf as [v [F1 F2 F3 F4 F5 F6 F7]].
    exists v. split; [|done]. unfold task_stack_vm_area. by rewrite F3, lookup_insert_eq.
Qed.

(** The limit on threads is between its two bounds, no more than asked for, and its
    thread structures fit an eighth of memory unless the lower bound says otherwise; the
    multiplication does not overflow. *)
Theorem max_threads_bounds nr_pages suggested :
  0 <= nr_pages < 2 ^ 64 ->
  let n := set_max_threads nr_pages suggested in
  MIN_THREADS <= n <= MAX_THREADS /\
  (MIN_THREADS < n -> n <= suggested /\ n * THREAD_SIZE * 8 <= nr_pages * PAGE_SIZE).
Proof.
  intros Hp. unfold set_max_threads, clamp. change (fls64 PAGE_SIZE) with 13.
  change (THREAD_SIZE *u 8) with 131072. unfold MIN_THREADS, MAX_THREADS, THREAD_SIZE, PAGE_SIZE.
  destruct (64 <? fls64 nr_pages + 13) eqn:Hf.
  - assert (Hlow : 2 ^ 51 <= nr_pages).
    { unfold fls64 in Hf. destruct (nr_pages =? 0) eqn:H0; [lia|].
      assert (51 <= Z.log2 nr_pages) by lia. apply Z.log2_le_pow2; lia. }
    destruct (suggested <? 0x3fffffff) eqn:Hs; lia.
  - assert (Hhigh : nr_pages < 2 ^ 51).
    { unfold fls64 in Hf. destruct (nr_pages =? 0) eqn:H0; [lia|]. apply Z.log2_lt_pow2; lia. }
    rewrite u64_small by lia.
    pose proof (Z.div_mod (nr_pages * 4096) 131072 ltac:(lia)).
    pose proof (Z.mod_pos_bound (nr_pages * 4096) 131072 ltac:(lia)).
    destruct (suggested <? nr_pages * 4096 / 131072) eqn:Hs; lia.
Qed.
End StacksSpec.

(** ** A concrete history: two tasks, one of which leaves its stack to a third *)

Module StacksDemo.
Import Stacks StacksSpec.

Definition boot : kernel := Kernel ∅ (fun _ => None) ∅ ∅ (fun _ _ => 0) 0 ∅ 0 0.
Definition answers0 : answers :=
  {| task_alloc := true; arch_dup := 0; vmalloc_ok := true; charge_page := fun _ _ => 0; scs_prepare := 0 |}.

Definition fork (s : kernel) : kernel :=
  match dup_task_struct answers0 0 s with Some (_, s') => s' | None => s end.
(** The task exits, dies and its stack is given back. *)
Definition bury (t : Z) (s : kernel) : kernel :=
  match exit_task_stack_account t (upd_task t set_exiting s) with
  | Some s1 => match put_task_stack 0 t (upd_task t set_dead s1) with Some s2 => s2 | None => s end
  | None => s
  end.

Definition history : kernel := fork (bury 0 (fork (fork boot))).

Lemma fork_reachable s : reachable s -> reachable (fork s).
Proof.
  intros Hr. unfold fork. destruct (dup_task_struct answers0 0 s) as [[r s']|] eqn:Hd; [|done].
  eapply re_step; [done|]. by eapply st_fork.
Qed.

Lemma bury_reachable s k :
  reachable s -> tasks s !! 0 = Some k -> exiting k = false -> stack_refcount k = 1 -> reachable (bury 0 s).
Proof.
  intros Hr Hk He H1. unfold bury.
  destruct (exit_task_stack_account 0 (upd_task 0 set_exiting s)) as [s1|] eqn:Hx; [|done].
  destruct (alive_stack s 0 k (reachable_inv s Hr) Hk) as [v Hv]; [lia|].
  destruct (exit_account_spec 0 v (upd_task 0 set_exiting s)) as (s1' & Hx' & E1 & _).
  { unfold task_stack_vm_area. by rewrite (upd_lookup _ _ _ k). }
  assert (s1' = s1) as -> by congruence.
  assert (Hk1 : tasks s1 !! 0 = Some (set_exiting k)) by (rewrite E1; exact (upd_lookup 0 set_exiting s k Hk)).
  assert (Hr1 : reachable s1) by (eapply re_step; [exact Hr|by eapply st_exit]).
  assert (Hr2 : reachable (upd_task 0 set_dead s1)) by (eapply re_step; [exact Hr1|by eapply st_dead]).
  destruct (put_task_stack 0 0 (upd_task 0 set_dead s1)) as [s2|] eqn:Hp; [|done].
  eapply re_step; [exact Hr2|]. eapply (st_put _ 0 0 (set_dead (set_exiting k))); try done.
  - by apply upd_lookup.
  - cbn. lia.
  - by left.
Qed.

(** The third task runs on the stack of the first, charged once. *)
Lemma kernel_stacks_owned_witness :
  (task_stack_vm_area 0 history, task_stack_vm_area 1 history, task_stack_vm_area 2 history,
   charged history 0 3, charged history 1 3, stack_kb history) = (None, Some 1, Some 0, 1, 1, 32) /\
  paid (tasks history) (charged history) /\ forall v, v ∈ live history <-> exists p, at_ history p = Some v.
Proof.
  split; [vm_compute; reflexivity|].
  assert (Hr : reachable history).
  { apply fork_reachable. eapply bury_reachable.
    - apply fork_reachable, fork_reachable, re_boot.
    - vm_compute. reflexivity.
    - reflexivity.
    - reflexivity. }
  destruct (kernel_stacks_owned history Hr) as (H1 & _ & _ & H2 & _). by split.
Defined.
End StacksDemo.
