(* ===== verification/AllLocks.v ===== *)
(** * Taking every lock of an address space ([mm/mmap.c])

    [mm_take_all_locks] and [mm_drop_all_locks].  A lock is that of a file mapping or of
    the root of an [anon_vma]; several areas may lead to the same one, and a bit in the
    mapping or in the root tells that it was taken already.  [None] stands for [BUG] and for
    taking or releasing a lock the wrong way: taking a held one (the task would wait for
    itself) or releasing one that is not held. *)
From S2P Require Import Prelude Vma.

Module AllLocks.

Inductive lock := LMapping (m : Z) | LAnon (root : Z).
#[export] Instance lock_eq_dec : EqDecision lock.
Proof. solve_decision. Defined.

(** What was done: an area marked by [vma_start_write], a lock taken. *)
Inductive event := Marked (id : Z) | Took (k : lock).

(** [taken] are the locks held and [log] what was done, the latest first; [flags] the locks
    whose bit is set. *)
Record locks := Locks { all_locks_mutex : bool; taken : list lock; flags : list lock; log : list event }.

Definition set_taken x s := Locks (all_locks_mutex s) x (flags s) (log s).
Definition set_bits x s := Locks (all_locks_mutex s) (taken s) x (log s).
Definition set_mutex x s := Locks x (taken s) (flags s) (log s).
Definition note (ev : event) s := Locks (all_locks_mutex s) (taken s) (flags s) (ev :: log s).

Record lock_env := {
  f_mapping : Z -> option Z; is_vm_hugetlb_page : vma -> bool;
  anon_vma_chain : vma -> list Z; anon_root : Z -> Z;
  signal_pending : nat -> bool                (* at the n-th test *)
}.

Definition remove_one (k : lock) (l : list lock) : list lock := filter (fun x => x <> k) l.

(** [down_write_nest_lock], [up_write], [test_and_set_bit] and [test_and_clear_bit] with the
    [BUG]s. *)
Definition down_write (k : lock) (s : locks) : option locks :=
  if decide (k ∈ taken s) then None else Some (note (Took k) (set_taken (k :: taken s) s)).
Definition up_write (k : lock) (s : locks) : option locks :=
  if decide (k ∈ taken s) then Some (set_taken (remove_one k (taken s)) s) else None.
Definition set_bit (k : lock) (s : locks) : option locks :=
  if decide (k ∈ flags s) then None else Some (set_bits (k :: flags s) s).
Definition clear_bit (k : lock) (s : locks) : option locks :=
  if decide (k ∈ flags s) then Some (set_bits (remove_one k (flags s)) s) else None.

Section ops.
Context (e : lock_env).

Definition vm_lock_anon_vma (anon_vma : Z) (s : locks) : option locks :=
  let k := LAnon (anon_root e anon_vma) in
  if decide (k ∈ flags s) then Some s else s ← down_write k s; set_bit k s.
Definition vm_lock_mapping (mapping : Z) (s : locks) : option locks :=
  let k := LMapping mapping in
  if decide (k ∈ flags s) then Some s else s ← set_bit k s; down_write k s.
Definition vm_unlock_anon_vma (anon_vma : Z) (s : locks) : option locks :=
  let k := LAnon (anon_root e anon_vma) in
  if decide (k ∈ flags s) then s ← clear_bit k s; up_write k s else Some s.
Definition vm_unlock_mapping (mapping : Z) (s : locks) : option locks :=
  let k := LMapping mapping in
  if decide (k ∈ flags s) then s ← up_write k s; clear_bit k s else Some s.

Definition vma_start_write (v : vma) (s : locks) : option locks :=
  Some (note (Marked (vm_id v)) s).

(** [vma->vm_file && vma->vm_file->f_mapping] *)
Definition vma_mapping (v : vma) : option Z := vm_file v ≫= f_mapping e.

Definition lock_file (huge : bool) (v : vma) (s : locks) : option locks :=
  match vma_mapping v with
  | Some m => if eqb (is_vm_hugetlb_page e v) huge then vm_lock_mapping m s else Some s
  | None => Some s
  end.
Definition lock_anon (v : vma) (s : locks) : option locks :=
  match anon_vma v with
  | Some _ => foldl (fun s a => s ← s; vm_lock_anon_vma a s) (Some s) (anon_vma_chain e v)
  | None => Some s
  end.

(** One walk over the areas; [false] when a signal stops it.  [n] counts the tests. *)
Fixpoint walk (f : vma -> locks -> option locks) (l : list vma) (n : nat) (s : locks)
    : option (bool * nat * locks) :=
  match l with
  | [] => Some (true, n, s)
  | v :: l =>
      if signal_pending e n then Some (false, S n, s)
      else s ← f v s; walk f l (S n) s
  end.

Definition unlock_area (v : vma) (s : locks) : option locks :=
  s ← match anon_vma v with
      | Some _ => foldl (fun s a => s ← s; vm_unlock_anon_vma a s) (Some s) (anon_vma_chain e v)
      | None => Some s
      end;
  match vma_mapping v with Some m => vm_unlock_mapping m s | None => Some s end.

Definition mm_drop_all_locks (areas : list vma) (s : locks) : option locks :=
  if negb (all_locks_mutex s) then None
  else
    s ← foldl (fun s v => s ← s; unlock_area v s) (Some s) areas;
    Some (set_mutex false s).

(** The four walks, the first that is stopped by a signal ending them. *)
Fixpoint walks (fs : list (vma -> locks -> option locks)) (areas : list vma) (n : nat) (s : locks)
    : option (bool * locks) :=
  match fs with
  | [] => Some (true, s)
  | f :: fs =>
      '(ok, n, s) ← walk f areas n s;
      if (ok : bool) then walks fs areas n s else Some (false, s)
  end.

Definition mm_take_all_locks (areas : list vma) (s : locks) : option (Z * locks) :=
  if all_locks_mutex s then None
  else
    let s := set_mutex true s in
    '(ok, s) ← walks [vma_start_write; lock_file true; lock_file false; lock_anon] areas 0 s;
    if (ok : bool) then Some (0, s)
    else s ← mm_drop_all_locks areas s; Some (- EINTR, s).
End ops.
End AllLocks.
