(* ===== verification/AllLocksSpec.v ===== *)
(** * Properties of taking every lock of an address space

    The areas are marked and then each lock is taken once, huge-page mappings, other
    mappings and anonymous memory in this order, however many areas lead to it; a signal or a later [mm_drop_all_locks] leaves nothing
    locked. *)
From S2P Require Import Prelude Vma AllLocks.

Module AllLocksSpec.
Import AllLocks.

(** ** Reference definitions *)

(** A lock that is taken already is not taken again. *)
Definition add (l : list lock) (k : lock) : list lock := if decide (k ∈ l) then l else k :: l.
Definition add_all (ks l : list lock) : list lock := foldl add l ks.

(** The bits say which locks are held, and none is held twice. *)
Record tidy (s : locks) : Prop := {
  ti_nodup : NoDup (taken s); ti_bits : forall k, k ∈ flags s <-> k ∈ taken s
}.

Lemma elem_of_add_all ks l k : k ∈ add_all ks l <-> k ∈ ks \/ k ∈ l.
Proof.
  revert l. induction ks as [|j ks IH]; intros l; cbn; [set_solver|].
  fold (add_all ks (add l j)). rewrite IH. unfold add. case_decide; set_solver.
Qed.

Lemma elem_of_remove_one k j l : j ∈ remove_one k l <-> j ∈ l /\ j <> k.
Proof. unfold remove_one. rewrite list_elem_of_filter. tauto. Qed.

Section spec.
Context (e : lock_env).

Definition chain_keys (v : vma) : list lock :=
  match anon_vma v with Some _ => (fun a => LAnon (anon_root e a)) <$> anon_vma_chain e v | None => [] end.
Definition mapping_keys (v : vma) : list lock :=
  match vma_mapping e v with Some m => [LMapping m] | None => [] end.
Definition file_keys (huge : bool) (v : vma) : list lock :=
  if eqb (is_vm_hugetlb_page e v) huge then mapping_keys v else [].

(** The locks of the areas in the order they are taken: mappings of huge pages, other
    mappings, anonymous memory. *)
Definition lock_order (areas : list vma) : list lock :=
  (areas ≫= file_keys true) ++ (areas ≫= file_keys false) ++ (areas ≫= chain_keys).

(** ** Taking *)

(** [s'] is [s] with the locks [ks] taken. *)
Record took (ks : list lock) (s s' : locks) : Prop := {
  to_tidy : tidy s'; to_taken : taken s' = add_all ks (taken s);
  to_mutex : all_locks_mutex s' = all_locks_mutex s;
  to_log : exists d, taken s' = d ++ taken s /\ log s' = (Took <$> d) ++ log s
}.

Lemma took_nil s : tidy s -> took [] s s.
Proof. split; try done. by exists []. Qed.
Lemma took_trans k1 k2 s1 s2 s3 : took k1 s1 s2 -> took k2 s2 s3 -> took (k1 ++ k2) s1 s3.
Proof.
  intros [_ H2 H3 (d1 & H4 & H5)] [G1 G2 G3 (d2 & G4 & G5)]. split; [done| |congruence|].
  - unfold add_all in *. by rewrite foldl_app, G2, H2.
  - exists (d2 ++ d1). by rewrite G4, G5, H4, H5, fmap_app, !app_assoc.
Qed.

Lemma took_one k s s' :
  tidy s -> k ∉ flags s -> taken s' = k :: taken s -> flags s' = k :: flags s ->
  all_locks_mutex s' = all_locks_mutex s -> log s' = Took k :: log s -> took [k] s s'.
Proof.
  intros [T1 T2] Hk H1 H2 H3 H4. assert (Hn : k ∉ taken s) by (by rewrite <- T2). split; [| |done|by exists [k]].
  - split; [rewrite H1; by constructor|]. intros j. rewrite H1, H2, !elem_of_cons, T2. done.
  - rewrite H1. cbn. unfold add. by rewrite decide_False.
Qed.

Lemma took_again k s : tidy s -> k ∈ flags s -> took [k] s s.
Proof.
  intros Ht Hk. split; [done| |done|by exists []]. cbn. unfold add. rewrite decide_True; [done|]. by apply (ti_bits s Ht).
Qed.

Lemma lock_mapping_spec m s : tidy s -> exists s', vm_lock_mapping m s = Some s' /\ took [LMapping m] s s'.
Proof.
  intros Ht. unfold vm_lock_mapping. case_decide as Hk; [exists s; split; [done|by apply took_again]|].
  unfold set_bit, down_write. rewrite decide_False by done. cbn.
  rewrite decide_False by (by rewrite <- (ti_bits s Ht)). eexists. split; [done|]. by apply took_one.
Qed.
Lemma lock_anon_vma_spec a s :
  tidy s -> exists s', vm_lock_anon_vma e a s = Some s' /\ took [LAnon (anon_root e a)] s s'.
Proof.
  intros Ht. unfold vm_lock_anon_vma. case_decide as Hk; [exists s; split; [done|by apply took_again]|].
  unfold set_bit, down_write. rewrite decide_False by (by rewrite <- (ti_bits s Ht)). cbn.
  rewrite decide_False by done. eexists. split; [done|]. by apply took_one.
Qed.

Lemma lock_file_spec huge v s :
  tidy s -> exists s', lock_file e huge v s = Some s' /\ took (file_keys huge v) s s'.
Proof.
  intros Ht. unfold lock_file, file_keys, mapping_keys. destruct (vma_mapping e v) as [m|].
  - destruct (eqb _ huge); [by apply lock_mapping_spec|]. exists s. split; [done|by apply took_nil].
  - exists s. split; [done|]. destruct (eqb _ huge); by apply took_nil.
Qed.

(** Repeated operations in the option monad. *)
Lemma fold_took {A} (f : A -> locks -> option locks) (key : A -> list lock) l s :
  (forall a s, tidy s -> exists s', f a s = Some s' /\ took (key a) s s') -> tidy s ->
  exists s', foldl (fun s a => s ← s; f a s) (Some s) l = Some s' /\ took (l ≫= key) s s'.
Proof.
  intros Hf. revert s. induction l as [|a l IH]; intros s Ht; cbn [foldl].
  - exists s. split; [done|by apply took_nil].
  - cbn [mbind option_bind]. destruct (Hf a s Ht) as (s1 & -> & H1).
    destruct (IH s1 (to_tidy _ _ _ H1)) as (s2 & -> & H2). exists s2. split; [done|]. by eapply took_trans.
Qed.

Lemma chain_keys_bind v :
  chain_keys v = match anon_vma v with
                 | Some _ => anon_vma_chain e v ≫= fun a => [LAnon (anon_root e a)] | None => [] end.
Proof.
  unfold chain_keys. destruct (anon_vma v); [|done]. induction (anon_vma_chain e v) as [|a l IH]; [done|].
  cbn. by rewrite IH.
Qed.

Lemma lock_anon_spec v s : tidy s -> exists s', lock_anon e v s = Some s' /\ took (chain_keys v) s s'.
Proof.
  intros Ht. rewrite chain_keys_bind. unfold lock_anon.
  destruct (anon_vma v); [|exists s; split; [done|by apply took_nil]].
  apply (fold_took (vm_lock_anon_vma e)); [|done]. apply lock_anon_vma_spec.
Qed.

(** No signal was pending at the tests from [n] on, [k] of them; or at one of them. *)
Definition undisturbed (n k : nat) : Prop :=
  forall i, (n <= i < n + k)%nat -> signal_pending e i = false.
Definition disturbed (n k : nat) : Prop :=
  exists i, (n <= i < n + k)%nat /\ signal_pending e i = true.

(** A walk takes the locks of the areas it reaches: all of them unless a signal comes. *)
Lemma area_walk_spec f key l n s :
  (forall v s, tidy s -> exists s', f v s = Some s' /\ took (key v) s s') -> tidy s ->
  exists ok n' s' l1 l2, walk e f l n s = Some (ok, n', s') /\ l = l1 ++ l2 /\ took (l1 ≫= key) s s' /\
    if ok : bool then l2 = [] /\ n' = (n + length l)%nat /\ undisturbed n (length l) else disturbed n (length l).
Proof.
  intros Hf. revert n s. induction l as [|v l IH]; intros n s Ht; cbn [walk].
  { exists true, n, s, [], []. split; [done|]. split; [done|]. split; [by apply took_nil|].
    cbn. split; [done|]. split; [lia|]. intros i. lia. }
  destruct (signal_pending e n) eqn:Hn.
  { exists false, (S n), s, [], (v :: l). split; [done|]. split; [done|]. split; [by apply took_nil|].
    exists n. cbn. split; [lia|done]. }
  destruct (Hf v s Ht) as (s1 & -> & H1). cbn [mbind option_bind].
  destruct (IH (S n) s1 (to_tidy _ _ _ H1)) as (ok & n' & s2 & l1 & l2 & -> & -> & H2 & H3).
  exists ok, n', s2, (v :: l1), l2. split; [done|]. split; [done|]. split; [by eapply took_trans|].
  destruct ok; cbn.
  - destruct H3 as (-> & -> & H3). split; [done|]. split; [lia|]. intros i Hi.
    destruct (decide (i = n)) as [->|]; [done|]. apply H3. lia.
  - destruct H3 as (i & Hi & Hs). exists i. split; [lia|done].
Qed.

(** The first walk marks the areas it reaches and does nothing else. *)
Definition mark_all (l : list vma) (s : locks) : locks :=
  Locks (all_locks_mutex s) (taken s) (flags s) (rev ((fun v => Marked (vm_id v)) <$> l) ++ log s).

Lemma mark_walk_spec l n s :
  exists ok n' l1 l2, walk e vma_start_write l n s = Some (ok, n', mark_all l1 s) /\ l = l1 ++ l2 /\
    if ok : bool then l2 = [] /\ n' = (n + length l)%nat /\ undisturbed n (length l) else disturbed n (length l).
Proof.
  revert n s. induction l as [|v l IH]; intros n s; cbn [walk].
  { exists true, n, [], []. split; [by destruct s|]. split; [done|]. cbn. split; [done|]. split; [lia|].
    intros i. lia. }
  destruct (signal_pending e n) eqn:Hn.
  { exists false, (S n), [], (v :: l). split; [by destruct s|]. split; [done|]. exists n. cbn. split; [lia|done]. }
  cbn [mbind option_bind vma_start_write].
  destruct (IH (S n) (note (Marked (vm_id v)) s)) as (ok & n' & l1 & l2 & -> & -> & H3).
  exists ok, n', (v :: l1), l2. split.
  { unfold mark_all, note. cbn. by rewrite <- app_assoc. }
  split; [done|]. destruct ok; cbn.
  - destruct H3 as (-> & -> & H3). split; [done|]. split; [lia|]. intros i Hi.
    destruct (decide (i = n)) as [->|]; [done|]. apply H3. lia.
  - destruct H3 as (i & Hi & Hs). exists i. split; [lia|done].
Qed.

(** ** Giving back *)

Record gave (ks : list lock) (s s' : locks) : Prop := {
  ga_tidy : tidy s'; ga_taken : forall j, j ∈ taken s' <-> j ∈ taken s /\ j ∉ ks;
  ga_mutex : all_locks_mutex s' = all_locks_mutex s; ga_log : log s' = log s
}.

Lemma gave_nil s : tidy s -> gave [] s s.
Proof. intros Ht. split; try done. set_solver. Qed.
Lemma gave_trans k1 k2 s1 s2 s3 : gave k1 s1 s2 -> gave k2 s2 s3 -> gave (k1 ++ k2) s1 s3.
Proof.
  intros [_ H2 H3 H4] [G1 G2 G3 G4]. split; [done| |congruence|congruence].
  intros j. rewrite G2, H2. set_solver.
Qed.

Lemma gave_absent k s : tidy s -> k ∉ flags s -> gave [k] s s.
Proof. intros Ht Hk. split; try done. rewrite (ti_bits s Ht) in Hk. set_solver. Qed.
Lemma gave_one k s s' :
  tidy s -> taken s' = remove_one k (taken s) -> flags s' = remove_one k (flags s) ->
  all_locks_mutex s' = all_locks_mutex s -> log s' = log s -> gave [k] s s'.
Proof.
  intros [T1 T2] H1 H2 H3 H4. split; try done.
  - split; [rewrite H1; by apply NoDup_filter|]. intros j. by rewrite H1, H2, !elem_of_remove_one, T2.
  - intros j. rewrite H1, elem_of_remove_one. set_solver.
Qed.

Lemma unlock_mapping_spec m s : tidy s -> exists s', vm_unlock_mapping m s = Some s' /\ gave [LMapping m] s s'.
Proof.
  intros Ht. unfold vm_unlock_mapping. case_decide as Hk; [|exists s; split; [done|by apply gave_absent]].
  unfold up_write, clear_bit. rewrite decide_True by (by apply (ti_bits s Ht)). cbn.
  rewrite decide_True by done. eexists. split; [done|]. by apply gave_one.
Qed.
Lemma unlock_anon_vma_spec a s :
  tidy s -> exists s', vm_unlock_anon_vma e a s = Some s' /\ gave [LAnon (anon_root e a)] s s'.
Proof.
  intros Ht. unfold vm_unlock_anon_vma. case_decide as Hk; [|exists s; split; [done|by apply gave_absent]].
  unfold up_write, clear_bit. rewrite decide_True by done. cbn.
  rewrite decide_True by (by apply (ti_bits s Ht)). eexists. split; [done|]. by apply gave_one.
Qed.

Lemma fold_gave {A} (f : A -> locks -> option locks) (key : A -> list lock) l s :
  (forall a s, tidy s -> exists s', f a s = Some s' /\ gave (key a) s s') -> tidy s ->
  exists s', foldl (fun s a => s ← s; f a s) (Some s) l = Some s' /\ gave (l ≫= key) s s'.
Proof.
  intros Hf. revert s. induction l as [|a l IH]; intros s Ht; cbn [foldl].
  - exists s. split; [done|by apply gave_nil].
  - cbn [mbind option_bind]. destruct (Hf a s Ht) as (s1 & -> & H1).
    destruct (IH s1 (ga_tidy _ _ _ H1)) as (s2 & -> & H2). exists s2. split; [done|]. by eapply gave_trans.
Qed.

Lemma unlock_area_spec v s :
  tidy s -> exists s', unlock_area e v s = Some s' /\ gave (chain_keys v ++ mapping_keys v) s s'.
Proof.
  intros Ht. unfold unlock_area. rewrite chain_keys_bind.
  assert (Ha : exists s1, match anon_vma v with
      | Some _ => foldl (fun s a => s ← s; vm_unlock_anon_vma e a s) (Some s) (anon_vma_chain e v)
      | None => Some s end = Some s1 /\
    gave (match anon_vma v with
          | Some _ => anon_vma_chain e v ≫= fun a => [LAnon (anon_root e a)] | None => [] end) s s1).
  { destruct (anon_vma v); [|exists s; split; [done|by apply gave_nil]].
    apply (fold_gave (vm_unlock_anon_vma e)); [|done]. apply unlock_anon_vma_spec. }
  destruct Ha as (s1 & -> & H1). cbn [mbind option_bind]. unfold mapping_keys.
  destruct (vma_mapping e v) as [m|].
  - destruct (unlock_mapping_spec m s1 (ga_tidy _ _ _ H1)) as (s2 & -> & H2). exists s2. split; [done|].
    by eapply gave_trans.
  - exists s1. split; [done|]. by rewrite app_nil_r.
Qed.

(** Everything the areas can have taken is given back. *)
Lemma drop_spec areas s :
  tidy s -> all_locks_mutex s = true -> (forall k, k ∈ taken s -> k ∈ lock_order areas) ->
  exists s', mm_drop_all_locks e areas s = Some s' /\ taken s' = [] /\ flags s' = [] /\
    all_locks_mutex s' = false /\ log s' = log s.
Proof.
  intros Ht Hm Hin. unfold mm_drop_all_locks. rewrite Hm. cbn [negb].
  destruct (fold_gave (unlock_area e) (fun v => chain_keys v ++ mapping_keys v) areas s unlock_area_spec Ht)
    as (s1 & -> & [G1 G2 G3 G4]). cbn [mbind option_bind]. eexists. split; [done|].
  assert (Hnone : forall j, j ∉ taken s1).
  { intros j Hj. apply G2 in Hj as [Hj Hno]. apply Hno. apply Hin in Hj. unfold lock_order in Hj.
    rewrite !elem_of_app, !list_elem_of_bind in Hj. apply list_elem_of_bind.
    destruct Hj as [(v & Hk & Hv)|[(v & Hk & Hv)|(v & Hk & Hv)]]; exists v; (split; [|done]); apply elem_of_app.
    - right. unfold file_keys in Hk. by destruct (eqb _ _); [|apply elem_of_nil in Hk].
    - right. unfold file_keys in Hk. by destruct (eqb _ _); [|apply elem_of_nil in Hk].
    - by left. }
  assert (Ht1 : taken s1 = []) by (destruct (taken s1) as [|j l]; [done|]; destruct (Hnone j); set_solver).
  cbn. split; [done|]. split; [|done]. destruct (flags s1) as [|j l] eqn:Hf; [done|].
  destruct (Hnone j). apply (ti_bits s1 G1). rewrite Hf. set_solver.
Qed.

(** ** The walks together *)

Definition takes (f : vma -> locks -> option locks) (key : vma -> list lock) : Prop :=
  forall v s, tidy s -> exists s', f v s = Some s' /\ took (key v) s s'.

Lemma walks_spec fs keys areas n s :
  Forall2 takes fs keys -> tidy s ->
  exists ok s' ks, walks e fs areas n s = Some (ok, s') /\ took ks s s' /\
    (forall k, k ∈ ks -> exists key v, key ∈ keys /\ v ∈ areas /\ k ∈ key v) /\
    if ok : bool then ks = (keys ≫= fun key => areas ≫= key) /\ undisturbed n (length fs * length areas)
    else disturbed n (length fs * length areas).
Proof.
  intros Hf. revert n s. induction Hf as [|f key fs keys Hk _ IH]; intros n s Ht; cbn [walks].
  { exists true, s, []. split; [done|]. split; [by apply took_nil|]. split; [set_solver|].
    split; [done|]. intros i. cbn. lia. }
  destruct (area_walk_spec f key areas n s Hk Ht) as (ok & n' & s1 & l1 & l2 & -> & Hl & H1 & H2).
  cbn [mbind option_bind].
  assert (Hin : forall k, k ∈ l1 ≫= key -> exists key' v, key' ∈ key :: keys /\ v ∈ areas /\ k ∈ key' v).
  { intros k Hin. apply list_elem_of_bind in Hin as (v & Hkv & Hv). exists key, v. rewrite Hl. set_solver. }
  destruct ok.
  - destruct H2 as (-> & -> & Hu). rewrite app_nil_r in Hl. subst l1.
    destruct (IH (n + length areas)%nat s1 (to_tidy _ _ _ H1)) as (ok & s2 & ks & -> & G1 & G2 & G3).
    exists ok, s2, ((areas ≫= key) ++ ks). split; [done|]. split; [by eapply took_trans|]. split.
    + intros k Hkk. apply elem_of_app in Hkk as [Hkk|Hkk]; [by apply Hin|].
      destruct (G2 k Hkk) as (key' & v & ? & ? & ?). exists key', v. set_solver.
    + destruct ok; cbn [length] in *.
      * destruct G3 as [-> G3]. split; [done|]. intros i Hi.
        destruct (decide (i < n + length areas)%nat); [apply Hu|apply G3]; lia.
      * destruct G3 as (i & Hi & Hs). exists i. split; [lia|done].
  - exists false, s1, (l1 ≫= key). split_and!; try done. destruct H2 as (i & Hi & Hs). exists i. cbn.
    split; [lia|done].
Qed.

Definition all_keys : list (vma -> list lock) := [file_keys true; file_keys false; chain_keys].

Lemma all_takes : Forall2 takes [lock_file e true; lock_file e false; lock_anon e] all_keys.
Proof.
  repeat constructor; intros v s Ht; [by apply lock_file_spec..|by apply lock_anon_spec].
Qed.

Lemma all_keys_order areas : (all_keys ≫= fun key => areas ≫= key) = lock_order areas.
Proof. cbn. unfold lock_order. by rewrite app_nil_r. Qed.

(** The marks, then the locks. *)
Lemma marks_and_locks areas s :
  tidy s ->
  exists ok s', walks e [vma_start_write; lock_file e true; lock_file e false; lock_anon e] areas 0 s
      = Some (ok, s') /\ tidy s' /\ all_locks_mutex s' = all_locks_mutex s /\
    (forall k, k ∈ taken s' -> k ∈ lock_order areas \/ k ∈ taken s) /\
    if ok : bool
    then undisturbed 0 (4 * length areas) /\ taken s' = add_all (lock_order areas) (taken s) /\
      exists d, taken s' = d ++ taken s /\
        log s' = (Took <$> d) ++ rev ((fun v => Marked (vm_id v)) <$> areas) ++ log s
    else disturbed 0 (4 * length areas).
Proof.
  intros Ht. cbn [walks].
  destruct (mark_walk_spec areas 0 s) as (ok & n & l1 & l2 & -> & Hl & Hs). cbn [mbind option_bind].
  assert (Ht1 : tidy (mark_all l1 s)) by (by destruct Ht). destruct ok.
  2: { exists false, (mark_all l1 s). split_and!; try done; [auto|].
       destruct Hs as (i & Hi & Hs). exists i. split; [lia|done]. }
  destruct Hs as (-> & -> & Hu). rewrite app_nil_r in Hl. subst l1.
  destruct (walks_spec _ _ areas (0 + length areas) _ all_takes Ht1)
    as (ok & s' & ks & Hw & [T1 T2 T3 (d & T4 & T5)] & H2 & H3).
  cbn [walks] in Hw. rewrite Hw. exists ok, s'. split; [done|]. split; [done|]. split; [done|].
  split.
  - intros k Hk. rewrite T2, elem_of_add_all in Hk. destruct Hk as [Hk|Hk]; [left|by right].
    destruct (H2 k Hk) as (key & v & K1 & K2 & K3). rewrite <- all_keys_order. apply list_elem_of_bind.
    exists key. split; [|done]. apply list_elem_of_bind. by exists v.
  - destruct ok; cbn [length] in *.
    + destruct H3 as [-> H3]. rewrite all_keys_order in T2. split.
      { intros i Hi. destruct (decide (i < length areas)%nat); [apply Hu|apply H3]; lia. }
      split; [done|]. by exists d.
    + destruct H3 as (i & Hi & Hs). exists i. split; [lia|done].
Qed.

(** C33. [mm_take_all_locks] on an address space with any areas, many of which may share a
    mapping or an [anon_vma], with signals at any of its tests: it runs without [BUG] and
    without waiting for itself.  If no signal is pending at any test it returns 0: every
    area was marked as written first, and then exactly the locks of the areas were taken,
    each once and in the order huge-page mappings, other mappings, anonymous memory; they
    are held with their bits set, and [mm_drop_all_locks] releases them all.  If one is, it
    returns [-EINTR] with no lock, bit or mutex left.  (The comment of the function puts
    the huge-page mappings before the marks; the code marks first.) *)
Theorem all_locks_taken_and_dropped areas s :
  all_locks_mutex s = false -> taken s = [] -> flags s = [] ->
  exists r s', mm_take_all_locks e areas s = Some (r, s') /\
    ((r = 0 /\ undisturbed 0 (4 * length areas) /\
      taken s' = add_all (lock_order areas) [] /\ NoDup (taken s') /\
      (forall k, k ∈ taken s' <-> k ∈ lock_order areas) /\ (forall k, k ∈ flags s' <-> k ∈ taken s') /\
      log s' = (Took <$> taken s') ++ rev ((fun v => Marked (vm_id v)) <$> areas) ++ log s /\
      exists s2, mm_drop_all_locks e areas s' = Some s2 /\ taken s2 = [] /\ flags s2 = [] /\
                 all_locks_mutex s2 = false) \/
     (r = - EINTR /\ disturbed 0 (4 * length areas) /\
      taken s' = [] /\ flags s' = [] /\ all_locks_mutex s' = false)).
Proof.
  intros Hm Htk Hfl. unfold mm_take_all_locks. rewrite Hm. set (s0 := set_mutex true s).
  assert (Ht0 : tidy s0) by (split; cbn; rewrite Htk, ?Hfl; [constructor|done]).
  destruct (marks_and_locks areas s0 Ht0) as (ok & s1 & -> & T1 & T3 & Hin & H).
  cbn [mbind option_bind]. cbn in T3. change (taken s0) with (taken s) in *. rewrite Htk in *.
  destruct (drop_spec areas s1 T1 T3) as (s2 & Hd & D1 & D2 & D3 & D4).
  { intros k Hk. destruct (Hin k Hk) as [?|Hn]; [done|]. by apply elem_of_nil in Hn. }
  destruct ok; [|rewrite Hd; cbn [mbind option_bind]; exists (- EINTR), s2; split; [done|by right]].
  destruct H as (Hu & T2 & d & T4 & T5). rewrite app_nil_r in T4. subst d.
  exists 0, s1. split; [done|]. left. split_and!; try done; [apply T1| |apply T1|by exists s2].
  intros k. rewrite T2, elem_of_add_all. set_solver.
Qed.
End spec.
End AllLocksSpec.

(** ** Three areas, two of one file and two of one anonymous root *)

Module LocksDemo.
Import AllLocks AllLocksSpec.

Definition areas0 : list vma :=
  [Vma 1 4096 8192 3 0 (Some 7) None (Some 20) true None None None;
   Vma 2 8192 12288 3 0 (Some 8) None None true None None None;
   Vma 3 12288 16384 3 0 (Some 7) None (Some 21) true None None None].
(** File 8 is a file of huge pages. *)
Definition env0 (sig : nat -> bool) : lock_env := {|
  f_mapping := Some; is_vm_hugetlb_page := fun v => bool_decide (vm_file v = Some 8);
  anon_vma_chain := fun v => match anon_vma v with Some a => [a; 20] | None => [] end;
  anon_root := fun a => if a =? 21 then 20 else a; signal_pending := sig |}.
Definition free_locks : locks := Locks false [] [] [].

(** Without a signal, and with one at the eighth test. *)
Lemma all_locks_taken_and_dropped_witness :
  mm_take_all_locks (env0 (fun _ => false)) areas0 free_locks
    = Some (0, Locks true [LAnon 20; LMapping 7; LMapping 8] [LAnon 20; LMapping 7; LMapping 8]
                 [Took (LAnon 20); Took (LMapping 7); Took (LMapping 8); Marked 3; Marked 2; Marked 1]) /\
  exists s', mm_take_all_locks (env0 (fun n => n =? 7)%nat) areas0 free_locks = Some (- EINTR, s') /\
    taken s' = [] /\ flags s' = [] /\ all_locks_mutex s' = false.
Proof.
  split; [vm_compute; reflexivity|].
  destruct (all_locks_taken_and_dropped (env0 (fun n => n =? 7)%nat) areas0 free_locks eq_refl eq_refl eq_refl)
    as (r & s' & Hr & [(-> & Hu & _)|(-> & _ & H)]); [|by exists s'].
  specialize (Hu 7%nat ltac:(cbn; lia)). vm_compute in Hu. discriminate Hu.
Defined.
End LocksDemo.
