(* ===== verification/Special.v ===== *)
(** * Special mappings and smaller operations on areas ([mm/mmap.c])

    [insert_vm_struct] and the mappings the kernel installs by itself, [vma_shrink], the
    search for an [anon_vma] to share, the tests about write notification,
    [remap_file_pages] and [old_mmap], and the reserves of the memory accounting.
    [vm_private_data] is kept beside the areas, by the address of the area. *)
From stdpp Require Import gmap.
From S2P Require Import Prelude Gate Vma Mm Brk Mmap.

Module Special.
Import Mm Brk Mmap.

(** The two tables of operations a special mapping may have. *)
Definition special_mapping_vmops : Z := -1.
Definition legacy_special_mapping_vmops : Z := -2.

Definition vma_is_anonymous (v : vma) : bool := negb (bool_decide (is_Some (vm_ops v))).

Section ops.
Context {T : Type} `{VmaTree T} (e : map_env).
Implicit Types m : mm_struct T.
Let vme := vm (be e).

(** ** Inserting an area *)

Definition vma_link (v : vma) m : Z * mm_struct T :=
  if negb (iter_prealloc_ok vme v) then (- ENOMEM, m)
  else (0, set_areas (mt_store v (mm_mt m)) (map_count m + 1) (next_id m) m).

(** The result, the area as it is afterwards; [None] is the [BUG_ON]. *)
Definition insert_vm_struct (v : vma) m : option (Z * vma * mm_struct T) :=
  let charged := vma_pages v in
  if bool_decide (is_Some (find_vma_intersection m (vm_start v) (vm_end v))) then Some (- ENOMEM, v, m)
  else
    let '(granted, m) :=
      if flag_set (vm_flags v) VM_ACCOUNT then vm_enough_memory vme charged m else (true, m) in
    if negb granted then Some (- ENOMEM, v, m)
    else
      let anon := vma_is_anonymous v in
      if anon && bool_decide (is_Some (anon_vma v)) then None
      else
        let v := if anon then set_pgoff (vm_start v >>u PAGE_SHIFT) v else v in
        match vma_link v m with
        | (0, m) => Some (0, v, m)
        | (_, m) =>
            Some (- ENOMEM, v, if flag_set (vm_flags v) VM_ACCOUNT then vm_unacct_memory charged m else m)
        end.

(** ** Special mappings *)

Definition privates := gmap Z Z.

Definition __install_special_mapping (addr len vmf priv ops : Z) (d : privates) m
    : option ((Z + vma) * privates * mm_struct T) :=
  if negb (vm_area_alloc_ok (be e)) then Some (inl (- ENOMEM), d, m)
  else
    let id := next_id m in
    let m := set_areas (mm_mt m) (map_count m) (id + 1) m in
    let flags := Z.ldiff (Z.lor (Z.lor vmf (def_flags m)) (Z.lor VM_DONTEXPAND VM_SOFTDIRTY)) VM_LOCKED_MASK in
    let v := Vma id addr (addr +u len) flags 0 None (Some ops) None false None None None in
    match insert_vm_struct v m with
    | None => None
    | Some (ret, v, m) =>
        if negb (ret =? 0) then Some (inl ret, d, m)
        else
          let m := set_ctr (vm_stat_account vme (vm_flags v) (len >>u PAGE_SHIFT) (ctr m)) m in
          Some (inr v, <[vm_id v := priv]> d, m)
    end.

Definition _install_special_mapping (addr len vmf spec : Z) (d : privates) m :=
  __install_special_mapping addr len vmf spec special_mapping_vmops d m.

Definition install_special_mapping (addr len vmf pages : Z) (d : privates) m
    : option (Z * privates * mm_struct T) :=
  match __install_special_mapping addr len vmf pages legacy_special_mapping_vmops d m with
  | None => None
  | Some (inl err, d, m) => Some (err, d, m)
  | Some (inr _, d, m) => Some (0, d, m)
  end.

Definition vma_is_special_mapping (v : vma) (sm : Z) (d : privates) : bool :=
  bool_decide (d !! vm_id v = Some sm)
  && (bool_decide (vm_ops v = Some special_mapping_vmops)
      || bool_decide (vm_ops v = Some legacy_special_mapping_vmops)).

(** The operations of a special mapping: [mremap] where the owner has one. *)
Definition special_mapping_mremap (same_mm : bool) (sm_mremap : option Z) : Z :=
  if negb same_mm then - EFAULT
  else match sm_mremap with Some ret => ret | None => 0 end.
Definition special_mapping_split (v : vma) (addr : Z) : Z := - EINVAL.

(** An array of page pointers, 0 for NULL; [None] for a read outside it. *)
Fixpoint fault_walk (pgoff : nat) (pages : list Z) : option Z :=
  match pages with
  | [] => None
  | p :: pages =>
      match pgoff with
      | O => Some p
      | S pgoff => if p =? 0 then Some p else fault_walk pgoff pages
      end
  end.

Inductive fault_result := FaultPage (page : Z) | VM_FAULT_SIGBUS | FaultHandler (ret : Z).
(** [handler] is the answer of the [fault] operation of the owner, if it has one. *)
Definition special_mapping_fault (legacy : bool) (handler : option Z) (pages : list Z) (pgoff : nat)
    : option fault_result :=
  match (if legacy then None else handler) with
  | Some ret => Some (FaultHandler ret)
  | None =>
      match fault_walk pgoff pages with
      | None => None
      | Some p => if negb (p =? 0) then Some (FaultPage p) else Some VM_FAULT_SIGBUS
      end
  end.

(** ** Shrinking *)

Definition vma_shrink (v : vma) (start end_ pgoff : Z) m : Z * mm_struct T :=
  let '(lo, hi) := if vm_start v <? start then (vm_start v, start) else (end_, vm_end v) in
  if negb (iter_prealloc_ok vme v) then (- ENOMEM, m)
  else
    let v' := set_range start end_ pgoff v in
    let t := vma_write (vm_id v) (fun _ => v') (mm_mt m) in
    (0, set_areas (mt_erase lo hi t) (map_count m) (next_id m) m).

(** ** Copying an area for [mremap] *)

(** The new area, the area that is now the source, whether the reverse-map locks are
    needed; [None] for NULL. *)
Definition copy_vma (v : vma) (addr len pgoff : Z) m : option (vma * vma * bool) * mm_struct T :=
  let pgoff := if vma_is_anonymous v && negb (bool_decide (is_Some (anon_vma v)))
               then addr >>u PAGE_SHIFT else pgoff in
  let '(new_vma, prev) := find_vma_prev m addr in
  if match new_vma with Some x => vm_start x <? addr +u len | None => false end then (None, m)
  else
    match vma_merge_new_vma e prev v addr (addr +u len) pgoff m with
    | (Some new, m) =>
        let merged_self := (vm_start new <=? vm_start v) && (vm_start v <? vm_end new) in
        let src := if merged_self then new else v in
        (Some (new, src, vm_pgoff new <=? vm_pgoff src), m)
    | (None, m) =>
        if negb (vm_area_dup_ok vme v addr) then (None, m)
        else
          let id := next_id m in
          let m := set_areas (mm_mt m) (map_count m) (id + 1) m in
          let new := set_range addr (addr +u len) pgoff (set_id id v) in
          if negb (vma_dup_policy vme v =? 0) then (None, m)
          else if negb (anon_vma_clone vme v =? 0) then (None, m)
          else
            match vma_link new m with
            | (0, m) => (Some (new, v, false), m)
            | (_, m) => (None, m)
            end
    end.

(** ** Sharing an [anon_vma] *)

Definition VM_ACCESS_FLAGS : Z := Z.lor (Z.lor VM_READ VM_WRITE) VM_EXEC.

Definition anon_vma_compatible (a b : vma) : bool :=
  (vm_end a =? vm_start b) && bool_decide (vm_policy a = vm_policy b) && bool_decide (vm_file a = vm_file b)
  && (Z.ldiff (Z.lxor (vm_flags a) (vm_flags b)) (Z.lor VM_ACCESS_FLAGS VM_SOFTDIRTY) =? 0)
  && (vm_pgoff b =? vm_pgoff a +u ((vm_start b -u vm_start a) >>u PAGE_SHIFT)).

Definition reusable_anon_vma (old a b : vma) : option Z :=
  if anon_vma_compatible a b then
    match anon_vma old with Some x => if anon_singular old then Some x else None | None => None end
  else None.

(** [mas_walk] finds the area at an address; [mas_prev] goes to the one before. *)
Definition find_mergeable_anon_vma (v : vma) m : option Z :=
  let next := mt_find (mm_mt m) (vm_end v) (vm_end v) in
  let found := match next with Some n => reusable_anon_vma n v n | None => None end in
  match found with
  | Some x => Some x
  | None => match mas_prev (mm_mt m) (vm_start v) with
            | Some p => reusable_anon_vma p p v
            | None => None
            end
  end.

(** ** Write notification *)

(** What the driver, the file system and the page protection say. *)
Record notify_env := {
  has_mkwrite : Z -> bool; can_writeback : Z -> bool; prot_preserved : vma -> bool;
  soft_dirty_enabled : vma -> bool; is_hugetlb : vma -> bool; uffd_wp : vma -> bool
}.
Context (ne : notify_env).

Definition vm_ops_needs_writenotify (ops : option Z) : bool :=
  match ops with Some o => has_mkwrite ne o | None => false end.
Definition vma_is_shared_writable (v : vma) : bool :=
  Z.land (vm_flags v) (Z.lor VM_WRITE VM_SHARED) =? Z.lor VM_WRITE VM_SHARED.
Definition vma_fs_can_writeback (v : vma) : bool :=
  if flag_set (vm_flags v) VM_PFNMAP then false
  else match vm_file v with Some f => can_writeback ne f | None => false end.
Definition vma_needs_dirty_tracking (v : vma) : bool :=
  if negb (vma_is_shared_writable v) then false
  else if vm_ops_needs_writenotify (vm_ops v) then true
  else vma_fs_can_writeback v.
Definition vma_wants_writenotify (v : vma) : bool :=
  if negb (vma_is_shared_writable v) then false
  else if vm_ops_needs_writenotify (vm_ops v) then true
  else if negb (prot_preserved ne v) then false
  else if soft_dirty_enabled ne v && negb (is_hugetlb ne v) then true
  else if uffd_wp ne v then true
  else vma_fs_can_writeback v.

(** ** [remap_file_pages] *)

(** The areas after the first one: no hole, same file, same flags, up to the end. *)
Fixpoint remap_scan (l : list vma) (v prev : vma) (end_ : Z) : bool :=
  match l with
  | [] => false
  | next :: l =>
      if negb (vm_start next =? vm_end prev) then false
      else if negb (bool_decide (vm_file next = vm_file v)) then false
      else if negb (vm_flags next =? vm_flags v) then false
      else if end_ <=? vm_end next then true
      else remap_scan l v next end_
  end.

(** [vma_lookup]. *)
Definition vma_lookup m (addr : Z) : option vma := mt_find (mm_mt m) addr addr.

Definition remap_out (ret : Z) m : option (Z * mm_struct T) :=
  Some (if negb (IS_ERR_VALUE ret) then 0 else ret, set_lock Unlocked m).

(** [None]: out of fuel, or a shared area without a file. *)
Definition remap_file_pages (fuel : nat) (start size prot pgoff flags : Z) m : option (Z * mm_struct T) :=
  if negb (prot =? 0) then Some (u64 (- EINVAL), m)
  else
    let start := Z.land start PAGE_MASK in
    let size := Z.land size PAGE_MASK in
    let end_ := start +u size in
    if end_ <=? start then Some (u64 (- EINVAL), m)
    else if (pgoff +u (size >>u PAGE_SHIFT)) <? pgoff then Some (u64 (- EINVAL), m)
    else if lock_killed vme then Some (u64 (- EINTR), m)
    else
      let m := set_lock WriteLocked m in
      match vma_lookup m start with
      | None => remap_out (u64 (- EINVAL)) m
      | Some v =>
          if negb (flag_set (vm_flags v) VM_SHARED) then remap_out (u64 (- EINVAL)) m
          else if (vm_end v <? end_) && negb (remap_scan (range_areas m (vm_end v) end_) v v end_)
          then remap_out (u64 (- EINVAL)) m
          else
            let prot := Z.lor (if flag_set (vm_flags v) VM_READ then PROT_READ else 0)
                       (Z.lor (if flag_set (vm_flags v) VM_WRITE then PROT_WRITE else 0)
                              (if flag_set (vm_flags v) VM_EXEC then PROT_EXEC else 0)) in
            let flags := Z.lor (Z.land flags MAP_NONBLOCK) (Z.lor MAP_SHARED (Z.lor MAP_FIXED MAP_POPULATE)) in
            let flags := if flag_set (vm_flags v) VM_LOCKED then Z.lor flags MAP_LOCKED else flags in
            match vm_file v with
            | None => None
            | Some f =>
                match do_mmap e fuel (Some f) start size prot flags 0 pgoff m with
                | None => None
                | Some (ret, _, m) => remap_out ret m
                end
            end
      end.

(** ** [old_mmap] *)

Context {G : Type} `{MemGate G} (g : G) (pid : Z).

(** The six arguments in memory, [None] when they cannot be read. *)
Definition old_mmap (c : mmap_calls) (arg : option (Z * Z * Z * Z * Z * Z)) m : option (Z * mm_struct T) :=
  match arg with
  | None => Some (u64 (- EFAULT), m)
  | Some (addr, len, prot, flags, fd, offset) =>
      if negb (offset_in_page offset =? 0) then Some (u64 (- EINVAL), m)
      else ksys_mmap_pgoff e g pid c addr len prot flags fd (offset >>u PAGE_SHIFT) m
  end.
End ops.

(** ** Reserves *)

(** [sysctl_user_reserve_kbytes] and [sysctl_admin_reserve_kbytes]. *)
Record reserves := Reserves { user_reserve : Z; admin_reserve : Z }.
Inductive mem_action := MEM_ONLINE | MEM_OFFLINE | MEM_OTHER.

Definition K (pages : Z) : Z := u64 (Z.shiftl pages (PAGE_SHIFT - 10)).
Definition init_user_reserve (free_pages : Z) (r : reserves) : reserves :=
  Reserves (Z.min (K free_pages / 32) (2 ^ 17)) (admin_reserve r).
Definition init_admin_reserve (free_pages : Z) (r : reserves) : reserves :=
  Reserves (user_reserve r) (Z.min (K free_pages / 32) (2 ^ 13)).

Definition reserve_mem_notifier (free_pages : Z) (action : mem_action) (r : reserves) : reserves :=
  match action with
  | MEM_ONLINE =>
      let tmp := user_reserve r in
      let r := if (0 <? tmp) && (tmp <? 2 ^ 17) then init_user_reserve free_pages r else r in
      let tmp := admin_reserve r in
      if (0 <? tmp) && (tmp <? 2 ^ 13) then init_admin_reserve free_pages r else r
  | MEM_OFFLINE =>
      let free_kbytes := K free_pages in
      let r := if free_kbytes <? user_reserve r then init_user_reserve free_pages r else r in
      if free_kbytes <? admin_reserve r then init_admin_reserve free_pages r else r
  | MEM_OTHER => r
  end.
End Special.
