(* ===== verification/SpecialSpec.v ===== *)
(** * Properties of special mappings and the reserves

    Installing a special mapping adds exactly its pages or changes nothing; its faults are
    served from the array of its pages; shrinking an area removes exactly the pages cut
    off; [remap_file_pages] ends and keeps the address space well formed. *)
From stdpp Require Import gmap.
From S2P Require Import Prelude Gate Vma Mm MmSpec Brk BrkSpec Mmap MmapSpec MergeSpec MmapCalls Special.

Module SpecialSpec.
Import Mm MmSpec Brk BrkSpec Mmap MmapSpec MergeSpec MmapCalls Special.

Section spec.
Context {T : Type} `{VmaTree T} (e : map_env).
Implicit Types m : mm_struct T.
Notation areas m := (vmas (mm_mt m)).

(** ** Installing *)

(** Nothing found in a range: nothing is mapped there. *)
Lemma no_intersection_view m lo hi :
  mm_wf m -> 0 <= lo < hi -> hi <= TASK_SIZE -> find_vma_intersection m lo hi = None ->
  forall a, lo <= a < hi -> view (areas m) a = None.
Proof.
  intros Hwf Hlo Hhi Hf a Ha. apply view_none. intros x Hx Hc.
  unfold find_vma_intersection in Hf. rewrite mt_find_spec in Hf. unfold first_area in Hf.
  rewrite u64_small in Hf by (unfold TASK_SIZE, PAGE_SIZE in *; lia).
  assert (Hin : x ∈ filter (fun x => lo < vm_end x /\ vm_start x <= hi - 1) (areas m)).
  { apply list_elem_of_filter. unfold covers in Hc. split; [lia|done]. }
  destruct (filter _ (areas m)); [by apply not_elem_of_nil in Hin|done].
Qed.

Record nothing_changed m m' : Prop := {
  nc_wf : mm_wf m'; nc_areas : areas m' = areas m; nc_ctr : ctr m' = ctr m;
  nc_committed : committed m' = committed m; nc_lock : mmap_lock m' = mmap_lock m
}.

Definition special_flags (vmf : Z) m : Z :=
  Z.ldiff (Z.lor (Z.lor vmf (def_flags m)) (Z.lor VM_DONTEXPAND VM_SOFTDIRTY)) VM_LOCKED_MASK.

Record installed (addr len vmf spec ops : Z) (d : privates) m (v : vma) (d' : privates) m' : Prop := {
  is_wf : mm_wf m';
  is_free : forall a, addr <= a < addr + len -> view (areas m) a = None;
  is_view : forall a, view (areas m') a =
    if decide (addr <= a < addr + len) then Some (req_page (special_flags vmf m) None 0 addr a)
    else view (areas m) a;
  is_total : total_vm (ctr m') = total_vm (ctr m) + len / PAGE_SIZE;
  is_locked : locked_vm (ctr m') = locked_vm (ctr m);
  is_committed : committed m' = committed m +
    (if flag_set (special_flags vmf m) VM_ACCOUNT then len / PAGE_SIZE else 0);
  is_area : v ∈ areas m' /\ vm_ops v = Some ops;
  is_private : d' = <[vm_id v := spec]> d
}.

Lemma bump_wf m : mm_wf m -> mm_wf (set_areas (mm_mt m) (map_count m) (next_id m + 1) m).
Proof.
  intros [H1 H2 H3 H4 H5]. split; try done. cbn. eapply Forall_impl; [exact H3|]. cbn. lia.
Qed.

Lemma uncharged_wf c m : nothing_changed m (set_areas (mm_mt m) (map_count m) (next_id m + 1) m) ->
  nothing_changed m (vm_unacct_memory c (set_committed (committed m + c)
    (set_areas (mm_mt m) (map_count m) (next_id m + 1) m))).
Proof. intros []. split; [by do 2 apply wf_committed|done|done|cbn; lia|done]. Qed.

Lemma install_special_spec addr len vmf spec ops d m :
  mm_wf m -> 0 <= addr -> addr mod PAGE_SIZE = 0 -> 0 < len -> len mod PAGE_SIZE = 0 ->
  addr + len <= TASK_SIZE ->
  exists r d' m', __install_special_mapping e addr len vmf spec ops d m = Some (r, d', m') /\
    match r with
    | inl err => err = - ENOMEM /\ d' = d /\ nothing_changed m m'
    | inr v => installed addr len vmf spec ops d m v d' m'
    end.
Proof.
  intros Hwf Ha Haa Hl Hla Htop. unfold __install_special_mapping.
  destruct (vm_area_alloc_ok (be e)); cbn [negb].
  2: { eexists _, _, _. split; [done|]. by split; [done|]. }
  set (m1 := set_areas (mm_mt m) (map_count m) (next_id m + 1) m).
  change (def_flags m1) with (def_flags m). fold (special_flags vmf m). set (fl := special_flags vmf m).
  assert (Hend : addr +u len = addr + len) by (unfold TASK_SIZE, PAGE_SIZE in *; apply u64_small; lia).
  rewrite Hend. set (v := Vma _ addr _ _ _ _ _ _ _ _ _ _).
  assert (Hsame : nothing_changed m m1) by (split; try done; by apply bump_wf).
  unfold insert_vm_struct. cbn [vm_start vm_end v].
  destruct (find_vma_intersection m1 addr (addr + len)) as [x|] eqn:Hf.
  { eexists _, _, _. split; [done|]. done. }
  cbn [is_Some bool_decide]. rewrite bool_decide_false by (by intros [? ?]).
  assert (Hpg : vma_pages v = len / PAGE_SIZE).
  { unfold vma_pages. cbn. replace (addr + len -u addr) with len
      by (rewrite u64_small; unfold TASK_SIZE, PAGE_SIZE in *; lia). apply shift_page. }
  rewrite Hpg. change (vm_flags v) with fl. set (acct := flag_set fl VM_ACCOUNT).
  set (n := len / PAGE_SIZE).
  assert (Hgrant : exists ok, (if acct then vm_enough_memory (vm (be e)) n m1 else (true, m1))
    = (ok, if ok && acct then set_committed (committed m + n) m1 else m1)).
  { unfold vm_enough_memory. destruct acct; [destruct (enough_memory _ n)|]; [by exists true|by exists false|by exists true]. }
  destruct Hgrant as ([] & ->); cbn [negb andb].
  2: { eexists _, _, _. split; [done|]. done. }
  change (vma_is_anonymous v) with false. cbn [andb].
  set (m2 := if acct then set_committed (committed m + n) m1 else m1).
  assert (Hm2 : exists c, m2 = set_committed c m1 /\ c = committed m + (if acct then n else 0)).
  { unfold m2. destruct acct; [by eexists|]. exists (committed m). split; [by destruct m|lia]. }
  destruct Hm2 as (c & Hm2 & Hc). unfold vma_link.
  destruct (iter_prealloc_ok (vm (be e)) v); cbn [negb].
  2: { eexists _, _, _. split; [done|]. split; [done|]. split; [done|]. unfold m2.
       change (flag_set (vm_flags v) VM_ACCOUNT) with acct. destruct acct; [by apply uncharged_wf|done]. }
  assert (Hfree : forall a, addr <= a < addr + len -> view (areas m) a = None).
  { apply (no_intersection_view m addr (addr + len)); try done. lia. }
  destruct (unmapped_gap addr len m Hwf Ha Haa Hl Hla Htop Hfree) as (l & k & Hgap).
  pose proof (place_new addr len fl None 0 l k (set_committed c m) v (wf_committed c m Hwf)
    (gap_committed _ _ _ _ c _ Hgap) eq_refl eq_refl eq_refl eq_refl eq_refl eq_refl) as Hpl.
  eexists _, _, _. split; [done|]. rewrite Hm2. set (m3 := set_areas _ _ _ _) in Hpl.
  change (set_areas (mt_store v (mm_mt (set_committed c m1))) (map_count (set_committed c m1) + 1)
    (next_id (set_committed c m1)) (set_committed c m1)) with m3.
  destruct Hpl as [P1 P2 P3 P4 P5 P6 P7 P8].
  assert (Htot : total_vm (vm_stat_account (vm (be e)) fl (len >>u PAGE_SHIFT) (ctr m3))
            = total_vm (ctr m) + n).
  { rewrite account_total. change (ctr m3) with (ctr m). apply total_after; [done|]. unfold TASK_SIZE in *. lia. }
  split; try done.
  - split; try done. transitivity (total_vm (ctr m) + n); [exact Htot|]. rewrite (wf_total m Hwf). symmetry. exact P5.
  - cbn. unfold vm_stat_account. by repeat case_match.
Qed.

(** Installing a special mapping on a free, page-aligned range below the top adds one
    area with exactly the pages of the range, not locked and never to be expanded,
    accounts for them in [total_vm] and, where its flags say so, in the committed memory,
    and ties its private data to the area; in every other case, be it an occupied range,
    no memory for the area or its place in the tree, or no commitment left, the process
    sees [-ENOMEM] and nothing has changed, the charge given back included. *)
Theorem special_mapping_installed addr len vmf spec d m :
  mm_wf m -> 0 <= addr -> addr mod PAGE_SIZE = 0 -> 0 < len -> len mod PAGE_SIZE = 0 ->
  addr + len <= TASK_SIZE ->
  exists r d' m', _install_special_mapping e addr len vmf spec d m = Some (r, d', m') /\
    match r with
    | inl err => err = - ENOMEM /\ d' = d /\ nothing_changed m m'
    | inr v => installed addr len vmf spec special_mapping_vmops d m v d' m' /\
               vma_is_special_mapping v spec d' = true
    end.
Proof.
  intros Hwf Ha Haa Hl Hla Htop.
  destruct (install_special_spec addr len vmf spec special_mapping_vmops d m Hwf Ha Haa Hl Hla Htop)
    as (r & d' & m' & Hi & Hr). exists r, d', m'. split; [exact Hi|]. destruct r as [err|v]; [done|].
  split; [done|]. destruct Hr as [_ _ _ _ _ _ [_ Hops] ->]. unfold vma_is_special_mapping.
  rewrite bool_decide_true by apply lookup_insert_eq. by rewrite Hops, bool_decide_true.
Qed.

(** The fault handler of a special mapping reads its array up to the terminating NULL and
    not past it: page [n] where there is one, SIGBUS behind the last. *)
Theorem special_fault_spec pages rest n :
  Forall (fun p => p <> 0) pages ->
  special_mapping_fault true None (pages ++ 0 :: rest) n =
    Some (match pages !! n with Some p => FaultPage p | None => VM_FAULT_SIGBUS end).
Proof.
  intros Hp. unfold special_mapping_fault.
  assert (Hw : fault_walk n (pages ++ 0 :: rest) = Some (default 0 (pages !! n))).
  { revert n. induction Hp as [|p pages Hp0 _ IH]; intros n; [by destruct n|].
    destruct n as [|n]; [done|]. cbn -[Z.eqb]. destruct (Z.eqb_spec p 0); [done|]. apply IH. }
  rewrite Hw. destruct (pages !! n) as [p|] eqn:Hn; cbn [default]; [|done].
  rewrite (proj2 (Z.eqb_neq _ _)); [done|]. rewrite Forall_forall in Hp. apply Hp. by eapply list_elem_of_lookup_2.
Qed.

(** ** Shrinking *)

(** The area keeps the rest of its range; no other area changes. *)
Theorem vma_shrink_spec l v k m start end_ pgoff r m' :
  mm_wf m -> areas m = l ++ v :: k ->
  (start = vm_start v /\ start < end_ <= vm_end v) \/ (end_ = vm_end v /\ vm_start v < start < end_) ->
  vma_shrink e v start end_ pgoff m = (r, m') ->
  (r = - ENOMEM /\ m' = m) \/
  (r = 0 /\ areas m' = l ++ set_range start end_ pgoff v :: k /\ map_count m' = map_count m).
Proof.
  intros Hwf Hm Hr. unfold vma_shrink.
  set (lohi := if vm_start v <? start then _ else _). destruct lohi as [lo hi] eqn:Hlh.
  destruct (iter_prealloc_ok _ v); cbn [negb]; intros [= <- <-]; [right|by left].
  split; [done|]. split; [|done]. cbn [mm_mt set_areas]. set (v' := set_range start end_ pgoff v).
  pose proof (wf_areas m Hwf) as Hok. rewrite Hm in Hok.
  assert (Hw : vmas (vma_write (vm_id v) (fun _ => v') (mm_mt m)) = l ++ v' :: k).
  { rewrite vma_write_spec, Hm. apply write_one. rewrite <- Hm. apply Hwf. }
  assert (Hcase : vm_start v' = start /\ vm_end v' = end_ /\ vm_start v <= lo /\ hi <= vm_end v /\
                  (hi <= start \/ end_ <= lo)).
  { cbn. subst lohi. destruct (Z.ltb_spec (vm_start v) start); injection Hlh as <- <-; lia. }
  destruct Hcase as (Hs & He & Hlo & Hhi & Hout).
  apply areas_ok_app in Hok as (Hokl & Hokk & Hlk). apply areas_ok_cons in Hokk as (Hv & Hokk & Hvk).
  assert (Hall : Forall (fun x => vm_end x <= lo \/ hi <= vm_start x) (l ++ v' :: k)).
  { apply Forall_app. split; [|constructor].
    - apply Forall_forall. intros x Hx. left. specialize (Hlk x v Hx ltac:(set_solver)). unfold before in Hlk. lia.
    - rewrite Hs, He. lia.
    - apply Forall_forall. intros x Hx. right. specialize (Hvk x Hx). unfold before in Hvk. lia. }
  rewrite mt_erase_spec; rewrite Hw.
  - unfold erase_area. by apply filter_all.
  - unfold whole. eapply Forall_impl; [exact Hall|]. cbn. tauto.
Qed.

(** ** Copying for [mremap] *)

Definition copy_pgoff (v : vma) (addr pgoff : Z) : Z :=
  if vma_is_anonymous v && negb (bool_decide (is_Some (anon_vma v))) then addr >>u PAGE_SHIFT else pgoff.

(** A copy of an area at a free range, as a new area or merged with a neighbour, maps there
    the pages of the original with the offset asked for (that of the new place for memory
    that was never touched), and nothing else changes; when no copy is made nothing
    changes. *)
Theorem copy_vma_correct l k v addr len pgoff m :
  mm_wf m -> gap_at addr len l k m ->
  match copy_vma e v addr len pgoff m with
  | (None, m') => nothing_changed m m'
  | (Some (new, _, _), m') =>
      merged (len / PAGE_SIZE) addr len (vm_flags v) (vm_file v) (copy_pgoff v addr pgoff) new m m'
  end.
Proof.
  intros Hwf Hgap. unfold copy_vma. fold (copy_pgoff v addr pgoff). set (off := copy_pgoff v addr pgoff).
  pose proof Hgap as [Hm Hl Hk [Ha Haa] [Hlen Hla] Htop].
  assert (Hend : addr +u len = addr + len) by (unfold TASK_SIZE, PAGE_SIZE in *; apply u64_small; lia).
  rewrite Hend. unfold find_vma_prev. destruct (gap_neighbours addr len l k m Hwf Hgap) as [-> ->].
  assert (match head k with Some x => vm_start x <? addr + len | None => false end = false) as ->.
  { destruct k as [|x k]; [done|]. apply Forall_cons in Hk as [Hx _]. cbn. lia. }
  destruct (vma_merge_new_vma e (last l) v addr (addr + len) off m) as [r m1] eqn:Hmg.
  pose proof (vma_merge_spec e addr len (vm_flags v) (anon_vma v) (vm_file v) off (vm_policy v) (vm_uffd v) (anon_name v)
    (conj Hlen Hla) (conj Ha Haa) Htop (len / PAGE_SIZE) (last l) m r m1 Hwf (site_gap _ _ _ _ _ l k Hgap eq_refl) Hmg) as Hout.
  destruct r as [new|]; [done|]. subst m1.
  assert (Hsame : nothing_changed m (set_areas (mm_mt m) (map_count m) (next_id m + 1) m))
    by (split; try done; by apply bump_wf).
  destruct (vm_area_dup_ok _ v addr); cbn [negb]; [|by split].
  destruct (negb (vma_dup_policy _ v =? 0)); [done|]. destruct (negb (anon_vma_clone _ v =? 0)); [done|].
  unfold vma_link. destruct (iter_prealloc_ok _ _); cbn [negb]; [|done].
  apply placed_merged; [|cbn; lia].
  exact (place_new addr len (vm_flags v) (vm_file v) off l k m
    (set_range addr (addr + len) off (set_id (next_id m) v)) Hwf Hgap eq_refl eq_refl eq_refl eq_refl eq_refl eq_refl).
Qed.

(** ** Sharing an [anon_vma] *)

(** What is offered for sharing belongs to an area of the address space that touches [v],
    with the same file and policy and consecutive offsets, that was never forked. *)
Theorem mergeable_anon_vma_touches v m x :
  mm_wf m -> v ∈ areas m -> find_mergeable_anon_vma v m = Some x ->
  exists w, w ∈ areas m /\ anon_vma w = Some x /\ anon_singular w = true /\ vm_file w = vm_file v /\
    vm_policy w = vm_policy v /\ (vm_end v = vm_start w \/ vm_end w = vm_start v).
Proof.
  intros Hwf Hv. unfold find_mergeable_anon_vma.
  assert (Hre : forall old a b, reusable_anon_vma old a b = Some x ->
    anon_vma old = Some x /\ anon_singular old = true /\ vm_end a = vm_start b /\
    vm_policy a = vm_policy b /\ vm_file a = vm_file b).
  { intros old a b. unfold reusable_anon_vma, anon_vma_compatible.
    destruct (_ && _) eqn:Hc; [|done]. rewrite !andb_true_iff, !bool_decide_eq_true in Hc.
    destruct (anon_vma old); [|done]. destruct (anon_singular old); [|done]. intros [= ->].
    destruct Hc as ((((H1 & H2) & H3) & _) & _). split_and!; try done. lia. }
  rewrite mt_find_spec, mas_prev_spec.
  assert (Hprev : (match last_area (vm_start v) (areas m) with Some p => reusable_anon_vma p p v | None => None end)
      = Some x -> exists w, w ∈ areas m /\ anon_vma w = Some x /\ anon_singular w = true /\ vm_file w = vm_file v /\
    vm_policy w = vm_policy v /\ (vm_end v = vm_start w \/ vm_end w = vm_start v)).
  { destruct (last_area (vm_start v) (areas m)) as [p|] eqn:Hp; [|done]. intros Hx.
    apply Hre in Hx as (? & ? & ? & ? & ?). exists p. split_and!; try done; [|by right].
    unfold last_area in Hp. apply last_Some_elem_of, list_elem_of_filter in Hp. tauto. }
  destruct (first_area (vm_end v) (vm_end v) (areas m)) as [n|] eqn:Hn; [|exact Hprev].
  destruct (reusable_anon_vma n v n) as [y|] eqn:Hy; [|exact Hprev]. intros [= ->].
  apply Hre in Hy as (? & ? & ? & ? & ?). exists n. split_and!; try done; [|by left].
  unfold first_area in Hn. apply head_Some_elem_of, list_elem_of_filter in Hn. tauto.
Qed.

(** ** Remapping *)

Lemma range_areas_set lk m lo hi : range_areas (set_lock lk m) lo hi = range_areas m lo hi.
Proof. done. Qed.

(** [remap_file_pages] ends, with the lock released and the address space well formed,
    when shared areas have a file. *)
Theorem remap_ends start size prot pgoff flags m :
  map_env_ok e -> mm_wf m -> mmap_lock m = Unlocked -> is_u64 size ->
  Forall (fun v => flag_set (vm_flags v) VM_SHARED = true -> is_Some (vm_file v)) (areas m) ->
  exists r m', remap_file_pages e (munmap_fuel m) start size prot pgoff flags m = Some (r, m') /\
    mm_wf m' /\ mmap_lock m' = Unlocked.
Proof.
  intros Hok Hwf Hlk Hu Hfiles. unfold remap_file_pages.
  destruct (negb (prot =? 0)); [by eexists _, _|].
  set (st := Z.land start PAGE_MASK). set (sz := Z.land size PAGE_MASK).
  destruct (st +u sz <=? st); [by eexists _, _|]. destruct (_ <? pgoff); [by eexists _, _|].
  destruct (lock_killed _); [by eexists _, _|].
  assert (Hwl : mm_wf (set_lock WriteLocked m)) by (by apply mm_wf_lock).
  assert (Hout : forall ret m1, mm_wf m1 -> exists r m', remap_out ret m1 = Some (r, m') /\ mm_wf m' /\ mmap_lock m' = Unlocked).
  { intros ret m1 Hm1. eexists _, _. split; [done|]. split; [by apply mm_wf_lock|done]. }
  destruct (vma_lookup (set_lock WriteLocked m) st) as [v|] eqn:Hv; [|by apply Hout].
  destruct (flag_set (vm_flags v) VM_SHARED) eqn:Hsh; cbn [negb]; [|by apply Hout].
  destruct ((vm_end v <? st +u sz) && _); [by apply Hout|].
  assert (Hin : v ∈ areas m).
  { unfold vma_lookup in Hv. rewrite mt_find_spec in Hv. unfold first_area in Hv.
    apply head_Some_elem_of, list_elem_of_filter in Hv. tauto. }
  rewrite Forall_forall in Hfiles. destruct (Hfiles v Hin Hsh) as [f ->].
  set (pr := Z.lor _ (Z.lor _ _)). set (fl := if flag_set (vm_flags v) VM_LOCKED then _ else _).
  assert (Hsz : 0 <= sz < 2 ^ 64).
  { unfold sz. unfold is_u64 in Hu. rewrite PAGE_MASK_land by lia. unfold PAGE_SIZE.
    Z.to_euclidean_division_equations; lia. }
  destruct (do_mmap_outcome e Hok (Some f) st sz pr fl 0 pgoff (set_lock WriteLocked m) Hwl Hsz)
    as (r & pop & m' & Hd & Hout').
  change (munmap_fuel (set_lock WriteLocked m)) with (munmap_fuel m) in Hd. rewrite Hd. apply Hout.
  destruct Hout' as [->|(a & vmf' & pg' & _ & _ & _ & [Hw _ _ _])]; done.
Qed.
End spec.

(** ** The reserves *)

(** After memory went offline neither reserve is above the free memory; a reserve the
    administrator turned off or set above the default maximum outlives memory coming
    online. *)
Theorem reserves_fit free_pages r :
  0 <= free_pages < 2 ^ 54 -> 0 <= user_reserve r -> 0 <= admin_reserve r ->
  let off := reserve_mem_notifier free_pages MEM_OFFLINE r in
  let on := reserve_mem_notifier free_pages MEM_ONLINE r in
  user_reserve off <= K free_pages /\ admin_reserve off <= K free_pages /\
  (user_reserve r = 0 \/ 2 ^ 17 <= user_reserve r -> user_reserve on = user_reserve r) /\
  (admin_reserve r = 0 \/ 2 ^ 13 <= admin_reserve r -> admin_reserve on = admin_reserve r).
Proof.
  intros Hf Hu Ha. cbv zeta.
  assert (HK : 0 <= K free_pages) by (unfold K; apply u64_range).
  assert (Hdiv : K free_pages / 32 <= K free_pages) by (Z.to_euclidean_division_equations; lia).
  unfold reserve_mem_notifier, init_user_reserve, init_admin_reserve.
  destruct (Z.ltb_spec (K free_pages) (user_reserve r)); cbn [user_reserve admin_reserve];
    destruct (Z.ltb_spec (K free_pages) (admin_reserve r)); cbn [user_reserve admin_reserve];
    destruct (Z.ltb_spec 0 (user_reserve r)), (Z.ltb_spec (user_reserve r) (2 ^ 17)); cbn [andb user_reserve admin_reserve];
    destruct (Z.ltb_spec 0 (admin_reserve r)), (Z.ltb_spec (admin_reserve r) (2 ^ 13)); cbn [andb user_reserve admin_reserve]; lia.
Qed.
End SpecialSpec.

(** ** A vDSO-like page in a small process *)

Module SpecialDemo.
Import Mm MmSpec Brk BrkSpec Mmap MmapSpec MmapCalls Special SpecialSpec.

Lemma special_mapping_installed_witness :
  (exists v m', _install_special_mapping map_env0 4194304 8192 5 77 ∅ mm0 = Some (inr v, {[4 := 77]}, m') /\
     total_vm (ctr m') = 20) /\
  exists r d' m', _install_special_mapping map_env0 4194304 8192 5 77 ∅ mm0 = Some (r, d', m') /\
    match r with
    | inl err => err = - ENOMEM /\ d' = ∅ /\ nothing_changed mm0 m'
    | inr v => installed 4194304 8192 5 77 special_mapping_vmops ∅ mm0 v d' m' /\
               vma_is_special_mapping v 77 d' = true
    end.
Proof.
  split; [eexists _, _; split; vm_compute; reflexivity|].
  apply (special_mapping_installed map_env0 4194304 8192 5 77 ∅ mm0 mm0_wf); try done; by vm_compute.
Defined.

(** A reserve the administrator lowered is overwritten when memory comes online. *)
Example lowered_reserve_overwritten :
  user_reserve (reserve_mem_notifier (2 ^ 20) MEM_ONLINE (Reserves 1000 0)) = 131072.
Proof. reflexivity. Qed.
End SpecialDemo.
