(* ===== verification/RMap.v ===== *)
(** * Reverse maps ([mm/mmap.c])

    From a file or from anonymous memory the kernel finds the areas that map it: an area of
    a file is in the interval tree of the file's mapping, an area with anonymous pages in
    the trees of the [anon_vma]s of its chain, under the page offsets it covers.  The trees
    are shared by all processes and can only be searched if each entry is where the
    fields of its area say, so [vma_prepare] takes an area out before its fields change and
    [vma_complete] puts it back, under the locks of the trees.  The areas here are those
    of all processes; an operation on a tree without its lock, on an entry that is not there
    or with other fields than it was inserted with, a lock taken twice or given back when
    not held, sets [bad]. *)
From S2P Require Import Prelude Vma.

(** The interval tree ([lib/interval_tree.c] by way of [mm/interval_tree.c]): entries of
    areas, with the first and last offset they were inserted under. *)
Class IntervalTree (T : Type) := {
  it_elems : T -> gset (Z * (Z * Z));
  it_insert : Z * (Z * Z) -> T -> T;
  it_remove : Z * (Z * Z) -> T -> T;
  it_elems_insert e t : e ∉ it_elems t -> it_elems (it_insert e t) = {[e]} ∪ it_elems t;
  it_elems_remove e t : e ∈ it_elems t -> it_elems (it_remove e t) = it_elems t ∖ {[e]}
}.

Module RMap.

Inductive lock := LMmap (mapping : Z) | LFlush (mapping : Z) | LAnon (root : Z).
#[export] Instance lock_eq_dec : EqDecision lock.
Proof. solve_decision. Defined.

(** What the reverse maps use of a [vm_area_struct]; [r_shared] is [vma_is_shared_maywrite],
    [r_chain] the [anon_vma]s of its [anon_vma_chain]. *)
Record area := Area {
  r_mm : Z; r_start : Z; r_end : Z; r_pgoff : Z; r_file : option Z; r_shared : bool;
  r_anon : option Z; r_chain : list Z
}.

Definition set_bounds lo hi pgoff a := Area (r_mm a) lo hi pgoff (r_file a) (r_shared a) (r_anon a) (r_chain a).
Definition set_anon x l a := Area (r_mm a) (r_start a) (r_end a) (r_pgoff a) (r_file a) (r_shared a) x l.

(** [vma_start_pgoff] and [vma_last_pgoff]. *)
Definition key (a : area) : Z * Z :=
  (r_pgoff a, (r_pgoff a +u ((r_end a -u r_start a) >>u PAGE_SHIFT)) -u 1).

(** [i_mmap] of each mapping and [rb_root] of each [anon_vma]; [i_mmap_writable]; the
    references areas hold on files; [map_count] of each address space. *)
Record heap (T : Type) := Heap {
  areas : gmap Z area; i_mmap : Z -> T; rb_root : Z -> T; i_mmap_writable : Z -> Z;
  f_count : Z -> Z; map_count : Z -> Z; held : list lock; bad : bool
}.
Arguments Heap {T}. Arguments areas {T}. Arguments i_mmap {T}. Arguments rb_root {T}.
Arguments i_mmap_writable {T}. Arguments f_count {T}. Arguments map_count {T}.
Arguments held {T}. Arguments bad {T}.

Definition upd {A} (k : Z) (v : A) (f : Z -> A) : Z -> A := fun x => if decide (x = k) then v else f x.

Section heap.
Context {T : Type} `{IntervalTree T}.
Implicit Types h : heap T.

Definition set_areas A h := Heap A (i_mmap h) (rb_root h) (i_mmap_writable h) (f_count h) (map_count h) (held h) (bad h).
Definition set_i_mmap m t h := Heap (areas h) (upd m t (i_mmap h)) (rb_root h) (i_mmap_writable h) (f_count h) (map_count h) (held h) (bad h).
Definition set_rb_root x t h := Heap (areas h) (i_mmap h) (upd x t (rb_root h)) (i_mmap_writable h) (f_count h) (map_count h) (held h) (bad h).
Definition add_writable m d h := Heap (areas h) (i_mmap h) (rb_root h) (upd m (i_mmap_writable h m + d) (i_mmap_writable h)) (f_count h) (map_count h) (held h) (bad h).
Definition add_f_count f d h := Heap (areas h) (i_mmap h) (rb_root h) (i_mmap_writable h) (upd f (f_count h f + d) (f_count h)) (map_count h) (held h) (bad h).
Definition add_map_count mm d h := Heap (areas h) (i_mmap h) (rb_root h) (i_mmap_writable h) (f_count h) (upd mm (map_count h mm + d) (map_count h)) (held h) (bad h).
Definition set_held l h := Heap (areas h) (i_mmap h) (rb_root h) (i_mmap_writable h) (f_count h) (map_count h) l (bad h).
Definition check (b : bool) h := Heap (areas h) (i_mmap h) (rb_root h) (i_mmap_writable h) (f_count h) (map_count h) (held h) (bad h || negb b).

Definition acquire (l : lock) h := set_held (l :: held h) (check (bool_decide (l ∉ held h)) h).
Definition release (l : lock) h := set_held (list_difference (held h) [l]) (check (bool_decide (l ∈ held h)) h).

(** An access to the area at [i]. *)
Definition with_area (i : Z) (f : area -> heap T -> heap T) h : heap T :=
  match areas h !! i with Some a => f a h | None => check false h end.
Definition write (i : Z) (f : area -> area) h := with_area i (fun a h => set_areas (<[i := f a]> (areas h)) h) h.
Definition fld {A} (f : area -> option A) (i : Z) h : option A := areas h !! i ≫= f.
Definition when {A} (o : option A) (f : A -> heap T -> heap T) h : heap T := match o with Some x => f x h | None => h end.

Definition present (i : Z) (t : T) : bool := bool_decide (set_Exists (fun e => e.1 = i) (it_elems t)).

(** ** Trees *)

Definition vma_interval_tree_insert (i m : Z) := with_area i (fun a h =>
  set_i_mmap m (it_insert (i, key a) (i_mmap h m))
    (check (bool_decide (LMmap m ∈ held h) && negb (present i (i_mmap h m))) h)).
Definition vma_interval_tree_remove (i m : Z) := with_area i (fun a h =>
  set_i_mmap m (it_remove (i, key a) (i_mmap h m))
    (check (bool_decide (LMmap m ∈ held h) && bool_decide ((i, key a) ∈ it_elems (i_mmap h m))) h)).

Context (f_mapping : Z -> Z) (anon_root : Z -> Z).

Definition anon_vma_interval_tree_insert (i x : Z) := with_area i (fun a h =>
  set_rb_root x (it_insert (i, key a) (rb_root h x))
    (check (bool_decide (LAnon (anon_root x) ∈ held h) && negb (present i (rb_root h x))) h)).
Definition anon_vma_interval_tree_remove (i x : Z) := with_area i (fun a h =>
  set_rb_root x (it_remove (i, key a) (rb_root h x))
    (check (bool_decide (LAnon (anon_root x) ∈ held h) && bool_decide ((i, key a) ∈ it_elems (rb_root h x))) h)).

Definition anon_vma_interval_tree_pre_update_vma (i : Z) := with_area i (fun a h =>
  foldl (fun h x => anon_vma_interval_tree_remove i x h) h (r_chain a)).
Definition anon_vma_interval_tree_post_update_vma (i : Z) := with_area i (fun a h =>
  foldl (fun h x => anon_vma_interval_tree_insert i x h) h (r_chain a)).

Definition __remove_shared_vm_struct (i m : Z) := with_area i (fun a h =>
  let h := if r_shared a then add_writable m (-1) h else h in
  let h := acquire (LFlush m) h in
  let h := vma_interval_tree_remove i m h in
  release (LFlush m) h).

Definition unlink_file_vma (i : Z) h :=
  when (fld r_file i h) (fun f h =>
    let mapping := f_mapping f in
    let h := acquire (LMmap mapping) h in
    let h := __remove_shared_vm_struct i mapping h in
    release (LMmap mapping) h) h.

Definition __vma_link_file (i m : Z) := with_area i (fun a h =>
  let h := if r_shared a then add_writable m 1 h else h in
  let h := acquire (LFlush m) h in
  let h := vma_interval_tree_insert i m h in
  release (LFlush m) h).

(** The file's part of [vma_link]. *)
Definition vma_link_file (i : Z) h :=
  when (fld r_file i h) (fun f h =>
    let mapping := f_mapping f in
    let h := acquire (LMmap mapping) h in
    let h := __vma_link_file i mapping h in
    release (LMmap mapping) h) h.

(** ** [struct vma_prepare] *)

Record prep := Prep {
  vp_vma : Z; vp_adj_next : option Z; vp_file : option Z; vp_mapping : option Z; vp_anon_vma : option Z;
  vp_insert : option Z; vp_remove : option Z; vp_remove2 : option Z
}.

Definition init_multi_vma_prep (vma : Z) (next remove remove2 : option Z) h : prep :=
  let anon := fld r_anon vma h in
  let anon := match anon, next with None, Some n => fld r_anon n h | _, _ => anon end in
  let file := fld r_file vma h in
  Prep vma next file (f_mapping <$> file) anon None remove remove2.
Definition init_vma_prep (vma : Z) h : prep := init_multi_vma_prep vma None None None h.
Definition set_insert (new : Z) (vp : prep) : prep :=
  Prep (vp_vma vp) (vp_adj_next vp) (vp_file vp) (vp_mapping vp) (vp_anon_vma vp) (Some new) (vp_remove vp) (vp_remove2 vp).

Definition vma_prepare (vp : prep) h :=
  let h := when (vp_mapping vp) (fun m h =>
    let h := acquire (LMmap m) h in
    when (vp_insert vp) (fun n h => when (fld r_file n h) (fun f h => __vma_link_file n (f_mapping f) h) h) h) h in
  let h := when (vp_anon_vma vp) (fun x h =>
    let h := acquire (LAnon (anon_root x)) h in
    let h := anon_vma_interval_tree_pre_update_vma (vp_vma vp) h in
    when (vp_adj_next vp) anon_vma_interval_tree_pre_update_vma h) h in
  when (vp_mapping vp) (fun m h =>
    let h := acquire (LFlush m) h in
    let h := vma_interval_tree_remove (vp_vma vp) m h in
    when (vp_adj_next vp) (fun n h => vma_interval_tree_remove n m h) h) h.

(** [unlink_anon_vmas] and [anon_vma_clone] ([mm/rmap.c]) take the locks themselves. *)
Record linked (i : Z) (x : option Z) (l : list Z) h h' : Prop := {
  lk_areas : areas h' = alter (set_anon x l) i (areas h);
  lk_i_mmap m : it_elems (i_mmap h' m) = it_elems (i_mmap h m);
  lk_writable m : i_mmap_writable h' m = i_mmap_writable h m;
  lk_f_count f : f_count h' f = f_count h f;
  lk_map_count mm : map_count h' mm = map_count h mm;
  lk_held : held h' = held h;
  lk_bad : bad h' = bad h
}.

Definition drop_entries (i : Z) (s : gset (Z * (Z * Z))) : gset (Z * (Z * Z)) := filter (fun e => e.1 ≠ i) s.
Definition entry_if (b : bool) (i : Z) (k : Z * Z) : gset (Z * (Z * Z)) := if b then {[(i, k)]} else ∅.
End heap.
Arguments linked {T _} i x l h h'.

(** The two operations of [mm/rmap.c], by what they are documented to do: cloning gives [dst],
    which has no chain yet, the chain of [src] or fails and leaves it with no [anon_vma];
    unlinking takes an area out of the trees of its chain. *)
Class AnonRmap (T : Type) `{IntervalTree T} := {
  anon_vma_clone : Z -> Z -> heap T -> Z * heap T;
  unlink_anon_vmas : Z -> heap T -> heap T;
  anon_vma_clone_spec dst src (h : heap T) d s :
    areas h !! dst = Some d -> areas h !! src = Some s -> r_chain d = [] ->
    (exists h', anon_vma_clone dst src h = (0, h') /\ linked dst (r_anon d) (r_chain s) h h' /\
      forall x, it_elems (rb_root h' x) = entry_if (bool_decide (x ∈ r_chain s)) dst (key d) ∪ it_elems (rb_root h x)) \/
    (exists h', anon_vma_clone dst src h = (- ENOMEM, h') /\ linked dst None [] h h' /\
      forall x, it_elems (rb_root h' x) = it_elems (rb_root h x));
  unlink_anon_vmas_spec i (h : heap T) a :
    areas h !! i = Some a ->
    linked i None [] h (unlink_anon_vmas i h) /\
    forall x, it_elems (rb_root (unlink_anon_vmas i h) x) =
      (if bool_decide (x ∈ r_chain a) then drop_entries i (it_elems (rb_root h x)) else it_elems (rb_root h x))
}.

(** The other two, which give areas their chains.  [anon_vma_prepare], called before the first
    anonymous page: an area without an [anon_vma] gets one, new or that of a neighbour, or
    there is no memory.  [anon_vma_fork] gives [dst], the child's copy of [src], the chain of
    [src] and an [anon_vma] of the same root, a new one added to the chain or a reused one;
    it fails like [anon_vma_clone]. *)
Class AnonFault (T : Type) `{IntervalTree T} (anon_root : Z -> Z) := {
  anon_vma_prepare : Z -> heap T -> Z * heap T;
  anon_vma_fork : Z -> Z -> heap T -> Z * heap T;
  anon_vma_prepare_spec i (h : heap T) a :
    areas h !! i = Some a ->
    match r_anon a with
    | Some _ => anon_vma_prepare i h = (0, h)
    | None =>
        anon_vma_prepare i h = (- ENOMEM, h) \/
        exists x h', anon_vma_prepare i h = (0, h') /\ linked i (Some x) [x] h h' /\
          forall y, it_elems (rb_root h' y) = entry_if (bool_decide (y ∈ [x])) i (key a) ∪ it_elems (rb_root h y)
    end;
  anon_vma_fork_spec dst src (h : heap T) d s :
    areas h !! dst = Some d -> areas h !! src = Some s -> r_chain d = [] ->
    match r_anon s with
    | None => anon_vma_fork dst src h = (0, h)
    | Some p =>
        (exists x l h', anon_vma_fork dst src h = (0, h') /\ linked dst (Some x) l h h' /\ anon_root x = anon_root p /\
          ((x ∉ r_chain s /\ l = x :: r_chain s) \/ (x ∈ r_chain s /\ l = r_chain s)) /\
          forall y, it_elems (rb_root h' y) = entry_if (bool_decide (y ∈ l)) dst (key d) ∪ it_elems (rb_root h y)) \/
        (exists h', anon_vma_fork dst src h = (- ENOMEM, h') /\ linked dst None [] h h' /\
          forall y, it_elems (rb_root h' y) = it_elems (rb_root h y))
    end
}.

Section ops.
Context {T : Type} `{AnonRmap T} (f_mapping : Z -> Z) (anon_root : Z -> Z).
Implicit Types h : heap T.

(** [anon_vma_merge] ([include/linux/rmap.h]): both have the same [anon_vma]. *)
Definition anon_vma_merge (vma next : Z) h :=
  unlink_anon_vmas next (check (bool_decide (fld r_anon vma h = fld r_anon next h)) h).

(** Label [again] of [vma_complete]: one area that was merged away. *)
Definition drop_removed (vp : prep) (r : Z) h :=
  let h := when (vp_file vp) (fun f h => add_f_count f (-1) h) h in
  let h := when (fld r_anon r h) (fun _ h => anon_vma_merge (vp_vma vp) r h) h in
  with_area r (fun a h => set_areas (delete r (areas h)) (add_map_count (r_mm a) (-1) h)) h.

Definition vma_complete (vp : prep) h :=
  let h := when (vp_mapping vp) (fun m h =>
    let h := when (vp_adj_next vp) (fun n h => vma_interval_tree_insert n m h) h in
    let h := vma_interval_tree_insert (vp_vma vp) m h in
    release (LFlush m) h) h in
  let h :=
    match vp_remove vp, vp_mapping vp with
    | Some r, Some m =>
        let h := __remove_shared_vm_struct r m h in
        when (vp_remove2 vp) (fun r2 h => __remove_shared_vm_struct r2 m h) h
    | _, _ => when (vp_insert vp) (fun n => with_area n (fun a h => add_map_count (r_mm a) 1 h)) h
    end in
  let h := when (vp_anon_vma vp) (fun x h =>
    let h := anon_vma_interval_tree_post_update_vma anon_root (vp_vma vp) h in
    let h := when (vp_adj_next vp) (anon_vma_interval_tree_post_update_vma anon_root) h in
    release (LAnon (anon_root x)) h) h in
  let h := when (vp_mapping vp) (fun m h => release (LMmap m) h) h in
  when (vp_remove vp) (fun r h =>
    let h := drop_removed vp r h in
    when (vp_remove2 vp) (fun r2 h => drop_removed vp r2 h) h) h.

(** The result, and the area that got the chain of the other. *)
Definition dup_anon_vma (dst src : Z) h : Z * option Z * heap T :=
  match fld r_anon src h, fld r_anon dst h with
  | Some x, None =>
      let h := write dst (fun a => set_anon (Some x) (r_chain a) a) h in
      let '(ret, h) := anon_vma_clone dst src h in
      if negb (ret =? 0) then (ret, None, h) else (0, Some dst, h)
  | _, _ => (0, None, h)
  end.

(** ** The callers *)

(** [prealloc]: whether the tree of areas has room. *)
Definition vma_expand (prealloc : bool) (vma start end_ pgoff : Z) (next : option Z) h : Z * heap T :=
  let remove_next := match next with
    | Some n => if negb (vma =? n) && bool_decide (fld (fun a => Some (r_end a)) n h = Some end_) then Some n else None
    | None => None end in
  let '(ret, anon_dup, h) := match remove_next with Some n => dup_anon_vma vma n h | None => (0, None, h) end in
  if negb (ret =? 0) then (ret, h)
  else
    let vp := init_multi_vma_prep f_mapping vma None remove_next None h in
    if negb prealloc then (- ENOMEM, when anon_dup unlink_anon_vmas h)
    else
      let h := vma_prepare f_mapping anon_root vp h in
      let h := write vma (set_bounds start end_ pgoff) h in
      (0, vma_complete vp h).

Definition vma_shrink (prealloc : bool) (vma start end_ pgoff : Z) h : Z * heap T :=
  if negb prealloc then (- ENOMEM, h)
  else
    let vp := init_vma_prep f_mapping vma h in
    let h := vma_prepare f_mapping anon_root vp h in
    let h := write vma (set_bounds start end_ pgoff) h in
    (0, vma_complete vp h).

(** [new] is the address [vm_area_dup] returns, [None] when there is no memory; [may_split]
    and [policy] are what the area and the memory policy answer. *)
Definition __split_vma (may_split : Z) (new : option Z) (prealloc : bool) (policy : Z) (vma addr : Z) (new_below : bool) h
    : Z * heap T :=
  if negb (may_split =? 0) then (may_split, h)
  else
    match new, areas h !! vma with
    | Some n, Some a =>
        let out_free_vma err h := (err, set_areas (delete n (areas h)) h) in
        let copy := set_anon (r_anon a) [] a in
        let copy :=
          if new_below then set_bounds (r_start copy) addr (r_pgoff copy) copy
          else set_bounds addr (r_end copy) (r_pgoff copy +u ((addr -u r_start a) >>u PAGE_SHIFT)) copy in
        let h := set_areas (<[n := copy]> (areas h)) h in
        if negb prealloc then out_free_vma (- ENOMEM) h
        else if negb (policy =? 0) then out_free_vma policy h
        else
          let '(err, h) := anon_vma_clone n vma h in
          if negb (err =? 0) then out_free_vma err h
          else
            let h := when (r_file a) (fun f h => add_f_count f 1 h) h in
            let vp := set_insert n (init_vma_prep f_mapping vma h) in
            let h := vma_prepare f_mapping anon_root vp h in
            let h := write vma (fun a =>
              if new_below then set_bounds addr (r_end a) (r_pgoff a +u ((addr -u r_start copy) >>u PAGE_SHIFT)) a
              else set_bounds (r_start a) addr (r_pgoff a) a) h in
            (0, vma_complete vp h)
    | _, _ => (- ENOMEM, h)
    end.

(** What [vma_merge] decides: which area gets which bounds, which one has its start moved
    by [adj_start] bytes, which go away, and which get the [anon_vma] of which. *)
Record merge := Merge {
  mg_vma : Z; mg_start : Z; mg_end : Z; mg_pgoff : Z; mg_adjust : option Z; mg_adj_start : Z;
  mg_remove : option Z; mg_remove2 : option Z; mg_dup : list (Z * Z)
}.
Definition no_area : area := Area 0 0 0 0 None false None [].
Definition get (i : Z) h : area := default no_area (areas h !! i).

(** Cases 1 and 6. *)
Definition merge_both (p n : Z) (curr : option Z) h : merge :=
  Merge p (r_start (get p h)) (r_end (get n h)) (r_pgoff (get p h)) None 0
    (Some (default n curr)) (match curr with Some _ => Some n | None => None end)
    ((p, n) :: match curr, r_anon (get n h) with Some c, None => [(p, c)] | _, _ => [] end).

(** Cases 2, 7 and 5; [closes]: the area that would go away has a [close] operation. *)
Definition merge_into_prev (closes : bool) (p : Z) (curr : option Z) (end_ : Z) h : option merge :=
  let g := Merge p (r_start (get p h)) end_ (r_pgoff (get p h)) in
  match curr with
  | None => Some (g None 0 None None [])
  | Some c =>
      if end_ =? r_end (get c h) then if closes then None else Some (g None 0 (Some c) None [(p, c)])
      else Some (g (Some c) (end_ - r_start (get c h)) None None [(p, c)])
  end.

(** Cases 4, 3 and 8. *)
Definition merge_into_next (prev : option Z) (n : Z) (curr : option Z) (addr pglen : Z) h : merge :=
  let at_next :=
    match curr with
    | None => Merge n addr (r_end (get n h)) (r_pgoff (get n h) -u pglen) None 0 None None []
    | Some c => Merge n addr (r_end (get n h)) (r_pgoff (get c h)) None 0 (Some c) None [(n, c)]
    end in
  match prev with
  | Some p =>
      if addr <? r_end (get p h) then
        Merge p (r_start (get p h)) addr (r_pgoff (get p h)) (Some n) (- (r_end (get p h) - addr)) None None [(n, p)]
      else at_next
  | None => at_next
  end.

Definition merge_plan (both merge_prev merge_next closes : bool) (prev curr next : option Z) (addr end_ pglen : Z) h
    : option merge :=
  match prev, next with
  | Some p, Some n =>
      if both then Some (merge_both p n curr h)
      else if merge_prev then merge_into_prev closes p curr end_ h
      else if merge_next then Some (merge_into_next prev n curr addr pglen h) else None
  | Some p, None => if merge_prev then merge_into_prev closes p curr end_ h else None
  | None, Some n => if merge_next then Some (merge_into_next None n curr addr pglen h) else None
  | None, None => None
  end.

Fixpoint dup_all (l : list (Z * Z)) h : Z * list Z * heap T :=
  match l with
  | [] => (0, [], h)
  | (dst, src) :: l =>
      let '(ret, dup, h) := dup_anon_vma dst src h in
      if negb (ret =? 0) then (ret, [], h)
      else let '(ret, dups, h) := dup_all l h in (ret, option_list dup ++ dups, h)
  end.

Definition vma_merge_apply (prealloc : bool) (g : merge) h : bool * heap T :=
  let '(err, anon_dup, h) := dup_all (mg_dup g) h in
  if negb (err =? 0) then (false, h)
  else if negb prealloc then (false, foldl (fun h i => unlink_anon_vmas i h) h anon_dup)
  else
    let vp := init_multi_vma_prep f_mapping (mg_vma g) (mg_adjust g) (mg_remove g) (mg_remove2 g) h in
    let h := vma_prepare f_mapping anon_root vp h in
    let h := write (mg_vma g) (set_bounds (mg_start g) (mg_end g) (mg_pgoff g)) h in
    let h :=
      if negb (mg_adj_start g =? 0) then
        when (mg_adjust g) (fun n => write n (fun a =>
          set_bounds (r_start a +u mg_adj_start g) (r_end a) (r_pgoff a +u Z.shiftr (mg_adj_start g) PAGE_SHIFT) a)) h
      else h in
    (true, vma_complete vp h).

(** From the tests for mergeable neighbours on; the tests are the arguments. *)
Definition vma_merge (both merge_prev merge_next closes prealloc : bool) (prev curr next : option Z) (addr end_ pglen : Z) h
    : bool * heap T :=
  match merge_plan both merge_prev merge_next closes prev curr next addr end_ pglen h with
  | Some g => vma_merge_apply prealloc g h
  | None => (false, h)
  end.

(** [expand_downwards] while it holds the lock of the [anon_vma]. *)
Definition grow_down (vma address grow : Z) h :=
  when (fld r_anon vma h) (fun x h =>
    let h := acquire (LAnon (anon_root x)) h in
    let h := anon_vma_interval_tree_pre_update_vma anon_root vma h in
    let h := write vma (fun a => set_bounds address (r_end a) (r_pgoff a -u grow) a) h in
    let h := anon_vma_interval_tree_post_update_vma anon_root vma h in
    release (LAnon (anon_root x)) h) h.

(** The new area of [mmap_region]: allocated, its file referenced, counted and linked. *)
Definition mmap_new (i : Z) (a : area) h :=
  let h := set_areas (<[i := a]> (areas h)) h in
  let h := when (r_file a) (fun f h => add_f_count f 1 h) h in
  vma_link_file f_mapping i (add_map_count (r_mm a) 1 h).

Definition vma_link (prealloc : bool) (i : Z) h : Z * heap T :=
  if negb prealloc then (- ENOMEM, h)
  else (0, with_area i (fun a h => add_map_count (r_mm a) 1 h) (vma_link_file f_mapping i h)).

(** [copy_vma] where no neighbour can be merged with: the copy at [addr], or NULL. *)
Definition copy_vma (new : option Z) (policy : Z) (prealloc : bool) (vma addr len pgoff : Z) h : option Z * heap T :=
  match new, areas h !! vma with
  | Some n, Some a =>
      let free h := set_areas (delete n (areas h)) h in
      let h := set_areas (<[n := set_bounds addr (addr +u len) pgoff (set_anon (r_anon a) [] a)]> (areas h)) h in
      if negb (policy =? 0) then (None, free h)
      else
        let '(err, h) := anon_vma_clone n vma h in
        if negb (err =? 0) then (None, free h)
        else
          let h := when (r_file a) (fun f h => add_f_count f 1 h) h in
          let '(err, h) := vma_link prealloc n h in
          if negb (err =? 0) then
            let h := when (r_file a) (fun f h => add_f_count f (-1) h) h in
            (None, free (unlink_anon_vmas n h))
          else (Some n, h)
  | _, _ => (None, h)
  end.

(** An unmapped area: [free_pgtables] takes it out of the trees, [remove_vma] frees it. *)
Definition remove_vma (i : Z) h :=
  let h := when (fld r_file i h) (fun f h => add_f_count f (-1) h) h in
  set_areas (delete i (areas h)) h.
Definition unmap_vma (i : Z) :=
  with_area i (fun a h =>
    remove_vma i (unlink_file_vma f_mapping i (unlink_anon_vmas i (add_map_count (r_mm a) (-1) h)))).

(** ** The debug check *)

(** [anon_vma_interval_tree_verify]: an entry of the chain is in its tree under the offsets of the
    area, and under no others. *)
Definition anon_vma_interval_tree_verify (i : Z) (a : area) (x : Z) h : bool :=
  bool_decide ((i, key a) ∈ it_elems (rb_root h x) /\ set_Forall (fun e => e.1 = i -> e = (i, key a)) (it_elems (rb_root h x))).

(** [validate_mm] from the look at the trees on: whether it finds nothing wrong. *)
Definition validate_mm (mm : Z) h : bool :=
  let own := map_to_list (filter (fun ia => r_mm ia.2 = mm) (areas h)) in
  forallb (fun '(i, a) => match r_anon a with
                          | Some _ => forallb (fun x => anon_vma_interval_tree_verify i a x h) (r_chain a)
                          | None => true end) own
  && (Z.of_nat (length own) =? map_count h mm).

(** ** Giving areas an [anon_vma] *)

Context `{!AnonFault T anon_root}.

(** [expand_downwards] from the preallocation on; [error] is 0 when the stack may grow. *)
Definition stack_down (prealloc : bool) (error vma address grow : Z) h : Z * heap T :=
  if negb prealloc then (- ENOMEM, h)
  else
    let '(err, h) := anon_vma_prepare vma h in
    if negb (err =? 0) then (- ENOMEM, h)
    else if error =? 0 then (0, grow_down vma address grow h)
    else (error, when (fld r_anon vma h) (fun x h => release (LAnon (anon_root x)) (acquire (LAnon (anon_root x)) h)) h).

(** The turn of the loop of [dup_mmap] for one area: [new] is the address [vm_area_dup] returns,
    [policy] and [uffd] what the copies of the policy and of the userfaultfd context
    answer, [wipe] whether the area is [VM_WIPEONFORK], [mm] the child's address space. *)
Definition fork_vma (new : option Z) (policy uffd : Z) (wipe : bool) (mm mpnt : Z) h : Z * heap T :=
  match new, areas h !! mpnt with
  | Some n, Some a =>
      let free h := set_areas (delete n (areas h)) h in
      let tmp := Area mm (r_start a) (r_end a) (r_pgoff a) (r_file a) (r_shared a) (r_anon a) [] in
      let h := set_areas (<[n := tmp]> (areas h)) h in
      if negb (policy =? 0) then (- ENOMEM, free h)
      else if negb (uffd =? 0) then (- ENOMEM, free h)
      else
        let '(err, h) := if wipe then (0, write n (set_anon None []) h) else anon_vma_fork n mpnt h in
        if negb (err =? 0) then (- ENOMEM, free h)
        else
          let h := when (r_file a) (fun f h => add_f_count f 1 h) h in
          (0, add_map_count mm 1 (vma_link_file f_mapping n h))
  | _, _ => (- ENOMEM, h)
  end.
End ops.
End RMap.
