(* ===== verification/RMapSpec.v ===== *)
(** * The reverse maps stay consistent

    Through mapping, splitting, merging, growing, shrinking and unmapping areas, the trees
    hold exactly one entry for each area they should hold, under the offsets it covers now;
    writable mappings, references of files and areas of an address space are counted; trees
    change only under their locks, and all locks are given back. *)
From S2P Require Import Prelude Counting Vma RMap.

Module RMapSpec.
Import RMap.

(** ** What an operation can have taken apart for a moment. *)
Inductive aspect := KFile | KAnon | KWrite | KRef | KCount.
#[export] Instance aspect_eq_dec : EqDecision aspect.
Proof. solve_decision. Defined.
Definition hidden := aspect -> Z -> bool.
Definition none : hidden := fun _ _ => false.
Definition mark (b : bool) (k : aspect) (i : Z) (o : hidden) : hidden :=
  fun k' i' => if decide (k' = k /\ i' = i) then b else o k' i'.
Notation hide := (mark true).
Notation unhide := (mark false).

Lemma mark_eq b k i o : mark b k i o k i = b.
Proof. unfold mark. by rewrite decide_True. Qed.
Lemma mark_ne b k k' i i' o : k' <> k \/ i' <> i -> mark b k i o k' i' = o k' i'.
Proof. intros Hne. unfold mark. by rewrite decide_False by naive_solver. Qed.

Definition marks (b : bool) (k : aspect) (l : list Z) (o : hidden) : hidden := foldl (fun o i => mark b k i o) o l.

Lemma marks_eq b k l o k' j : marks b k l o k' j = if decide (k' = k /\ j ∈ l) then b else o k' j.
Proof.
  revert o. induction l as [|i l IH]; intros o; cbn.
  { rewrite decide_False; [done|]. by intros [_ ?%not_elem_of_nil]. }
  fold (marks b k l (mark b k i o)). rewrite IH. unfold mark.
  destruct (decide (k' = k /\ j ∈ l)) as [[Hk Hj]|Hn].
  { rewrite decide_True; [done|]. split; [done|by right]. }
  destruct (decide (k' = k /\ j = i)) as [[Hk ->]|Hn'].
  { rewrite decide_True; [done|]. split; [done|by left]. }
  rewrite decide_False; [done|]. intros [Hk [->|Hj]%elem_of_cons]; auto.
Qed.

(** Evaluates marks at a point whose relation to the marked areas is known. *)
Ltac eval_marks :=
  repeat first [rewrite marks_eq | progress unfold mark];
  repeat match goal with |- context [decide ?P] =>
    first [ rewrite (decide_True (P := P)) by (rewrite ?elem_of_cons; intuition congruence)
          | rewrite (decide_False (P := P)) by (rewrite ?elem_of_cons; intuition congruence) ]
  end.

Section spec.
Context {T : Type} `{IntervalTree T} (f_mapping : Z -> Z) (anon_root : Z -> Z).
Implicit Types (h : heap T) (o : hidden).

(** ** Entries *)

(** The entries [S] are those of the areas of [Q] that are not hidden. *)
Definition entries (S : gset (Z * (Z * Z))) (Q : area -> Prop) (k : aspect) o (A : gmap Z area) : Prop :=
  forall i e, (i, e) ∈ S <-> exists a, A !! i = Some a /\ Q a /\ e = key a /\ o k i = false.

Lemma entries_ext S (Q : area -> Prop) k o o' A :
  (forall i a, A !! i = Some a -> Q a -> o k i = o' k i) -> entries S Q k o A -> entries S Q k o' A.
Proof.
  intros Ho HS i e. rewrite (HS i e). split; intros (a & Hi & HQ & He & Hh); exists a; split_and!; try done.
  - by rewrite <- (Ho i a).
  - by rewrite (Ho i a).
Qed.

Lemma entries_remove S Q k o A i a :
  entries S Q k o A -> A !! i = Some a -> entries (S ∖ {[(i, key a)]}) Q k (hide k i o) A.
Proof.
  intros HS Hi j e. rewrite elem_of_difference, elem_of_singleton, (HS j e). destruct (decide (j = i)) as [->|Hj].
  - rewrite mark_eq. split; [|by intros (b & _ & _ & _ & Hh)]. intros [(b & Hb & _ & -> & _) Hn].
    rewrite Hi in Hb. injection Hb as <-. by destruct Hn.
  - rewrite mark_ne by auto. split; [by intros [Hx _]|intros Hx; split; [done|congruence]].
Qed.

Lemma entries_insert S (Q : area -> Prop) k o A i a :
  entries S Q k o A -> A !! i = Some a -> Q a -> o k i = true -> entries ({[(i, key a)]} ∪ S) Q k (unhide k i o) A.
Proof.
  intros HS Hi HQ Ho j e. rewrite elem_of_union, elem_of_singleton, (HS j e). destruct (decide (j = i)) as [->|Hj].
  - rewrite mark_eq. split; [intros [[= ->]|(b & _ & _ & _ & Hn)]; [eauto|congruence]|].
    intros (b & Hb & _ & -> & _). rewrite Hi in Hb. injection Hb as <-. by left.
  - rewrite mark_ne by auto. split; [by intros [[= ]|Hx]|by right].
Qed.

(** Trees the area does not belong to. *)
Lemma entries_other S (Q : area -> Prop) k o A i a b :
  entries S Q k o A -> A !! i = Some a -> ~ Q a -> entries S Q k (mark b k i o) A.
Proof.
  intros HS Hi HQ j e. rewrite (HS j e). apply exist_proper. intros c. destruct (decide (j = i)) as [->|Hj].
  - split; intros (Hc & HQc & _); rewrite Hi in Hc; by injection Hc as <-.
  - by rewrite mark_ne by auto.
Qed.

Lemma entries_absent S Q k o A i e : entries S Q k o A -> o k i = true -> (i, e) ∉ S.
Proof. intros HS Ho (a & _ & _ & _ & Hn)%HS. congruence. Qed.

Lemma entries_not_present (t : T) Q k o A i : entries (it_elems t) Q k o A -> o k i = true -> present i t = false.
Proof.
  intros HS Ho. apply bool_decide_eq_false. intros ([j e] & Hin & Hj). cbn in Hj. subst j.
  by apply (entries_absent _ _ _ _ _ i e HS Ho).
Qed.

(** ** Consistency *)

Definition mapping (a : area) : option Z := f_mapping <$> r_file a.

Definition counts_write o m i a : bool := negb (o KWrite i) && (r_shared a && bool_decide (mapping a = Some m)).
Definition counts_ref o f i a : bool := negb (o KRef i) && bool_decide (r_file a = Some f).
Definition counts_area o mm i a : bool := negb (o KCount i) && bool_decide (r_mm a = mm).

(** All [anon_vma]s of a chain have one root, that of the area's own. *)
Definition chain_ok (a : area) : Prop :=
  NoDup (r_chain a) /\ forall x, x ∈ r_chain a -> exists y, r_anon a = Some y /\ anon_root x = anon_root y.

Record consistent o h : Prop := {
  c_bad : bad h = false;
  c_file m : entries (it_elems (i_mmap h m)) (fun a => mapping a = Some m) KFile o (areas h);
  c_anon x : entries (it_elems (rb_root h x)) (fun a => x ∈ r_chain a) KAnon o (areas h);
  c_write m : i_mmap_writable h m = count (counts_write o m) (areas h);
  c_ref f : f_count h f = count (counts_ref o f) (areas h);
  c_count mm : map_count h mm = count (counts_area o mm) (areas h);
  c_chain i a : areas h !! i = Some a -> chain_ok a
}.

(** Whether an aspect says anything about an area. *)
Definition relevant (k : aspect) (a : area) : bool :=
  match k with
  | KFile | KRef => bool_decide (r_file a <> None) | KAnon => bool_decide (r_chain a <> [])
  | KWrite => r_shared a && bool_decide (r_file a <> None) | KCount => true
  end.

Lemma consistent_ext o o' h :
  (forall k i a, areas h !! i = Some a -> relevant k a = true -> o k i = o' k i) -> consistent o h -> consistent o' h.
Proof.
  intros Ho [Hb Hf Ha Hw Hr Hc Hch]. split; try done.
  - intros m. apply (entries_ext _ _ _ o); [|done]. intros i a Hi Hm. apply (Ho KFile i a Hi). cbn.
    apply bool_decide_eq_true. intros Hn. unfold mapping in Hm. by rewrite Hn in Hm.
  - intros x. apply (entries_ext _ _ _ o); [|done]. intros i a Hi Hx. apply (Ho KAnon i a Hi). cbn.
    apply bool_decide_eq_true. intros Hn. rewrite Hn in Hx. by apply not_elem_of_nil in Hx.
  - intros m. rewrite Hw. apply count_ext. intros i a Hi. unfold counts_write.
    destruct (r_shared a) eqn:Hs; [|by rewrite !andb_false_r]. case_bool_decide as Hm; [|by rewrite !andb_false_r].
    rewrite (Ho KWrite i a); [done|done|]. cbn. rewrite Hs. apply bool_decide_eq_true. intros Hn.
    unfold mapping in Hm. by rewrite Hn in Hm.
  - intros f. rewrite Hr. apply count_ext. intros i a Hi. unfold counts_ref.
    case_bool_decide as Hm; [|by rewrite !andb_false_r]. rewrite (Ho KRef i a); [done|done|]. cbn. by rewrite Hm.
  - intros mm. rewrite Hc. apply count_ext. intros i a Hi. unfold counts_area. by rewrite (Ho KCount i a).
Qed.

(** ** The tree of a file *)

Lemma check_true h b : b = true -> check b h = h.
Proof. intros ->. destruct h. unfold check. cbn. by rewrite orb_false_r. Qed.

Lemma file_remove o h i a m :
  consistent o h -> areas h !! i = Some a -> mapping a = Some m -> o KFile i = false -> LMmap m ∈ held h ->
  consistent (hide KFile i o) (vma_interval_tree_remove i m h).
Proof.
  intros Hc Hi Hm Ho Hl. assert (Hin : (i, key a) ∈ it_elems (i_mmap h m)) by (apply (c_file _ _ Hc); eauto 10).
  unfold vma_interval_tree_remove, with_area. rewrite Hi, check_true by (by rewrite !bool_decide_eq_true_2).
  split; cbn; try apply Hc; try (intros; apply Hc).
  intros m'. unfold upd. destruct (decide (m' = m)) as [->|Hne].
  - rewrite it_elems_remove by done. by apply entries_remove; [apply (c_file _ _ Hc)|].
  - apply (entries_other _ _ _ _ _ _ a); [apply (c_file _ _ Hc)|done|congruence].
Qed.

Lemma file_insert o h i a m :
  consistent o h -> areas h !! i = Some a -> mapping a = Some m -> o KFile i = true -> LMmap m ∈ held h ->
  consistent (unhide KFile i o) (vma_interval_tree_insert i m h).
Proof.
  intros Hc Hi Hm Ho Hl. pose proof (c_file _ _ Hc m) as HS. unfold vma_interval_tree_insert, with_area.
  rewrite Hi, check_true by (by rewrite (entries_not_present _ _ _ _ _ i HS Ho), bool_decide_eq_true_2).
  split; cbn; try apply Hc; try (intros; apply Hc).
  intros m'. unfold upd. destruct (decide (m' = m)) as [->|Hne].
  - rewrite it_elems_insert by (by eapply entries_absent). by apply entries_insert.
  - apply (entries_other _ _ _ _ _ _ a); [apply (c_file _ _ Hc)|done|congruence].
Qed.

(** ** The trees of a chain *)

(** Two states that differ in [rb_root] only. *)
Record rest_same h h' : Prop := {
  rs_areas : areas h' = areas h; rs_i_mmap : i_mmap h' = i_mmap h; rs_write : i_mmap_writable h' = i_mmap_writable h;
  rs_ref : f_count h' = f_count h; rs_count : map_count h' = map_count h; rs_held : held h' = held h;
  rs_bad : bad h' = bad h
}.

Lemma chain_fold (step : Z -> heap T -> heap T) (f : gset (Z * (Z * Z)) -> gset (Z * (Z * Z))) (P : Z -> heap T -> Prop) l h :
  (forall x h, P x h -> rest_same h (step x h) /\
     forall y, it_elems (rb_root (step x h) y) = if decide (y = x) then f (it_elems (rb_root h y)) else it_elems (rb_root h y)) ->
  (forall x y h, P x h -> P y h -> x <> y -> P y (step x h)) ->
  NoDup l -> Forall (fun x => P x h) l ->
  rest_same h (foldl (fun h x => step x h) h l) /\
  forall y, it_elems (rb_root (foldl (fun h x => step x h) h l) y) =
    if decide (y ∈ l) then f (it_elems (rb_root h y)) else it_elems (rb_root h y).
Proof.
  intros Hs Hk Hnd. revert h. induction Hnd as [|x l Hx Hnd IH]; intros h HP; cbn.
  { split; [by split|]. done. }
  apply Forall_cons in HP as [Hpx Hpl]. destruct (Hs x h Hpx) as [[] Hrb].
  destruct (IH (step x h)) as [[] Hrb'].
  { rewrite Forall_forall in Hpl |- *. intros y Hy. apply Hk; [done|by apply Hpl|]. by intros ->. }
  split; [split; congruence|]. intros y. rewrite Hrb', Hrb. destruct (decide (y = x)) as [->|Hne].
  - rewrite (decide_False (P := x ∈ l)) by done. by rewrite decide_True by set_solver.
  - destruct (decide (y ∈ l)); [by rewrite decide_True by set_solver|by rewrite decide_False by set_solver].
Qed.

Lemma anon_locks h i a x0 :
  areas h !! i = Some a -> chain_ok a -> (r_chain a <> [] -> LAnon (anon_root x0) ∈ held h /\ forall y, r_anon a = Some y -> anon_root y = anon_root x0) ->
  Forall (fun x => LAnon (anon_root x) ∈ held h) (r_chain a).
Proof.
  intros Hi [_ Hroot] Hl. apply Forall_forall. intros x Hx.
  destruct Hl as [Hin Heq]; [intros Hn; rewrite Hn in Hx; by apply not_elem_of_nil in Hx|].
  destruct (Hroot x Hx) as (y & Hy & ->). by rewrite (Heq y Hy).
Qed.

(** New entries in the trees of a chain, and nothing else. *)
Lemma consistent_chain o o' h h' i a :
  consistent o h -> rest_same h h' -> areas h !! i = Some a ->
  (forall k j, k <> KAnon -> o' k j = o k j) ->
  (forall x, entries (it_elems (rb_root h' x)) (fun a => x ∈ r_chain a) KAnon o' (areas h)) ->
  consistent o' h'.
Proof.
  intros [Hb Hf Ha Hw Hr Hct Hch] [Hra Him Hrw Hrr Hrc Hh Hrb] Hi Ho Hx.
  split; rewrite ?Hrb, ?Hra, ?Him, ?Hrw, ?Hrr, ?Hrc; try done.
  - intros m. apply (entries_ext _ _ _ o); [by intros; symmetry; apply Ho|done].
  - intros m. rewrite Hw. apply count_ext. intros. unfold counts_write. by rewrite Ho.
  - intros f. rewrite Hr. apply count_ext. intros. unfold counts_ref. by rewrite Ho.
  - intros mm. rewrite Hct. apply count_ext. intros. unfold counts_area. by rewrite Ho.
Qed.

Lemma pre_update o h i a :
  consistent o h -> areas h !! i = Some a -> o KAnon i = false ->
  Forall (fun x => LAnon (anon_root x) ∈ held h) (r_chain a) ->
  let h' := anon_vma_interval_tree_pre_update_vma anon_root i h in
  consistent (hide KAnon i o) h' /\ areas h' = areas h /\ held h' = held h.
Proof.
  intros Hc Hi Ho Hl. unfold anon_vma_interval_tree_pre_update_vma, with_area. rewrite Hi.
  destruct (chain_fold (anon_vma_interval_tree_remove anon_root i) (fun s => s ∖ {[(i, key a)]})
    (fun x h => areas h !! i = Some a /\ LAnon (anon_root x) ∈ held h /\ (i, key a) ∈ it_elems (rb_root h x))
    (r_chain a) h) as [[Ha Him Hw Hr Hct Hh Hb] Hrb].
  - intros x g (Hg & Hlk & Hin). unfold anon_vma_interval_tree_remove, with_area.
    rewrite Hg, check_true by (by rewrite !bool_decide_eq_true_2). split; [by split|]. intros y. cbn. unfold upd.
    destruct (decide (y = x)) as [->|]; [by apply it_elems_remove|done].
  - intros x y g (Hg & Hlk & Hin) (_ & Hlk' & Hin') Hne. unfold anon_vma_interval_tree_remove, with_area.
    rewrite Hg. cbn. unfold upd. by rewrite decide_False by done.
  - by apply (c_chain _ _ Hc i).
  - rewrite Forall_forall in Hl |- *. intros x Hx. split_and!; [done|by apply Hl|]. apply (c_anon _ _ Hc). eauto 10.
  - split; [|by rewrite Ha, Hh]. apply (consistent_chain o _ h _ i a); try done; [by intros; apply mark_ne; left|].
    intros x. rewrite Hrb. destruct (decide (x ∈ r_chain a)) as [Hx|Hx].
    + by apply entries_remove; [apply (c_anon _ _ Hc)|].
    + by apply (entries_other _ _ _ _ _ _ a); [apply (c_anon _ _ Hc)| |].
Qed.

Lemma post_update o h i a :
  consistent o h -> areas h !! i = Some a -> o KAnon i = true ->
  Forall (fun x => LAnon (anon_root x) ∈ held h) (r_chain a) ->
  let h' := anon_vma_interval_tree_post_update_vma anon_root i h in
  consistent (unhide KAnon i o) h' /\ areas h' = areas h /\ held h' = held h.
Proof.
  intros Hc Hi Ho Hl. unfold anon_vma_interval_tree_post_update_vma, with_area. rewrite Hi.
  destruct (chain_fold (anon_vma_interval_tree_insert anon_root i) (fun s => {[(i, key a)]} ∪ s)
    (fun x h => areas h !! i = Some a /\ LAnon (anon_root x) ∈ held h /\ present i (rb_root h x) = false)
    (r_chain a) h) as [[Ha Him Hw Hr Hct Hh Hb] Hrb].
  - intros x g (Hg & Hlk & Hin). unfold anon_vma_interval_tree_insert, with_area.
    rewrite Hg, check_true by (rewrite Hin, bool_decide_eq_true_2; done). split; [by split|]. intros y. cbn. unfold upd.
    destruct (decide (y = x)) as [->|]; [|done]. apply it_elems_insert. intros Hel.
    apply bool_decide_eq_false in Hin. apply Hin. by exists (i, key a).
  - intros x y g (Hg & Hlk & Hin) (_ & Hlk' & Hin') Hne. unfold anon_vma_interval_tree_insert, with_area.
    rewrite Hg. cbn. unfold upd. by rewrite decide_False by done.
  - by apply (c_chain _ _ Hc i).
  - rewrite Forall_forall in Hl |- *. intros x Hx. split_and!; [done|by apply Hl|].
    by apply (entries_not_present _ _ _ _ _ _ (c_anon _ _ Hc x)).
  - split; [|by rewrite Ha, Hh]. apply (consistent_chain o _ h _ i a); try done; [by intros; apply mark_ne; left|].
    intros x. rewrite Hrb. destruct (decide (x ∈ r_chain a)) as [Hx|Hx].
    + by apply entries_insert; [apply (c_anon _ _ Hc)| | |].
    + by apply (entries_other _ _ _ _ _ _ a); [apply (c_anon _ _ Hc)| |].
Qed.

(** ** Locks and counters *)

Lemma lock_acquired o h l : consistent o h -> l ∉ held h -> consistent o (acquire l h).
Proof.
  intros Hc Hl. unfold acquire. rewrite check_true by (by apply bool_decide_eq_true). by split; apply Hc.
Qed.

Lemma lock_released o h l : consistent o h -> l ∈ held h -> consistent o (release l h).
Proof.
  intros Hc Hl. unfold release. rewrite check_true by (by apply bool_decide_eq_true). by split; apply Hc.
Qed.

Lemma writable_ok o h i a m b d :
  consistent o h -> areas h !! i = Some a -> mapping a = Some m -> r_shared a = true ->
  o KWrite i = negb b -> d = (if b then -1 else 1) ->
  consistent (mark b KWrite i o) (add_writable m d h).
Proof.
  intros Hc Hi Hm Hs Ho ->. split; cbn; try apply Hc.
  - intros m'. rewrite (count_change (counts_write o m') _ _ i a Hi).
    + rewrite <- (c_write _ _ Hc). unfold upd, counts_write. rewrite mark_eq, Ho, Hs, Hm.
      destruct (decide (m' = m)) as [->|Hne]; destruct b; cbn;
        rewrite ?bool_decide_eq_true_2 by done; rewrite ?(bool_decide_eq_false_2 (Some m = Some m')) by congruence; cbn; lia.
    + intros j c Hj _. unfold counts_write. by rewrite mark_ne by auto.
Qed.

Lemma f_count_ok o h i a f b d :
  consistent o h -> areas h !! i = Some a -> r_file a = Some f -> o KRef i = negb b -> d = (if b then -1 else 1) ->
  consistent (mark b KRef i o) (add_f_count f d h).
Proof.
  intros Hc Hi Hf Ho ->. split; cbn; try apply Hc. intros f'. rewrite (count_change (counts_ref o f') _ _ i a Hi).
  - rewrite <- (c_ref _ _ Hc). unfold upd, counts_ref. rewrite mark_eq, Ho, Hf.
    destruct (decide (f' = f)) as [->|Hne]; destruct b; cbn;
      rewrite ?bool_decide_eq_true_2 by done; rewrite ?(bool_decide_eq_false_2 (Some f = Some f')) by congruence; cbn; lia.
  - intros j c Hj _. unfold counts_ref. by rewrite mark_ne by auto.
Qed.

Lemma map_count_ok o h i a b d :
  consistent o h -> areas h !! i = Some a -> o KCount i = negb b -> d = (if b then -1 else 1) ->
  consistent (mark b KCount i o) (add_map_count (r_mm a) d h).
Proof.
  intros Hc Hi Ho ->. split; cbn; try apply Hc. intros mm. rewrite (count_change (counts_area o mm) _ _ i a Hi).
  - rewrite <- (c_count _ _ Hc). unfold upd, counts_area. rewrite mark_eq, Ho.
    destruct (decide (mm = r_mm a)) as [->|Hne]; destruct b; cbn;
      rewrite ?bool_decide_eq_true_2 by done; rewrite ?(bool_decide_eq_false_2 (r_mm a = mm)) by congruence; cbn; lia.
  - intros j c Hj _. unfold counts_area. by rewrite mark_ne by auto.
Qed.

(** ** Areas *)

(** Fields that decide where an entry is change only while there is none. *)
Lemma write_ok o h i a f :
  consistent o h -> areas h !! i = Some a ->
  (r_file a <> None -> o KFile i = true) -> (r_chain a <> [] -> o KAnon i = true) ->
  (forall a, r_mm (f a) = r_mm a /\ r_file (f a) = r_file a /\ r_shared (f a) = r_shared a /\
     r_anon (f a) = r_anon a /\ r_chain (f a) = r_chain a) ->
  consistent o (write i f h) /\ areas (write i f h) = <[i := f a]> (areas h) /\ held (write i f h) = held h.
Proof.
  intros Hc Hi Hf Ha Hsame. unfold write, with_area. rewrite Hi. split; [|done].
  destruct (Hsame a) as (Hmm & Hfl & Hsh & Han & Hch).
  assert (Hent : forall S (Q : area -> Prop) k, entries S Q k o (areas h) -> (Q (f a) <-> Q a) -> (Q a -> o k i = true) ->
    entries S Q k o (<[i := f a]> (areas h))).
  { intros S Q k HS HQ Ho j e. rewrite (HS j e). destruct (decide (j = i)) as [->|Hj].
    - rewrite lookup_insert_eq. split; intros (b & Hb & Hq & _ & Hh); exfalso;
        [rewrite Hi in Hb; injection Hb as <-|injection Hb as <-; apply HQ in Hq]; rewrite Ho in Hh; done.
    - by rewrite lookup_insert_ne by done. }
  split; cbn; try apply Hc.
  - intros m. apply Hent; [apply Hc|unfold mapping; by rewrite Hfl|]. intros Hm. apply Hf. intros Hn.
    unfold mapping in Hm. by rewrite Hn in Hm.
  - intros x. apply Hent; [apply Hc|by rewrite Hch|]. intros Hx. apply Ha. intros Hn. rewrite Hn in Hx.
    by apply not_elem_of_nil in Hx.
  - intros m. rewrite (count_update _ _ i a); [apply Hc|done|]. unfold counts_write, mapping. by rewrite Hfl, Hsh.
  - intros g. rewrite (count_update _ _ i a); [apply Hc|done|]. unfold counts_ref. by rewrite Hfl.
  - intros mm. rewrite (count_update _ _ i a); [apply Hc|done|]. unfold counts_area. by rewrite Hmm.
  - intros j b. destruct (decide (j = i)) as [->|Hj]; [|rewrite lookup_insert_ne by done; apply Hc].
    rewrite lookup_insert_eq. intros [= <-]. unfold chain_ok. rewrite Hch, Han. by apply (c_chain _ _ Hc i).
Qed.

Lemma mapping_file a m : mapping a = Some m -> r_file a <> None.
Proof. unfold mapping. intros Hm Hn. by rewrite Hn in Hm. Qed.
Lemma chain_nonempty a x : x ∈ r_chain a -> r_chain a <> [].
Proof. intros Hx Hn. rewrite Hn in Hx. by apply not_elem_of_nil in Hx. Qed.

(** An area of which every aspect is hidden can appear and disappear. *)
Definition unseen o (i : Z) (a : area) : Prop := forall k, relevant k a = true -> o k i = true.

Lemma unseen_counts o i a : unseen o i a ->
  (forall m, counts_write o m i a = false) /\ (forall f, counts_ref o f i a = false) /\ (forall mm, counts_area o mm i a = false) /\
  (forall m, mapping a = Some m -> o KFile i = true) /\ (forall x, x ∈ r_chain a -> o KAnon i = true).
Proof.
  intros Hu. split_and!.
  - intros m. unfold counts_write. destruct (r_shared a) eqn:Hs; [|by rewrite andb_false_r].
    case_bool_decide as Hm; [|by rewrite !andb_false_r]. rewrite (Hu KWrite); [done|]. cbn. rewrite Hs.
    apply bool_decide_eq_true. by eapply mapping_file.
  - intros f. unfold counts_ref. case_bool_decide as Hm; [|by rewrite !andb_false_r]. rewrite (Hu KRef); [done|].
    apply bool_decide_eq_true. by rewrite Hm.
  - intros mm. unfold counts_area. by rewrite (Hu KCount).
  - intros m Hm. apply (Hu KFile). apply bool_decide_eq_true. by eapply mapping_file.
  - intros x Hx. apply (Hu KAnon). apply bool_decide_eq_true. by eapply chain_nonempty.
Qed.

Lemma add_area_ok o h i a :
  consistent o h -> areas h !! i = None -> unseen o i a -> chain_ok a -> consistent o (set_areas (<[i := a]> (areas h)) h).
Proof.
  intros Hc Hi Hu Hch. destruct (unseen_counts o i a Hu) as (Hw & Hr & Hct & Hf & Ha).
  assert (Hent : forall S (Q : area -> Prop) k, entries S Q k o (areas h) -> (Q a -> o k i = true) ->
    entries S Q k o (<[i := a]> (areas h))).
  { intros S Q k HS HQ j e. rewrite (HS j e). destruct (decide (j = i)) as [->|Hj]; [|by rewrite lookup_insert_ne by done].
    rewrite lookup_insert_eq, Hi. split; [by intros (? & ? & _)|]. intros (b & [= <-] & Hq & _ & Hh).
    rewrite HQ in Hh; done. }
  split; cbn; try apply Hc.
  - intros m. apply Hent; [apply Hc|apply Hf].
  - intros x. apply Hent; [apply Hc|apply Ha].
  - intros m. rewrite count_insert, Hw by done. cbn. rewrite Z.add_0_r. apply Hc.
  - intros f. rewrite count_insert, Hr by done. cbn. rewrite Z.add_0_r. apply Hc.
  - intros mm. rewrite count_insert, Hct by done. cbn. rewrite Z.add_0_r. apply Hc.
  - intros j b. destruct (decide (j = i)) as [->|Hj]; [|rewrite lookup_insert_ne by done; apply Hc].
    rewrite lookup_insert_eq. by intros [= <-].
Qed.

Lemma delete_area_ok o h i a :
  consistent o h -> areas h !! i = Some a -> unseen o i a -> consistent o (set_areas (delete i (areas h)) h).
Proof.
  intros Hc Hi Hu. destruct (unseen_counts o i a Hu) as (Hw & Hr & Hct & Hf & Ha).
  assert (Hent : forall S (Q : area -> Prop) k, entries S Q k o (areas h) -> (Q a -> o k i = true) ->
    entries S Q k o (delete i (areas h))).
  { intros S Q k HS HQ j e. rewrite (HS j e). destruct (decide (j = i)) as [->|Hj]; [|by rewrite lookup_delete_ne by done].
    rewrite lookup_delete_eq, Hi. split; [|by intros (? & ? & _)]. intros (b & [= <-] & Hq & _ & Hh).
    rewrite HQ in Hh; done. }
  split; cbn; try apply Hc.
  - intros m. apply Hent; [apply Hc|apply Hf].
  - intros x. apply Hent; [apply Hc|apply Ha].
  - intros m. rewrite (c_write _ _ Hc), (count_delete _ _ i a Hi), Hw. cbn. lia.
  - intros f. rewrite (c_ref _ _ Hc), (count_delete _ _ i a Hi), Hr. cbn. lia.
  - intros mm. rewrite (c_count _ _ Hc), (count_delete _ _ i a Hi), Hct. cbn. lia.
  - intros j b Hb. apply (c_chain _ _ Hc j). by apply lookup_delete_Some in Hb as [_ Hb].
Qed.

(** ** What [mm/rmap.c] does to a chain *)

Lemma linked_ok o h h' i a x l :
  consistent o h -> areas h !! i = Some a -> linked i x l h h' -> chain_ok (set_anon x l a) ->
  (forall y, entries (it_elems (rb_root h' y)) (fun a => y ∈ r_chain a) KAnon o (areas h')) ->
  consistent o h' /\ areas h' = <[i := set_anon x l a]> (areas h) /\ held h' = held h.
Proof.
  intros Hc Hi [HA Him Hw Hr Hct Hh Hb] Hch Hent.
  assert (HA' : areas h' = <[i := set_anon x l a]> (areas h)).
  { rewrite HA. apply map_eq. intros j. destruct (decide (j = i)) as [->|Hj];
      [by rewrite lookup_alter_eq, lookup_insert_eq, Hi|by rewrite lookup_alter_ne, lookup_insert_ne by done]. }
  split; [|done]. split; try done; [by rewrite Hb; apply Hc| | | | |]; rewrite HA'.
  - intros m j e. rewrite Him, (c_file _ _ Hc m j e). destruct (decide (j = i)) as [->|Hj]; [|by rewrite lookup_insert_ne by done].
    rewrite lookup_insert_eq, Hi. split; intros (b & [= <-] & Hm & -> & Hh'); eexists; split_and!; done.
  - intros m. rewrite Hw, (count_update _ _ i a); [apply Hc|done|done].
  - intros f. rewrite Hr, (count_update _ _ i a); [apply Hc|done|done].
  - intros mm. rewrite Hct, (count_update _ _ i a); [apply Hc|done|done].
  - intros j b. destruct (decide (j = i)) as [->|Hj]; [|rewrite lookup_insert_ne by done; apply Hc].
    rewrite lookup_insert_eq. by intros [= <-].
Qed.

(** ** Linking and unlinking a file *)

Definition frame h h' : Prop := areas h' = areas h /\ held h' = held h.

Lemma insert_frame i m h : frame h (vma_interval_tree_insert i m h).
Proof. unfold vma_interval_tree_insert, with_area. by destruct (areas h !! i). Qed.
Lemma remove_frame i m h : frame h (vma_interval_tree_remove i m h).
Proof. unfold vma_interval_tree_remove, with_area. by destruct (areas h !! i). Qed.

Lemma release_last (l : lock) L : l ∉ L -> list_difference (l :: L) [l] = L.
Proof.
  intros Hl. cbn. destruct (decide_rel _ l [l]) as [_|Hn]; [|by destruct Hn; left].
  induction L as [|x L IH]; cbn; [done|]. apply not_elem_of_cons in Hl as [Hx HL].
  destruct (decide_rel _ x [l]) as [->%list_elem_of_singleton|_]; [done|]. by rewrite IH.
Qed.

Lemma bracket_frame l h h1 : areas h1 = areas h -> held h1 = l :: held h -> l ∉ held h -> frame h (release l h1).
Proof. intros Ha Hh Hl. split; [done|]. unfold release, set_held, check. cbn [held]. by rewrite Hh, release_last. Qed.

Lemma relevant_write a m : r_shared a = true -> mapping a = Some m -> relevant KWrite a = true.
Proof. intros Hs Hm. cbn. rewrite Hs. apply bool_decide_eq_true. by eapply mapping_file. Qed.

(** A private area says nothing about the writable mappings. *)
Lemma private_write o h i a b : consistent o h -> areas h !! i = Some a -> r_shared a = false -> consistent (mark b KWrite i o) h.
Proof.
  intros Hc Hi Hs. apply (consistent_ext o); [|done]. intros k j c Hj Hrel.
  unfold mark. destruct (decide (k = KWrite /\ j = i)) as [[-> ->]|Hne]; [|done]. rewrite Hi in Hj. injection Hj as <-. cbn in Hrel. by rewrite Hs in Hrel.
Qed.

Lemma link_file_ok o h i a m :
  consistent o h -> areas h !! i = Some a -> mapping a = Some m -> o KFile i = true -> o KWrite i = true ->
  LMmap m ∈ held h -> LFlush m ∉ held h ->
  consistent (unhide KFile i (unhide KWrite i o)) (__vma_link_file i m h) /\ frame h (__vma_link_file i m h).
Proof.
  intros Hc Hi Hm Hf Hw Hl Hfl. unfold __vma_link_file, with_area. rewrite Hi.
  set (h1 := if r_shared a then _ else _).
  assert (consistent (unhide KWrite i o) h1 /\ frame h h1) as [Hc1 [Ha1 Hh1]].
  { unfold h1. destruct (r_shared a) eqn:Hs; [|split; [by eapply private_write|done]].
    split; [|done]. by apply (writable_ok o h i a). }
  destruct (insert_frame i m (acquire (LFlush m) h1)) as [Ha2 Hh2].
  split; [|apply bracket_frame; rewrite ?Ha2, ?Hh2; cbn; by rewrite ?Ha1, ?Hh1].
  apply lock_released; [|rewrite Hh2; cbn; set_solver]. apply (file_insert _ _ i a); try done.
  - apply lock_acquired; [done|by rewrite Hh1].
  - cbn. by rewrite Ha1.
  - cbn. rewrite Hh1. set_solver.
Qed.

Lemma unlink_shared_ok o h i a m :
  consistent o h -> areas h !! i = Some a -> mapping a = Some m -> o KFile i = false -> o KWrite i = false ->
  LMmap m ∈ held h -> LFlush m ∉ held h ->
  consistent (hide KFile i (hide KWrite i o)) (__remove_shared_vm_struct i m h) /\ frame h (__remove_shared_vm_struct i m h).
Proof.
  intros Hc Hi Hm Hf Hw Hl Hfl. unfold __remove_shared_vm_struct, with_area. rewrite Hi.
  set (h1 := if r_shared a then _ else _).
  assert (consistent (hide KWrite i o) h1 /\ frame h h1) as [Hc1 [Ha1 Hh1]].
  { unfold h1. destruct (r_shared a) eqn:Hs; [|split; [by eapply private_write|done]].
    split; [|done]. by apply (writable_ok o h i a). }
  destruct (remove_frame i m (acquire (LFlush m) h1)) as [Ha2 Hh2].
  split; [|apply bracket_frame; rewrite ?Ha2, ?Hh2; cbn; by rewrite ?Ha1, ?Hh1].
  apply lock_released; [|rewrite Hh2; cbn; set_solver]. apply (file_remove _ _ i a); try done.
  - apply lock_acquired; [done|by rewrite Hh1].
  - cbn. by rewrite Ha1.
  - cbn. rewrite Hh1. set_solver.
Qed.

(** ** Several areas at once *)

(** An operation that hides or shows one aspect of one area, over a list of areas. *)
Lemma over_list (step : Z -> heap T -> heap T) (P : area -> list lock -> Prop) b k l o h :
  (forall o h i a, consistent o h -> areas h !! i = Some a -> P a (held h) -> o k i = negb b ->
     consistent (mark b k i o) (step i h) /\ frame h (step i h)) ->
  consistent o h -> NoDup l -> Forall (fun i => o k i = negb b /\ exists a, areas h !! i = Some a /\ P a (held h)) l ->
  consistent (marks b k l o) (foldl (fun h i => step i h) h l) /\ frame h (foldl (fun h i => step i h) h l).
Proof.
  intros Hs Hc Hnd. revert o h Hc. induction Hnd as [|i l Hi Hnd IH]; intros o h Hc Hl; cbn; [done|].
  apply Forall_cons in Hl as [(Ho & a & Ha & HP) Hl']. destruct (Hs o h i a Hc Ha HP Ho) as [Hc1 [Ha1 Hh1]].
  destruct (IH _ _ Hc1) as [Hc2 [Ha2 Hh2]].
  { rewrite Ha1, Hh1. rewrite Forall_forall in Hl' |- *. intros j Hj. destruct (Hl' j Hj) as [Hoj Hex].
    split; [|done]. rewrite mark_ne; [done|]. right. by intros ->. }
  split; [done|]. split; congruence.
Qed.

Lemma pre_update_all o h l x :
  consistent o h -> NoDup l -> LAnon (anon_root x) ∈ held h ->
  Forall (fun i => o KAnon i = false /\ exists a, areas h !! i = Some a /\ forall y, r_anon a = Some y -> anon_root y = anon_root x) l ->
  let h' := foldl (fun h i => anon_vma_interval_tree_pre_update_vma anon_root i h) h l in
  consistent (marks true KAnon l o) h' /\ frame h h'.
Proof.
  intros Hc Hnd Hl Hall.
  apply (over_list _ (fun a L => LAnon (anon_root x) ∈ L /\ forall y, r_anon a = Some y -> anon_root y = anon_root x)); try done.
  - intros o' g i a Hg Hi [Hlk Hroot] Ho. apply (pre_update o' g i a); try done.
    apply (anon_locks g i a x); [done|by apply (c_chain _ _ Hg i)|by intros _].
  - eapply Forall_impl; [exact Hall|]. intros i (Ho & a & Ha & Hr). eauto 10.
Qed.

Lemma post_update_all o h l x :
  consistent o h -> NoDup l -> LAnon (anon_root x) ∈ held h ->
  Forall (fun i => o KAnon i = true /\ exists a, areas h !! i = Some a /\ forall y, r_anon a = Some y -> anon_root y = anon_root x) l ->
  let h' := foldl (fun h i => anon_vma_interval_tree_post_update_vma anon_root i h) h l in
  consistent (marks false KAnon l o) h' /\ frame h h'.
Proof.
  intros Hc Hnd Hl Hall.
  apply (over_list _ (fun a L => LAnon (anon_root x) ∈ L /\ forall y, r_anon a = Some y -> anon_root y = anon_root x)); try done.
  - intros o' g i a Hg Hi [Hlk Hroot] Ho. apply (post_update o' g i a); try done.
    apply (anon_locks g i a x); [done|by apply (c_chain _ _ Hg i)|by intros _].
  - eapply Forall_impl; [exact Hall|]. intros i (Ho & a & Ha & Hr). eauto 10.
Qed.

Lemma file_remove_all o h l m :
  consistent o h -> NoDup l -> LMmap m ∈ held h ->
  Forall (fun i => o KFile i = false /\ exists a, areas h !! i = Some a /\ mapping a = Some m) l ->
  let h' := foldl (fun h i => vma_interval_tree_remove i m h) h l in
  consistent (marks true KFile l o) h' /\ frame h h'.
Proof.
  intros Hc Hnd Hl Hall.
  apply (over_list (fun i => vma_interval_tree_remove i m) (fun a L => LMmap m ∈ L /\ mapping a = Some m)); try done.
  - intros o' g i a Hg Hi [Hlk Hm] Ho. split; [by apply (file_remove o' g i a)|apply remove_frame].
  - eapply Forall_impl; [exact Hall|]. intros i (Ho & a & Ha & Hr). eauto 10.
Qed.

Lemma file_insert_all o h l m :
  consistent o h -> NoDup l -> LMmap m ∈ held h ->
  Forall (fun i => o KFile i = true /\ exists a, areas h !! i = Some a /\ mapping a = Some m) l ->
  let h' := foldl (fun h i => vma_interval_tree_insert i m h) h l in
  consistent (marks false KFile l o) h' /\ frame h h'.
Proof.
  intros Hc Hnd Hl Hall.
  apply (over_list (fun i => vma_interval_tree_insert i m) (fun a L => LMmap m ∈ L /\ mapping a = Some m)); try done.
  - intros o' g i a Hg Hi [Hlk Hm] Ho. split; [by apply (file_insert o' g i a)|apply insert_frame].
  - eapply Forall_impl; [exact Hall|]. intros i (Ho & a & Ha & Hr). eauto 10.
Qed.

(** ** [vma_prepare] *)

Definition moved (vp : prep) : list Z := vp_vma vp :: option_list (vp_adj_next vp).

(** The areas of a [struct vma_prepare] belong together: one file, compatible [anon_vma]s. *)
Record vp_ok (vp : prep) (A : gmap Z area) : Prop := {
  vo_moved : NoDup (moved vp);
  vo_live i : i ∈ moved vp \/ vp_insert vp = Some i -> exists a, A !! i = Some a /\ r_file a = vp_file vp;
  vo_mapping : vp_mapping vp = f_mapping <$> vp_file vp;
  vo_insert n : vp_insert vp = Some n -> n ∉ moved vp;
  vo_anon i a : i ∈ moved vp -> A !! i = Some a ->
    match vp_anon_vma vp with Some x => forall y, r_anon a = Some y -> anon_root y = anon_root x | None => r_anon a = None end
}.

Definition locks (vp : prep) : list lock :=
  (LFlush <$> option_list (vp_mapping vp)) ++ ((fun x => LAnon (anon_root x)) <$> option_list (vp_anon_vma vp)) ++
  (LMmap <$> option_list (vp_mapping vp)).

Definition show_insert (vp : prep) o : hidden :=
  match vp_insert vp with Some n => unhide KFile n (unhide KWrite n o) | None => o end.

(** Aspects of areas without a file, or without a chain, do not matter. *)
Lemma no_file_marks o h b k l :
  k = KFile \/ k = KWrite \/ k = KRef -> consistent o h -> (forall i a, i ∈ l -> areas h !! i = Some a -> r_file a = None) ->
  consistent (marks b k l o) h.
Proof.
  intros Hk Hc Hl. apply (consistent_ext o); [|done]. intros k' i a Hi Hrel. rewrite marks_eq.
  destruct (decide _) as [[-> Hin]|]; [|done]. exfalso. specialize (Hl i a Hin Hi).
  destruct Hk as [->|[->| ->]]; cbn in Hrel; rewrite ?andb_true_iff, bool_decide_eq_true in Hrel; naive_solver.
Qed.

Lemma no_chain_marks o h b l :
  consistent o h -> (forall i a, i ∈ l -> areas h !! i = Some a -> r_anon a = None) -> consistent (marks b KAnon l o) h.
Proof.
  intros Hc Hl. apply (consistent_ext o); [|done]. intros k' i a Hi Hrel. rewrite marks_eq.
  destruct (decide _) as [[-> Hin]|]; [|done]. exfalso. specialize (Hl i a Hin Hi). cbn in Hrel.
  apply bool_decide_eq_true in Hrel. destruct (c_chain _ _ Hc i a Hi) as [_ Hroot].
  destruct (r_chain a) as [|x c]; [done|]. destruct (Hroot x) as (y & Hy & _); [by left|]. congruence.
Qed.

Lemma vo_mapping_of vp A i a :
  vp_ok vp A -> i ∈ moved vp \/ vp_insert vp = Some i -> A !! i = Some a -> mapping a = vp_mapping vp.
Proof. intros Hv Hi Ha. destruct (vo_live _ _ Hv i Hi) as (b & Hb & Hf). unfold mapping. rewrite (vo_mapping _ _ Hv). congruence. Qed.

Lemma mapping_none_file vp A i a :
  vp_ok vp A -> vp_mapping vp = None -> i ∈ moved vp \/ vp_insert vp = Some i -> A !! i = Some a -> r_file a = None.
Proof.
  intros Hv Hn Hi Ha. pose proof (vo_mapping_of vp A i a Hv Hi Ha) as Hm. rewrite Hn in Hm. unfold mapping in Hm.
  by destruct (r_file a).
Qed.

Lemma prepare_file o vp h :
  consistent o h -> vp_ok vp (areas h) -> held h = [] ->
  (forall n, vp_insert vp = Some n -> o KFile n = true /\ o KWrite n = true) ->
  let h' := when (vp_mapping vp) (fun m h =>
    let h := acquire (LMmap m) h in
    when (vp_insert vp) (fun n h => when (fld r_file n h) (fun f h => __vma_link_file n (f_mapping f) h) h) h) h in
  consistent (show_insert vp o) h' /\ areas h' = areas h /\ held h' = LMmap <$> option_list (vp_mapping vp).
Proof.
  intros Hc Hv Hh Hn. unfold show_insert. destruct (vp_mapping vp) as [m|] eqn:Hm; cbn [when].
  - assert (consistent o (acquire (LMmap m) h)) as Hc1 by (apply lock_acquired; [done|rewrite Hh; set_solver]).
    destruct (vp_insert vp) as [n|] eqn:Hi; cbn [when]; [|split; [done|]; cbn; by rewrite Hh].
    destruct (vo_live _ _ Hv n) as (c & Ha & Hf); [by right|].
    pose proof (vo_mapping_of _ _ n c Hv (or_intror Hi) Ha) as Hmc. rewrite Hm in Hmc.
    destruct (r_file c) as [f|] eqn:Hfc; [|by unfold mapping in Hmc; rewrite Hfc in Hmc].
    assert (f_mapping f = m) as Hfm by (unfold mapping in Hmc; rewrite Hfc in Hmc; by injection Hmc).
    replace (fld r_file n (acquire (LMmap m) h)) with (Some f) by (unfold fld; cbn; by rewrite Ha).
    cbn [when]. rewrite Hfm. destruct (Hn n eq_refl) as [Hnf Hnw].
    destruct (link_file_ok o (acquire (LMmap m) h) n c m) as [Hc2 [Ha2 Hh2]]; try done.
    + cbn. set_solver.
    + cbn. rewrite Hh. set_solver.
    + split; [done|]. rewrite Ha2, Hh2. cbn. by rewrite Hh.
  - split; [|by rewrite Hh]. destruct (vp_insert vp) as [n|] eqn:Hi; [|done].
    apply (no_file_marks _ _ _ KFile [n]); [by left| |].
    + apply (no_file_marks _ _ _ KWrite [n]); [by right; left|done|].
      intros j a ->%list_elem_of_singleton Ha. by apply (mapping_none_file vp (areas h) n); auto.
    + intros j a ->%list_elem_of_singleton Ha. by apply (mapping_none_file vp (areas h) n); auto.
Qed.

(** A list of moved areas, in either order, as the code goes through them. *)
Lemma moved_fold (f : Z -> heap T -> heap T) vp h :
  when (vp_adj_next vp) f (f (vp_vma vp) h) = foldl (fun h i => f i h) h (moved vp).
Proof. unfold moved. by destruct (vp_adj_next vp). Qed.

Lemma moved_fold_rev (f : Z -> heap T -> heap T) vp h :
  f (vp_vma vp) (when (vp_adj_next vp) f h) = foldl (fun h i => f i h) h (reverse (moved vp)).
Proof. unfold moved. by destruct (vp_adj_next vp). Qed.

Lemma prepare_ok o vp h :
  consistent o h -> vp_ok vp (areas h) -> held h = [] ->
  (forall i, i ∈ moved vp -> o KFile i = false /\ o KAnon i = false) ->
  (forall n, vp_insert vp = Some n -> o KFile n = true /\ o KWrite n = true) ->
  let h' := vma_prepare f_mapping anon_root vp h in
  consistent (marks true KFile (moved vp) (marks true KAnon (moved vp) (show_insert vp o))) h' /\
  areas h' = areas h /\ held h' = locks vp.
Proof.
  intros Hc Hv Hh Hmv Hn. destruct (prepare_file o vp h Hc Hv Hh Hn) as (Hc1 & Ha1 & Hh1).
  assert (Hsh : forall k i, i ∈ moved vp -> show_insert vp o k i = o k i).
  { intros k i Hi. unfold show_insert. destruct (vp_insert vp) as [n|] eqn:Hins; [|done].
    assert (i <> n) by (intros ->; by apply (vo_insert _ _ Hv n Hins)). by rewrite !mark_ne by auto. }
  unfold vma_prepare. cbv zeta in Hc1, Ha1, Hh1 |- *. set (h1 := when (vp_mapping vp) _ h) in *.
  set (h2 := when (vp_anon_vma vp) _ h1).
  assert (consistent (marks true KAnon (moved vp) (show_insert vp o)) h2 /\ areas h2 = areas h /\
    held h2 = ((fun x => LAnon (anon_root x)) <$> option_list (vp_anon_vma vp)) ++ held h1) as (Hc2 & Ha2 & Hh2).
  { unfold h2. pose proof (vo_anon _ _ Hv) as Hanon. destruct (vp_anon_vma vp) as [x|] eqn:Hx; cbn [when].
    - rewrite moved_fold.
      destruct (pre_update_all (show_insert vp o) (acquire (LAnon (anon_root x)) h1) (moved vp) x) as [Hc2 [Ha2 Hh2]].
      + apply lock_acquired; [done|]. rewrite Hh1. destruct (vp_mapping vp); set_solver.
      + apply Hv.
      + cbn. set_solver.
      + apply Forall_forall. intros i Hi. split; [rewrite Hsh by done; by apply Hmv|].
        destruct (vo_live _ _ Hv i (or_introl Hi)) as (a & Ha & _). exists a. cbn. rewrite Ha1. split; [done|].
        by apply (Hanon i a).
      + split; [done|]. rewrite Ha2, Hh2. done.
    - split; [|done]. apply no_chain_marks; [done|]. rewrite Ha1. apply Hanon. }
  unfold locks. destruct (vp_mapping vp) as [m|] eqn:Hm; cbn [when].
  - rewrite (moved_fold (fun n h => vma_interval_tree_remove n m h)).
    destruct (file_remove_all (marks true KAnon (moved vp) (show_insert vp o)) (acquire (LFlush m) h2) (moved vp) m) as [Hc3 [Ha3 Hh3]].
    + apply lock_acquired; [done|]. rewrite Hh2, Hh1. destruct (vp_anon_vma vp); set_solver.
    + apply Hv.
    + cbn. rewrite Hh2, Hh1. set_solver.
    + apply Forall_forall. intros i Hi. rewrite marks_eq, decide_False by naive_solver.
      split; [rewrite Hsh by done; by apply Hmv|]. destruct (vo_live _ _ Hv i (or_introl Hi)) as (a & Ha & _).
      exists a. cbn. rewrite Ha2. split; [done|]. rewrite <- Hm. by apply (vo_mapping_of _ _ i a Hv (or_introl Hi)).
    + split; [done|]. rewrite Ha3, Hh3. cbn. rewrite Ha2, Hh2, Hh1. done.
  - split; [|rewrite Ha2, Hh2, Hh1; done]. apply no_file_marks; [by left|done|]. rewrite Ha2.
    intros i a Hi. apply (mapping_none_file vp); auto.
Qed.

(** ** [vma_complete] *)

Context {HRm : AnonRmap T}.

Lemma unlink_ok o h i a :
  consistent o h -> areas h !! i = Some a ->
  let h' := unlink_anon_vmas i h in
  consistent o h' /\ areas h' = <[i := set_anon None [] a]> (areas h) /\ held h' = held h.
Proof.
  intros Hc Hi. destruct (unlink_anon_vmas_spec i h a Hi) as [Hlk Hrb].
  assert (HA' : areas (unlink_anon_vmas i h) = alter (set_anon None []) i (areas h)) by apply Hlk.
  apply (linked_ok o h _ i a None []); try done.
  { split; [constructor|]. by intros x ?%not_elem_of_nil. }
  intros x j e. rewrite Hrb, HA'. pose proof (c_anon _ _ Hc x j e) as HS. destruct (decide (j = i)) as [->|Hj].
  - rewrite lookup_alter_eq, Hi. cbn. split; [|by intros (b & [= <-] & ?%not_elem_of_nil & _)].
    case_bool_decide as Hx; [unfold drop_entries; rewrite elem_of_filter; by intros []|].
    rewrite HS, Hi. by intros (b & [= <-] & Hb & _).
  - rewrite lookup_alter_ne by done. rewrite <- HS. case_bool_decide; [|done].
    unfold drop_entries. rewrite elem_of_filter. cbn. naive_solver.
Qed.

(** Marks on an area that is gone. *)
Lemma gone_mark o h b k i : consistent (mark b k i o) h -> areas h !! i = None -> consistent o h.
Proof.
  intros Hc Hi. apply (consistent_ext (mark b k i o)); [|done]. intros k' j a Hj _. rewrite mark_ne; [done|].
  right. intros ->. congruence.
Qed.

Lemma drop_removed_ok o vp h r c :
  consistent o h -> areas h !! r = Some c -> vp_file vp = r_file c ->
  (r_anon c <> None -> fld r_anon (vp_vma vp) h = r_anon c) ->
  (r_file c <> None -> o KFile r = true) -> (r_file c <> None -> r_shared c = true -> o KWrite r = true) ->
  o KRef r = false -> o KCount r = false ->
  let h' := drop_removed vp r h in consistent o h' /\ areas h' = delete r (areas h) /\ held h' = held h.
Proof.
  intros Hc Hr Hf Han HoF HoW HoR HoC. unfold drop_removed. set (h1 := when (vp_file vp) _ h).
  assert (consistent (hide KRef r o) h1 /\ frame h h1) as [Hc1 [Ha1 Hh1]].
  { unfold h1. rewrite Hf. destruct (r_file c) as [f|] eqn:Hfc; cbn [when]; split; try done.
    - by apply (f_count_ok o h r c).
    - apply (no_file_marks _ _ _ KRef [r]); [by right; right|done|].
      intros j a ->%list_elem_of_singleton Ha. congruence. }
  assert (fld r_anon r h1 = r_anon c) as -> by (unfold fld; by rewrite Ha1, Hr).
  set (h2 := when (r_anon c) _ h1).
  assert (exists c', consistent (hide KRef r o) h2 /\ areas h2 = <[r := c']> (areas h) /\ held h2 = held h /\
    r_mm c' = r_mm c /\ r_file c' = r_file c /\ r_shared c' = r_shared c /\ r_chain c' = []) as (c' & Hc2 & Ha2 & Hh2 & Hmm & Hfc & Hsh & Hch).
  { unfold h2. destruct (r_anon c) as [y|] eqn:Hy; cbn [when].
    - unfold anon_vma_merge. rewrite check_true.
      + destruct (unlink_ok _ h1 r c Hc1) as (Hc2 & Ha2 & Hh2); [by rewrite Ha1|].
        exists (set_anon None [] c). rewrite Ha2, Hh2, Ha1. done.
      + apply bool_decide_eq_true. unfold fld in Han |- *. rewrite Ha1, Han, Hr by done. cbn. by rewrite Hy.
    - exists c. rewrite Ha1, insert_id by done. split_and!; try done.
      destruct (c_chain _ _ Hc r c Hr) as [_ Hroot]. destruct (r_chain c) as [|x l]; [done|].
      destruct (Hroot x) as (y & Hy' & _); [by left|congruence]. }
  assert (areas h2 !! r = Some c') as Hr2 by (rewrite Ha2; apply lookup_insert_eq).
  unfold with_area. rewrite Hr2. split_and!; [|cbn; by rewrite Ha2, delete_insert_eq|done].
  apply (gone_mark _ _ true KRef r); [|cbn; apply lookup_delete_eq].
  apply (gone_mark _ _ true KCount r); [|cbn; apply lookup_delete_eq].
  apply (delete_area_ok _ (add_map_count (r_mm c') (-1) h2) r c').
  - by apply (map_count_ok _ h2 r c' true).
  - done.
  - intros k Hrel. destruct (decide (k = KCount)) as [->|Hk]; [apply mark_eq|]. rewrite mark_ne by auto.
    destruct (decide (k = KRef)) as [->|Hk']; [apply mark_eq|]. rewrite mark_ne by auto.
    destruct k; cbn in Hrel; rewrite ?andb_true_iff, ?bool_decide_eq_true, ?Hfc, ?Hsh, ?Hch in Hrel; naive_solver.
Qed.

Definition removed (vp : prep) : list Z := option_list (vp_remove vp) ++ option_list (vp_remove2 vp).

Record rm_ok (vp : prep) (A : gmap Z area) : Prop := {
  ro_nodup : NoDup (removed vp);
  ro_first : vp_remove vp = None -> vp_remove2 vp = None;
  ro_insert : vp_remove vp <> None -> vp_insert vp = None;
  ro_live r : r ∈ removed vp -> r ∉ moved vp /\ exists c, A !! r = Some c /\ r_file c = vp_file vp /\
    (r_anon c <> None -> A !! vp_vma vp ≫= r_anon = r_anon c)
}.

Lemma unlink_shared_all o h l m :
  consistent o h -> NoDup l -> LMmap m ∈ held h -> LFlush m ∉ held h ->
  (forall i, i ∈ l -> o KFile i = false /\ o KWrite i = false /\ exists a, areas h !! i = Some a /\ mapping a = Some m) ->
  let h' := foldl (fun h i => __remove_shared_vm_struct i m h) h l in
  consistent (marks true KFile l (marks true KWrite l o)) h' /\ frame h h'.
Proof.
  intros Hc Hnd. revert o h Hc. induction Hnd as [|i l Hi Hnd IH]; intros o h Hc Hl Hfl Hall; [done|]. cbn [foldl].
  destruct (Hall i) as (Hf & Hw & a & Ha & Hm); [by left|].
  destruct (unlink_shared_ok o h i a m) as [Hc1 [Ha1 Hh1]]; try done.
  destruct (IH _ _ Hc1) as [Hc2 [Ha2 Hh2]]; try (by rewrite Hh1).
  { intros j Hj. assert (j <> i) by (by intros ->). rewrite Ha1, !mark_ne by auto. apply Hall. by right. }
  split; [|split; congruence]. apply (consistent_ext (marks true KFile l (marks true KWrite l (hide KFile i (hide KWrite i o))))); [|done].
  intros k j b _ _. destruct (decide (j = i)), (decide (j ∈ l)), k; by eval_marks.
Qed.

Definition count_insert_of (vp : prep) o : hidden := match vp_insert vp with Some n => unhide KCount n o | None => o end.

Lemma NoDup_rev_moved vp A : vp_ok vp A -> NoDup (reverse (moved vp)).
Proof. intros Hv. rewrite (reverse_Permutation (moved vp)). apply (vo_moved _ _ Hv). Qed.

(** Back into the tree of the file. *)
Lemma complete_file o vp h :
  consistent o h -> vp_ok vp (areas h) -> held h = locks vp -> (forall i, i ∈ moved vp -> o KFile i = true) ->
  let h' := when (vp_mapping vp) (fun m h =>
    release (LFlush m) (vma_interval_tree_insert (vp_vma vp) m
      (when (vp_adj_next vp) (fun n h => vma_interval_tree_insert n m h) h))) h in
  consistent (marks false KFile (moved vp) o) h' /\ areas h' = areas h /\
  held h' = ((fun x => LAnon (anon_root x)) <$> option_list (vp_anon_vma vp)) ++ (LMmap <$> option_list (vp_mapping vp)).
Proof.
  intros Hc Hv Hh Hmv. unfold locks in Hh. destruct (vp_mapping vp) as [m|] eqn:Hm; cbn [when].
  - rewrite (moved_fold_rev (fun i h => vma_interval_tree_insert i m h)).
    destruct (file_insert_all o h (reverse (moved vp)) m) as [Hc1 [Ha1 Hh1]]; try done.
    + by apply (NoDup_rev_moved vp (areas h)).
    + rewrite Hh. set_solver.
    + apply Forall_forall. intros i Hi. rewrite elem_of_reverse in Hi. split; [by apply Hmv|].
      destruct (vo_live _ _ Hv i (or_introl Hi)) as (a & Ha & _). exists a. split; [done|].
      rewrite <- Hm. by apply (vo_mapping_of _ _ i a Hv (or_introl Hi)).
    + split_and!.
      * apply lock_released; [|rewrite Hh1, Hh; cbn; set_solver].
        apply (consistent_ext (marks false KFile (reverse (moved vp)) o)); [|done]. intros k j b _ _.
        rewrite !marks_eq. by apply decide_ext; rewrite elem_of_reverse.
      * done.
      * unfold release, set_held, check. cbn [held]. rewrite Hh1, Hh. apply release_last.
        destruct (vp_anon_vma vp); set_solver.
  - split; [|done]. apply no_file_marks; [by left|done|]. intros i a Hi. apply (mapping_none_file vp); auto.
Qed.

(** The areas that go away leave the tree of the file, or the new area is counted. *)
Lemma complete_counts o vp h :
  consistent o h -> vp_ok vp (areas h) -> rm_ok vp (areas h) ->
  (forall m, vp_mapping vp = Some m -> LMmap m ∈ held h /\ LFlush m ∉ held h) ->
  (forall k r, r ∈ removed vp -> o k r = false) -> (forall n, vp_insert vp = Some n -> o KCount n = true) ->
  let h' := match vp_remove vp, vp_mapping vp with
    | Some r, Some m => when (vp_remove2 vp) (fun r2 h => __remove_shared_vm_struct r2 m h) (__remove_shared_vm_struct r m h)
    | _, _ => when (vp_insert vp) (fun n => with_area n (fun a h => add_map_count (r_mm a) 1 h)) h
    end in
  consistent (count_insert_of vp (marks true KFile (removed vp) (marks true KWrite (removed vp) o))) h' /\ frame h h'.
Proof.
  intros Hc Hv Hr Hlk Hrm Hn. unfold count_insert_of.
  assert (Hno : vp_remove vp = None -> removed vp = []) by (intros Hx; unfold removed; by rewrite Hx, (ro_first _ _ Hr Hx)).
  destruct (vp_remove vp) as [r|] eqn:Hrv.
  - rewrite (ro_insert _ _ Hr) by congruence. cbn [when]. destruct (vp_mapping vp) as [m|] eqn:Hm.
    + destruct (Hlk m eq_refl) as [Hl Hf]. destruct (unlink_shared_all o h (removed vp) m) as [Hc1 Hfr]; try done.
      * apply Hr.
      * intros i Hi. split_and!; [by apply Hrm|by apply Hrm|]. destruct (ro_live _ _ Hr i Hi) as (_ & c & Hci & Hfi & _).
        exists c. split; [done|]. unfold mapping. by rewrite Hfi, <- (vo_mapping _ _ Hv).
      * unfold removed in Hc1, Hfr |- *. rewrite Hrv in Hc1, Hfr |- *. by destruct (vp_remove2 vp).
    + split; [|done]. assert (Hnf : forall i a, i ∈ removed vp -> areas h !! i = Some a -> r_file a = None).
      { intros i a Hi Ha. destruct (ro_live _ _ Hr i Hi) as (_ & c & Hci & Hfi & _).
        pose proof (vo_mapping _ _ Hv) as Hmv. rewrite Hm in Hmv. destruct (vp_file vp); [done|]. congruence. }
      apply no_file_marks; [by left| |done]. by apply no_file_marks; [by right; left| |].
  - rewrite Hno by done. cbn [marks foldl]. destruct (vp_insert vp) as [n|] eqn:Hi; cbn [when]; [|done].
    destruct (vo_live _ _ Hv n (or_intror Hi)) as (c & Hcn & _). unfold with_area. rewrite Hcn.
    split; [|done]. apply (map_count_ok o h n c false); try done. by apply Hn.
Qed.

(** Back into the trees of the chains. *)
Lemma complete_anon o vp h L :
  consistent o h -> vp_ok vp (areas h) -> (forall i, i ∈ moved vp -> o KAnon i = true) ->
  held h = ((fun x => LAnon (anon_root x)) <$> option_list (vp_anon_vma vp)) ++ L ->
  (forall x, LAnon x ∉ L) ->
  let h' := when (vp_anon_vma vp) (fun x h => release (LAnon (anon_root x))
    (when (vp_adj_next vp) (anon_vma_interval_tree_post_update_vma anon_root)
      (anon_vma_interval_tree_post_update_vma anon_root (vp_vma vp) h))) h in
  consistent (marks false KAnon (moved vp) o) h' /\ areas h' = areas h /\ held h' = L.
Proof.
  intros Hc Hv Hmv Hh HL. pose proof (vo_anon _ _ Hv) as Hanon. destruct (vp_anon_vma vp) as [x|]; cbn [when].
  - rewrite moved_fold. destruct (post_update_all o h (moved vp) x) as [Hc1 [Ha1 Hh1]]; try done.
    + apply Hv.
    + rewrite Hh. set_solver.
    + apply Forall_forall. intros i Hi. split; [by apply Hmv|].
      destruct (vo_live _ _ Hv i (or_introl Hi)) as (a & Ha & _). exists a. split; [done|]. by apply (Hanon i a).
    + split_and!; [apply lock_released; [done|rewrite Hh1, Hh; set_solver]|done|].
      unfold release, set_held, check. cbn [held]. rewrite Hh1, Hh. by apply release_last.
  - split; [|done]. by apply no_chain_marks.
Qed.

Lemma complete_trees o vp h :
  consistent o h -> vp_ok vp (areas h) -> rm_ok vp (areas h) -> held h = locks vp ->
  (forall i, i ∈ moved vp -> o KFile i = true /\ o KAnon i = true) ->
  (forall k r, r ∈ removed vp -> o k r = false) ->
  (forall n, vp_insert vp = Some n -> o KCount n = true) ->
  exists h', vma_complete anon_root vp h =
    when (vp_remove vp) (fun r h => when (vp_remove2 vp) (fun r2 h => drop_removed vp r2 h) (drop_removed vp r h)) h' /\
  consistent (marks false KAnon (moved vp) (count_insert_of vp (marks true KFile (removed vp) (marks true KWrite (removed vp)
    (marks false KFile (moved vp) o))))) h' /\ areas h' = areas h /\ held h' = [].
Proof.
  intros Hc Hv Hr Hh Hmv Hrm Hn. unfold vma_complete. eexists. split; [reflexivity|]. cbv zeta.
  destruct (complete_file o vp h Hc Hv Hh) as (Hc1 & Ha1 & Hh1); [by intros i Hi; apply Hmv|].
  cbv zeta in Hc1, Ha1, Hh1. set (h1 := when (vp_mapping vp) _ h) in *. rewrite <- Ha1 in Hv, Hr.
  assert (Hdis : forall i, i ∈ removed vp -> i ∉ moved vp) by (intros i Hi; by apply (ro_live _ _ Hr)).
  destruct (complete_counts _ vp h1 Hc1 Hv Hr) as [Hc2 [Ha2 Hh2]].
  { intros m Hm. rewrite Hh1, Hm. destruct (vp_anon_vma vp); set_solver. }
  { intros k r Hi. rewrite marks_eq, decide_False; [by apply Hrm|]. intros [_ Hx]. by apply (Hdis r). }
  { intros n Hi. rewrite marks_eq, decide_False; [by apply Hn|]. by intros []. }
  cbv zeta in Hc2, Ha2, Hh2. set (h2 := match vp_remove vp with Some r => _ | None => _ end) in *. rewrite <- Ha2 in Hv.
  destruct (complete_anon _ vp h2 (LMmap <$> option_list (vp_mapping vp)) Hc2 Hv) as (Hc3 & Ha3 & Hh3).
  { intros i Hi. transitivity (o KAnon i); [|by apply Hmv]. unfold count_insert_of.
    destruct (vp_insert vp) as [n|]; rewrite ?mark_ne by auto; by rewrite !marks_eq, !decide_False by (by intros []). }
  { by rewrite Hh2. }
  { intros x. destruct (vp_mapping vp); set_solver. }
  cbv zeta in Hc3, Ha3, Hh3. set (h3 := when (vp_anon_vma vp) _ h2) in *.
  destruct (vp_mapping vp) as [m|]; cbn [when].
  - split_and!; [apply lock_released; [done|rewrite Hh3; set_solver]|cbn; congruence|].
    unfold release, set_held, check. cbn [held]. rewrite Hh3. apply (release_last _ []). set_solver.
  - split_and!; [done|congruence|done].
Qed.

Definition drop_areas (l : list Z) (A : gmap Z area) : gmap Z area := foldl (fun A r => delete r A) A l.

Lemma drop_areas_lookup l A i a : drop_areas l A !! i = Some a <-> i ∉ l /\ A !! i = Some a.
Proof.
  revert A. induction l as [|r l IH]; intros A; cbn; [by rewrite elem_of_nil; intuition|].
  fold (drop_areas l (delete r A)). rewrite IH, lookup_delete_Some, not_elem_of_cons. intuition congruence.
Qed.

(** Areas that are out of the tree of their file, freed one after the other. *)
Lemma drop_all o vp h l :
  consistent o h -> NoDup l -> vp_vma vp ∉ l ->
  (forall r, r ∈ l -> exists c, areas h !! r = Some c /\ vp_file vp = r_file c /\
    (r_anon c <> None -> areas h !! vp_vma vp ≫= r_anon = r_anon c) /\
    o KFile r = true /\ o KWrite r = true /\ o KRef r = false /\ o KCount r = false) ->
  let h' := foldl (fun h r => drop_removed vp r h) h l in
  consistent o h' /\ areas h' = drop_areas l (areas h) /\ held h' = held h.
Proof.
  intros Hc Hnd. revert h Hc. induction Hnd as [|r l Hr Hnd IH]; intros h Hc Hv Hl; [done|].
  apply not_elem_of_cons in Hv as [Hvr Hvl].
  destruct (Hl r) as (c & Hcr & Hf & Han & HoF & HoW & HoR & HoC); [by left|].
  destruct (drop_removed_ok o vp h r c) as (Hc1 & Ha1 & Hh1); try done. cbn [foldl].
  destruct (IH (drop_removed vp r h) Hc1 Hvl) as (Hc2 & Ha2 & Hh2).
  - intros q Hq. rewrite Ha1, !lookup_delete_ne by (done || (intros ->; done)). apply Hl. by right.
  - split; [done|]. rewrite Ha2, Ha1, Hh2, Hh1. done.
Qed.

Lemma removed_fold (f : Z -> heap T -> heap T) vp h :
  (vp_remove vp = None -> vp_remove2 vp = None) ->
  when (vp_remove vp) (fun r h => when (vp_remove2 vp) f (f r h)) h = foldl (fun h r => f r h) h (removed vp).
Proof. intros Hn. unfold removed. destruct (vp_remove vp); [by destruct (vp_remove2 vp)|by rewrite Hn]. Qed.

Lemma complete_ok o vp h :
  consistent o h -> vp_ok vp (areas h) -> rm_ok vp (areas h) -> held h = locks vp ->
  (forall i, i ∈ moved vp -> o KFile i = true /\ o KAnon i = true) ->
  (forall k r, r ∈ removed vp -> o k r = false) ->
  (forall n, vp_insert vp = Some n -> o KCount n = true) ->
  let h' := vma_complete anon_root vp h in
  consistent (marks false KAnon (moved vp) (count_insert_of vp (marks false KFile (moved vp) o))) h' /\
  areas h' = drop_areas (removed vp) (areas h) /\ held h' = [].
Proof.
  intros Hc Hv Hr Hh Hmv Hrm Hn. destruct (complete_trees o vp h Hc Hv Hr Hh Hmv Hrm Hn) as (h' & Heq & Hc' & Ha' & Hh').
  cbv zeta. rewrite Heq, (removed_fold (drop_removed vp)) by apply Hr. set (ot := marks false KAnon (moved vp) _) in Hc'.
  destruct (drop_all ot vp h' (removed vp)) as (Hcg & Hag & Hhg); try done.
  - apply Hr.
  - intros Hx. destruct (ro_live _ _ Hr _ Hx) as [Hnm _]. apply Hnm. by left.
  - intros r Hi. destruct (ro_live _ _ Hr r Hi) as (Hnm & c & Hcr & Hfr & Hanr). exists c. rewrite Ha'.
    assert (Hins : vp_insert vp = None).
    { apply (ro_insert _ _ Hr). intros Hx. unfold removed in Hi. rewrite Hx, (ro_first _ _ Hr Hx) in Hi. by apply not_elem_of_nil in Hi. }
    pose proof (fun k => Hrm k r Hi) as Hor. unfold ot, count_insert_of. rewrite Hins. split_and!; try done; by eval_marks.
  - split; [|rewrite Hag, Ha', Hhg; done]. apply (consistent_ext ot); [|done]. intros k i a Hi _.
    rewrite Hag, drop_areas_lookup in Hi. destruct Hi as [Hni _]. unfold ot, count_insert_of.
    destruct (vp_insert vp) as [n|]; rewrite ?marks_eq; unfold mark; rewrite ?marks_eq;
      by rewrite !(decide_False (P := _ /\ i ∈ removed vp)) by (by intros []).
Qed.

(** ** Changing bounds between the two *)

Definition strip (a : area) : area := set_bounds 0 0 0 a.
Definition alike (A A' : gmap Z area) : Prop := strip <$> A = strip <$> A'.

Lemma alike_sym A A' : alike A A' -> alike A' A.
Proof. by unfold alike. Qed.
Lemma alike_lookup A A' i a : alike A A' -> A !! i = Some a -> exists a', A' !! i = Some a' /\ strip a' = strip a.
Proof.
  intros HA Hi. assert ((strip <$> A) !! i = Some (strip a)) as Hs by (by rewrite lookup_fmap, Hi).
  rewrite HA, lookup_fmap in Hs. destruct (A' !! i) as [a'|]; [|done]. apply (inj Some) in Hs. eauto.
Qed.
Lemma strip_fields a b : strip a = strip b -> r_file a = r_file b /\ r_anon a = r_anon b.
Proof. intros Heq. split; [by apply (f_equal r_file) in Heq|by apply (f_equal r_anon) in Heq]. Qed.

Lemma vp_ok_alike vp A A' : alike A A' -> vp_ok vp A -> vp_ok vp A'.
Proof.
  intros HA [Hm Hl Hmp Hins Han]. split; try done.
  - intros i Hi. destruct (Hl i Hi) as (a & Ha & Hf). destruct (alike_lookup _ _ _ _ HA Ha) as (a' & Ha' & Hs).
    exists a'. split; [done|]. by destruct (strip_fields _ _ Hs) as [-> _].
  - intros i a Hi Ha. destruct (alike_lookup _ _ _ _ (alike_sym _ _ HA) Ha) as (a' & Ha' & Hs).
    destruct (strip_fields _ _ Hs) as [_ <-]. by apply (Han i a').
Qed.

Lemma rm_ok_alike vp A A' : alike A A' -> rm_ok vp A -> rm_ok vp A'.
Proof.
  intros HA [Hn Hf Hi Hl]. split; try done. intros r Hr. destruct (Hl r Hr) as (Hm & c & Hc & Hfc & Han).
  split; [done|]. destruct (alike_lookup _ _ _ _ HA Hc) as (c' & Hc' & Hs). destruct (strip_fields _ _ Hs) as [Hsf Hsa].
  exists c'. split_and!; [done|congruence|]. rewrite Hsa. intros Hx. rewrite <- (Han Hx).
  destruct (A !! vp_vma vp) as [v|] eqn:Hv.
  - destruct (alike_lookup _ _ _ _ HA Hv) as (v' & -> & Hsv). cbn. by destruct (strip_fields _ _ Hsv) as [_ ->].
  - destruct (A' !! vp_vma vp) as [v'|] eqn:Hv'; [|done].
    destruct (alike_lookup _ _ _ _ (alike_sym _ _ HA) Hv') as (v & Hvv & _). congruence.
Qed.

(** New bounds for an area that is out of the trees. *)
Lemma bounds_ok o h i a f :
  consistent o h -> areas h !! i = Some a -> o KFile i = true -> o KAnon i = true -> (forall a, strip (f a) = strip a) ->
  consistent o (write i f h) /\ alike (areas h) (areas (write i f h)) /\ held (write i f h) = held h.
Proof.
  intros Hc Hi Hf Ha Hs. destruct (write_ok o h i a f) as (Hc' & Ha' & Hh'); try done.
  - intros b. specialize (Hs b). destruct b, (f _). unfold strip, set_bounds in Hs. cbn in *. by injection Hs.
  - split_and!; try done. rewrite Ha'. unfold alike. rewrite fmap_insert, Hs. symmetry. apply insert_id.
    by rewrite lookup_fmap, Hi.
Qed.

Definition moves (vp : prep) (A : gmap Z area) (upd : heap T -> heap T) : Prop :=
  forall o g, consistent o g -> alike A (areas g) -> (forall i, i ∈ moved vp -> o KFile i = true /\ o KAnon i = true) ->
  consistent o (upd g) /\ alike (areas g) (areas (upd g)) /\ held (upd g) = held g.

(** What is hidden before: nothing, or the file's side and the count of the new area. *)
Definition before_insert (vp : prep) : hidden :=
  match vp_insert vp with Some n => hide KFile n (hide KWrite n (hide KCount n none)) | None => none end.

Lemma adjust_ok vp h upd :
  consistent (before_insert vp) h -> vp_ok vp (areas h) -> rm_ok vp (areas h) -> held h = [] -> moves vp (areas h) upd ->
  let h' := vma_complete anon_root vp (upd (vma_prepare f_mapping anon_root vp h)) in
  consistent none h' /\ held h' = [].
Proof.
  intros Hc Hv Hr Hh Hupd.
  assert (Hne : forall i n, i ∈ moved vp -> vp_insert vp = Some n -> i <> n) by (intros i n Hi Hn ->; by apply (vo_insert _ _ Hv n)).
  assert (Hrn : forall r n, r ∈ removed vp -> vp_insert vp = Some n -> False).
  { intros r n Hi Hn. unfold removed in Hi. destruct (vp_remove vp) eqn:Hx.
    - rewrite (ro_insert _ _ Hr) in Hn; congruence.
    - rewrite (ro_first _ _ Hr Hx) in Hi. by apply not_elem_of_nil in Hi. }
  destruct (prepare_ok (before_insert vp) vp h) as (Hc1 & Ha1 & Hh1); try done.
  { intros i Hi. unfold before_insert. destruct (vp_insert vp) as [n|] eqn:Hn; [|done]. by rewrite !mark_ne by eauto. }
  { intros n Hn. unfold before_insert. rewrite Hn. by split; eval_marks. }
  set (o1 := marks true KFile _ _) in Hc1. set (h1 := vma_prepare f_mapping anon_root vp h) in *.
  assert (Ho1 : forall i, i ∈ moved vp -> o1 KFile i = true /\ o1 KAnon i = true) by (intros i Hi; unfold o1; by split; eval_marks).
  destruct (Hupd o1 h1 Hc1) as (Hc2 & Ha2 & Hh2); [by rewrite Ha1|done|]. rewrite <- Ha1 in Hv, Hr.
  destruct (complete_ok o1 vp (upd h1)) as (Hc3 & _ & Hh3); try done.
  - by eapply vp_ok_alike.
  - by eapply rm_ok_alike.
  - congruence.
  - intros k r Hi. destruct (ro_live _ _ Hr r Hi) as [Hnm _]. unfold o1, show_insert, before_insert.
    destruct (vp_insert vp) as [n|] eqn:Hn; [exfalso; by eapply Hrn|]. by eval_marks.
  - intros n Hn. unfold o1, show_insert, before_insert. rewrite Hn. by eval_marks.
  - split; [|done]. eapply consistent_ext; [|exact Hc3]. intros k i a _ _. unfold o1, count_insert_of, show_insert, before_insert, none.
    destruct (decide (i ∈ moved vp)) as [Hm|Hm]; (destruct (vp_insert vp) as [n|]; [destruct (decide (i = n)) as [He|He]|]);
      destruct k; by eval_marks.
Qed.
End spec.
End RMapSpec.
