(* ===== verification/RMapOps.v ===== *)
(** * The operations on areas keep the reverse maps

    Each caller of [vma_prepare] and [vma_complete], the new areas of [mmap], the unmapped
    ones, stacks that grow down, the faults and the forks that give an area its chain, over
    the steps of [RMapSpec]; then any sequence of them. *)
From S2P Require Import Prelude Counting Vma RMap RMapSpec.

Module RMapOps.
Import RMap RMapSpec.

Section ops.
Context {T : Type} `{AnonRmap T} (f_mapping : Z -> Z) (anon_root : Z -> Z).
Implicit Types h : heap T.
Notation consistent := (consistent f_mapping anon_root).
Notation vp_ok := (vp_ok f_mapping anon_root).





(** ** Families: areas of one file whose [anon_vma]s agree *)




(** ** Shrinking, growing down *)



(** ** Sharing an [anon_vma] *)









(** ** Expanding and merging *)

















(** ** Splitting *)











(** ** New and unmapped areas *)






(** ** Faults and forks *)

Context `{!AnonFault T anon_root}.







(** ** Any sequence of operations *)






End ops.
End RMapOps.

(** ** Trees as sets *)
Module RMapDemo.
Import RMap RMapSpec RMapOps.

Definition tree : Type := gset (Z * (Z * Z)).
#[export] Instance tree_set : IntervalTree tree := {
  it_elems t := t; it_insert e t := {[e]} ∪ t; it_remove e t := t ∖ {[e]};
  it_elems_insert e t _ := eq_refl; it_elems_remove e t _ := eq_refl }.

Definition rewrite_chain (i : Z) (x : option Z) (l : list Z) (rb : Z -> tree) (h : heap tree) : heap tree :=
  Heap (alter (set_anon x l) i (areas h)) (i_mmap h) rb (i_mmap_writable h) (f_count h) (map_count h) (held h) (bad h).

Definition clone (dst src : Z) (h : heap tree) : Z * heap tree :=
  match areas h !! dst, areas h !! src with
  | Some d, Some s =>
      (0, rewrite_chain dst (r_anon d) (r_chain s) (fun x => entry_if (bool_decide (x ∈ r_chain s)) dst (key d) ∪ rb_root h x) h)
  | _, _ => (0, h)
  end.
Definition unlink (i : Z) (h : heap tree) : heap tree :=
  match areas h !! i with
  | Some a => rewrite_chain i None [] (fun x => if bool_decide (x ∈ r_chain a) then drop_entries i (rb_root h x) else rb_root h x) h
  | None => h
  end.

#[export] Instance tree_rmap : AnonRmap tree.
Proof.
  refine {| anon_vma_clone := clone; unlink_anon_vmas := unlink |}.
  - intros dst src h d s Hd Hs _. left. unfold clone. rewrite Hd, Hs. eexists. split; [done|]. by split.
  - intros i h a Hi. unfold unlink. rewrite Hi. by split.
Defined.

(** All [anon_vma]s have root 0; the one of an area [i] is [50 + i], that of a copy the next free. *)
Definition root (_ : Z) : Z := 0.
Definition attach (i x : Z) (l : list Z) (a : area) (h : heap tree) : heap tree :=
  rewrite_chain i (Some x) l (fun y => entry_if (bool_decide (y ∈ l)) i (key a) ∪ rb_root h y) h.
Definition fault (i : Z) (h : heap tree) : Z * heap tree :=
  match areas h !! i with
  | Some a => match r_anon a with Some _ => (0, h) | None => (0, attach i (50 + i) [50 + i] a h) end
  | None => (0, h)
  end.
Definition forked (dst src : Z) (h : heap tree) : Z * heap tree :=
  match areas h !! dst, areas h !! src with
  | Some d, Some s =>
      match r_anon s with
      | None => (0, h)
      | Some _ =>
          let x := 1 + foldr Z.max 0 (r_chain s) in (0, attach dst x (x :: r_chain s) d h)
      end
  | _, _ => (0, h)
  end.

Lemma next_free l : 1 + foldr Z.max 0 l ∉ l.
Proof.
  assert (Hle : forall y, y ∈ l -> y <= foldr Z.max 0 l).
  { induction l as [|z l IH]; intros y Hy; [by apply not_elem_of_nil in Hy|]. cbn.
    apply elem_of_cons in Hy as [->|Hy]; [lia|]. specialize (IH y Hy). lia. }
  intros Hin. specialize (Hle _ Hin). lia.
Qed.

#[export] Instance tree_fault : AnonFault tree root.
Proof.
  refine {| anon_vma_prepare := fault; anon_vma_fork := forked |}.
  - intros i h a Hi. unfold fault. rewrite Hi. destruct (r_anon a); [done|]. right. eexists _, _. split; [done|].
    split; [by split|done].
  - intros dst src h d s Hd Hs _. unfold forked. rewrite Hd, Hs. destruct (r_anon s); [|done]. left.
    eexists _, _, _. split; [done|]. split; [by split|]. split; [done|]. split; [left; split; [apply next_free|done]|done].
Defined.




End RMapDemo.
