(* ===== verification/TaskRefs.v ===== *)
(** * References to the address space, the program file and the pid of a task ([kernel/fork.c])

    [get_task_mm], [mm_access], [mmput] and [mmput_async] count the users of an address space,
    which is torn down when the last one is gone; [get_task_exe_file]; what [copy_process] does to
    the system-call filter of the child ([copy_seccomp]); the file operations of a pidfd. *)
From S2P Require Import Prelude Fork.

Module TaskRefs.
Import Fork.

(** ** Users of address spaces *)

(** [torn]: the address spaces [__mmput] was called for; [queued]: the work [mmput_async] left;
    [readers]: [exec_update_lock] of each [signal_struct]. *)
Record refs := Refs { mm_users : Z -> Z; torn : list Z; queued : list Z; file_refs : Z -> Z; readers : Z -> Z }.

Definition bump (k d : Z) (f : Z -> Z) : Z -> Z := fun x => if x =? k then f x + d else f x.
Definition mmget (mm : Z) s := Refs (bump mm 1 (mm_users s)) (torn s) (queued s) (file_refs s) (readers s).
Definition read_lock (sig d : Z) s := Refs (mm_users s) (torn s) (queued s) (file_refs s) (bump sig d (readers s)).
Definition __mmput (mm : Z) s := Refs (mm_users s) (torn s ++ [mm]) (queued s) (file_refs s) (readers s).

Record utask := Utask { mm : option Z; flags : Z; signal : Z }.

(** [atomic_dec_and_test] *)
Definition dec_and_test (m : Z) s : bool * refs :=
  (mm_users s m - 1 =? 0, Refs (bump m (-1) (mm_users s)) (torn s) (queued s) (file_refs s) (readers s)).

Definition mmput (m : Z) s : refs := let '(last, s) := dec_and_test m s in if last then __mmput m s else s.

Definition mmput_async (m : Z) s : refs :=
  let '(last, s) := dec_and_test m s in
  if last then Refs (mm_users s) (torn s) (queued s ++ [m]) (file_refs s) (readers s) else s.

(** A worker takes the first item. *)
Definition mmput_async_fn s : refs :=
  match queued s with
  | [] => s
  | m :: q => __mmput m (Refs (mm_users s) (torn s) q (file_refs s) (readers s))
  end.

Definition get_task_mm (t : utask) s : option Z * refs :=
  match mm t with
  | Some m => if flag_set (flags t) PF_KTHREAD then (None, s) else (Some m, mmget m s)
  | None => (None, s)
  end.

(** [interrupted] is what [down_read_killable] answers, [may_access] the check of ptrace. *)
Definition mm_access (interrupted : Z) (may_access : bool) (cur : option Z) (t : utask) s : (Z + option Z) * refs :=
  if negb (interrupted =? 0) then (inl interrupted, s)
  else
    let s := read_lock (signal t) 1 s in
    let '(m, s) := get_task_mm t s in
    let '(r, s) :=
      match m with
      | Some a => if negb (bool_decide (Some a = cur)) && negb may_access then (inl (- EACCES), mmput a s) else (inr m, s)
      | None => (inr m, s)
      end in
    (r, read_lock (signal t) (-1) s).

(** [exe_file] gives the program of an address space; taking it takes a reference. *)
Definition get_mm_exe_file (exe_file : Z -> option Z) (m : Z) s : option Z * refs :=
  match exe_file m with
  | Some f => (Some f, Refs (mm_users s) (torn s) (queued s) (bump f 1 (file_refs s)) (readers s))
  | None => (None, s)
  end.

Definition get_task_exe_file (exe_file : Z -> option Z) (t : utask) s : option Z * refs :=
  match mm t with
  | Some m => if negb (flag_set (flags t) PF_KTHREAD) then get_mm_exe_file exe_file m s else (None, s)
  | None => (None, s)
  end.

(** ** The system-call filter of a new task *)

Record sectask := Sectask { seccomp_mode : Z; seccomp_filter : option Z; no_new_privs : bool; work_seccomp : bool }.
Definition SECCOMP_MODE_DISABLED : Z := 0.

(** The child and the uses of each filter. *)
Definition copy_seccomp (cur p : sectask) (filter_users : Z -> Z) : sectask * (Z -> Z) :=
  let filter_users := match seccomp_filter cur with Some f => bump f 1 filter_users | None => filter_users end in
  let p := Sectask (seccomp_mode cur) (seccomp_filter cur) (no_new_privs p) (work_seccomp p) in
  let p := if no_new_privs cur then Sectask (seccomp_mode p) (seccomp_filter p) true (work_seccomp p) else p in
  let p := if negb (seccomp_mode p =? SECCOMP_MODE_DISABLED)
           then Sectask (seccomp_mode p) (seccomp_filter p) (no_new_privs p) true else p in
  (p, filter_users).

(** [set_tid_address]: the new address and the caller's thread id. *)
Definition set_tid_address (pid tidptr : Z) (p : ptask) : Z * ptask := (pid, set_tids (p_set_child_tid p) tidptr p).

(** ** pidfds *)

(** [struct pid]: the pid's number in each namespace down to its own, by level. *)
Record upid := Upid { nr : Z; ns : Z }.
Record pidfile := Pidfile { f_op_pidfd : bool; private_data : option Z }.

Definition pidfd_pid (f : pidfile) : Z + option Z := if f_op_pidfd f then inr (private_data f) else inl (- EBADF).

Definition pidfd_release (f : pidfile) (pid_users : Z -> Z) : Z * pidfile * (Z -> Z) :=
  (0, Pidfile (f_op_pidfd f) None,
   match private_data f with Some p => bump p (-1) pid_users | None => pid_users end).

(** What is written: a decimal after a literal, or a character. *)
Inductive piece := Decimal (before : list Z) (n : Z) | Putc (c : Z).
Definition str_tab : list Z := [9].                                    (* "\t" *)
Definition str_Pid : list Z := [80; 105; 100; 58; 9].                  (* "Pid:\t" *)
Definition str_NSpid : list Z := [10; 78; 83; 112; 105; 100; 58; 9].   (* "\nNSpid:\t" *)

(** The loop over the levels below the first; [None] would be a read past [numbers]. *)
Fixpoint show_levels (fuel : nat) (numbers : list upid) (i level : Z) : option (list piece) :=
  match fuel with
  | O => None
  | S fuel =>
      if level <? i then Some []
      else
        match numbers !! Z.to_nat i, show_levels fuel numbers (i + 1) level with
        | Some u, Some l => Some (Decimal str_tab (nr u) :: l)
        | _, _ => None
        end
  end.

(** [has_task]: a task still has the pid; [pid_nr_ns]: its number in the namespace of the
    proc instance, whose level is [ns_level]; the pid's own level is [level]. *)
Definition pidfd_show_fdinfo (has_task : bool) (pid_nr_ns ns_level level : Z) (numbers : list upid) : option (list piece) :=
  let nr := if has_task then pid_nr_ns else -1 in
  let rest := if 0 <? nr then show_levels (Z.to_nat (level - ns_level) + 1) numbers (ns_level + 1) level else Some [] in
  match rest with
  | Some l => Some (Decimal str_Pid nr :: Decimal str_NSpid nr :: l ++ [Putc 10])
  | None => None
  end.

Definition EPOLLIN : Z := 1.
Definition EPOLLRDNORM : Z := 64.
Definition pidfd_poll (thread_group_exited : bool) : Z := if thread_group_exited then Z.lor EPOLLIN EPOLLRDNORM else 0.
End TaskRefs.
