(* ===== verification/Vfork.v ===== *)
(** * The handshake of [vfork] ([kernel/fork.c])

    The parent of a [CLONE_VFORK] child sleeps in [kernel_clone] on a completion in its own
    stack frame, to which the child's [vfork_done] points; the child completes it from
    [mm_release].  Both run at once, a fatal signal can take the parent out of its sleep at
    any time, and the child can be reaped before the parent looks at it again.  Each thread is
    a step function over its program counter, one step per access to what they share;
    an access to a task that has been freed or to a frame that has been left sets [fault]. *)
From S2P Require Import Prelude.

Module Vfork.

(** A child leaves the address space by starting a program or by exiting. *)
Inductive leave := Exec | Exit.
Inductive who := Tparent | Tchild.
#[export] Instance who_eq_dec : EqDecision who.
Proof. solve_decision. Defined.

(** [kernel_clone] after [copy_process], with [wait_for_vfork_done] from [P_wait] to [P_put]. *)
Inductive parent_pc :=
  | P_set | P_init | P_get | P_wake | P_trace
  | P_wait | P_lock | P_clear | P_unlock | P_put (killed : bool)
  | P_event (killed : bool) | P_returned (killed : bool).

(** The child in user space; [mm_release] from [C_tid], [complete_vfork_done] from [C_lock]. *)
Inductive child_pc :=
  | C_new | C_user
  | C_tid (l : leave) | C_test (l : leave)
  | C_lock (l : leave) | C_read (l : leave) | C_null (l : leave) | C_complete (l : leave) | C_unlock (l : leave)
  | C_exited | C_gone.

(** The child's [task_struct]: [vfork_done] tells whether it points to the parent's completion. *)
Record task := Task {
  vfork_done : bool; usage : Z; alloc_lock : option who; clear_child_tid : Z
}.

(** [completion] is the [done] field of the parent's [vfork], [None] once the frame is left;
    [left]: the child has entered [mm_release]; [woken]: the thread ids cleared and woken. *)
Record world := World {
  parent : parent_pc; child : child_pc; tsk : task; completion : option Z;
  fatal : bool; execs : nat; left : bool; woken : list Z; events : list Z; fault : bool
}.

Definition to_parent pc w := World pc (child w) (tsk w) (completion w) (fatal w) (execs w) (left w) (woken w) (events w) (fault w).
Definition to_child pc w := World (parent w) pc (tsk w) (completion w) (fatal w) (execs w) (left w) (woken w) (events w) (fault w).
Definition with_completion d w := World (parent w) (child w) (tsk w) d (fatal w) (execs w) (left w) (woken w) (events w) (fault w).
Definition with_events l w := World (parent w) (child w) (tsk w) (completion w) (fatal w) (execs w) (left w) (woken w) l (fault w).
Definition with_woken l w := World (parent w) (child w) (tsk w) (completion w) (fatal w) (execs w) (left w) l (events w) (fault w).
Definition leaving n w := World (parent w) (child w) (tsk w) (completion w) (fatal w) n true (woken w) (events w) (fault w).
Definition signalled w := World (parent w) (child w) (tsk w) (completion w) true (execs w) (left w) (woken w) (events w) (fault w).

(** An access to the child's task. *)
Definition on_task (f : task -> task) w :=
  World (parent w) (child w) (f (tsk w)) (completion w) (fatal w) (execs w) (left w) (woken w) (events w)
    (fault w || (usage (tsk w) <=? 0)).
Definition set_done b t := Task b (usage t) (alloc_lock t) (clear_child_tid t).
Definition add_usage d t := Task (vfork_done t) (usage t + d) (alloc_lock t) (clear_child_tid t).
Definition set_lock o t := Task (vfork_done t) (usage t) o (clear_child_tid t).
Definition set_tid a t := Task (vfork_done t) (usage t) (alloc_lock t) a.

(** [complete] through the pointer of the child. *)
Definition complete w :=
  match completion w with
  | Some d => with_completion (Some (d + 1)) w
  | None => World (parent w) (child w) (tsk w) None (fatal w) (execs w) (left w) (woken w) (events w) true
  end.

(** [task_lock] of the child, when nobody holds it. *)
Definition task_lock (me : who) w : option world :=
  match alloc_lock (tsk w) with None => Some (on_task (set_lock (Some me)) w) | Some _ => None end.
Definition task_unlock w := on_task (set_lock None) w.

Definition PTRACE_EVENT_VFORK_DONE : Z := 5.

(** [wait_for_completion_state] in a killable sleep: whether the sleep was killed, once it ends. *)
Definition wait_for_completion w : option (bool * world) :=
  match completion w with
  | Some d => if 0 <? d then Some (false, with_completion (Some (d - 1)) w)
              else if fatal w then Some (true, w) else None
  | None => None
  end.

(** [complete_vfork_done], step by step, on behalf of a child that leaves by [l]. *)
Definition after (l : leave) : child_pc := match l with Exec => C_user | Exit => C_exited end.

Definition complete_vfork_done (l : leave) w : option world :=
  match child w with
  | C_lock _ => (fun w => to_child (C_read l) w) <$> task_lock Tchild w
  | C_read _ => Some (to_child (if vfork_done (tsk w) then C_null l else C_unlock l) (on_task id w))
  | C_null _ => Some (to_child (C_complete l) (on_task (set_done false) w))
  | C_complete _ => Some (to_child (C_unlock l) (complete w))
  | C_unlock _ => Some (to_child (after l) (task_unlock w))
  | _ => None
  end.

(** [mm_release]; [users] is what it reads of [mm_users]. *)
Definition mm_release (l : leave) (users : Z) w : option world :=
  match child w with
  | C_tid _ =>
      let a := clear_child_tid (tsk w) in
      let w' := if negb (a =? 0) then
                  on_task (set_tid 0) (if 1 <? users then with_woken (woken w ++ [a]) w else w)
                else w in
      Some (to_child (C_test l) w')
  | C_test _ => Some (to_child (if vfork_done (tsk w) then C_lock l else after l) (on_task id w))
  | _ => complete_vfork_done l w
  end.

(** The child as a whole: in user space it chooses to leave, and can start finitely many programs. *)
Definition child_step (l : leave) (users : Z) w : option world :=
  match child w with
  | C_user =>
      match l, execs w with
      | Exec, S n => Some (to_child (C_tid Exec) (leaving n w))
      | Exec, O => None
      | Exit, n => Some (to_child (C_tid Exit) (leaving n w))
      end
  | C_tid l | C_test l | C_lock l | C_read l | C_null l | C_complete l | C_unlock l => mm_release l users w
  | C_new | C_exited | C_gone => None
  end.

(** [wait_for_vfork_done]. *)
Definition wait_for_vfork_done w : option world :=
  match parent w with
  | P_wait => (fun '(killed, w) => to_parent (if killed : bool then P_lock else P_put false) w) <$> wait_for_completion w
  | P_lock => (fun w => to_parent P_clear w) <$> task_lock Tparent w
  | P_clear => Some (to_parent P_unlock (on_task (set_done false) w))
  | P_unlock => Some (to_parent (P_put true) (task_unlock w))
  | P_put killed => Some (to_parent (P_event killed) (on_task (add_usage (-1)) w))
  | _ => None
  end.

(** [kernel_clone] from the new task on; [trace] is the event to report. *)
Definition parent_step (trace : Z) w : option world :=
  match parent w with
  | P_set => Some (to_parent P_init (on_task (set_done true) w))
  | P_init => Some (to_parent P_get (with_completion (Some 0) w))
  | P_get => Some (to_parent P_wake (on_task (add_usage 1) w))
  | P_wake => Some (to_parent P_trace (to_child C_user (on_task id w)))
  | P_trace => Some (to_parent P_wait (if negb (trace =? 0) then with_events (events w ++ [trace]) w else w))
  | P_event killed =>
      let w := if killed then w else with_events (events w ++ [PTRACE_EVENT_VFORK_DONE]) w in
      Some (to_parent (P_returned killed) (with_completion None w))
  | P_returned _ => None
  | _ => wait_for_vfork_done w
  end.

(** A fatal signal for the parent; the last reference of the exited child goes when it is reaped. *)
Inductive act := Parent | Child (l : leave) (users : Z) | Fatal | Reap.

Definition step (trace : Z) (a : act) w : option world :=
  match a with
  | Parent => parent_step trace w
  | Child l users => child_step l users w
  | Fatal => if fatal w then None else Some (signalled w)
  | Reap => match child w with C_exited => Some (to_child C_gone (on_task (add_usage (-1)) w)) | _ => None end
  end.

(** What [copy_process] returns: one reference, no completion yet, a frame with any content. *)
Definition cloned (tid junk : Z) (n : nat) : world :=
  World P_set C_new (Task false 1 None tid) (Some junk) false n false [] [] false.
End Vfork.
