(* ===== verification/VforkSpec.v ===== *)
(** * The handshake of [vfork] is safe and ends

    However parent and child interleave, with or without a fatal signal, neither touches
    freed memory, the parent resumes only after the child has left the address space or
    after a fatal signal, and both come to their end with every reference given back. *)
From S2P Require Import Prelude Vfork.

Module VforkSpec.
Import Vfork.

(** ** Who holds what, by program counter *)

Definition before (p : parent_pc) : bool :=
  match p with P_set | P_init | P_get | P_wake => true | _ => false end.
Definition is_new (c : child_pc) : bool := match c with C_new => true | _ => false end.
Definition parent_ref (p : parent_pc) : Z :=
  match p with P_set | P_init | P_get | P_event _ | P_returned _ => 0 | _ => 1 end.
Definition own_ref (c : child_pc) : Z := match c with C_gone => 0 | _ => 1 end.
Definition parent_crit (p : parent_pc) : bool := match p with P_clear | P_unlock => true | _ => false end.
Definition child_crit (c : child_pc) : bool :=
  match c with C_read _ | C_null _ | C_complete _ | C_unlock _ => true | _ => false end.
Definition completing (c : child_pc) : bool := match c with C_complete _ => true | _ => false end.
Definition owner (p : parent_pc) (c : child_pc) : option who :=
  if child_crit c then Some Tchild else if parent_crit p then Some Tparent else None.

Definition killed_path (p : parent_pc) : bool :=
  match p with P_lock | P_clear | P_unlock => true | P_put k | P_event k | P_returned k => k | _ => false end.

(** The pointer and the counter it leads to, as the parent goes along. *)
Definition parent_sees (w : world) : Prop :=
  let v := vfork_done (tsk w) in
  match parent w with
  | P_set => v = false /\ completion w <> None
  | P_init => v = true /\ completion w <> None
  | P_get | P_wake => v = true /\ completion w = Some 0
  | P_trace | P_wait | P_lock | P_clear =>
      if completing (child w) then v = false /\ completion w = Some 0
      else v = true /\ completion w = Some 0 \/ v = false /\ completion w = Some 1 /\ left w = true
  | P_unlock | P_put true | P_event true => v = false /\ completion w <> None /\ completing (child w) = false
  | P_put false | P_event false => v = false /\ completion w <> None /\ completing (child w) = false /\ left w = true
  | P_returned k => v = false /\ completion w = None /\ completing (child w) = false /\ (k = false -> left w = true)
  end.

(** What the child knows. *)
Definition child_sees (w : world) : Prop :=
  let v := vfork_done (tsk w) in
  match child w with
  | C_new => left w = false
  | C_user => left w = true -> v = false
  | C_tid _ | C_test _ | C_lock _ | C_read _ => left w = true
  | C_null _ => left w = true /\ v = true
  | C_complete _ | C_unlock _ | C_exited | C_gone => left w = true /\ v = false
  end.

Record inv (w : world) : Prop := {
  inv_fault : fault w = false;
  inv_usage : usage (tsk w) = own_ref (child w) + parent_ref (parent w);
  inv_lock : alloc_lock (tsk w) = owner (parent w) (child w);
  inv_excl : child_crit (child w) && parent_crit (parent w) = false;
  inv_new : is_new (child w) = before (parent w);
  inv_killed : killed_path (parent w) = true -> fatal w = true;
  inv_parent : parent_sees w;
  inv_child : child_sees w
}.

Lemma cloned_inv tid junk n : inv (cloned tid junk n).
Proof. by split. Qed.

(** Case analysis on what a computed step depends on. *)
Ltac run_step :=
  unfold wait_for_completion, task_lock, complete, after in *; cbn in *;
  repeat (match goal with
  | H : None = Some _ |- _ => discriminate H
  | H : Some _ = Some _ |- _ => injection H as <-
  | H : context [match ?x with _ => _ end] |- _ => is_var x; destruct x
  | H : context [?a <? ?b] |- _ => destruct (Z.ltb_spec a b)
  | |- context [?a =? ?b] => destruct (Z.eqb_spec a b)
  | |- context [?a <? ?b] => destruct (Z.ltb_spec a b)
  | |- context [match ?x with _ => _ end] => is_var x; destruct x
  end; cbn in *).

(** The invariant after a computed step. *)
Ltac settle :=
  run_step; split; unfold parent_sees, child_sees in *; cbn in *; try done; try lia;
  repeat (destruct_and?; destruct_or?); simplify_eq; try done; try lia; auto.

Section step.
Context (trace : Z).

Lemma parent_step_inv w w' : inv w -> parent_step trace w = Some w' -> inv w'.
Proof.
  destruct w as [p c [v u k tid] d ft n lf wk ev fl]. intros [Hf Hu Hl Hx Hn Hk Hp Hc] Hs.
  unfold parent_sees, child_sees in Hp, Hc. cbn in *. subst fl u k.
  destruct p; cbn in *; destruct c; try discriminate; cbn in *.
  all: settle.
Qed.

Lemma child_step_inv l users w w' : inv w -> child_step l users w = Some w' -> inv w'.
Proof.
  destruct w as [p c [v u k tid] d ft n lf wk ev fl]. intros [Hf Hu Hl Hx Hn Hk Hp Hc] Hs.
  unfold parent_sees, child_sees in Hp, Hc. cbn in *. subst fl u k.
  destruct c; cbn in *; destruct p; try discriminate; cbn in *.
  all: settle.
Qed.

Lemma handshake_step_inv a w w' : inv w -> step trace a w = Some w' -> inv w'.
Proof.
  intros Hi Hs. destruct a as [|l users| |].
  - by eapply parent_step_inv.
  - by eapply child_step_inv.
  - cbn in Hs. destruct (fatal w) eqn:Hft; [done|]. injection Hs as <-. destruct Hi as [Hf Hu Hl Hx Hn Hk Hp Hc].
    by split.
  - destruct w as [p c [v u k tid] d ft n lf wk ev fl]. destruct Hi as [Hf Hu Hl Hx Hn Hk Hp Hc].
    cbn in *. subst fl u k. destruct c; try discriminate. injection Hs as <-.
    split; cbn; try done; destruct p; cbn in *; try done; lia.
Qed.

(** ** Every run ends *)

Definition parent_rank (p : parent_pc) : nat :=
  match p with
  | P_set => 11 | P_init => 10 | P_get => 9 | P_wake => 8 | P_trace => 7 | P_wait => 6 | P_lock => 5
  | P_clear => 4 | P_unlock => 3 | P_put _ => 2 | P_event _ => 1 | P_returned _ => 0
  end.
Definition leave_rank (l : leave) : nat := match l with Exec => 10 | Exit => 0 end.
Definition child_rank (c : child_pc) : nat :=
  match c with
  | C_new | C_user => 10 | C_tid l => 9 + leave_rank l | C_test l => 8 + leave_rank l
  | C_lock l => 7 + leave_rank l | C_read l => 6 + leave_rank l | C_null l => 5 + leave_rank l
  | C_complete l => 4 + leave_rank l | C_unlock l => 3 + leave_rank l | C_exited => 1 | C_gone => 0
  end.
Definition rank (w : world) : nat :=
  parent_rank (parent w) + child_rank (child w) + 10 * execs w + (if fatal w then 0 else 1).

Lemma step_rank a w w' : inv w -> step trace a w = Some w' -> (rank w' < rank w)%nat.
Proof.
  destruct w as [p c [v u k tid] d ft n lf wk ev fl]. intros [_ _ _ _ Hn _ _ _] Hs. unfold rank. cbn in Hn.
  destruct a as [|l users| |]; cbn in Hs.
  - destruct p, c; cbn in *; try discriminate; run_step; lia.
  - destruct c; cbn in *; try discriminate; run_step; lia.
  - run_step; lia.
  - destruct c; try discriminate; run_step; lia.
Qed.

(** A step that does not wait for a signal: of a thread, or reaping. *)
Definition moves (w : world) : Prop := exists a w', a <> Fatal /\ step trace a w = Some w'.

Definition settled (w : world) : Prop :=
  (exists killed, parent w = P_returned killed) /\ child w = C_gone /\ usage (tsk w) = 0.

Lemma child_moves w :
  inv w -> child w <> C_new -> child w <> C_exited -> child w <> C_gone ->
  parent_crit (parent w) = false -> moves w.
Proof.
  intros [_ _ Hl _ _ _ _ _] Hn He Hg Hp. exists (Child Exit 0).
  destruct w as [p c [v u k tid] d ft n lf wk ev fl]. cbn in *. subst k. unfold owner. rewrite Hp.
  destruct c; cbn; try done; by eexists.
Qed.

Lemma not_stuck w : inv w -> settled w \/ moves w.
Proof.
  intros Hi. destruct (parent_crit (parent w)) eqn:Hpc.
  { right. exists Parent. destruct w as [p c t d ft n lf wk ev fl]. destruct p; try done; by eexists. }
  destruct (child w) eqn:Hcw; try (right; apply child_moves; by rewrite ?Hcw).
  - right. exists Parent. destruct w as [p c t d ft n lf wk ev fl]. pose proof (inv_new _ Hi) as Hn.
    cbn in *. subst c. destruct p; try done; by eexists.
  - right. exists Reap. eexists. split; [done|]. cbn. by rewrite Hcw.
  - pose proof (inv_parent _ Hi) as Hp. pose proof (inv_child _ Hi) as Hc. pose proof (inv_lock _ Hi) as Hl.
    pose proof (inv_usage _ Hi) as Hu. destruct w as [p c [v u k tid] d ft n lf wk ev fl].
    unfold parent_sees, child_sees in *. cbn in *. subst c k. destruct Hc as [-> ->].
    destruct p; cbn in *; try discriminate; try (right; exists Parent; by eexists); [|left; by split; [eexists|]].
    right. exists Parent. destruct Hp as [[]|(_ & -> & _)]; [done|]. by eexists.
Qed.

(** Every run comes to [P], whatever a signal does, and no run waits for a signal to get there. *)
Inductive eventually (P : world -> Prop) (w : world) : Prop :=
  | now : P w -> eventually P w
  | later : moves w -> (forall a w', step trace a w = Some w' -> eventually P w') -> eventually P w.

Lemma inv_eventually w : inv w -> eventually settled w.
Proof.
  remember (rank w) as k eqn:Hk. revert w Hk. induction k as [k IH] using lt_wf_ind. intros w -> Hi.
  destruct (not_stuck w Hi) as [Hw|Hw]; [by apply now|].
  apply later; [done|]. intros a w' Hs. by apply (IH (rank w')); [eapply step_rank| |eapply handshake_step_inv].
Qed.

(** The states of a [vfork] whose child may start [n] programs before it exits. *)
Definition reached (tid junk : Z) (n : nat) : world -> Prop :=
  rtc (fun w w' => exists a, step trace a w = Some w') (cloned tid junk n).

Lemma reached_inv tid junk n w : reached tid junk n w -> inv w.
Proof.
  intros H. pose proof (cloned_inv tid junk n) as H0. unfold reached in H.
  induction H as [|w0 w1 w2 [a Hs] _ IH]; [done|]. by eapply IH, handshake_step_inv.
Qed.

(** C34. However parent and child of a [vfork] interleave, and whenever a fatal signal comes:
    neither touches a task that was freed or a frame that was left; the parent returns
    undisturbed only after the child has entered [mm_release], and otherwise only after a
    fatal signal; once it has returned the child cannot reach its frame; the references of
    the child's task are its own, until it is reaped, and the parent's, while it waits. *)
Theorem vfork_handshake_safe tid junk n w :
  reached tid junk n w ->
  fault w = false /\
  (parent w = P_returned false -> left w = true) /\
  (parent w = P_returned true -> fatal w = true) /\
  (completion w = None -> vfork_done (tsk w) = false /\ completing (child w) = false) /\
  usage (tsk w) = own_ref (child w) + parent_ref (parent w) /\
  alloc_lock (tsk w) = owner (parent w) (child w).
Proof.
  intros Hr. apply reached_inv in Hr. destruct Hr as [Hf Hu Hl Hx Hn Hk Hp Hc]. unfold parent_sees in Hp.
  split_and!; try done.
  - intros Hw. rewrite Hw in Hp. destruct_and!. by eauto.
  - intros Hw. apply Hk. by rewrite Hw.
  - destruct (parent w) as [| | | | | | | | |[]|[]|k], (completing (child w)); intros Hn0; rewrite ?Hn0 in Hp; intuition congruence.
Qed.

(** However parent and child interleave, both come to their end: from every state of a
    [vfork] every run ends, in finitely many steps, with the parent back in user space, the
    child reaped and its task freed, and no run depends on a signal for that. *)
Theorem vfork_parent_resumes tid junk n w : reached tid junk n w -> eventually settled w.
Proof. intros Hr. by eapply inv_eventually, reached_inv. Qed.
End step.
End VforkSpec.

(** ** A child that starts a program while its parent is killed *)
Module VforkDemo.
Import Vfork VforkSpec.

Fixpoint run (trace : Z) (l : list act) (w : world) : option world :=
  match l with [] => Some w | a :: l => match step trace a w with Some w => run trace l w | None => None end end.

Lemma run_reached trace l w w' : run trace l w = Some w' -> rtc (fun w w' => exists a, step trace a w = Some w') w w'.
Proof.
  revert w. induction l as [|a l IH]; intros w; cbn; [by intros [= ->]|].
  destruct (step trace a w) as [w1|] eqn:Hs; [|done]. intros H. eapply rtc_l; [by exists a|by apply IH].
Qed.

(** The signal arrives when the child holds the lock and is about to complete. *)
Definition late_kill : list act :=
  replicate 5 Parent ++ replicate 6 (Child Exec 2) ++
  [Fatal; Parent; Child Exec 2; Child Exec 2] ++ replicate 5 Parent.

Lemma vfork_handshake_safe_witness : exists w,
  run 2 late_kill (cloned 77 (-1) 1) = Some w /\ parent w = P_returned true /\ child w = C_user /\
  woken w = [77] /\ events w = [2] /\ fault w = false /\ usage (tsk w) = 1.
Proof.
  destruct (run 2 late_kill (cloned 77 (-1) 1)) as [w|] eqn:Hr; [|by vm_compute in Hr].
  destruct (vfork_handshake_safe 2 77 (-1) 1 w (run_reached _ _ _ _ Hr)) as (Hf & _ & _ & _ & Hu & _).
  exists w. vm_compute in Hr. injection Hr as <-. split_and!; try reflexivity; assumption.
Defined.

(** The undisturbed run: the child starts a program, exits and is reaped. *)
Definition quiet : list act :=
  replicate 5 Parent ++ replicate 8 (Child Exec 1) ++ replicate 3 Parent ++ replicate 3 (Child Exit 1) ++ [Reap].

Lemma quiet_settles :
  option_map (fun w => (parent w, child w, usage (tsk w), woken w, events w, fault w)) (run 0 quiet (cloned 0 7 1)) =
  Some (P_returned false, C_gone, 0, [], [PTRACE_EVENT_VFORK_DONE], false).
Proof. vm_compute. reflexivity. Qed.
End VforkDemo.
