(* ===== verification/TaskRefsSpec.v ===== *)
(** * References through a task are balanced

    However address spaces are looked up, inspected and put, each is torn down exactly once and
    only after its last user; a refused access leaves everything as it was; a child is never
    less confined by its filter than its parent; a pidfd lists the numbers of its pid from the
    reader's namespace down. *)
From S2P Require Import Prelude Fork TaskRefs.

Module TaskRefsSpec.
Import TaskRefs.

Lemma bump_bump k a b f x : bump k a (bump k b f) x = bump k (a + b) f x.
Proof. unfold bump. destruct (_ =? _); lia. Qed.
Lemma bump_zero k f x : bump k 0 f x = f x.
Proof. unfold bump. destruct (_ =? _); lia. Qed.

(** States that count the same. *)
Record same (s s' : refs) : Prop := {
  same_users x : mm_users s' x = mm_users s x; same_torn : torn s' = torn s; same_queued : queued s' = queued s;
  same_files x : file_refs s' x = file_refs s x; same_readers x : readers s' x = readers s x
}.
#[export] Instance same_equivalence : Equivalence same.
Proof. split; [by split|intros s s' []; by split|]. intros s s1 s2 [] []. split; congruence. Qed.

(** A task keeps a user of its address space. *)
Definition live (t : utask) s : Prop := forall m, mm t = Some m -> 0 < mm_users s m.

(** [mm_access] fails and leaves everything as it was, for a signal or for lack of permission;
    or there is no address space to give; or it gives the one of the task with one more
    user, and only where ptrace permits it or it is the caller's own. *)
Theorem mm_access_spec interrupted may cur t s r s' :
  live t s -> mm_access interrupted may cur t s = (r, s') ->
  (r = inl interrupted /\ interrupted <> 0 /\ s' = s) \/
  (r = inl (- EACCES) /\ may = false /\ same s s') \/
  (r = inr None /\ same s s') \/
  (exists m, r = inr (Some m) /\ mm t = Some m /\ (may = true \/ Some m = cur) /\ same (mmget m s) s').
Proof.
  intros Hl. unfold mm_access, get_task_mm.
  destruct (Z.eqb_spec interrupted 0) as [->|Hi]; cbn [negb]; [|intros [= <- <-]; by left].
  assert (Hb : forall d x, bump (signal t) (-1) (bump (signal t) d (readers s)) x = bump (signal t) (-1 + d) (readers s) x)
    by (intros; apply bump_bump).
  destruct (mm t) as [m|] eqn:Hm.
  2: { intros [= <- <-]. right; right; left. split; [done|]. split; try done. intros x. cbn. by rewrite Hb, bump_zero. }
  destruct (flag_set _ _).
  { intros [= <- <-]. right; right; left. split; [done|]. split; try done. intros x. cbn. by rewrite Hb, bump_zero. }
  destruct (bool_decide_reflect (Some m = cur)) as [Hc|Hc], may; cbn;
    try (intros [= <- <-]; do 3 right; exists m; split_and!; [done|done|auto|];
         split; try done; intros x; cbn; by rewrite Hb, bump_zero).
  unfold mmput, dec_and_test. cbn. specialize (Hl m Hm).
  rewrite (proj2 (Z.eqb_neq _ 0)) by (unfold bump; rewrite Z.eqb_refl; lia).
  intros [= <- <-]. right; left. split_and!; try done.
  split; try done; intros x; cbn; [by rewrite bump_bump, bump_zero|by rewrite Hb, bump_zero].
Qed.

(** ** One teardown for each address space *)

Inductive use : refs -> refs -> Prop :=
  | Look t s : live t s -> use s (get_task_mm t s).2
  | Access i may cur t s : live t s -> use s (mm_access i may cur t s).2
  | Exe exe t s : use s (get_task_exe_file exe t s).2
  | Put m s : 0 < mm_users s m -> use s (mmput m s)
  | Put_async m s : 0 < mm_users s m -> use s (mmput_async m s)
  | Work s : use s (mmput_async_fn s).

Definition ends (m : Z) (s : refs) : nat := length (filter (m =.) (torn s ++ queued s)).

(** Torn down, or about to be, exactly when nobody uses it any more. *)
Definition counted (m : Z) (s : refs) : Prop :=
  0 <= mm_users s m /\ ends m s = if mm_users s m =? 0 then 1%nat else 0%nat.

Lemma counted_same m s s' : same s s' -> counted m s -> counted m s'.
Proof. intros [Hu Ht Hq _ _]. unfold counted, ends. by rewrite Hu, Ht, Hq. Qed.

Lemma counted_get m m' s : 0 < mm_users s m' -> counted m s -> counted m (mmget m' s).
Proof.
  intros Hp [H0 He]. unfold counted, ends in *. cbn. unfold bump. destruct (Z.eqb_spec m m') as [<-|]; [|done].
  split; [lia|]. rewrite He. by rewrite !(proj2 (Z.eqb_neq _ 0)) by lia.
Qed.

(** A put adds one end exactly when it was the last. *)
Lemma counted_put m m' s t q :
  0 < mm_users s m' -> counted m s ->
  (t ++ q) ≡ₚ (if mm_users s m' - 1 =? 0 then m' :: torn s ++ queued s else torn s ++ queued s) ->
  forall f r, counted m (Refs (bump m' (-1) (mm_users s)) t q f r).
Proof.
  intros Hp [H0 He] HP f r. unfold counted, ends in *. cbn. rewrite HP. unfold bump.
  destruct (Z.eqb_spec m m') as [<-|Hne].
  - rewrite (proj2 (Z.eqb_neq (mm_users s m) 0)) in He by lia. split; [lia|].
    replace (mm_users s m + -1) with (mm_users s m - 1) by lia. destruct (_ =? 0); [|done].
    rewrite filter_cons_True by done. cbn. by rewrite He.
  - split; [done|]. destruct (_ - 1 =? 0); [|done]. by rewrite filter_cons_False.
Qed.

Lemma use_counted m s s' : use s s' -> counted m s -> counted m s'.
Proof.
  intros Hu Hc. destruct Hu as [t s Hl|i may cur t s Hl|exe t s|m' s Hp|m' s Hp|s].
  - unfold get_task_mm. destruct (mm t) as [m'|] eqn:Hm; [|done]. destruct (flag_set _ _); [done|].
    apply counted_get; auto.
  - destruct (mm_access i may cur t s) as [r s'] eqn:Ha. cbn.
    destruct (mm_access_spec _ _ _ _ _ _ _ Hl Ha) as [(_ & _ & ->)|[(_ & _ & Hs)|[(_ & Hs)|(m' & _ & Hm & _ & Hs)]]];
      [done|by eapply counted_same|by eapply counted_same|].
    eapply counted_same; [done|]. apply counted_get; auto.
  - unfold get_task_exe_file, get_mm_exe_file. destruct (mm t) as [m'|]; [|done].
    destruct (flag_set _ _); [done|]. cbn. by destruct (exe m').
  - unfold mmput, dec_and_test. destruct (_ =? 0) eqn:E; apply counted_put; try done; rewrite E; cbn; [|done].
    rewrite <- app_assoc. cbn. by rewrite <- Permutation_middle.
  - unfold mmput_async, dec_and_test. destruct (_ =? 0) eqn:E; apply counted_put; try done; rewrite E; cbn; [|done].
    by rewrite app_assoc, <- Permutation_cons_append.
  - unfold mmput_async_fn. destruct (queued s) as [|m' q] eqn:Hq; [done|]. destruct Hc as [H0 He].
    unfold counted, ends in *. cbn. rewrite Hq in He. by rewrite <- app_assoc.
Qed.

(** However an address space is looked up, inspected and put, directly or by the worker:
    it is torn down, or its teardown is queued, exactly once when its last user is gone
    and never before. *)
Theorem mm_torn_down_once m s s' :
  0 < mm_users s m -> m ∉ torn s ++ queued s -> rtc use s s' ->
  0 <= mm_users s' m /\ ends m s' = (if mm_users s' m =? 0 then 1%nat else 0%nat).
Proof.
  intros Hp Hn Hr. assert (Hc : counted m s).
  { split; [lia|]. rewrite (proj2 (Z.eqb_neq _ 0)) by lia. unfold ends.
    induction (torn s ++ queued s) as [|x l IH]; [done|]. apply not_elem_of_cons in Hn as [Hx Hn].
    rewrite filter_cons_False by done. by apply IH. }
  clear Hp Hn. change (counted m s'). induction Hr as [|s s1 s2 Hs _ IH]; [done|]. by apply IH, (use_counted m s).
Qed.

(** ** The filter of a child *)

(** A child has its parent's filter, counted once more; it runs under it whenever the
    parent does, and cannot gain privileges where the parent cannot. *)
Theorem copy_seccomp_confines cur p fu p' fu' :
  copy_seccomp cur p fu = (p', fu') ->
  seccomp_mode p' = seccomp_mode cur /\ seccomp_filter p' = seccomp_filter cur /\
  (seccomp_mode cur <> SECCOMP_MODE_DISABLED -> work_seccomp p' = true) /\
  (no_new_privs cur = true \/ no_new_privs p = true -> no_new_privs p' = true) /\
  (forall f, fu' f = fu f + if bool_decide (seccomp_filter cur = Some f) then 1 else 0).
Proof.
  unfold copy_seccomp. intros [= <- <-]. destruct cur as [mode fl nnp wk]; cbn.
  destruct nnp; cbn; destruct (Z.eqb_spec mode SECCOMP_MODE_DISABLED); cbn; split_and!; try done; try naive_solver.
  all: intros f; destruct fl as [g|]; [unfold bump|]; cbn; [destruct (Z.eqb_spec f g)|]; case_bool_decide; simplify_eq; lia.
Qed.

(** ** What a pidfd shows *)

Lemma show_levels_spec fuel numbers i level :
  0 <= i -> Z.of_nat (length numbers) = level + 1 -> (Z.to_nat (level + 1 - i) < fuel)%nat ->
  show_levels fuel numbers i level = Some ((fun u => Decimal str_tab (nr u)) <$> drop (Z.to_nat i) numbers).
Proof.
  intros Hi Hlen. revert i Hi. induction fuel as [|fuel IH]; intros i Hi Hf; [lia|]. cbn.
  destruct (Z.ltb_spec level i).
  { rewrite drop_ge by lia. done. }
  destruct (lookup_lt_is_Some_2 numbers (Z.to_nat i)) as [u Hu]; [lia|]. rewrite Hu, IH by lia.
  rewrite (drop_S _ u (Z.to_nat i)) by done. by replace (Z.to_nat (i + 1)) with (S (Z.to_nat i)) by lia.
Qed.

(** For a pid that a task still has and that the reader's namespace numbers, the file lists
    the number in that namespace and then the numbers from that namespace down to the pid's
    own; otherwise one entry that is not positive.  No number past the last is read. *)
Theorem pidfd_fdinfo_spec has_task n ns_level level numbers :
  0 <= ns_level -> Z.of_nat (length numbers) = level + 1 ->
  (0 < n -> exists u, numbers !! Z.to_nat ns_level = Some u /\ nr u = n) ->
  pidfd_show_fdinfo has_task n ns_level level numbers =
  Some (if has_task && (0 <? n)
        then Decimal str_Pid n :: Decimal str_NSpid n ::
             ((fun u => Decimal str_tab (nr u)) <$> drop (Z.to_nat ns_level + 1) numbers) ++ [Putc 10]
        else let nr := if has_task then n else -1 in [Decimal str_Pid nr; Decimal str_NSpid nr; Putc 10]).
Proof.
  intros Hns Hlen Hn. unfold pidfd_show_fdinfo. destruct has_task; cbn; [|done].
  destruct (Z.ltb_spec 0 n) as [Hp|]; [|done]. destruct (Hn Hp) as (u & Hu & _). apply lookup_lt_Some in Hu.
  rewrite show_levels_spec by lia.
  by replace (Z.to_nat (ns_level + 1)) with (Z.to_nat ns_level + 1)%nat by lia.
Qed.
End TaskRefsSpec.

(** ** Two users and a worker *)
Module TaskRefsDemo.
Import TaskRefs TaskRefsSpec.

Definition one_mm : refs := Refs (fun m => if m =? 5 then 1 else 0) [] [] (fun _ => 0) (fun _ => 0).

Example put_async_last :
  let s := mmput_async 5 (mmput 5 (get_task_mm (Utask (Some 5) 0 9) one_mm).2) in
  (mm_users s 5, torn s, queued s, torn (mmput_async_fn s)) = (0, [], [5], [5]).
Proof. reflexivity. Qed.

Example refused_access :
  let '(r, s) := mm_access 0 false (Some 6) (Utask (Some 5) 0 9) one_mm in
  (r, mm_users s 5, readers s 9, torn s) = (inl (- EACCES), 1, 0, []).
Proof. reflexivity. Qed.

Example fdinfo_two_levels :
  pidfd_show_fdinfo true 40 1 2 [Upid 900 1; Upid 40 2; Upid 1 3] =
  Some [Decimal str_Pid 40; Decimal str_NSpid 40; Decimal str_tab 1; Putc 10].
Proof. reflexivity. Qed.
End TaskRefsDemo.
