(* ===== verification/TaskLife.v ===== *)
(** * The end of tasks and of what they share ([kernel/fork.c])

    A task structure is freed with its last reference, and with it go the references it has on
    its [signal_struct] and its handlers; a [signal_struct] may hold the address space of an
    OOM victim, which is then dropped by a worker; before an address space is freed no CPU may
    use it any more as its lazy one.  An access to an object that was freed sets [bad]. *)
From S2P Require Import Prelude Fork.

Module TaskLife.
Import Fork.

Record tsk := Tsk { usage : Z; signal : Z; sighand : option Z; exit_state : bool }.
Record sigst := Sigst { sigcnt : Z; oom_mm : option Z; oom_score_adj : Z; oom_score_adj_min : Z }.

(** [mms]: the [mm_count] of each address space; [active]: the [active_mm] of each CPU whose task
    has no [mm] of its own; [work]: what [mmdrop_async] queued; [others]: the references on an
    address space that are held elsewhere. *)
Record world := World {
  tasks : gmap Z tsk; signals : gmap Z sigst; sighands : gmap Z Z; mms : gmap Z Z;
  active : gmap Z Z; mm_cpumask : Z -> list Z; work : list Z; others : Z -> Z; bad : bool
}.

Definition set_tasks v w := World v (signals w) (sighands w) (mms w) (active w) (mm_cpumask w) (work w) (others w) (bad w).
Definition set_signals v w := World (tasks w) v (sighands w) (mms w) (active w) (mm_cpumask w) (work w) (others w) (bad w).
Definition set_sighands v w := World (tasks w) (signals w) v (mms w) (active w) (mm_cpumask w) (work w) (others w) (bad w).
Definition set_mms v w := World (tasks w) (signals w) (sighands w) v (active w) (mm_cpumask w) (work w) (others w) (bad w).
Definition set_active v w := World (tasks w) (signals w) (sighands w) (mms w) v (mm_cpumask w) (work w) (others w) (bad w).
Definition set_work v w := World (tasks w) (signals w) (sighands w) (mms w) (active w) (mm_cpumask w) v (others w) (bad w).
Definition set_others v w := World (tasks w) (signals w) (sighands w) (mms w) (active w) (mm_cpumask w) (work w) v (bad w).
Definition set_bad w := World (tasks w) (signals w) (sighands w) (mms w) (active w) (mm_cpumask w) (work w) (others w) true.

Section life.
(** [shootdown] is [CONFIG_MMU_LAZY_TLB_SHOOTDOWN]; without it a CPU counts its lazy address space.
    [debug] is [CONFIG_DEBUG_VM_SHOOT_LAZIES], and [online] are the CPUs. *)
Context (shootdown debug : bool) (online : list Z) (init_mm : Z).

(** ** Address spaces *)

(** The warning counts as a failure. *)
Definition do_check_lazy_tlb (mm cpu : Z) w : world :=
  if decide (active w !! cpu = Some mm) then set_bad w else w.

Definition do_shoot_lazy_tlb (mm cpu : Z) w : world :=
  if decide (active w !! cpu = Some mm) then set_active (<[cpu := init_mm]> (active w)) w else w.

Definition cleanup_lazy_tlbs (mm : Z) w : world :=
  if negb shootdown then w
  else
    let w := foldl (fun w cpu => do_shoot_lazy_tlb mm cpu w) w (mm_cpumask w mm) in
    if debug then foldl (fun w cpu => do_check_lazy_tlb mm cpu w) w online else w.

Definition __mmdrop (mm : Z) w : world :=
  let w := if (mm =? init_mm) || bool_decide (mms w !! mm = None) then set_bad w else w in
  let w := cleanup_lazy_tlbs mm w in
  set_mms (delete mm (mms w)) w.

Definition mmdrop_async_fn w : world :=
  match work w with [] => w | mm :: q => __mmdrop mm (set_work q w) end.

Definition mmdrop_async (mm : Z) w : world :=
  match mms w !! mm with
  | None => set_bad w
  | Some c =>
      let w := set_mms (<[mm := c - 1]> (mms w)) w in
      if c - 1 =? 0 then set_work (work w ++ [mm]) w else w
  end.

(** ** Signals and handlers *)

Definition free_signal_struct (sig : Z) w : world :=
  match signals w !! sig with
  | None => set_bad w
  | Some g =>
      let w := match oom_mm g with Some mm => mmdrop_async mm w | None => w end in
      set_signals (delete sig (signals w)) w
  end.

Definition put_signal_struct (sig : Z) w : world :=
  match signals w !! sig with
  | None => set_bad w
  | Some g =>
      let w := set_signals (<[sig := Sigst (sigcnt g - 1) (oom_mm g) (oom_score_adj g) (oom_score_adj_min g)]> (signals w)) w in
      if sigcnt g - 1 =? 0 then free_signal_struct sig w else w
  end.

Definition __cleanup_sighand (h : Z) w : world :=
  match sighands w !! h with
  | None => set_bad w
  | Some c => set_sighands (if c - 1 =? 0 then delete h (sighands w) else <[h := c - 1]> (sighands w)) w
  end.

(** ** Tasks *)

Definition __put_task_struct (t : Z) w : world :=
  match tasks w !! t with
  | None => set_bad w
  | Some k =>
      let w := if exit_state k && (usage k =? 0) then w else set_bad w in
      let w := put_signal_struct (signal k) w in
      set_tasks (delete t (tasks w)) w
  end.

Definition set_usage (u : Z) (k : tsk) : tsk := Tsk u (signal k) (sighand k) (exit_state k).

(** [put_task_struct]: the last one frees. *)
Definition put_task_struct (t : Z) w : world :=
  match tasks w !! t with
  | None => set_bad w
  | Some k =>
      let w := set_tasks (<[t := set_usage (usage k - 1) k]> (tasks w)) w in
      if usage k - 1 =? 0 then __put_task_struct t w else w
  end.

(** ** Forking *)

(** The error or 0, and the handlers of the child; [new] is what the allocation gives. *)
Definition copy_sighand (fl : Z) (cur : tsk) (new : option Z) w : Z * option Z * world :=
  if flag_set fl CLONE_SIGHAND then
    match sighand cur with
    | Some h => match sighands w !! h with
                | Some c => (0, Some h, set_sighands (<[h := c + 1]> (sighands w)) w)
                | None => (0, Some h, set_bad w) end
    | None => (0, None, set_bad w)
    end
  else match new with
       | None => (- ENOMEM, None, w)
       | Some h => (0, Some h, set_sighands (<[h := 1]> (sighands w)) w)
       end.

Definition copy_signal (fl : Z) (cur : tsk) (new : option Z) w : Z * Z * world :=
  if flag_set fl CLONE_THREAD then (0, signal cur, w)
  else match new, signals w !! signal cur with
       | None, _ => (- ENOMEM, 0, w)
       | Some s, Some g => (0, s, set_signals (<[s := Sigst 1 None (oom_score_adj g) (oom_score_adj_min g)]> (signals w)) w)
       | Some s, None => (0, s, set_bad w)
       end.

(** [cur_adj]: the values of the caller, which may have changed since [copy_signal]. *)
Definition copy_oom_score_adj (fl : Z) (has_mm : bool) (sig : Z) (cur_adj : Z * Z) w : world :=
  if negb has_mm then w
  else if negb (Z.land fl (Z.lor CLONE_VM (Z.lor CLONE_THREAD CLONE_VFORK)) =? CLONE_VM) then w
  else match signals w !! sig with
       | Some g => set_signals (<[sig := Sigst (sigcnt g) (oom_mm g) cur_adj.1 cur_adj.2]> (signals w)) w
       | None => set_bad w
       end.

(** The labels of [copy_process] for the two. *)
Definition bad_fork_cleanup_sighand (h : option Z) w : world :=
  match h with Some h => __cleanup_sighand h w | None => set_bad w end.
Definition bad_fork_cleanup_signal (fl sig : Z) (h : option Z) w : world :=
  bad_fork_cleanup_sighand h (if negb (flag_set fl CLONE_THREAD) then free_signal_struct sig w else w).

Definition inc_sigcnt (sig : Z) w : world :=
  match signals w !! sig with
  | Some g => set_signals (<[sig := Sigst (sigcnt g + 1) (oom_mm g) (oom_score_adj g) (oom_score_adj_min g)]> (signals w)) w
  | None => set_bad w
  end.

(** [copy_process] as far as handlers and signals go; [err]: the first error after them, or 0. *)
Definition copy_process (fl : Z) (cur child : Z) (new_hand new_sig : option Z) (err : Z) (has_mm : bool) (cur_adj : Z * Z) w : Z * world :=
  match tasks w !! cur with
  | None => (0, set_bad w)
  | Some k =>
      let '(r, h, w) := copy_sighand fl k new_hand w in
      if negb (r =? 0) then (r, w)
      else
        let '(r, s, w) := copy_signal fl k new_sig w in
        if negb (r =? 0) then (r, bad_fork_cleanup_sighand h w)
        else if negb (err =? 0) then (err, bad_fork_cleanup_signal fl s h w)
        else
          let w := if flag_set fl CLONE_THREAD then inc_sigcnt s w else w in
          let w := set_tasks (<[child := Tsk 1 s h false]> (tasks w)) w in
          (0, copy_oom_score_adj fl has_mm s cur_adj w)
  end.
End life.
End TaskLife.
