(* ===== verification/TaskLifeSpec.v ===== *)
(** * Tasks, signals, handlers and address spaces are freed once, after their last user

    The counts are exactly the references there are; nothing that was freed is used; no CPU
    is left with an address space that is gone. *)
From S2P Require Import Prelude Counting Fork TaskLife.

Module TaskLifeSpec.
Import TaskLife.

Definition has_signal (s : Z) (_ : Z) (k : tsk) : bool := signal k =? s.
Definition has_sighand (h : Z) (_ : Z) (k : tsk) : bool := bool_decide (sighand k = Some h).
Definition has_oom (m : Z) (_ : Z) (g : sigst) : bool := bool_decide (oom_mm g = Some m).
Definition uses_mm (m : Z) (_ : Z) (a : Z) : bool := a =? m.

Section spec.
Context (shootdown debug : bool) (online : list Z) (init_mm : Z).
Implicit Types (w : world) (es eh em : Z -> Z).

(** The references on an address space. *)
Definition mm_refs (m : Z) w : Z :=
  others w m + count (has_oom m) (signals w) + (if shootdown then 0 else count (uses_mm m) (active w)).

(** [es], [eh] and [em]: references on signals, handlers and address spaces that an operation
    holds while it runs. *)
Record inv es eh em w : Prop := {
  i_bad : bad w = false;
  i_sig s : 0 <= es s /\
    match signals w !! s with
    | Some g => sigcnt g = count (has_signal s) (tasks w) + es s /\ 0 < sigcnt g
    | None => count (has_signal s) (tasks w) + es s = 0 end;
  i_hand h : 0 <= eh h /\
    match sighands w !! h with
    | Some c => c = count (has_sighand h) (tasks w) + eh h /\ 0 < c
    | None => count (has_sighand h) (tasks w) + eh h = 0 end;
  i_task t k : tasks w !! t = Some k -> 0 < usage k /\ (sighand k = None -> exit_state k = true);
  i_mm m : 0 <= others w m /\ 0 <= em m /\
    match mms w !! m with
    | Some c => c = mm_refs m w + em m /\ (c = 0 <-> m ∈ work w)
    | None => mm_refs m w + em m = 0 /\ m ∉ work w end;
  i_work : NoDup (work w);
  i_init : 0 < others w init_mm;
  i_active cpu m : active w !! cpu = Some m ->
    is_Some (mms w !! m) /\ (shootdown = true -> m = init_mm \/ cpu ∈ mm_cpumask w m)
}.

Definition plus (f : Z -> Z) (x d : Z) : Z -> Z := fun y => f y + (if decide (y = x) then d else 0).
Lemma plus_eq f x d : plus f x d x = f x + d.
Proof. unfold plus. by rewrite decide_True. Qed.
Lemma plus_ne f x d y : y <> x -> plus f x d y = f y.
Proof. intros Hne. unfold plus. rewrite decide_False by done. lia. Qed.

Lemma inv_ext es eh em es' eh' em' w :
  inv es eh em w -> (forall x, es x = es' x) -> (forall x, eh x = eh' x) -> (forall x, em x = em' x) -> inv es' eh' em' w.
Proof. intros Hi He Hh Hm. split; try apply Hi; intros; rewrite <- ?He, <- ?Hh, <- ?Hm; apply Hi. Qed.

Lemma mm_refs_nonneg es eh em m w : inv es eh em w -> 0 <= mm_refs m w.
Proof.
  intros Hi. unfold mm_refs. destruct (i_mm _ _ _ _ Hi m) as [H0 _]. pose proof (count_nonneg (has_oom m) (signals w)).
  pose proof (count_nonneg (uses_mm m) (active w)). destruct shootdown; lia.
Qed.

(** ** Address spaces *)

Lemma mmdrop_async_ok es eh em w m : inv es eh em w -> 0 < em m -> inv es eh (plus em m (-1)) (mmdrop_async m w).
Proof.
  intros Hi Hm. unfold mmdrop_async. pose proof (i_mm _ _ _ _ Hi m) as (_ & _ & Hc). pose proof (mm_refs_nonneg _ _ _ m w Hi) as Hr.
  destruct (mms w !! m) as [c|] eqn:Hcm; [|lia]. destruct Hc as [Hc Hw]. assert (m ∉ work w) as Hnw by (intros Hx; apply Hw in Hx; lia).
  set (w1 := set_mms _ w). set (w2 := if c - 1 =? 0 then _ else w1).
  assert (forall x, x ∈ work w2 <-> x ∈ work w \/ (x = m /\ c - 1 = 0)) as Hwk.
  { intros x. unfold w2, w1. destruct (Z.eqb_spec (c - 1) 0); cbn; [rewrite elem_of_app, list_elem_of_singleton|]; naive_solver. }
  assert (signals w2 = signals w /\ active w2 = active w /\ others w2 = others w /\ mms w2 = <[m := c - 1]> (mms w) /\
    tasks w2 = tasks w /\ sighands w2 = sighands w /\ bad w2 = bad w /\ mm_cpumask w2 = mm_cpumask w)
    as (Hs & Ha & Ho & Hms & Ht & Hsh & Hb & Hcp) by (unfold w2; by destruct (_ =? _)).
  assert (forall x, mm_refs x w2 = mm_refs x w) as Href by (intros x; unfold mm_refs; by rewrite Hs, Ha, Ho).
  split; rewrite ?Hb, ?Hs, ?Ht, ?Hsh, ?Ha, ?Ho; try apply Hi.
  - intros x. rewrite Href, Hms. destruct (i_mm _ _ _ _ Hi x) as (Hox & Hex & Hx). destruct (decide (x = m)) as [->|Hne].
    + rewrite plus_eq, lookup_insert_eq, Hwk. split_and!; [done|lia|lia|naive_solver lia].
    + rewrite plus_ne, lookup_insert_ne by done. split_and!; [done|done|]. destruct (mms w !! x); rewrite Hwk; naive_solver.
  - unfold w2, w1. destruct (_ =? 0); cbn; [|apply Hi]. apply NoDup_app. split_and!; [apply Hi| |apply NoDup_singleton].
    by intros x Hx ->%list_elem_of_singleton.
  - intros cpu x Hx. rewrite Hms, Hcp. destruct (i_active _ _ _ _ Hi cpu x Hx) as [Hl Hm']. split; [|done].
    destruct (decide (x = m)) as [->|Hne]; [rewrite lookup_insert_eq|rewrite lookup_insert_ne by done]; eauto.
Qed.

Lemma shoot_all_ok m l w :
  let w' := foldl (fun w cpu => do_shoot_lazy_tlb init_mm m cpu w) w l in
  w' = set_active (active w') w /\
  forall cpu, active w' !! cpu = if decide (cpu ∈ l /\ active w !! cpu = Some m) then Some init_mm else active w !! cpu.
Proof.
  revert w. induction l as [|c l IH]; intros w; cbn.
  { split; [by destruct w|]. intros cpu. rewrite decide_False; [done|]. by intros [?%not_elem_of_nil _]. }
  destruct (IH (do_shoot_lazy_tlb init_mm m c w)) as [H1 H2]. set (w' := foldl _ _ l) in *.
  assert (do_shoot_lazy_tlb init_mm m c w = set_active (active (do_shoot_lazy_tlb init_mm m c w)) w) as H3.
  { unfold do_shoot_lazy_tlb. destruct (decide _); [done|]. by destruct w. }
  split; [rewrite H1, H3; done|]. intros cpu. rewrite H2. unfold do_shoot_lazy_tlb.
  destruct (decide (active w !! c = Some m)) as [Hc|Hc]; cbn.
  - destruct (decide (cpu = c)) as [->|Hne].
    + rewrite lookup_insert_eq. rewrite (decide_True (P := c ∈ c :: l /\ _)) by (split; [by left|done]).
      by destruct (decide _).
    + rewrite lookup_insert_ne by done. destruct (decide (cpu ∈ l /\ _)) as [[Hl Ha]|Hn].
      * by rewrite decide_True by (split; [by right|done]).
      * rewrite decide_False; [done|]. intros [[->|Hx]%elem_of_cons Ha]; [done|by apply Hn].
  - destruct (decide (cpu ∈ l /\ _)) as [[Hl Ha]|Hn].
    + by rewrite decide_True by (split; [by right|done]).
    + rewrite decide_False; [done|]. intros [[->|Hx]%elem_of_cons Ha]; [done|by apply Hn].
Qed.

Lemma check_none m l w : (forall cpu, active w !! cpu <> Some m) -> foldl (fun w cpu => do_check_lazy_tlb m cpu w) w l = w.
Proof. intros Hn. induction l as [|c l IH]; cbn; [done|]. unfold do_check_lazy_tlb at 2. by rewrite decide_False by apply Hn. Qed.

Lemma foldl_commute {A} (f : world -> A -> world) (g : world -> world) l w :
  (forall w c, f (g w) c = g (f w c)) -> foldl f (g w) l = g (foldl f w l).
Proof. intros Hc. revert w. induction l as [|c l IH]; intros w; cbn; [done|]. by rewrite Hc, IH. Qed.

(** What the worker has to do does not matter to the clean-up. *)
Lemma cleanup_set_work m q w :
  cleanup_lazy_tlbs shootdown debug online init_mm m (set_work q w) = set_work q (cleanup_lazy_tlbs shootdown debug online init_mm m w).
Proof.
  unfold cleanup_lazy_tlbs. destruct shootdown; [|done]. cbn [negb mm_cpumask set_work].
  rewrite foldl_commute by (intros; unfold do_shoot_lazy_tlb; cbn; by destruct (decide _)). destruct debug; [|done].
  apply foldl_commute. intros. unfold do_check_lazy_tlb. cbn. by destruct (decide _).
Qed.

(** After the clean-up no CPU borrows the address space, and nothing else has changed. *)
Lemma cleanup_ok es eh em w m :
  inv es eh em w -> m <> init_mm -> mm_refs m w = 0 ->
  let w' := cleanup_lazy_tlbs shootdown debug online init_mm m w in
  w' = set_active (active w') w /\ (forall x, mm_refs x w' = mm_refs x w) /\
  forall cpu x, active w' !! cpu = Some x -> x <> m /\ (x = init_mm \/ active w !! cpu = Some x).
Proof.
  intros Hi Hne H0. unfold cleanup_lazy_tlbs. destruct shootdown eqn:Hsd; cbn [negb].
  - destruct (shoot_all_ok m (mm_cpumask w m) w) as [H1 H2]. set (w' := foldl _ w _) in *.
    assert (forall cpu x, active w' !! cpu = Some x -> x <> m /\ (x = init_mm \/ active w !! cpu = Some x)) as H3.
    { intros cpu x. rewrite H2. destruct (decide _) as [[Hl Ha]|Hn]; [intros [= <-]; auto|]. intros Hx. split; [|auto].
      intros ->. destruct (i_active _ _ _ _ Hi cpu m Hx) as [_ [?|Hin]]; [done|done|]. by apply Hn. }
    assert ((if debug then foldl (fun w cpu => do_check_lazy_tlb m cpu w) w' online else w') = w') as ->.
    { destruct debug; [|done]. apply check_none. intros cpu Hx. by destruct (H3 cpu m Hx). }
    split; [done|]. split; [|done]. intros x. unfold mm_refs. rewrite H1, Hsd. done.
  - split; [by destruct w|]. split; [done|]. intros cpu x Hx. split; [|auto]. intros ->. unfold mm_refs in H0. rewrite Hsd in H0.
    pose proof (count_pos (uses_mm m) (active w) cpu m Hx ltac:(apply Z.eqb_refl)).
    pose proof (count_nonneg (has_oom m) (signals w)). destruct (i_mm _ _ _ _ Hi m) as [Ho _]. lia.
Qed.

(** Freeing an address space nobody refers to. *)
Lemma mm_freed es eh em em' w m c q :
  inv es eh em w -> mms w !! m = Some c -> mm_refs m w + em' m = 0 -> 0 <= em' m -> (forall x, x <> m -> em' x = em x) ->
  NoDup q -> m ∉ q -> (forall x, x <> m -> x ∈ q <-> x ∈ work w) ->
  inv es eh em' (__mmdrop shootdown debug online init_mm m (set_work q w)).
Proof.
  intros Hi Hc H0 Hem Hother Hq Hmq Hwk. pose proof (mm_refs_nonneg _ _ _ m w Hi) as Hr0.
  assert (mm_refs m w = 0) as Hr by lia.
  assert (m <> init_mm) as Hne.
  { intros ->. unfold mm_refs in Hr. pose proof (i_init _ _ _ _ Hi). pose proof (count_nonneg (has_oom init_mm) (signals w)).
    pose proof (count_nonneg (uses_mm init_mm) (active w)). destruct shootdown; lia. }
  unfold __mmdrop. rewrite (proj2 (Z.eqb_neq m init_mm) Hne), bool_decide_eq_false_2 by (cbn; congruence). cbn [orb].
  rewrite cleanup_set_work.
  destruct (cleanup_ok _ _ _ w m Hi Hne Hr) as (H1 & H2 & H3). set (w1 := cleanup_lazy_tlbs shootdown debug online init_mm m w) in *.
  assert (forall x, mm_refs x (set_mms (delete m (mms w1)) (set_work q w1)) = mm_refs x w) as Href by (intros x; rewrite <- H2; done).
  rewrite H1. split; cbn; try apply Hi.
  - intros x. rewrite H1 in Href. cbn in Href. rewrite Href. destruct (i_mm _ _ _ _ Hi x) as (Hox & Hex & Hx).
    destruct (decide (x = m)) as [->|Hxm].
    + rewrite lookup_delete_eq. split_and!; [done|done|lia|done].
    + rewrite lookup_delete_ne, Hother by done. split_and!; [done|done|]. by destruct (mms w !! x); rewrite Hwk.
  - done.
  - intros cpu x Hx. destruct (H3 cpu x Hx) as [Hxm [->|Ha]]; rewrite lookup_delete_ne by done.
    + split; [|auto]. destruct (i_mm _ _ _ _ Hi init_mm) as (_ & Hex & Hx'). pose proof (i_init _ _ _ _ Hi).
      destruct (mms w !! init_mm); [eauto|]. destruct Hx' as [Hx' _]. unfold mm_refs in Hx'.
      pose proof (count_nonneg (has_oom init_mm) (signals w)). pose proof (count_nonneg (uses_mm init_mm) (active w)). destruct shootdown; lia.
    + by apply (i_active _ _ _ _ Hi cpu).
Qed.

Lemma mmdrop_async_fn_ok es eh em w : inv es eh em w -> inv es eh em (mmdrop_async_fn shootdown debug online init_mm w).
Proof.
  intros Hi. unfold mmdrop_async_fn. destruct (work w) as [|m q] eqn:Hw; [done|].
  pose proof (i_work _ _ _ _ Hi) as Hnd. rewrite Hw in Hnd. apply NoDup_cons in Hnd as [Hm Hq].
  destruct (i_mm _ _ _ _ Hi m) as (_ & Hem & Hc). rewrite Hw in Hc. destruct (mms w !! m) as [c|] eqn:Hcm.
  - destruct Hc as [Hc Hc0]. assert (c = 0) by (apply Hc0; by left). apply (mm_freed es eh em em w m c q); try done; [lia|].
    intros x Hx. rewrite Hw, elem_of_cons. naive_solver.
  - destruct Hc as [_ Hc]. destruct Hc. by left.
Qed.

(** [mmdrop] ([include/linux/sched/mm.h]): the last reference frees at once. *)
Definition mmdrop (m : Z) w : world :=
  match mms w !! m with
  | None => set_bad w
  | Some c => let w := set_mms (<[m := c - 1]> (mms w)) w in if c - 1 =? 0 then __mmdrop shootdown debug online init_mm m w else w
  end.

Lemma mmdrop_ok es eh em w m : inv es eh em w -> 0 < em m -> inv es eh (plus em m (-1)) (mmdrop m w).
Proof.
  intros Hi Hm. pose proof (mmdrop_async_ok es eh em w m Hi Hm) as Ha. unfold mmdrop, mmdrop_async in *.
  pose proof (i_mm _ _ _ _ Hi m) as (_ & _ & Hc). destruct (mms w !! m) as [c|] eqn:Hcm; [|done]. destruct Hc as [Hc Hw].
  destruct (Z.eqb_spec (c - 1) 0) as [H1|]; [|done]. set (w1 := set_mms (<[m := c - 1]> (mms w)) w) in *.
  assert (m ∉ work w) as Hnw by (intros Hx; apply Hw in Hx; lia).
  replace w1 with (set_work (work w) (set_work (work w1 ++ [m]) w1)) by done.
  apply (mm_freed es eh (plus em m (-1)) (plus em m (-1)) (set_work (work w1 ++ [m]) w1) m (c - 1)); try done.
  - cbn. apply lookup_insert_eq.
  - rewrite plus_eq. change (mm_refs m w + (em m + -1) = 0). lia.
  - rewrite plus_eq. lia.
  - apply Hi.
  - intros x Hx. cbn. rewrite elem_of_app, list_elem_of_singleton. naive_solver.
Qed.

(** ** Signals *)

(** Signals change in one place: the count, with the references that go with it, and the rest. *)
Lemma set_signal_ok es eh em w s g g' d :
  inv es eh em w -> signals w !! s = Some g -> oom_mm g' = oom_mm g -> sigcnt g' = sigcnt g + d -> 0 < sigcnt g' -> 0 <= es s + d ->
  inv (plus es s d) eh em (set_signals (<[s := g']> (signals w)) w).
Proof.
  intros Hi Hs Ho Hd Hp He. assert (forall m, mm_refs m (set_signals (<[s := g']> (signals w)) w) = mm_refs m w) as Href.
  { intros m. unfold mm_refs. cbn. rewrite (count_update _ _ s g); [done|done|]. unfold has_oom. by rewrite Ho. }
  split; cbn; try apply Hi.
  - intros x. destruct (i_sig _ _ _ _ Hi x) as [H0 Hx]. destruct (decide (x = s)) as [->|Hne].
    + rewrite lookup_insert_eq, plus_eq. rewrite Hs in Hx. split_and!; lia.
    + by rewrite lookup_insert_ne, plus_ne by done.
  - intros m. rewrite Href. apply Hi.
Qed.

(** Signals to which only the operation refers go away, and leave it their address space. *)
Lemma del_signal_ok es eh em w s g :
  inv es eh em w -> signals w !! s = Some g -> count (has_signal s) (tasks w) = 0 ->
  inv (plus es s (- es s)) eh (match oom_mm g with Some m => plus em m 1 | None => em end) (set_signals (delete s (signals w)) w).
Proof.
  intros Hi Hs Hc. assert (forall m, mm_refs m w = mm_refs m (set_signals (delete s (signals w)) w) + b2z (has_oom m s g)) as Href.
  { intros m. unfold mm_refs. cbn. rewrite (count_delete (has_oom m) (signals w) s g Hs). lia. }
  split; cbn; try apply Hi.
  - intros x. destruct (i_sig _ _ _ _ Hi x) as [H0 Hx]. destruct (decide (x = s)) as [->|Hne].
    + rewrite lookup_delete_eq, plus_eq. lia.
    + by rewrite lookup_delete_ne, plus_ne by done.
  - intros m. specialize (Href m). destruct (i_mm _ _ _ _ Hi m) as (Ho & He & Hm). unfold has_oom, b2z in Href.
    assert (match oom_mm g with Some m0 => plus em m0 1 | None => em end m = em m + b2z (bool_decide (oom_mm g = Some m))) as ->.
    { destruct (oom_mm g) as [m0|]; [|rewrite bool_decide_eq_false_2 by done; cbn; lia]. unfold plus. destruct (decide (m = m0)) as [->|Hne];
        [by rewrite bool_decide_eq_true_2|rewrite bool_decide_eq_false_2 by congruence; done]. }
    unfold b2z. destruct (bool_decide _), (mms w !! m); split_and!; try done; try lia; by apply Hm.
Qed.

Lemma free_signal_ok es eh em w s g :
  inv es eh em w -> signals w !! s = Some g -> count (has_signal s) (tasks w) = 0 ->
  inv (plus es s (- es s)) eh em (free_signal_struct s w).
Proof.
  intros Hi Hs Hc. pose proof (del_signal_ok es eh em w s g Hi Hs Hc) as Hd. unfold free_signal_struct. rewrite Hs.
  destruct (oom_mm g) as [m|]; [|done].
  replace (set_signals (delete s (signals (mmdrop_async m w))) (mmdrop_async m w))
    with (mmdrop_async m (set_signals (delete s (signals w)) w)).
  - eapply inv_ext; [apply (mmdrop_async_ok _ _ _ _ m Hd)|done|done|].
    + rewrite plus_eq. destruct (i_mm _ _ _ _ Hi m) as (_ & He & _). lia.
    + intros x. unfold plus. destruct (decide _); lia.
  - unfold mmdrop_async. cbn. destruct (mms w !! m); [|done]. by destruct (_ =? 0).
Qed.

Lemma put_signal_ok es eh em w s : inv es eh em w -> 0 < es s -> inv (plus es s (-1)) eh em (put_signal_struct s w).
Proof.
  intros Hi He. unfold put_signal_struct. destruct (i_sig _ _ _ _ Hi s) as [_ Hs]. pose proof (count_nonneg (has_signal s) (tasks w)) as Hc.
  destruct (signals w !! s) as [g|] eqn:Hg; [|lia]. destruct Hs as [Hs Hp]. set (g' := Sigst (sigcnt g - 1) _ _ _).
  destruct (Z.eqb_spec (sigcnt g - 1) 0) as [H0|H0].
  - assert (Heq : free_signal_struct s (set_signals (<[s := g']> (signals w)) w) = free_signal_struct s w).
    { unfold free_signal_struct. cbn. rewrite lookup_insert_eq, Hg. cbn. destruct (oom_mm g) as [m|].
      - unfold mmdrop_async. cbn. destruct (mms w !! m); [|cbn; unfold set_signals; cbn; by rewrite delete_insert_eq].
        destruct (_ =? 0); unfold set_signals; cbn; by rewrite delete_insert_eq.
      - unfold set_signals. cbn. by rewrite delete_insert_eq. }
    rewrite Heq. eapply inv_ext; [apply (free_signal_ok es eh em w s g Hi Hg); lia| |done|done].
    intros x. unfold plus. destruct (decide _) as [->|]; lia.
  - apply (set_signal_ok es eh em w s g); try done; cbn; lia.
Qed.

Lemma new_signal_ok es eh em w s a b :
  inv es eh em w -> signals w !! s = None -> inv (plus es s 1) eh em (set_signals (<[s := Sigst 1 None a b]> (signals w)) w).
Proof.
  intros Hi Hs. assert (forall m, mm_refs m (set_signals (<[s := Sigst 1 None a b]> (signals w)) w) = mm_refs m w) as Href.
  { intros m. unfold mm_refs. cbn. rewrite count_insert by done. unfold has_oom at 2. cbn [oom_mm].
    rewrite bool_decide_eq_false_2 by done. cbn [b2z]. lia. }
  split; cbn; try apply Hi.
  - intros x. destruct (i_sig _ _ _ _ Hi x) as [H0 Hx]. destruct (decide (x = s)) as [->|Hne].
    + rewrite lookup_insert_eq, plus_eq. rewrite Hs in Hx. cbn. lia.
    + by rewrite lookup_insert_ne, plus_ne by done.
  - intros m. rewrite Href. apply Hi.
Qed.

(** ** Handlers *)

Lemma cleanup_sighand_ok es eh em w h : inv es eh em w -> 0 < eh h -> inv es (plus eh h (-1)) em (__cleanup_sighand h w).
Proof.
  intros Hi He. unfold __cleanup_sighand. destruct (i_hand _ _ _ _ Hi h) as [_ Hh]. pose proof (count_nonneg (has_sighand h) (tasks w)).
  destruct (sighands w !! h) as [c|] eqn:Hc; [|lia]. split; cbn; try apply Hi.
  intros x. destruct (i_hand _ _ _ _ Hi x) as [H0 Hx]. destruct (decide (x = h)) as [->|Hne].
  - rewrite plus_eq. destruct (Z.eqb_spec (c - 1) 0); [rewrite lookup_delete_eq|rewrite lookup_insert_eq]; lia.
  - rewrite plus_ne by done. by destruct (_ =? 0); [rewrite lookup_delete_ne|rewrite lookup_insert_ne].
Qed.

Lemma set_sighand_ok es eh em w h c d :
  inv es eh em w -> default 0 (sighands w !! h) = c -> 0 < d -> inv es (plus eh h d) em (set_sighands (<[h := c + d]> (sighands w)) w).
Proof.
  intros Hi Hc Hd. split; cbn; try apply Hi. intros x. destruct (i_hand _ _ _ _ Hi x) as [H0 Hx]. destruct (decide (x = h)) as [->|Hne].
  - rewrite plus_eq, lookup_insert_eq. pose proof (count_nonneg (has_sighand h) (tasks w)). destruct (sighands w !! h); cbn in Hc; lia.
  - by rewrite plus_ne, lookup_insert_ne by done.
Qed.

(** ** Tasks *)

Definition oplus (f : Z -> Z) (o : option Z) (d : Z) : Z -> Z := match o with Some x => plus f x d | None => f end.
Lemma oplus_at f o d x : oplus f o d x = f x + b2z (bool_decide (o = Some x)) * d.
Proof.
  destruct o as [y|]; cbn; [|rewrite bool_decide_eq_false_2 by done; cbn; lia]. unfold plus.
  destruct (decide (x = y)) as [->|Hne]; [rewrite bool_decide_eq_true_2 by done|rewrite bool_decide_eq_false_2 by congruence]; cbn; lia.
Qed.
Lemma plus_at f y d x : plus f y d x = f x + b2z (y =? x) * d.
Proof. unfold plus. destruct (decide (x = y)) as [->|Hne]; [rewrite Z.eqb_refl|rewrite (proj2 (Z.eqb_neq y x)) by congruence]; cbn; lia. Qed.

Definition task_ok (k : tsk) : Prop := 0 < usage k /\ (sighand k = None -> exit_state k = true).

Lemma add_task_ok es eh em w t k :
  inv es eh em w -> tasks w !! t = None -> task_ok k -> 0 < es (signal k) -> (forall h, sighand k = Some h -> 0 < eh h) ->
  inv (plus es (signal k) (-1)) (oplus eh (sighand k) (-1)) em (set_tasks (<[t := k]> (tasks w)) w).
Proof.
  intros Hi Ht Hk Hs Hh. split; cbn; try apply Hi.
  - intros x. rewrite count_insert by done. unfold has_signal at 2 4. rewrite plus_at. destruct (i_sig _ _ _ _ Hi x) as [H0 Hx].
    destruct (Z.eqb_spec (signal k) x) as [<-|]; cbn; destruct (signals w !! _); lia.
  - intros x. rewrite count_insert by done. unfold has_sighand at 2 4. rewrite oplus_at. destruct (i_hand _ _ _ _ Hi x) as [H0 Hx].
    destruct (bool_decide_reflect (sighand k = Some x)) as [Hx'|]; [apply Hh in Hx'|]; cbn; destruct (sighands w !! _); lia.
  - intros t' k'. destruct (decide (t' = t)) as [->|Hne]; [|rewrite lookup_insert_ne by done; apply Hi].
    rewrite lookup_insert_eq. by intros [= <-].
Qed.

Lemma del_task_ok es eh em w t k :
  inv es eh em w -> tasks w !! t = Some k ->
  inv (plus es (signal k) 1) (oplus eh (sighand k) 1) em (set_tasks (delete t (tasks w)) w).
Proof.
  intros Hi Ht. split; cbn; try apply Hi.
  - intros x. rewrite plus_at. destruct (i_sig _ _ _ _ Hi x) as [H0 Hx]. rewrite (count_delete _ _ t k Ht) in Hx. unfold has_signal in *.
    destruct (signal k =? x); cbn in *; destruct (signals w !! _); lia.
  - intros x. rewrite oplus_at. destruct (i_hand _ _ _ _ Hi x) as [H0 Hx]. rewrite (count_delete _ _ t k Ht) in Hx. unfold has_sighand in *.
    destruct (bool_decide (sighand k = Some x)); cbn in *; destruct (sighands w !! _); lia.
  - intros t' k' [_ Hk]%lookup_delete_Some. by apply (i_task _ _ _ _ Hi t').
Qed.

(** The fields of a task that count for its references stay, or only its handlers go. *)
Lemma set_task_ok es eh em w t k k' :
  inv es eh em w -> tasks w !! t = Some k -> task_ok k' -> signal k' = signal k -> (sighand k' = sighand k \/ sighand k' = None) ->
  inv es (oplus (oplus eh (sighand k) 1) (sighand k') (-1)) em (set_tasks (<[t := k']> (tasks w)) w).
Proof.
  intros Hi Ht Hk Hs Hh. pose proof (del_task_ok es eh em w t k Hi Ht) as Hd.
  assert (Hpos : forall x, 0 <= es x) by (intros x; apply (i_sig _ _ _ _ Hi x)).
  assert (Hposh : forall x, 0 <= eh x) by (intros x; apply (i_hand _ _ _ _ Hi x)).
  pose proof (add_task_ok _ _ _ _ t k' Hd (lookup_delete_eq _ _) Hk) as Ha. cbn in Ha. rewrite insert_delete_eq in Ha.
  eapply inv_ext; [apply Ha|..]; try done.
  - rewrite Hs, plus_eq. specialize (Hpos (signal k)). lia.
  - intros h Hh'. rewrite oplus_at. destruct Hh as [Hh|Hh]; [|congruence]. rewrite <- Hh, Hh', bool_decide_eq_true_2 by done.
    specialize (Hposh h). cbn. lia.
  - intros x. rewrite Hs, !plus_at. lia.
Qed.

(** Signals are put without regard to the tasks. *)
Lemma put_signal_tasks s v w : put_signal_struct s (set_tasks v w) = set_tasks v (put_signal_struct s w).
Proof.
  unfold put_signal_struct. cbn. destruct (signals w !! s) as [g|]; [|done]. destruct (_ =? 0); [|done].
  unfold free_signal_struct. cbn. rewrite lookup_insert_eq. cbn. destruct (oom_mm g) as [m|]; [|done].
  unfold mmdrop_async. cbn. destruct (mms w !! m); [|done]. by destruct (_ =? 0).
Qed.

Lemma put_task_ok w t k :
  inv (fun _ => 0) (fun _ => 0) (fun _ => 0) w -> tasks w !! t = Some k -> (usage k = 1 -> sighand k = None) ->
  inv (fun _ => 0) (fun _ => 0) (fun _ => 0) (put_task_struct t w).
Proof.
  intros Hi Ht Hex. unfold put_task_struct. rewrite Ht. destruct (i_task _ _ _ _ Hi t k Ht) as [Hu Hsh].
  destruct (Z.eqb_spec (usage k - 1) 0) as [H1|H1].
  - unfold __put_task_struct. cbn. rewrite lookup_insert_eq. cbn. assert (sighand k = None) as Hn by (apply Hex; lia).
    rewrite (Hsh Hn), (proj2 (Z.eqb_eq (usage k - 1) 0)) by lia. cbn. pose proof (del_task_ok _ _ _ w t k Hi Ht) as Hd.
    rewrite Hn in Hd. cbn in Hd.
    rewrite put_signal_tasks. cbn. rewrite delete_insert_eq.
    change (set_tasks _ (set_tasks _ ?p)) with (set_tasks (delete t (tasks w)) p). rewrite <- put_signal_tasks.
    eapply inv_ext; [apply (put_signal_ok _ _ _ _ (signal k) Hd)|..]; try done; [rewrite plus_eq; lia|]. intros x. rewrite !plus_at. lia.
  - eapply inv_ext; [apply (set_task_ok _ _ _ w t k (set_usage (usage k - 1) k) Hi Ht)|..]; try done; [split; cbn; [lia|done]|by left|].
    intros x. cbn. rewrite !oplus_at. lia.
Qed.

(** ** Forking *)

Notation none := (fun _ : Z => 0).
Notation ok := (inv none none none).

(** What the fields of a task still refer to exists. *)
Lemma task_signal es eh em w t k : inv es eh em w -> tasks w !! t = Some k -> is_Some (signals w !! signal k).
Proof.
  intros Hi Hk. destruct (i_sig _ _ _ _ Hi (signal k)) as [H0 Hs].
  pose proof (count_pos (has_signal (signal k)) (tasks w) t k Hk ltac:(apply Z.eqb_refl)). destruct (signals w !! signal k); [eauto|lia].
Qed.
Lemma task_sighand es eh em w t k h : inv es eh em w -> tasks w !! t = Some k -> sighand k = Some h -> is_Some (sighands w !! h).
Proof.
  intros Hi Hk Hh. destruct (i_hand _ _ _ _ Hi h) as [H0 Hs].
  pose proof (count_pos (has_sighand h) (tasks w) t k Hk ltac:(by apply bool_decide_eq_true_2)). destruct (sighands w !! h); [eauto|lia].
Qed.

(** Handlers taken and dropped again leave no trace, nor do signals made and freed. *)
Lemma undo_sighand w h c : sighands w !! h = c -> default 1 c <> 0 ->
  bad_fork_cleanup_sighand (Some h) (set_sighands (<[h := default 0 c + 1]> (sighands w)) w) = w.
Proof.
  intros Hc H0. cbn. unfold __cleanup_sighand. cbn. rewrite lookup_insert_eq. replace (default 0 c + 1 - 1) with (default 0 c) by lia.
  destruct c as [c|]; cbn in *.
  - rewrite (proj2 (Z.eqb_neq c 0) H0), insert_insert_eq. unfold set_sighands. cbn. rewrite insert_id by done. by destruct w.
  - unfold set_sighands. cbn. rewrite delete_insert_id by done. by destruct w.
Qed.
Lemma undo_signal w s a b : signals w !! s = None -> free_signal_struct s (set_signals (<[s := Sigst 1 None a b]> (signals w)) w) = w.
Proof.
  intros Hs. unfold free_signal_struct. cbn. rewrite lookup_insert_eq. cbn. unfold set_signals. cbn. rewrite delete_insert_id by done. by destruct w.
Qed.

Lemma life_copy_sighand fl k t new w :
  ok w -> tasks w !! t = Some k -> exit_state k = false -> (forall h, new = Some h -> sighands w !! h = None) ->
  match copy_sighand fl k new w with
  | (r, h, w') => (r <> 0 /\ w' = w) \/
      (r = 0 /\ exists x, h = Some x /\ inv none (plus none x 1) none w' /\ tasks w' = tasks w /\ signals w' = signals w /\
         bad_fork_cleanup_sighand h w' = w)
  end.
Proof.
  intros Hi Hk He Hnew. unfold copy_sighand. destruct (flag_set fl _).
  - destruct (i_task _ _ _ _ Hi t k Hk) as [_ Hs]. destruct (sighand k) as [h|] eqn:Hh; [|rewrite Hs in He by done; done].
    destruct (task_sighand _ _ _ w t k h Hi Hk Hh) as [c Hc]. rewrite Hc. right. split; [done|]. exists h. split_and!; try done.
    + apply set_sighand_ok; [done|by rewrite Hc|lia].
    + apply (undo_sighand w h (Some c)); [done|]. destruct (i_hand _ _ _ _ Hi h) as [_ Hx]. rewrite Hc in Hx. cbn. lia.
  - destruct new as [h|]; [|by left; split; [unfold ENOMEM|]]. right. split; [done|]. exists h. split_and!; try done.
    + apply (set_sighand_ok _ _ _ w h 0 1 Hi); [by rewrite Hnew|lia].
    + apply (undo_sighand w h None); [by apply Hnew|done].
Qed.

(** Without [CLONE_THREAD] the child holds the only reference on its signals. *)
Lemma life_copy_signal eh fl k t new w :
  inv none eh none w -> tasks w !! t = Some k -> (forall s, new = Some s -> signals w !! s = None) ->
  match copy_signal fl k new w with
  | (r, s, w') => (r <> 0 /\ w' = w) \/
      (r = 0 /\ tasks w' = tasks w /\ (if negb (flag_set fl Fork.CLONE_THREAD) then free_signal_struct s w' else w') = w /\
       if flag_set fl Fork.CLONE_THREAD then s = signal k /\ w' = w else inv (plus none s 1) eh none w')
  end.
Proof.
  intros Hi Hk Hnew. unfold copy_signal. destruct (flag_set fl _); [by right|].
  destruct new as [s|]; [|by left; split; [unfold ENOMEM|]]. specialize (Hnew s eq_refl).
  destruct (task_signal _ _ _ w t k Hi Hk) as [g Hg]. rewrite Hg. right. split_and!; [done|done|by apply undo_signal|by apply new_signal_ok].
Qed.

Lemma oom_adj_ok es eh em w fl mm s adj : inv es eh em w -> is_Some (signals w !! s) -> inv es eh em (copy_oom_score_adj fl mm s adj w).
Proof.
  intros Hi [g Hg]. unfold copy_oom_score_adj. destruct (negb mm); [done|]. destruct (negb _); [done|]. rewrite Hg.
  destruct (i_sig _ _ _ _ Hi s) as [H0 Hs]. rewrite Hg in Hs.
  eapply inv_ext; [apply (set_signal_ok es eh em w s g _ 0 Hi Hg); cbn; try done; lia|..]; try done. intros x. rewrite plus_at. lia.
Qed.

(** The child takes over the references the fork holds. *)
Lemma new_task_ok w s x t :
  inv (plus none s 1) (plus none x 1) none w -> tasks w !! t = None ->
  let w' := set_tasks (<[t := Tsk 1 s (Some x) false]> (tasks w)) w in ok w' /\ is_Some (signals w' !! s).
Proof.
  intros Hi Ht w'. assert (ok w') as Hok.
  { eapply inv_ext; [apply (add_task_ok _ _ _ w t (Tsk 1 s (Some x) false) Hi Ht)|..]; cbn; try done.
    - rewrite plus_eq. lia.
    - intros h [= <-]. rewrite plus_eq. lia.
    - intros y. rewrite !plus_at. lia.
    - intros y. rewrite !plus_at. lia. }
  split; [done|]. apply (task_signal _ _ _ w' t (Tsk 1 s (Some x) false) Hok). cbn. apply lookup_insert_eq.
Qed.

Lemma inc_sigcnt_ok eh w s : inv none eh none w -> is_Some (signals w !! s) -> inv (plus none s 1) eh none (inc_sigcnt s w).
Proof.
  intros Hi [g Hg]. unfold inc_sigcnt. rewrite Hg. destruct (i_sig _ _ _ _ Hi s) as [_ Hs]. rewrite Hg in Hs.
  apply (set_signal_ok _ _ _ w s g); cbn; try done; lia.
Qed.

(** A fork that fails leaves everything as it was; one that succeeds leaves every count exact. *)
Lemma life_copy_process w fl cur k child nh ns err mm adj :
  ok w -> tasks w !! cur = Some k -> exit_state k = false -> tasks w !! child = None ->
  (forall h, nh = Some h -> sighands w !! h = None) -> (forall s, ns = Some s -> signals w !! s = None) ->
  match copy_process fl cur child nh ns err mm adj w with (r, w') => ok w' /\ (r <> 0 -> w' = w) end.
Proof.
  intros Hi Hk He Hch Hnh Hns. unfold copy_process. rewrite Hk. pose proof (life_copy_sighand fl k cur nh w Hi Hk He Hnh) as Hh.
  destruct (copy_sighand fl k nh w) as [[r h] w1]. destruct Hh as [[Hr ->]|(-> & x & -> & H1 & Ht1 & Hs1 & Hu1)].
  { rewrite (proj2 (Z.eqb_neq r 0) Hr). done. }
  cbn [negb Z.eqb]. rewrite <- Ht1 in Hk, Hch. rewrite <- Hs1 in Hns. pose proof (life_copy_signal _ fl k cur ns w1 H1 Hk Hns) as Hs.
  destruct (copy_signal fl k ns w1) as [[r s] w2]. destruct Hs as [[Hr ->]|(-> & Ht2 & Hu2 & Hs)].
  { rewrite (proj2 (Z.eqb_neq r 0) Hr). cbn [negb]. by rewrite Hu1. }
  cbn [negb Z.eqb]. rewrite <- Ht2 in Hch. destruct (Z.eqb_spec err 0) as [->|Herr]; cbn [negb].
  - split; [|done]. assert (inv (plus none s 1) (plus none x 1) none (if flag_set fl Fork.CLONE_THREAD then inc_sigcnt s w2 else w2)
      /\ tasks (if flag_set fl Fork.CLONE_THREAD then inc_sigcnt s w2 else w2) = tasks w2) as [H3 Ht3].
    { destruct (flag_set fl _); [|done]. destruct Hs as [-> ->]. split; [apply inc_sigcnt_ok; [done|by eapply task_signal]|].
      unfold inc_sigcnt. by destruct (signals w1 !! _). }
    rewrite <- Ht3 in Hch. destruct (new_task_ok _ s x child H3 Hch) as [H4 H5]. by apply oom_adj_ok.
  - unfold bad_fork_cleanup_signal. rewrite Hu2, Hu1. done.
Qed.

(** ** References on address spaces *)

(** One more reference, on an address space that is new or in use. *)
Lemma ref_mm_ok es eh em w m c :
  inv es eh em w -> default 0 (mms w !! m) = c -> m ∉ work w ->
  inv es eh (plus em m 1) (set_mms (<[m := c + 1]> (mms w)) w).
Proof.
  intros Hi Hc Hw. split; cbn; try apply Hi.
  - intros x. change (mm_refs x (set_mms _ w)) with (mm_refs x w). destruct (i_mm _ _ _ _ Hi x) as (Ho & He & Hx).
    destruct (decide (x = m)) as [->|Hne]; [|by rewrite plus_ne, lookup_insert_ne by done].
    rewrite plus_eq, lookup_insert_eq. pose proof (mm_refs_nonneg _ _ _ m w Hi). destruct (mms w !! m); cbn in Hc; split_and!; naive_solver lia.
  - intros cpu x Hx. destruct (i_active _ _ _ _ Hi cpu x Hx) as [[c' Hl] Hm]. split; [|done].
    destruct (decide (x = m)) as [->|Hne]; [rewrite lookup_insert_eq|rewrite lookup_insert_ne by done]; eauto.
Qed.

(** A reference passes from the operation to its owner elsewhere, or back. *)
Lemma others_ok es eh em w m d :
  inv es eh em w -> 0 <= others w m + d -> 0 <= em m - d -> 0 < plus (others w) m d init_mm ->
  inv es eh (plus em m (-d)) (set_others (plus (others w) m d) w).
Proof.
  intros Hi Ho He Hin. split; cbn; try apply Hi; [|done]. intros x. destruct (i_mm _ _ _ _ Hi x) as (Hox & Hex & Hx).
  assert (mm_refs x (set_others (plus (others w) m d) w) = mm_refs x w + b2z (m =? x) * d) as ->.
  { unfold mm_refs. cbn. rewrite plus_at. lia. }
  rewrite !plus_at. destruct (Z.eqb_spec m x) as [->|]; cbn [b2z]; split_and!; try lia; destruct (mms w !! x);
    (split; [lia|by apply Hx]).
Qed.

Lemma oom_mm_ok es eh em w s g m :
  inv es eh em w -> signals w !! s = Some g -> oom_mm g = None -> 0 < em m ->
  inv es eh (plus em m (-1)) (set_signals (<[s := Sigst (sigcnt g) (Some m) (oom_score_adj g) (oom_score_adj_min g)]> (signals w)) w).
Proof.
  intros Hi Hs Hg He. set (g' := Sigst _ _ _ _). split; cbn; try apply Hi.
  - intros x. destruct (i_sig _ _ _ _ Hi x) as [H0 Hx]. destruct (decide (x = s)) as [->|Hne]; [|by rewrite lookup_insert_ne].
    rewrite lookup_insert_eq. by rewrite Hs in Hx.
  - intros x. destruct (i_mm _ _ _ _ Hi x) as (Hox & Hex & Hx).
    assert (mm_refs x (set_signals (<[s := g']> (signals w)) w) = mm_refs x w + b2z (m =? x)) as ->.
    { unfold mm_refs. cbn. rewrite (count_replace (has_oom x) (has_oom x) _ s g g' Hs) by done. unfold has_oom at 2 3. rewrite Hg. cbn.
      rewrite (bool_decide_eq_false_2 (None = _)) by done. destruct (Z.eqb_spec m x) as [->|Hne];
        [rewrite bool_decide_eq_true_2 by done|rewrite bool_decide_eq_false_2 by congruence]; cbn; lia. }
    rewrite plus_at. destruct (Z.eqb_spec m x) as [->|]; cbn [b2z]; split_and!; try lia; destruct (mms w !! x);
      (split; [lia|by apply Hx]).
Qed.

(** A kernel thread borrows the address space of the task before it, and gives it back. *)
Definition lazy_on (cpu m : Z) w : world :=
  World (tasks w) (signals w) (sighands w) (mms w) (<[cpu := m]> (active w))
    (fun x => if decide (x = m) then cpu :: mm_cpumask w x else mm_cpumask w x) (work w) (others w) (bad w).
Definition lazy_off (cpu : Z) w : world := set_active (delete cpu (active w)) w.

Lemma lazy_on_ok es eh em w cpu m :
  inv es eh em w -> active w !! cpu = None -> is_Some (mms w !! m) -> (shootdown = false -> 0 < em m) ->
  inv es eh (if shootdown then em else plus em m (-1)) (lazy_on cpu m w).
Proof.
  intros Hi Ha Hm He. split; cbn; try apply Hi.
  - intros x. destruct (i_mm _ _ _ _ Hi x) as (Hox & Hex & Hx).
    assert (mm_refs x (lazy_on cpu m w) = mm_refs x w + (if shootdown then 0 else b2z (m =? x))) as ->.
    { unfold mm_refs. cbn. destruct shootdown; [lia|]. rewrite count_insert by done. unfold uses_mm at 2. lia. }
    destruct shootdown; [rewrite Z.add_0_r; done|]. specialize (He eq_refl). rewrite plus_at.
    destruct (Z.eqb_spec m x) as [->|]; cbn [b2z]; split_and!; try lia; destruct (mms w !! x); (split; [lia|by apply Hx]).
  - intros c x. destruct (decide (c = cpu)) as [->|Hne].
    + rewrite lookup_insert_eq. intros [= <-]. split; [done|]. intros _. right. rewrite decide_True by done. by left.
    + rewrite lookup_insert_ne by done. intros Hx. destruct (i_active _ _ _ _ Hi c x Hx) as [Hl Hsd]. split; [done|].
      intros Ht. destruct (Hsd Ht) as [|Hin]; [by left|]. right. destruct (decide _); [by right|done].
Qed.

Lemma lazy_off_ok es eh em w cpu m :
  inv es eh em w -> active w !! cpu = Some m -> inv es eh (if shootdown then em else plus em m 1) (lazy_off cpu w).
Proof.
  intros Hi Ha. split; cbn; try apply Hi.
  - intros x. destruct (i_mm _ _ _ _ Hi x) as (Hox & Hex & Hx).
    assert (mm_refs x w = mm_refs x (lazy_off cpu w) + (if shootdown then 0 else b2z (m =? x))) as Heq.
    { unfold mm_refs. cbn. destruct shootdown; [lia|]. rewrite (count_delete _ _ cpu m Ha). unfold uses_mm at 2. lia. }
    destruct shootdown; [rewrite Z.add_0_r in Heq; by rewrite <- Heq|]. rewrite plus_at.
    destruct (Z.eqb_spec m x) as [->|]; cbn [b2z] in *; split_and!; try lia; destruct (mms w !! x); (split; [lia|by apply Hx]).
  - intros c x [_ Hx]%lookup_delete_Some. by apply (i_active _ _ _ _ Hi c).
Qed.

(** ** Every run *)

(** What the kernel does with these objects: this file's operations, and the steps of its
    other parts that give, take and borrow references. *)
Inductive lstep : world -> world -> Prop :=
| l_fork fl cur k child nh ns err has_mm adj w :
    tasks w !! cur = Some k -> exit_state k = false -> tasks w !! child = None ->
    (forall h, nh = Some h -> sighands w !! h = None) -> (forall s, ns = Some s -> signals w !! s = None) ->
    lstep w (copy_process fl cur child nh ns err has_mm adj w).2
| l_get_task t k w : tasks w !! t = Some k -> lstep w (set_tasks (<[t := set_usage (usage k + 1) k]> (tasks w)) w)
| l_exit t k w : tasks w !! t = Some k -> lstep w (set_tasks (<[t := Tsk (usage k) (signal k) (sighand k) true]> (tasks w)) w)
| l_release t k h w : tasks w !! t = Some k -> exit_state k = true -> sighand k = Some h ->
    lstep w (__cleanup_sighand h (set_tasks (<[t := Tsk (usage k) (signal k) None true]> (tasks w)) w))
| l_put_task t k w : tasks w !! t = Some k -> (usage k = 1 -> sighand k = None) -> lstep w (put_task_struct t w)
| l_new_mm m w : mms w !! m = None -> lstep w (set_others (plus (others w) m 1) (set_mms (<[m := 1]> (mms w)) w))
| l_mmgrab m c w : mms w !! m = Some c -> 0 < others w m ->
    lstep w (set_others (plus (others w) m 1) (set_mms (<[m := c + 1]> (mms w)) w))
| l_mmdrop m w : 0 < others w m -> (m = init_mm -> 1 < others w m) -> lstep w (mmdrop m (set_others (plus (others w) m (-1)) w))
| l_oom_victim s g m c w : signals w !! s = Some g -> oom_mm g = None -> mms w !! m = Some c -> 0 < others w m ->
    lstep w (set_signals (<[s := Sigst (sigcnt g) (Some m) (oom_score_adj g) (oom_score_adj_min g)]> (signals w))
      (set_mms (<[m := c + 1]> (mms w)) w))
| l_worker w : lstep w (mmdrop_async_fn shootdown debug online init_mm w)
| l_lazy_on cpu m c w : active w !! cpu = None -> mms w !! m = Some c -> 0 < others w m ->
    lstep w (lazy_on cpu m (if shootdown then w else set_mms (<[m := c + 1]> (mms w)) w))
| l_lazy_off cpu m w : active w !! cpu = Some m -> lstep w (if shootdown then lazy_off cpu w else mmdrop m (lazy_off cpu w)).

Lemma held_not_queued es eh em w m c : inv es eh em w -> mms w !! m = Some c -> 0 < others w m -> m ∉ work w.
Proof.
  intros Hi Hm Ho Hw. destruct (i_mm _ _ _ _ Hi m) as (_ & He & Hx). rewrite Hm in Hx. destruct Hx as [Hc Hx]. apply Hx in Hw.
  unfold mm_refs in Hc. pose proof (count_nonneg (has_oom m) (signals w)). pose proof (count_nonneg (uses_mm m) (active w)). destruct shootdown; lia.
Qed.

Lemma new_ref_ok w m c :
  ok w -> default 0 (mms w !! m) = c -> m ∉ work w -> ok (set_others (plus (others w) m 1) (set_mms (<[m := c + 1]> (mms w)) w)).
Proof.
  intros Hi Hc Hw. pose proof (ref_mm_ok _ _ _ w m c Hi Hc Hw) as H1. destruct (i_mm _ _ _ _ Hi m) as (Ho & _).
  eapply inv_ext; [apply (others_ok _ _ _ _ m 1 H1)|..]; cbn; try done.
  - lia.
  - rewrite plus_eq. lia.
  - pose proof (i_init _ _ _ _ Hi). rewrite plus_at. destruct (_ =? _); cbn; lia.
  - intros x. rewrite !plus_at. lia.
Qed.

Lemma mmdrop_step w m : ok w -> 0 < others w m -> (m = init_mm -> 1 < others w m) -> ok (mmdrop m (set_others (plus (others w) m (-1)) w)).
Proof.
  intros Hi Ho Hin. assert (inv none none (plus none m 1) (set_others (plus (others w) m (-1)) w)) as H1.
  { apply (others_ok _ _ _ w m (-1) Hi); [lia|lia|]. pose proof (i_init _ _ _ _ Hi). rewrite plus_at.
    destruct (Z.eqb_spec m init_mm) as [->|]; cbn; [specialize (Hin eq_refl)|]; lia. }
  eapply inv_ext; [apply (mmdrop_ok _ _ _ _ m H1); rewrite plus_eq; lia|done|done|]. intros x. rewrite !plus_at. lia.
Qed.

Lemma lazy_on_step w cpu m c :
  ok w -> active w !! cpu = None -> mms w !! m = Some c -> 0 < others w m ->
  ok (lazy_on cpu m (if shootdown then w else set_mms (<[m := c + 1]> (mms w)) w)).
Proof.
  intros Hi Ha Hm Ho. destruct shootdown eqn:Hsd.
  - pose proof (lazy_on_ok _ _ _ w cpu m Hi Ha ltac:(eauto) ltac:(congruence)) as H1. by rewrite Hsd in H1.
  - pose proof (ref_mm_ok _ _ _ w m c Hi ltac:(by rewrite Hm) (held_not_queued _ _ _ w m c Hi Hm Ho)) as H1.
    pose proof (lazy_on_ok _ _ _ _ cpu m H1 Ha) as H2. rewrite Hsd in H2. eapply inv_ext; [apply H2|..]; try done.
    + cbn. rewrite lookup_insert_eq. eauto.
    + intros _. rewrite plus_eq. lia.
    + intros x. rewrite !plus_at. lia.
Qed.

Lemma lazy_off_step w cpu m : ok w -> active w !! cpu = Some m -> ok (if shootdown then lazy_off cpu w else mmdrop m (lazy_off cpu w)).
Proof.
  intros Hi Ha. pose proof (lazy_off_ok _ _ _ w cpu m Hi Ha) as H1. destruct shootdown eqn:Hsd; [done|].
  eapply inv_ext; [apply (mmdrop_ok _ _ _ _ m H1); rewrite plus_eq; lia|done|done|]. intros x. rewrite !plus_at. lia.
Qed.

Lemma release_step w t k h :
  ok w -> tasks w !! t = Some k -> sighand k = Some h ->
  ok (__cleanup_sighand h (set_tasks (<[t := Tsk (usage k) (signal k) None true]> (tasks w)) w)).
Proof.
  intros Hi Ht Hh. destruct (i_task _ _ _ _ Hi t k Ht) as [Hu _].
  pose proof (set_task_ok _ _ _ w t k (Tsk (usage k) (signal k) None true) Hi Ht ltac:(done) ltac:(done) ltac:(by right)) as H1.
  rewrite Hh in H1. cbn in H1. eapply inv_ext; [apply (cleanup_sighand_ok _ _ _ _ h H1); rewrite plus_eq; lia|done| |done].
  intros x. rewrite !plus_at. lia.
Qed.

(** A change to a task that leaves what it refers to. *)
Lemma same_refs_ok w t k k' :
  ok w -> tasks w !! t = Some k -> task_ok k' -> signal k' = signal k -> sighand k' = sighand k -> ok (set_tasks (<[t := k']> (tasks w)) w).
Proof.
  intros Hi Ht Hk Hs Hh. eapply inv_ext; [apply (set_task_ok _ _ _ w t k k' Hi Ht Hk Hs ltac:(by left))|done| |done].
  intros x. cbn. rewrite Hh, !oplus_at. lia.
Qed.

Lemma oom_step w s g m c :
  ok w -> signals w !! s = Some g -> oom_mm g = None -> mms w !! m = Some c -> 0 < others w m ->
  ok (set_signals (<[s := Sigst (sigcnt g) (Some m) (oom_score_adj g) (oom_score_adj_min g)]> (signals w)) (set_mms (<[m := c + 1]> (mms w)) w)).
Proof.
  intros Hi Hs Hg Hm Ho. pose proof (ref_mm_ok _ _ _ w m c Hi ltac:(by rewrite Hm) (held_not_queued _ _ _ w m c Hi Hm Ho)) as H1.
  eapply inv_ext; [apply (oom_mm_ok _ _ _ _ s g m H1 Hs Hg); rewrite plus_eq; lia|done|done|]. intros x. rewrite !plus_at. lia.
Qed.

Lemma lstep_ok w w' : ok w -> lstep w w' -> ok w'.
Proof.
  intros Hi Hst. destruct Hst.
  - pose proof (life_copy_process w fl cur k child nh ns err has_mm adj) as Hc. destruct (copy_process _ _ _ _ _ _ _ _ w). by apply Hc.
  - destruct (i_task _ _ _ _ Hi t k) as [Hu Hh]; [done|]. apply (same_refs_ok w t k); try done. split; [cbn; lia|done].
  - destruct (i_task _ _ _ _ Hi t k) as [Hu Hh]; [done|]. by apply (same_refs_ok w t k).
  - by apply (release_step w t k).
  - by apply (put_task_ok w t k).
  - apply (new_ref_ok w m 0 Hi); [by rewrite H|]. destruct (i_mm _ _ _ _ Hi m) as (_ & _ & Hx). rewrite H in Hx. apply Hx.
  - apply (new_ref_ok w m c Hi); [by rewrite H|]. by apply (held_not_queued _ _ _ w m c Hi).
  - by apply mmdrop_step.
  - by apply oom_step.
  - by apply mmdrop_async_fn_ok.
  - by apply lazy_on_step.
  - by apply lazy_off_step.
Qed.

(** The world at boot: the first task, with its signals and handlers, on the kernel's address space. *)
Definition boot : world :=
  World {[1 := Tsk 2 1 (Some 1) false]} {[1 := Sigst 1 None 0 0]} {[1 := 1]} {[init_mm := 1]} ∅ (fun _ => []) []
    (fun m => if decide (m = init_mm) then 1 else 0) false.

Lemma boot_ok : ok boot.
Proof.
  split; cbn; try done.
  - intros s. split; [done|]. rewrite count_singleton. unfold has_signal. cbn [signal].
    destruct (Z.eqb_spec 1 s) as [<-|]; [rewrite lookup_singleton_eq|rewrite lookup_singleton_ne by done]; cbn; lia.
  - intros h. split; [done|]. rewrite count_singleton. unfold has_sighand. cbn [sighand].
    destruct (decide (1 = h)) as [<-|]; [rewrite bool_decide_eq_true_2 by done; rewrite lookup_singleton_eq
      |rewrite bool_decide_eq_false_2 by congruence; rewrite lookup_singleton_ne by done]; cbn; lia.
  - intros t k. destruct (decide (1 = t)) as [<-|]; [rewrite lookup_singleton_eq; by intros [= <-]|by rewrite lookup_singleton_ne].
  - intros m. assert (mm_refs m boot = if decide (m = init_mm) then 1 else 0) as ->.
    { unfold mm_refs. cbn. rewrite count_singleton, count_empty. unfold has_oom. cbn [oom_mm].
      rewrite bool_decide_eq_false_2 by done. destruct shootdown; cbn; lia. }
    destruct (decide (m = init_mm)) as [->|Hne]; [rewrite lookup_singleton_eq|rewrite lookup_singleton_ne by done];
      split_and!; try done; [|by intros ?%not_elem_of_nil]. by split; [|intros ?%not_elem_of_nil].
  - constructor.
  - by rewrite decide_True.
Qed.

Lemma reachable_ok w : rtc lstep boot w -> ok w.
Proof. intros Hr. pose proof boot_ok as Hb. revert Hb. induction Hr as [|a b c Hab _ IH]; [done|]. intros Ha. apply IH. by eapply lstep_ok. Qed.

Lemma signals_used w s : ok w -> is_Some (signals w !! s) <-> exists t k, tasks w !! t = Some k /\ signal k = s.
Proof.
  intros Hi. destruct (i_sig _ _ _ _ Hi s) as [_ Hs]. split.
  - intros [g Hg]. rewrite Hg in Hs. destruct (count_pos_inv (has_signal s) (tasks w)) as (t & k & Ht & Hk%Z.eqb_eq); [lia|eauto].
  - intros (t & k & Ht & <-). by eapply task_signal.
Qed.

Lemma sighands_used w h : ok w -> is_Some (sighands w !! h) <-> exists t k, tasks w !! t = Some k /\ sighand k = Some h.
Proof.
  intros Hi. destruct (i_hand _ _ _ _ Hi h) as [_ Hs]. split.
  - intros [g Hg]. rewrite Hg in Hs. destruct (count_pos_inv (has_sighand h) (tasks w)) as (t & k & Ht & Hk%bool_decide_eq_true_1); [lia|eauto].
  - intros (t & k & Ht & Hk). by eapply task_sighand.
Qed.

(** C36. However forks, exits, references taken and put, OOM marks, the worker and CPUs that borrow address
    spaces follow each other: nothing freed is ever used; signals and handlers exist exactly while some task
    has them; the count of an address space is the number of references there are, and it is 0 exactly
    while the address space waits for the worker; and no CPU runs on an address space that is gone. *)
Theorem lifetimes_exact w :
  rtc lstep boot w ->
  bad w = false /\
  (forall s, is_Some (signals w !! s) <-> exists t k, tasks w !! t = Some k /\ signal k = s) /\
  (forall h, is_Some (sighands w !! h) <-> exists t k, tasks w !! t = Some k /\ sighand k = Some h) /\
  (forall m c, mms w !! m = Some c -> c = mm_refs m w /\ (c = 0 <-> m ∈ work w)) /\
  (forall m, mms w !! m = None -> mm_refs m w = 0) /\
  (forall cpu m, active w !! cpu = Some m -> is_Some (mms w !! m)).
Proof.
  intros Hr%reachable_ok. split_and!; [apply Hr|by intros; apply signals_used|by intros; apply sighands_used|..].
  - intros m c Hm. destruct (i_mm _ _ _ _ Hr m) as (_ & _ & Hx). rewrite Hm in Hx. rewrite Z.add_0_r in Hx. done.
  - intros m Hm. destruct (i_mm _ _ _ _ Hr m) as (_ & _ & Hx). rewrite Hm in Hx. lia.
  - intros cpu m Ha. by apply (i_active _ _ _ _ Hr cpu).
Qed.

(** A failing fork changes nothing in any reachable world. *)
Lemma failed_fork_restores w fl cur k child nh ns err mm adj :
  rtc lstep boot w -> tasks w !! cur = Some k -> exit_state k = false -> tasks w !! child = None ->
  (forall h, nh = Some h -> sighands w !! h = None) -> (forall s, ns = Some s -> signals w !! s = None) ->
  (copy_process fl cur child nh ns err mm adj w).1 <> 0 -> (copy_process fl cur child nh ns err mm adj w).2 = w.
Proof.
  intros Hr%reachable_ok Hk He Hch Hnh Hns. pose proof (life_copy_process w fl cur k child nh ns err mm adj Hr Hk He Hch Hnh Hns) as Hc.
  destruct (copy_process _ _ _ _ _ _ _ _ w). apply Hc.
Qed.
End spec.

(** A process is forked, exits and is reaped, while CPU 0 borrows address space 5 until that is dropped. *)
Module Demo.
Definition w0 : world := boot 0.
Definition w1 : world := (copy_process 0 1 2 (Some 2) (Some 2) 0 true (0, 0) w0).2.
Definition w2 : world := set_others (plus (others w1) 5 1) (set_mms (<[5 := 1]> (mms w1)) w1).
Definition w3 : world := lazy_on 0 5 w2.
Definition w4 : world := mmdrop true true [0; 1] 0 5 (set_others (plus (others w3) 5 (-1)) w3).
Definition w5 : world := set_tasks (<[2 := Tsk 1 2 (Some 2) true]> (tasks w4)) w4.
Definition w6 : world := __cleanup_sighand 2 (set_tasks (<[2 := Tsk 1 2 None true]> (tasks w5)) w5).
Definition w7 : world := put_task_struct 2 w6.

Lemma run : rtc (lstep true true [0; 1] 0) w0 w7.
Proof.
  apply (rtc_l _ _ w1). { apply (l_fork true true [0; 1] 0 0 1 (Tsk 2 1 (Some 1) false)); try done; by intros ? [= <-]. }
  apply (rtc_l _ _ w2). { by apply l_new_mm. }
  apply (rtc_l _ _ w3). { by apply (l_lazy_on true true [0; 1] 0 0 5 1 w2). }
  apply (rtc_l _ _ w4). { by apply l_mmdrop. }
  apply (rtc_l _ _ w5). { by apply (l_exit true true [0; 1] 0 2 (Tsk 1 2 (Some 2) false) w4). }
  apply (rtc_l _ _ w6). { by apply (l_release true true [0; 1] 0 2 (Tsk 1 2 (Some 2) true) 2 w5). }
  apply rtc_once. by apply (l_put_task true true [0; 1] 0 2 (Tsk 1 2 None true)).
Qed.
End Demo.

Lemma lifetimes_exact_witness :
  rtc (lstep true true [0; 1] 0) Demo.w0 Demo.w7 /\ bad Demo.w7 = false /\ tasks Demo.w7 !! 2 = None /\ signals Demo.w7 !! 2 = None /\
  sighands Demo.w7 !! 2 = None /\ mms Demo.w7 !! 5 = None /\ active Demo.w7 !! 0 = Some 0 /\ is_Some (mms Demo.w7 !! 0).
Proof.
  destruct (lifetimes_exact true true [0; 1] 0 Demo.w7 Demo.run) as (Hb & _ & _ & _ & _ & Ha). split; [exact Demo.run|]. split; [exact Hb|].
  repeat (split; [reflexivity|]). exact (Ha 0 0 eq_refl).
Defined.
End TaskLifeSpec.
