(* ===== verification/StackUp.v ===== *)
(** * Growing a stack up ([mm/mmap.c], [CONFIG_STACK_GROWSUP])

    The other side of the configuration that [Stack] models: [expand_upwards],
    [find_extend_vma_locked] and [expand_stack] where stacks grow towards higher addresses.
    [VM_GROWSUP] is then a flag of its own. *)
From S2P Require Import Prelude Gate Vma Mm MmSpec Brk BrkSpec Mmap MmapSpec MergeSpec Stack.

Module StackUp.
Import Mm Stack.

Section ops.
Context {T : Type} `{VmaTree T} (e : stack_env) (VM_GROWSUP : Z).
Implicit Types m : mm_struct T.

(** The result, and the address space with the charge of an accepted growth. *)
Definition acct_stack_growth (v : vma) (size grow : Z) m : Z * mm_struct T :=
  if negb (may_expand_vm (svm e) m (vm_flags v) grow) then (- ENOMEM, m)
  else if rlimit_stack (svm e) <? size then (- ENOMEM, m)
  else if negb (mlock_future_ok (svm e) m (vm_flags v) (grow <<u PAGE_SHIFT)) then (- ENOMEM, m)
  else
    let new_start := if flag_set (vm_flags v) VM_GROWSUP then vm_start v else vm_end v -u size in
    if is_hugepage_only_range e new_start size then (- EFAULT, m)
    else
      let '(granted, m) := vm_enough_memory (svm e) grow m in
      if negb granted then (- ENOMEM, m) else (0, m).

(** The result, the area as it is afterwards, and the address space. *)
Definition expand_upwards (v : vma) (address : Z) m : Z * vma * mm_struct T :=
  if negb (flag_set (vm_flags v) VM_GROWSUP) then (- EFAULT, v, m)
  else
    let address := Z.land address PAGE_MASK in
    if Z.land TASK_SIZE PAGE_MASK <=? address then (- ENOMEM, v, m)
    else
      let address := address +u PAGE_SIZE in
      let gap_addr := address +u guard_gap e in
      let gap_addr := if (gap_addr <? address) || (TASK_SIZE <? gap_addr) then TASK_SIZE else gap_addr in
      if match find_vma_intersection m (vm_end v) gap_addr with
         | Some next => flag_set (vm_flags next) VM_ACCESS_FLAGS && negb (flag_set (vm_flags next) VM_GROWSUP)
         | None => false
         end
      then (- ENOMEM, v, m)
      else if negb (iter_prealloc_ok (svm e) v) then (- ENOMEM, v, m)
      else
        match anon_vma_prepare e v with
        | None => (- ENOMEM, v, m)
        | Some a =>
            let v := set_anon_vma (Some a) v in
            let m := set_areas (vma_write (vm_id v) (set_anon_vma (Some a)) (mm_mt m))
                               (map_count m) (next_id m) m in
            if vm_end v <? address then
              let size := address -u vm_start v in
              let grow := (address -u vm_end v) >>u PAGE_SHIFT in
              if vm_pgoff v <=? vm_pgoff v +u (size >>u PAGE_SHIFT) then
                let '(error, m) := acct_stack_growth v size grow m in
                if negb (error =? 0) then (error, v, m)
                else
                  let c := if flag_set (vm_flags v) VM_LOCKED then add_locked grow (ctr m) else ctr m in
                  let c := vm_stat_account (svm e) (vm_flags v) grow c in
                  let v' := set_end address v in
                  let t := mt_store v' (vma_write (vm_id v) (fun _ => v') (mm_mt m)) in
                  (0, v', set_ctr c (set_areas t (map_count m) (next_id m) m))
              else (- ENOMEM, v, m)
            else (0, v, m)
        end.

Definition expand_stack_locked := expand_upwards.

(** The area that now holds the address, if there is one. *)
Definition find_extend_vma_locked (addr : Z) m : option vma * mm_struct T :=
  let addr := Z.land addr PAGE_MASK in
  let '(vma, prev) := find_vma_prev m addr in
  if match vma with Some v => vm_start v <=? addr | None => false end then (vma, m)
  else match prev with
       | None => (None, m)
       | Some prev =>
           let '(err, prev, m) := expand_stack_locked prev addr m in
           if negb (err =? 0) then (None, m) else (Some prev, m)
       end.

(** [expand_stack]: called with the lock held for reading, which it keeps only when it
    finds or makes an area.  No area grows down in this configuration. *)
Definition expand_stack (addr : Z) m : option vma * mm_struct T :=
  let m := set_lock Unlocked m in
  if lock_killed (svm e) then (None, m)
  else
    let m := set_lock WriteLocked m in
    let '(vma, prev) := find_vma_prev m addr in
    if match vma with Some v => vm_start v <=? addr | None => false end then (vma, set_lock ReadLocked m)
    else match prev with
         | Some prev =>
             let '(err, prev, m) := expand_upwards prev addr m in
             if err =? 0 then (Some prev, set_lock ReadLocked m) else (None, set_lock Unlocked m)
         | None => (None, set_lock Unlocked m)
         end.
End ops.

Import MmSpec BrkSpec MmapSpec.

(** ** Properties *)

Section spec.
Context {T : Type} `{VmaTree T} (e : stack_env) (VM_GROWSUP : Z).
Implicit Types m : mm_struct T.
Notation areas m := (vmas (mm_mt m)).

(** The stack [v] has become [v'], which ends at [hi]. *)
Record grown_up (hi : Z) (v v' : vma) m m' : Prop := {
  gu_wf : mm_wf m';
  gu_stack : flag_set (vm_flags v) VM_GROWSUP = true;
  gu_shape : vm_start v' = vm_start v /\ vm_end v' = hi /\ vm_flags v' = vm_flags v /\ vm_file v' = vm_file v /\
             vm_pgoff v' = vm_pgoff v;
  gu_in : v' ∈ areas m';
  gu_view a : view (areas m') a =
    if decide (vm_end v <= a < hi) then Some (page_of v' a) else view (areas m) a;
  gu_total : total_vm (ctr m') = total_vm (ctr m) + (hi - vm_end v) / PAGE_SIZE;
  gu_committed : committed m' = committed m + (hi - vm_end v) / PAGE_SIZE;
  gu_limit : hi - vm_start v <= rlimit_stack (svm e);
  gu_guard x : first_area (vm_end v) ULONG_MAX (areas m) = Some x ->
    flag_set (vm_flags x) VM_GROWSUP = false -> flag_set (vm_flags x) VM_ACCESS_FLAGS = true ->
    hi + guard_gap e <= vm_start x;
  gu_lock : mmap_lock m' = mmap_lock m
}.

Lemma acct_up_cases v size grow m err m' :
  acct_stack_growth e VM_GROWSUP v size grow m = (err, m') ->
  (err <> 0 /\ m' = m) \/
  (err = 0 /\ m' = set_committed (committed m + grow) m /\ size <= rlimit_stack (svm e)).
Proof.
  unfold acct_stack_growth, vm_enough_memory.
  destruct (negb _); [intros [= <- <-]; by left|].
  destruct (Z.ltb_spec (rlimit_stack (svm e)) size); [intros [= <- <-]; by left|].
  destruct (negb _); [intros [= <- <-]; by left|].
  destruct (is_hugepage_only_range _ _ _); [intros [= <- <-]; by left|].
  destruct (enough_memory _ _); intros [= <- <-]; [by right|by left].
Qed.

(** The new extent of the stack stored in the tree. *)
Lemma grow_up_placed m l v k hi v' :
  mm_wf m -> areas m = l ++ v :: k -> Forall (fun x => hi <= vm_start x) k ->
  vm_end v < hi <= TASK_SIZE -> hi mod PAGE_SIZE = 0 -> v' = set_end hi v ->
  placed (vm_end v) (hi - vm_end v) (vm_flags v) (vm_file v) (vm_pgoff v + (vm_end v / PAGE_SIZE - vm_start v / PAGE_SIZE)) v' m
    (set_areas (mt_store v' (vma_write (vm_id v) (fun _ => v') (mm_mt m))) (map_count m) (next_id m) m).
Proof.
  intros Hwf Hm Hk Hhi Hal ->. pose proof (wf_areas m Hwf) as Hok. rewrite Hm in Hok.
  apply areas_ok_app in Hok as (_ & (Hv & _ & _)%areas_ok_cons & Hb). destruct Hv.
  rewrite <- (Z.sub_0_r (map_count m)). apply place_after with (l := l) (k := k); cbn; try done; try lia.
  - constructor; try done; try lia.
    + by rewrite Hm, <- app_assoc.
    + apply Forall_app. split; [|by constructor; [lia|]]. apply Forall_forall. intros y Hy.
      specialize (Hb y v Hy ltac:(by left)). unfold before in Hb. lia.
    + eapply Forall_impl; [exact Hk|]. cbn. lia.
    + split; [lia|]. unfold PAGE_SIZE in *. Z.to_euclidean_division_equations; lia.
  - constructor; [done|done|]. f_equal. lia.
Qed.

(** The pages placed in the charged address space, once accounted for. *)
Lemma account_up m m1 m3 v v' hi pg c :
  mm_wf m -> resplit m m1 -> vm_end v < hi <= TASK_SIZE -> vma_ok v ->
  let grow := (hi - vm_end v) / PAGE_SIZE in
  placed (vm_end v) (hi - vm_end v) (vm_flags v) (vm_file v) pg v' (set_committed (committed m1 + grow) m1) m3 ->
  pg = vm_pgoff v + (vm_end v / PAGE_SIZE - vm_start v / PAGE_SIZE) ->
  v' = set_end hi (set_anon_vma (anon_vma v') v) ->
  total_vm c = total_vm (ctr m1) +u grow ->
  flag_set (vm_flags v) VM_GROWSUP = true -> hi - vm_start v <= rlimit_stack (svm e) ->
  (forall x, first_area (vm_end v) ULONG_MAX (areas m) = Some x ->
    flag_set (vm_flags x) VM_GROWSUP = false -> flag_set (vm_flags x) VM_ACCESS_FLAGS = true ->
    hi + guard_gap e <= vm_start x) ->
  grown_up hi v v' m (set_ctr c m3).
Proof.
  intros Hwf [Hwf1 Hfr Hsame _] Hhi Hv grow [Hok Hnd Hfresh Hcnt Hpg Hview Hin [Hc3 _ _ _ _ _ _ Hlk3 Hcm3]]
    Hpgv Hv' Htot Hgu Hlim Hguard.
  assert (Htot' : total_vm c = total_vm (ctr m) + grow).
  { rewrite Htot, (fr_ctr _ _ Hfr). subst grow. rewrite <- shift_page at 1.
    apply total_after; [done|]. destruct Hv. lia. }
  assert (Hpages : pages (areas m1) = pages (areas m)).
  { rewrite <- (wf_total m Hwf), <- (wf_total m1 Hwf1). by rewrite (fr_ctr _ _ Hfr). }
  constructor; try done.
  - constructor; cbn; try done. cbn in Hpg. rewrite Hpg, Hpages, Htot', (wf_total m Hwf). done.
  - rewrite Hv'. done.
  - intros a. cbn in Hview |- *. rewrite Hview, <- Hsame.
    replace (vm_end v + (hi - vm_end v)) with hi by lia.
    destruct (decide _); [|done]. f_equal. symmetry. apply fits_page. rewrite Hv'. constructor; [done|done|].
    subst pg. cbn. f_equal. lia.
  - cbn in Hcm3 |- *. rewrite Hcm3, (fr_committed _ _ Hfr). done.
  - cbn in Hlk3 |- *. rewrite Hlk3. apply Hfr.
Qed.

(** The test of the area above keeps the gap, with the top of the address space in between. *)
Lemma guard_kept m v hi x (gap_addr := hi +u guard_gap e) :
  mm_wf m -> is_u64 (guard_gap e) -> 0 < hi <= TASK_SIZE -> first_area (vm_end v) ULONG_MAX (areas m) = Some x ->
  match find_vma_intersection m (vm_end v) (if (gap_addr <? hi) || (TASK_SIZE <? gap_addr) then TASK_SIZE else gap_addr) with
  | Some next => flag_set (vm_flags next) VM_ACCESS_FLAGS && negb (flag_set (vm_flags next) VM_GROWSUP)
  | None => false
  end = false ->
  flag_set (vm_flags x) VM_GROWSUP = false -> flag_set (vm_flags x) VM_ACCESS_FLAGS = true -> hi + guard_gap e <= vm_start x.
Proof.
  intros Hwf Hg Hhi Hx Hnext Hngu Hacc. pose proof (find_first (vm_end v) ULONG_MAX (areas m) (wf_areas m Hwf)) as Hff. rewrite Hx in Hff.
  destruct Hff as (l & k & Hm & Hl & Hend & _). pose proof (wf_areas m Hwf) as Hok. rewrite Hm in Hok.
  apply areas_ok_app in Hok as (_ & ([X1 X2 X3 _ _] & _ & _)%areas_ok_cons & _).
  destruct (Z.le_gt_cases (hi + guard_gap e) (vm_start x)) as [Hle|Hgt]; [done|exfalso].
  assert (exists top, (if (gap_addr <? hi) || (TASK_SIZE <? gap_addr) then TASK_SIZE else gap_addr) = top /\ vm_start x < top <= TASK_SIZE)
    as (top & Htop & Hlt).
  { eexists. split; [done|]. unfold gap_addr. destruct (Z.ltb_spec (hi +u guard_gap e) hi); cbn [orb]; [unfold is_u64 in *; lia|].
    destruct (Z.ltb_spec TASK_SIZE (hi +u guard_gap e)); [unfold is_u64 in *; lia|]. unfold is_u64 in *.
    assert (hi + guard_gap e < 2 ^ 64). { destruct (Z.lt_ge_cases (hi + guard_gap e) (2 ^ 64)); [done|].
      unfold TASK_SIZE, PAGE_SIZE in *. word_lia. }
    rewrite u64_small in * by lia. lia. }
  rewrite Htop in Hnext. unfold find_vma_intersection in Hnext.
  rewrite mt_find_spec, Hm, (MergeSpec.first_met _ _ l x k) in Hnext; [by rewrite Hngu, Hacc in Hnext| |done|].
  { eapply Forall_impl; [exact Hl|]. by left. }
  rewrite u64_small; unfold TASK_SIZE, PAGE_SIZE in *; lia.
Qed.

(** The end of the page of an address below the top of the address space. *)
Lemma page_end_bounds address (lo := page_start address) :
  is_u64 address -> lo < TASK_SIZE ->
  lo +u PAGE_SIZE = lo + PAGE_SIZE /\ lo + PAGE_SIZE <= TASK_SIZE /\ (lo + PAGE_SIZE) mod PAGE_SIZE = 0 /\
  forall x, x mod PAGE_SIZE = 0 -> address < x -> lo + PAGE_SIZE <= x.
Proof.
  intros Ha Hts. destruct (page_start_bounds address Ha) as ([Hlo0 Hlo1] & Hlo2 & Hal). fold lo in Hlo0, Hlo1, Hlo2, Hal.
  assert (lo + PAGE_SIZE <= TASK_SIZE) as Htop by (unfold TASK_SIZE, PAGE_SIZE in *; Z.to_euclidean_division_equations; lia).
  split_and!; [apply u64_small; unfold TASK_SIZE, PAGE_SIZE in *; lia|done|unfold PAGE_SIZE in *; Z.to_euclidean_division_equations; lia|].
  intros x Hx Hlt. unfold PAGE_SIZE in *. Z.to_euclidean_division_equations; lia.
Qed.

Lemma expand_up_shape v address m l k err v' m' :
  mm_wf m -> is_u64 address -> is_u64 (guard_gap e) -> areas m = l ++ v :: k -> vm_end v <= address ->
  Forall (fun x => address < vm_start x) k -> expand_upwards e VM_GROWSUP v address m = (err, v', m') ->
  (err <> 0 /\ resplit m m') \/ (err = 0 /\ grown_up (page_start address + PAGE_SIZE) v v' m m').
Proof.
  intros Hwf Ha Hg Hm Hle Hk. unfold expand_upwards. fold (page_start address).
  destruct (page_start_bounds address Ha) as ([Hlo0 Hlo1] & Hlo2 & Hal). set (lo := page_start address) in *.
  pose proof (wf_areas m Hwf) as Hok. rewrite Hm in Hok. apply areas_ok_app in Hok as (_ & (Hv & [_ Hkok] & _)%areas_ok_cons & _).
  pose proof (resplit_refl m Hwf) as Hrefl.
  destruct (flag_set (vm_flags v) VM_GROWSUP) eqn:Hgu; cbn [negb]; [|intros [= <- <- <-]; by left].
  change (Z.land TASK_SIZE PAGE_MASK) with TASK_SIZE. destruct (Z.leb_spec TASK_SIZE lo) as [|Hts]; [intros [= <- <- <-]; by left|].
  destruct (page_end_bounds address Ha Hts) as (Hsum & Htop & Hhal & Hup). fold lo in Hsum, Htop, Hhal, Hup. rewrite Hsum.
  assert (vm_end v <= lo) as Hvl by (destruct Hv; by apply aligned_below_page).
  assert (Forall (fun x => lo + PAGE_SIZE <= vm_start x) k) as Hkhi.
  { apply Forall_forall. intros x Hx. rewrite Forall_forall in Hk, Hkok. destruct (Hkok x Hx). by apply Hup, Hk. }
  set (hi := lo + PAGE_SIZE) in *. assert (vm_end v < hi) as Hvhi by (subst hi; unfold PAGE_SIZE; lia).
  destruct (match find_vma_intersection _ _ _ with Some _ => _ | None => _ end) eqn:Hnext; [intros [= <- <- <-]; by left|].
  destruct (negb (iter_prealloc_ok _ _)); [intros [= <- <- <-]; by left|].
  destruct (anon_vma_prepare e v) as [a|]; [|intros [= <- <- <-]; by left].
  cbv zeta. change (vm_id (set_anon_vma (Some a) v)) with (vm_id v). fold (anchor v a m).
  set (v1 := set_anon_vma (Some a) v) in *. set (m1 := anchor v a m) in *.
  pose proof (anchor_resplit v a m Hwf) as Hrs. fold m1 in Hrs.
  change (vm_start v1) with (vm_start v). change (vm_end v1) with (vm_end v).
  change (vm_flags v1) with (vm_flags v). change (vm_pgoff v1) with (vm_pgoff v).
  rewrite (proj2 (Z.ltb_lt (vm_end v) hi)) by lia.
  assert (hi -u vm_start v = hi - vm_start v /\ hi -u vm_end v = hi - vm_end v) as [-> ->].
  { destruct Hv. unfold TASK_SIZE, PAGE_SIZE in *. split; apply u64_small; lia. }
  rewrite !shift_page. set (grow := (hi - vm_end v) / PAGE_SIZE).
  destruct (vm_pgoff v <=? _); [|intros [= <- <- <-]; by left].
  destruct (acct_stack_growth _ _ _ _ _ _) as [err0 m2] eqn:Hacct.
  apply acct_up_cases in Hacct as [[Hne ->]|(-> & -> & Hlimit)].
  { rewrite (proj2 (Z.eqb_neq err0 0)) by done. intros [= <- <- <-]. by left. }
  change (negb (0 =? 0)) with false. cbv iota. intros [= <- <- <-]. right. split; [done|].
  eapply (account_up m m1 _ v); try done.
  - apply (grow_up_placed (set_committed (committed m1 + grow) m1) l v1 k hi); try done; [|cbn].
    + by apply wf_committed, Hrs.
    + by apply anchor_areas.
  - cbn. rewrite account_total. by destruct (flag_set (vm_flags v) VM_LOCKED).
  - intros x Hx Hng Hacc. refine (guard_kept m v hi x Hwf Hg _ Hx Hnext Hng Hacc). unfold PAGE_SIZE in *. lia.
Qed.

(** The area below an address that no area holds, with the areas around it. *)
Lemma prev_split addr (l : list vma) p :
  areas_ok l -> match first_area addr ULONG_MAX l with Some v => addr < vm_start v | None => True end -> last_area addr l = Some p ->
  exists a k, l = a ++ p :: k /\ vm_end p <= addr /\ Forall (fun x => addr < vm_start x) k.
Proof.
  intros Hok Hf Hp. pose proof (find_first addr ULONG_MAX l Hok) as Hff. unfold last_area in Hp.
  destruct (first_area addr ULONG_MAX l) as [v|].
  - destruct Hff as (a & k & -> & Ha & Hend & _). apply areas_ok_app in Hok as (_ & (_ & [_ Hkok] & Hvk)%areas_ok_cons & _).
    assert (Forall (fun x => addr < vm_start x) k) as Hk.
    { apply Forall_forall. intros x Hx. specialize (Hvk x Hx). unfold before in Hvk. lia. }
    rewrite filter_app, (filter_all _ a Ha), (filter_none _ (v :: k)), app_nil_r in Hp.
    + apply last_Some in Hp as [a' ->]. exists a', (v :: k). rewrite <- app_assoc. apply Forall_app in Ha as [_ Ha%Forall_cons].
      split_and!; [done|apply Ha|by constructor].
    + constructor; [lia|]. apply Forall_forall. intros x Hx. specialize (Hvk x Hx). unfold before in Hvk.
      rewrite Forall_forall in Hkok. destruct (Hkok x Hx). lia.
  - rewrite filter_all in Hp.
    + apply last_Some in Hp as [a ->]. exists a, []. split_and!; [done| |constructor].
      destruct (Hff p) as [|Hx]; [set_solver|done|]. apply areas_ok_app in Hok as (_ & ([] & _)%areas_ok_cons & _).
      unfold TASK_SIZE, PAGE_SIZE, ULONG_MAX in *. lia.
    + apply Forall_forall. intros x Hx. destruct (Hff x Hx) as [|Hlt]; [done|]. destruct Hok as [_ Hok]. rewrite Forall_forall in Hok.
      destruct (Hok x Hx). unfold TASK_SIZE, PAGE_SIZE, ULONG_MAX in *. lia.
Qed.

(** A page fault at any address, where stacks grow up, returns from [expand_stack] with the read
    lock held and the area that holds the address, or with no lock and no area.  In the first
    case nothing changed, or the stack below the address grew up to the end of the page of the
    address: exactly those pages are new, with the stack's flags, file and offsets, they are
    counted and charged, the stack is within its resource limit, and an accessible ordinary
    area above keeps the guard gap.  In the second case the process sees the same pages,
    counters and charge. *)
Theorem expand_up_correct addr m :
  mm_wf m -> is_u64 addr -> is_u64 (guard_gap e) ->
  match expand_stack e VM_GROWSUP addr m with
  | (Some v, m') => mmap_lock m' = ReadLocked /\ mm_wf m' /\ v ∈ areas m' /\ covers v addr /\
      (m' = set_lock ReadLocked m \/
       exists old m1, m' = set_lock ReadLocked m1 /\ last_area addr (areas m) = Some old /\
         grown_up (page_start addr + PAGE_SIZE) old v (set_lock WriteLocked m) m1)
  | (None, m') => mmap_lock m' = Unlocked /\ mm_wf m' /\ same_pages (areas m) (areas m') /\
      ctr m' = ctr m /\ committed m' = committed m
  end.
Proof.
  intros Hwf Ha Hg. unfold expand_stack. pose proof (mm_wf_lock WriteLocked m Hwf) as Hwf'.
  destruct (lock_killed _); [split_and!; try done; by apply mm_wf_lock|].
  unfold find_vma_prev. cbn [mm_mt set_lock]. rewrite mt_find_spec, mas_prev_spec.
  pose proof (find_first addr ULONG_MAX (areas m) (wf_areas m Hwf)) as Hff. pose proof (prev_split addr (areas m)) as Hps.
  assert (Hfail : mmap_lock (set_lock Unlocked (set_lock WriteLocked m)) = Unlocked /\ mm_wf (set_lock Unlocked (set_lock WriteLocked m)))
    by (split; [done|by apply mm_wf_lock]).
  destruct (match first_area _ _ _ with Some _ => _ | None => _ end) eqn:Hin.
  { destruct (first_area addr ULONG_MAX (areas m)) as [v|]; [|done]. destruct Hff as (l & k & Hm & _ & Hend & _).
    split_and!; try done; [by apply mm_wf_lock|cbn; rewrite Hm; set_solver|split; lia|by left]. }
  destruct (last_area addr (areas m)) as [p|]; [|by destruct Hfail; split_and!].
  destruct (Hps p (wf_areas m Hwf)) as (l & k & Hm & Hp & Hk); [|done|].
  { destruct (first_area addr ULONG_MAX (areas m)); [lia|done]. }
  destruct (expand_upwards _ _ _ _ _) as [[err v'] m'] eqn:Hexp.
  apply (expand_up_shape _ _ _ l k) in Hexp; try done.
  destruct Hexp as [[Hne [Hw [] Hpg _]]|[-> Hgr]].
  - rewrite (proj2 (Z.eqb_neq err 0)) by done. split_and!; try done. by apply mm_wf_lock.
  - change (0 =? 0) with true. cbv iota. pose proof Hgr as [Hw _ (Hs & He & _) Hvin _ _ _ _ _ _].
    split_and!; try done; [by apply mm_wf_lock| |right; eauto].
    destruct (page_start_bounds addr Ha). unfold covers. rewrite Hs, He.
    pose proof (wf_areas m Hwf) as Hok. rewrite Hm in Hok. apply areas_ok_app in Hok as (_ & ([] & _)%areas_ok_cons & _). lia.
Qed.

(** The locked form gives an area that holds the page of the address, the one that did or a
    grown stack, or leaves the pages as they were. *)
Lemma find_extend_up addr m :
  mm_wf m -> is_u64 addr -> is_u64 (guard_gap e) ->
  match find_extend_vma_locked e VM_GROWSUP addr m with
  | (Some v, m') => mm_wf m' /\ v ∈ areas m' /\ covers v (page_start addr) /\
      (m' = m \/ exists old, last_area (page_start addr) (areas m) = Some old /\
         grown_up (page_start (page_start addr) + PAGE_SIZE) old v m m')
  | (None, m') => m' = m \/ resplit m m'
  end.
Proof.
  intros Hwf Ha0 Hg. unfold find_extend_vma_locked. fold (page_start addr).
  assert (is_u64 (page_start addr)) as Ha by (destruct (page_start_bounds addr Ha0); unfold is_u64 in *; lia).
  set (a := page_start addr) in *. unfold find_vma_prev. rewrite mt_find_spec, mas_prev_spec.
  pose proof (find_first a ULONG_MAX (areas m) (wf_areas m Hwf)) as Hff. pose proof (prev_split a (areas m)) as Hps.
  destruct (match first_area _ _ _ with Some _ => _ | None => _ end) eqn:Hin.
  { destruct (first_area a ULONG_MAX (areas m)) as [v|]; [|done]. destruct Hff as (l & k & Hm & _ & Hend & _).
    split_and!; [done|rewrite Hm; set_solver|split; lia|by left]. }
  destruct (last_area a (areas m)) as [p|]; [|by left].
  destruct (Hps p (wf_areas m Hwf)) as (l & k & Hm & Hp & Hk); [|done|].
  { destruct (first_area a ULONG_MAX (areas m)); [lia|done]. }
  unfold expand_stack_locked. destruct (expand_upwards _ _ _ _ _) as [[err v'] m'] eqn:Hexp.
  apply (expand_up_shape _ _ _ l k) in Hexp; try done. destruct Hexp as [[Hne Hrs]|[-> Hgr]].
  - rewrite (proj2 (Z.eqb_neq err 0)) by done. by right.
  - change (negb (0 =? 0)) with false. cbv iota. pose proof Hgr as [Hw _ (Hs & He & _) Hvin _ _ _ _ _ _].
    split_and!; [done|done| |right; eauto]. destruct (page_start_bounds a Ha). unfold covers. rewrite Hs, He.
    pose proof (wf_areas m Hwf) as Hok. rewrite Hm in Hok. apply areas_ok_app in Hok as (_ & ([] & _)%areas_ok_cons & _). lia.
Qed.
End spec.

(** A stack of two pages below a heap: a fault a page above it adds the page, one inside the
    guard gap of the heap is refused. *)
Definition up_mm : mm_struct (list vma) :=
  MmStruct [anon_area 1 65536 73728 0x100273; anon_area 2 4194304 4202496 0x100073] 2
    (Counters 4 0 4 0 0) 102400 65536 0 0 0 4194304 ReadLocked 4 3.

Example fault_above_stack :
  total_vm (ctr (snd (expand_stack stack_env0 0x200 73800 up_mm))) = 5 /\
  fst (expand_stack stack_env0 0x200 4100000 up_mm) = None.
Proof. by vm_compute. Qed.
End StackUp.
